(* ===== verification/_CoqProject ===== *)
-Q . S2P
Prelude.v
Text.v
BashArity.v
DenyMatch.v
PathNorm.v
ExecPolicy.v
ExecPolicySpec.v
Providers.v
ProvidersSpec.v
WorkModel.v
WorkValidate.v
WorkGraphs.v
WorkInvariant.v
WorkReducer.v
WorkReducerFacts.v
WorkSpec.v
PlanTodo.v
PlanTodoSpec.v
WorkModelSpec.v
ReviewRepair.v
Gates.v
WorkflowPlan.v
WorkflowOrder.v
WorkflowIndex.v
WorkflowPlanSpec.v
WorkflowRoles.v
WorkflowIr.v
WorkflowMock.v
WorkflowMockSpec.v
WorkflowMockBounds.v
WorkflowPromotion.v
WorkflowElevation.v
WorkflowElevationSpec.v
WorkflowReplay.v
WorkflowReplaySpec.v
CommandSafety.v
CommandSafetySpec.v
CommandVerdicts.v
WorkImport.v
WorkEdits.v
WorkRuntime.v
WorkEditFacts.v
WorkRuntimeFacts.v
WorkRuntimeSpec.v
WorkSessions.v
WorkDigest.v
PromptReanchor.v
Redaction.v
Json.v
Tools.v
ReadRepeat.v
ArgRepair.v
ToolDispatch.v
FleetExact.v
FleetStore.v
FleetReasoning.v
FleetSnapshot.v
ModelPolicy.v
ModelPolicySpec.v
ToolHistory.v
ToolHistorySpec.v
Authority.v
WorkerProfile.v
AuthoritySpec.v
NetworkPolicy.v
NetworkPolicySpec.v
FleetProtocol.v
FleetLedger.v
FleetLedgerFacts.v
FleetLedgerInv.v
FleetLedgerSpec.v
FleetLedgerText.v
FleetCompact.v
FleetScheduler.v
FleetSchedulerSpec.v
ModelNames.v
RuntimeOptions.v
ConfigSpec.v
Catalog.v
Routes.v
