(* ===== verification/Prelude.v ===== *)
(** * Nestlone: a verification library

    Nestlone is a coding agent.  A terminal front end ([crates/tui]) talks to a
    model provider, runs the tools the model asks for, and keeps the work of a
    session as a graph; before a tool runs, the execution policy
    ([crates/execpolicy]) says whether it may; the provider and the model route
    come from the configuration ([crates/config]); longer jobs run as workflows
    ([crates/workflow]) of phases, gates and review loops; and tasks for many
    workers are kept in the ledger of a fleet ([crates/tui/src/fleet]).  This
    library models the decision-making core of these parts, which is pure or a
    state machine over plain data, and proves what makes it correct.  The source
    paths below are relative to [src/crates].

    ** Files

    Shared:
    - [Prelude] (this file): results with their error monad, loops with early
      return ([foldM]), machine integers, [find], [position], stable sorting and
      the lemmas the components share;
    - [Text]: Rust strings as lists of Unicode scalar values, with the
      operations of [core::str] the source uses, and the order in which a
      [BTreeMap] is read;
    - [Json]: the JSON values of [serde_json] and the accessors the source
      calls on them; parsing and printing them are parameters.

    The execution policy ([execpolicy/src]):
    - [BashArity] ([bash_arity.rs]): how many words of a command name it, and
      the prefix match of allow rules;
    - [DenyMatch] ([lib.rs]): splitting a command line into segments, and the
      search that decides whether a denied prefix matches one, flags and
      environment assignments aside;
    - [PathNorm] ([lib.rs]): lexical normalization of paths in permission
      rules, with its properties;
    - [ExecPolicy] ([lib.rs]): rulesets, layers, typed rules, session approvals
      and [check], which calls the three above and turns an invocation into a
      decision; [ExecPolicySpec] has the properties of all of it but paths.

    Command safety ([tui/src/command_safety.rs]):
    - [CommandSafety]: the prefix dictionary of the front end, its read-only
      classifier and the analysis that rates a shell command before it runs;
      [CommandSafetySpec] has the lemmas on segments and words,
      [CommandVerdicts] the properties and the comparison of the dictionary
      with that of [BashArity], whose algorithm both share.

    Authority ([tui/src]):
    - [Authority] ([core/authority.rs], [core/ops.rs], [tui/approval.rs],
      [sandbox/policy.rs]): what a turn may do on its own, narrowed by where
      its input came from, and how a tool's request for approval is settled;
    - [WorkerProfile] ([worker_profile.rs]): the profile a child agent derives
      from its parent's; [AuthoritySpec] has the properties of both;
    - [NetworkPolicy] ([network_policy.rs], [tools/web/guard.rs]): the verdict
      on a host, and the addresses a fetch may reach; [NetworkPolicySpec].

    Providers ([config/src], [tui/src/config.rs]):
    - [Providers]: the registry of providers, the parsing of their names, the
      exact-route predicates, the fallback chain and the two enumerations with
      their translation; [ProvidersSpec] has the properties;
    - [ModelNames] ([provider_defaults.rs], [lib.rs]): the default models and
      endpoints, the canonical name of a model with each provider, and which
      endpoints are a provider's own;
    - [RuntimeOptions] ([lib.rs], [secrets/src/lib.rs]): the options of a run
      from the command line, the environment, the configuration file and the
      secret store, in that order, and what a project's file may override;
      [ConfigSpec] has the properties of this and of [ModelNames];
    - [Catalog] ([catalog.rs], [pricing.rs], [models_dev.rs]): rows of the model
      catalogue, the layers they are merged from, the cache of live rows, prices
      in IEEE 754 numbers, and the fingerprint of an endpoint;
    - [Routes] ([route/resolver.rs]): the route of a request, from the offerings
      [Catalog] yields, the endpoints of [ModelNames] and the protocols of
      [Providers]; both files end with their properties.

    The work graph ([tui/src/work_graph], [tui/src/tools]):
    - [WorkModel] ([ids.rs], [model.rs], [events.rs]): identifiers, nodes, edges,
      bindings, evidence, the snapshot and the changes; [WorkModelSpec];
    - [WorkValidate] ([validate.rs]): validation, each rule a list of
      violations;
    - [WorkReducer] ([reducer.rs]): the only writer.  It applies a change to a
      copy, validates the copy, and then moves revision, history and the window
      of seen keys;
    - [WorkGraphs], [WorkInvariant], [WorkReducerFacts]: the two graph searches
      of validation, the declarative invariant [well_formed] with the proof
      that validation decides it, and the frame lemmas of the reducer;
      [WorkSpec] has the properties;
    - [PlanTodo] ([todo.rs], [plan.rs], [compat.rs]): the legacy Plan and To-do
      stores and their projection from the graph; [PlanTodoSpec];
    - [WorkImport] ([migration.rs]): the graph of a session saved before graphs
      existed, built through the reducer;
    - [WorkEdits] ([runtime.rs], second half): the helpers that write a Plan or
      To-do update into the graph, a state monad over the graph and the
      readings of the clock;
    - [WorkRuntime] ([runtime.rs], [liveness.rs]): the owner of a session's
      graph and of the two stores.  Its methods take the locks, import or
      validate the graph, edit it through [WorkEdits] or [WorkReducer], and
      commit it; publishing, saving, restoring and the reconciliation with the
      stores of fleets and lanes are methods too.  Each is a function from the
      runtime to the new runtime and the result, since the source holds its
      locks for the whole call; the one method that does not,
      [reconcile_workspace_owner_bindings], takes the runtime at both of its
      locks;
    - [WorkEditFacts], [WorkRuntimeFacts], [WorkRuntimeSpec]: what edits
      preserve, when the views of a graph can be read back, and the invariant
      of the runtime over every sequence of calls; [WorkSessions] has the
      properties;
    - [WorkDigest] ([digest.rs], [runtime.rs]): the text views of the graph, and
      [PromptReanchor] ([core/engine.rs], [compaction.rs]): the system prompt,
      to which a compaction adds one of them, with its properties.

    Workflows ([workflow/src]):
    - [WorkflowPlan] ([lib.rs]): declarative plans and [from_config], with every
      check; [WorkflowOrder] (the topological order and the write-scope test)
      and [WorkflowIndex] (the maps of names) carry the proofs, and
      [WorkflowPlanSpec] the properties;
    - [ReviewRepair] ([review_repair.rs]): the bounded review-repair loop;
    - [Gates] ([gates.rs]): the gate board of a lane;
    - [WorkflowRoles] ([role_resolve.rs]): the roster of a fleet and the
      resolution of a step's identity;
    - [WorkflowIr] ([lib.rs]): the specification with its tree of nodes, its
      validation and the estimate of the fleet it launches, and the induction
      over trees;
    - [WorkflowMock] ([lib.rs]): the deterministic executor with its scripts
      and budgets; [WorkflowMockSpec] breaks a run into steps and carries
      invariants over them, [WorkflowMockBounds] has termination and bounds;
    - [WorkflowPromotion] ([lib.rs]): teacher reviews, the promotion gate and
      the selection of branches;
    - [WorkflowElevation] ([elevation.rs]): what a plan may do, for its
      approval, and [WorkflowElevationSpec], which turns the walk into a sum;
    - [WorkflowReplay] ([replay.rs]): the run against a recorded trace;
      [WorkflowReplaySpec] says what it returns and when it ends.
    The executor, the replay, elevation and promotion all work on the trees of
    [WorkflowIr] and the records of [WorkflowMock].

    Exact fleets and their reasoning ([workflow/src]):
    - [FleetExact] ([fleet_exact.rs]): the roster a fleet document declares,
      with the rules a parsed roster satisfies;
    - [FleetStore] ([named_fleet.rs], [reasoning_router.rs]): the saved rosters
      of a workspace and the router profiles;
    - [FleetReasoning] ([fleet_reasoning.rs], [fleet_preflight.rs]): how a worker's reasoning tier is
      chosen, by its member, by the session or by a router whose answer is
      parsed strictly;
    - [FleetSnapshot] ([fleet_snapshot.rs], [fleet_composition.rs]): the captured
      roster, bound to its content by a hash;
    - [Redaction] ([redaction.rs]): what is removed from text before a router
      reads it.

    Tools ([tools/src], [tui/src/core/engine], [tui/src/tools]):
    - [Tools]: results, outcomes, the resource claims of calls, the scheduler
      that batches them and the registry;
    - [ToolDispatch] ([dispatch.rs]): what a turn does with the calls a model
      made; [ReadRepeat] ([read_repeat_guard.rs]): the guard against repeated
      reads; [ArgRepair] ([arg_repair.rs]): the repair of malformed arguments;
    - [ToolHistory] ([tool_history_repair.rs]): the repair of a saved
      conversation, so that every call has its result; [ToolHistorySpec];
    - [ModelPolicy] ([workflow/src/model_policy.rs]): the model a role resolves to, and the
      recovery of JSON from a model's answer; [ModelPolicySpec].

    The fleet of workers ([protocol/src/fleet.rs], [tui/src/fleet]):
    - [FleetProtocol] ([fleet.rs]): tasks, workers, events, receipts, alerts
      and the texts they are serialized to;
    - [FleetLedger] ([ledger.rs]): the ledger the managers share, a file of
      records whose replay is the state.  An operation holds the lock of the
      file, so it is one step: from the replayed state to a reply and the
      records it appends.  [FleetLedgerFacts] has the lemmas on replay,
      [FleetLedgerInv] the invariant with the micro-steps operations are made
      of, [FleetLedgerSpec] the properties over every interleaving;
    - [FleetLedgerText]: the file under torn writes; [FleetCompact]: what a
      compaction keeps;
    - [FleetScheduler] ([scheduler.rs], [manager.rs]): stale leases, retries,
      launching and the status of a run, each method a sequence of steps of the
      ledger; [FleetSchedulerSpec].

    Definitions keep the names of the source; a suffix or prefix is added where
    one Rocq name space holds several Rust ones.  A method that changes its
    receiver is a function from the old value to the new one and the result.
    [Vec] is [list], [BTreeMap] and [HashMap] are [gmap], [BTreeSet] and
    [HashSet] are [gset] (or the list of members, in [WorkValidate]); a Rust
    integer is a [Z] with its wrapping or saturating operations written out.

    ** What is proved

    - Policy.  A denied prefix in any segment forbids the command
      ([denied_segment_is_forbidden]), and the search decides a declarative
      matching relation ([denied_prefix_matches_decides]); a typed deny rule
      covers every segment; nothing is approved without a reason
      ([auto_approval_is_justified]); the typed rule chosen is the greatest in
      the documented order; allow rules match whole words.
    - Command safety.  A broad deletion is rated dangerous in any segment that
      no deleting [find] precedes ([broad_deletion_is_blocked]); the safe levels
      are given exactly to plain commands of the tables
      ([safe_levels_are_exact]); the read-only classifier decides an inductive
      notion ([readonly_classifier_decides]); the two dictionaries agree but for
      six families ([prefix_dictionaries_agree]).
    - Paths.  A normalized path stays in its workspace and [..] is rejected.
    - Work graph.  Validation accepts exactly the well-formed snapshots
      ([validate_decides_invariants]); a change commits once, atomically, and
      sessions stay well formed ([apply_commits_once],
      [sessions_stay_coherent]); settled states are protected; reconciliation
      claims only what was observed; accepting a plan gives what its preview
      showed; both graph searches are exact and terminate.
    - Sessions.  Every graph the runtime can hold is well formed, whatever the
      calls and their interleaving, and unless a publication is pending the
      stores show it ([reachable_sessions_are_coherent]); publication always
      completes ([publication_completes]); a saved session restores unchanged
      ([saved_session_restores]); after a restart no operation is live without
      an owner; an owner is bound once and its reports never run backwards; an
      accepted update is what the graph then shows.  A compaction of the prompt
      replaces the block of live operations.
    - Plan and To-do.  At most one row is in progress after any sequence of
      calls; snapshots restore; projections of valid graphs are readable.
    - Providers.  Names resolve exactly to the registry; the fallback chain
      visits each provider once; an exact route admits no other host or path.
    - Configuration.  A key reaches only the endpoint it was given for, or its
      provider's own ([credentials_stay_with_their_endpoint]); a project's file
      moves neither provider, endpoint, key nor headers, and its postures rank
      at least as high as the user's ([projects_cannot_redirect_credentials]);
      the model follows the documented order and is canonical
      ([models_resolve_by_source]).
    - Catalogue and routes.  A snapshot has the last row of the highest layer
      for each identity ([compiled_catalogue_is_layered]); rows are served
      only from the last refresh of their scope
      ([served_rows_are_of_the_last_refresh]); an estimate covers every class of
      tokens used ([estimates_cover_what_was_used]).  A route stays with the
      provider asked for ([routes_stay_with_their_provider]), and what is
      refused is known exactly ([routes_are_refused_exactly]).
    - Workflows.  An accepted plan is a schedule of the configuration
      ([accepted_plan_is_a_schedule]), its parallel writers share no path
      ([parallel_writers_stay_apart]), and rejection is justified, without
      panics.  A review loop that reports success earned it, and its ceilings
      hold.  Gates follow their policy, and blocking a role is exact.
    - Workflow trees.  Validation accepts exactly the forests with distinct
      identifiers and known references; a step's identity follows the
      documented precedence; a plan in the read-only envelope holds no capability
      anywhere ([envelope_is_read_only]).
    - Execution.  A run ends, its status and usage are explained by its leaves,
      its budgets bound it, and it launches no more leaves than the estimate the
      fleet limits were checked against ([fleet_stays_within_estimate]).  A
      replay returns recorded results in their order, or says that it diverged,
      and ends on well-founded traces.
    - Promotion.  A candidate is promoted exactly when its replay earned it, and
      the frontier is the Pareto frontier.
    - Authority.  Input that is not the user's, the runtime's or a handoff's
      carries no standing authority
      ([untrusted_input_has_no_standing_authority]); how a request is
      settled is given by a table ([approval_decisions_are_exact]); a child's
      profile never exceeds its parent's ([delegation_is_confined]).  A fetch
      reaches only public addresses, or the proxy the user trusted
      ([fetched_addresses_are_public]).
    - Tools.  A repaired conversation pairs every call with its result
      ([repaired_history_is_paired]); identical reads of a turn share one
      execution; batches respect the claims of the calls; the stages of the
      argument repair end.
    - Exact fleets.  A parsed roster satisfies its rules
      ([parsed_fleet_is_exact]); a reasoning tier is never chosen silently
      ([reasoning_is_chosen_openly]); a snapshot that verifies is the captured
      one, up to collisions of the hash.  A role takes the first model that
      satisfies its needs ([resolution_takes_the_first_capable]).
    - Fleet ledger.  Whatever the managers do and however their operations
      interleave, a worker holds at most one task, the latest event of a task is
      its holder's, sequence numbers are not reused, and a task's attempts only
      grow ([fleet_ledger_is_coherent]); an attempt ends
      once ([attempts_end_once]); a compaction rebuilds the same state but for
      the workers' liveness ([compaction_preserves_the_ledger]); a torn write
      loses only itself ([torn_writes_lose_nothing]).
    - Fleet scheduler.  Resuming a run never spends more than the retry budget
      of a task, does nothing the second time, and a round of launching ends
      within its limits ([resume_keeps_the_retry_budget],
      [resume_is_idempotent], [launching_ends_within_bounds]).

    Some theorems record behaviour that differs from what the source says of
    itself; their comments say so.

    ** Recursion and bounds

    Where a function recurses on fuel, a theorem says that the fuel given is
    enough, or that some fuel is, so none can hide a result.  [explore_fuel] in
    [DenyMatch] is more than the number of pairs of positions in the rule and
    the command, since the search never expands a pair twice; [visit_fuel] and
    [rooted_fuel] in [WorkValidate] are two more than the number of edges, since
    a path of the search uses an edge once; [phase_fuel] in [WorkflowPlan] is
    one more than the number of phases, since every level of the recursion
    opens a new phase.  [expand_fuel] in [WorkflowMock] counts the scripted
    expansions, each of which an [Expand] removes; the rest of the executor is
    structural.  The loop that removes blocks from a prompt ([strip_loop])
    shortens the text in each round, so the length of the text is enough.  The
    loop that launches work ([launch_queued_work] in [FleetScheduler]) starts a
    queued task in each round but the last, so one more than their number is
    enough.  The depth of a replay has no bound, as a trace may generate itself
    ([self_generating_trace_never_ends]): [replay_node] takes any fuel, and
    [replay_ends] gives one that is enough when the trace is well-founded.
    Integers overflow as in a release build (wrapping); where a theorem needs a
    value in range, it says so.

    ** Parameters

    Code outside the repository is a parameter: SHA-256, URL parsing and RFC
    3339 parsing (class [Externs] of [WorkModel]), the target platform's case
    rule (class [Platform] of [PathNorm]), the JSON encoding that the import
    hashes (class [LegacyJson] of [WorkImport]), the hasher of prompts
    ([PromptReanchor]), the names that serde derives for enumeration variants
    ([ProvidersSpec]), the hash of a leaf's inputs ([WorkflowReplay]), [shlex]
    with the full Unicode lowercase (class [Shell] of [CommandSafety]), the TOML
    and JSON parsers and the file system of fleet documents ([FleetStore]), the
    JSON parser and printer of tools and of the ledger's lines, the URL, DNS and
    address literals of a fetch ([NetworkPolicy]), the values of TOML and the
    reading of a provider's table (class [Toml] and [try_into] of
    [RuntimeOptions]), the digest of an endpoint ([Catalog]) and the committed
    catalogue ([Routes]).  What a theorem needs of
    one is a hypothesis that states its documented behaviour, with a witness at
    a concrete function.  What a call meets outside the program is an argument:
    the readings of the clock, whether a lock was free within its retries
    ([Env]), what the stores of the workspace hold ([Owners]), and what the
    callback of a restart answers ([FleetLedger]), the variables of the process
    ([getenv]) and the answers of the secret store ([RuntimeOptions]).

    ** What is not modelled

    Rendering, input, networking, the model clients, processes, files and the
    database are effects around this core, and so are the keyring and the
    reading and writing of the configuration with its setup state.  JSON and
    TOML (de)serialization is generated code; the properties are about the
    values.  Of the fleet, the
    manager's starting and stopping of processes, its hosts and the task
    documents are left out, as are the approval cache and card, the loop of a
    turn around the dispatch, the lane registry, the state database, the
    registry of agents and
    the other clients ([cli], [app-server], [core], [mcp], [hooks]): they are
    mostly input and output, or their decisions are not separated from it. *)

From stdpp Require Export base tactics list gmap sets pretty.
From stdpp Require Export strings.
From Stdlib Require Export ZArith NArith Lia Ascii Sorted.

#[global] Open Scope Z_scope.

(** ** Results

    Rust's [Result<A, E>]: the error type comes first, so that [result E] is
    the type constructor of an error monad and the [?] operator is its bind. *)

Inductive result (E A : Type) : Type :=
| Ok (a : A)
| Err (e : E).
Arguments Ok {E A} a.
Arguments Err {E A} e.

#[export] Instance result_ret {E} : MRet (result E) := fun A a => Ok a.
#[export] Instance result_bind {E} : MBind (result E) := fun A B f m =>
  match m with Ok a => f a | Err e => Err e end.

#[export] Instance result_fmap {E} : FMap (result E) := fun A B f m =>
  match m with Ok a => Ok (f a) | Err e => Err e end.

#[export] Instance result_eq_dec {E A} `{EqDecision E, EqDecision A} :
  EqDecision (result E A).
Proof. solve_decision. Defined.

(** [Result::map_err]. *)
Definition map_err {E F A} (f : E -> F) (m : result E A) : result F A :=
  match m with Ok a => Ok a | Err e => Err (f e) end.

(** [Option::or_else]. *)
Definition or_else {A} (a b : option A) : option A := match a with Some _ => a | None => b end.

Lemma or_else_Some {A} (a b : option A) x : or_else a b = Some x <-> a = Some x \/ a = None /\ b = Some x.
Proof. destruct a; cbn; naive_solver. Qed.

(** [Option::ok_or_else]. *)
Definition ok_or {E A} (o : option A) (e : E) : result E A :=
  match o with Some a => Ok a | None => Err e end.

(** [if guard { return Err(e) }]. *)
Definition reject_if {E} (b : bool) (e : E) : result E unit :=
  if b then Err e else Ok tt.

Lemma bind_Ok {E A B} (m : result E A) (f : A -> result E B) b :
  m ≫= f = Ok b <-> exists a, m = Ok a /\ f a = Ok b.
Proof. destruct m; simpl; split; [eauto | | done |]; intros (? & [= ->] & ?); done. Qed.

(** A check whose value is not used. *)
Lemma seq_Ok {E B} (m : result E unit) (k : result E B) b : (m;; k) = Ok b <-> m = Ok tt /\ k = Ok b.
Proof. destruct m as [[]|]; simpl; naive_solver. Qed.

Lemma bind_Err {E A B} (m : result E A) (f : A -> result E B) e :
  m ≫= f = Err e <-> m = Err e \/ exists a, m = Ok a /\ f a = Err e.
Proof.
  destruct m as [a|e']; simpl; split.
  - eauto.
  - intros [[=]|(? & [= ->] & ?)]; done.
  - intros [= ->]; auto.
  - intros [[= ->]|(? & [=] & _)]; done.
Qed.

Lemma map_err_Ok {E F A} (f : E -> F) (m : result E A) a :
  map_err f m = Ok a <-> m = Ok a.
Proof. destruct m; simpl; split; congruence. Qed.

Lemma ok_or_Ok {E A} (o : option A) (e : E) a : ok_or o e = Ok a <-> o = Some a.
Proof. destruct o; simpl; split; congruence. Qed.

Lemma ok_or_Err {E A} (o : option A) (e e' : E) :
  ok_or o e = Err e' <-> o = None /\ e = e'.
Proof. destruct o; simpl; split; intros; [done|by destruct H|by simplify_eq|by destruct H as [_ ->]]. Qed.

Lemma reject_if_Ok {E} b (e : E) u : reject_if b e = Ok u <-> b = false.
Proof. destruct b, u; simpl; split; congruence. Qed.

Lemma reject_if_Err {E} b (e e' : E) : reject_if b e = Err e' <-> b = true /\ e = e'.
Proof. destruct b; simpl; split; intros H; [by simplify_eq|by destruct H as [_ ->]|done|by destruct H]. Qed.

(** [for x in xs { f(x)?; }] with the loop state threaded through. *)
Fixpoint foldM {E S X} (f : S -> X -> result E S) (s : S) (xs : list X) : result E S :=
  match xs with
  | [] => Ok s
  | x :: xs => s' ← f s x; foldM f s' xs
  end.

Lemma foldM_app {E S X} (f : S -> X -> result E S) s xs ys :
  foldM f s (xs ++ ys) = foldM f s xs ≫= fun s' => foldM f s' ys.
Proof. revert s. induction xs as [|x xs IH]; intros s; [done|]. cbn. destruct (f s x); [apply IH|done]. Qed.

(** [Result::is_ok]. *)
Definition is_ok {E A} (m : result E A) : bool := match m with Ok _ => true | Err _ => false end.

Lemma is_ok_spec {E A} (m : result E A) : is_ok m = true <-> exists a, m = Ok a.
Proof. destruct m; cbn; naive_solver. Qed.

(** [for x in xs { f(x)?; }] without a state. *)
Lemma foldM_unit_Ok {E X} (f : unit -> X -> result E unit) xs u :
  foldM f tt xs = Ok u <-> forall x, x ∈ xs -> f tt x = Ok tt.
Proof.
  induction xs as [|x xs IH]; cbn; [destruct u; set_solver|]. destruct (f tt x) as [[]|e] eqn:E'; cbn.
  - rewrite IH. set_solver.
  - split; [done|]. intros H. rewrite (H x) in E' by left. done.
Qed.

(** An invariant of the loop body is an invariant of the loop. *)
Lemma foldM_invariant {E S X} (f : S -> X -> result E S) (P : S -> Prop) xs :
  (forall s x s', x ∈ xs -> P s -> f s x = Ok s' -> P s') ->
  forall s s', P s -> foldM f s xs = Ok s' -> P s'.
Proof.
  induction xs as [|x xs IH]; intros Hf s s' Hs; simpl.
  - by intros [= <-].
  - rewrite bind_Ok. intros (s1 & H1 & H2).
    eapply IH; [|eapply Hf; [apply elem_of_cons; by left|exact Hs|exact H1]|exact H2].
    intros s2 y s3 Hy. apply Hf. apply elem_of_cons; by right.
Qed.

(** Repeatedly inverts the bind equations of the context. *)
Ltac inv_bind :=
  repeat match goal with
  | H : mbind _ _ = Ok _ |- _ => apply bind_Ok in H; destruct H as (? & ? & H)
  | H : ok_or _ _ = Ok _ |- _ => apply ok_or_Ok in H
  | H : map_err _ _ = Ok _ |- _ => apply map_err_Ok in H
  | H : reject_if _ _ = Ok _ |- _ => apply reject_if_Ok in H
  | H : Ok _ = Ok _ |- _ => injection H as H; try subst
  | H : mret _ = Ok _ |- _ => injection H as H; try subst
  | H : Err _ = Ok _ |- _ => discriminate H
  end.

(** ** Machine integers

    A [u64], [u32] or [usize] is a [Z] in range; the operations that can leave
    the range are written out.  [+] on [u64] is the release build's wrapping
    addition ([Cargo.toml] sets no [overflow-checks]). *)

Definition u64_max : Z := 2 ^ 64 - 1.
Definition u32_max : Z := 2 ^ 32 - 1.
Definition u8_max : Z := 255.
Definition usize_max : Z := 2 ^ 64 - 1.
Definition u64_add (a b : Z) : Z := (a + b) mod 2 ^ 64.
Definition u64_saturating_add (a b : Z) : Z := Z.min (a + b) u64_max.
Definition usize_saturating_add (a b : Z) : Z := Z.min (a + b) usize_max.
Definition usize_saturating_mul (a b : Z) : Z := Z.min (a * b) usize_max.
Definition u32_add (a b : Z) : Z := (a + b) mod 2 ^ 32.
Definition u32_saturating_add (a b : Z) : Z := Z.min (a + b) u32_max.
(** [n as u32] for a [usize] [n]. *)
Definition as_u32 (n : Z) : Z := n mod 2 ^ 32.
(** [u32::checked_add]. *)
Definition u32_checked_add (a b : Z) : option Z :=
  if a + b <=? u32_max then Some (a + b) else None.
(** [u8::try_from(n).unwrap_or(u8::MAX)] for a [usize] [n]. *)
Definition u8_saturate (n : Z) : Z := if n <=? u8_max then n else u8_max.

(** Signed integers.  [n as] an [i32] or [i64] that is clamped, not wrapped. *)
Definition i32_min : Z := - 2 ^ 31.
Definition i32_max : Z := 2 ^ 31 - 1.
Definition i64_min : Z := - 2 ^ 63.
Definition i64_max : Z := 2 ^ 63 - 1.
Definition i32_saturating_sub (a b : Z) : Z := Z.max i32_min (Z.min (a - b) i32_max).

Lemma u64_add_small a b : 0 <= a -> 0 <= b -> a + b <= u64_max -> u64_add a b = a + b.
Proof. intros. unfold u64_add. apply Z.mod_small. unfold u64_max in *. lia. Qed.

(** The length of a Rust [Vec]. *)
Definition zlen {A} (l : list A) : Z := Z.of_nat (length l).

Lemma zlen_nonneg {A} (l : list A) : 0 <= zlen l.
Proof. unfold zlen; lia. Qed.

(** [slice::get] with a [usize] index. *)
Definition zget {A} (l : list A) (i : Z) : option A := l !! Z.to_nat i.

(** ** Lists *)

(** [Iterator::position]. *)
Fixpoint position {A} (p : A -> bool) (l : list A) : option nat :=
  match l with
  | [] => None
  | x :: l => if p x then Some 0%nat else S <$> position p l
  end.

Lemma position_None {A} (p : A -> bool) l : position p l = None <-> forall x, x ∈ l -> p x = false.
Proof.
  induction l as [|y l IH]; cbn; [split; [by intros _ x ?%not_elem_of_nil|done]|].
  destruct (p y) eqn:E.
  - split; [done|]. intros H. rewrite (H y) in E by (by left). done.
  - rewrite fmap_None, IH. split.
    + by intros H x [->|Hx]%elem_of_cons; [|apply H].
    + intros H x Hx. apply H. by right.
Qed.

Lemma position_Some {A} (p : A -> bool) l i :
  position p l = Some i <->
  exists x, l !! i = Some x /\ p x = true /\ forall j y, (j < i)%nat -> l !! j = Some y -> p y = false.
Proof.
  revert i. induction l as [|z l IH]; intros i; cbn; [split; [done|by intros (? & ? & _)]|].
  destruct (p z) eqn:E.
  - split.
    + intros [= <-]. exists z. split_and!; [done..|lia].
    + intros (x & Hx & Hp & Hb). destruct i as [|i]; [done|]. rewrite (Hb 0%nat z) in E by (done || lia). done.
  - rewrite fmap_Some. split.
    + intros (k & (x & Hx & Hp & Hb)%IH & ->). exists x. split_and!; [done..|].
      intros [|j] y Hj Hy; [by injection Hy as <-|]. apply (Hb j y); [lia|done].
    + intros (x & Hx & Hp & Hb). destruct i as [|k]; [injection Hx as ->; congruence|].
      exists k. split; [|done]. apply IH. exists x. split_and!; [done..|]. intros j y Hj Hy. apply (Hb (S j) y); [lia|done].
Qed.

(** [Iterator::find]. *)
Fixpoint find {A} (p : A -> bool) (l : list A) : option A :=
  match l with
  | [] => None
  | x :: l => if p x then Some x else find p l
  end.

Lemma find_Some {A} (p : A -> bool) l x : find p l = Some x -> x ∈ l /\ p x = true.
Proof.
  induction l as [|y l IH]; simpl; [done|].
  destruct (p y) eqn:E.
  - intros [= ->]. split; [apply elem_of_cons; by left|done].
  - intros H. destruct (IH H). split; [apply elem_of_cons; by right|done].
Qed.

Lemma find_None {A} (p : A -> bool) l : find p l = None <-> forall x, x ∈ l -> p x = false.
Proof.
  induction l as [|y l IH]; simpl.
  - split; [by intros _ x ?%not_elem_of_nil|done].
  - destruct (p y) eqn:E; split; intros H.
    + done.
    + rewrite (H y) in E; [done|apply elem_of_cons; by left].
    + intros x [->|Hx]%elem_of_cons; [done|by apply IH].
    + apply IH. intros x Hx. apply H. apply elem_of_cons; by right.
Qed.

Lemma find_is_Some {A} (p : A -> bool) l x : x ∈ l -> p x = true -> is_Some (find p l).
Proof.
  intros Hx Hp. destruct (find p l) eqn:E; [done|].
  rewrite find_None in E. rewrite E in Hp; done.
Qed.

Lemma find_app {A} (p : A -> bool) l k :
  find p (l ++ k) = match find p l with Some x => Some x | None => find p k end.
Proof. induction l as [|x l IH]; simpl; [done|]. by destruct (p x). Qed.

Lemma find_reverse_Some {A} (p : A -> bool) l x :
  find p (reverse l) = Some x <->
  exists before after, l = before ++ x :: after /\ p x = true /\ Forall (fun y => p y = false) after.
Proof.
  split.
  - induction l as [|y l IH] using rev_ind; [done|]. rewrite reverse_snoc. cbn. destruct (p y) eqn:E.
    + intros [= ->]. by exists l, [].
    + intros (before & after & -> & Hx & Ha)%IH. exists before, (after ++ [y]). rewrite <-app_assoc. split_and!; [done..|].
      apply Forall_app. by split; [|apply Forall_singleton].
  - intros (before & after & -> & Hx & Ha). rewrite reverse_app, reverse_cons, <-app_assoc, find_app.
    destruct (find p (reverse after)) as [z|] eqn:E; [|cbn; by rewrite Hx].
    apply find_Some in E as [Hz Hp]. rewrite elem_of_reverse in Hz. rewrite Forall_forall in Ha. rewrite (Ha _ Hz) in Hp. done.
Qed.

(** The first element with a result, as [find_map] does. *)
Fixpoint first_some {A B} (f : A -> option B) (l : list A) : option B :=
  match l with
  | [] => None
  | x :: l => match f x with Some y => Some y | None => first_some f l end
  end.

Lemma first_some_None {A B} (f : A -> option B) l : first_some f l = None <-> forall x, x ∈ l -> f x = None.
Proof. induction l as [|x l IH]; cbn; [set_solver|]. destruct (f x) eqn:E; set_solver. Qed.

Lemma first_some_Some {A B} (f : A -> option B) l y :
  first_some f l = Some y <->
  exists before x after, l = before ++ x :: after /\ f x = Some y /\ forall x', x' ∈ before -> f x' = None.
Proof.
  induction l as [|x l IH]; cbn; [split; [done|]; by intros ([] & ? & ? & ? & _)|].
  destruct (f x) as [z|] eqn:E.
  - split; [intros [= ->]; exists [], x, l; set_solver|]. intros ([|x0 before] & x' & after & [= -> Hl] & Hf & Hb); [congruence|].
    rewrite Hb in E by left. done.
  - rewrite IH. split.
    + intros (before & x' & after & -> & Hf & Hb). exists (x :: before), x', after. split_and!; [done..|].
      intros x0 [->|]%elem_of_cons; auto.
    + intros ([|x0 before] & x' & after & [= -> Hl] & Hf & Hb); [congruence|].
      exists before, x', after. split_and!; [done..|]. intros. apply Hb. by right.
Qed.

(** [Vec::retain]. *)
Definition retain {A} (p : A -> bool) (l : list A) : list A :=
  base.filter (fun x => p x = true) l.

Lemma elem_of_retain {A} (p : A -> bool) l x : x ∈ retain p l <-> p x = true /\ x ∈ l.
Proof. unfold retain. by rewrite list_elem_of_filter. Qed.

Lemma retain_cons {A} (p : A -> bool) x l : retain p (x :: l) = if p x then x :: retain p l else retain p l.
Proof. unfold retain. rewrite filter_cons. by destruct (p x). Qed.

Lemma retain_ext_in {A} (p q : A -> bool) l : (forall x, x ∈ l -> p x = q x) -> retain p l = retain q l.
Proof.
  unfold retain. induction l as [|x l IH]; intros Hpq; [done|]. rewrite !filter_cons, IH by (intros; apply Hpq; by right).
  rewrite (Hpq x) by left. done.
Qed.

Lemma retain_nil `{Countable A} (K : gset A) l :
  retain (fun x => negb (bool_decide (x ∈ K))) l = [] <-> forall x, x ∈ l -> x ∈ K.
Proof.
  split.
  - intros E x Hx. destruct (decide (x ∈ K)) as [|Hn]; [done|]. exfalso. apply (not_elem_of_nil x). rewrite <-E.
    apply elem_of_retain. by rewrite negb_true_iff, bool_decide_eq_false.
  - intros Hl. induction l as [|x l IH]; [done|]. rewrite retain_cons, bool_decide_eq_true_2 by (apply Hl; by left). cbn.
    apply IH. intros y Hy. apply Hl. by right.
Qed.

Lemma NoDup_retain {A} (p : A -> bool) l : NoDup l -> NoDup (retain p l).
Proof. apply NoDup_filter. Qed.

Lemma retain_length {A} (p : A -> bool) l : (length (retain p l) <= length l)%nat.
Proof. unfold retain. apply length_filter. Qed.

(** A list holds at most one element of a kind exactly when no two positions
    hold one. *)
Lemma retain_at_most_one {A} (p : A -> bool) l :
  (length (retain p l) <= 1)%nat <->
  forall i j x y, l !! i = Some x -> l !! j = Some y -> p x = true -> p y = true -> i = j.
Proof.
  unfold retain. induction l as [|z l IH]; [cbn; split; [done|lia]|].
  rewrite filter_cons. destruct (decide (p z = true)) as [Hz|Hz]; cbn [length].
  - split.
    + intros Hl. assert (Hnone : forall i x, l !! i = Some x -> p x <> true).
      { intros i x Hx Hp. assert (Hin : x ∈ base.filter (fun y => p y = true) l)
          by (apply list_elem_of_filter; split; [done|by eapply list_elem_of_lookup_2]).
        destruct (base.filter _ l); [by apply not_elem_of_nil in Hin|cbn in Hl; lia]. }
      intros [|i] [|j] x y Hx Hy Px Py; try done; cbn in *; exfalso; by eapply Hnone.
    + intros H. destruct (base.filter _ l) as [|w ws] eqn:E; [cbn; lia|].
      assert (Hw : w ∈ base.filter (fun y => p y = true) l) by (rewrite E; by left).
      apply list_elem_of_filter in Hw as [Pw (i & Hi)%list_elem_of_lookup_1].
      by specialize (H 0%nat (S i) z w eq_refl Hi Hz Pw).
  - rewrite IH. split.
    + intros H [|i] [|j] x y Hx Hy Px Py; cbn in *; simplify_eq; try done. f_equal. by eapply H.
    + intros H i j x y Hx Hy Px Py. specialize (H (S i) (S j) x y Hx Hy Px Py). lia.
Qed.

(** A symmetric relation holds along the retained elements exactly when it
    holds between the elements at any two positions. *)
Lemma retain_strongly_sorted {A} (p : A -> bool) (R : A -> A -> Prop) l :
  (forall x y, R x y -> R y x) ->
  StronglySorted R (retain p l) <->
  forall i j x y, i <> j -> l !! i = Some x -> l !! j = Some y -> p x = true -> p y = true -> R x y.
Proof.
  intros Hsym. induction l as [|a l IH]; [split; [done|constructor]|]. unfold retain. rewrite filter_cons.
  fold (retain p l). destruct (decide (p a = true)) as [Ha|Ha].
  - split.
    + intros [Hs Hall]%StronglySorted_inv. rewrite Forall_forall in Hall. rewrite IH in Hs.
      assert (Hhead : forall k y, l !! k = Some y -> p y = true -> R a y).
      { intros k y Hk Hy. apply Hall, elem_of_retain. split; [done|]. by eapply list_elem_of_lookup_2. }
      intros [|i] [|j] x y Hij; cbn; intros Hx Hy Hpx Hpy; [done| | |].
      * injection Hx as <-. by eapply Hhead.
      * injection Hy as <-. apply Hsym. by eapply Hhead.
      * apply (Hs i j); [congruence|done..].
    + intros H. constructor.
      * apply IH. intros i j x y Hij. apply (H (S i) (S j)). congruence.
      * apply Forall_forall. intros y [Hy [j Hj]%list_elem_of_lookup]%elem_of_retain. by apply (H 0%nat (S j)).
  - rewrite IH. split; intros H.
    + intros [|i] [|j] x y Hij; cbn; intros Hx Hy Hpx Hpy; [done|congruence|congruence|].
      apply (H i j); [congruence|done..].
    + intros i j x y Hij. apply (H (S i) (S j)). congruence.
Qed.

Lemma retain_all {A} (p : A -> bool) l :
  length (retain p l) = length l -> forall x, x ∈ l -> p x = true.
Proof.
  unfold retain. induction l as [|y l IH]; intros Hl x.
  - by intros ?%not_elem_of_nil.
  - rewrite filter_cons in Hl. case_decide as Hy; simpl in Hl.
    + intros [->|Hx]%elem_of_cons; [done|]. apply IH; [lia|done].
    + pose proof (length_filter (fun x => p x = true) l). lia.
Qed.

Lemma filter_all {A} (P : A -> Prop) `{forall x, Decision (P x)} l :
  Forall P l -> base.filter P l = l.
Proof.
  induction 1 as [|x l Hx _ IH]; [done|]. by rewrite filter_cons_True, IH.
Qed.

Lemma retain_fmap {A B} (p : B -> bool) (f : A -> B) l :
  retain p (f <$> l) = f <$> retain (fun x => p (f x)) l.
Proof.
  unfold retain. induction l as [|x l IH]; [done|]. rewrite fmap_cons, !filter_cons, IH.
  by case_decide.
Qed.

Lemma elem_of_tail {A} (x : A) l : x ∈ tail l -> x ∈ l.
Proof. destruct l; [done|]. intros Hx. by apply elem_of_cons; right. Qed.

Lemma existsb_spec {A} (p : A -> bool) l :
  existsb p l = true <-> exists x, x ∈ l /\ p x = true.
Proof.
  rewrite existsb_exists. split; intros (x & Hx & Hp); exists x.
  - apply list_elem_of_In in Hx. done.
  - apply list_elem_of_In in Hx. done.
Qed.

Lemma existsb_false {A} (p : A -> bool) l :
  existsb p l = false <-> forall x, x ∈ l -> p x = false.
Proof.
  rewrite <- not_true_iff_false, existsb_spec. split.
  - intros H x Hx. destruct (p x) eqn:E; [exfalso; eauto|done].
  - intros H (x & Hx & Hp). by rewrite H in Hp.
Qed.

Lemma forallb_spec {A} (p : A -> bool) l :
  forallb p l = true <-> forall x, x ∈ l -> p x = true.
Proof.
  rewrite forallb_forall. split; intros H x Hx; apply H; by apply list_elem_of_In.
Qed.

(** [slice::sort_by_key] is a stable sort; insertion from the right is one. *)
Section sort.
Context {A : Type} (le : A -> A -> bool).

Fixpoint insert_sorted (x : A) (l : list A) : list A :=
  match l with
  | [] => [x]
  | y :: l' => if le x y then x :: l else y :: insert_sorted x l'
  end.

Definition stable_sort (l : list A) : list A := foldr insert_sorted [] l.

Lemma insert_sorted_perm x l : insert_sorted x l ≡ₚ x :: l.
Proof.
  induction l as [|y l IH]; simpl; [done|].
  destruct (le x y); [done|]. rewrite IH. apply Permutation_swap.
Qed.

Lemma stable_sort_perm l : stable_sort l ≡ₚ l.
Proof.
  induction l as [|x l IH]; simpl; [done|]. by rewrite insert_sorted_perm, IH.
Qed.

Definition sorted_by (l : list A) : Prop := StronglySorted (fun a b => le a b = true) l.

Hypothesis le_total : forall a b, le a b = true \/ le b a = true.
Hypothesis le_trans : forall a b c, le a b = true -> le b c = true -> le a c = true.

Lemma insert_sorted_sorted x l : sorted_by l -> sorted_by (insert_sorted x l).
Proof.
  unfold sorted_by. induction 1 as [|y l Hs IH Hy]; simpl.
  - repeat constructor.
  - destruct (le x y) eqn:E.
    + constructor; [by constructor|]. constructor; [done|].
      eapply Forall_impl; [exact Hy|]. intros z Hz. by eapply le_trans.
    + constructor; [done|]. rewrite insert_sorted_perm.
      constructor; [|done]. by destruct (le_total x y) as [?|?]; [congruence|].
Qed.

Lemma stable_sort_sorted l : sorted_by (stable_sort l).
Proof. induction l; simpl; [constructor|by apply insert_sorted_sorted]. Qed.
End sort.

(** [Iterator::max_by_key] keeps the last of the greatest elements. *)
Fixpoint max_by {A} (le : A -> A -> bool) (l : list A) : option A :=
  match l with
  | [] => None
  | x :: l =>
      match max_by le l with
      | None => Some x
      | Some y => if le x y then Some y else Some x
      end
  end.

Lemma max_by_elem {A} (le : A -> A -> bool) l x : max_by le l = Some x -> x ∈ l.
Proof.
  revert x. induction l as [|y l IH]; simpl; [done|]. intros x.
  destruct (max_by le l) as [z|] eqn:E; [destruct (le y z)|]; intros [= <-];
    apply elem_of_cons; auto.
Qed.

Lemma max_by_None {A} (le : A -> A -> bool) l : max_by le l = None <-> l = [].
Proof.
  destruct l as [|y l]; simpl; [done|].
  split; [|done]. destruct (max_by le l) as [z|]; [by destruct (le y z)|done].
Qed.

Lemma max_by_ge {A} (le : A -> A -> bool) l x :
  (forall a b, le a b = true \/ le b a = true) ->
  (forall a b c, le a b = true -> le b c = true -> le a c = true) ->
  max_by le l = Some x -> forall y, y ∈ l -> le y x = true.
Proof.
  intros Htot Htr. revert x. induction l as [|z l IH]; simpl; [done|].
  assert (Hrefl : forall a, le a a = true) by (intros a; by destruct (Htot a a)).
  intros x. destruct (max_by le l) as [w|] eqn:E.
  - specialize (IH w eq_refl). destruct (le z w) eqn:Hzw; intros [= <-] y [->|Hy]%elem_of_cons; auto.
    assert (le w z = true) by (by destruct (Htot z w); congruence). eauto.
  - intros [= <-] y [->|Hy]%elem_of_cons; auto.
    apply max_by_None in E. subst. by apply not_elem_of_nil in Hy.
Qed.

(** [Iterator::min_by_key] keeps the first of the least elements. *)
Fixpoint min_by {A} (le : A -> A -> bool) (l : list A) : option A :=
  match l with
  | [] => None
  | x :: l =>
      match min_by le l with
      | None => Some x
      | Some y => if le x y then Some x else Some y
      end
  end.

Lemma min_by_None {A} (le : A -> A -> bool) l : min_by le l = None <-> l = [].
Proof.
  destruct l as [|y l]; simpl; [done|].
  split; [|done]. destruct (min_by le l) as [z|]; [by destruct (le y z)|done].
Qed.

Lemma min_by_first {A} (le : A -> A -> bool) l x :
  (forall a b, le a b = true \/ le b a = true) ->
  (forall a b c, le a b = true -> le b c = true -> le a c = true) ->
  min_by le l = Some x ->
  exists before after, l = before ++ x :: after /\
    Forall (fun y => le y x = false) before /\ Forall (fun y => le x y = true) after.
Proof.
  intros Htot Htr. revert x. induction l as [|z l IH]; simpl; [done|]. intros x.
  destruct (min_by le l) as [w|] eqn:E.
  - destruct (IH w eq_refl) as (before & after & -> & Hb & Ha). destruct (le z w) eqn:Hzw; intros [= <-].
    + exists [], (before ++ w :: after). split_and!; [done|constructor|].
      apply Forall_app_2; [|constructor; [done|]]; (eapply Forall_impl; [eassumption|]); intros y Hy; simpl in *; [|by eauto].
      eapply Htr; [exact Hzw|]. destruct (Htot w y); congruence.
    + exists (z :: before), after. split_and!; [done|by constructor|done].
  - intros [= <-]. apply min_by_None in E as ->. by exists [], [].
Qed.

(** ** Finite sets *)

Lemma size_list_to_set_le `{Countable A} (l : list A) :
  (size (list_to_set l : gset A) <= length l)%nat.
Proof.
  induction l as [|x l IH]; simpl; [done|].
  rewrite size_union_alt, size_singleton.
  assert (list_to_set l ∖ {[x]} ⊆ (list_to_set l : gset A)) as Hs%subseteq_size by set_solver.
  lia.
Qed.

Lemma size_insert_new `{Countable A} (x : A) (X : gset A) :
  x ∉ X -> size ({[x]} ∪ X) = S (size X).
Proof. intros Hx. rewrite size_union by set_solver. by rewrite size_singleton. Qed.
