(* ===== verification/Text.v ===== *)
(** * Rust text

    A Rust [String] or [&str] is the sequence of its Unicode scalar values, a
    [list N]; [len()] is the length of its UTF-8 encoding.  The file models the
    parts of [core::str], [core::char] and [core::fmt] the source uses:
    character classes, trimming, splitting, replacing, prefixes and the
    [Display] of unsigned integers. *)

From S2P Require Export Prelude.

Abbreviation char := N (only parsing).
Abbreviation str := (list N) (only parsing).

(** The value of an ASCII string literal. *)
Definition lit (s : string) : str := N_of_ascii <$> String.list_ascii_of_string s.
Arguments lit : simpl never.
Notation "$ s" := (lit s%string) (at level 1, s at level 0, format "$ s").

Definition chr (a : ascii) : char := N_of_ascii a.
Arguments chr : simpl never.
#[global] Arguments N.eqb : simpl never.

(** ** [char] *)

(** [char::is_whitespace], the Unicode [White_Space] property. *)
Definition is_whitespace (c : char) : bool :=
  ((9 <=? c) && (c <=? 13)
  || (c =? 0x20) || (c =? 0x85) || (c =? 0xA0) || (c =? 0x1680)
  || (0x2000 <=? c) && (c <=? 0x200A)
  || (c =? 0x2028) || (c =? 0x2029) || (c =? 0x202F) || (c =? 0x205F)
  || (c =? 0x3000))%N.

(** [char::is_control], the general category [Cc]. *)
Definition is_control (c : char) : bool :=
  ((c <=? 0x1F) || (0x7F <=? c) && (c <=? 0x9F))%N.

Definition is_ascii_uppercase (c : char) : bool := ((65 <=? c) && (c <=? 90))%N.
Definition is_ascii_lowercase (c : char) : bool := ((97 <=? c) && (c <=? 122))%N.
Definition is_ascii_digit (c : char) : bool := ((48 <=? c) && (c <=? 57))%N.
Definition is_ascii_alphabetic (c : char) : bool :=
  is_ascii_uppercase c || is_ascii_lowercase c.
Definition is_ascii_alphanumeric (c : char) : bool :=
  is_ascii_alphabetic c || is_ascii_digit c.

Definition char_to_ascii_lowercase (c : char) : char :=
  if is_ascii_uppercase c then (c + 32)%N else c.

(** [str::to_ascii_lowercase] and [str::eq_ignore_ascii_case]. *)
Definition to_ascii_lowercase (s : str) : str := char_to_ascii_lowercase <$> s.
Definition eq_ignore_ascii_case (a b : str) : bool :=
  bool_decide (to_ascii_lowercase a = to_ascii_lowercase b).

(** ** Lengths and encoding *)

(** [char::len_utf8] and [char::encode_utf8]. *)
Definition len_utf8 (c : char) : nat :=
  if (c <? 0x80)%N then 1 else if (c <? 0x800)%N then 2
  else if (c <? 0x10000)%N then 3 else 4.

Definition encode_utf8 (c : char) : list N :=
  (if c <? 0x80 then [c]
   else if c <? 0x800 then [0xC0 + c / 64; 0x80 + c mod 64]
   else if c <? 0x10000 then [0xE0 + c / 4096; 0x80 + (c / 64) mod 64; 0x80 + c mod 64]
   else [0xF0 + c / 262144; 0x80 + (c / 4096) mod 64; 0x80 + (c / 64) mod 64; 0x80 + c mod 64])%N.

(** [str::as_bytes] and [str::len]. *)
Definition as_bytes (s : str) : list N := s ≫= encode_utf8.
Definition byte_len (s : str) : Z := Z.of_nat (sum_list (len_utf8 <$> s)).
(** [s.chars().count()]. *)
Definition char_count (s : str) : Z := zlen s.

Definition str_is_empty (s : str) : bool := match s with [] => true | _ => false end.

(** ** Trimming and splitting *)

Fixpoint trim_start_by (p : char -> bool) (s : str) : str :=
  match s with
  | [] => []
  | c :: s' => if p c then trim_start_by p s' else s
  end.

(** [str::trim_start_matches] and [str::trim_end_matches] of characters. *)
Definition trim_end_by (p : char -> bool) (s : str) : str := rev (trim_start_by p (rev s)).

(** [str::trim]. *)
Definition trim_start (s : str) : str := trim_start_by is_whitespace s.
Definition trim_end (s : str) : str := rev (trim_start (rev s)).
Definition trim (s : str) : str := trim_end (trim_start s).

(** [str::split(p)]: the pieces between the separators, always at least one. *)
Fixpoint split_by (p : char -> bool) (s : str) : list str :=
  match s with
  | [] => [[]]
  | c :: s' =>
      if p c then [] :: split_by p s'
      else match split_by p s' with
           | w :: ws => (c :: w) :: ws
           | [] => [[c]]
           end
  end.

Definition split_char (d : char) (s : str) : list str := split_by (N.eqb d) s.

(** [str::split_whitespace]: the non-empty pieces between whitespace. *)
Definition split_whitespace (s : str) : list str :=
  retain (fun w => negb (str_is_empty w)) (split_by is_whitespace s).

(** [[T]::join]. *)
Fixpoint join (sep : str) (ws : list str) : str :=
  match ws with
  | [] => []
  | [w] => w
  | w :: ws => w ++ sep ++ join sep ws
  end.

(** [str::strip_prefix] and [str::starts_with] with a string pattern. *)
Fixpoint strip_prefix (p s : str) : option str :=
  match p, s with
  | [], _ => Some s
  | a :: p, b :: s => if N.eqb a b then strip_prefix p s else None
  | _ :: _, [] => None
  end.
Definition starts_with (p s : str) : bool := bool_decide (is_Some (strip_prefix p s)).

(** [str::strip_suffix] and [str::ends_with]. *)
Definition strip_suffix (p s : str) : option str := (@rev N) <$> strip_prefix (rev p) (rev s).
Definition ends_with (p s : str) : bool := bool_decide (is_Some (strip_suffix p s)).

(** [str::contains] and [str::split_once] with a string pattern: the leftmost
    occurrence. *)
Fixpoint split_once (p s : str) : option (str * str) :=
  match strip_prefix p s with
  | Some rest => Some ([], rest)
  | None => match s with
            | [] => None
            | c :: s' => prod_map (cons c) id <$> split_once p s'
            end
  end.
Definition str_contains (p s : str) : bool := bool_decide (is_Some (split_once p s)).
Definition contains_char (c : char) (s : str) : bool := existsb (N.eqb c) s.

(** [str::replace] with a non-empty string pattern: occurrences are taken left
    to right without overlap.  [skip] characters of a matched occurrence are
    still to be dropped. *)
Fixpoint replace_go (p by_ : str) (skip : nat) (s : str) : str :=
  match s with
  | [] => []
  | c :: s' =>
      match skip with
      | S k => replace_go p by_ k s'
      | O => if starts_with p s then by_ ++ replace_go p by_ (pred (length p)) s'
             else c :: replace_go p by_ 0 s'
      end
  end.
Definition replace (p by_ s : str) : str := replace_go p by_ 0 s.

(** [str::replace] with a character or a set of characters as pattern. *)
Definition replace_chars (p : char -> bool) (by_ s : str) : str :=
  s ≫= fun c => if p c then by_ else [c].

(** [str::lines]: pieces ending in ["\n"] or ["\r\n"]; a final empty piece is
    not a line. *)
Definition strip_cr (w : str) : str := default w (strip_suffix [13%N] w).
Fixpoint lines_of (ws : list str) : list str :=
  match ws with
  | [] => []
  | [w] => if str_is_empty w then [] else [w]
  | w :: ws => strip_cr w :: lines_of ws
  end.
Definition lines (s : str) : list str := lines_of (split_char 10 s).

(** ** [Display] and [Debug] *)

(** [Display] of an unsigned integer. *)
Definition display_u (n : Z) : str := lit (pretty (Z.to_N n)).

(** [Display] of a signed integer. *)
Definition display_i (n : Z) : str := if n <? 0 then chr "-" :: display_u (- n) else display_u n.

(** ** Lemmas *)

Lemma trim_start_by_idem p s : trim_start_by p (trim_start_by p s) = trim_start_by p s.
Proof. induction s as [|c s IH]; simpl; [done|]. destruct (p c) eqn:E; [done|]. simpl. by rewrite E. Qed.

Lemma split_by_not_nil p s : split_by p s <> [].
Proof. destruct s as [|c s]; simpl; [done|]. destruct (p c); [done|]. by destruct (split_by p s). Qed.

Lemma split_by_nosep p s : Forall (fun c => p c = false) s -> split_by p s = [s].
Proof.
  induction 1 as [|c s Hc _ IH]; simpl; [done|]. by rewrite Hc, IH.
Qed.

Lemma split_by_app p s c k :
  p c = true -> split_by p (s ++ c :: k) = split_by p s ++ split_by p k.
Proof.
  intros Hc. induction s as [|d s IH]; simpl; [by rewrite Hc|].
  destruct (p d); [by rewrite IH|].
  rewrite IH. destruct (split_by p s) as [|w ws] eqn:E; [by apply split_by_not_nil in E|done].
Qed.

(** The pieces of a split contain no separator. *)
Lemma split_by_Forall p s : Forall (Forall (fun c => p c = false)) (split_by p s).
Proof.
  induction s as [|c s IH]; simpl; [by repeat constructor|].
  destruct (p c) eqn:E; [by constructor|].
  destruct (split_by p s); [by repeat constructor|].
  inversion IH; subst. constructor; [by constructor|done].
Qed.

(** Splitting undoes joining when no piece holds the separator. *)
Lemma split_join d ws :
  ws <> [] -> Forall (Forall (fun c => N.eqb d c = false)) ws ->
  split_char d (join [d] ws) = ws.
Proof.
  unfold split_char. intros Hne Hws. induction ws as [|w ws IH]; [done|].
  inversion Hws as [|? ? Hw Hrest]; subst. destruct ws as [|w' ws].
  - simpl. by apply split_by_nosep.
  - change (join [d] (w :: w' :: ws)) with (w ++ d :: join [d] (w' :: ws)).
    rewrite split_by_app by apply N.eqb_refl.
    rewrite (split_by_nosep _ w) by done. rewrite IH; done.
Qed.

(** Joining undoes splitting. *)
Lemma join_split d s : join [d] (split_char d s) = s.
Proof.
  unfold split_char. induction s as [|c s IH]; [done|]. cbn [split_by].
  pose proof (split_by_not_nil (N.eqb d) s) as Hne. destruct (split_by (N.eqb d) s) as [|w ws]; [done|].
  destruct (N.eqb_spec d c) as [->|Hc].
  - change (join [c] ([] :: w :: ws)) with ([] ++ [c] ++ join [c] (w :: ws)). by rewrite IH.
  - destruct ws as [|w' ws]; cbn in *; by rewrite <-IH.
Qed.

Lemma strip_prefix_Some p s r : strip_prefix p s = Some r <-> s = p ++ r.
Proof.
  revert s. induction p as [|a p IH]; intros s; simpl.
  - split; [by intros [= ->]|by intros ->].
  - destruct s as [|b s]; [done|]. destruct (N.eqb_spec a b) as [->|Hne].
    + rewrite IH. split; [by intros ->|by intros [= ->]].
    + split; [done|]. by intros [= ->].
Qed.

Lemma starts_with_spec p s : starts_with p s = true <-> exists r, s = p ++ r.
Proof.
  unfold starts_with. rewrite bool_decide_eq_true. split.
  - intros [r Hr]. exists r. by apply strip_prefix_Some.
  - intros [r Hr]. exists r. by apply strip_prefix_Some.
Qed.

Lemma lower_idem c : char_to_ascii_lowercase (char_to_ascii_lowercase c) = char_to_ascii_lowercase c.
Proof.
  unfold char_to_ascii_lowercase at 2 3. destruct (is_ascii_uppercase c) eqn:E;
    unfold char_to_ascii_lowercase; [|by rewrite E].
  unfold is_ascii_uppercase in *.
  destruct ((65 <=? c + 32) && (c + 32 <=? 90))%N eqn:E'; [|done].
  apply andb_true_iff in E, E'. destruct E as [E1 E2], E' as [E3 E4].
  apply N.leb_le in E1, E2, E3, E4. lia.
Qed.

Lemma to_ascii_lowercase_idem s : to_ascii_lowercase (to_ascii_lowercase s) = to_ascii_lowercase s.
Proof.
  unfold to_ascii_lowercase. rewrite <- list_fmap_compose. apply list_fmap_ext.
  intros ? c _. apply lower_idem.
Qed.

#[export] Instance N_of_ascii_inj : Inj (=) (=) N_of_ascii.
Proof. intros a b H. by rewrite <- (ascii_N_embedding a), <- (ascii_N_embedding b), H. Qed.

#[export] Instance lit_inj : Inj (=) (=) lit.
Proof.
  intros a b H. apply (list_fmap_eq_inj N_of_ascii) in H; [|apply _].
  rewrite <- (String.string_of_list_ascii_of_string a).
  rewrite <- (String.string_of_list_ascii_of_string b). by rewrite H.
Qed.

(** Distinct numbers print differently. *)
Lemma display_u_inj a b : 0 <= a -> 0 <= b -> display_u a = display_u b -> a = b.
Proof.
  unfold display_u. intros Ha Hb H%(inj lit)%(inj pretty). lia.
Qed.

Example replace_ex : replace $"&&" [10%N] $"ls && cat &&&" = $"ls " ++ [10%N] ++ $" cat " ++ [10%N] ++ $"&".
Proof. reflexivity. Qed.
Example split_ws_ex : split_whitespace $"  git  status -s " = [$"git"; $"status"; $"-s"].
Proof. reflexivity. Qed.
Example trim_ex : trim $"  a b  " = $"a b".
Proof. reflexivity. Qed.
Example display_ex : display_u 1024 = $"1024".
Proof. reflexivity. Qed.

(** ** Whitespace-separated tokens *)

Definition token (w : str) : Prop := w <> [] /\ Forall (fun c => is_whitespace c = false) w.

Lemma split_whitespace_tokens s : Forall token (split_whitespace s).
Proof.
  unfold split_whitespace. apply Forall_forall. intros w [Hne Hw]%elem_of_retain.
  split; [by intros ->|]. by eapply Forall_forall in Hw; [|apply split_by_Forall].
Qed.

Lemma retain_id {A} (p : A -> bool) l : Forall (fun x => p x = true) l -> retain p l = l.
Proof.
  unfold retain. induction 1 as [|x l Hx _ IH]; [done|].
  rewrite filter_cons, decide_True by done. by rewrite IH.
Qed.

Lemma retain_app {A} (p : A -> bool) l k : retain p (l ++ k) = retain p l ++ retain p k.
Proof. apply filter_app. Qed.

Lemma token_nonempty w : token w -> negb (str_is_empty w) = true.
Proof. by destruct w; intros []. Qed.

Lemma split_by_join_space ws :
  ws <> [] -> Forall token ws -> split_by is_whitespace (join $" " ws) = ws.
Proof.
  intros Hne Hws. induction ws as [|w ws IH]; [done|].
  inversion Hws as [|? ? [_ Hw] Hrest]; subst. destruct ws as [|w' ws].
  - simpl. by apply split_by_nosep.
  - change (join $" " (w :: w' :: ws)) with (w ++ 32%N :: join $" " (w' :: ws)).
    rewrite split_by_app by done. rewrite (split_by_nosep _ w) by done. rewrite IH; done.
Qed.

(** Joining tokens with single spaces and splitting again gives them back. *)
Lemma split_whitespace_join ws : Forall token ws -> split_whitespace (join $" " ws) = ws.
Proof.
  intros Hws. unfold split_whitespace. destruct ws as [|w ws]; [done|].
  rewrite split_by_join_space by done. apply retain_id.
  eapply Forall_impl; [exact Hws|]. apply token_nonempty.
Qed.

Lemma is_whitespace_lower c : is_whitespace (char_to_ascii_lowercase c) = is_whitespace c.
Proof.
  unfold char_to_ascii_lowercase. destruct (is_ascii_uppercase c) eqn:E; [|done].
  unfold is_ascii_uppercase in E. apply andb_true_iff in E. destruct E as [E1 E2].
  apply N.leb_le in E1, E2. assert (H : c ∈ (N.of_nat <$> seq 65 26)).
  { apply list_elem_of_fmap. exists (N.to_nat c). split; [by rewrite N2Nat.id|].
    apply elem_of_seq. lia. }
  assert (Hall : forallb (fun d => Bool.eqb (is_whitespace (d + 32)%N) (is_whitespace d))
                   (N.of_nat <$> seq 65 26) = true) by reflexivity.
  rewrite forallb_spec in Hall. by apply Bool.eqb_prop, Hall.
Qed.

Lemma split_by_fmap p (f : char -> char) (s : str) :
  (forall c, p (f c) = p c) -> split_by p (f <$> s) = fmap (M:=list) f <$> split_by p s.
Proof.
  intros Hp. induction s as [|c s IH]; csimpl; [done|].
  rewrite Hp. destruct (p c); [by rewrite IH|].
  rewrite IH. by destruct (split_by p s).
Qed.

Lemma split_whitespace_lower s :
  split_whitespace (to_ascii_lowercase s) = to_ascii_lowercase <$> split_whitespace s.
Proof.
  unfold split_whitespace, to_ascii_lowercase.
  rewrite (split_by_fmap _ _ _ is_whitespace_lower).
  induction (split_by is_whitespace s) as [|w ws IH]; [done|].
  unfold retain in *. rewrite fmap_cons, !filter_cons.
  destruct w; simpl; [done|]. by rewrite IH.
Qed.

Lemma lower_token w : token w -> token (to_ascii_lowercase w).
Proof.
  intros [Hne Hw]. split; [by destruct w|]. apply Forall_fmap.
  eapply Forall_impl; [exact Hw|]. intros c Hc. simpl. by rewrite is_whitespace_lower.
Qed.

Lemma lower_tokens (ws : list str) : Forall token ws -> Forall token (to_ascii_lowercase <$> ws).
Proof. intros H. apply Forall_fmap. eapply Forall_impl; [exact H|]. apply lower_token. Qed.

Lemma lower_app a b : to_ascii_lowercase (a ++ b) = to_ascii_lowercase a ++ to_ascii_lowercase b.
Proof. apply fmap_app. Qed.

Lemma lower_join (ws : list str) : to_ascii_lowercase (join $" " ws) = join $" " (to_ascii_lowercase <$> ws).
Proof.
  induction ws as [|w ws IH]; [done|]. destruct ws as [|w' ws]; [done|].
  change (join $" " (w :: w' :: ws)) with (w ++ $" " ++ join $" " (w' :: ws)).
  rewrite !lower_app, IH. done.
Qed.

Lemma trim_start_spec s :
  exists pre, s = pre ++ trim_start s /\ Forall (fun c => is_whitespace c = true) pre.
Proof.
  unfold trim_start. induction s as [|c s (pre & IH & Hpre)]; [by exists []|]. simpl.
  destruct (is_whitespace c) eqn:E; [|by exists []].
  exists (c :: pre). split; [simpl; by rewrite <- IH|by constructor].
Qed.

Lemma trim_end_spec s :
  exists suf, s = trim_end s ++ suf /\ Forall (fun c => is_whitespace c = true) suf.
Proof.
  unfold trim_end. destruct (trim_start_spec (rev s)) as (pre & Hs & Hpre).
  exists (rev pre). split.
  - rewrite <- rev_app_distr, <- Hs. by rewrite rev_involutive.
  - apply Forall_forall. intros c Hc. eapply Forall_forall in Hpre; [exact Hpre|].
    apply list_elem_of_In in Hc. apply list_elem_of_In. by apply in_rev.
Qed.

Lemma split_whitespace_blank s :
  Forall (fun c => is_whitespace c = true) s -> split_whitespace s = [].
Proof.
  unfold split_whitespace. induction 1 as [|c s Hc _ IH]; simpl; [done|].
  rewrite Hc. unfold retain in *. by rewrite filter_cons.
Qed.

Lemma split_whitespace_app s c k :
  is_whitespace c = true -> split_whitespace (s ++ c :: k) = split_whitespace s ++ split_whitespace k.
Proof. intros Hc. unfold split_whitespace. by rewrite split_by_app, retain_app. Qed.

Lemma split_whitespace_trim_start s : split_whitespace (trim_start s) = split_whitespace s.
Proof.
  unfold trim_start. induction s as [|c s IH]; simpl; [done|].
  destruct (is_whitespace c) eqn:E; [|done]. rewrite IH. symmetry.
  apply (split_whitespace_app [] c s E).
Qed.

Lemma split_whitespace_trim s : split_whitespace (trim s) = split_whitespace s.
Proof.
  unfold trim. destruct (trim_end_spec (trim_start s)) as (suf & Hs & Hsuf).
  rewrite <- (split_whitespace_trim_start s). rewrite Hs at 2.
  destruct Hsuf as [|c suf Hc Hsuf]; [by rewrite app_nil_r|].
  rewrite split_whitespace_app by done. rewrite (split_whitespace_blank suf) by done. by rewrite app_nil_r.
Qed.

Lemma lower_trim s : split_whitespace (to_ascii_lowercase (trim s)) = to_ascii_lowercase <$> split_whitespace s.
Proof. by rewrite split_whitespace_lower, split_whitespace_trim. Qed.

(** The string-prefix test at a word boundary is the prefix order on tokens. *)
Lemma join_prefix ws vs :
  ws <> [] -> Forall token ws -> Forall token vs ->
  (join $" " vs = join $" " ws \/ exists r, join $" " vs = join $" " ws ++ 32%N :: r) <->
  ws `prefix_of` vs.
Proof.
  intros Hne Hws Hvs. split.
  - intros [H|[r H]]; apply (f_equal split_whitespace) in H.
    + rewrite !split_whitespace_join in H by done. by subst.
    + rewrite split_whitespace_app in H by done.
      rewrite !split_whitespace_join in H by done. subst. by exists (split_whitespace r).
  - intros [k ->]. destruct k as [|v k]; [left; by rewrite app_nil_r|right].
    exists (join $" " (v :: k)). clear Hws Hvs. induction ws as [|w ws IH]; [done|].
    destruct ws as [|w' ws]; [done|].
    change (join $" " ((w :: w' :: ws) ++ v :: k)) with (w ++ $" " ++ join $" " ((w' :: ws) ++ v :: k)).
    rewrite IH by done.
    change (join $" " (w :: w' :: ws)) with (w ++ $" " ++ join $" " (w' :: ws)).
    by rewrite <- !app_assoc.
Qed.

Lemma length_encode_utf8 c : length (encode_utf8 c) = len_utf8 c.
Proof. unfold encode_utf8, len_utf8. repeat case_match; done. Qed.

Lemma length_as_bytes s : Z.of_nat (length (as_bytes s)) = byte_len s.
Proof.
  unfold as_bytes, byte_len. f_equal. induction s as [|c s IH]; csimpl; [done|].
  by rewrite length_app, length_encode_utf8, IH.
Qed.

Lemma as_bytes_app a b : as_bytes (a ++ b) = as_bytes a ++ as_bytes b.
Proof. apply bind_app. Qed.

(** The first byte of a string is a given ASCII character exactly when its
    first character is. *)
Lemma as_bytes_head d s :
  (d < 0x80)%N -> as_bytes s !! 0%nat = Some d <-> exists r, s = d :: r.
Proof.
  intros Hd. destruct s as [|c s]; simpl; [split; [done|by intros []]|].
  unfold encode_utf8.
  destruct (N.ltb_spec c 0x80); simpl; [split; [intros [= ->]; eauto|by intros [r [= -> _]]]|].
  assert (Hc : forall r : str, c :: s = d :: r -> False) by (intros r [= -> _]; lia).
  repeat case_match; simpl; (split; [intros [= H']; exfalso|by intros [r Hr%Hc]]).
  - assert (0 <= c / 64)%N by apply N.le_0_l. lia.
  - assert (0 <= c / 4096)%N by apply N.le_0_l. lia.
  - assert (0 <= c / 262144)%N by apply N.le_0_l. lia.
Qed.

(** The lowercased whitespace-separated words of a string. *)
Definition lower_tokens_of (s : str) : list str := to_ascii_lowercase <$> split_whitespace s.

Lemma lower_tokens_of_token s : Forall token (lower_tokens_of s).
Proof. apply lower_tokens, split_whitespace_tokens. Qed.

Lemma trim_end_app_ws s c : is_whitespace c = true -> trim_end (s ++ [c]) = trim_end s.
Proof. intros Hc. unfold trim_end. rewrite rev_app_distr. simpl. unfold trim_start. simpl. by rewrite Hc. Qed.

Lemma trim_app_ws s c : is_whitespace c = true -> trim (s ++ [c]) = trim s.
Proof.
  intros Hc. unfold trim. induction s as [|d s IH]; simpl.
  - unfold trim_start; simpl. by rewrite Hc.
  - unfold trim_start in *; simpl. destruct (is_whitespace d); [exact IH|].
    change (d :: s ++ [c]) with ((d :: s) ++ [c]). by apply trim_end_app_ws.
Qed.

Lemma strip_cr_trim w : trim (strip_cr w) = trim w.
Proof.
  unfold strip_cr, strip_suffix. destruct (strip_prefix (rev [13%N]) (rev w)) as [r|] eqn:E; [|done].
  simpl. apply strip_prefix_Some in E. simpl in E.
  apply (f_equal (@rev N)) in E. rewrite rev_involutive in E. simpl in E. subst w.
  by rewrite trim_app_ws.
Qed.

Lemma replace_chars_cons p by_ c s :
  replace_chars p by_ (c :: s) = (if p c then by_ else [c]) ++ replace_chars p by_ s.
Proof. done. Qed.

Lemma replace_chars_id p by_ s : Forall (fun c => p c = false) s -> replace_chars p by_ s = s.
Proof. induction 1 as [|c s Hc _ IH]; [done|]. by rewrite replace_chars_cons, Hc, IH. Qed.

Lemma split_once_Some (p s a b : str) : split_once p s = Some (a, b) -> s = a ++ p ++ b.
Proof.
  revert a b. induction s as [|c s IH]; intros a b; cbn [split_once].
  - destruct (strip_prefix p []) as [r|] eqn:E; [|done]. intros [= <- <-].
    by apply strip_prefix_Some in E.
  - destruct (strip_prefix p (c :: s)) as [r|] eqn:E.
    + intros [= <- <-]. by apply strip_prefix_Some in E.
    + destruct (split_once p s) as [[a' b']|]; [|done]. simpl. intros [= <- <-].
      simpl. f_equal. by apply IH.
Qed.

Lemma strip_suffix_Some (p s r : str) : strip_suffix p s = Some r <-> s = r ++ p.
Proof.
  unfold strip_suffix. split.
  - intros (t & Ht & ->)%fmap_Some. apply strip_prefix_Some in Ht.
    rewrite <- (rev_involutive s), Ht, rev_app_distr, rev_involutive. done.
  - intros ->. rewrite rev_app_distr.
    assert (strip_prefix (rev p) (rev p ++ rev r) = Some (rev r)) as -> by (by apply strip_prefix_Some).
    simpl. by rewrite rev_involutive.
Qed.

Lemma trim_start_head s c r : trim_start s = c :: r -> is_whitespace c = false.
Proof.
  unfold trim_start. induction s as [|d s IH]; cbn [trim_start_by]; [done|].
  destruct (is_whitespace d) eqn:E; [done|]. by intros [= <- _].
Qed.

Lemma trim_end_idem s : trim_end (trim_end s) = trim_end s.
Proof. unfold trim_end. rewrite rev_involutive. unfold trim_start. by rewrite trim_start_by_idem. Qed.

Lemma trim_idem s : trim (trim s) = trim s.
Proof.
  unfold trim. assert (Hts : trim_start (trim_end (trim_start s)) = trim_end (trim_start s)).
  { destruct (trim_end (trim_start s)) as [|c r] eqn:E; [done|].
    destruct (trim_end_spec (trim_start s)) as (suf & Hs & _). rewrite E in Hs.
    apply trim_start_head in Hs. unfold trim_start. cbn. by rewrite Hs. }
  by rewrite Hts, trim_end_idem.
Qed.

(** With a one-character pattern the leftmost split is at the first occurrence. *)
Lemma split_once_char (c : char) (a b : str) :
  c ∉ a -> split_once [c] (a ++ c :: b) = Some (a, b).
Proof.
  induction a as [|d a IH]; intros Hc; cbn.
  - by rewrite N.eqb_refl.
  - assert (c <> d) as Hne%N.eqb_neq by (intros ->; apply Hc; by apply elem_of_cons; left).
    rewrite Hne, IH; [done|]. intros Hin. apply Hc. by apply elem_of_cons; right.
Qed.

Lemma split_once_char_before (c : char) (s a b : str) : split_once [c] s = Some (a, b) -> c ∉ a.
Proof.
  revert a b. induction s as [|d s IH]; intros a b; cbn; [done|].
  destruct (N.eqb_spec c d) as [->|Hne]; [intros [= <- <-]; by apply not_elem_of_nil|].
  destruct (split_once [c] s) as [[a' b']|]; [|done]. cbn. intros [= <- <-].
  intros [Heq|Hin]%elem_of_cons; [done|]. by eapply IH.
Qed.

(** A separator that neither part contains determines the parts. *)
Lemma app_sep_inj (c : char) (a b x y : str) :
  c ∉ a -> c ∉ b -> a ++ c :: x = b ++ c :: y -> a = b /\ x = y.
Proof.
  intros Ha Hb E. pose proof (split_once_char c a x Ha) as H1. rewrite E, split_once_char in H1 by done.
  by injection H1 as -> ->.
Qed.

(** ** Order *)

(** [str::cmp] compares bytes, which orders scalar values. *)
Fixpoint str_le (a b : str) : bool :=
  match a, b with
  | [], _ => true
  | _ :: _, [] => false
  | x :: a, y :: b => if N.eqb x y then str_le a b else N.ltb x y
  end.

Lemma str_le_total a b : str_le a b = true \/ str_le b a = true.
Proof.
  revert b. induction a as [|x a IH]; intros [|y b]; simpl; auto.
  rewrite (N.eqb_sym y x). destruct (N.eqb_spec x y); [auto|].
  rewrite !N.ltb_lt. lia.
Qed.

Lemma str_le_trans a b c : str_le a b = true -> str_le b c = true -> str_le a c = true.
Proof.
  revert b c. induction a as [|x a IH]; intros [|y b] [|z c]; simpl; try done.
  destruct (N.eqb_spec x y), (N.eqb_spec y z), (N.eqb_spec x z); subst; try done;
    rewrite ?N.ltb_lt; try lia; try (by eauto); by intros ? ?; lia.
Qed.

Lemma str_le_antisym a b : str_le a b = true -> str_le b a = true -> a = b.
Proof.
  revert b. induction a as [|x a IH]; intros [|y b]; simpl; try done.
  rewrite (N.eqb_sym y x). destruct (N.eqb_spec x y) as [->|]; [intros; f_equal; auto|].
  rewrite !N.ltb_lt. lia.
Qed.

(** No occurrence of a pattern. *)
Lemma split_once_None (p s : str) : split_once p s = None <-> forall a b, s <> a ++ p ++ b.
Proof.
  induction s as [|c s IH]; cbn [split_once].
  - destruct (strip_prefix p []) as [r|] eqn:E.
    + apply strip_prefix_Some in E. split; [done|]. intros H. by destruct (H [] r).
    + split; [|done]. intros _ a b Hab. symmetry in Hab. apply app_eq_nil in Hab as [-> Hab].
      cut (strip_prefix p [] = Some b); [by rewrite E|]. by apply strip_prefix_Some.
  - destruct (strip_prefix p (c :: s)) as [r|] eqn:E.
    + apply strip_prefix_Some in E. split; [done|]. intros H. by destruct (H [] r).
    + rewrite fmap_None, IH. split.
      * intros H [|d a] b Hab; [|injection Hab as -> Hab; by apply (H a b)].
        cut (strip_prefix p (c :: s) = Some b); [by rewrite E|]. by apply strip_prefix_Some.
      * intros H a b ->. by apply (H (c :: a) b).
Qed.

(** Parts of a text without occurrences have none. *)
Lemma split_once_part (p a s b : str) : split_once p (a ++ s ++ b) = None -> split_once p s = None.
Proof.
  rewrite !split_once_None. intros H x y ->. apply (H (a ++ x) (y ++ b)). by rewrite <-!app_assoc.
Qed.

(** A pattern that does not hold [c] has its occurrences on one side of [c]. *)
Lemma split_once_skip (p a b : str) (c : char) :
  c ∉ p -> split_once p a = None ->
  split_once p (a ++ c :: b) = prod_map (fun x => a ++ c :: x) id <$> split_once p b.
Proof.
  intros Hc. assert (Hp : forall s, split_once p s = None -> strip_prefix p (s ++ c :: b) = None).
  { intros s Hs. destruct (strip_prefix p (s ++ c :: b)) as [r|] eqn:E; [|done]. apply strip_prefix_Some in E.
    apply app_eq_inv in E as [(k & Hk & _)|(k & Hk & Hr)].
    - rewrite split_once_None in Hs. by destruct (Hs [] k).
    - destruct k as [|d k]; [rewrite app_nil_r in Hk; subst|].
      + rewrite split_once_None in Hs. destruct (Hs [] []). by rewrite app_nil_r.
      + injection Hr as <- _. exfalso. apply Hc. rewrite Hk. apply elem_of_app. right. by left. }
  induction a as [|d a IH]; intros Ha.
  - cbn [app split_once]. rewrite (Hp [] Ha : strip_prefix p (c :: b) = None). by destruct (split_once p b) as [[]|].
  - change ((d :: a) ++ c :: b) with (d :: (a ++ c :: b)). cbn [split_once].
    rewrite (Hp (d :: a) Ha : strip_prefix p (d :: (a ++ c :: b)) = None).
    rewrite IH; [|by apply (split_once_part p [d] a []); rewrite app_nil_r]. by destruct (split_once p b) as [[]|].
Qed.

(** No occurrence starts in a part that does not hold the first character. *)
Lemma split_once_nohead (c : char) (p a b : str) :
  c ∉ a -> split_once (c :: p) b = None -> split_once (c :: p) (a ++ b) = None.
Proof.
  intros Hc Hb. induction a as [|d a IH]; [done|]. cbn. apply not_elem_of_cons in Hc as [Hd%N.eqb_neq Ha].
  by rewrite Hd, IH.
Qed.

(** ** Iterating a [BTreeMap]

    [iter] and [values] give the entries in the order of their keys. *)

Definition btree_entries {V} (m : gmap str V) : list (str * V) := stable_sort (fun p q => str_le p.1 q.1) (map_to_list m).
Definition btree_values {V} (m : gmap str V) : list V := (btree_entries m).*2.

Lemma btree_entries_perm {V} (m : gmap str V) : btree_entries m ≡ₚ map_to_list m.
Proof. apply stable_sort_perm. Qed.

Lemma elem_of_btree_entries {V} (m : gmap str V) k v : (k, v) ∈ btree_entries m <-> m !! k = Some v.
Proof. rewrite btree_entries_perm. apply elem_of_map_to_list. Qed.

Lemma elem_of_btree_values {V} (m : gmap str V) v : v ∈ btree_values m <-> exists k, m !! k = Some v.
Proof.
  unfold btree_values. rewrite list_elem_of_fmap. split.
  - intros ([k w] & -> & Hin). apply elem_of_btree_entries in Hin. by exists k.
  - intros [k Hk]. exists (k, v). split; [done|]. by apply elem_of_btree_entries.
Qed.

Lemma btree_entries_keys {V} (m : gmap str V) : NoDup (btree_entries m).*1.
Proof. rewrite btree_entries_perm. apply NoDup_fst_map_to_list. Qed.

Lemma btree_values_perm {V} (m : gmap str V) : btree_values m ≡ₚ (map_to_list m).*2.
Proof. unfold btree_values. by rewrite btree_entries_perm. Qed.

Lemma existsb_btree_values {V} (p : V -> bool) (m : gmap str V) :
  existsb p (btree_values m) = true <-> exists k v, m !! k = Some v /\ p v = true.
Proof.
  rewrite existsb_exists. split.
  - intros (v & Hv%list_elem_of_In & Hp). apply elem_of_btree_values in Hv as [k Hk]. by exists k, v.
  - intros (k & v & Hk & Hp). exists v. split; [|done]. apply list_elem_of_In, elem_of_btree_values. by exists k.
Qed.
