(* ===== verification/BashArity.v ===== *)
(** * The arity dictionary for command-prefix allow rules

    [crates/execpolicy/src/bash_arity.rs]: the static table, the dictionary
    sorted longest prefix first, [classify] and [allow_rule_matches]. *)

From S2P Require Import Text.

Definition arity_git : list (str * Z) := [
  ($"git add", 2);
  ($"git am", 2);
  ($"git apply", 2);
  ($"git bisect", 2);
  ($"git blame", 2);
  ($"git branch", 2);
  ($"git cat-file", 2);
  ($"git checkout", 2);
  ($"git cherry-pick", 2);
  ($"git clean", 2);
  ($"git clone", 2);
  ($"git commit", 2);
  ($"git config", 2);
  ($"git describe", 2);
  ($"git diff", 2);
  ($"git fetch", 2);
  ($"git format-patch", 2);
  ($"git grep", 2);
  ($"git init", 2);
  ($"git log", 2);
  ($"git ls-files", 2);
  ($"git merge", 2);
  ($"git mv", 2);
  ($"git notes", 2);
  ($"git pull", 2);
  ($"git push", 2);
  ($"git rebase", 2);
  ($"git reflog", 2);
  ($"git remote", 2);
  ($"git reset", 2);
  ($"git restore", 2);
  ($"git revert", 2);
  ($"git rm", 2);
  ($"git show", 2);
  ($"git stash", 2);
  ($"git status", 2);
  ($"git submodule", 2);
  ($"git switch", 2);
  ($"git tag", 2);
  ($"git worktree", 2)
].

Definition arity_npm : list (str * Z) := [
  ($"npm audit", 2);
  ($"npm build", 2);
  ($"npm cache", 2);
  ($"npm ci", 2);
  ($"npm dedupe", 2);
  ($"npm fund", 2);
  ($"npm help", 2);
  ($"npm info", 2);
  ($"npm init", 2);
  ($"npm install", 2);
  ($"npm link", 2);
  ($"npm list", 2);
  ($"npm ls", 2);
  ($"npm outdated", 2);
  ($"npm pack", 2);
  ($"npm prune", 2);
  ($"npm publish", 2);
  ($"npm rebuild", 2);
  ($"npm run", 3);
  ($"npm start", 2);
  ($"npm stop", 2);
  ($"npm test", 2);
  ($"npm uninstall", 2);
  ($"npm update", 2);
  ($"npm version", 2);
  ($"npm view", 2)
].

Definition arity_yarn : list (str * Z) := [
  ($"yarn add", 2);
  ($"yarn audit", 2);
  ($"yarn build", 2);
  ($"yarn install", 2);
  ($"yarn run", 3);
  ($"yarn start", 2);
  ($"yarn test", 2);
  ($"yarn upgrade", 2);
  ($"yarn workspace", 3)
].

Definition arity_pnpm : list (str * Z) := [
  ($"pnpm add", 2);
  ($"pnpm build", 2);
  ($"pnpm install", 2);
  ($"pnpm run", 3);
  ($"pnpm start", 2);
  ($"pnpm test", 2);
  ($"pnpm update", 2)
].

Definition arity_cargo : list (str * Z) := [
  ($"cargo add", 2);
  ($"cargo bench", 2);
  ($"cargo build", 2);
  ($"cargo check", 2);
  ($"cargo clean", 2);
  ($"cargo clippy", 2);
  ($"cargo doc", 2);
  ($"cargo fix", 2);
  ($"cargo fmt", 2);
  ($"cargo generate", 2);
  ($"cargo install", 2);
  ($"cargo metadata", 2);
  ($"cargo package", 2);
  ($"cargo publish", 2);
  ($"cargo remove", 2);
  ($"cargo run", 2);
  ($"cargo search", 2);
  ($"cargo test", 2);
  ($"cargo tree", 2);
  ($"cargo uninstall", 2);
  ($"cargo update", 2);
  ($"cargo yank", 2)
].

Definition arity_docker : list (str * Z) := [
  ($"docker build", 2);
  ($"docker compose", 3);
  ($"docker container", 3);
  ($"docker cp", 2);
  ($"docker exec", 2);
  ($"docker image", 3);
  ($"docker images", 2);
  ($"docker inspect", 2);
  ($"docker kill", 2);
  ($"docker logs", 2);
  ($"docker network", 3);
  ($"docker ps", 2);
  ($"docker pull", 2);
  ($"docker push", 2);
  ($"docker rm", 2);
  ($"docker rmi", 2);
  ($"docker run", 2);
  ($"docker start", 2);
  ($"docker stop", 2);
  ($"docker system", 3);
  ($"docker tag", 2);
  ($"docker volume", 3)
].

Definition arity_kubectl : list (str * Z) := [
  ($"kubectl apply", 2);
  ($"kubectl create", 3);
  ($"kubectl delete", 3);
  ($"kubectl describe", 3);
  ($"kubectl exec", 2);
  ($"kubectl explain", 2);
  ($"kubectl get", 3);
  ($"kubectl label", 2);
  ($"kubectl logs", 2);
  ($"kubectl patch", 2);
  ($"kubectl port-forward", 2);
  ($"kubectl rollout", 3);
  ($"kubectl scale", 2);
  ($"kubectl set", 2);
  ($"kubectl top", 3)
].

Definition arity_go : list (str * Z) := [
  ($"go build", 2);
  ($"go clean", 2);
  ($"go env", 2);
  ($"go fmt", 2);
  ($"go generate", 2);
  ($"go get", 2);
  ($"go install", 2);
  ($"go list", 2);
  ($"go mod", 3);
  ($"go run", 2);
  ($"go test", 2);
  ($"go vet", 2);
  ($"go work", 3)
].

Definition arity_python : list (str * Z) := [
  ($"pip install", 2);
  ($"pip uninstall", 2);
  ($"pip list", 2);
  ($"pip show", 2);
  ($"pip freeze", 2);
  ($"pip3 install", 2);
  ($"pip3 uninstall", 2);
  ($"pip3 list", 2);
  ($"pip3 show", 2);
  ($"python -m", 3);
  ($"python3 -m", 3)
].

Definition arity_make : list (str * Z) := [
  ($"make", 1);
  ($"cmake", 1)
].

Definition arity_gh : list (str * Z) := [
  ($"gh pr", 3);
  ($"gh issue", 3);
  ($"gh repo", 3);
  ($"gh release", 3);
  ($"gh workflow", 3);
  ($"gh run", 3);
  ($"gh secret", 3)
].

Definition arity_rustup : list (str * Z) := [
  ($"rustup default", 2);
  ($"rustup install", 2);
  ($"rustup show", 2);
  ($"rustup target", 3);
  ($"rustup toolchain", 3);
  ($"rustup update", 2)
].

Definition arity_deno : list (str * Z) := [
  ($"deno run", 2);
  ($"deno test", 2);
  ($"deno fmt", 2);
  ($"deno lint", 2);
  ($"bun add", 2);
  ($"bun build", 2);
  ($"bun install", 2);
  ($"bun run", 3);
  ($"bun test", 2);
  ($"npx", 2)
].

Definition arity_aws : list (str * Z) := [
  ($"aws s3", 3);
  ($"aws ec2", 3);
  ($"aws iam", 3);
  ($"aws lambda", 3);
  ($"aws cloudformation", 3);
  ($"aws ecs", 3);
  ($"aws eks", 3);
  ($"aws rds", 3);
  ($"aws sts", 3);
  ($"aws configure", 2)
].

Definition arity_terraform : list (str * Z) := [
  ($"terraform init", 2);
  ($"terraform plan", 2);
  ($"terraform apply", 2);
  ($"terraform destroy", 2);
  ($"terraform validate", 2);
  ($"terraform output", 2);
  ($"terraform state", 3);
  ($"terraform workspace", 3)
].

Definition arity_helm : list (str * Z) := [
  ($"helm install", 2);
  ($"helm upgrade", 2);
  ($"helm uninstall", 2);
  ($"helm list", 2);
  ($"helm repo", 3);
  ($"helm status", 2);
  ($"helm template", 2)
].

Definition BASH_ARITY_TABLE : list (str * Z) :=
  arity_git ++ arity_npm ++ arity_yarn ++ arity_pnpm ++ arity_cargo ++ arity_docker ++ arity_kubectl ++ arity_go ++ arity_python ++ arity_make ++ arity_gh ++ arity_rustup ++ arity_deno ++ arity_aws ++ arity_terraform ++ arity_helm.

Record BashArityDict := { entries : list (str * Z) }.

(** [BashArityDict::new]: longest prefix first, by a stable sort. *)
Definition longer_first (a b : str * Z) : bool := byte_len b.1 <=? byte_len a.1.
Definition new : BashArityDict := {| entries := stable_sort longer_first BASH_ARITY_TABLE |}.

Definition is_flag (t : str) : bool := starts_with $"-" t.

(** The non-flag tokens, lowercased. *)
Definition positional_tokens (tokens : list str) : list str :=
  to_ascii_lowercase <$> retain (fun t => negb (is_flag t)) tokens.

(** [for depth in (1..=depth).rev()] over the candidates of [classify]. *)
Fixpoint classify_depth (d : BashArityDict) (positional : list str) (depth : nat) : str :=
  match depth with
  | O => default [] (head positional)
  | S shorter =>
      let candidate := join $" " (take depth positional) in
      match find (fun e => bool_decide (e.1 = candidate)) (entries d) with
      | Some (_, arity) => join $" " (take (Nat.min (Z.to_nat arity) (length positional)) positional)
      | None => classify_depth d positional shorter
      end
  end.

Definition classify (d : BashArityDict) (tokens : list str) : str :=
  match tokens with
  | [] => []
  | _ =>
      match positional_tokens tokens with
      | [] => []
      | positional => classify_depth d positional (Nat.min (length positional) 3)
      end
  end.

Definition allow_rule_matches (d : BashArityDict) (pattern command : str) : bool :=
  let pattern_lower := to_ascii_lowercase (trim pattern) in
  let command_tokens := split_whitespace command in
  let canonical := classify d command_tokens in
  if bool_decide (canonical = pattern_lower) then true
  else
    let command_lower := to_ascii_lowercase (trim command) in
    let pattern_norm := join $" " (split_whitespace pattern_lower) in
    let command_norm := join $" " (split_whitespace command_lower) in
    bool_decide (command_norm = pattern_norm)
    || starts_with pattern_norm command_norm
       && bool_decide (as_bytes command_norm !! Z.to_nat (byte_len pattern_norm) = Some 32%N).

Definition len (d : BashArityDict) : Z := zlen (entries d).
Definition is_empty (d : BashArityDict) : bool := match entries d with [] => true | _ => false end.

(** ** Lemmas *)

Lemma new_entries_perm : entries new ≡ₚ BASH_ARITY_TABLE.
Proof. apply stable_sort_perm. Qed.

Lemma positional_tokens_retain tokens :
  positional_tokens (retain (fun t => negb (is_flag t)) tokens) = positional_tokens tokens.
Proof.
  unfold positional_tokens. f_equal. apply retain_id, Forall_forall.
  intros t Ht%elem_of_retain. by destruct Ht.
Qed.

Lemma positional_tokens_app a b :
  positional_tokens (a ++ b) = positional_tokens a ++ positional_tokens b.
Proof. unfold positional_tokens. by rewrite retain_app, fmap_app. Qed.

Lemma positional_tokens_flag f : is_flag f = true -> positional_tokens [f] = [].
Proof.
  intros Hf. unfold positional_tokens, retain. rewrite filter_cons, decide_False; [done|].
  by rewrite Hf.
Qed.

Lemma classify_positional d tokens :
  classify d tokens =
  match positional_tokens tokens with
  | [] => []
  | p => classify_depth d p (Nat.min (length p) 3)
  end.
Proof. by destruct tokens. Qed.

Lemma classify_depth_prefix d p depth :
  p <> [] -> (forall e, e ∈ entries d -> 1 <= e.2) ->
  exists k, (1 <= k <= length p)%nat /\ classify_depth d p depth = join $" " (take k p).
Proof.
  intros Hp Hd. assert (Hlen : (1 <= length p)%nat) by (destruct p; simpl; [done|lia]).
  induction depth as [|depth IH]; [|simpl; destruct (find _ _) as [[key a]|] eqn:E; [|done]].
  - exists 1%nat. split; [lia|]. by destruct p.
  - exists (Nat.min (Z.to_nat a) (length p)). apply find_Some in E. destruct E as [E _].
    specialize (Hd _ E). simpl in Hd. split; [lia|done].
Qed.

(** The word-boundary fallback of [allow_rule_matches]. *)
Definition word_boundary_match (pattern_norm command_norm : str) : bool :=
  bool_decide (command_norm = pattern_norm)
  || starts_with pattern_norm command_norm
     && bool_decide (as_bytes command_norm !! Z.to_nat (byte_len pattern_norm) = Some 32%N).

Lemma word_boundary_match_spec p c :
  word_boundary_match p c = true <-> c = p \/ exists r, c = p ++ 32%N :: r.
Proof.
  unfold word_boundary_match.
  rewrite orb_true_iff, andb_true_iff, !bool_decide_eq_true, starts_with_spec.
  assert (Hget : forall r, as_bytes (p ++ r) !! Z.to_nat (byte_len p) = as_bytes r !! 0%nat).
  { intros r. rewrite <- length_as_bytes, Nat2Z.id, as_bytes_app.
    rewrite lookup_app_r by lia. by rewrite Nat.sub_diag. }
  split; (intros [H|H]; [by left|right]).
  - destruct H as ([r ->] & H). rewrite Hget in H. apply as_bytes_head in H; [|done].
    destruct H as [r' ->]. by exists r'.
  - destruct H as [r ->]. split; [by exists (32%N :: r)|].
    rewrite Hget. apply as_bytes_head; [done|]. by exists r.
Qed.

(** A rule matches exactly when it is the canonical prefix of the command, or
    its words are a prefix of the command's words. *)
Lemma allow_rule_matches_words d pattern command :
  split_whitespace pattern <> [] ->
  allow_rule_matches d pattern command = true <->
  classify d (split_whitespace command) = to_ascii_lowercase (trim pattern) \/
  lower_tokens_of pattern `prefix_of` lower_tokens_of command.
Proof.
  intros Hne. unfold allow_rule_matches. rewrite !lower_trim.
  fold (lower_tokens_of pattern) (lower_tokens_of command).
  case_bool_decide as Hc; [by split; [left|]|].
  fold (word_boundary_match (join $" " (lower_tokens_of pattern)) (join $" " (lower_tokens_of command))).
  rewrite word_boundary_match_spec, join_prefix;
    [|by unfold lower_tokens_of; destruct (split_whitespace pattern)|apply lower_tokens_of_token..].
  split; [by right|by intros []].
Qed.
