(* ===== verification/DenyMatch.v ===== *)
(** * Deny rules: command segments and flag-aware prefix matching

    The free functions of [crates/execpolicy/src/lib.rs] that decide whether a
    denied prefix matches a command: [command_segments],
    [command_is_chained], [denied_prefix_matches], [is_env_assignment],
    [normalize_command] and [first_token]. *)

From S2P Require Import Text.

(** ** Segments *)

Definition newline : str := [10%N].

(** [command_segments]: the top-level pieces between [&&], [||], [|], [;] and
    newlines, trimmed, empty ones dropped. *)
Definition command_segments (command : str) : list str :=
  let s := replace $"&&" newline command in
  let s := replace $"||" newline s in
  let s := replace_chars (fun c => N.eqb c (chr "|") || N.eqb c (chr ";")) newline s in
  retain (fun segment => negb (str_is_empty segment)) (trim <$> lines s).

Definition command_is_chained (command : str) : bool :=
  (1 <? length (command_segments command))%nat.

(** ** Tokens *)

Definition is_env_assignment (token : str) : bool :=
  match split_once $"=" token with
  | Some (name, _) =>
      negb (str_is_empty name) && negb (starts_with $"-" name)
      && forallb (fun ch => is_ascii_alphanumeric ch || N.eqb ch (chr "_")) name
  | None => false
  end.

Definition normalize_command (value : str) : str :=
  to_ascii_lowercase (join $" " (split_whitespace value)).

Definition first_token (command : str) : str := default [] (head (split_whitespace command)).

(** ** The search

    [explore] is the [while let Some((i, j)) = stack.pop()] loop over pairs of a
    command index and a rule index.  The stack grows at its head; [None] is an
    exhausted fuel. *)
Section explore.
Context (rule_tokens command_tokens : list str).

(** What one iteration pushes, the last push first. *)
Definition pushes (i j : nat) : list (nat * nat) :=
  let token := default [] (command_tokens !! i) in
  (if starts_with $"-" token then
     (if contains_char (chr "=") token then [] else [(S (S i), j)]) ++ [(S i, j)]
   else [])
  ++ (if decide (rule_tokens !! j = Some token) then [(S i, S j)] else []).

Fixpoint explore (fuel : nat) (stack : list (nat * nat)) (seen : gset (nat * nat)) : option bool :=
  match fuel with
  | O => None
  | S fuel =>
      match stack with
      | [] => Some false
      | (i, j) :: stack =>
          if decide (j = length rule_tokens) then Some true
          else if decide ((length command_tokens <= i)%nat) then explore fuel stack seen
          else if decide ((i, j) ∈ seen) then explore fuel stack seen
          else explore fuel (pushes i j ++ stack) ({[(i, j)]} ∪ seen)
      end
  end.

(** At most one expansion per pair, at most three pushes per expansion. *)
Definition explore_fuel : nat := 2 + 3 * (length command_tokens * length rule_tokens).
End explore.

Definition denied_prefix_matches (rule command : str) : bool :=
  let rule_tokens := split_whitespace (normalize_command rule) in
  match rule_tokens with
  | [] => false
  | _ =>
      let command_tokens := split_whitespace (normalize_command command) in
      let start := default (length command_tokens)
                     (position (fun token => negb (is_env_assignment token)) command_tokens) in
      default false (explore rule_tokens command_tokens
                       (explore_fuel rule_tokens command_tokens) [(start, 0%nat)] ∅)
  end.

Example deny_ex1 : denied_prefix_matches $"git push" $"FOO=1 git -c foo=bar push origin" = true.
Proof. vm_compute. reflexivity. Qed.
Example deny_ex2 : denied_prefix_matches $"git push" $"git checkout push" = false.
Proof. vm_compute. reflexivity. Qed.
Example deny_ex3 : denied_prefix_matches $"rm" $"rmdir x" = false.
Proof. vm_compute. reflexivity. Qed.
Example segs_ex : command_segments $"ls && npm publish | cat ; x" = [$"ls"; $"npm publish"; $"cat"; $"x"].
Proof. vm_compute. reflexivity. Qed.

(** ** The relation the search decides *)

(** [deny_match rule command]: the rule's words are consumed in order, each
    skipped word is a flag, alone or with the word after it when the flag has
    no inline value. *)
Inductive deny_match : list str -> list str -> Prop :=
| dm_done cmd : deny_match [] cmd
| dm_eat t rule cmd : deny_match rule cmd -> deny_match (t :: rule) (t :: cmd)
| dm_flag f rule cmd :
    starts_with $"-" f = true -> deny_match rule cmd -> deny_match rule (f :: cmd)
| dm_flag_value f v rule cmd :
    starts_with $"-" f = true -> contains_char (chr "=") f = false ->
    deny_match rule cmd -> deny_match rule (f :: v :: cmd).

Create HintDb exec discriminated.
#[export] Hint Constructors deny_match : exec.

Section explore_correct.
Context (rule cmd : list str).
Abbreviation n := (length cmd).
Abbreviation m := (length rule).

(** The rest of the rule matches the rest of the command. *)
Definition matches_at (p : nat * nat) : Prop := deny_match (drop p.2 rule) (drop p.1 cmd).
Definition dead (p : nat * nat) : Prop := (n <= p.1)%nat /\ (p.2 < m)%nat.

Lemma pushes_bound i j p :
  (j < m)%nat -> p ∈ pushes rule cmd i j -> (i < p.1)%nat /\ (p.2 <= m)%nat.
Proof.
  unfold pushes. intros Hj. rewrite elem_of_app. intros [Hp|Hp].
  - destruct (starts_with _ _); [|by apply not_elem_of_nil in Hp].
    destruct (contains_char _ _); simpl in Hp; set_unfold; destruct_or?; subst; simpl; lia.
  - case_decide; set_unfold; destruct_or?; try done; subst; simpl; lia.
Qed.

Lemma pushes_length i j : (length (pushes rule cmd i j) <= 3)%nat.
Proof. unfold pushes. repeat case_match; simpl; lia. Qed.

Lemma pushes_sound i j p :
  (i < n)%nat -> p ∈ pushes rule cmd i j -> matches_at p -> matches_at (i, j).
Proof.
  unfold pushes, matches_at. intros Hi.
  destruct (lookup_lt_is_Some_2 cmd i Hi) as [t Ht]. rewrite Ht; simpl.
  rewrite (drop_S _ _ _ Ht), elem_of_app. intros [Hp|Hp] Hm.
  - destruct (starts_with $"-" t) eqn:Hf; [|by apply not_elem_of_nil in Hp].
    apply elem_of_app in Hp. destruct Hp as [Hp|Hp].
    + destruct (contains_char (chr "=") t) eqn:He; [by apply not_elem_of_nil in Hp|].
      apply list_elem_of_singleton in Hp. subst p. simpl in Hm.
      destruct (cmd !! S i) as [v|] eqn:Hv.
      * rewrite (drop_S _ _ _ Hv). eauto with exec.
      * apply lookup_ge_None in Hv. rewrite (drop_ge cmd) in Hm by lia.
        rewrite (drop_ge cmd) by lia. eauto with exec.
    + apply list_elem_of_singleton in Hp. subst p. eauto with exec.
  - case_decide as Hj; [|by apply not_elem_of_nil in Hp].
    apply list_elem_of_singleton in Hp. subst p. rewrite (drop_S _ _ _ Hj). eauto with exec.
Qed.

(** A match at a pair continues at one of its pushes, or the rule is used up. *)
Lemma pushes_complete i j :
  (i < n)%nat -> (j < m)%nat -> matches_at (i, j) ->
  exists p, p ∈ pushes rule cmd i j /\ matches_at p.
Proof.
  unfold matches_at, pushes. intros Hi Hj. simpl.
  destruct (lookup_lt_is_Some_2 cmd i Hi) as [t Ht]. rewrite Ht, (drop_S _ _ _ Ht).
  destruct (lookup_lt_is_Some_2 rule j Hj) as [u Hu]. simpl. intros Hm.
  inversion Hm as [c Hr Hc|t' r c Hm' Hr Hc|f r c Hf Hm' Hr Hc|f v r c Hf He Hm' Hr Hc]; subst.
  - by rewrite (drop_S _ _ _ Hu) in Hr.
  - rewrite (drop_S _ _ _ Hu) in Hr. injection Hr as -> ->.
    exists (S i, S j). rewrite (decide_True (P := rule !! j = Some u)) by done.
    split; [set_solver|done].
  - exists (S i, j). rewrite Hf. split; [set_solver|done].
  - exists (S (S i), j). rewrite Hf, He. split; [set_solver|]. simpl.
    assert (Hv : drop (S (S i)) cmd = c); [|by rewrite Hv].
    replace (S (S i)) with (S i + 1)%nat by lia. rewrite <- drop_drop.
    match goal with H : _ :: _ = drop (S i) cmd |- _ => by rewrite <- H end.
Qed.

Lemma explore_sound fuel stack seen :
  explore rule cmd fuel stack seen = Some true -> exists p, p ∈ stack /\ matches_at p.
Proof.
  revert stack seen. induction fuel as [|fuel IH]; intros stack seen; simpl; [done|].
  destruct stack as [|[i j] stack]; [done|].
  case_decide as Hj.
  { intros _. exists (i, j). split; [set_solver|].
    unfold matches_at; simpl. rewrite Hj, drop_all. constructor. }
  case_decide as Hi; [intros (p & ? & ?)%IH; exists p; set_solver|].
  case_decide as Hs; [intros (p & ? & ?)%IH; exists p; set_solver|].
  intros (p & [Hp|Hp]%elem_of_app & Hm)%IH; [|exists p; set_solver].
  exists (i, j). split; [set_solver|]. eapply pushes_sound; eauto with lia.
Qed.

(** The loop invariant: expanded pairs are in range and their pushes are
    expanded, pending or dead. *)
Definition explore_inv (stack : list (nat * nat)) (seen : gset (nat * nat)) : Prop :=
  (forall p, p ∈ stack -> (p.2 <= m)%nat) /\
  (forall p, p ∈ seen -> (p.1 < n)%nat /\ (p.2 < m)%nat /\
     forall q, q ∈ pushes rule cmd p.1 p.2 -> q ∈ seen \/ q ∈ stack \/ dead q).

Lemma explore_inv_pop p stack seen :
  explore_inv (p :: stack) seen -> p ∈ seen \/ dead p -> explore_inv stack seen.
Proof.
  intros [Hst Hseen] Hp. split; [set_solver|].
  intros q Hq. destruct (Hseen q Hq) as (H1 & H2 & Hq'). do 2 (split; [done|]).
  intros r Hr. destruct (Hq' r Hr) as [|[[->|]%elem_of_cons|]]; tauto.
Qed.

Lemma explore_inv_expand i j stack seen :
  explore_inv ((i, j) :: stack) seen -> (i < n)%nat -> (j < m)%nat ->
  explore_inv (pushes rule cmd i j ++ stack) ({[(i, j)]} ∪ seen).
Proof.
  intros [Hst Hseen] Hi Hj. split.
  - intros p [Hp|Hp]%elem_of_app; [by eapply pushes_bound|set_solver].
  - intros p [->%elem_of_singleton|Hp]%elem_of_union; simpl.
    + do 2 (split; [done|]). set_solver.
    + destruct (Hseen p Hp) as (H1 & H2 & Hp'). do 2 (split; [done|]).
      intros q Hq. destruct (Hp' q Hq) as [|[[->|]%elem_of_cons|]]; set_solver.
Qed.

Lemma no_match_when_closed seen p :
  explore_inv [] seen -> p ∈ seen \/ dead p -> ~ matches_at p.
Proof.
  intros [_ Hseen]. remember (n - p.1)%nat as k eqn:Hk. revert p Hk.
  induction (lt_wf k) as [k _ IH]. intros [i j] -> [Hp|[Hi Hj]] Hm; simpl in *.
  - destruct (Hseen _ Hp) as (Hi & Hj & Hq). simpl in *.
    destruct (pushes_complete i j Hi Hj Hm) as (q & Hin & Hmq).
    destruct (pushes_bound i j q Hj Hin) as [Hlt _].
    destruct (Hq q Hin) as [Hs|[Hs%not_elem_of_nil|Hd]]; [|done|];
      (eapply (IH (n - q.1)%nat); [lia|reflexivity| |exact Hmq]); [by left|by right].
  - unfold matches_at in Hm; simpl in Hm. rewrite (drop_ge cmd) in Hm by done.
    destruct (lookup_lt_is_Some_2 rule j Hj) as [u Hu].
    rewrite (drop_S _ _ _ Hu) in Hm. inversion Hm.
Qed.

Lemma explore_complete fuel stack seen :
  explore_inv stack seen -> explore rule cmd fuel stack seen = Some false ->
  forall p, p ∈ seen \/ p ∈ stack \/ dead p -> ~ matches_at p.
Proof.
  revert stack seen. induction fuel as [|fuel IH]; intros stack seen Hinv; simpl; [done|].
  destruct stack as [|[i j] stack].
  { intros _ p Hp. apply (no_match_when_closed seen); [done|]. set_solver. }
  assert (Hj : (j <= m)%nat) by (apply (proj1 Hinv (i, j)); set_solver).
  case_decide as Hjm; [done|]. case_decide as Hi; [|case_decide as Hs]; intros Hex p Hp.
  - assert (Hd : dead (i, j)) by (split; simpl; lia).
    eapply IH; [by eapply explore_inv_pop; eauto|exact Hex|].
    destruct Hp as [|[[->|]%elem_of_cons|]]; tauto.
  - eapply IH; [by eapply explore_inv_pop; eauto|exact Hex|].
    destruct Hp as [|[[->|]%elem_of_cons|]]; tauto.
  - eapply IH; [apply explore_inv_expand; [exact Hinv|lia..]|exact Hex|]. set_solver.
Qed.

(** Fuel: every iteration consumes a pending pair or expands a new one. *)
Definition grid : gset (nat * nat) := list_to_set (list_prod (seq 0 n) (seq 0 m)).

Lemma elem_of_grid i j : (i, j) ∈ grid <-> (i < n)%nat /\ (j < m)%nat.
Proof.
  unfold grid. rewrite elem_of_list_to_set, list_elem_of_In, in_prod_iff, !in_seq. lia.
Qed.

Lemma size_grid : (size grid <= n * m)%nat.
Proof.
  unfold grid. etransitivity; [apply size_list_to_set_le|]. by rewrite length_prod, !length_seq.
Qed.

Lemma explore_total fuel stack seen :
  explore_inv stack seen ->
  (length stack + 3 * (n * m - size seen) < fuel)%nat ->
  is_Some (explore rule cmd fuel stack seen).
Proof.
  revert stack seen. induction fuel as [|fuel IH]; intros stack seen Hinv Hfuel; [lia|].
  simpl. destruct stack as [|[i j] stack]; [done|].
  assert (Hj : (j <= m)%nat) by (apply (proj1 Hinv (i, j)); set_solver).
  case_decide as Hjm; [done|]. simpl in Hfuel. case_decide as Hi; [|case_decide as Hs].
  - apply IH; [|lia]. eapply explore_inv_pop; [done|]. right. split; simpl; lia.
  - apply IH; [|lia]. eapply explore_inv_pop; eauto.
  - assert (Hinv' := explore_inv_expand i j stack seen Hinv ltac:(lia) ltac:(lia)).
    apply IH; [done|]. rewrite length_app. pose proof (pushes_length i j).
    assert (Hsub : {[(i, j)]} ∪ seen ⊆ grid).
    { intros [i' j'] Hp. destruct (proj2 Hinv' _ Hp) as (? & ? & _). by apply elem_of_grid. }
    apply subseteq_size in Hsub. pose proof size_grid.
    pose proof (size_insert_new (i, j) seen Hs). lia.
Qed.

(** The search decides the relation, from any starting index. *)
Lemma explore_spec start :
  exists b, explore rule cmd (explore_fuel rule cmd) [(start, 0%nat)] ∅ = Some b /\
    (b = true <-> deny_match rule (drop start cmd)).
Proof.
  assert (Hinv : explore_inv [(start, 0%nat)] ∅).
  { split; [|set_solver]. intros p ->%list_elem_of_singleton. simpl. lia. }
  destruct (explore_total (explore_fuel rule cmd) _ _ Hinv) as [b Hb].
  { unfold explore_fuel. rewrite size_empty. simpl. lia. }
  exists b. split; [done|]. destruct b; split; intros H; try done.
  - apply explore_sound in Hb. destruct Hb as (p & ->%list_elem_of_singleton & Hm). exact Hm.
  - exfalso. eapply (explore_complete _ _ _ Hinv Hb (start, 0%nat)); [set_solver|exact H].
Qed.
End explore_correct.

(** ** The matching relation on words *)

(** The words left after the leading environment assignments. *)
Fixpoint skip_env (words : list str) : list str :=
  match words with
  | [] => []
  | w :: words' => if is_env_assignment w then skip_env words' else words
  end.

Lemma skip_env_position words :
  skip_env words =
  drop (default (length words) (position (fun w => negb (is_env_assignment w)) words)) words.
Proof.
  induction words as [|w words IH]; simpl; [done|].
  destruct (is_env_assignment w); simpl; [|done]. rewrite IH.
  by destruct (position _ words).
Qed.

Lemma normalize_command_words v : split_whitespace (normalize_command v) = lower_tokens_of v.
Proof.
  unfold normalize_command. rewrite lower_join. apply split_whitespace_join, lower_tokens_of_token.
Qed.

(** ** Segments at a separator *)

Definition is_separator (c : char) : bool :=
  N.eqb c (chr "|") || N.eqb c (chr ";") || N.eqb 10 c.

Definition keep_segments (ws : list str) : list str :=
  retain (fun segment => negb (str_is_empty segment)) (trim <$> ws).

Lemma keep_segments_app a b : keep_segments (a ++ b) = keep_segments a ++ keep_segments b.
Proof. unfold keep_segments. by rewrite fmap_app, retain_app. Qed.

Lemma keep_segments_nil ws : keep_segments ([] :: ws) = keep_segments ws.
Proof. done. Qed.

Lemma keep_segments_lines ws : keep_segments (lines_of ws) = keep_segments ws.
Proof.
  induction ws as [|w ws IH]; [done|]. destruct ws as [|w' ws].
  - simpl. by destruct w.
  - change (lines_of (w :: w' :: ws)) with (strip_cr w :: lines_of (w' :: ws)).
    change (strip_cr w :: lines_of (w' :: ws)) with ([strip_cr w] ++ lines_of (w' :: ws)).
    change (w :: w' :: ws) with ([w] ++ (w' :: ws)).
    rewrite !keep_segments_app, IH. f_equal.
    unfold keep_segments. csimpl. by rewrite strip_cr_trim.
Qed.

Lemma split_replace_chars p s :
  split_char 10 (replace_chars p newline s) = split_by (fun c => p c || N.eqb 10 c) s.
Proof.
  unfold split_char, replace_chars, newline.
  induction s as [|c s IH]; [done|]. csimpl.
  destruct (p c); simpl; [by rewrite IH|]. destruct (N.eqb 10 c); by rewrite IH.
Qed.

(** The replacement of [||] is subsumed by the one of [|]. *)
Lemma split_replace_pipes s :
  head (split_by is_separator (replace $"||" newline s)) = head (split_by is_separator s) /\
  keep_segments (tail (split_by is_separator (replace $"||" newline s))) =
  keep_segments (tail (split_by is_separator s)).
Proof.
  assert (Hgen : forall k s, (length s <= k)%nat ->
    head (split_by is_separator (replace $"||" newline s)) = head (split_by is_separator s) /\
    keep_segments (tail (split_by is_separator (replace $"||" newline s))) =
    keep_segments (tail (split_by is_separator s))); [|by eapply Hgen].
  clear s. intros k. induction k as [|k IH]; intros s Hs; [by destruct s; [|simpl in Hs; lia]|].
  destruct s as [|c s]; [done|]. simpl in Hs. unfold replace in *. simpl.
  destruct (starts_with $"||" (c :: s)) eqn:E.
  - apply starts_with_spec in E. destruct E as [r E].
    change $"||" with [chr "|"; chr "|"] in E. simpl in E. injection E as -> ->.
    simpl. destruct (IH r) as [H1 H2]; [simpl in Hs; lia|].
    destruct (split_by is_separator (replace_go $"||" newline 0 r)) as [|w ws] eqn:Ew;
      [by apply split_by_not_nil in Ew|].
    destruct (split_by is_separator r) as [|v vs] eqn:Ev; [by apply split_by_not_nil in Ev|].
    simpl in *. injection H1 as ->. split; [done|]. rewrite keep_segments_nil.
    change (v :: ws) with ([v] ++ ws). change (v :: vs) with ([v] ++ vs).
    by rewrite !keep_segments_app, H2.
  - destruct (IH s) as [H1 H2]; [lia|]. simpl.
    destruct (split_by is_separator (replace_go $"||" newline 0 s)) as [|w ws] eqn:Ew;
      [by apply split_by_not_nil in Ew|].
    destruct (split_by is_separator s) as [|v vs] eqn:Ev; [by apply split_by_not_nil in Ev|].
    simpl in *. injection H1 as ->. destruct (is_separator c); simpl; [|done].
    split; [done|]. change (v :: ws) with ([v] ++ ws). change (v :: vs) with ([v] ++ vs).
    by rewrite !keep_segments_app, H2.
Qed.

Lemma command_segments_alt s :
  command_segments s = keep_segments (split_by is_separator (replace $"&&" newline s)).
Proof.
  unfold command_segments. fold (keep_segments (lines (replace_chars
    (fun c => N.eqb c (chr "|") || N.eqb c (chr ";")) newline (replace $"||" newline (replace $"&&" newline s))))).
  unfold lines. rewrite keep_segments_lines, split_replace_chars.
  fold is_separator. set (t := replace $"&&" newline s).
  destruct (split_replace_pipes t) as [H1 H2].
  destruct (split_by is_separator (replace $"||" newline t)) as [|w ws] eqn:Ew;
    [by apply split_by_not_nil in Ew|].
  destruct (split_by is_separator t) as [|v vs] eqn:Ev; [by apply split_by_not_nil in Ev|].
  simpl in *. injection H1 as ->.
  change (v :: ws) with ([v] ++ ws). change (v :: vs) with ([v] ++ vs).
  by rewrite !keep_segments_app, H2.
Qed.

Lemma starts_with_amp_app x a c b :
  c <> chr "&" -> starts_with $"&&" (x :: a ++ c :: b) = starts_with $"&&" (x :: a).
Proof.
  intros Hc. apply eq_iff_eq_true. rewrite !starts_with_spec.
  change $"&&" with [chr "&"; chr "&"]. destruct a as [|y a]; simpl.
  - split; intros [r [=]]; congruence.
  - split; intros [r [= -> -> _]]; eauto.
Qed.

Lemma replace_amp_app k a c b :
  c <> chr "&" -> (k <= length a)%nat ->
  replace_go $"&&" newline k (a ++ c :: b) =
  replace_go $"&&" newline k a ++ c :: replace_go $"&&" newline 0 b.
Proof.
  intros Hc. revert k. induction a as [|x a IH]; intros k Hk.
  - simpl in Hk. assert (k = 0)%nat as -> by lia. simpl.
    destruct (starts_with $"&&" (c :: b)) eqn:E; [|done].
    apply starts_with_spec in E. destruct E as [r E].
    change $"&&" with [chr "&"; chr "&"] in E. by injection E.
  - simpl. destruct k as [|k]; [|simpl in Hk; apply IH; lia].
    rewrite starts_with_amp_app by done.
    destruct (starts_with $"&&" (x :: a)) eqn:E; [|simpl; f_equal; apply IH; lia].
    rewrite IH; [done|]. apply starts_with_spec in E. destruct E as [r E].
    change $"&&" with [chr "&"; chr "&"] in E. destruct a; [done|simpl; lia].
Qed.

Lemma command_segments_sep a c b :
  is_separator c = true -> command_segments (a ++ c :: b) = command_segments a ++ command_segments b.
Proof.
  intros Hc. assert (c <> chr "&") by (by intros ->).
  rewrite !command_segments_alt. unfold replace.
  rewrite replace_amp_app by (done || lia).
  by rewrite split_by_app, keep_segments_app.
Qed.

Lemma replace_amp_cons x s :
  replace_go $"&&" newline 0 (x :: s) =
  if starts_with $"&&" (x :: s) then newline ++ replace_go $"&&" newline 1 s
  else x :: replace_go $"&&" newline 0 s.
Proof. done. Qed.

Lemma starts_with_amp_amp x a b :
  last (x :: a) <> Some (chr "&") ->
  starts_with $"&&" (x :: a ++ $"&&" ++ b) = starts_with $"&&" (x :: a).
Proof.
  intros Ha. apply eq_iff_eq_true. rewrite !starts_with_spec.
  change $"&&" with [chr "&"; chr "&"].
  destruct a as [|y a]; split; intros [r Hr]; simplify_eq/=; eauto.
Qed.

Lemma replace_amp_amp k a b :
  last a <> Some (chr "&") -> (k <= length a)%nat ->
  replace_go $"&&" newline k (a ++ $"&&" ++ b) =
  replace_go $"&&" newline k a ++ 10%N :: replace_go $"&&" newline 0 b.
Proof.
  revert k. induction a as [|x a IH]; intros k Ha Hk.
  { simpl in Hk. by assert (k = 0)%nat as -> by lia. }
  assert (Ha' : last a <> Some (chr "&")) by (by destruct a).
  rewrite <- app_comm_cons. destruct k as [|k]; [|apply IH; [done|simpl in Hk; lia]].
  rewrite !replace_amp_cons, starts_with_amp_amp by done.
  destruct (starts_with $"&&" (x :: a)) eqn:E.
  - apply starts_with_spec in E. destruct E as [r E]. destruct a as [|y a]; [done|].
    rewrite IH; [by rewrite <- app_assoc|done|simpl; lia].
  - rewrite IH; [done|done|lia].
Qed.

Lemma command_segments_amp a b :
  last a <> Some (chr "&") ->
  command_segments (a ++ $"&&" ++ b) = command_segments a ++ command_segments b.
Proof.
  intros Ha. rewrite !command_segments_alt. unfold replace.
  rewrite replace_amp_amp by (done || lia). by rewrite split_by_app, keep_segments_app.
Qed.
