(* ===== verification/PathNorm.v ===== *)
(** * Lexical path normalization for permission rules

    The path functions of [crates/execpolicy/src/lib.rs]:
    [parse_path_for_matching_with_case], [normalize_workspace_relative_path],
    [normalize_workspace_scope] and [workspace_scope_matches]. *)

From S2P Require Import Text.

(** The platform the crate is compiled for: [cfg!(any(target_os = "windows",
    target_os = "macos"))]. *)
Class Platform := { platform_paths_are_case_insensitive : bool }.

Definition slashes (value : str) : str := replace_chars (N.eqb (chr "\")) $"/" (trim value).

Definition is_windows_absolute_path (value : str) : bool :=
  match value with
  | a :: b :: c :: _ => is_ascii_alphabetic a && N.eqb b (chr ":") && N.eqb c (chr "/")
  | _ => false
  end.

Definition has_windows_drive_prefix (value : str) : bool :=
  match value with
  | a :: b :: _ => is_ascii_alphabetic a && N.eqb b (chr ":")
  | _ => false
  end.

(** The [for component in components.split('/')] loop: empty and ["."]
    components are dropped, a [".."] component rejects the path. *)
Fixpoint normalized_components (components : list str) : option (list str) :=
  match components with
  | [] => Some []
  | c :: rest =>
      if bool_decide (c = []) || bool_decide (c = $".") then normalized_components rest
      else if bool_decide (c = $"..") then None
      else cons c <$> normalized_components rest
  end.

Record PathForMatching := { root : option str; components : list str }.

Definition parse_path_for_matching_with_case (value : str) (case_insensitive : bool)
  : option PathForMatching :=
  let value := slashes value in
  let value :=
    if case_insensitive then to_ascii_lowercase value
    else if has_windows_drive_prefix value
    then to_ascii_lowercase (take 1 value) ++ drop 1 value
    else value in
  if str_is_empty value then None
  else
    split ← (match strip_prefix $"/" value with
             | Some path => Some (Some $"/", path)
             | None =>
                 if is_windows_absolute_path value then Some (Some (take 2 value), drop 3 value)
                 else if has_windows_drive_prefix value then None
                 else Some (None, value)
             end);
    comps ← normalized_components (split_char (chr "/") split.2);
    Some {| root := split.1; components := comps |}.

(** [<[T]>::strip_prefix]. *)
Fixpoint strip_components (prefix path : list str) : option (list str) :=
  match prefix, path with
  | [], _ => Some path
  | a :: prefix, b :: path => if bool_decide (a = b) then strip_components prefix path else None
  | _ :: _, [] => None
  end.

Definition normalize_workspace_relative_path_with_case
  (value workspace_root : str) (case_insensitive : bool) : option str :=
  path ← parse_path_for_matching_with_case value case_insensitive;
  workspace ← parse_path_for_matching_with_case workspace_root case_insensitive;
  ws_root ← root workspace;
  relative_components ←
    (match root path with
     | Some path_root =>
         if bool_decide (path_root = ws_root)
         then strip_components (components workspace) (components path)
         else None
     | None => Some (components path)
     end);
  Some (join $"/" relative_components).

Definition normalize_workspace_relative_path `{Platform} (value workspace_root : str) : option str :=
  normalize_workspace_relative_path_with_case value workspace_root platform_paths_are_case_insensitive.

Definition normalize_workspace_scope (value : str) : option str :=
  let value := slashes value in
  if str_is_empty value then None
  else
    split ← (match strip_prefix $"/" value with
             | Some path => Some ($"/", path)
             | None =>
                 if is_windows_absolute_path value
                 then let value := to_ascii_lowercase value in Some (take 2 value, drop 3 value)
                 else None
             end);
    comps ← normalized_components (split_char (chr "/") split.2);
    match comps with
    | [] => None
    | _ =>
        let separator := if bool_decide (split.1 = $"/") then [] else $"/" in
        Some (split.1 ++ separator ++ join $"/" comps)
    end.

Definition workspace_scope_matches (rule_workspace cwd : str) : bool :=
  match normalize_workspace_scope rule_workspace, normalize_workspace_scope cwd with
  | Some rule_workspace, Some cwd => bool_decide (rule_workspace = cwd)
  | _, _ => false
  end.

Example norm_ex1 : normalize_workspace_relative_path_with_case $"src\./lib.rs" $"/repo" false = Some $"src/lib.rs".
Proof. vm_compute. reflexivity. Qed.
Example norm_ex2 : normalize_workspace_relative_path_with_case $"/repo/../etc" $"/repo" false = None.
Proof. vm_compute. reflexivity. Qed.
Example norm_ex3 : normalize_workspace_scope $"C:\Repo\X\" = Some $"c:/repo/x".
Proof. vm_compute. reflexivity. Qed.

(** ** Lemmas *)

(** A component a normalized path may hold. *)
Definition safe_component (c : str) : Prop :=
  c <> [] /\ c <> $"." /\ c <> $".." /\
  Forall (fun ch => N.eqb (chr "/") ch = false) c.

Lemma normalized_components_safe cs out :
  Forall (Forall (fun ch => N.eqb (chr "/") ch = false)) cs ->
  normalized_components cs = Some out -> Forall safe_component out.
Proof.
  intros Hcs. revert out. induction Hcs as [|c cs Hc _ IH]; intros out; simpl.
  - by intros [= <-].
  - repeat case_bool_decide; simpl; try done; try apply IH.
    destruct (normalized_components cs) as [r|]; [|done]. intros [= <-].
    constructor; [by repeat split|by apply IH].
Qed.

Lemma normalized_components_safe_id cs :
  Forall safe_component cs -> normalized_components cs = Some cs.
Proof.
  induction 1 as [|c cs (H1 & H2 & H3 & _) _ IH]; simpl; [done|].
  by rewrite !bool_decide_false, IH by done.
Qed.

(** Traversal is rejected, not collapsed. *)
Lemma normalized_components_dotdot cs : $".." ∈ cs -> normalized_components cs = None.
Proof.
  induction cs as [|c cs IH]; [by intros ?%not_elem_of_nil|].
  intros [<-|H]%elem_of_cons; simpl; [done|]. rewrite IH by done. by repeat case_bool_decide.
Qed.

Lemma strip_components_Some p q r : strip_components p q = Some r <-> q = p ++ r.
Proof.
  revert q. induction p as [|a p IH]; intros q; simpl; [split; [by intros [= ->]|by intros ->]|].
  destruct q as [|b q]; [done|]. case_bool_decide as Hab.
  - subst. rewrite IH. split; [by intros ->|by intros [= ->]].
  - split; [done|]. by intros [= <- _].
Qed.

(** What the text of a path denotes, after slashes and case are settled. *)
Definition settle_case (value : str) (case_insensitive : bool) : str :=
  if case_insensitive then to_ascii_lowercase value
  else if has_windows_drive_prefix value
  then to_ascii_lowercase (take 1 value) ++ drop 1 value
  else value.

Lemma parse_path_safe v ci p :
  parse_path_for_matching_with_case v ci = Some p -> Forall safe_component (components p).
Proof.
  unfold parse_path_for_matching_with_case. fold (settle_case (slashes v) ci).
  destruct (str_is_empty _); [done|].
  intros ([r t] & _ & (cs & Hcs & [= <-])%bind_Some)%bind_Some; simpl in *.
  eapply normalized_components_safe; [|exact Hcs]. apply split_by_Forall.
Qed.

Lemma join_slash_nonempty cs : cs <> [] -> Forall safe_component cs -> join $"/" cs <> [].
Proof.
  intros Hne Hcs. destruct Hcs as [|c cs [Hc _] _]; [done|].
  destruct cs; simpl; [done|]. by destruct c.
Qed.

Lemma join_slash_head cs c r :
  Forall safe_component cs -> join $"/" cs = c :: r -> c <> chr "/".
Proof.
  intros Hcs H. destruct Hcs as [|w cs (Hne & _ & _ & Hw) _]; [done|].
  destruct w as [|d w]; [done|]. inversion Hw as [|? ? Hd _]; subst.
  assert (d = c) as -> by (destruct cs; simpl in H; by injection H).
  by intros ->.
Qed.

Lemma lower_ne_slash ch : N.eqb (chr "/") ch = false -> N.eqb (chr "/") (char_to_ascii_lowercase ch) = false.
Proof.
  intros H. apply N.eqb_neq in H. apply N.eqb_neq. unfold char_to_ascii_lowercase.
  destruct (is_ascii_uppercase ch) eqn:E; [|done].
  apply andb_true_iff in E. destruct E as [E1%N.leb_le E2%N.leb_le].
  change (chr "/") with 47%N. lia.
Qed.

(** A string that parsing reads back as it is: it is trimmed, has no
    backslash, is in its settled case and starts with no drive. *)
Definition stable_relative (ci : bool) (s : str) : Prop :=
  s <> [] /\ trim s = s /\ Forall (fun ch => N.eqb (chr "\") ch = false) s /\
  has_windows_drive_prefix s = false /\ (ci = true -> to_ascii_lowercase s = s).

Lemma slashes_id s :
  trim s = s -> Forall (fun ch => N.eqb (chr "\") ch = false) s -> slashes s = s.
Proof.
  intros Ht Hb. unfold slashes. by rewrite Ht, replace_chars_id.
Qed.

(** A stable relative string made of safe components parses to them. *)
Lemma parse_stable ci cs :
  cs <> [] -> Forall safe_component cs -> stable_relative ci (join $"/" cs) ->
  parse_path_for_matching_with_case (join $"/" cs) ci = Some {| root := None; components := cs |}.
Proof.
  intros Hne Hcs (Hs & Htrim & Hback & Hdrive & Hci).
  unfold parse_path_for_matching_with_case. rewrite slashes_id by done.
  assert (Hsettle : (if ci then to_ascii_lowercase (join $"/" cs)
    else if has_windows_drive_prefix (join $"/" cs)
    then to_ascii_lowercase (take 1 (join $"/" cs)) ++ drop 1 (join $"/" cs)
    else join $"/" cs) = join $"/" cs).
  { destruct ci; [auto|]. by rewrite Hdrive. }
  rewrite Hsettle.
  assert (exists c r, join $"/" cs = c :: r) as (c & r & Ej)
    by (destruct (join $"/" cs); [done|eauto]).
  assert (Hempty : str_is_empty (join $"/" cs) = false) by (by rewrite Ej).
  assert (Hstrip : strip_prefix $"/" (join $"/" cs) = None).
  { rewrite Ej. change $"/" with [chr "/"]. simpl.
    destruct (N.eqb_spec (chr "/") c) as [<-|]; [|done].
    by destruct (join_slash_head cs _ _ Hcs Ej). }
  assert (Habs : is_windows_absolute_path (join $"/" cs) = false).
  { clear Hsettle Hstrip. unfold is_windows_absolute_path, has_windows_drive_prefix in *.
    repeat case_match; try done. by rewrite Hdrive. }
  rewrite Hempty, Hstrip, Habs, Hdrive. simpl.
  change $"/" with [chr "/"]. rewrite split_join; [|done|].
  - by rewrite normalized_components_safe_id.
  - eapply Forall_impl; [exact Hcs|]. by intros w (_ & _ & _ & Hw).
Qed.

(** * Properties of path normalization

    Containment in the workspace, rejection of traversal, stability under a
    second normalization, and the relation between workspace scopes. *)

(** What [normalize_workspace_relative_path_with_case] computes, as a relation
    between the parsed value, the parsed workspace and the result. *)
Lemma normalize_inv v ws ci out :
  normalize_workspace_relative_path_with_case v ws ci = Some out <->
  exists p w r cs,
    parse_path_for_matching_with_case v ci = Some p /\
    parse_path_for_matching_with_case ws ci = Some w /\ root w = Some r /\
    out = join $"/" cs /\
    ((root p = None /\ components p = cs) \/
     (root p = Some r /\ components p = components w ++ cs)).
Proof.
  unfold normalize_workspace_relative_path_with_case. split.
  - intros (p & Hp & (w & Hw & (r & Hr & (cs & Hcs & [= <-])%bind_Some)%bind_Some)%bind_Some)%bind_Some.
    exists p, w, r, cs. repeat split; [done..|].
    destruct (root p) as [pr|]; [|left; by simplify_eq].
    case_bool_decide; [|done]. subst. right. by apply strip_components_Some in Hcs.
  - intros (p & w & r & cs & Hp & Hw & Hr & -> & Hcs). rewrite Hp. simpl. rewrite Hw. simpl.
    rewrite Hr. simpl. destruct Hcs as [[-> ->]|[-> Hc]]; simpl; [done|].
    rewrite bool_decide_true by done.
    assert (strip_components (components w) (components p) = Some cs) as ->
      by by apply strip_components_Some.
    done.
Qed.

(** a normalized path never leaves the workspace.  The result is the
    slash-separated list of components that are non-empty, free of slashes
    and neither ["."] nor [".."]; a relative value stands for those components
    below the workspace, and an absolute value is accepted only when it has
    the workspace's root and its components are the workspace's followed by
    exactly those. *)
Theorem normalized_path_stays_in_workspace v ws ci out :
  normalize_workspace_relative_path_with_case v ws ci = Some out ->
  exists cs p w r,
    out = join $"/" cs /\ Forall safe_component cs /\
    parse_path_for_matching_with_case v ci = Some p /\
    parse_path_for_matching_with_case ws ci = Some w /\ root w = Some r /\
    (root p = None /\ components p = cs \/ root p = Some r /\ components p = components w ++ cs).
Proof.
  intros (p & w & r & cs & Hp & Hw & Hr & -> & Hcs)%normalize_inv.
  exists cs, p, w, r. repeat split; try done.
  apply parse_path_safe in Hp. destruct Hcs as [[_ <-]|[_ Heq]]; [done|].
  rewrite Heq in Hp. by apply Forall_app in Hp as [_ ?].
Qed.

Lemma normalized_path_stays_in_workspace_witness :
  exists cs p w r,
    $"src/lib.rs" = join $"/" cs /\ Forall safe_component cs /\
    parse_path_for_matching_with_case $"/repo/./src//lib.rs" false = Some p /\
    parse_path_for_matching_with_case $"/repo/" false = Some w /\ root w = Some r /\
    (root p = None /\ components p = cs \/ root p = Some r /\ components p = components w ++ cs).
Proof. apply normalized_path_stays_in_workspace. vm_compute. reflexivity. Defined.

(** ** Traversal *)

Lemma slash_lower c : N.eqb (chr "/") (char_to_ascii_lowercase c) = N.eqb (chr "/") c.
Proof.
  destruct (N.eqb (chr "/") c) eqn:E; [|by apply lower_ne_slash].
  apply N.eqb_eq in E. by subst.
Qed.

Lemma dotdot_settle (v : str) ci :
  $".." ∈ split_char (chr "/") v -> $".." ∈ split_char (chr "/") (settle_case v ci).
Proof.
  unfold settle_case, split_char. intros Hin. destruct ci.
  - unfold to_ascii_lowercase. change (map char_to_ascii_lowercase v) with (char_to_ascii_lowercase <$> v).
    rewrite (split_by_fmap _ _ _ slash_lower).
    apply list_elem_of_fmap. by exists $"..".
  - destruct (has_windows_drive_prefix v) eqn:Hd; [|done].
    destruct v as [|a [|b v]]; try done. apply andb_true_iff in Hd as [Ha Hb].
    change (take 1 (a :: b :: v)) with [a]. change (drop 1 (a :: b :: v)) with (b :: v).
    assert (Hsl : N.eqb (chr "/") a = false).
    { destruct (N.eqb_spec (chr "/") a) as [<-|]; done. }
    assert (Hb' : b = chr ":") by (by apply N.eqb_eq in Hb). subst b.
    cbn [app split_by] in Hin. rewrite Hsl in Hin.
    change (to_ascii_lowercase [a] ++ chr ":" :: v)
      with (char_to_ascii_lowercase a :: chr ":" :: v).
    cbn [split_by]. rewrite slash_lower, Hsl.
    change (N.eqb (chr "/") (chr ":")) with false in *. cbn iota in *.
    destruct (split_by (N.eqb (chr "/")) v) as [|w ws]; cbn iota in *;
      apply elem_of_cons in Hin as [Hbad|Hin]; try done;
      by apply elem_of_cons; right.
Qed.

(** a path with a [".."] component is rejected, never collapsed, whether it
    is the candidate or the workspace, whatever the separators, the case and
    the drive. *)
Theorem traversal_is_rejected v ws ci :
  $".." ∈ split_char (chr "/") (slashes v) \/ $".." ∈ split_char (chr "/") (slashes ws) ->
  normalize_workspace_relative_path_with_case v ws ci = None.
Proof.
  assert (Hp : forall v, $".." ∈ split_char (chr "/") (slashes v) ->
    parse_path_for_matching_with_case v ci = None).
  { clear v. intros v Hin%(dotdot_settle _ ci). unfold parse_path_for_matching_with_case.
    fold (settle_case (slashes v) ci). set (s := settle_case (slashes v) ci) in *.
    destruct (str_is_empty s); [done|].
    assert (Hn : forall t, $".." ∈ split_char (chr "/") t ->
      normalized_components (split_char (chr "/") t) = None) by (intros; by apply normalized_components_dotdot).
    destruct (strip_prefix $"/" s) as [t|] eqn:Hs.
    - apply strip_prefix_Some in Hs. cbn [mbind option_bind fst snd]. rewrite Hn; [done|].
      rewrite Hs in Hin. change ($"/" ++ t) with ([] ++ chr "/" :: t) in Hin.
      unfold split_char in *. rewrite split_by_app in Hin by done. simpl in Hin.
      by apply elem_of_cons in Hin as [|].
    - destruct (is_windows_absolute_path s) eqn:Hw.
      + destruct s as [|a [|b [|c t]]]; try done. cbn [mbind option_bind fst snd drop].
        unfold is_windows_absolute_path in Hw. rewrite !andb_true_iff in Hw.
        destruct Hw as [[Ha Hb%N.eqb_eq] Hc%N.eqb_eq]. subst b c. rewrite Hn; [done|].
        change (a :: chr ":" :: chr "/" :: t) with ([a; chr ":"] ++ chr "/" :: t) in Hin.
        unfold split_char in *. rewrite split_by_app in Hin by done.
        apply elem_of_app in Hin as [Hin|]; [|done]. exfalso. revert Hin. cbn [split_by].
        destruct (N.eqb (chr "/") a); change (N.eqb (chr "/") (chr ":")) with false; cbn iota;
          intros Hin; repeat (apply elem_of_cons in Hin as [Hin|Hin]; [done|]);
          by apply not_elem_of_nil in Hin.
      + destruct (has_windows_drive_prefix s); [done|]. cbn [mbind option_bind fst snd].
        by rewrite Hn. }
  intros [Hv|Hw]; unfold normalize_workspace_relative_path_with_case.
  - by rewrite (Hp v).
  - destruct (parse_path_for_matching_with_case v ci); [|done]. simpl. by rewrite (Hp ws).
Qed.

Lemma traversal_is_rejected_witness :
  normalize_workspace_relative_path_with_case $"src\..\..\etc/passwd" $"/repo" false = None.
Proof.
  apply traversal_is_rejected. left. vm_compute. right. by left.
Defined.

(** ** Stability *)

(** normalization is idempotent: a normalized path that is trimmed, in its
    settled case and free of backslashes and drives normalizes to itself. *)
Theorem normalization_is_stable v ws ci out :
  normalize_workspace_relative_path_with_case v ws ci = Some out -> stable_relative ci out ->
  normalize_workspace_relative_path_with_case out ws ci = Some out.
Proof.
  intros Hn Hst. pose proof Hn as Hn'.
  apply normalized_path_stays_in_workspace in Hn' as (cs & p & w & r & -> & Hcs & _ & Hw & Hr & _).
  assert (cs <> []) by (intros ->; by destruct Hst).
  apply normalize_inv. exists {| root := None; components := cs |}, w, r, cs.
  repeat split; [by apply parse_stable|done..|by left].
Qed.

Lemma normalization_is_stable_witness :
  normalize_workspace_relative_path_with_case $"src/lib.rs" $"C:\Repo" true = Some $"src/lib.rs".
Proof.
  apply (normalization_is_stable $"c:/repo/SRC\lib.rs" _ true); [by vm_compute|].
  split; [done|]. split; [by vm_compute|]. split; [by repeat constructor|].
  split; [by vm_compute|]. by intros _; vm_compute.
Defined.

(** the workspace itself has the empty relative path, and the empty path
    is not a path: an exact-workspace rule can never name the root. *)
Theorem workspace_root_is_not_addressable ws ci w r :
  parse_path_for_matching_with_case ws ci = Some w -> root w = Some r ->
  normalize_workspace_relative_path_with_case ws ws ci = Some [] /\
  normalize_workspace_relative_path_with_case [] ws ci = None.
Proof.
  intros Hw Hr. split; [|by destruct ci].
  apply normalize_inv. exists w, w, r, []. repeat split; try done. right. by rewrite app_nil_r.
Qed.

Lemma workspace_root_is_not_addressable_witness :
  normalize_workspace_relative_path_with_case $"/repo" $"/repo" false = Some [] /\
  normalize_workspace_relative_path_with_case [] $"/repo" false = None.
Proof.
  eapply workspace_root_is_not_addressable; [by vm_compute|reflexivity].
Defined.

(** ** Scopes *)

(** matching a rule's workspace with the current directory is a partial
    equivalence whose domain is the absolute paths that normalize: an
    unrooted, traversing or bare-root scope matches nothing, not even itself. *)
Theorem workspace_scope_matches_is_per a b c :
  (workspace_scope_matches a b = true -> workspace_scope_matches b a = true) /\
  (workspace_scope_matches a b = true -> workspace_scope_matches b c = true ->
   workspace_scope_matches a c = true) /\
  (workspace_scope_matches a a = true <-> is_Some (normalize_workspace_scope a)).
Proof.
  unfold workspace_scope_matches.
  destruct (normalize_workspace_scope a), (normalize_workspace_scope b), (normalize_workspace_scope c);
    rewrite ?bool_decide_eq_true; repeat split; try done; try congruence; by intros [].
Qed.
