(* ===== verification/ExecPolicy.v ===== *)
(** * The execution-policy engine

    [crates/execpolicy/src/lib.rs]: rulesets and typed rules, the engine's
    state and its operations, and [check], the decision on one invocation. *)

From S2P Require Import Text BashArity DenyMatch PathNorm.

(** ** Data *)

Inductive RulesetLayer := BuiltinDefault | Agent | User.

#[export] Instance RulesetLayer_eq_dec : EqDecision RulesetLayer.
Proof. solve_decision. Defined.

(** The derived order follows the discriminants. *)
Definition layer_rank (l : RulesetLayer) : Z :=
  match l with BuiltinDefault => 0 | Agent => 1 | User => 2 end.

Inductive PermissionAction := Allow | Ask | Deny.

#[export] Instance PermissionAction_eq_dec : EqDecision PermissionAction.
Proof. solve_decision. Defined.

Definition action_rank (a : PermissionAction) : Z :=
  match a with Allow => 0 | Ask => 1 | Deny => 2 end.

Definition default_rule_action : PermissionAction := Ask.

Record ToolAskRule := {
  tool : str;
  command : option str;
  command_exact : bool;
  path : option str;
  workspace : option str;
  action : PermissionAction }.

Definition ToolAskRule_new (tool : str) : ToolAskRule :=
  {| tool := tool; command := None; command_exact := false; path := None;
     workspace := None; action := Ask |}.

Definition exec_shell (command : str) : ToolAskRule :=
  {| tool := $"exec_shell"; command := Some command; command_exact := false; path := None;
     workspace := None; action := Ask |}.

Definition file_path (tool path : str) : ToolAskRule :=
  {| tool := tool; command := None; command_exact := false; path := Some path;
     workspace := None; action := Ask |}.

Definition into_exact_workspace_allow (r : ToolAskRule) (workspace : str) : ToolAskRule :=
  {| tool := tool r; command := command r; command_exact := bool_decide (is_Some (command r));
     path := path r; workspace := Some workspace; action := Allow |}.

Definition label (r : ToolAskRule) : str :=
  join $" "
    ([$"tool=" ++ tool r]
     ++ (match command r with Some c => [$"command=" ++ c] | None => [] end)
     ++ (if command_exact r then [$"command_exact=true"] else [])
     ++ (match path r with Some p => [$"path=" ++ p] | None => [] end)
     ++ (match workspace r with Some w => [$"workspace=" ++ w] | None => [] end)).

Record Ruleset := {
  layer : RulesetLayer;
  trusted_prefixes : list str;
  denied_prefixes : list str;
  ask_rules : list ToolAskRule }.

Definition builtin_default : Ruleset :=
  {| layer := BuiltinDefault; trusted_prefixes := []; denied_prefixes := []; ask_rules := [] |}.
Definition agent (trusted denied : list str) : Ruleset :=
  {| layer := Agent; trusted_prefixes := trusted; denied_prefixes := denied; ask_rules := [] |}.
Definition user (trusted denied : list str) : Ruleset :=
  {| layer := User; trusted_prefixes := trusted; denied_prefixes := denied; ask_rules := [] |}.
Definition with_ask_rules (rs : Ruleset) (ask_rules : list ToolAskRule) : Ruleset :=
  {| layer := layer rs; trusted_prefixes := trusted_prefixes rs;
     denied_prefixes := denied_prefixes rs; ask_rules := ask_rules |}.

Inductive AskForApproval :=
| UnlessTrusted
| OnFailure
| OnRequest
| Reject (sandbox_approval rules mcp_elicitations : bool)
| Never.

Record ExecPolicyAmendment := { prefixes : list str }.

Inductive NetworkPolicyRuleAction := NetAllow | NetDeny.
Record NetworkPolicyAmendment := { host : str; net_action : NetworkPolicyRuleAction }.

Inductive ExecApprovalRequirement :=
| Skip (bypass_sandbox : bool) (proposed_execpolicy_amendment : option ExecPolicyAmendment)
| NeedsApproval (reason : str) (proposed_execpolicy_amendment : option ExecPolicyAmendment)
    (proposed_network_policy_amendments : list NetworkPolicyAmendment)
| Forbidden (reason : str).

Definition requirement_reason (r : ExecApprovalRequirement) : str :=
  match r with
  | Skip _ _ => $"Execution allowed by policy."
  | NeedsApproval reason _ _ => reason
  | Forbidden reason => reason
  end.

Definition phase (r : ExecApprovalRequirement) : str :=
  match r with
  | Skip _ _ => $"allowed"
  | NeedsApproval _ _ _ => $"needs_approval"
  | Forbidden _ => $"forbidden"
  end.

Record ExecPolicyDecision := {
  allow : bool;
  requires_approval : bool;
  requirement : ExecApprovalRequirement;
  matched_rule : option str;
  matched_action : option PermissionAction }.

Definition decision_reason (d : ExecPolicyDecision) : str := requirement_reason (requirement d).

Record ExecPolicyContext := {
  ctx_command : str;
  ctx_cwd : str;
  ctx_tool : option str;
  ctx_path : option str;
  ctx_ask_for_approval : AskForApproval;
  ctx_sandbox_mode : option str }.

Record ExecPolicyEngine := {
  rulesets : list Ruleset;
  engine_trusted_prefixes : list str;
  engine_denied_prefixes : list str;
  approved_for_session : gset str;
  arity_dict : BashArityDict }.

(** ** Constructors and state changes *)

Definition layer_le (a b : Ruleset) : bool := layer_rank (layer a) <=? layer_rank (layer b).
(** [rulesets.sort_by_key(|r| r.layer)]. *)
Definition sort_rulesets (rs : list Ruleset) : list Ruleset := stable_sort layer_le rs.

Definition engine_new (trusted denied : list str) : ExecPolicyEngine :=
  {| rulesets := []; engine_trusted_prefixes := trusted; engine_denied_prefixes := denied;
     approved_for_session := ∅; arity_dict := BashArity.new |}.

Definition with_rulesets (rs : list Ruleset) : ExecPolicyEngine :=
  {| rulesets := sort_rulesets rs; engine_trusted_prefixes := []; engine_denied_prefixes := [];
     approved_for_session := ∅; arity_dict := BashArity.new |}.

Definition set_rulesets (e : ExecPolicyEngine) (rs : list Ruleset) : ExecPolicyEngine :=
  {| rulesets := rs; engine_trusted_prefixes := engine_trusted_prefixes e;
     engine_denied_prefixes := engine_denied_prefixes e;
     approved_for_session := approved_for_session e; arity_dict := arity_dict e |}.

Definition add_ruleset (e : ExecPolicyEngine) (rs : Ruleset) : ExecPolicyEngine :=
  set_rulesets e (sort_rulesets (rulesets e ++ [rs])).

Definition set_ruleset (e : ExecPolicyEngine) (rs : Ruleset) : ExecPolicyEngine :=
  set_rulesets e
    (sort_rulesets
       (retain (fun existing => negb (bool_decide (layer existing = layer rs))) (rulesets e) ++ [rs])).

Definition remember_session_approval (e : ExecPolicyEngine) (approval_key : str) : ExecPolicyEngine :=
  {| rulesets := rulesets e; engine_trusted_prefixes := engine_trusted_prefixes e;
     engine_denied_prefixes := engine_denied_prefixes e;
     approved_for_session := {[approval_key]} ∪ approved_for_session e;
     arity_dict := arity_dict e |}.

Definition is_session_approved (e : ExecPolicyEngine) (approval_key : str) : bool :=
  bool_decide (approval_key ∈ approved_for_session e).

(** ** Evaluation *)

Definition resolve_prefixes (e : ExecPolicyEngine) : list str * list str :=
  match rulesets e with
  | [] => (engine_trusted_prefixes e, engine_denied_prefixes e)
  | _ =>
      ((rulesets e ≫= trusted_prefixes) ++ engine_trusted_prefixes e,
       (rulesets e ≫= denied_prefixes) ++ engine_denied_prefixes e)
  end.

Definition opt_byte_len (o : option str) : Z :=
  match o with Some s => byte_len s + 1000 | None => 0 end.

Definition ask_rule_specificity (r : ToolAskRule) : Z :=
  byte_len (tool r) + opt_byte_len (command r) + opt_byte_len (path r)
  + opt_byte_len (workspace r) + (if command_exact r then 1 else 0).

(** The key of [max_by_key]: layer, action and specificity, in the
    lexicographic order of tuples. *)
Definition rule_le (a b : RulesetLayer * ToolAskRule) : bool :=
  let la := layer_rank a.1 in let lb := layer_rank b.1 in
  let aa := action_rank (action a.2) in let ab := action_rank (action b.2) in
  (la <? lb) || (la =? lb) &&
    ((aa <? ab) || (aa =? ab) && (ask_rule_specificity a.2 <=? ask_rule_specificity b.2)).

Section evaluation.
Context `{Platform} (e : ExecPolicyEngine).

(** The filters of [matching_ask_rule], in the order of the source. *)
Definition ask_rule_applies (ctx : ExecPolicyContext) (r : ToolAskRule) : bool :=
  let normalized_path :=
    path ← ctx_path ctx; normalize_workspace_relative_path path (ctx_cwd ctx) in
  bool_decide (tool r = default $"exec_shell" (ctx_tool ctx))
  && (match workspace r with
      | Some workspace => workspace_scope_matches workspace (ctx_cwd ctx)
      | None => true
      end)
  && (match command r with
      | Some command =>
          if command_exact r then bool_decide (trim command = trim (ctx_command ctx))
          else allow_rule_matches (arity_dict e) command (ctx_command ctx)
      | None => true
      end)
  && (match path r, ctx_path ctx with
      | Some pattern, Some _ =>
          match normalize_workspace_relative_path pattern (ctx_cwd ctx), normalized_path with
          | Some pattern, Some path => bool_decide (pattern = path)
          | _, _ => false
          end
      | Some _, None => false
      | None, _ => true
      end).

Definition layered_rules : list (RulesetLayer * ToolAskRule) :=
  rulesets e ≫= fun rs => pair (layer rs) <$> ask_rules rs.

Definition matching_ask_rule (ctx : ExecPolicyContext) : option ToolAskRule :=
  snd <$> max_by rule_le (retain (fun lr => ask_rule_applies ctx lr.2) layered_rules).

Definition with_command (ctx : ExecPolicyContext) (command : str) : ExecPolicyContext :=
  {| ctx_command := command; ctx_cwd := ctx_cwd ctx; ctx_tool := ctx_tool ctx;
     ctx_path := ctx_path ctx; ctx_ask_for_approval := ctx_ask_for_approval ctx;
     ctx_sandbox_mode := ctx_sandbox_mode ctx |}.

(** The denied prefix that matches the whole command or a segment. *)
Definition denied_rule (ctx : ExecPolicyContext) : option str :=
  find (fun rule => existsb (denied_prefix_matches rule)
                      (ctx_command ctx :: command_segments (ctx_command ctx)))
       (resolve_prefixes e).2.

Definition trusted_rule (ctx : ExecPolicyContext) : option str :=
  if command_is_chained (ctx_command ctx) then None
  else find (fun rule => allow_rule_matches (arity_dict e) rule (ctx_command ctx))
            (resolve_prefixes e).1.

(** The first segment of a chained command whose matching rule denies. *)
Fixpoint denying_segment (ctx : ExecPolicyContext) (segments : list str) : option ToolAskRule :=
  match segments with
  | [] => None
  | seg :: segments =>
      match matching_ask_rule (with_command ctx seg) with
      | Some rule =>
          if decide (action rule = Deny) then Some rule else denying_segment ctx segments
      | None => denying_segment ctx segments
      end
  end.

Definition forbidden (matched : option str) (act : option PermissionAction) (reason : str)
  : ExecPolicyDecision :=
  {| allow := false; requires_approval := false; requirement := Forbidden reason;
     matched_rule := matched; matched_action := act |}.

(** The typed ask rule is resolved before the mode, except in [Never] and
    [Reject { rules: true }]. *)
Definition ask_rule_requirement (mode : AskForApproval) (ask_rule : option ToolAskRule)
  : option ExecApprovalRequirement :=
  match mode with
  | Never | Reject _ true _ => None
  | _ =>
      (fun rule => NeedsApproval ($"Typed ask rule '" ++ label rule ++ $"' requires approval.") None [])
      <$> ask_rule
  end.

Definition mode_requirement (ctx : ExecPolicyContext) (ask_rule : option ToolAskRule)
  (is_trusted : bool) : ExecApprovalRequirement :=
  let needs_approval :=
    NeedsApproval
      (if is_trusted then $"Approval requested by policy mode."
       else $"Unmatched command prefix requires approval.")
      (if is_trusted || command_is_chained (ctx_command ctx) then None
       else Some {| prefixes := [first_token (ctx_command ctx)] |})
      [] in
  match ctx_ask_for_approval ctx with
  | Never =>
      match ask_rule with
      | Some rule =>
          Forbidden ($"Typed ask rule '" ++ label rule
                     ++ $"' requires approval, but approval policy is never.")
      | None => Skip false None
      end
  | Reject _ true _ => Forbidden $"Policy is configured to reject rule-exceptions."
  | UnlessTrusted => if is_trusted then Skip false None else needs_approval
  | OnFailure => Skip false None
  | _ => needs_approval
  end.

(** [matched_ask_rule]: set when the ask rule settles the requirement. *)
Definition matched_ask_rule (mode : AskForApproval) (ask_rule : option ToolAskRule) : option str :=
  match mode with
  | Reject _ true _ => None
  | _ => label <$> ask_rule
  end.

Definition allowance (r : ExecApprovalRequirement) : bool * bool :=
  match r with
  | Skip _ _ => (true, false)
  | NeedsApproval _ _ _ => (true, true)
  | Forbidden _ => (false, false)
  end.

(** The part of [check] after the deny rules and the typed Deny/Allow rules. *)
Definition check_by_mode (ctx : ExecPolicyContext) (ask_rule : option ToolAskRule)
  : ExecPolicyDecision :=
  let trusted := trusted_rule ctx in
  let mode := ctx_ask_for_approval ctx in
  let requirement :=
    match ask_rule_requirement mode ask_rule with
    | Some req => req
    | None => mode_requirement ctx ask_rule (bool_decide (is_Some trusted))
    end in
  {| allow := (allowance requirement).1;
     requires_approval := (allowance requirement).2;
     requirement := requirement;
     matched_rule := match matched_ask_rule mode ask_rule with
                     | Some l => Some l
                     | None => trusted
                     end;
     matched_action := action <$> ask_rule |}.

(** [ExecPolicyEngine::check]; its [Result] is always [Ok]. *)
Definition check (ctx : ExecPolicyContext) : ExecPolicyDecision :=
  match denied_rule ctx with
  | Some rule =>
      forbidden (Some rule) None ($"Command blocked by denied prefix rule '" ++ rule ++ $"'")
  | None =>
      match (if command_is_chained (ctx_command ctx)
             then denying_segment ctx (command_segments (ctx_command ctx)) else None) with
      | Some rule =>
          forbidden (Some (label rule)) (Some Deny)
            ($"Permission rule '" ++ label rule
             ++ $"' explicitly denies a chained segment of this invocation.")
      | None =>
          match matching_ask_rule ctx with
          | Some rule =>
              match action rule with
              | Deny =>
                  forbidden (Some (label rule)) (Some Deny)
                    ($"Permission rule '" ++ label rule ++ $"' explicitly denies this invocation.")
              | Allow =>
                  {| allow := true; requires_approval := false; requirement := Skip false None;
                     matched_rule := Some (label rule); matched_action := Some Allow |}
              | Ask => check_by_mode ctx (Some rule)
              end
          | None => check_by_mode ctx None
          end
      end
  end.
End evaluation.
