(* ===== verification/ExecPolicySpec.v ===== *)
(** * Properties of the execution policy

    What the engine of [ExecPolicy] promises: deny rules, approvals, the choice
    of the typed rule, the ruleset layers, path scopes and arity matching. *)

From S2P Require Import Text BashArity DenyMatch PathNorm ExecPolicy.

(** ** Helper lemmas *)

Section helpers.
Context `{Platform}.

Lemma denied_rule_Some e ctx rule hay :
  rule ∈ (resolve_prefixes e).2 ->
  hay ∈ ctx_command ctx :: command_segments (ctx_command ctx) ->
  denied_prefix_matches rule hay = true ->
  is_Some (denied_rule e ctx).
Proof.
  intros Hr Hh Hm. apply (find_is_Some _ _ rule); [done|]. apply existsb_spec. eauto.
Qed.

Lemma check_denied e ctx rule :
  denied_rule e ctx = Some rule ->
  check e ctx = forbidden (Some rule) None ($"Command blocked by denied prefix rule '" ++ rule ++ $"'").
Proof. intros Hr. unfold check. by rewrite Hr. Qed.

(** The four ways a decision is reached. *)
Lemma check_cases (P : ExecPolicyDecision -> Prop) e ctx :
  (forall m a r, P (forbidden m a r)) ->
  (denied_rule e ctx = None -> forall rule, matching_ask_rule e ctx = Some rule ->
     action rule = Allow ->
     P {| allow := true; requires_approval := false; requirement := Skip false None;
          matched_rule := Some (label rule); matched_action := Some Allow |}) ->
  (denied_rule e ctx = None -> forall ask, matching_ask_rule e ctx = ask ->
     (forall rule, ask = Some rule -> action rule = Ask) -> P (check_by_mode e ctx ask)) ->
  P (check e ctx).
Proof.
  intros Hf Ha Hm. unfold check. destruct (denied_rule e ctx) eqn:Hd; [apply Hf|].
  destruct (if command_is_chained _ then _ else _); [apply Hf|].
  destruct (matching_ask_rule e ctx) as [r|] eqn:Hr; [|by apply Hm].
  destruct (action r) eqn:Hact; [by eapply Ha| |apply Hf].
  apply Hm; [done..|]. by intros ? [= <-].
Qed.

Lemma denying_segment_Some e ctx segs rule :
  denying_segment e ctx segs = Some rule ->
  exists seg, seg ∈ segs /\ matching_ask_rule e (with_command ctx seg) = Some rule /\ action rule = Deny.
Proof.
  induction segs as [|s segs IH]; simpl; [done|].
  assert (Hrec : denying_segment e ctx segs = Some rule -> exists seg, seg ∈ s :: segs /\
    matching_ask_rule e (with_command ctx seg) = Some rule /\ action rule = Deny).
  { intros (seg & ? & ?)%IH. exists seg. split; [set_solver|done]. }
  destruct (matching_ask_rule e (with_command ctx s)) as [r|] eqn:E; [|done].
  case_decide; [|done]. intros [= <-]. exists s. split; [set_solver|done].
Qed.

Lemma denying_segment_None e ctx segs :
  denying_segment e ctx segs = None ->
  forall seg rule, seg ∈ segs -> matching_ask_rule e (with_command ctx seg) = Some rule ->
  action rule <> Deny.
Proof.
  induction segs as [|s segs IH]; simpl; [by intros _ ? ? ?%not_elem_of_nil|].
  intros Hn seg rule. destruct (matching_ask_rule e (with_command ctx s)) as [r|] eqn:E.
  - case_decide as Ha; [done|]. intros [->|Hin]%elem_of_cons; [|by apply IH].
    rewrite E. by intros [= <-].
  - intros [->|Hin]%elem_of_cons; [by rewrite E|by apply IH].
Qed.
End helpers.

Lemma rule_le_total a b : rule_le a b = true \/ rule_le b a = true.
Proof.
  unfold rule_le. rewrite !orb_true_iff, !andb_true_iff, !orb_true_iff, !andb_true_iff,
    !Z.ltb_lt, !Z.eqb_eq, !Z.leb_le. lia.
Qed.

Lemma rule_le_trans a b c : rule_le a b = true -> rule_le b c = true -> rule_le a c = true.
Proof.
  unfold rule_le. rewrite !orb_true_iff, !andb_true_iff, !orb_true_iff, !andb_true_iff,
    !Z.ltb_lt, !Z.eqb_eq, !Z.leb_le. lia.
Qed.

Lemma layer_le_total a b : layer_le a b = true \/ layer_le b a = true.
Proof. unfold layer_le. rewrite !Z.leb_le. lia. Qed.

Lemma layer_le_trans a b c : layer_le a b = true -> layer_le b c = true -> layer_le a c = true.
Proof. unfold layer_le. rewrite !Z.leb_le. lia. Qed.

Lemma layer_rank_inj a b : layer_rank a = layer_rank b -> a = b.
Proof. by destruct a, b. Qed.

(** The rulesets an engine holds are in layer order. *)
Definition layers_sorted (e : ExecPolicyEngine) : Prop := sorted_by layer_le (rulesets e).

(** ** Deny rules *)

(** C2: the worklist search of [denied_prefix_matches] terminates and decides
    the matching relation on words: the rule's words, in order, starting at the
    first word that is not an environment assignment, with only flags (and the
    separate value a flag may take) skipped in between; an empty rule matches
    nothing. *)
Theorem denied_prefix_matches_decides (rule command : str) :
  denied_prefix_matches rule command = true <->
  lower_tokens_of rule <> [] /\
  deny_match (lower_tokens_of rule) (skip_env (lower_tokens_of command)).
Proof.
  unfold denied_prefix_matches. rewrite !normalize_command_words, skip_env_position.
  destruct (lower_tokens_of rule) as [|t ts]; [by split; [|intros []]|].
  set (start := default (length _) _).
  destruct (explore_spec (t :: ts) (lower_tokens_of command) start) as (b & Hb & Hspec).
  rewrite Hb. simpl. rewrite Hspec. by split; [|intros []].
Qed.


(** A concrete POSIX host for the witnesses. *)
Definition posix : Platform := {| platform_paths_are_case_insensitive := false |}.

Definition shell_ctx (command : str) (mode : AskForApproval) : ExecPolicyContext :=
  {| ctx_command := command; ctx_cwd := $"/repo"; ctx_tool := None; ctx_path := None;
     ctx_ask_for_approval := mode; ctx_sandbox_mode := None |}.


(** the flags of a decision always agree with its requirement, and a
    decision to prompt is never reached in the modes that cannot or do not
    prompt: [Never], [OnFailure] without a typed ask rule, and
    [Reject { rules: true }]. *)
Theorem decision_consistent `{Platform} e ctx :
  (allow (check e ctx), requires_approval (check e ctx)) = allowance (requirement (check e ctx)) /\
  (requires_approval (check e ctx) = true -> allow (check e ctx) = true) /\
  (requires_approval (check e ctx) = true ->
     ctx_ask_for_approval ctx <> Never /\
     (forall s m, ctx_ask_for_approval ctx <> Reject s true m) /\
     (ctx_ask_for_approval ctx = OnFailure -> is_Some (matched_action (check e ctx)))).
Proof.
  apply check_cases; [done..|]. intros _ ask _ _. unfold check_by_mode.
  set (req := match ask_rule_requirement _ _ with Some _ => _ | None => _ end). simpl.
  split; [by destruct (allowance req)|]. split; [by destruct req|]. subst req.
  unfold mode_requirement.
  destruct (ctx_ask_for_approval ctx) as [| | |? [] ?|]; destruct ask; simpl; naive_solver.
Qed.

(** C19: auto-approval is always justified.  In the modes that gate every
    untrusted command ([UnlessTrusted], [OnRequest], [Reject { rules: false }])
    an invocation that runs without a prompt was either allowed by the matching
    typed rule, or is a single segment that a resolved trusted prefix covers
    while the mode is [UnlessTrusted] and no typed rule matches; in both cases
    no denied prefix matched. *)
Theorem auto_approval_is_justified `{Platform} e ctx :
  ctx_ask_for_approval ctx <> Never -> ctx_ask_for_approval ctx <> OnFailure ->
  allow (check e ctx) = true -> requires_approval (check e ctx) = false ->
  denied_rule e ctx = None /\
  ((exists rule, matching_ask_rule e ctx = Some rule /\ action rule = Allow) \/
   (matching_ask_rule e ctx = None /\ ctx_ask_for_approval ctx = UnlessTrusted /\
    command_is_chained (ctx_command ctx) = false /\
    exists rule, rule ∈ (resolve_prefixes e).1 /\
      allow_rule_matches (arity_dict e) rule (ctx_command ctx) = true)).
Proof.
  intros Hn Hf. apply (check_cases (fun d => allow d = true -> requires_approval d = false -> _)).
  - done.
  - eauto 6.
  - intros Hd ask Hask Hact. unfold check_by_mode. simpl. intros Hal Hra. split; [done|]. right.
    unfold mode_requirement in *.
    destruct (ctx_ask_for_approval ctx) as [| | |? [] ?|]; destruct ask as [r|]; simpl in *; try done.
    case_bool_decide as Ht; [|done]. unfold trusted_rule in Ht.
    destruct (command_is_chained (ctx_command ctx)); [by destruct Ht|].
    destruct Ht as [rule Hr]. apply find_Some in Hr. naive_solver.
Qed.

Lemma auto_approval_is_justified_witness :
  let e := engine_new [$"git log"] [$"rm"] in
  let ctx := shell_ctx $"git log -3" UnlessTrusted in
  allow (@check posix e ctx) = true /\
  denied_rule e ctx = None /\
  ((exists rule, @matching_ask_rule posix e ctx = Some rule /\ action rule = Allow) \/
   (@matching_ask_rule posix e ctx = None /\ ctx_ask_for_approval ctx = UnlessTrusted /\
    command_is_chained (ctx_command ctx) = false /\
    exists rule, rule ∈ (resolve_prefixes e).1 /\
      allow_rule_matches (arity_dict e) rule (ctx_command ctx) = true)).
Proof.
  split; [vm_compute; reflexivity|].
  apply (@auto_approval_is_justified posix); [done|done|vm_compute; reflexivity..].
Defined.

(** the typed rule [check] consults is the best applicable one: it belongs
    to a ruleset of the engine, passes every filter, and no other applicable
    rule of any layer has a greater (layer, action, specificity) key; when no
    rule is found, none applies. *)
Theorem matching_ask_rule_is_maximal `{Platform} e ctx :
  match matching_ask_rule e ctx with
  | Some rule =>
      ask_rule_applies e ctx rule = true /\
      exists l, (l, rule) ∈ layered_rules e /\
        forall l' rule', (l', rule') ∈ layered_rules e -> ask_rule_applies e ctx rule' = true ->
          rule_le (l', rule') (l, rule) = true
  | None => forall l' rule', (l', rule') ∈ layered_rules e -> ask_rule_applies e ctx rule' = false
  end.
Proof.
  unfold matching_ask_rule. destruct (max_by _ _) as [[l rule]|] eqn:E; simpl.
  - pose proof (max_by_elem _ _ _ E) as [Happ Hin]%elem_of_retain. split; [done|].
    exists l. split; [done|]. intros l' rule' Hin' Happ'.
    eapply (max_by_ge _ _ _ rule_le_total rule_le_trans E). by apply elem_of_retain.
  - apply max_by_None in E. intros l' rule' Hin.
    destruct (ask_rule_applies e ctx rule') eqn:Happ; [|done].
    assert (Hx : (l', rule') ∈ retain (fun lr => ask_rule_applies e ctx lr.2) (layered_rules e))
      by by apply elem_of_retain.
    rewrite E in Hx. by apply not_elem_of_nil in Hx.
Qed.

(** a typed Deny of the highest layer that applies to a chained segment
    forbids the whole invocation: if the matching rule of any segment denies,
    the command does not run. *)
Theorem typed_deny_covers_segments `{Platform} e ctx seg rule :
  command_is_chained (ctx_command ctx) = true ->
  seg ∈ command_segments (ctx_command ctx) ->
  matching_ask_rule e (with_command ctx seg) = Some rule -> action rule = Deny ->
  allow (check e ctx) = false /\ requires_approval (check e ctx) = false /\
  (denied_rule e ctx = None -> matched_action (check e ctx) = Some Deny).
Proof.
  intros Hch Hin Hm Hact. unfold check. destruct (denied_rule e ctx); [done|].
  rewrite Hch. destruct (denying_segment e ctx _) as [r|] eqn:Hd; [done|].
  by eapply denying_segment_None in Hd.
Qed.

Definition deny_publish : ToolAskRule :=
  {| tool := $"exec_shell"; command := Some $"npm publish"; command_exact := false;
     path := None; workspace := None; action := Deny |}.

Lemma typed_deny_covers_segments_witness :
  let e := with_rulesets [with_ask_rules (user [] []) [deny_publish]] in
  let ctx := shell_ctx $"ls && npm publish" OnFailure in
  allow (@check posix e ctx) = false /\ requires_approval (@check posix e ctx) = false /\
  (denied_rule e ctx = None -> matched_action (@check posix e ctx) = Some Deny).
Proof.
  apply (@typed_deny_covers_segments posix _ _ $"npm publish" deny_publish);
    [vm_compute; reflexivity|vm_compute; right; by left|vm_compute; reflexivity|reflexivity].
Defined.

(** replacing a ruleset keeps the engine's layers in priority order, leaves
    exactly the new ruleset at its layer, keeps the rulesets of every other
    layer, and does not forget an approval of the session. *)
Theorem set_ruleset_replaces_layer e rs :
  layers_sorted (set_ruleset e rs) /\
  (forall rs', rs' ∈ rulesets (set_ruleset e rs) <->
     rs' = rs \/ rs' ∈ rulesets e /\ layer rs' <> layer rs) /\
  (forall key, is_session_approved (set_ruleset e rs) key = is_session_approved e key) /\
  (forall key key', is_session_approved (remember_session_approval e key) key' =
     bool_decide (key' = key) || is_session_approved e key').
Proof.
  split; [apply stable_sort_sorted; [apply layer_le_total|apply layer_le_trans]|]. split.
  - intros rs'. simpl. unfold sort_rulesets. rewrite stable_sort_perm, elem_of_app, elem_of_retain,
      list_elem_of_singleton, negb_true_iff, bool_decide_eq_false. tauto.
  - split; [done|]. intros key key'. unfold is_session_approved. simpl.
    repeat case_bool_decide; set_solver.
Qed.

(** the flags of a command never influence its canonical prefix, and a
    one-word-or-more rule allows a command exactly when it is the command's
    canonical prefix or its words are a prefix of the command's words (so [ls]
    covers [ls -la] and never [lsof]). *)
Theorem allow_rules_match_words (pattern command : str) flags before after :
  split_whitespace pattern <> [] ->
  Forall (fun t => is_flag t = true) flags ->
  classify BashArity.new (before ++ flags ++ after) = classify BashArity.new (before ++ after) /\
  (allow_rule_matches BashArity.new pattern command = true <->
     classify BashArity.new (split_whitespace command) = to_ascii_lowercase (trim pattern) \/
     lower_tokens_of pattern `prefix_of` lower_tokens_of command).
Proof.
  intros Hne Hflags. split; [|by apply allow_rule_matches_words].
  rewrite !classify_positional, !positional_tokens_app.
  assert (Hf : positional_tokens flags = []).
  { induction Hflags as [|f fs Hf _ IH]; [done|].
    change (f :: fs) with ([f] ++ fs). by rewrite positional_tokens_app, IH, positional_tokens_flag. }
  by rewrite Hf.
Qed.

Lemma allow_rules_match_words_witness :
  classify BashArity.new ([$"git"] ++ [$"--no-pager"] ++ [$"log"; $"-p"]) =
  classify BashArity.new ([$"git"] ++ [$"log"; $"-p"]) /\
  (allow_rule_matches BashArity.new $"ls" $"lsof -i" = true <->
     classify BashArity.new (split_whitespace $"lsof -i") = to_ascii_lowercase (trim $"ls") \/
     lower_tokens_of $"ls" `prefix_of` lower_tokens_of $"lsof -i").
Proof. apply (allow_rules_match_words $"ls" $"lsof -i"); [by vm_compute|by repeat constructor]. Defined.

(** a non-empty command with a positional word is classified as a non-empty
    prefix of its lowercased positional words. *)
Theorem classify_is_positional_prefix (tokens : list str) :
  positional_tokens tokens <> [] ->
  exists k, (1 <= k <= length (positional_tokens tokens))%nat /\
    classify BashArity.new tokens = join $" " (take k (positional_tokens tokens)).
Proof.
  intros Hne. rewrite classify_positional.
  destruct (positional_tokens tokens) as [|p ps] eqn:E; [done|].
  apply classify_depth_prefix; [done|]. intros x Hx.
  rewrite new_entries_perm in Hx.
  assert (Hall : forallb (fun x => 1 <=? x.2) BASH_ARITY_TABLE = true) by (vm_compute; reflexivity).
  rewrite forallb_spec in Hall. by apply Z.leb_le, Hall.
Qed.

Lemma classify_is_positional_prefix_witness :
  exists k, (1 <= k <= length (positional_tokens [$"npm"; $"-s"; $"run"; $"dev"]))%nat /\
    classify BashArity.new [$"npm"; $"-s"; $"run"; $"dev"] =
    join $" " (take k (positional_tokens [$"npm"; $"-s"; $"run"; $"dev"])).
Proof. apply (classify_is_positional_prefix [$"npm"; $"-s"; $"run"; $"dev"]). by vm_compute. Defined.

(** ** What the checks do not cover *)

Definition typed_rule (cmd : str) (act : PermissionAction) : ToolAskRule :=
  {| tool := $"exec_shell"; command := Some cmd; command_exact := false;
     path := None; workspace := None; action := act |}.

(** the chain guard protects trusted prefixes only.  A typed Allow rule for
    [git log] approves [git log ; rm -rf /] without asking: the rule is matched
    against the whole chained command, whose words it begins. *)
Theorem typed_allow_covers_chained_suffix :
  let e := with_rulesets [with_ask_rules (user [] []) [typed_rule $"git log" Allow]] in
  let ctx := shell_ctx $"git log ; rm -rf /" UnlessTrusted in
  command_segments (ctx_command ctx) = [$"git log"; $"rm -rf /"] /\
  matching_ask_rule (H := posix) e (with_command ctx $"rm -rf /") = None /\
  check (H := posix) e ctx =
    {| allow := true; requires_approval := false; requirement := Skip false None;
       matched_rule := Some $"tool=exec_shell command=git log"; matched_action := Some Allow |}.
Proof. repeat split; vm_compute; reflexivity. Qed.

(** a single [&] is not a separator.  With [rm] denied and [git log]
    trusted, [git log & rm -rf /] is one segment: the denied prefix does not
    match it and the trusted prefix approves it without asking. *)
Theorem background_operator_is_not_a_separator :
  let e := with_rulesets [user [$"git log"] [$"rm"]] in
  let ctx := shell_ctx $"git log & rm -rf /" UnlessTrusted in
  command_is_chained (ctx_command ctx) = false /\
  denied_prefix_matches $"rm" $"rm -rf /" = true /\
  allow (check (H := posix) e ctx) = true /\
  requires_approval (check (H := posix) e ctx) = false /\
  matched_rule (check (H := posix) e ctx) = Some $"git log".
Proof. repeat split; vm_compute; reflexivity. Qed.

(** Deny does not always win over Allow: the ruleset layer is compared
    first, so a user-layer Allow overrides a builtin-layer Deny for the same
    command, while within one layer Deny wins. *)
Theorem layer_outranks_action :
  let ctx := shell_ctx $"npm publish" OnFailure in
  let deny := typed_rule $"npm publish" Deny in
  let allowing := typed_rule $"npm publish" Allow in
  let across := with_rulesets [with_ask_rules builtin_default [deny];
                               with_ask_rules (user [] []) [allowing]] in
  let within := with_rulesets [with_ask_rules (user [] []) [deny; allowing]] in
  matched_action (check (H := posix) across ctx) = Some Allow /\
  allow (check (H := posix) across ctx) = true /\
  matched_action (check (H := posix) within ctx) = Some Deny /\
  allow (check (H := posix) within ctx) = false.
Proof. repeat split; vm_compute; reflexivity. Qed.
