(* ===== verification/Providers.v ===== *)
(** * Provider identity and routes

    [crates/config/src/provider_kind.rs] and [provider.rs]: the provider kinds,
    the registry of their metadata, name resolution and the exact-route
    predicates; the fallback chain of [crates/config/src/lib.rs]; and the
    [ApiProvider] of [crates/tui/src/config.rs] with the route predicates that
    decide which reasoning control an endpoint has.  The registry values are
    the invocations of the [provider!] macro and the hand-written
    implementations, with the constants of [provider_defaults.rs] in place. *)

From S2P Require Import Text.

(** ** Kinds *)

Module ProviderKind.
Inductive ProviderKind : Set :=
| Deepseek
| DeepseekAnthropic
| NvidiaNim
| Openai
| Atlascloud
| WanjieArk
| Volcengine
| Openrouter
| XiaomiMimo
| Novita
| Fireworks
| Siliconflow
| Arcee
| SiliconflowCN
| Moonshot
| Sglang
| Vllm
| Ollama
| Huggingface
| Together
| Qianfan
| OpenaiCodex
| Anthropic
| Openmodel
| Zai
| Stepfun
| Minimax
| MinimaxAnthropic
| Deepinfra
| Sakana
| LongCat
| OpencodeGo
| OpencodeZen
| Meta
| Xai
| Telecomjs
| Custom.

#[export] Instance ProviderKind_eq_dec : EqDecision ProviderKind.
Proof. solve_decision. Defined.

(** The variant names, which [rename_all] renames. *)
Definition variant_name (kind : ProviderKind) : str :=
  match kind with
  | Deepseek => $"Deepseek"
  | DeepseekAnthropic => $"DeepseekAnthropic"
  | NvidiaNim => $"NvidiaNim"
  | Openai => $"Openai"
  | Atlascloud => $"Atlascloud"
  | WanjieArk => $"WanjieArk"
  | Volcengine => $"Volcengine"
  | Openrouter => $"Openrouter"
  | XiaomiMimo => $"XiaomiMimo"
  | Novita => $"Novita"
  | Fireworks => $"Fireworks"
  | Siliconflow => $"Siliconflow"
  | Arcee => $"Arcee"
  | SiliconflowCN => $"SiliconflowCN"
  | Moonshot => $"Moonshot"
  | Sglang => $"Sglang"
  | Vllm => $"Vllm"
  | Ollama => $"Ollama"
  | Huggingface => $"Huggingface"
  | Together => $"Together"
  | Qianfan => $"Qianfan"
  | OpenaiCodex => $"OpenaiCodex"
  | Anthropic => $"Anthropic"
  | Openmodel => $"Openmodel"
  | Zai => $"Zai"
  | Stepfun => $"Stepfun"
  | Minimax => $"Minimax"
  | MinimaxAnthropic => $"MinimaxAnthropic"
  | Deepinfra => $"Deepinfra"
  | Sakana => $"Sakana"
  | LongCat => $"LongCat"
  | OpencodeGo => $"OpencodeGo"
  | OpencodeZen => $"OpencodeZen"
  | Meta => $"Meta"
  | Xai => $"Xai"
  | Telecomjs => $"Telecomjs"
  | Custom => $"Custom"
  end.

(** The [#[serde(alias = ...)]] attributes of each variant. *)
Definition serde_aliases (kind : ProviderKind) : list str :=
  match kind with
  | Deepseek => [$"deepseek-cn"; $"deepseek_china"; $"deepseekcn"; $"deepseek-china"]
  | DeepseekAnthropic => [$"deepseek-anthropic"; $"deepseek_anthropic"; $"deepseek-claude"; $"deepseek_claude"]
  | Openai => [$"open-ai"]
  | WanjieArk => [$"wanjie"; $"wanjie_ark"; $"ark-wanjie"; $"ark_wanjie"; $"wanjie-maas"; $"wanjie_maas"]
  | Volcengine => [$"volcengine-ark"; $"volcengine_ark"; $"ark"]
  | XiaomiMimo => [$"mimo"; $"xiaomi"; $"xiaomi_mimo"]
  | Novita => [$"novita-ai"; $"novita_ai"]
  | Fireworks => [$"fireworks-ai"; $"fireworks_ai"]
  | Siliconflow => [$"silicon-flow"; $"silicon_flow"]
  | Arcee => [$"arcee-ai"; $"arcee_ai"]
  | SiliconflowCN => [$"siliconflow-cn"; $"siliconflow-CN"]
  | Moonshot => [$"moonshot-ai"; $"moonshotai"; $"moonshot_ai"]
  | Huggingface => [$"hugging-face"; $"hugging_face"; $"hf"]
  | Together => [$"together-ai"; $"together_ai"; $"togetherai"]
  | Qianfan => [$"baidu-qianfan"; $"baidu_qianfan"; $"baidu"]
  | OpenaiCodex => [$"openai-codex"; $"openai_codex"; $"codex"; $"chatgpt"; $"chatgpt-codex"; $"chatgpt_codex"]
  | Anthropic => [$"claude"]
  | Openmodel => [$"open-model"; $"open_model"]
  | Zai => [$"z-ai"; $"z_ai"; $"z.ai"; $"zhipu"; $"zhipuai"; $"bigmodel"; $"big-model"]
  | Stepfun => [$"step-fun"; $"step_fun"; $"stepfun"; $"stepflash"; $"step-flash"; $"step_flash"]
  | Minimax => [$"mini-max"; $"mini_max"; $"minimax"]
  | MinimaxAnthropic => [$"minimax_anthropic"; $"mini-max-anthropic"; $"mini_max_anthropic"]
  | Deepinfra => [$"deep-infra"; $"deep_infra"]
  | Sakana => [$"sakana-ai"; $"sakana_ai"; $"fugu"]
  | LongCat => [$"long-cat"; $"meituan-longcat"; $"meituan"]
  | OpencodeGo => [$"opencode_go"; $"opencodego"]
  | OpencodeZen => [$"opencode_zen"; $"opencodezen"; $"zen"; $"opencode"]
  | Meta => [$"meta-ai"; $"meta_ai"; $"meta-model-api"; $"meta_model_api"; $"muse"; $"muse-spark"]
  | Xai => [$"x-ai"; $"x_ai"; $"grok"]
  | Telecomjs => [$"telecom-js"; $"telecom_js"; $"telecomjs-cn"; $"tokenhub"]
  | _ => []
  end.

Definition ALL : list ProviderKind :=
  [Deepseek; DeepseekAnthropic; NvidiaNim; Openai; Atlascloud;
   WanjieArk; Volcengine; Openrouter; XiaomiMimo; Novita;
   Fireworks; Siliconflow; Arcee; SiliconflowCN; Moonshot;
   Sglang; Vllm; Ollama; Huggingface; Together;
   Qianfan; OpenaiCodex; Anthropic; Openmodel; Zai;
   Stepfun; Minimax; MinimaxAnthropic; Deepinfra; Sakana;
   LongCat; OpencodeGo; OpencodeZen; Meta; Xai;
   Telecomjs; Custom].
End ProviderKind.
Export (hints) ProviderKind.
Abbreviation ProviderKind := ProviderKind.ProviderKind.

(** [kind as usize]. *)
Definition kind_discriminant (kind : ProviderKind) : nat :=
  match kind with
  | ProviderKind.Deepseek => 0
  | ProviderKind.DeepseekAnthropic => 1
  | ProviderKind.NvidiaNim => 2
  | ProviderKind.Openai => 3
  | ProviderKind.Atlascloud => 4
  | ProviderKind.WanjieArk => 5
  | ProviderKind.Volcengine => 6
  | ProviderKind.Openrouter => 7
  | ProviderKind.XiaomiMimo => 8
  | ProviderKind.Novita => 9
  | ProviderKind.Fireworks => 10
  | ProviderKind.Siliconflow => 11
  | ProviderKind.Arcee => 12
  | ProviderKind.SiliconflowCN => 13
  | ProviderKind.Moonshot => 14
  | ProviderKind.Sglang => 15
  | ProviderKind.Vllm => 16
  | ProviderKind.Ollama => 17
  | ProviderKind.Huggingface => 18
  | ProviderKind.Together => 19
  | ProviderKind.Qianfan => 20
  | ProviderKind.OpenaiCodex => 21
  | ProviderKind.Anthropic => 22
  | ProviderKind.Openmodel => 23
  | ProviderKind.Zai => 24
  | ProviderKind.Stepfun => 25
  | ProviderKind.Minimax => 26
  | ProviderKind.MinimaxAnthropic => 27
  | ProviderKind.Deepinfra => 28
  | ProviderKind.Sakana => 29
  | ProviderKind.LongCat => 30
  | ProviderKind.OpencodeGo => 31
  | ProviderKind.OpencodeZen => 32
  | ProviderKind.Meta => 33
  | ProviderKind.Xai => 34
  | ProviderKind.Telecomjs => 35
  | ProviderKind.Custom => 36
  end%nat.

(** ** Metadata *)

Inductive WireFormat := ChatCompletions | Responses | AnthropicMessages.

Inductive CredentialAcquisition := ApiKey | ApiKeyOrOAuth | LocalOptional | OAuth | Configuration.

Definition acquisition_as_str (a : CredentialAcquisition) : str :=
  match a with
  | ApiKey => $"api_key"
  | ApiKeyOrOAuth => $"api_key_or_oauth"
  | LocalOptional => $"local_optional"
  | OAuth => $"oauth"
  | Configuration => $"configuration"
  end.

Inductive WirePolicy := Fixed (format : WireFormat) | ModelAware.

Definition fixed (p : WirePolicy) : option WireFormat :=
  match p with Fixed format => Some format | ModelAware => None end.

Definition is_one_of (s : str) (names : list str) : bool := existsb (fun n => bool_decide (s = n)) names.

(** [WirePolicy::resolve]. *)
Definition resolve (p : WirePolicy) (endpoint_key : str) : option WireFormat :=
  match p with
  | Fixed format => Some format
  | ModelAware =>
      let key := to_ascii_lowercase (trim endpoint_key) in
      if is_one_of key [$"chat"; $"chat_completions"; $"chat-completions"] then Some ChatCompletions
      else if is_one_of key [$"responses"] then Some Responses
      else if is_one_of key [$"messages"; $"anthropic_messages"; $"anthropic-messages"]
      then Some AnthropicMessages
      else None
  end.

Record CredentialHelp := {
  acquisition : CredentialAcquisition;
  credential_url : option str;
  docs_url : option str;
  guidance : str }.

(** The [Provider] trait as a record of its methods' constant values. *)
Record Provider := {
  kind : ProviderKind; id : str; display_name : str; default_base_url : str;
  default_model : str; env_vars : list str; provider_config_key : str;
  aliases : list str; wire_policy : WirePolicy }.

(** ** The registry *)

Definition provider_Deepseek : Provider :=
  {| kind := ProviderKind.Deepseek; id := $"deepseek"; display_name := $"DeepSeek";
     default_base_url := $"https://api.deepseek.com/beta";
     default_model := $"deepseek-v4-pro";
     env_vars := [$"DEEPSEEK_API_KEY"];
     provider_config_key := $"deepseek";
     aliases := [$"deep-seek"; $"deepseek-cn"; $"deepseek_china"; $"deepseekcn"; $"deepseek-china"];
     wire_policy := Fixed ChatCompletions |}.

Definition provider_DeepseekAnthropic : Provider :=
  {| kind := ProviderKind.DeepseekAnthropic; id := $"deepseek-anthropic"; display_name := $"DeepSeek (Anthropic-compatible)";
     default_base_url := $"https://api.deepseek.com/anthropic";
     default_model := $"deepseek-v4-pro";
     env_vars := [$"DEEPSEEK_API_KEY"];
     provider_config_key := $"deepseek_anthropic";
     aliases := [$"deepseek_anthropic"; $"deepseek-claude"; $"deepseek_claude"];
     wire_policy := Fixed AnthropicMessages |}.

Definition provider_NvidiaNim : Provider :=
  {| kind := ProviderKind.NvidiaNim; id := $"nvidia-nim"; display_name := $"NVIDIA NIM";
     default_base_url := $"https://integrate.api.nvidia.com/v1";
     default_model := $"deepseek-ai/deepseek-v4-pro";
     env_vars := [$"NVIDIA_API_KEY"; $"NVIDIA_NIM_API_KEY"; $"DEEPSEEK_API_KEY"];
     provider_config_key := $"nvidia_nim";
     aliases := [$"nvidia"; $"nvidia_nim"; $"nim"];
     wire_policy := Fixed ChatCompletions |}.

Definition provider_Openai : Provider :=
  {| kind := ProviderKind.Openai; id := $"openai"; display_name := $"OpenAI-compatible";
     default_base_url := $"https://api.openai.com/v1";
     default_model := $"deepseek-v4-pro";
     env_vars := [$"OPENAI_API_KEY"];
     provider_config_key := $"openai";
     aliases := [$"open-ai"];
     wire_policy := Fixed ChatCompletions |}.

Definition provider_Atlascloud : Provider :=
  {| kind := ProviderKind.Atlascloud; id := $"atlascloud"; display_name := $"AtlasCloud";
     default_base_url := $"https://api.atlascloud.ai/v1";
     default_model := $"deepseek-ai/deepseek-v4-flash";
     env_vars := [$"ATLASCLOUD_API_KEY"];
     provider_config_key := $"atlascloud";
     aliases := [$"atlas-cloud"; $"atlas_cloud"; $"atlas"];
     wire_policy := Fixed ChatCompletions |}.

Definition provider_WanjieArk : Provider :=
  {| kind := ProviderKind.WanjieArk; id := $"wanjie-ark"; display_name := $"Wanjie Ark";
     default_base_url := $"https://maas-openapi.wanjiedata.com/api/v1";
     default_model := $"deepseek-reasoner";
     env_vars := [$"WANJIE_ARK_API_KEY"; $"WANJIE_API_KEY"; $"WANJIE_MAAS_API_KEY"];
     provider_config_key := $"wanjie_ark";
     aliases := [$"wanjie"; $"wanjie_ark"; $"ark-wanjie"; $"ark_wanjie"; $"wanjieark"; $"wanjie-maas"; $"wanjie_maas"; $"wanjiemaas"];
     wire_policy := Fixed ChatCompletions |}.

Definition provider_Volcengine : Provider :=
  {| kind := ProviderKind.Volcengine; id := $"volcengine"; display_name := $"Volcengine Ark";
     default_base_url := $"https://ark.cn-beijing.volces.com/api/coding/v3";
     default_model := $"DeepSeek-V4-Pro";
     env_vars := [$"VOLCENGINE_API_KEY"; $"VOLCENGINE_ARK_API_KEY"; $"ARK_API_KEY"];
     provider_config_key := $"volcengine";
     aliases := [$"volcengine-ark"; $"volcengine_ark"; $"ark"; $"volc-ark"; $"volcengineark"];
     wire_policy := Fixed ChatCompletions |}.

Definition provider_Openrouter : Provider :=
  {| kind := ProviderKind.Openrouter; id := $"openrouter"; display_name := $"OpenRouter";
     default_base_url := $"https://openrouter.ai/api/v1";
     default_model := $"deepseek/deepseek-v4-pro";
     env_vars := [$"OPENROUTER_API_KEY"];
     provider_config_key := $"openrouter";
     aliases := [$"open_router"];
     wire_policy := Fixed ChatCompletions |}.

Definition provider_XiaomiMimo : Provider :=
  {| kind := ProviderKind.XiaomiMimo; id := $"xiaomi-mimo"; display_name := $"Xiaomi MiMo";
     default_base_url := $"https://token-plan-sgp.xiaomimimo.com/v1";
     default_model := $"mimo-v2.5-pro";
     env_vars := [$"XIAOMI_MIMO_TOKEN_PLAN_API_KEY"; $"MIMO_TOKEN_PLAN_API_KEY"; $"XIAOMI_MIMO_API_KEY"; $"XIAOMI_API_KEY"; $"MIMO_API_KEY"];
     provider_config_key := $"xiaomi_mimo";
     aliases := [$"xiaomi_mimo"; $"xiaomimimo"; $"mimo"; $"xiaomi"];
     wire_policy := Fixed ChatCompletions |}.

Definition provider_Novita : Provider :=
  {| kind := ProviderKind.Novita; id := $"novita"; display_name := $"Novita AI";
     default_base_url := $"https://api.novita.ai/openai/v1";
     default_model := $"deepseek/deepseek-v4-pro";
     env_vars := [$"NOVITA_API_KEY"];
     provider_config_key := $"novita";
     aliases := [$"novita-ai"; $"novita_ai"];
     wire_policy := Fixed ChatCompletions |}.

Definition provider_Fireworks : Provider :=
  {| kind := ProviderKind.Fireworks; id := $"fireworks"; display_name := $"Fireworks AI";
     default_base_url := $"https://api.fireworks.ai/inference/v1";
     default_model := $"accounts/fireworks/models/deepseek-v4-pro";
     env_vars := [$"FIREWORKS_API_KEY"];
     provider_config_key := $"fireworks";
     aliases := [$"fireworks-ai"];
     wire_policy := Fixed ChatCompletions |}.

Definition provider_Siliconflow : Provider :=
  {| kind := ProviderKind.Siliconflow; id := $"siliconflow"; display_name := $"SiliconFlow";
     default_base_url := $"https://api.siliconflow.com/v1";
     default_model := $"deepseek-ai/DeepSeek-V4-Pro";
     env_vars := [$"SILICONFLOW_API_KEY"];
     provider_config_key := $"siliconflow";
     aliases := [$"silicon-flow"; $"silicon_flow"];
     wire_policy := Fixed ChatCompletions |}.

Definition provider_Arcee : Provider :=
  {| kind := ProviderKind.Arcee; id := $"arcee"; display_name := $"Arcee AI";
     default_base_url := $"https://api.arcee.ai/api/v1";
     default_model := $"trinity-large-thinking";
     env_vars := [$"ARCEE_API_KEY"];
     provider_config_key := $"arcee";
     aliases := [$"arcee-ai"; $"arcee_ai"];
     wire_policy := Fixed ChatCompletions |}.

Definition provider_SiliconflowCN : Provider :=
  {| kind := ProviderKind.SiliconflowCN; id := $"siliconflow-CN"; display_name := $"SiliconFlow (China)";
     default_base_url := $"https://api.siliconflow.cn/v1";
     default_model := $"deepseek-ai/DeepSeek-V4-Pro";
     env_vars := [$"SILICONFLOW_API_KEY"];
     provider_config_key := $"siliconflow_cn";
     aliases := [$"silicon-flow-cn"; $"silicon-flow-CN"; $"silicon_flow_cn"; $"silicon_flow_CN"; $"siliconflow-china"];
     wire_policy := Fixed ChatCompletions |}.

Definition provider_Moonshot : Provider :=
  {| kind := ProviderKind.Moonshot; id := $"moonshot"; display_name := $"Moonshot/Kimi";
     default_base_url := $"https://api.moonshot.ai/v1";
     default_model := $"kimi-k2.7-code";
     env_vars := [$"MOONSHOT_API_KEY"; $"KIMI_API_KEY"];
     provider_config_key := $"moonshot";
     aliases := [$"moonshot-ai"; $"moonshotai"; $"moonshot_ai"; $"kimi"; $"kimi-k2"];
     wire_policy := Fixed ChatCompletions |}.

Definition provider_Sglang : Provider :=
  {| kind := ProviderKind.Sglang; id := $"sglang"; display_name := $"SGLang";
     default_base_url := $"http://localhost:30000/v1";
     default_model := $"deepseek-ai/DeepSeek-V4-Pro";
     env_vars := [$"SGLANG_API_KEY"];
     provider_config_key := $"sglang";
     aliases := [$"sg-lang"];
     wire_policy := Fixed ChatCompletions |}.

Definition provider_Vllm : Provider :=
  {| kind := ProviderKind.Vllm; id := $"vllm"; display_name := $"vLLM";
     default_base_url := $"http://localhost:8000/v1";
     default_model := $"deepseek-ai/DeepSeek-V4-Pro";
     env_vars := [$"VLLM_API_KEY"];
     provider_config_key := $"vllm";
     aliases := [$"v-llm"];
     wire_policy := Fixed ChatCompletions |}.

Definition provider_Ollama : Provider :=
  {| kind := ProviderKind.Ollama; id := $"ollama"; display_name := $"Ollama";
     default_base_url := $"http://localhost:11434/v1";
     default_model := $"deepseek-v4-flash";
     env_vars := [$"OLLAMA_API_KEY"];
     provider_config_key := $"ollama";
     aliases := [$"ollama-local"];
     wire_policy := Fixed ChatCompletions |}.

Definition provider_Huggingface : Provider :=
  {| kind := ProviderKind.Huggingface; id := $"huggingface"; display_name := $"Hugging Face";
     default_base_url := $"https://router.huggingface.co/v1";
     default_model := $"deepseek-ai/DeepSeek-V4-Pro";
     env_vars := [$"HUGGINGFACE_API_KEY"; $"HF_TOKEN"];
     provider_config_key := $"huggingface";
     aliases := [$"hugging-face"; $"hugging_face"; $"hf"];
     wire_policy := Fixed ChatCompletions |}.

Definition provider_Together : Provider :=
  {| kind := ProviderKind.Together; id := $"together"; display_name := $"Together AI";
     default_base_url := $"https://api.together.xyz/v1";
     default_model := $"deepseek-ai/DeepSeek-V4-Pro";
     env_vars := [$"TOGETHER_API_KEY"];
     provider_config_key := $"together";
     aliases := [$"together-ai"; $"together_ai"; $"togetherai"];
     wire_policy := Fixed ChatCompletions |}.

Definition provider_Qianfan : Provider :=
  {| kind := ProviderKind.Qianfan; id := $"qianfan"; display_name := $"Baidu Qianfan";
     default_base_url := $"https://api.baiduqianfan.ai/v1";
     default_model := $"ernie-4.0-turbo-8k";
     env_vars := [$"QIANFAN_API_KEY"; $"BAIDU_QIANFAN_API_KEY"];
     provider_config_key := $"qianfan";
     aliases := [$"baidu-qianfan"; $"baidu_qianfan"; $"baidu"];
     wire_policy := Fixed ChatCompletions |}.

Definition provider_OpenaiCodex : Provider :=
  {| kind := ProviderKind.OpenaiCodex; id := $"openai-codex"; display_name := $"OpenAI Codex (ChatGPT)";
     default_base_url := $"https://chatgpt.com/backend-api";
     default_model := $"gpt-5.5";
     env_vars := [$"OPENAI_CODEX_ACCESS_TOKEN"; $"CODEX_ACCESS_TOKEN"];
     provider_config_key := $"openai_codex";
     aliases := [$"openai_codex"; $"openaicodex"; $"codex"; $"chatgpt"; $"chatgpt-codex"; $"chatgpt_codex"; $"chatgptcodex"];
     wire_policy := Fixed Responses |}.

Definition provider_Anthropic : Provider :=
  {| kind := ProviderKind.Anthropic; id := $"anthropic"; display_name := $"Anthropic";
     default_base_url := $"https://api.anthropic.com";
     default_model := $"claude-sonnet-4-6";
     env_vars := [$"ANTHROPIC_API_KEY"];
     provider_config_key := $"anthropic";
     aliases := [];
     wire_policy := Fixed AnthropicMessages |}.

Definition provider_Openmodel : Provider :=
  {| kind := ProviderKind.Openmodel; id := $"openmodel"; display_name := $"OpenModel";
     default_base_url := $"https://api.openmodel.ai";
     default_model := $"deepseek-v4-flash";
     env_vars := [$"OPENMODEL_API_KEY"];
     provider_config_key := $"openmodel";
     aliases := [$"open-model"; $"open_model"];
     wire_policy := Fixed AnthropicMessages |}.

Definition provider_Zai : Provider :=
  {| kind := ProviderKind.Zai; id := $"zai"; display_name := $"Zhipu AI / Z.ai";
     default_base_url := $"https://api.z.ai/api/coding/paas/v4";
     default_model := $"GLM-5.2";
     env_vars := [$"ZAI_API_KEY"; $"Z_AI_API_KEY"; $"ZHIPU_API_KEY"; $"GLM_API_KEY"];
     provider_config_key := $"zai";
     aliases := [$"z-ai"; $"z_ai"; $"z.ai"; $"zhipu"; $"zhipuai"; $"bigmodel"; $"big-model"];
     wire_policy := Fixed ChatCompletions |}.

Definition provider_Stepfun : Provider :=
  {| kind := ProviderKind.Stepfun; id := $"stepfun"; display_name := $"StepFun / StepFlash";
     default_base_url := $"https://api.stepfun.ai/v1";
     default_model := $"step-3.7-flash";
     env_vars := [$"STEPFUN_API_KEY"; $"STEP_API_KEY"];
     provider_config_key := $"stepfun";
     aliases := [$"step-fun"; $"step_fun"; $"stepflash"; $"step-flash"; $"step_flash"];
     wire_policy := Fixed ChatCompletions |}.

Definition provider_Minimax : Provider :=
  {| kind := ProviderKind.Minimax; id := $"minimax"; display_name := $"MiniMax";
     default_base_url := $"https://api.minimax.io/v1";
     default_model := $"MiniMax-M3";
     env_vars := [$"MINIMAX_API_KEY"];
     provider_config_key := $"minimax";
     aliases := [$"mini-max"; $"mini_max"];
     wire_policy := Fixed ChatCompletions |}.

Definition provider_MinimaxAnthropic : Provider :=
  {| kind := ProviderKind.MinimaxAnthropic; id := $"minimax-anthropic"; display_name := $"MiniMax (Anthropic-compatible)";
     default_base_url := $"https://api.minimax.io/anthropic";
     default_model := $"MiniMax-M3";
     env_vars := [$"MINIMAX_API_KEY"];
     provider_config_key := $"minimax_anthropic";
     aliases := [$"minimax_anthropic"; $"mini-max-anthropic"; $"mini_max_anthropic"];
     wire_policy := Fixed AnthropicMessages |}.

Definition provider_Deepinfra : Provider :=
  {| kind := ProviderKind.Deepinfra; id := $"deepinfra"; display_name := $"DeepInfra";
     default_base_url := $"https://api.deepinfra.com/v1/openai";
     default_model := $"deepseek-ai/DeepSeek-V4-Pro";
     env_vars := [$"DEEPINFRA_API_KEY"; $"DEEPINFRA_TOKEN"];
     provider_config_key := $"deepinfra";
     aliases := [$"deep-infra"; $"deep_infra"];
     wire_policy := Fixed ChatCompletions |}.

Definition provider_Sakana : Provider :=
  {| kind := ProviderKind.Sakana; id := $"sakana"; display_name := $"Sakana AI (Fugu)";
     default_base_url := $"https://api.sakana.ai/v1";
     default_model := $"fugu";
     env_vars := [$"FUGU_API_KEY"; $"SAKANA_API_KEY"];
     provider_config_key := $"sakana";
     aliases := [$"sakana-ai"; $"sakana_ai"; $"fugu"];
     wire_policy := Fixed ChatCompletions |}.

Definition provider_LongCat : Provider :=
  {| kind := ProviderKind.LongCat; id := $"longcat"; display_name := $"Meituan LongCat";
     default_base_url := $"https://api.longcat.chat/openai/v1";
     default_model := $"LongCat-2.0";
     env_vars := [$"LONGCAT_API_KEY"];
     provider_config_key := $"longcat";
     aliases := [$"long-cat"; $"meituan-longcat"; $"meituan"];
     wire_policy := Fixed ChatCompletions |}.

Definition provider_OpencodeGo : Provider :=
  {| kind := ProviderKind.OpencodeGo; id := $"opencode-go"; display_name := $"OpenCode Go";
     default_base_url := $"https://opencode.ai/zen/go/v1";
     default_model := $"deepseek-v4-pro";
     env_vars := [$"OPENCODE_GO_API_KEY"];
     provider_config_key := $"opencode_go";
     aliases := [$"opencode_go"; $"opencodego"];
     wire_policy := Fixed ChatCompletions |}.

Definition provider_OpencodeZen : Provider :=
  {| kind := ProviderKind.OpencodeZen; id := $"opencode-zen"; display_name := $"OpenCode Zen";
     default_base_url := $"https://opencode.ai/zen/v1";
     default_model := $"gpt-5.5";
     env_vars := [$"OPENCODE_ZEN_API_KEY"; $"OPENCODE_API_KEY"];
     provider_config_key := $"opencode_zen";
     aliases := [$"opencode_zen"; $"opencodezen"; $"zen"; $"opencode"];
     wire_policy := ModelAware |}.

Definition provider_Meta : Provider :=
  {| kind := ProviderKind.Meta; id := $"meta"; display_name := $"Meta Model API";
     default_base_url := $"https://api.meta.ai/v1";
     default_model := $"muse-spark-1.1";
     env_vars := [$"META_MODEL_API_KEY"; $"MODEL_API_KEY"];
     provider_config_key := $"meta";
     aliases := [$"meta-ai"; $"meta_ai"; $"meta-model-api"; $"meta_model_api"; $"muse"; $"muse-spark"];
     wire_policy := Fixed ChatCompletions |}.

Definition provider_Xai : Provider :=
  {| kind := ProviderKind.Xai; id := $"xai"; display_name := $"xAI";
     default_base_url := $"https://api.x.ai/v1";
     default_model := $"grok-4.5";
     env_vars := [$"XAI_API_KEY"];
     provider_config_key := $"xai";
     aliases := [$"x-ai"; $"x_ai"; $"grok"];
     wire_policy := Fixed ChatCompletions |}.

Definition provider_Telecomjs : Provider :=
  {| kind := ProviderKind.Telecomjs; id := $"telecomjs"; display_name := $"TelecomJS TokenHub";
     default_base_url := $"https://aigw.telecomjs.com/v1";
     default_model := $"deepseek-v4-pro";
     env_vars := [$"TELECOMJS_API_KEY"];
     provider_config_key := $"telecomjs";
     aliases := [$"telecom-js"; $"telecom_js"; $"telecomjs-cn"; $"tokenhub"];
     wire_policy := Fixed ChatCompletions |}.

Definition provider_Custom : Provider :=
  {| kind := ProviderKind.Custom; id := $"custom"; display_name := $"Custom (OpenAI-compatible)";
     default_base_url := $"http://localhost/v1";
     default_model := $"custom-model";
     env_vars := [];
     provider_config_key := $"custom";
     aliases := [];
     wire_policy := Fixed ChatCompletions |}.

Definition PROVIDER_REGISTRY : list Provider :=
  [provider_Deepseek; provider_DeepseekAnthropic; provider_NvidiaNim;
   provider_Openai; provider_Atlascloud; provider_WanjieArk;
   provider_Volcengine; provider_Openrouter; provider_XiaomiMimo;
   provider_Novita; provider_Fireworks; provider_Siliconflow;
   provider_Arcee; provider_SiliconflowCN; provider_Moonshot;
   provider_Sglang; provider_Vllm; provider_Ollama;
   provider_Huggingface; provider_Together; provider_Qianfan;
   provider_OpenaiCodex; provider_Anthropic; provider_Openmodel;
   provider_Zai; provider_Stepfun; provider_Minimax;
   provider_MinimaxAnthropic; provider_Deepinfra; provider_Sakana;
   provider_LongCat; provider_OpencodeGo; provider_OpencodeZen;
   provider_Meta; provider_Xai; provider_Telecomjs;
   provider_Custom].

(** ** Lookup *)

Definition lookup_provider (i : str) : option Provider :=
  find (fun p => bool_decide (id p = trim i)) PROVIDER_REGISTRY.

(** [provider_for_kind]; the last branch is the [expect] that [registry_total]
    shows unreachable. *)
Definition provider_for_kind (k : ProviderKind) : Provider :=
  match find (fun p => bool_decide (kind p = k)) PROVIDER_REGISTRY with
  | Some p => p
  | None => provider_Custom
  end.

(** [ProviderKind::as_str]. *)
Definition kind_as_str (k : ProviderKind) : str := id (provider_for_kind k).

Definition answers_to (value : str) (p : Provider) : bool :=
  eq_ignore_ascii_case (trim value) (id p) || existsb (eq_ignore_ascii_case (trim value)) (aliases p).

(** [ProviderKind::parse]. *)
Definition parse_kind (value : str) : option ProviderKind :=
  kind <$> find (answers_to value) PROVIDER_REGISTRY.

Definition resolve_provider (id_or_alias : str) : option Provider :=
  provider_for_kind <$> parse_kind id_or_alias.

Definition kind_names_hint : str := join $", " (kind_as_str <$> ProviderKind.ALL).

Definition is_siliconflow (k : ProviderKind) : bool :=
  match k with ProviderKind.Siliconflow | ProviderKind.SiliconflowCN => true | _ => false end.

Definition display_le (p q : Provider) : bool :=
  str_le (to_ascii_lowercase (display_name p)) (to_ascii_lowercase (display_name q)).

Definition providers_sorted_for_display : list Provider := stable_sort display_le PROVIDER_REGISTRY.

(** ** Credential help *)

Definition credential_help (kind : ProviderKind) : CredentialHelp :=
  match kind with
  | ProviderKind.Deepseek | ProviderKind.DeepseekAnthropic =>
      {| acquisition := ApiKey; credential_url := Some $"https://platform.deepseek.com/api_keys";
         docs_url := Some $"https://api-docs.deepseek.com/";
         guidance := $"Create an API key in the DeepSeek platform console." |}
  | ProviderKind.NvidiaNim =>
      {| acquisition := ApiKey; credential_url := Some $"https://build.nvidia.com/settings/api-keys";
         docs_url := Some $"https://build.nvidia.com/explore/discover";
         guidance := $"Create an NVIDIA NIM key in the NVIDIA build console." |}
  | ProviderKind.Openai =>
      {| acquisition := ApiKey; credential_url := Some $"https://platform.openai.com/api-keys";
         docs_url := Some $"https://platform.openai.com/docs/api-reference";
         guidance := $"Create an OpenAI API key, or configure the credential for your compatible endpoint." |}
  | ProviderKind.Atlascloud =>
      {| acquisition := ApiKey; credential_url := Some $"https://atlascloud.ai/docs/en/api-keys";
         docs_url := Some $"https://atlascloud.ai/docs/en/api-keys";
         guidance := $"Follow Atlas Cloud's API Keys guide to create a credential." |}
  | ProviderKind.WanjieArk =>
      {| acquisition := ApiKey; credential_url := Some $"https://docs.wanjiedata.com/maas/maas-openapi-v1.html";
         docs_url := Some $"https://docs.wanjiedata.com/maas/maas-openapi-v1.html";
         guidance := $"Follow Wanjie MaaS's APIKEY guide to create a credential." |}
  | ProviderKind.Volcengine =>
      {| acquisition := ApiKey; credential_url := Some $"https://console.volcengine.com/ark/apiKey";
         docs_url := Some $"https://www.volcengine.com/docs/82379/1541594";
         guidance := $"Create a Volcengine Ark API key in the Ark console." |}
  | ProviderKind.Openrouter =>
      {| acquisition := ApiKey; credential_url := Some $"https://openrouter.ai/settings/keys";
         docs_url := Some $"https://openrouter.ai/docs/api/reference/authentication";
         guidance := $"Create an OpenRouter key from account settings." |}
  | ProviderKind.XiaomiMimo =>
      {| acquisition := ApiKey; credential_url := Some $"https://platform.xiaomimimo.com/token-plan";
         docs_url := Some $"https://mimo.mi.com/docs/en-US/tokenplan/Token%20Plan/subscription";
         guidance := $"Create a Xiaomi MiMo Token Plan or pay-as-you-go key and keep its matching base URL." |}
  | ProviderKind.Novita =>
      {| acquisition := ApiKey; credential_url := Some $"https://novita.ai/en/settings/key-management";
         docs_url := Some $"https://novita.ai/docs/guides/quickstart";
         guidance := $"Create a Novita key in account Key Management." |}
  | ProviderKind.Fireworks =>
      {| acquisition := ApiKey; credential_url := Some $"https://fireworks.ai/api-keys";
         docs_url := Some $"https://docs.fireworks.ai/getting-started/quickstart";
         guidance := $"Create a Fireworks API key before configuring the provider." |}
  | ProviderKind.Siliconflow =>
      {| acquisition := ApiKey; credential_url := Some $"https://cloud.siliconflow.com/account/ak";
         docs_url := Some $"https://docs.siliconflow.com/en/userguide/quickstart";
         guidance := $"Use the global SiliconFlow console for the global endpoint." |}
  | ProviderKind.SiliconflowCN =>
      {| acquisition := ApiKey; credential_url := Some $"https://cloud.siliconflow.cn/account/ak";
         docs_url := Some $"https://docs.siliconflow.cn/en/userguide/quickstart";
         guidance := $"Use the China SiliconFlow console for the China endpoint." |}
  | ProviderKind.Arcee =>
      {| acquisition := ApiKey; credential_url := Some $"https://docs.arcee.ai/other/create-your-first-api-key";
         docs_url := Some $"https://docs.arcee.ai/other/create-your-first-api-key";
         guidance := $"Follow Arcee's API key guide to create a credential." |}
  | ProviderKind.Moonshot =>
      {| acquisition := ApiKey; credential_url := Some $"https://platform.kimi.ai/console/api-keys";
         docs_url := Some $"https://platform.kimi.ai/docs/overview";
         guidance := $"For Moonshot's default direct API route, sign in to Kimi API Platform and create and copy an API key. A configured Kimi Code route uses a separate membership-plan console and never imports Kimi CLI credentials; first-class Kimi OAuth is not available." |}
  | ProviderKind.Sglang =>
      {| acquisition := LocalOptional; credential_url := None;
         docs_url := Some $"https://docs.sglang.ai/";
         guidance := $"Self-hosted SGLang is keyless by default; configure a key only if your server requires one." |}
  | ProviderKind.Vllm =>
      {| acquisition := LocalOptional; credential_url := None;
         docs_url := Some $"https://docs.vllm.ai/en/stable/serving/openai_compatible_server/";
         guidance := $"Self-hosted vLLM is keyless by default; configure a key only if your server requires one." |}
  | ProviderKind.Ollama =>
      {| acquisition := LocalOptional; credential_url := None;
         docs_url := Some $"https://docs.ollama.com/api";
         guidance := $"Local Ollama is keyless by default; configure a key only if your server requires one." |}
  | ProviderKind.Huggingface =>
      {| acquisition := ApiKey; credential_url := Some $"https://huggingface.co/settings/tokens";
         docs_url := Some $"https://huggingface.co/docs/hub/en/security-tokens";
         guidance := $"Create a scoped Hugging Face access token." |}
  | ProviderKind.Together =>
      {| acquisition := ApiKey; credential_url := Some $"https://api.together.ai/settings/api-keys";
         docs_url := Some $"https://docs.together.ai/docs/api-keys-authentication";
         guidance := $"Create a Together API key from account settings." |}
  | ProviderKind.Qianfan =>
      {| acquisition := ApiKey; credential_url := Some $"https://console.bce.baidu.com/iam/#/iam/accesslist";
         docs_url := Some $"https://cloud.baidu.com/doc/qianfan/index.html";
         guidance := $"Create Baidu Qianfan credentials in the Baidu Cloud console." |}
  | ProviderKind.OpenaiCodex =>
      {| acquisition := OAuth; credential_url := None;
         docs_url := Some $"https://developers.openai.com/codex/";
         guidance := $"Run `codex login`, then explicitly grant Nestlone read-only access to that exact Codex credential file; or use a process-scoped token environment variable." |}
  | ProviderKind.Anthropic =>
      {| acquisition := ApiKey; credential_url := Some $"https://console.anthropic.com/settings/keys";
         docs_url := Some $"https://docs.anthropic.com/en/api/overview";
         guidance := $"Create an Anthropic API key in the Anthropic Console." |}
  | ProviderKind.Openmodel =>
      {| acquisition := ApiKey; credential_url := Some $"https://console.openmodel.ai/";
         docs_url := Some $"https://docs.openmodel.ai/en/docs/getting-started/authentication";
         guidance := $"Create an API key in the OpenModel console, then follow the authentication guide." |}
  | ProviderKind.Zai =>
      {| acquisition := ApiKey; credential_url := Some $"https://z.ai/model-api";
         docs_url := Some $"https://docs.z.ai/api-reference/introduction";
         guidance := $"Create or manage a Z.ai API key from the Model API page." |}
  | ProviderKind.Stepfun =>
      {| acquisition := ApiKey; credential_url := Some $"https://platform.stepfun.ai/";
         docs_url := Some $"https://platform.stepfun.ai/docs/en/quickstart/overview";
         guidance := $"Open Account Management, then Interface Keys, in the StepFun console." |}
  | ProviderKind.Minimax | ProviderKind.MinimaxAnthropic =>
      {| acquisition := ApiKey; credential_url := Some $"https://platform.minimax.io/user-center/basic-information/interface-key";
         docs_url := Some $"https://platform.minimax.io/docs/api-reference/api-overview";
         guidance := $"Create a MiniMax API key or subscription-plan key in the user center." |}
  | ProviderKind.Deepinfra =>
      {| acquisition := ApiKey; credential_url := Some $"https://deepinfra.com/dash/api_keys";
         docs_url := Some $"https://docs.deepinfra.com/quickstart";
         guidance := $"Create a DeepInfra API key from the dashboard." |}
  | ProviderKind.Sakana =>
      {| acquisition := ApiKey; credential_url := Some $"https://console.sakana.ai/api-keys";
         docs_url := Some $"https://console.sakana.ai/get-started";
         guidance := $"Create a Sakana AI key in the console and copy it when shown." |}
  | ProviderKind.LongCat =>
      {| acquisition := ApiKey; credential_url := Some $"https://longcat.chat/platform";
         docs_url := Some $"https://longcat.chat/platform";
         guidance := $"Sign up on the LongCat platform and create an API key." |}
  | ProviderKind.OpencodeGo =>
      {| acquisition := ApiKey; credential_url := Some $"https://opencode.ai/zen/";
         docs_url := Some $"https://opencode.ai/docs/go/";
         guidance := $"Create or copy an OpenCode Go subscription key from OpenCode Zen." |}
  | ProviderKind.OpencodeZen =>
      {| acquisition := ApiKey; credential_url := Some $"https://opencode.ai/zen/";
         docs_url := Some $"https://opencode.ai/docs/zen/";
         guidance := $"Create or copy an OpenCode Zen API key from OpenCode Zen." |}
  | ProviderKind.Meta =>
      {| acquisition := ApiKey; credential_url := Some $"https://developer.meta.com/ai/";
         docs_url := Some $"https://developer.meta.com/ai/resources/blog/build-with-muse-spark/";
         guidance := $"Use the Meta developer portal to obtain Model API access and a key." |}
  | ProviderKind.Xai =>
      {| acquisition := ApiKeyOrOAuth; credential_url := Some $"https://console.x.ai/";
         docs_url := None;
         guidance := $"Use an xAI Console API key or Nestlone's native device login. Reading an existing Grok CLI file requires explicit provider-scoped read-only consent." |}
  | ProviderKind.Telecomjs =>
      {| acquisition := ApiKey; credential_url := Some $"https://aigw.telecomjs.com/";
         docs_url := None;
         guidance := $"Create a TelecomJS TokenHub API key, then use the provider's live model catalog to discover the models available to that key." |}
  | ProviderKind.Custom =>
      {| acquisition := Configuration; credential_url := None;
         docs_url := None;
         guidance := $"Set this custom provider's base_url and api_key_env or api_key in configuration; no canonical vendor credential page exists." |}
  end.

(** ** Exact routes *)

(** [is_exact_https_route]. *)
Definition is_exact_https_route (base_url expected_authority expected_path : str) : bool :=
  let trimmed := trim base_url in
  let normalized := default trimmed (strip_suffix $"/" trimmed) in
  match split_once $"://" normalized with
  | None => false
  | Some (scheme, authority_and_path) =>
      match split_once $"/" authority_and_path with
      | None => false
      | Some (authority, path) =>
          eq_ignore_ascii_case scheme $"https"
          && eq_ignore_ascii_case authority expected_authority
          && bool_decide (path = expected_path)
      end
  end.

Definition is_exact_kimi_code_route (k : ProviderKind) (base_url : str) : bool :=
  if bool_decide (k <> ProviderKind.Moonshot) then false
  else is_exact_https_route base_url $"api.kimi.com" $"coding/v1".

Definition is_exact_moonshot_platform_route (k : ProviderKind) (base_url : str) : bool :=
  bool_decide (k = ProviderKind.Moonshot) && is_exact_https_route base_url $"api.moonshot.ai" $"v1".

Definition is_exact_zai_chat_route (k : ProviderKind) (base_url : str) : bool :=
  bool_decide (k = ProviderKind.Zai)
  && (is_exact_https_route base_url $"api.z.ai" $"api/coding/paas/v4"
      || is_exact_https_route base_url $"api.z.ai" $"api/paas/v4").

Definition is_exact_minimax_chat_route (k : ProviderKind) (base_url : str) : bool :=
  bool_decide (k = ProviderKind.Minimax)
  && (is_exact_https_route base_url $"api.minimax.io" $"v1"
      || is_exact_https_route base_url $"api.minimaxi.com" $"v1").

Definition is_exact_minimax_anthropic_route (k : ProviderKind) (base_url : str) : bool :=
  bool_decide (k = ProviderKind.MinimaxAnthropic)
  && (is_exact_https_route base_url $"api.minimax.io" $"anthropic"
      || is_exact_https_route base_url $"api.minimaxi.com" $"anthropic").

Definition credential_help_for_route (k : ProviderKind) (base_url : str) : CredentialHelp :=
  if is_exact_kimi_code_route k base_url then
    {| acquisition := ApiKey;
       credential_url := Some $"https://www.kimi.com/code/console";
       docs_url := None;
       guidance := $"Create a Kimi Code membership-plan API key in the Kimi Code console. This route uses api.kimi.com/coding/v1; Nestlone does not import Kimi CLI credentials." |}
  else credential_help k.

(** ** The fallback chain *)

Record ProviderChain := { providers : list ProviderKind; position : nat }.

Definition new_chain (active : ProviderKind) (fallbacks : list ProviderKind) : ProviderChain :=
  {| providers :=
       fold_left (fun ps f => if bool_decide (f <> active) && negb (bool_decide (f ∈ ps))
                              then ps ++ [f] else ps) fallbacks [active];
     position := 0 |}.

Definition current (c : ProviderChain) : ProviderKind :=
  match providers c !! position c with
  | Some k => k
  | None => default ProviderKind.Deepseek (head (providers c))
  end.

Definition has_next (c : ProviderChain) : bool := (S (position c) <? length (providers c))%nat.

Definition advance (c : ProviderChain) : ProviderChain * option ProviderKind :=
  if has_next c then
    let c' := {| providers := providers c; position := S (position c) |} in (c', Some (current c'))
  else (c, None).

Definition reset (c : ProviderChain) : ProviderChain := {| providers := providers c; position := 0 |}.

Definition is_fallback_active (c : ProviderChain) : bool := (0 <? position c)%nat.

(** The subtraction does not underflow on a chain built by [new_chain]. *)
Definition remaining (c : ProviderChain) : Z := zlen (providers c) - Z.of_nat (position c).

(** ** [ApiProvider] *)

Module ApiProvider.
Inductive ApiProvider : Set :=
| Deepseek
| DeepseekCN
| DeepseekAnthropic
| NvidiaNim
| Openai
| Atlascloud
| WanjieArk
| Volcengine
| Openrouter
| XiaomiMimo
| Novita
| Fireworks
| Siliconflow
| SiliconflowCn
| Arcee
| Moonshot
| Sglang
| Vllm
| Ollama
| Huggingface
| Together
| Qianfan
| OpenaiCodex
| Anthropic
| Openmodel
| Zai
| Stepfun
| Minimax
| MinimaxAnthropic
| Deepinfra
| Sakana
| LongCat
| OpencodeGo
| OpencodeZen
| Meta
| Xai
| Telecomjs
| Custom.

#[export] Instance ApiProvider_eq_dec : EqDecision ApiProvider.
Proof. solve_decision. Defined.

(** The discriminant [self as usize]. *)
Definition discriminant (p : ApiProvider) : nat :=
  match p with
  | Deepseek => 0
  | DeepseekCN => 1
  | DeepseekAnthropic => 2
  | NvidiaNim => 3
  | Openai => 4
  | Atlascloud => 5
  | WanjieArk => 6
  | Volcengine => 7
  | Openrouter => 8
  | XiaomiMimo => 9
  | Novita => 10
  | Fireworks => 11
  | Siliconflow => 12
  | SiliconflowCn => 13
  | Arcee => 14
  | Moonshot => 15
  | Sglang => 16
  | Vllm => 17
  | Ollama => 18
  | Huggingface => 19
  | Together => 20
  | Qianfan => 21
  | OpenaiCodex => 22
  | Anthropic => 23
  | Openmodel => 24
  | Zai => 25
  | Stepfun => 26
  | Minimax => 27
  | MinimaxAnthropic => 28
  | Deepinfra => 29
  | Sakana => 30
  | LongCat => 31
  | OpencodeGo => 32
  | OpencodeZen => 33
  | Meta => 34
  | Xai => 35
  | Telecomjs => 36
  | Custom => 37
  end%nat.

Definition KIND_LOOKUP : list (option ProviderKind) :=
  [Some ProviderKind.Deepseek; None; Some ProviderKind.DeepseekAnthropic;
   Some ProviderKind.NvidiaNim; Some ProviderKind.Openai; Some ProviderKind.Atlascloud;
   Some ProviderKind.WanjieArk; Some ProviderKind.Volcengine; Some ProviderKind.Openrouter;
   Some ProviderKind.XiaomiMimo; Some ProviderKind.Novita; Some ProviderKind.Fireworks;
   Some ProviderKind.Siliconflow; Some ProviderKind.SiliconflowCN; Some ProviderKind.Arcee;
   Some ProviderKind.Moonshot; Some ProviderKind.Sglang; Some ProviderKind.Vllm;
   Some ProviderKind.Ollama; Some ProviderKind.Huggingface; Some ProviderKind.Together;
   Some ProviderKind.Qianfan; Some ProviderKind.OpenaiCodex; Some ProviderKind.Anthropic;
   Some ProviderKind.Openmodel; Some ProviderKind.Zai; Some ProviderKind.Stepfun;
   Some ProviderKind.Minimax; Some ProviderKind.MinimaxAnthropic; Some ProviderKind.Deepinfra;
   Some ProviderKind.Sakana; Some ProviderKind.LongCat; Some ProviderKind.OpencodeGo;
   Some ProviderKind.OpencodeZen; Some ProviderKind.Meta; Some ProviderKind.Xai;
   Some ProviderKind.Telecomjs; Some ProviderKind.Custom].

Definition FROM_KIND_LOOKUP : list ApiProvider :=
  [Deepseek; DeepseekAnthropic; NvidiaNim; Openai; Atlascloud;
   WanjieArk; Volcengine; Openrouter; XiaomiMimo; Novita;
   Fireworks; Siliconflow; Arcee; SiliconflowCn; Moonshot;
   Sglang; Vllm; Ollama; Huggingface; Together;
   Qianfan; OpenaiCodex; Anthropic; Openmodel; Zai;
   Stepfun; Minimax; MinimaxAnthropic; Deepinfra; Sakana;
   LongCat; OpencodeGo; OpencodeZen; Meta; Xai;
   Telecomjs; Custom].
End ApiProvider.
Export (hints) ApiProvider.
Abbreviation ApiProvider := ApiProvider.ApiProvider.

(** [ApiProvider::kind] and [from_kind]; the indexing never panics
    ([api_provider_roundtrip]). *)
Definition api_kind (p : ApiProvider) : option ProviderKind :=
  match ApiProvider.KIND_LOOKUP !! ApiProvider.discriminant p with Some k => k | None => None end.

Definition from_kind (k : ProviderKind) : ApiProvider :=
  default ApiProvider.Custom (ApiProvider.FROM_KIND_LOOKUP !! kind_discriminant k).

Definition api_as_str (p : ApiProvider) : str :=
  match api_kind p with Some k => kind_as_str k | None => $"deepseek-cn" end.

Definition api_display_name (p : ApiProvider) : str :=
  match api_kind p with
  | Some k => display_name (provider_for_kind k)
  | None => $"DeepSeek (legacy alias)"
  end.

Definition metadata (p : ApiProvider) : option Provider := provider_for_kind <$> api_kind p.

Definition api_env_vars (p : ApiProvider) : list str :=
  match metadata p with
  | Some provider => env_vars provider
  | None => env_vars (provider_for_kind ProviderKind.Deepseek)
  end.

Definition api_parse (value : str) : option ApiProvider :=
  let trimmed := trim value in
  if eq_ignore_ascii_case trimmed $"deepseek-cn" || eq_ignore_ascii_case trimmed $"deepseek_china"
     || eq_ignore_ascii_case trimmed $"deepseekcn" || eq_ignore_ascii_case trimmed $"deepseek-china"
  then Some ApiProvider.DeepseekCN
  else from_kind <$> parse_kind value.

Definition api_all : list ApiProvider := ApiProvider.FROM_KIND_LOOKUP.

Definition is_self_hosted (p : ApiProvider) : bool :=
  match p with
  | ApiProvider.Sglang | ApiProvider.Vllm | ApiProvider.Ollama => true
  | _ => false
  end.

(** *** Route predicates of [crates/tui/src/config.rs] *)

Definition is_exact_direct_moonshot_k3_route (p : ApiProvider) (base_url model : str) : bool :=
  bool_decide (p = ApiProvider.Moonshot)
  && is_exact_moonshot_platform_route ProviderKind.Moonshot base_url
  && eq_ignore_ascii_case (trim model) $"kimi-k3".

Definition is_exact_kimi_code_k3_route (p : ApiProvider) (base_url model : str) : bool :=
  bool_decide (p = ApiProvider.Moonshot)
  && is_exact_kimi_code_route ProviderKind.Moonshot base_url
  && eq_ignore_ascii_case (trim model) $"k3".

Definition api_is_exact_zai_chat_route (p : ApiProvider) (base_url : str) : bool :=
  bool_decide (p = ApiProvider.Zai) && is_exact_zai_chat_route ProviderKind.Zai base_url.

Definition is_exact_zai_glm_5_2_route (p : ApiProvider) (base_url model : str) : bool :=
  api_is_exact_zai_chat_route p base_url && eq_ignore_ascii_case (trim model) $"GLM-5.2".

Definition is_exact_zai_glm_5_turbo_route (p : ApiProvider) (base_url model : str) : bool :=
  api_is_exact_zai_chat_route p base_url && eq_ignore_ascii_case (trim model) $"GLM-5-Turbo".

Definition is_exact_known_zai_reasoning_route (p : ApiProvider) (base_url model : str) : bool :=
  is_exact_zai_glm_5_2_route p base_url model
  || is_exact_zai_glm_5_turbo_route p base_url model
  || (api_is_exact_zai_chat_route p base_url && eq_ignore_ascii_case (trim model) $"GLM-5.1").

Definition is_exact_minimax_m3_route (p : ApiProvider) (base_url model : str) : bool :=
  bool_decide (p = ApiProvider.Minimax)
  && is_exact_minimax_chat_route ProviderKind.Minimax base_url
  && eq_ignore_ascii_case (trim model) $"MiniMax-M3".

Definition is_exact_minimax_anthropic_m3_route (p : ApiProvider) (base_url model : str) : bool :=
  bool_decide (p = ApiProvider.MinimaxAnthropic)
  && is_exact_minimax_anthropic_route ProviderKind.MinimaxAnthropic base_url
  && eq_ignore_ascii_case (trim model) $"MiniMax-M3".
