(* ===== verification/ProvidersSpec.v ===== *)
(** * Properties of provider identity and routes

    Names resolve to the registry, the two provider enumerations agree, exact
    routes are exact, and the fallback chain visits every provider once. *)

From S2P Require Import Text Providers.

(** ** The registry *)

Lemma registry_kinds : kind <$> PROVIDER_REGISTRY = ProviderKind.ALL.
Proof. vm_compute. reflexivity. Qed.

Lemma kinds_all k : k ∈ ProviderKind.ALL.
Proof. refine (bool_decide_eq_true_1 _ _). destruct k; vm_compute; reflexivity. Qed.

Lemma registry_total k :
  exists p, find (fun p => bool_decide (kind p = k)) PROVIDER_REGISTRY = Some p /\ kind p = k.
Proof.
  destruct (find _ PROVIDER_REGISTRY) as [p|] eqn:E.
  - exists p. split; [done|]. apply find_Some in E as [_ E]. by apply bool_decide_eq_true in E.
  - pose proof (kinds_all k) as Hk. rewrite <- registry_kinds in Hk.
    apply list_elem_of_fmap in Hk as (p & -> & Hp).
    apply find_None with (x := p) in E; [|done]. by apply bool_decide_eq_false in E.
Qed.

Lemma provider_for_kind_in k : provider_for_kind k ∈ PROVIDER_REGISTRY /\ kind (provider_for_kind k) = k.
Proof.
  unfold provider_for_kind. destruct (registry_total k) as (p & Hf & Hk). rewrite Hf.
  split; [|done]. by apply find_Some in Hf as [? _].
Qed.

(** The distinct names a provider answers to, in lower case. *)
Definition names_of (p : Provider) : list str :=
  remove_dups (to_ascii_lowercase <$> (id p :: aliases p)).

Lemma names_disjoint : NoDup (PROVIDER_REGISTRY ≫= names_of).
Proof. refine (bool_decide_eq_true_1 _ _). vm_compute. reflexivity. Qed.

Lemma answers_to_names value p :
  answers_to value p = true <-> to_ascii_lowercase (trim value) ∈ names_of p.
Proof.
  unfold answers_to, names_of, eq_ignore_ascii_case.
  rewrite elem_of_remove_dups, fmap_cons, elem_of_cons, orb_true_iff, bool_decide_eq_true, existsb_spec, list_elem_of_fmap.
  split; (intros [H|H]; [by left|right]).
  - destruct H as (a & Ha & E%bool_decide_eq_true). eauto.
  - destruct H as (a & E & Ha). exists a. split; [done|]. by apply bool_decide_eq_true_2.
Qed.

(** In a list of disjoint groups an element identifies its group. *)
Lemma bind_NoDup_unique {A B} (f : A -> list B) (l : list A) x y b :
  NoDup (l ≫= f) -> x ∈ l -> y ∈ l -> b ∈ f x -> b ∈ f y -> x = y.
Proof.
  induction l as [|z l IH]; simpl; [by intros _ ?%not_elem_of_nil|].
  intros (Hz & Hd & Hl)%NoDup_app Hx Hy Hbx Hby.
  assert (Hin : forall w, w ∈ l -> b ∈ f w -> b ∈ l ≫= f) by (intros w Hw Hb; apply list_elem_of_bind; eauto).
  apply elem_of_cons in Hx as [->|Hx], Hy as [->|Hy]; [done| | |by apply IH].
  - exfalso. eapply Hd; [exact Hbx|]. by eapply Hin.
  - exfalso. eapply Hd; [exact Hby|]. by eapply Hin.
Qed.

(** provider names resolve without ambiguity: parsing a value gives a kind
    exactly when the trimmed value is, up to ASCII case, the canonical id or an
    alias of that kind, so no two kinds share a name and every name of a kind
    resolves to it. *)
Theorem provider_names_resolve value k :
  parse_kind value = Some k <->
  exists name, name ∈ id (provider_for_kind k) :: aliases (provider_for_kind k) /\
    eq_ignore_ascii_case (trim value) name = true.
Proof.
  assert (Hans : (exists name, name ∈ id (provider_for_kind k) :: aliases (provider_for_kind k) /\
    eq_ignore_ascii_case (trim value) name = true) <-> answers_to value (provider_for_kind k) = true).
  { unfold answers_to. rewrite orb_true_iff, existsb_spec. split.
    - intros (name & [->|Hn]%elem_of_cons & E); eauto.
    - intros [H|(a & Ha & H)]; eexists; (split; [|exact H]); set_solver. }
  rewrite Hans. destruct (provider_for_kind_in k) as [Hin Hk]. unfold parse_kind. split.
  - intros (p & [Hp Ha]%find_Some & ->)%fmap_Some.
    apply answers_to_names in Ha as Hb. destruct (provider_for_kind_in (kind p)) as [Hin' Hk'].
    assert (p = provider_for_kind (kind p)) as Heq; [|by rewrite <- Heq].
    unfold provider_for_kind. destruct (registry_total (kind p)) as (q & Hq & Hqk). rewrite Hq.
    assert (HNK : NoDup (kind <$> PROVIDER_REGISTRY)) by (refine (bool_decide_eq_true_1 _ _); by vm_compute).
    apply find_Some in Hq as [Hq _].
    apply list_elem_of_lookup in Hp as (i & Hi), Hq as (j & Hj).
    assert (i = j) as <-; [|congruence].
    eapply NoDup_lookup; [exact HNK| |]; rewrite list_lookup_fmap; [by rewrite Hi|by rewrite Hj; simpl; rewrite Hqk].
  - intros Ha. destruct (find (answers_to value) PROVIDER_REGISTRY) as [q|] eqn:E; simpl.
    + apply find_Some in E as [Hq Hqa]. apply answers_to_names in Ha, Hqa.
      by rewrite (bind_NoDup_unique _ _ _ _ _ names_disjoint Hq Hin Hqa Ha), Hk.
    + exfalso. apply find_None with (x := provider_for_kind k) in E; [congruence|done].
Qed.

(** the two provider enumerations agree: every [ProviderKind] survives the
    trip through [ApiProvider], every [ApiProvider] but the legacy DeepSeek
    China one is recovered from its kind, and every [ApiProvider] is recovered
    from the name it prints. *)
Theorem api_provider_roundtrip :
  (forall k, api_kind (from_kind k) = Some k) /\
  (forall p k, api_kind p = Some k -> from_kind k = p) /\
  (forall p, api_kind p = None <-> p = ApiProvider.DeepseekCN) /\
  (forall p, api_parse (api_as_str p) = Some p) /\
  (forall k, lookup_provider (kind_as_str k) = Some (provider_for_kind k)).
Proof.
  repeat split.
  - by destruct k.
  - by destruct p; intros k [= <-].
  - by destruct p.
  - by intros ->.
  - intros p; destruct p; vm_compute; reflexivity.
  - intros k; destruct k; vm_compute; reflexivity.
Qed.

(** The display list holds every provider once, in alphabetical order of
    the lowercased display names. *)
Theorem display_order_is_sorted_permutation :
  providers_sorted_for_display ≡ₚ PROVIDER_REGISTRY /\
  sorted_by display_le providers_sorted_for_display.
Proof.
  split; [apply stable_sort_perm|]. apply stable_sort_sorted; unfold display_le.
  - intros. apply str_le_total.
  - intros a b c. apply str_le_trans.
Qed.

(** ** serde names *)

(** serde's documented [kebab-case] renaming of the variant names. *)
Definition documented_kebab (kind : ProviderKind) : str :=
  match kind with
  | ProviderKind.Deepseek => $"deepseek"
  | ProviderKind.DeepseekAnthropic => $"deepseek-anthropic"
  | ProviderKind.NvidiaNim => $"nvidia-nim"
  | ProviderKind.Openai => $"openai"
  | ProviderKind.Atlascloud => $"atlascloud"
  | ProviderKind.WanjieArk => $"wanjie-ark"
  | ProviderKind.Volcengine => $"volcengine"
  | ProviderKind.Openrouter => $"openrouter"
  | ProviderKind.XiaomiMimo => $"xiaomi-mimo"
  | ProviderKind.Novita => $"novita"
  | ProviderKind.Fireworks => $"fireworks"
  | ProviderKind.Siliconflow => $"siliconflow"
  | ProviderKind.Arcee => $"arcee"
  | ProviderKind.SiliconflowCN => $"siliconflow-c-n"
  | ProviderKind.Moonshot => $"moonshot"
  | ProviderKind.Sglang => $"sglang"
  | ProviderKind.Vllm => $"vllm"
  | ProviderKind.Ollama => $"ollama"
  | ProviderKind.Huggingface => $"huggingface"
  | ProviderKind.Together => $"together"
  | ProviderKind.Qianfan => $"qianfan"
  | ProviderKind.OpenaiCodex => $"openai-codex"
  | ProviderKind.Anthropic => $"anthropic"
  | ProviderKind.Openmodel => $"openmodel"
  | ProviderKind.Zai => $"zai"
  | ProviderKind.Stepfun => $"stepfun"
  | ProviderKind.Minimax => $"minimax"
  | ProviderKind.MinimaxAnthropic => $"minimax-anthropic"
  | ProviderKind.Deepinfra => $"deepinfra"
  | ProviderKind.Sakana => $"sakana"
  | ProviderKind.LongCat => $"long-cat"
  | ProviderKind.OpencodeGo => $"opencode-go"
  | ProviderKind.OpencodeZen => $"opencode-zen"
  | ProviderKind.Meta => $"meta"
  | ProviderKind.Xai => $"xai"
  | ProviderKind.Telecomjs => $"telecomjs"
  | ProviderKind.Custom => $"custom"
  end.

(** [deserialize_root_provider]: the derived deserializer accepts the renamed
    variant names and the aliases; anything else becomes [Custom].  The
    renaming is serde's. *)
Definition deserialize_root_provider (rename : str -> str) (value : str) : ProviderKind :=
  default ProviderKind.Custom
    (find (fun k => bool_decide (value ∈ rename (ProviderKind.variant_name k) :: ProviderKind.serde_aliases k))
       ProviderKind.ALL).

(** a configuration that names a provider by its canonical id selects that
    provider, except for LongCat: ["longcat"] is neither the renamed variant
    nor an alias, so the root deserializer silently falls back to [Custom]
    while [ProviderKind::parse] accepts it. *)
Theorem canonical_ids_deserialize_except_longcat (rename : str -> str) :
  (forall k, rename (ProviderKind.variant_name k) = documented_kebab k) ->
  (forall k, deserialize_root_provider rename (kind_as_str k) = k <-> k <> ProviderKind.LongCat) /\
  deserialize_root_provider rename $"longcat" = ProviderKind.Custom /\
  parse_kind $"longcat" = Some ProviderKind.LongCat.
Proof.
  intros Hr.
  assert (Hd : forall value, deserialize_root_provider rename value =
    default ProviderKind.Custom
      (find (fun k => bool_decide (value ∈ documented_kebab k :: ProviderKind.serde_aliases k)) ProviderKind.ALL)).
  { intros value. unfold deserialize_root_provider. apply (f_equal (default ProviderKind.Custom)).
    generalize ProviderKind.ALL as l. induction l as [|k l IH]; simpl; [done|]. by rewrite Hr, IH. }
  split; [|split; [by rewrite Hd; vm_compute|by vm_compute]].
  intros k. rewrite Hd.
  assert (Hall : forall k, default ProviderKind.Custom
      (find (fun k' => bool_decide (kind_as_str k ∈ documented_kebab k' :: ProviderKind.serde_aliases k'))
        ProviderKind.ALL)
    = if decide (k = ProviderKind.LongCat) then ProviderKind.Custom else k)
    by (intros []; vm_compute; reflexivity).
  rewrite Hall. case_decide; [subst; by split; [|intros []]|by split].
Qed.

(** A renaming with the documented values. *)
Definition example_rename (s : str) : str :=
  default s (documented_kebab <$> find (fun k => bool_decide (ProviderKind.variant_name k = s)) ProviderKind.ALL).

Lemma canonical_ids_deserialize_except_longcat_witness :
  (forall k, deserialize_root_provider example_rename (kind_as_str k) = k <-> k <> ProviderKind.LongCat) /\
  deserialize_root_provider example_rename $"longcat" = ProviderKind.Custom /\
  parse_kind $"longcat" = Some ProviderKind.LongCat.
Proof.
  apply (canonical_ids_deserialize_except_longcat example_rename).
  intros k; destruct k; vm_compute; reflexivity.
Defined.

(** ** The fallback chain *)

(** The kinds [advance] yields until it answers [None]. *)
Fixpoint drain (fuel : nat) (c : ProviderChain) : list ProviderKind :=
  match fuel with
  | 0%nat => []
  | S fuel => match advance c with (c', Some k) => k :: drain fuel c' | (_, None) => [] end
  end.

Lemma chain_providers (active : ProviderKind) (fallbacks acc : list ProviderKind) :
  NoDup (active :: acc) ->
  exists rest,
    fold_left (fun ps f => if bool_decide (f <> active) && negb (bool_decide (f ∈ ps))
                           then ps ++ [f] else ps) fallbacks (active :: acc) = active :: acc ++ rest /\
    NoDup (active :: acc ++ rest) /\
    forall k, k ∈ active :: acc ++ rest <-> k ∈ active :: acc \/ k ∈ fallbacks.
Proof.
  revert acc. induction fallbacks as [|f fs IH]; intros acc Hnd; cbn [fold_left].
  - exists []. rewrite app_nil_r. split_and!; [done..|]. intros k. set_solver.
  - destruct (bool_decide (f <> active) && negb (bool_decide (f ∈ active :: acc))) eqn:E.
    + apply andb_true_iff in E as [_ Hf%negb_true_iff%bool_decide_eq_false].
      destruct (IH (acc ++ [f])) as (rest & Hr & Hnd' & Hin).
      { change (NoDup ((active :: acc) ++ [f])). apply NoDup_app. split_and!; [done| |apply NoDup_singleton].
        intros x Hx. rewrite list_elem_of_singleton. by intros ->. }
      exists (f :: rest). change ((active :: acc) ++ [f]) with (active :: acc ++ [f]).
      rewrite Hr. rewrite <- !app_assoc in *. split_and!; [done..|].
      intros k. rewrite Hin. set_solver.
    + destruct (IH acc Hnd) as (rest & Hr & Hnd' & Hin). exists rest. split_and!; [done..|].
      intros k. rewrite Hin. assert (f ∈ active :: acc); [|set_solver].
      apply andb_false_iff in E as [E|E].
      * apply bool_decide_eq_false in E. destruct (decide (f = active)) as [->|]; [set_solver|done].
      * by apply negb_false_iff, bool_decide_eq_true in E.
Qed.

Lemma drain_from ps n fuel :
  (n < length ps)%nat -> (length ps <= fuel + n)%nat ->
  drain fuel {| providers := ps; position := n |} = drop (S n) ps.
Proof.
  revert n. induction fuel as [|fuel IH]; intros n Hn Hf; [lia|].
  cbn [drain]. unfold advance, has_next. cbn [position providers].
  destruct (S n <? length ps)%nat eqn:E.
  - apply Nat.ltb_lt in E. rewrite IH by lia. unfold current. cbn [position providers].
    destruct (ps !! S n) as [k|] eqn:Hk; [|by apply lookup_ge_None in Hk; lia].
    by rewrite (drop_S _ _ _ Hk).
  - apply Nat.ltb_ge in E. by rewrite drop_ge by lia.
Qed.

(** the fallback chain starts at the active provider and offers every other
    configured fallback exactly once, in order; [advance] then answers [None],
    whatever duplicates the configuration lists. *)
Theorem provider_chain_visits_each_once active fallbacks :
  let c := new_chain active fallbacks in
  current c = active /\
  NoDup (providers c) /\
  (forall k, k ∈ providers c <-> k = active \/ k ∈ fallbacks) /\
  providers c = active :: drain (length (providers c)) c /\
  remaining c = zlen (providers c) /\
  (forall c' k, advance c = (c', Some k) -> remaining c' = remaining c - 1 /\ reset c' = c).
Proof.
  destruct (chain_providers active fallbacks []) as (rest & Hr & Hnd & Hin); [apply NoDup_singleton|].
  assert (Hp : providers (new_chain active fallbacks) = active :: rest) by exact Hr.
  cbv zeta. split; [unfold current; by rewrite Hp|]. rewrite Hp.
  split; [done|]. split; [intros k; rewrite (Hin k); set_solver|]. split.
  - assert (Hc : new_chain active fallbacks = {| providers := active :: rest; position := 0 |})
      by (unfold new_chain in *; cbn [providers] in Hp; by rewrite Hp).
    rewrite Hc, drain_from by (cbn [length]; lia). done.
  - unfold remaining. rewrite Hp. split; [cbn [position new_chain]; lia|].
    intros c' k. unfold advance. destruct (has_next _); [|done]. intros [= <- _].
    unfold reset. cbn [providers position new_chain]. split; [|done].
    unfold new_chain in Hp. cbn [providers] in Hp. rewrite Hp. lia.
Qed.

(** ** Exact routes *)

(** an exact route is the endpoint and nothing near it: the trimmed URL is
    [https] and the authority up to ASCII case, then exactly the path, with at
    most one trailing slash; and a URL is exact for one endpoint only. *)
Theorem exact_route_is_exact base_url authority path :
  is_exact_https_route base_url authority path = true ->
  (exists scheme host,
     (trim base_url = scheme ++ $"://" ++ host ++ $"/" ++ path \/
      trim base_url = scheme ++ $"://" ++ host ++ $"/" ++ path ++ $"/") /\
     to_ascii_lowercase scheme = $"https" /\
     to_ascii_lowercase host = to_ascii_lowercase authority) /\
  (forall authority' path', is_exact_https_route base_url authority' path' = true ->
     path' = path /\ to_ascii_lowercase authority' = to_ascii_lowercase authority).
Proof.
  unfold is_exact_https_route, eq_ignore_ascii_case.
  set (normalized := default (trim base_url) _).
  destruct (split_once $"://" normalized) as [[scheme rest]|] eqn:E1; [|done].
  destruct (split_once $"/" rest) as [[host p]|] eqn:E2; [|done].
  rewrite !andb_true_iff, !bool_decide_eq_true. intros [[Hs Hh] Hp]. subst p. split.
  - exists scheme, host. split; [|by rewrite Hs, Hh].
    apply split_once_Some in E1, E2.
    assert (Hn : trim base_url = normalized \/ trim base_url = normalized ++ $"/").
    { unfold normalized. destruct (strip_suffix $"/" (trim base_url)) as [t|] eqn:Et; [right|by left].
      by apply strip_suffix_Some in Et. }
    rewrite E1, E2 in Hn. destruct Hn as [Hn|Hn]; [by left|right]. rewrite Hn. by rewrite <- !app_assoc.
  - intros a' p'. rewrite !andb_true_iff, !bool_decide_eq_true. intros [[_ Ha] ->]. split; congruence.
Qed.

Lemma exact_route_is_exact_witness :
  (exists scheme host,
     (trim $" HTTPS://API.Z.AI/api/paas/v4/ " = scheme ++ $"://" ++ host ++ $"/" ++ $"api/paas/v4" \/
      trim $" HTTPS://API.Z.AI/api/paas/v4/ " = scheme ++ $"://" ++ host ++ $"/" ++ $"api/paas/v4" ++ $"/") /\
     to_ascii_lowercase scheme = $"https" /\
     to_ascii_lowercase host = to_ascii_lowercase $"api.z.ai") /\
  (forall authority' path', is_exact_https_route $" HTTPS://API.Z.AI/api/paas/v4/ " authority' path' = true ->
     path' = $"api/paas/v4" /\ to_ascii_lowercase authority' = to_ascii_lowercase $"api.z.ai").
Proof. apply exact_route_is_exact. vm_compute. reflexivity. Defined.
