(* ===== verification/WorkModel.v ===== *)
(** * The work graph: identifiers, data model and change vocabulary

    [crates/tui/src/work_graph/ids.rs], [model.rs] and [events.rs].  Values are
    plain data; the reducer ([WorkReducer]) is the only code that changes a
    snapshot.  Record fields carry a prefix where the source reuses a field
    name in several structs; the fields of [WorkGraphSnapshot] do not. *)

From S2P Require Import Text.
From S2P Require Providers.
#[export] Existing Instances Providers.ProviderKind.ProviderKind_eq_dec
  Providers.ApiProvider.ApiProvider_eq_dec.

Abbreviation ApiProvider := Providers.ApiProvider.

(** ** Code outside the repository

    SHA-256, URL and RFC 3339 parsing are third-party crates, and the Unicode
    tables behind [{:?}] are generated data of the standard library. *)

Record Url := {
  scheme : str; host_str : option str; username : str; password : option str;
  query_pairs : list (str * str) }.

Class Externs := {
  Sha256_digest : list N -> list N;
  Url_parse : str -> option Url;
  parse_from_rfc3339_ok : str -> bool;
  (** [is_printable(c) && !c.is_grapheme_extended()]. *)
  prints_as_itself : char -> bool }.

(** ** [core::fmt::Debug] for strings *)

Definition hex_digit (n : N) : char := if (n <? 10)%N then (48 + n)%N else (87 + n)%N.

Fixpoint hex_go (fuel : nat) (n : N) (acc : str) : str :=
  match fuel with
  | 0%nat => acc
  | S fuel =>
      let acc := hex_digit (n mod 16) :: acc in
      if (n <? 16)%N then acc else hex_go fuel (n / 16) acc
  end.

(** A scalar value has at most six hexadecimal digits. *)
Definition lower_hex (n : N) : str := hex_go 6 n [].

Definition escape_debug_char `{Externs} (c : char) : str :=
  if N.eqb c 0 then $"\0"
  else if N.eqb c 9 then $"\t"
  else if N.eqb c 13 then $"\r"
  else if N.eqb c 10 then $"\n"
  else if N.eqb c 92 then $"\\"
  else if N.eqb c 34 then [92%N; 34%N]
  else if prints_as_itself c then [c]
  else $"\u{" ++ lower_hex c ++ $"}".

Definition debug_str `{Externs} (s : str) : str := [34%N] ++ (s ≫= escape_debug_char) ++ [34%N].

(** ** Identifiers ([ids.rs], [hashing.rs]) *)

Definition hex_bytes (bytes : list N) : str := bytes ≫= fun b => [hex_digit (b / 16); hex_digit (b mod 16)].

Definition sha256_hex `{Externs} (bytes : list N) : str := hex_bytes (Sha256_digest bytes).

Definition unit_separator : str := [0x1F%N].

(** The text that is hashed. *)
Definition id_preimage (prefix session_id discriminator : str) : str :=
  prefix ++ unit_separator ++ session_id ++ unit_separator ++ discriminator.

Definition derive_raw `{Externs} (prefix session_id discriminator : str) : str :=
  prefix ++ take 12 (sha256_hex (as_bytes (id_preimage prefix session_id discriminator))).

Abbreviation WorkNodeId := (list N) (only parsing).
Abbreviation WorkEdgeId := (list N) (only parsing).
Abbreviation ChangeId := (list N) (only parsing).
Abbreviation ProposalId := (list N) (only parsing).
Abbreviation BindingId := (list N) (only parsing).

Definition WorkNodeId_derive `{Externs} (session_id discriminator : str) : WorkNodeId :=
  derive_raw $"wn:" session_id discriminator.
Definition WorkEdgeId_derive `{Externs} (session_id discriminator : str) : WorkEdgeId :=
  derive_raw $"we:" session_id discriminator.
Definition ChangeId_derive `{Externs} (session_id discriminator : str) : ChangeId :=
  derive_raw $"ch:" session_id discriminator.
Definition ProposalId_derive `{Externs} (session_id discriminator : str) : ProposalId :=
  derive_raw $"pp:" session_id discriminator.
Definition BindingId_derive `{Externs} (session_id discriminator : str) : BindingId :=
  derive_raw $"bd:" session_id discriminator.

(** ** Enumerations ([model.rs]) *)

(** Milliseconds since the epoch, an [i64]. *)
Definition Ts := Z.

Definition SCHEMA_VERSION : Z := 1.
Definition HISTORY_CAP : nat := 256.
Definition ACTIVITY_CAP : nat := 256.
Definition SEEN_KEYS_CAP : nat := Z.to_nat 1024.

Module ReasoningEffortTier.
Inductive ReasoningEffortTier : Set :=
| Off | Low | Medium | High | Auto | Max
| ThinkingEnabledGranularityUnavailable
| Unavailable.

#[export] Instance ReasoningEffortTier_eq_dec : EqDecision ReasoningEffortTier.
Proof. solve_decision. Defined.
End ReasoningEffortTier.
Export (hints) ReasoningEffortTier.
Abbreviation ReasoningEffortTier := ReasoningEffortTier.ReasoningEffortTier.

Module NodeKind.
Inductive NodeKind : Set :=
| Objective | PlanStep | Operation | Evidence | Blocker | Approval | RuntimeRef | LaneRef.

#[export] Instance NodeKind_eq_dec : EqDecision NodeKind.
Proof. solve_decision. Defined.
End NodeKind.
Export (hints) NodeKind.
Abbreviation NodeKind := NodeKind.NodeKind.

Module EdgeKind.
Inductive EdgeKind : Set :=
| Contains | DependsOn | Blocks | Produces | Verifies | RunsOn | RequiresApproval | Supersedes.

#[export] Instance EdgeKind_eq_dec : EqDecision EdgeKind.
Proof. solve_decision. Defined.
End EdgeKind.
Export (hints) EdgeKind.
Abbreviation EdgeKind := EdgeKind.EdgeKind.

Module NodeState.
Inductive NodeState : Set :=
| Ready | Initializing | Active | Waiting | Blocked | Completed | Verified | Stale
| Superseded | Cancelled | Failed.

#[export] Instance NodeState_eq_dec : EqDecision NodeState.
Proof. solve_decision. Defined.

Definition is_terminal (s : NodeState) : bool :=
  match s with Verified | Superseded | Cancelled => true | _ => false end.

Definition is_live (s : NodeState) : bool :=
  match s with Initializing | Active | Waiting => true | _ => false end.

(** The derived [Debug]. *)
Definition debug (s : NodeState) : str :=
  match s with
  | Ready => $"Ready" | Initializing => $"Initializing" | Active => $"Active"
  | Waiting => $"Waiting" | Blocked => $"Blocked" | Completed => $"Completed"
  | Verified => $"Verified" | Stale => $"Stale" | Superseded => $"Superseded"
  | Cancelled => $"Cancelled" | Failed => $"Failed"
  end.
End NodeState.
Export (hints) NodeState.
Abbreviation NodeState := NodeState.NodeState.

Module EvidenceKindTag.
Inductive EvidenceKindTag : Set :=
| ToolRun | Artifact | TestSummary | Receipt | Approval | Route | WebCitation.

#[export] Instance EvidenceKindTag_eq_dec : EqDecision EvidenceKindTag.
Proof. solve_decision. Defined.

Definition debug (t : EvidenceKindTag) : str :=
  match t with
  | ToolRun => $"ToolRun" | Artifact => $"Artifact" | TestSummary => $"TestSummary"
  | Receipt => $"Receipt" | Approval => $"Approval" | Route => $"Route"
  | WebCitation => $"WebCitation"
  end.
End EvidenceKindTag.
Export (hints) EvidenceKindTag.
Abbreviation EvidenceKindTag := EvidenceKindTag.EvidenceKindTag.

Module EvidenceKind.
Inductive EvidenceKind : Set :=
| ToolRun
| Artifact (digest : str)
| TestSummary
| Receipt (owner : str)
| Approval
| Route
| WebCitation (ref_id url retrieved_at : str).

#[export] Instance EvidenceKind_eq_dec : EqDecision EvidenceKind.
Proof. solve_decision. Defined.

Definition tag (k : EvidenceKind) : EvidenceKindTag :=
  match k with
  | ToolRun => EvidenceKindTag.ToolRun
  | Artifact _ => EvidenceKindTag.Artifact
  | TestSummary => EvidenceKindTag.TestSummary
  | Receipt _ => EvidenceKindTag.Receipt
  | Approval => EvidenceKindTag.Approval
  | Route => EvidenceKindTag.Route
  | WebCitation _ _ _ => EvidenceKindTag.WebCitation
  end.
End EvidenceKind.
Export (hints) EvidenceKind.
Abbreviation EvidenceKind := EvidenceKind.EvidenceKind.

(** ** Evidence references *)

Inductive EvidenceRefError :=
| EmptyReference
| ReferenceTooLong (len : Z)
| AbsolutePath
| HomeRelativePath
| ContainsWhitespaceOrControl
| LooksLikeKeyMaterial
| WebCitationReferenceMismatch
| InvalidWebCitationUrl
| InvalidWebCitationTimestamp.

Definition EVIDENCE_REFERENCE_MAX_LEN : Z := 512.

Definition sensitive_query_name (name : str) : bool :=
  let name := to_ascii_lowercase name in
  Providers.is_one_of name
    [$"access_token"; $"api_key"; $"authorization"; $"auth"; $"credential"; $"key"; $"session";
     $"session_id"; $"sig"; $"signature"; $"token"; $"x-amz-credential"; $"x-amz-signature";
     $"x-goog-credential"; $"x-goog-signature"]
  || ends_with $"_token" name || ends_with $"_key" name.

Definition web_citation_url_has_sensitive_query (url : Url) : bool :=
  existsb (fun pair => sensitive_query_name pair.1) (query_pairs url).

Record EvidenceRef := {
  ref_kind : EvidenceKind; ref_reference : str; ref_raw_bytes : option Z; ref_truncated : bool }.

#[export] Instance EvidenceRef_eq_dec : EqDecision EvidenceRef.
Proof. solve_decision. Defined.

(** [X:/] and [X:\] paths, on the UTF-8 bytes. *)
Definition drive_absolute (reference : str) : bool :=
  match as_bytes reference with
  | a :: b :: c :: _ =>
      is_ascii_alphabetic a && N.eqb b (chr ":") && (N.eqb c (chr "/") || N.eqb c (chr "\"))
  | _ => false
  end.

Definition web_citation_url_ok `{Externs} (url : str) : bool :=
  match Url_parse url with
  | Some u =>
      Providers.is_one_of (scheme u) [$"http"; $"https"]
      && bool_decide (is_Some (host_str u))
      && (str_is_empty (username u) && bool_decide (password u = None))
      && negb (web_citation_url_has_sensitive_query u)
  | None => false
  end.

(** [EvidenceRef::new]; deserialization goes through it. *)
Definition EvidenceRef_new `{Externs} (kind : EvidenceKind) (reference : str)
  (raw_bytes : option Z) (truncated : bool) : result EvidenceRefError EvidenceRef :=
  reject_if (str_is_empty reference) EmptyReference;;
  reject_if (EVIDENCE_REFERENCE_MAX_LEN <? char_count reference) (ReferenceTooLong (char_count reference));;
  let first := default 0%N (head reference) in
  reject_if (N.eqb first (chr "/") || N.eqb first (chr "\") || drive_absolute reference) AbsolutePath;;
  reject_if (N.eqb first (chr "~")) HomeRelativePath;;
  reject_if (existsb (fun c => is_whitespace c || is_control c) reference) ContainsWhitespaceOrControl;;
  reject_if (str_contains $"-----BEGIN" reference) LooksLikeKeyMaterial;;
  match kind with
  | EvidenceKind.WebCitation ref_id url retrieved_at =>
      reject_if (bool_decide (ref_id <> reference)) WebCitationReferenceMismatch;;
      reject_if (negb (web_citation_url_ok url)) InvalidWebCitationUrl;;
      reject_if (negb (parse_from_rfc3339_ok retrieved_at)) InvalidWebCitationTimestamp
  | _ => Ok tt
  end;;
  Ok {| ref_kind := kind; ref_reference := reference; ref_raw_bytes := raw_bytes;
        ref_truncated := truncated |}.

Inductive AcceptanceRequirement := EvidenceOfKind (kind : EvidenceKindTag).

#[export] Instance AcceptanceRequirement_eq_dec : EqDecision AcceptanceRequirement.
Proof. solve_decision. Defined.

Definition is_satisfied_by (r : AcceptanceRequirement) (evidence : EvidenceRef) : bool :=
  match r with EvidenceOfKind kind => bool_decide (EvidenceKind.tag (ref_kind evidence) = kind) end.

Definition requirement_debug (r : AcceptanceRequirement) : str :=
  match r with EvidenceOfKind kind => $"EvidenceOfKind { kind: " ++ EvidenceKindTag.debug kind ++ $" }" end.

(** ** Nodes and edges *)

Inductive Provenance :=
| Import_ (source_digest : str) (ordinal : option Z)
| ToolUpdate (tool call_id : str)
| RuntimeReconcile (source : str) (observed_at : Ts)
| UserEdit (proposal_id : ProposalId).

#[export] Instance Provenance_eq_dec : EqDecision Provenance.
Proof. unfold Ts. solve_decision. Defined.

Module OwnerState.
Inductive OwnerState : Set := Initializing | Running | Waiting | Completed | Failed | Cancelled.

#[export] Instance OwnerState_eq_dec : EqDecision OwnerState.
Proof. solve_decision. Defined.
End OwnerState.
Export (hints) OwnerState.
Abbreviation OwnerState := OwnerState.OwnerState.

(** [events.rs]: the last observation stored on a binding. *)
Record ObservationSummary := {
  obs_owner_state : OwnerState; obs_seq : Z; obs_observed_at : Ts; obs_output : option EvidenceRef }.

#[export] Instance ObservationSummary_eq_dec : EqDecision ObservationSummary.
Proof. unfold Ts. solve_decision. Defined.

Record OperationBinding := {
  external : str; durable : bool; last_observation : option ObservationSummary }.

#[export] Instance OperationBinding_eq_dec : EqDecision OperationBinding.
Proof. solve_decision. Defined.

Definition plain_identity (i : str) : bool :=
  negb (str_is_empty i) && negb (existsb (fun c => is_whitespace c || is_control c) i).

Definition external_identity_is_well_formed (external : str) : bool :=
  match strip_prefix $"fleet:" external with
  | Some rest =>
      match split_once $"/" rest with
      | Some (run, task) => plain_identity run && plain_identity task
      | None => false
      end
  | None =>
      existsb (fun prefix => match strip_prefix prefix external with
                             | Some rest => plain_identity rest
                             | None => false
                             end)
        [$"task:"; $"shell:"; $"worker:"; $"workflow:"; $"lane:"]
  end.

Record WorkNode := {
  node_id : WorkNodeId; node_kind : NodeKind; node_title : str; node_state : NodeState;
  node_acceptance : list AcceptanceRequirement; node_binding : option OperationBinding;
  node_evidence : option EvidenceRef; node_provenance : Provenance;
  node_created_at : Ts; node_updated_at : Ts }.

Record WorkEdge := {
  edge_id : WorkEdgeId; edge_kind : EdgeKind; edge_from : WorkNodeId; edge_to : WorkNodeId }.

(** ** Legacy Plan and To-do presentation *)

Record CompatPlanMetadata := {
  cp_title : option str; cp_objective : option str; cp_context_summary : option str;
  cp_explanation : option str; cp_sources_used : list str; cp_critical_files : list str;
  cp_constraints : list str; cp_recommended_approach : option str;
  cp_verification_plan : option str; cp_risks_and_unknowns : option str;
  cp_handoff_packet : option str }.

Record CompatTodoBinding := { legacy_id : Z; todo_node : WorkNodeId; plan_index : option Z }.

Record CompatProjectionState := {
  compat_plan : CompatPlanMetadata; plan_order : list WorkNodeId; todos : list CompatTodoBinding }.

Definition default_compat : CompatProjectionState :=
  {| compat_plan := {| cp_title := None; cp_objective := None; cp_context_summary := None;
       cp_explanation := None; cp_sources_used := []; cp_critical_files := []; cp_constraints := [];
       cp_recommended_approach := None; cp_verification_plan := None;
       cp_risks_and_unknowns := None; cp_handoff_packet := None |};
     plan_order := []; todos := [] |}.

Definition opt_is_none {A} (o : option A) : bool := match o with None => true | Some _ => false end.
Definition is_nil {A} (l : list A) : bool := match l with [] => true | _ => false end.

Definition plan_metadata_is_empty (m : CompatPlanMetadata) : bool :=
  opt_is_none (cp_title m) && opt_is_none (cp_objective m) && opt_is_none (cp_context_summary m)
  && opt_is_none (cp_explanation m) && is_nil (cp_sources_used m) && is_nil (cp_critical_files m)
  && is_nil (cp_constraints m) && opt_is_none (cp_recommended_approach m)
  && opt_is_none (cp_verification_plan m) && opt_is_none (cp_risks_and_unknowns m)
  && opt_is_none (cp_handoff_packet m).

Definition compat_is_empty (c : CompatProjectionState) : bool :=
  plan_metadata_is_empty (compat_plan c) && is_nil (plan_order c) && is_nil (todos c).

(** ** Bounded containers *)

Record IdempotencyKey := { key_binding : BindingId; key_seq : Z }.

#[export] Instance IdempotencyKey_eq_dec : EqDecision IdempotencyKey.
Proof. solve_decision. Defined.

(** [BoundedVec::push_bounded]: the oldest item is evicted at capacity. *)
Definition push_bounded {A} (cap : nat) (items : list A) (item : A) : list A :=
  (if (cap <=? length items)%nat then tail items else items) ++ [item].

(** [BoundedSet::insert]; the boolean says the item is new. *)
Definition insert_bounded `{EqDecision A} (cap : nat) (items : list A) (item : A) : list A * bool :=
  if bool_decide (item ∈ items) then (items, false)
  else ((if (cap <=? length items)%nat then tail items else items) ++ [item], true).

(** ** Activities *)

Record WorkActivityEvent := ReasoningEffortChanged {
  act_requested : ReasoningEffortTier; act_effective : ReasoningEffortTier;
  act_provider_kind : option ApiProvider; act_provider : str;
  act_endpoint_identity : option str; act_model : option str; act_ts : Ts;
  act_operation : option WorkNodeId }.

(** [Deserialize for WorkActivityEvent]: a receipt without its route cannot keep
    a claimed tier. *)
Definition activity_of_wire (w : WorkActivityEvent) : WorkActivityEvent :=
  {| act_requested := act_requested w;
     act_effective :=
       if opt_is_none (act_provider_kind w) || opt_is_none (act_endpoint_identity w)
          || opt_is_none (act_model w)
       then ReasoningEffortTier.Unavailable else act_effective w;
     act_provider_kind := act_provider_kind w; act_provider := act_provider w;
     act_endpoint_identity := act_endpoint_identity w; act_model := act_model w;
     act_ts := act_ts w; act_operation := act_operation w |}.

Section constrained.
Import ReasoningEffortTier.

(** [Off | Auto => requested, _ => ThinkingEnabledGranularityUnavailable]. *)
Definition toggle_only (requested : ReasoningEffortTier) : ReasoningEffortTier :=
  match requested with
  | Off | Auto => requested
  | _ => ThinkingEnabledGranularityUnavailable
  end.

Definition constrained_effective_reasoning_for_route (requested : ReasoningEffortTier)
  (provider : ApiProvider) (endpoint_identity model : str) : option ReasoningEffortTier :=
  if bool_decide (provider = Providers.ApiProvider.Zai) then
    if negb (Providers.api_is_exact_zai_chat_route provider endpoint_identity) then Some Unavailable
    else if Providers.is_exact_zai_glm_5_2_route provider endpoint_identity model
    then Some (match requested with Low | Medium => High | other => other end)
    else if Providers.is_exact_known_zai_reasoning_route provider endpoint_identity model
    then Some (toggle_only requested)
    else Some Unavailable
  else if bool_decide (provider = Providers.ApiProvider.Minimax) then
    if Providers.is_exact_minimax_m3_route provider endpoint_identity model
    then Some (toggle_only requested) else Some Unavailable
  else if bool_decide (provider = Providers.ApiProvider.MinimaxAnthropic) then
    if Providers.is_exact_minimax_anthropic_m3_route provider endpoint_identity model
    then Some (toggle_only requested) else Some Unavailable
  else if bool_decide (provider = Providers.ApiProvider.Custom) then Some Unavailable
  else if Providers.is_exact_kimi_code_k3_route provider endpoint_identity model
  then Some (match requested with Off => Low | other => other end)
  else if Providers.is_exact_direct_moonshot_k3_route provider endpoint_identity model
  then Some (match requested with Off => Low | Medium => High | other => other end)
  else None.
End constrained.

(** ** Changes and receipts ([events.rs]) *)

Record WorkNodePatch := {
  patch_title : option str; patch_state : option NodeState;
  patch_acceptance : option (list AcceptanceRequirement); patch_provenance : option Provenance }.

Record ProposedNodeUpdate := { update_id : WorkNodeId; update_patch : WorkNodePatch }.

Record WorkGraphProposal := {
  proposal_id : ProposalId; added_nodes : list WorkNode; added_edges : list WorkEdge;
  updated_nodes : list ProposedNodeUpdate; removed_nodes : list WorkNodeId;
  removed_edges : list WorkEdgeId; replacement_compat : option CompatProjectionState }.

Record ApprovalRef := { approval_reference : str }.

Module CancelOutcome.
Inductive CancelOutcome : Set :=
| Requested | Acknowledged | Forced | AlreadyFinished | NotFound | StaleUnknown.
End CancelOutcome.
Abbreviation CancelOutcome := CancelOutcome.CancelOutcome.

Inductive OperationObservation :=
| OwnerReported (state : OwnerState) (seq : Z) (at_ : Ts) (output : option EvidenceRef)
| OwnerMissing (checked_at : Ts)
| CancelUpdate (outcome : CancelOutcome) (at_ : Ts).

Inductive WorkGraphChange :=
| AddNode (node : WorkNode)
| UpdateNode (id : WorkNodeId) (patch : WorkNodePatch)
| AddEdge (edge : WorkEdge)
| RemoveEdge (id : WorkEdgeId)
| BindOperation (node : WorkNodeId) (binding : OperationBinding)
| ReconcileOperation (node : WorkNodeId) (obs : OperationObservation)
| AttachEvidence (node : WorkNodeId) (evidence : EvidenceRef)
| ProposePlanDiff (proposal : WorkGraphProposal)
| WithdrawPlanDiff (proposal_id : ProposalId)
| AcceptPlanDiff (proposal_id : ProposalId) (approval : ApprovalRef)
| Supersede (old replacement : WorkNodeId)
| ReplaceCompatProjection (compat : CompatProjectionState)
| SetImportDigest (digest : str)
| RecordActivity (event : WorkActivityEvent).

Definition kind_name (change : WorkGraphChange) : str :=
  match change with
  | AddNode _ => $"add_node"
  | UpdateNode _ _ => $"update_node"
  | AddEdge _ => $"add_edge"
  | RemoveEdge _ => $"remove_edge"
  | BindOperation _ _ => $"bind_operation"
  | ReconcileOperation _ _ => $"reconcile_operation"
  | AttachEvidence _ _ => $"attach_evidence"
  | ProposePlanDiff _ => $"propose_plan_diff"
  | WithdrawPlanDiff _ => $"withdraw_plan_diff"
  | AcceptPlanDiff _ _ => $"accept_plan_diff"
  | Supersede _ _ => $"supersede"
  | ReplaceCompatProjection _ => $"replace_compat_projection"
  | SetImportDigest _ => $"set_import_digest"
  | RecordActivity _ => $"record_activity"
  end.

Record ChangeCtx := { session_id : str; now : Ts; idempotency_key : option IdempotencyKey }.

Record ChangeReceipt := {
  change_id : ChangeId; receipt_revision : Z; summary : str; applied_at : Ts;
  receipt_key : option IdempotencyKey; no_op : bool }.

(** [ChangeReceipt::of]. *)
Definition receipt_of `{Externs} (change : WorkGraphChange) (revision : Z) (ctx : ChangeCtx)
  : ChangeReceipt :=
  {| change_id := ChangeId_derive (session_id ctx)
       ($"change:" ++ display_u revision ++ $":" ++ kind_name change);
     receipt_revision := revision; summary := kind_name change; applied_at := now ctx;
     receipt_key := idempotency_key ctx; no_op := false |}.

(** ** The snapshot *)

Record WorkGraphSnapshot := {
  schema : Z; revision : Z; nodes : list WorkNode; edges : list WorkEdge;
  history : list ChangeReceipt; activities : list WorkActivityEvent;
  import_digest : option str; seen_keys : list IdempotencyKey;
  proposals : list WorkGraphProposal; compat : CompatProjectionState }.

(** [WorkGraphSnapshot::new]. *)
Definition new : WorkGraphSnapshot :=
  {| schema := SCHEMA_VERSION; revision := 0; nodes := []; edges := []; history := [];
     activities := []; import_digest := None; seen_keys := []; proposals := [];
     compat := default_compat |}.

(** [WorkGraphSnapshot::node] and [edge]: the first with that identifier. *)
Definition node (g : WorkGraphSnapshot) (id : WorkNodeId) : option WorkNode :=
  find (fun n => bool_decide (node_id n = id)) (nodes g).

Definition edge (g : WorkGraphSnapshot) (id : WorkEdgeId) : option WorkEdge :=
  find (fun e => bool_decide (edge_id e = id)) (edges g).

Definition node_is_done (n : WorkNode) : bool :=
  match node_state n with
  | NodeState.Verified => true
  | NodeState.Completed => is_nil (node_acceptance n)
  | _ => false
  end.

Definition snapshot_is_empty (g : WorkGraphSnapshot) : bool :=
  is_nil (nodes g) && is_nil (edges g) && is_nil (history g) && is_nil (activities g)
  && opt_is_none (import_digest g) && is_nil (proposals g) && compat_is_empty (compat g).

(** Field updates. *)
Definition with_nodes (g : WorkGraphSnapshot) (v : list WorkNode) : WorkGraphSnapshot :=
  {| schema := schema g; revision := revision g; nodes := v; edges := edges g;
     history := history g; activities := activities g; import_digest := import_digest g;
     seen_keys := seen_keys g; proposals := proposals g; compat := compat g |}.
Definition with_edges (g : WorkGraphSnapshot) (v : list WorkEdge) : WorkGraphSnapshot :=
  {| schema := schema g; revision := revision g; nodes := nodes g; edges := v;
     history := history g; activities := activities g; import_digest := import_digest g;
     seen_keys := seen_keys g; proposals := proposals g; compat := compat g |}.
Definition with_activities (g : WorkGraphSnapshot) (v : list WorkActivityEvent) : WorkGraphSnapshot :=
  {| schema := schema g; revision := revision g; nodes := nodes g; edges := edges g;
     history := history g; activities := v; import_digest := import_digest g;
     seen_keys := seen_keys g; proposals := proposals g; compat := compat g |}.
Definition with_import_digest (g : WorkGraphSnapshot) (v : option str) : WorkGraphSnapshot :=
  {| schema := schema g; revision := revision g; nodes := nodes g; edges := edges g;
     history := history g; activities := activities g; import_digest := v;
     seen_keys := seen_keys g; proposals := proposals g; compat := compat g |}.
Definition with_proposals (g : WorkGraphSnapshot) (v : list WorkGraphProposal) : WorkGraphSnapshot :=
  {| schema := schema g; revision := revision g; nodes := nodes g; edges := edges g;
     history := history g; activities := activities g; import_digest := import_digest g;
     seen_keys := seen_keys g; proposals := v; compat := compat g |}.
Definition with_compat (g : WorkGraphSnapshot) (v : CompatProjectionState) : WorkGraphSnapshot :=
  {| schema := schema g; revision := revision g; nodes := nodes g; edges := edges g;
     history := history g; activities := activities g; import_digest := import_digest g;
     seen_keys := seen_keys g; proposals := proposals g; compat := v |}.
(** The last three statements of [apply]. *)
Definition with_receipt (g : WorkGraphSnapshot) (rev : Z) (h : list ChangeReceipt)
  (keys : list IdempotencyKey) : WorkGraphSnapshot :=
  {| schema := schema g; revision := rev; nodes := nodes g; edges := edges g;
     history := h; activities := activities g; import_digest := import_digest g;
     seen_keys := keys; proposals := proposals g; compat := compat g |}.

(** Replacing the first node with an identifier: an update through [node_mut]. *)
Fixpoint replace_node (id : WorkNodeId) (n' : WorkNode) (ns : list WorkNode) : list WorkNode :=
  match ns with
  | [] => []
  | n :: ns => if bool_decide (node_id n = id) then n' :: ns else n :: replace_node id n' ns
  end.
