(* ===== verification/WorkValidate.v ===== *)
(** * The work graph: whole-snapshot validation

    [crates/tui/src/work_graph/validate.rs].  Each check is the list of the
    violations it pushes, in order; [validate] concatenates them.  A [HashSet]
    is the list of its members.  The two graph searches take fuel; the lemmas of
    [WorkGraphs] show that the fuel given is always enough. *)

From S2P Require Import Text WorkModel.

Module ValidationCode.
Inductive ValidationCode : Set := Structural | V1 | V2 | V3 | V4 | V5 | V6 | V7 | V8 | V9 | V10.

#[export] Instance ValidationCode_eq_dec : EqDecision ValidationCode.
Proof. solve_decision. Defined.

Definition debug (c : ValidationCode) : str :=
  match c with
  | Structural => $"Structural" | V1 => $"V1" | V2 => $"V2" | V3 => $"V3" | V4 => $"V4"
  | V5 => $"V5" | V6 => $"V6" | V7 => $"V7" | V8 => $"V8" | V9 => $"V9" | V10 => $"V10"
  end.
End ValidationCode.
Export (hints) ValidationCode.
Abbreviation ValidationCode := ValidationCode.ValidationCode.

Record Violation := { code : ValidationCode; message : str }.
Record ValidationReport := { violations : list Violation }.

Definition single (c : ValidationCode) (m : str) : ValidationReport :=
  {| violations := [{| code := c; message := m |}] |}.

Definition contains_code (r : ValidationReport) (c : ValidationCode) : bool :=
  existsb (fun v => bool_decide (code v = c)) (violations r).

(** [Display for ValidationReport]. *)
Definition report_display (r : ValidationReport) : str :=
  $"work graph validation failed:"
  ++ (violations r ≫= fun v => $" [" ++ ValidationCode.debug (code v) ++ $"] " ++ message v ++ $";").

(** [if b { out.push(Violation { .. }) }]. *)
Definition push_if (b : bool) (c : ValidationCode) (m : str) : list Violation :=
  if b then [{| code := c; message := m |}] else [].

Abbreviation push_structural b m := (push_if b ValidationCode.Structural m).

(** ** Structure *)

Fixpoint check_nodes (node_ids : list WorkNodeId) (ns : list WorkNode) : list Violation :=
  match ns with
  | [] => []
  | n :: ns =>
      push_structural (bool_decide (node_id n ∈ node_ids)) ($"duplicate node id " ++ node_id n)
      ++ push_structural (negb (opt_is_none (node_evidence n)) && bool_decide (node_kind n <> NodeKind.Evidence))
           ($"node " ++ node_id n ++ $" carries evidence but is not an Evidence node")
      ++ check_nodes (node_id n :: node_ids) ns
  end.

Fixpoint check_edges (node_ids : list WorkNodeId) (edge_ids : list WorkEdgeId) (es : list WorkEdge)
  : list Violation :=
  match es with
  | [] => []
  | e :: es =>
      push_structural (bool_decide (edge_id e ∈ edge_ids)) ($"duplicate edge id " ++ edge_id e)
      ++ ([edge_from e; edge_to e] ≫= fun endpoint =>
            push_structural (bool_decide (endpoint ∉ node_ids))
              ($"edge " ++ edge_id e ++ $" references missing node " ++ endpoint))
      ++ check_edges node_ids (edge_id e :: edge_ids) es
  end.

Fixpoint check_plan_order (g : WorkGraphSnapshot) (plan_ids : list WorkNodeId) (ids : list WorkNodeId)
  : list Violation :=
  match ids with
  | [] => []
  | id :: ids =>
      push_structural (bool_decide (id ∈ plan_ids)) ($"duplicate plan projection node " ++ id)
      ++ (match node g id with
          | Some n =>
              push_structural (bool_decide (node_kind n <> NodeKind.PlanStep))
                ($"plan projection node " ++ id ++ $" is not a PlanStep")
          | None => push_structural true ($"plan projection references missing node " ++ id)
          end)
      ++ check_plan_order g (id :: plan_ids) ids
  end.

Fixpoint check_todos (g : WorkGraphSnapshot) (todo_ids : list Z) (bs : list CompatTodoBinding)
  : list Violation :=
  match bs with
  | [] => []
  | b :: bs =>
      push_structural ((legacy_id b =? 0) || bool_decide (legacy_id b ∈ todo_ids))
        ($"invalid or duplicate legacy To-do id " ++ display_u (legacy_id b))
      ++ (match node g (todo_node b) with
          | Some n =>
              push_structural (bool_decide (node_kind n <> NodeKind.PlanStep))
                ($"To-do projection " ++ display_u (legacy_id b) ++ $" node " ++ todo_node b
                 ++ $" is not a PlanStep")
          | None =>
              push_structural true
                ($"To-do projection " ++ display_u (legacy_id b) ++ $" references missing node "
                 ++ todo_node b)
          end)
      ++ (match plan_index b with
          | Some index =>
              push_structural (bool_decide (zget (plan_order (compat g)) index <> Some (todo_node b)))
                ($"To-do projection " ++ display_u (legacy_id b) ++ $" has an invalid plan alias")
          | None => []
          end)
      ++ check_todos g (if legacy_id b =? 0 then todo_ids else legacy_id b :: todo_ids) bs
  end.

(** The [active_todos] counter. *)
Definition active_todos (g : WorkGraphSnapshot) : nat :=
  length (retain (fun b => match node g (todo_node b) with
                           | Some n => bool_decide (node_state n = NodeState.Active)
                           | None => false
                           end) (todos (compat g))).

Definition bounded_text (limit : Z) (non_blank : str -> bool) (o : option str) : bool :=
  match o with
  | Some s => non_blank s && (char_count s <=? limit) && negb (existsb is_control s)
  | None => false
  end.

Definition provenance_is_bounded (a : WorkActivityEvent) : bool :=
  negb (opt_is_none (act_provider_kind a))
  && bounded_text 512 (fun s => negb (str_is_empty s)) (act_endpoint_identity a)
  && bounded_text 256 (fun s => negb (str_is_empty (trim s))) (act_model a).

Definition check_activity_operation (g : WorkGraphSnapshot) (a : WorkActivityEvent) : list Violation :=
  match act_operation a with
  | Some operation =>
      match node g operation with
      | Some n =>
          push_structural (bool_decide (node_kind n <> NodeKind.Operation))
            ($"activity operation " ++ operation ++ $" is not an Operation node")
      | None => push_structural true ($"activity references missing operation " ++ operation)
      end
  | None => []
  end.

(** The tier the recorded route forces, if it forces one. *)
Definition recorded_constraint (a : WorkActivityEvent) (api_provider : ApiProvider)
  : option ReasoningEffortTier :=
  if bool_decide (api_provider = Providers.ApiProvider.Custom)
  then Some ReasoningEffortTier.Unavailable
  else constrained_effective_reasoning_for_route (act_requested a) api_provider
         (default [] (act_endpoint_identity a)) (default [] (act_model a)).

Definition check_activity (g : WorkGraphSnapshot) (a : WorkActivityEvent) : list Violation :=
  push_structural
    (match act_requested a with
     | ReasoningEffortTier.ThinkingEnabledGranularityUnavailable
     | ReasoningEffortTier.Unavailable => true
     | _ => false
     end) $"requested reasoning effort is not an operator-selectable tier"
  ++ push_structural
       (str_is_empty (act_provider a) || (128 <? char_count (act_provider a))
        || existsb (fun ch => is_whitespace ch || is_control ch) (act_provider a))
       $"activity provider is not a bounded route identity"
  ++ (if negb (provenance_is_bounded a) then
        push_structural (bool_decide (act_effective a <> ReasoningEffortTier.Unavailable))
          $"activity without bounded route provenance must be effective unavailable"
        ++ check_activity_operation g a
      else
        match act_provider_kind a with
        | None => []
        | Some api_provider =>
            if bool_decide (api_provider <> Providers.ApiProvider.Custom)
               && bool_decide (act_provider a <> Providers.api_as_str api_provider)
            then push_structural true $"activity provider identity does not match its recorded kind"
            else
              (match recorded_constraint a api_provider with
               | Some expected =>
                   push_structural (bool_decide (act_effective a <> expected))
                     $"activity effective reasoning is impossible for its recorded route"
               | None =>
                   push_structural
                     (bool_decide (act_effective a = ReasoningEffortTier.ThinkingEnabledGranularityUnavailable))
                     $"granularity-unavailable receipt is not valid for this recorded route"
               end)
              ++ check_activity_operation g a
        end).

Definition check_structural (g : WorkGraphSnapshot) : list Violation :=
  push_structural (bool_decide (schema g <> SCHEMA_VERSION)) ($"unknown schema " ++ display_u (schema g))
  ++ check_nodes [] (nodes g)
  ++ check_edges (node_id <$> nodes g) [] (edges g)
  ++ check_plan_order g [] (plan_order (compat g))
  ++ check_todos g [] (todos (compat g))
  ++ push_structural (1 <? active_todos g)%nat
       $"legacy To-do projection has more than one active row"
  ++ push_structural (ACTIVITY_CAP <? length (activities g))%nat
       ($"activity length " ++ display_u (zlen (activities g)) ++ $" exceeds bound 256")
  ++ (activities g ≫= check_activity g).

(** ** V1: [DependsOn] is acyclic *)

(** [adjacency.get(node)], empty when absent. *)
Definition depends_on_targets (g : WorkGraphSnapshot) (id : WorkNodeId) : list WorkNodeId :=
  edge_to <$> retain (fun e => bool_decide (edge_kind e = EdgeKind.DependsOn)
                               && bool_decide (edge_from e = id)) (edges g).

(** The [done] and [in_progress] sets. *)
Record colors := { done_ : list WorkNodeId; in_progress : list WorkNodeId }.

(** [next.iter().all(..)], which stops at the first [false]. *)
Fixpoint visit_all (visit : WorkNodeId -> colors -> option (bool * colors))
  (next : list WorkNodeId) (c : colors) : option (bool * colors) :=
  match next with
  | [] => Some (true, c)
  | n :: next =>
      match visit n c with
      | Some (true, c) => visit_all visit next c
      | other => other
      end
  end.

Fixpoint visit (g : WorkGraphSnapshot) (fuel : nat) (n : WorkNodeId) (c : colors)
  : option (bool * colors) :=
  match fuel with
  | 0%nat => None
  | S fuel =>
      if bool_decide (n ∈ done_ c) then Some (true, c)
      else if bool_decide (n ∈ in_progress c) then Some (false, c)
      else
        match visit_all (visit g fuel) (depends_on_targets g n)
                {| done_ := done_ c; in_progress := n :: in_progress c |} with
        | Some (acyclic, c') =>
            Some (acyclic, {| done_ := n :: done_ c';
                              in_progress := base.filter (fun m => m <> n) (in_progress c') |})
        | None => None
        end
  end.

Fixpoint check_v1_from (g : WorkGraphSnapshot) (fuel : nat) (ns : list WorkNode) (c : colors)
  : option (list Violation) :=
  match ns with
  | [] => Some []
  | n :: ns =>
      match visit g fuel (node_id n) c with
      | None => None
      | Some (true, c) => check_v1_from g fuel ns c
      | Some (false, _) =>
          Some (push_if true ValidationCode.V1 ($"depends_on cycle reachable from node " ++ node_id n))
      end
  end.

(** Every open call but the last is for a source of a [DependsOn] edge. *)
Definition visit_fuel (g : WorkGraphSnapshot) : nat := S (S (length (edges g))).

Definition check_v1_depends_on_acyclic (g : WorkGraphSnapshot) : list Violation :=
  default [] (check_v1_from g (visit_fuel g) (nodes g) {| done_ := []; in_progress := [] |}).

(** ** V2: live operations are rooted *)

(** The parents an iteration pushes, in order. *)
Definition contains_parents (g : WorkGraphSnapshot) (current : WorkNodeId) : list WorkNode :=
  omap (fun e => if bool_decide (edge_kind e = EdgeKind.Contains) && bool_decide (edge_to e = current)
                 then node g (edge_from e) else None) (edges g).

Definition is_root_kind (n : WorkNode) : bool :=
  match node_kind n with NodeKind.Objective | NodeKind.PlanStep => true | _ => false end.

(** The [while let Some(current) = frontier.pop()] loop; the head of
    [frontier] is the end of the vector. *)
Fixpoint rooted_search (g : WorkGraphSnapshot) (fuel : nat) (visited frontier : list WorkNodeId)
  : option bool :=
  match fuel with
  | 0%nat => None
  | S fuel =>
      match frontier with
      | [] => Some false
      | current :: frontier =>
          if bool_decide (current ∈ visited) then rooted_search g fuel visited frontier
          else
            let parents := contains_parents g current in
            if existsb is_root_kind parents then Some true
            else rooted_search g fuel (current :: visited) (reverse (node_id <$> parents) ++ frontier)
      end
  end.

(** Every edge is pushed at most once. *)
Definition rooted_fuel (g : WorkGraphSnapshot) : nat := S (S (length (edges g))).

Definition is_rooted (g : WorkGraphSnapshot) (id : WorkNodeId) : bool :=
  default false (rooted_search g (rooted_fuel g) [] [id]).

Definition is_live_operation (n : WorkNode) : bool :=
  bool_decide (node_kind n = NodeKind.Operation) && NodeState.is_live (node_state n).

Definition check_v2_live_operations_rooted (g : WorkGraphSnapshot) : list Violation :=
  nodes g ≫= fun n =>
    if is_live_operation n then
      push_if (negb (is_rooted g (node_id n))) ValidationCode.V2
        ($"live operation " ++ node_id n ++ $" has no Objective/PlanStep ancestry")
    else [].

(** ** V3 to V8 *)

Definition check_v3_binding_only_on_operations (g : WorkGraphSnapshot) : list Violation :=
  nodes g ≫= fun n =>
    push_if (negb (opt_is_none (node_binding n)) && bool_decide (node_kind n <> NodeKind.Operation))
      ValidationCode.V3 ($"non-operation node " ++ node_id n ++ $" carries a binding").

(** The Evidence nodes linked to [id] by a [Verifies] edge. *)
Definition verifying_evidence (g : WorkGraphSnapshot) (id : WorkNodeId) : list WorkNode :=
  retain (fun n => bool_decide (node_kind n = NodeKind.Evidence))
    (omap (fun e => node g (edge_from e))
       (retain (fun e => bool_decide (edge_kind e = EdgeKind.Verifies) && bool_decide (edge_to e = id))
          (edges g))).

Definition requirement_satisfied (evidence : list WorkNode) (r : AcceptanceRequirement) : bool :=
  existsb (fun ev => match node_evidence ev with
                     | Some payload => is_satisfied_by r payload
                     | None => false
                     end) evidence.

Definition check_v4_verified_requires_evidence (g : WorkGraphSnapshot) : list Violation :=
  nodes g ≫= fun n =>
    if bool_decide (node_state n <> NodeState.Verified) then []
    else if is_nil (node_acceptance n) then
      push_if true ValidationCode.V4 ($"verified node " ++ node_id n ++ $" has no acceptance requirements")
    else
      node_acceptance n ≫= fun r =>
        push_if (negb (requirement_satisfied (verifying_evidence g (node_id n)) r)) ValidationCode.V4
          ($"verified node " ++ node_id n ++ $" lacks satisfying evidence for " ++ requirement_debug r).

(** An edge of kind [k] from [id] to a node that is not done. *)
Definition has_unmet (g : WorkGraphSnapshot) (k : EdgeKind) (id : WorkNodeId) : bool :=
  existsb (fun e => bool_decide (edge_kind e = k) && bool_decide (edge_from e = id)
                    && match node g (edge_to e) with
                       | Some dep => negb (node_is_done dep)
                       | None => false
                       end) (edges g).

Definition blocked_by_edge (g : WorkGraphSnapshot) (id : WorkNodeId) : bool :=
  existsb (fun e => bool_decide (edge_kind e = EdgeKind.Blocks) && bool_decide (edge_to e = id)) (edges g).

Definition check_v5_blocked_has_cause (g : WorkGraphSnapshot) : list Violation :=
  nodes g ≫= fun n =>
    if bool_decide (node_state n <> NodeState.Blocked) then []
    else
      push_if (negb (blocked_by_edge g (node_id n) || has_unmet g EdgeKind.DependsOn (node_id n)
                     || has_unmet g EdgeKind.RequiresApproval (node_id n)))
        ValidationCode.V5 ($"blocked node " ++ node_id n ++ $" has no blocking cause").

(** [seen] maps an external identity to the node last seen with it. *)
Fixpoint check_v6_from `{Externs} (seen : gmap str WorkNodeId) (ns : list WorkNode) : list Violation :=
  match ns with
  | [] => []
  | n :: ns =>
      match node_binding n with
      | None => check_v6_from seen ns
      | Some binding =>
          push_if (negb (external_identity_is_well_formed (external binding))) ValidationCode.V6
            ($"node " ++ node_id n ++ $" binding external " ++ debug_str (external binding)
             ++ $" matches no identity scheme")
          ++ (match seen !! external binding with
              | Some previous =>
                  push_if true ValidationCode.V6
                    ($"external " ++ debug_str (external binding) ++ $" bound by both " ++ previous
                     ++ $" and " ++ node_id n)
              | None => []
              end)
          ++ check_v6_from (<[external binding := node_id n]> seen) ns
      end
  end.

Definition check_v6_binding_identity `{Externs} (g : WorkGraphSnapshot) : list Violation :=
  check_v6_from ∅ (nodes g).

Definition is_reference_kind (n : WorkNode) : bool :=
  match node_kind n with NodeKind.RuntimeRef | NodeKind.LaneRef => true | _ => false end.

Definition check_v7_refs_inert (g : WorkGraphSnapshot) : list Violation :=
  nodes g ≫= fun n =>
    push_if (is_reference_kind n && bool_decide (node_state n <> NodeState.Ready)) ValidationCode.V7
      ($"reference node " ++ node_id n ++ $" carries liveness state " ++ NodeState.debug (node_state n)).

Fixpoint check_increasing (previous : option Z) (rs : list ChangeReceipt) : list Violation :=
  match rs with
  | [] => []
  | r :: rs =>
      match previous with
      | Some prev =>
          if receipt_revision r <=? prev then
            push_if true ValidationCode.V8
              ($"history revisions not strictly increasing (" ++ display_u prev ++ $" then "
               ++ display_u (receipt_revision r) ++ $")")
          else check_increasing (Some (receipt_revision r)) rs
      | None => check_increasing (Some (receipt_revision r)) rs
      end
  end.

Definition check_v8_history_bounded_monotonic (g : WorkGraphSnapshot) : list Violation :=
  push_if (HISTORY_CAP <? length (history g))%nat ValidationCode.V8
    ($"history length " ++ display_u (zlen (history g)) ++ $" exceeds bound 256")
  ++ check_increasing None (history g)
  ++ (match last (history g) with
      | Some r =>
          push_if (u64_saturating_add (revision g) 1 <? receipt_revision r) ValidationCode.V8
            ($"history revision " ++ display_u (receipt_revision r) ++ $" ahead of snapshot revision "
             ++ display_u (revision g))
      | None => []
      end).

(** ** [validate] *)

Definition all_violations `{Externs} (g : WorkGraphSnapshot) : list Violation :=
  check_structural g
  ++ check_v1_depends_on_acyclic g
  ++ check_v2_live_operations_rooted g
  ++ check_v3_binding_only_on_operations g
  ++ check_v4_verified_requires_evidence g
  ++ check_v5_blocked_has_cause g
  ++ check_v6_binding_identity g
  ++ check_v7_refs_inert g
  ++ check_v8_history_bounded_monotonic g.

Definition validate `{Externs} (g : WorkGraphSnapshot) : result ValidationReport unit :=
  if is_nil (all_violations g) then Ok tt else Err {| violations := all_violations g |}.
