(* ===== verification/WorkGraphs.v ===== *)
(** * The two graph searches of work-graph validation

    Correctness and termination of the three-color depth-first search of V1 and
    of the upward search of V2. *)

From S2P Require Import Text WorkModel WorkValidate.
From stdpp Require Import relations.

(** ** V1 *)

(** [x] has a [DependsOn] edge to [y]. *)
Definition depends_on (g : WorkGraphSnapshot) (x y : WorkNodeId) : Prop :=
  exists e, e ∈ edges g /\ edge_kind e = EdgeKind.DependsOn /\ edge_from e = x /\ edge_to e = y.

Lemma elem_of_depends_on_targets g x y : y ∈ depends_on_targets g x <-> depends_on g x y.
Proof.
  unfold depends_on_targets, depends_on. rewrite list_elem_of_fmap. split.
  - intros (e & -> & [[Hk Hf]%andb_true_iff He]%elem_of_retain).
    apply bool_decide_eq_true in Hk, Hf. eauto.
  - intros (e & He & Hk & Hf & <-). exists e. split; [done|]. apply elem_of_retain.
    split; [|done]. by rewrite !bool_decide_true.
Qed.

(** No infinite [DependsOn] path leaves [x]. *)
Definition grounded (g : WorkGraphSnapshot) (x : WorkNodeId) : Prop :=
  Acc (fun b a => depends_on g a b) x.

(** A cycle can be reached from [x]. *)
Definition reaches_cycle (g : WorkGraphSnapshot) (x : WorkNodeId) : Prop :=
  exists m, rtc (depends_on g) x m /\ tc (depends_on g) m m.

Lemma grounded_tc g x y : grounded g x -> tc (depends_on g) x y -> grounded g y.
Proof. intros Hx Hxy. induction Hxy as [x y H|x y z H _ IH]; [|apply IH]; by apply Hx. Qed.

Lemma grounded_no_cycle g x : grounded g x -> ~ reaches_cycle g x.
Proof.
  intros Hx (m & Hxm & Hm).
  assert (Hg : grounded g m).
  { apply rtc_tc in Hxm as [<-|Hxm]; [done|]. by eapply grounded_tc. }
  clear Hxm. induction Hg as [m Hg IH].
  inversion Hm as [? ? H|? m' ? H Hm']; subst.
  - by apply (IH m H).
  - apply (IH m' H). eapply tc_transitive; [exact Hm'|by apply tc_once].
Qed.

Section visit.
Context (g : WorkGraphSnapshot).

Lemma visit_all_true_ip (f : WorkNodeId -> colors -> option (bool * colors)) next c c' :
  (forall n c c', f n c = Some (true, c') -> in_progress c' = in_progress c) ->
  visit_all f next c = Some (true, c') -> in_progress c' = in_progress c.
Proof.
  intros Hf. revert c. induction next as [|n next IH]; intros c; cbn [visit_all]; [by intros [= <-]|].
  destruct (f n c) as [[[] c1]|] eqn:E; try done. intros H. rewrite (IH _ H). by eapply Hf.
Qed.

(** A successful visit restores the set of open nodes. *)
Lemma visit_true_ip fuel n c c' :
  visit g fuel n c = Some (true, c') -> in_progress c' = in_progress c.
Proof.
  revert n c c'. induction fuel as [|fuel IH]; intros n c c'; cbn [visit]; [done|].
  case_bool_decide; [by intros [= <-]|]. case_bool_decide as Hip; [done|].
  destruct (visit_all _ _ _) as [[b c1]|] eqn:E; [|done]. intros [= -> <-].
  apply visit_all_true_ip in E; [|exact IH]. cbn [in_progress] in *. rewrite E.
  rewrite filter_cons_False by tauto. apply filter_all.
  apply Forall_forall. by intros x Hx ->.
Qed.

(** What a visit establishes. *)
Definition visit_post (n : WorkNodeId) (c : colors) (b : bool) (c' : colors) : Prop :=
  if b then n ∈ done_ c' /\ done_ c ⊆ done_ c' /\ (forall x, x ∈ done_ c' -> grounded g x)
  else reaches_cycle g n.

Lemma visit_all_spec (f : WorkNodeId -> colors -> option (bool * colors)) next c b c' :
  (forall n c b c', n ∈ next -> f n c = Some (b, c') -> (forall x, x ∈ done_ c -> grounded g x) ->
     (forall x, x ∈ in_progress c -> tc (depends_on g) x n) -> visit_post n c b c') ->
  (forall n c c', f n c = Some (true, c') -> in_progress c' = in_progress c) ->
  (forall x, x ∈ done_ c -> grounded g x) ->
  (forall n x, n ∈ next -> x ∈ in_progress c -> tc (depends_on g) x n) ->
  visit_all f next c = Some (b, c') ->
  if b then (forall n, n ∈ next -> n ∈ done_ c') /\ done_ c ⊆ done_ c' /\
            (forall x, x ∈ done_ c' -> grounded g x)
  else exists n, n ∈ next /\ reaches_cycle g n.
Proof.
  intros Hf Hip. revert c. induction next as [|n next IH]; intros c Hd Hp; cbn [visit_all].
  - intros [= <- <-]. split_and!; [by intros ? ?%not_elem_of_nil|done|done].
  - destruct (f n c) as [[b1 c1]|] eqn:E; [|done].
    pose proof (Hf n c b1 c1 ltac:(set_solver) E Hd ltac:(intros; apply Hp; set_solver)) as Hpost.
    destruct b1.
    + destruct Hpost as (Hn & Hsub & Hd1). intros Hall.
      pose proof (IH ltac:(intros; eapply Hf; set_solver) c1 Hd1
        ltac:(intros m x Hm; rewrite (Hip _ _ _ E); intros; apply Hp; set_solver) Hall) as Hres.
      destruct b.
      * destruct Hres as (H1 & H2 & H3). split_and!; [|set_solver|done].
        intros m [->|Hm]%elem_of_cons; [by apply H2|by apply H1].
      * destruct Hres as (m & ? & ?). exists m. set_solver.
    + intros [= <- <-]. exists n. set_solver.
Qed.

Lemma visit_spec fuel n c b c' :
  (forall x, x ∈ done_ c -> grounded g x) ->
  (forall x, x ∈ in_progress c -> tc (depends_on g) x n) ->
  visit g fuel n c = Some (b, c') -> visit_post n c b c'.
Proof.
  revert n c b c'. induction fuel as [|fuel IH]; intros n c b c' Hd Hp; cbn [visit]; [done|].
  case_bool_decide as Hdone; [by intros [= <- <-]; split_and!|].
  case_bool_decide as Hip.
  { intros [= <- <-]. exists n. split; [done|by apply Hp]. }
  destruct (visit_all _ _ _) as [[b1 c1]|] eqn:E; [|done]. intros [= <- <-].
  apply visit_all_spec in E; cycle 1.
  - intros m c2 b2 c2' _ Hv Hd2 Hp2. by eapply IH.
  - intros m c2 c2'. apply visit_true_ip.
  - done.
  - intros m x Hm%elem_of_depends_on_targets. cbn [in_progress].
    intros [->|Hx]%elem_of_cons; [by apply tc_once|].
    eapply tc_r; [by apply Hp|done].
  - cbn [done_] in E. destruct b1.
    + destruct E as (H1 & H2 & H3). unfold visit_post. cbn [done_]. split_and!; [set_solver..|].
      intros x [->|Hx]%elem_of_cons; [|by apply H3].
      constructor. intros y Hy. by apply H3, H1, elem_of_depends_on_targets.
    + destruct E as (m & Hm%elem_of_depends_on_targets & z & Hz & Hzz).
      exists z. split; [by eapply rtc_l|done].
Qed.

(** The fuel suffices: every open node but the current one is a source. *)
Lemma visit_total fuel n c :
  NoDup (in_progress c) -> in_progress c ⊆ edge_from <$> edges g ->
  (length (edges g) + 2 <= fuel + length (in_progress c))%nat ->
  is_Some (visit g fuel n c).
Proof.
  revert n c. induction fuel as [|fuel IH]; intros n c Hnd Hsub Hf.
  - pose proof (NoDup_submseteq _ _ Hnd Hsub) as Hl%submseteq_length. rewrite length_fmap in Hl. lia.
  - cbn [visit]. case_bool_decide; [done|]. case_bool_decide as Hip; [done|].
    destruct (depends_on_targets g n) as [|t ts] eqn:Et; [done|].
    assert (Hsrc : n ∈ edge_from <$> edges g).
    { assert (Ht : t ∈ depends_on_targets g n) by (rewrite Et; set_solver).
      apply elem_of_depends_on_targets in Ht as (e & He & _ & <- & _).
      apply list_elem_of_fmap. eauto. }
    assert (Hall : forall next c2, in_progress c2 = n :: in_progress c ->
      is_Some (visit_all (visit g fuel) next c2)).
    { induction next as [|m next IHn]; intros c2 Hc2; cbn [visit_all]; [done|].
      destruct (IH m c2) as [[b1 c3] E]; rewrite ?Hc2.
      - by constructor.
      - set_solver.
      - cbn [length]. lia.
      - rewrite E. destruct b1; [|done]. apply IHn. by rewrite (visit_true_ip _ _ _ _ E). }
    destruct (Hall (t :: ts) {| done_ := done_ c; in_progress := n :: in_progress c |} eq_refl)
      as [[b1 c1] E]. by rewrite E.
Qed.

Lemma check_v1_from_spec ns c :
  in_progress c = [] -> (forall x, x ∈ done_ c -> grounded g x) ->
  exists out, check_v1_from g (visit_fuel g) ns c = Some out /\
    (out = [] <-> forall n, n ∈ ns -> grounded g (node_id n)).
Proof.
  revert c. induction ns as [|n ns IH]; intros c Hip Hd; cbn [check_v1_from].
  { exists []. split; [done|]. split; [by intros _ n ?%not_elem_of_nil|done]. }
  destruct (visit_total (visit_fuel g) (node_id n) c) as [[b c1] E]; rewrite ?Hip.
  { constructor. }
  { set_solver. }
  { unfold visit_fuel. cbn [length]. lia. }
  rewrite E. pose proof (visit_spec _ _ _ _ _ Hd ltac:(rewrite Hip; by intros x ?%not_elem_of_nil) E) as Hpost.
  destruct b.
  - destruct Hpost as (Hn & Hsub & Hd1).
    destruct (IH c1) as (out & Hout & Hiff); [by rewrite (visit_true_ip _ _ _ _ E)|done|].
    exists out. split; [done|]. rewrite Hiff. split; [|set_solver].
    intros H m [->|Hm]%elem_of_cons; [by apply Hd1|by apply H].
  - eexists. split; [done|]. split; [done|]. intros H. exfalso.
    eapply grounded_no_cycle; [apply (H n); set_solver|exact Hpost].
Qed.
End visit.

(** The V1 check is silent exactly on graphs without a reachable cycle, and it
    always terminates. *)
Lemma check_v1_spec g :
  check_v1_depends_on_acyclic g = [] <-> forall n, n ∈ nodes g -> ~ reaches_cycle g (node_id n).
Proof.
  unfold check_v1_depends_on_acyclic.
  destruct (check_v1_from_spec g (nodes g) {| done_ := []; in_progress := [] |}) as (out & Hout & Hiff);
    [done|by intros x ?%not_elem_of_nil|].
  rewrite Hout. simpl. rewrite Hiff. split.
  - intros H n Hn. by apply grounded_no_cycle, H.
  - intros Hnc. apply Hiff. clear Hiff. revert Hout. generalize (visit_fuel g) as fuel.
    assert (Hd0 : forall x, x ∈ done_ {| done_ := []; in_progress := [] |} -> grounded g x)
      by (by intros x ?%not_elem_of_nil).
    assert (Hip0 : in_progress {| done_ := []; in_progress := [] |} = []) by done.
    revert Hd0 Hip0. generalize {| done_ := []; in_progress := [] |} as c. revert out.
    induction (nodes g) as [|n ns IH]; intros out c Hd Hip fuel; cbn [check_v1_from]; [by intros [= <-]|].
    destruct (visit g fuel (node_id n) c) as [[b c1]|] eqn:E; [|done].
    pose proof (visit_spec g _ _ _ _ _ Hd ltac:(rewrite Hip; by intros x ?%not_elem_of_nil) E) as Hpost.
    destruct b; [|by destruct (Hnc n ltac:(set_solver) Hpost)].
    intros Hout. destruct Hpost as (_ & _ & Hd1).
    eapply (IH ltac:(set_solver) out c1 Hd1); [by rewrite (visit_true_ip g _ _ _ _ E)|exact Hout].
Qed.

(** ** V2 *)

Section rooted.
Context (g : WorkGraphSnapshot).

(** One step of [Contains] ancestry, to a node the snapshot has. *)
Definition climbs (c p : WorkNodeId) : Prop := exists n, n ∈ contains_parents g c /\ node_id n = p.

(** [id] has an Objective or PlanStep among its proper ancestors. *)
Definition has_root (id : WorkNodeId) : Prop :=
  exists m n, rtc climbs id m /\ n ∈ contains_parents g m /\ is_root_kind n = true.

Lemma rooted_search_true fuel visited frontier :
  rooted_search g fuel visited frontier = Some true -> exists f, f ∈ frontier /\ has_root f.
Proof.
  revert visited frontier. induction fuel as [|fuel IH]; intros visited [|f frontier]; cbn [rooted_search]; try done.
  case_bool_decide.
  { intros (f' & ? & ?)%IH. exists f'. set_solver. }
  destruct (existsb is_root_kind _) eqn:E.
  - intros _. apply existsb_spec in E as (n & Hn & Hr). exists f. split; [set_solver|]. by exists f, n.
  - intros (f' & [Hf'|Hf']%elem_of_app & Hr)%IH; [|exists f'; set_solver].
    rewrite elem_of_reverse in Hf'. apply list_elem_of_fmap in Hf' as (n & -> & Hn). exists f. split; [set_solver|].
    destruct Hr as (m & n' & Hm & Hn'). exists m, n'. split; [|done]. eapply rtc_l; [|exact Hm]. by exists n.
Qed.

(** A failed search leaves a set of nodes closed under ancestry without a root. *)
Definition rootless (V : list WorkNodeId) (c : WorkNodeId) (W : list WorkNodeId) : Prop :=
  forall n, n ∈ contains_parents g c -> is_root_kind n = false /\ (node_id n ∈ V \/ node_id n ∈ W).

Lemma rooted_search_false fuel visited frontier :
  (forall c, c ∈ visited -> rootless visited c frontier) ->
  rooted_search g fuel visited frontier = Some false ->
  exists V, visited ⊆ V /\ frontier ⊆ V /\ forall c, c ∈ V -> rootless V c [].
Proof.
  revert visited frontier. induction fuel as [|fuel IH]; intros visited [|f frontier] Hinv;
    cbn [rooted_search]; try done.
  - intros _. exists visited. split_and!; [done|set_solver|done].
  - case_bool_decide as Hf.
    + intros H. destruct (IH visited frontier) as (V & ? & ? & ?); [|done|exists V; set_solver].
      intros c Hc n Hn. destruct (Hinv c Hc n Hn) as [? Hin]. split; [done|]. set_solver.
    + destruct (existsb is_root_kind _) eqn:E; [done|]. rewrite existsb_false in E. intros H.
      destruct (IH (f :: visited) (reverse (node_id <$> contains_parents g f) ++ frontier))
        as (V & HV1 & HV2 & HV3); [|done|].
      * intros c [->|Hc]%elem_of_cons n Hn.
        -- split; [by apply E|]. right. apply elem_of_app; left. rewrite elem_of_reverse. apply list_elem_of_fmap. eauto.
        -- destruct (Hinv c Hc n Hn) as [? Hin]. split; [done|]. set_solver.
      * exists V. split_and!; [set_solver..|done].
Qed.

Definition unvisited_edges (visited : list WorkNodeId) : nat :=
  length (retain (fun e => negb (bool_decide (edge_to e ∈ visited))) (edges g)).

Lemma contains_parents_count visited f :
  f ∉ visited ->
  (length (contains_parents g f) + unvisited_edges (f :: visited) <= unvisited_edges visited)%nat.
Proof.
  intros Hf. unfold contains_parents, unvisited_edges. generalize (node g) as nd.
  induction (edges g) as [|e es IH]; intros nd; [done|]. specialize (IH nd).
  unfold retain in *. rewrite !filter_cons. cbn [omap list_omap].
  destruct (bool_decide (edge_to e = f)) eqn:E.
  - apply bool_decide_eq_true in E. subst f.
    repeat case_decide;
      rewrite ?not_true_iff_false, ?negb_true_iff, ?negb_false_iff, ?bool_decide_eq_false,
        ?bool_decide_eq_true, ?elem_of_cons in *;
      try tauto; repeat case_match; cbn [length] in *; lia.
  - apply bool_decide_eq_false in E. rewrite andb_false_r.
    repeat case_decide;
      rewrite ?not_true_iff_false, ?negb_true_iff, ?negb_false_iff, ?bool_decide_eq_false,
        ?bool_decide_eq_true, ?elem_of_cons in *;
      try tauto; cbn [length] in *; lia.
Qed.

Lemma rooted_search_total fuel visited frontier :
  (length frontier + unvisited_edges visited < fuel)%nat ->
  is_Some (rooted_search g fuel visited frontier).
Proof.
  revert visited frontier. induction fuel as [|fuel IH]; intros visited frontier Hf; [lia|].
  destruct frontier as [|f frontier]; cbn [rooted_search]; [done|]. cbn [length] in Hf.
  case_bool_decide as Hv; [apply IH; lia|]. destruct (existsb is_root_kind _); [done|].
  apply IH. pose proof (contains_parents_count _ _ Hv).
  rewrite length_app, length_reverse, length_fmap. lia.
Qed.

Lemma is_rooted_spec id : is_rooted g id = true <-> has_root id.
Proof.
  unfold is_rooted.
  destruct (rooted_search_total (rooted_fuel g) [] [id]) as [b Hb].
  { unfold rooted_fuel, unvisited_edges. pose proof (retain_length
      (fun e => negb (bool_decide (edge_to e ∈ @nil WorkNodeId))) (edges g)). cbn [length]. lia. }
  rewrite Hb. simpl. destruct b.
  - split; [|done]. intros _. apply rooted_search_true in Hb as (f & Hf & Hr).
    apply list_elem_of_singleton in Hf. by subst.
  - split; [done|]. intros (m & n & Hm & Hn & Hr).
    apply rooted_search_false in Hb as (V & _ & HV & Hclosed); [|by intros c ?%not_elem_of_nil].
    assert (Hin : m ∈ V).
    { assert (Hid : id ∈ V) by set_solver. clear Hn HV. induction Hm as [|x y z (p & Hp & <-) _ IH]; [done|].
      apply IH; destruct (Hclosed x Hid p Hp) as [_ [Hv|Hv]]; try done; by apply not_elem_of_nil in Hv. }
    destruct (Hclosed m Hin n Hn) as [Hr' _]. congruence.
Qed.
End rooted.

(** The same ancestry, read off the edges. *)
Definition parent_of (g : WorkGraphSnapshot) (c : WorkNodeId) (n : WorkNode) : Prop :=
  exists e, e ∈ edges g /\ edge_kind e = EdgeKind.Contains /\ edge_to e = c /\
    node g (edge_from e) = Some n.

Definition ancestor (g : WorkGraphSnapshot) (c p : WorkNodeId) : Prop :=
  exists n, parent_of g c n /\ node_id n = p.

(** [id] has an Objective or a PlanStep among its proper ancestors. *)
Definition rooted (g : WorkGraphSnapshot) (id : WorkNodeId) : Prop :=
  exists m n, rtc (ancestor g) id m /\ parent_of g m n /\
    (node_kind n = NodeKind.Objective \/ node_kind n = NodeKind.PlanStep).

Lemma parent_of_spec g c n : n ∈ contains_parents g c <-> parent_of g c n.
Proof.
  unfold contains_parents, parent_of. rewrite list_elem_of_omap. split; intros (e & He & H); exists e.
  - destruct (_ && _) eqn:E; [|done]. apply andb_true_iff in E as [E1%bool_decide_eq_true E2%bool_decide_eq_true].
    by split_and!.
  - destruct H as (E1 & E2 & H). by rewrite !bool_decide_true.
Qed.

Lemma is_root_kind_spec n :
  is_root_kind n = true <-> node_kind n = NodeKind.Objective \/ node_kind n = NodeKind.PlanStep.
Proof. unfold is_root_kind. destruct (node_kind n); naive_solver. Qed.

Lemma has_root_rooted g id : has_root g id <-> rooted g id.
Proof.
  assert (Hc : forall x y, climbs g x y <-> ancestor g x y)
    by (intros x y; unfold climbs, ancestor; by setoid_rewrite parent_of_spec).
  assert (Hr : forall x y, rtc (climbs g) x y <-> rtc (ancestor g) x y)
    by (intros x y; split; apply rtc_subrel; intros ??; apply Hc).
  unfold has_root, rooted. setoid_rewrite Hr. setoid_rewrite parent_of_spec. by setoid_rewrite is_root_kind_spec.
Qed.
