(* ===== verification/WorkInvariant.v ===== *)
(** * The work graph: what validation establishes

    [well_formed] states the invariants V1 to V8 and the structural rules
    declaratively; [validate_well_formed] shows that validation accepts exactly
    the well-formed snapshots. *)

From S2P Require Import Text WorkModel WorkValidate WorkGraphs.
From stdpp Require Import relations.
#[local] Open Scope Z_scope.

(** ** Lookups *)

Lemma node_Some g id n : node g id = Some n -> n ∈ nodes g /\ node_id n = id.
Proof. intros [Hn Hid]%find_Some. by apply bool_decide_eq_true in Hid. Qed.

Lemma node_None g id : node g id = None <-> id ∉ node_id <$> nodes g.
Proof.
  unfold node. rewrite find_None, list_elem_of_fmap. split.
  - intros H (n & -> & Hn). specialize (H n Hn). by apply bool_decide_eq_false in H.
  - intros H n Hn. apply bool_decide_eq_false. intros <-. apply H. eauto.
Qed.

Lemma node_of_member g n :
  NoDup (node_id <$> nodes g) -> n ∈ nodes g -> node g (node_id n) = Some n.
Proof.
  unfold node. induction (nodes g) as [|m ms IH]; cbn; [by intros _ ?%not_elem_of_nil|].
  intros [Hm Hnd]%NoDup_cons. intros [->|Hn]%elem_of_cons; [by rewrite bool_decide_true|].
  rewrite bool_decide_false; [by apply IH|].
  intros E. apply Hm. rewrite E. apply list_elem_of_fmap. eauto.
Qed.

(** ** The invariant *)

Definition operation_ok (g : WorkGraphSnapshot) (a : WorkActivityEvent) : Prop :=
  forall op, act_operation a = Some op ->
    exists n, node g op = Some n /\ node_kind n = NodeKind.Operation.

(** The activity records the route it took: a provider, an endpoint and a model
    of bounded length without control characters. *)
Definition recorded_route (a : WorkActivityEvent) (api : Providers.ApiProvider.ApiProvider)
  (endpoint model : str) : Prop :=
  act_provider_kind a = Some api /\ act_endpoint_identity a = Some endpoint /\ act_model a = Some model /\
  endpoint <> [] /\ char_count endpoint <= 512 /\ (forall c, c ∈ endpoint -> is_control c = false) /\
  trim model <> [] /\ char_count model <= 256 /\ (forall c, c ∈ model -> is_control c = false).

(** The effective tier agrees with what the recorded route can do; without a
    recorded route it is unavailable. *)
Definition route_ok (a : WorkActivityEvent) : Prop :=
  (exists api endpoint model, recorded_route a api endpoint model /\
     (api = Providers.ApiProvider.Custom \/ act_provider a = Providers.api_as_str api) /\
     match constrained_effective_reasoning_for_route (act_requested a) api endpoint model with
     | Some expected => act_effective a = expected
     | None => act_effective a <> ReasoningEffortTier.ThinkingEnabledGranularityUnavailable
     end) \/
  (forall api endpoint model, ~ recorded_route a api endpoint model) /\
  act_effective a = ReasoningEffortTier.Unavailable.

Record activity_ok (g : WorkGraphSnapshot) (a : WorkActivityEvent) : Prop := {
  ao_requested : act_requested a <> ReasoningEffortTier.ThinkingEnabledGranularityUnavailable /\
                 act_requested a <> ReasoningEffortTier.Unavailable;
  ao_provider : act_provider a <> [] /\ char_count (act_provider a) <= 128 /\
                forall c, c ∈ act_provider a -> is_whitespace c = false /\ is_control c = false;
  ao_route : route_ok a;
  ao_operation : operation_ok g a }.

Definition plan_step (g : WorkGraphSnapshot) (id : WorkNodeId) : Prop :=
  exists n, node g id = Some n /\ node_kind n = NodeKind.PlanStep.

(** Evidence attached to [id] that meets the requirement [r]. *)
Definition evidence_for (g : WorkGraphSnapshot) (id : WorkNodeId) (r : AcceptanceRequirement) : Prop :=
  exists e ev payload, e ∈ edges g /\ edge_kind e = EdgeKind.Verifies /\ edge_to e = id /\
    node g (edge_from e) = Some ev /\ node_kind ev = NodeKind.Evidence /\
    node_evidence ev = Some payload /\ r = EvidenceOfKind (EvidenceKind.tag (ref_kind payload)).

(** Done: verified, or completed with nothing to accept. *)
Definition node_done (n : WorkNode) : Prop :=
  node_state n = NodeState.Verified \/ node_state n = NodeState.Completed /\ node_acceptance n = [].

(** An edge of kind [k] from [id] to a node that is not done yet. *)
Definition unmet (g : WorkGraphSnapshot) (k : EdgeKind) (id : WorkNodeId) : Prop :=
  exists e dep, e ∈ edges g /\ edge_kind e = k /\ edge_from e = id /\
    node g (edge_to e) = Some dep /\ ~ node_done dep.

(** The To-do row at position [i] shows an Active node. *)
Definition active_row (g : WorkGraphSnapshot) (i : nat) : Prop :=
  exists b n, todos (compat g) !! i = Some b /\ node g (todo_node b) = Some n /\
    node_state n = NodeState.Active.

Definition externals (ns : list WorkNode) : list str := omap (fun n => external <$> node_binding n) ns.

Definition increasing (rs : list ChangeReceipt) : Prop :=
  StronglySorted (fun a b => receipt_revision a < receipt_revision b) rs.

Record well_formed (g : WorkGraphSnapshot) : Prop := {
  wf_schema : schema g = 1;
  wf_node_ids : NoDup (node_id <$> nodes g);
  wf_evidence : forall n, n ∈ nodes g -> is_Some (node_evidence n) -> node_kind n = NodeKind.Evidence;
  wf_edge_ids : NoDup (edge_id <$> edges g);
  wf_endpoints : forall e, e ∈ edges g ->
    edge_from e ∈ node_id <$> nodes g /\ edge_to e ∈ node_id <$> nodes g;
  wf_plan_order : NoDup (plan_order (compat g)) /\ forall id, id ∈ plan_order (compat g) -> plan_step g id;
  wf_todo_ids : NoDup (legacy_id <$> todos (compat g));
  wf_todos : forall b, b ∈ todos (compat g) ->
    legacy_id b <> 0 /\ plan_step g (todo_node b) /\
    forall i, plan_index b = Some i -> zget (plan_order (compat g)) i = Some (todo_node b);
  wf_one_active : forall i j, active_row g i -> active_row g j -> i = j;
  wf_activities_bounded : (length (activities g) <= 256)%nat;
  wf_activities : forall a, a ∈ activities g -> activity_ok g a;
  wf_acyclic : forall id, ~ tc (depends_on g) id id;
  wf_rooted : forall n, n ∈ nodes g -> node_kind n = NodeKind.Operation ->
    node_state n ∈ [NodeState.Initializing; NodeState.Active; NodeState.Waiting] -> rooted g (node_id n);
  wf_bindings : forall n, n ∈ nodes g -> is_Some (node_binding n) -> node_kind n = NodeKind.Operation;
  wf_verified : forall n, n ∈ nodes g -> node_state n = NodeState.Verified ->
    node_acceptance n <> [] /\ forall r, r ∈ node_acceptance n -> evidence_for g (node_id n) r;
  wf_blocked : forall n, n ∈ nodes g -> node_state n = NodeState.Blocked ->
    (exists e, e ∈ edges g /\ edge_kind e = EdgeKind.Blocks /\ edge_to e = node_id n) \/
    unmet g EdgeKind.DependsOn (node_id n) \/ unmet g EdgeKind.RequiresApproval (node_id n);
  wf_external_format : forall n b, n ∈ nodes g -> node_binding n = Some b ->
    external_identity_is_well_formed (external b) = true;
  wf_external_unique : NoDup (externals (nodes g));
  wf_references : forall n, n ∈ nodes g ->
    node_kind n = NodeKind.RuntimeRef \/ node_kind n = NodeKind.LaneRef -> node_state n = NodeState.Ready;
  wf_history_bounded : (length (history g) <= 256)%nat;
  wf_history_increasing : increasing (history g);
  wf_history_last : forall r, last (history g) = Some r ->
    receipt_revision r <= u64_saturating_add (revision g) 1 }.

(** ** Each check *)

Lemma push_if_nil b c m : push_if b c m = [] <-> b = false.
Proof. by destruct b. Qed.

Lemma bind_nil {A B} (f : A -> list B) l : l ≫= f = [] <-> forall x, x ∈ l -> f x = [].
Proof.
  induction l as [|x l IH]; [split; [by intros _ x ?%not_elem_of_nil|done]|].
  cbn [mbind list_bind]. fold (l ≫= f). rewrite app_nil, IH. split.
  - intros [Hx Hl] y [->|Hy]%elem_of_cons; auto.
  - intros H. split; [apply H; set_solver|intros y Hy; apply H; set_solver].
Qed.

Lemma opt_is_none_false {A} (o : option A) : opt_is_none o = false <-> is_Some o.
Proof. destruct o; simpl; split; intros H; [eauto|done|done|by apply is_Some_None in H]. Qed.

Lemma bool_decide_ne_false `{EqDecision A} (a b : A) : bool_decide (a <> b) = false <-> a = b.
Proof. rewrite bool_decide_eq_false. split; [apply dec_stable|intros -> Hn; by apply Hn]. Qed.

Ltac split_checks :=
  repeat match goal with
  | |- context [push_if _ _ _ = []] => rewrite push_if_nil
  | |- context [_ ++ _ = []] => rewrite app_nil
  end.

Lemma check_nodes_spec seen ns :
  check_nodes seen ns = [] <->
  NoDup (node_id <$> ns) /\ (forall id, id ∈ seen -> id ∉ node_id <$> ns) /\
  (forall n, n ∈ ns -> is_Some (node_evidence n) -> node_kind n = NodeKind.Evidence).
Proof.
  revert seen. induction ns as [|n ns IH]; intros seen; cbn [check_nodes].
  { split; [|done]. intros _. split_and!; [constructor|set_solver|by intros n ?%not_elem_of_nil]. }
  split_checks. rewrite IH, fmap_cons, NoDup_cons, bool_decide_eq_false, andb_false_iff, negb_false_iff.
  rewrite bool_decide_ne_false. split.
  - intros (Hn & Hev & Hnd & Hseen & Hall). split_and!.
    + apply Hseen. set_solver.
    + done.
    + intros id Hid [->|Hin]%elem_of_cons; [done|]. eapply Hseen; [|exact Hin]. set_solver.
    + intros m [->|Hm]%elem_of_cons; [|by apply Hall]. intros [x Hx].
      destruct Hev as [Hev|Hev]; [|done]. by rewrite Hx in Hev.
  - intros ((Hn & Hnd) & Hseen & Hall). split_and!; try done.
    + intros Hin. by apply (Hseen _ Hin); apply elem_of_cons; left.
    + destruct (node_evidence n) eqn:E; [right|by left]. apply Hall; [set_solver|by rewrite E].
    + intros id [->|Hid]%elem_of_cons; [done|]. intros Hin. apply (Hseen _ Hid). by apply elem_of_cons; right.
    + intros m Hm. apply Hall. by apply elem_of_cons; right.
Qed.

Lemma check_edges_spec ids seen es :
  check_edges ids seen es = [] <->
  NoDup (edge_id <$> es) /\ (forall id, id ∈ seen -> id ∉ edge_id <$> es) /\
  (forall e, e ∈ es -> edge_from e ∈ ids /\ edge_to e ∈ ids).
Proof.
  revert seen. induction es as [|e es IH]; intros seen; cbn [check_edges].
  { split; [|done]. intros _. split_and!; [constructor|set_solver|by intros n ?%not_elem_of_nil]. }
  split_checks. rewrite bind_nil, IH, fmap_cons, NoDup_cons, bool_decide_eq_false. split.
  - intros (Hn & Hends & Hnd & Hseen & Hall). split_and!.
    + apply Hseen. set_solver.
    + done.
    + intros id Hid [->|Hin]%elem_of_cons; [done|]. eapply Hseen; [|exact Hin]. set_solver.
    + intros m [->|Hm]%elem_of_cons; [|by apply Hall].
      split; apply dec_stable; [specialize (Hends (edge_from e) ltac:(set_solver))
        |specialize (Hends (edge_to e) ltac:(set_solver))];
        apply push_if_nil, bool_decide_eq_false in Hends; done.
  - intros ((Hn & Hnd) & Hseen & Hall). split_and!; try done.
    + intros Hin. by apply (Hseen _ Hin); apply elem_of_cons; left.
    + intros x Hx. apply push_if_nil, bool_decide_eq_false. destruct (Hall e ltac:(set_solver)).
      assert (x ∈ ids) by set_solver. tauto.
    + intros id [->|Hid]%elem_of_cons; [done|]. intros Hin. apply (Hseen _ Hid). by apply elem_of_cons; right.
    + intros m Hm. apply Hall. by apply elem_of_cons; right.
Qed.

Lemma check_step_spec g id c m1 m2 :
  match node g id with
  | Some n => push_if (bool_decide (node_kind n <> NodeKind.PlanStep)) c m1
  | None => push_if true c m2
  end = [] <-> plan_step g id.
Proof.
  unfold plan_step. destruct (node g id) as [n|].
  - rewrite push_if_nil, bool_decide_ne_false. split; [by exists n|by intros (? & [= <-] & ?)].
  - split; [done|by intros (? & [=] & _)].
Qed.

Lemma check_plan_order_spec g seen ids :
  check_plan_order g seen ids = [] <->
  NoDup ids /\ (forall id, id ∈ seen -> id ∉ ids) /\ (forall id, id ∈ ids -> plan_step g id).
Proof.
  revert seen. induction ids as [|i ids IH]; intros seen; cbn [check_plan_order].
  { split; [|done]. intros _. split_and!; [constructor|set_solver|by intros n ?%not_elem_of_nil]. }
  rewrite !app_nil, check_step_spec, push_if_nil, IH, NoDup_cons, bool_decide_eq_false. split.
  - intros (Hn & Hs & Hnd & Hseen & Hall). split_and!; try done.
    + apply Hseen. set_solver.
    + intros id Hid [->|Hin]%elem_of_cons; [done|]. eapply Hseen; [|exact Hin]. set_solver.
    + intros id [->|Hid]%elem_of_cons; auto.
  - intros ((Hn & Hnd) & Hseen & Hall). split_and!; try done.
    + intros Hin. by apply (Hseen _ Hin); apply elem_of_cons; left.
    + apply Hall. set_solver.
    + intros id [->|Hid]%elem_of_cons; [done|]. intros Hin. apply (Hseen _ Hid). by apply elem_of_cons; right.
    + intros m Hm. apply Hall. by apply elem_of_cons; right.
Qed.

Lemma check_todos_spec g seen bs :
  check_todos g seen bs = [] <->
  NoDup (legacy_id <$> bs) /\ (forall id, id ∈ seen -> id ∉ legacy_id <$> bs) /\
  (forall b, b ∈ bs -> legacy_id b <> 0 /\ plan_step g (todo_node b) /\
     forall i, plan_index b = Some i -> zget (plan_order (compat g)) i = Some (todo_node b)).
Proof.
  revert seen. induction bs as [|b bs IH]; intros seen; cbn [check_todos].
  { split; [|done]. intros _. split_and!; [constructor|set_solver|by intros n ?%not_elem_of_nil]. }
  rewrite !app_nil, check_step_spec, push_if_nil, fmap_cons, NoDup_cons, orb_false_iff, Z.eqb_neq,
    bool_decide_eq_false.
  assert (Halias : forall m, match plan_index b with
      | Some index => push_if (bool_decide (zget (plan_order (compat g)) index <> Some (todo_node b)))
                        ValidationCode.Structural m
      | None => [] end = [] <->
    forall i, plan_index b = Some i -> zget (plan_order (compat g)) i = Some (todo_node b)).
  { intros m. destruct (plan_index b) as [i|].
    - rewrite push_if_nil, bool_decide_ne_false. split; [by intros H ? [= <-]|auto].
    - split; [by intros _ ? [=]|done]. }
  rewrite Halias, IH. split.
  - intros ((Hz & Hn) & Hs & Ha & Hnd & Hseen & Hall). apply Z.eqb_neq in Hz as Hz'. rewrite Hz' in Hseen.
    split_and!; try done.
    + apply Hseen. set_solver.
    + intros id Hid [->|Hin]%elem_of_cons; [done|]. eapply Hseen; [|exact Hin]. set_solver.
    + intros c [->|Hc]%elem_of_cons; auto.
  - intros ((Hn & Hnd) & Hseen & Hall). destruct (Hall b ltac:(set_solver)) as (Hz & Hs & Ha).
    apply Z.eqb_neq in Hz as Hz'. rewrite Hz'. split_and!; try done.
    + intros Hin. by apply (Hseen _ Hin); apply elem_of_cons; left.
    + intros id [->|Hid]%elem_of_cons; [done|]. intros Hin. apply (Hseen _ Hid). by apply elem_of_cons; right.
    + intros m Hm. apply Hall. by apply elem_of_cons; right.
Qed.

Lemma check_activity_operation_spec g a : check_activity_operation g a = [] <-> operation_ok g a.
Proof.
  unfold check_activity_operation, operation_ok.
  destruct (act_operation a) as [op|]; [|by split; [intros _ ? [=]|]].
  destruct (node g op) as [n|] eqn:E.
  - rewrite push_if_nil, bool_decide_ne_false. split.
    + intros H ? [= <-]. eauto.
    + intros H. destruct (H op eq_refl) as (m & Hm & Hk). congruence.
  - split; [done|]. intros H. destruct (H op eq_refl) as (m & Hm & _). congruence.
Qed.

Lemma bad_characters_spec s :
  existsb (fun ch => is_whitespace ch || is_control ch) s = false <->
  forall c, c ∈ s -> is_whitespace c = false /\ is_control c = false.
Proof.
  rewrite existsb_false. split; intros H c Hc; specialize (H c Hc); by apply orb_false_iff.
Qed.

Lemma bounded_text_spec limit non_blank (P : str -> Prop) o :
  (forall s, non_blank s = true <-> P s) ->
  bounded_text limit non_blank o = true <->
  exists s, o = Some s /\ P s /\ char_count s <= limit /\ forall c, c ∈ s -> is_control c = false.
Proof.
  intros HP. unfold bounded_text. destruct o as [s|]; [|split; [done|by intros (? & [=] & _)]].
  rewrite !andb_true_iff, negb_true_iff, existsb_false, Z.leb_le, HP. naive_solver.
Qed.

Lemma provenance_is_bounded_spec a :
  provenance_is_bounded a = true <-> exists api endpoint model, recorded_route a api endpoint model.
Proof.
  unfold provenance_is_bounded, recorded_route.
  rewrite !andb_true_iff, negb_true_iff, opt_is_none_false.
  rewrite (bounded_text_spec 512 _ (fun s => s <> [])) by (intros []; cbn; naive_solver).
  rewrite (bounded_text_spec 256 _ (fun s => trim s <> [])) by (intros s; destruct (trim s); cbn; naive_solver).
  split.
  - intros [[[api ?] (endpoint & ?)] (model & ?)]. exists api, endpoint, model. naive_solver.
  - intros (api & endpoint & model & ? & ? & ? & ?). split_and!; [by exists api|exists endpoint|exists model]; naive_solver.
Qed.

Lemma recorded_constraint_spec a api endpoint model :
  recorded_route a api endpoint model ->
  recorded_constraint a api = constrained_effective_reasoning_for_route (act_requested a) api endpoint model.
Proof.
  intros (_ & He & Hm & _). unfold recorded_constraint. rewrite He, Hm. cbn [default].
  case_bool_decide as Hc; [by subst|done].
Qed.

(** The part of [check_activity] on the recorded route. *)
Lemma check_route_spec g a :
  (if negb (provenance_is_bounded a) then
     push_structural (bool_decide (act_effective a <> ReasoningEffortTier.Unavailable))
       $"activity without bounded route provenance must be effective unavailable"
     ++ check_activity_operation g a
   else
     match act_provider_kind a with
     | None => []
     | Some api_provider =>
         if bool_decide (api_provider <> Providers.ApiProvider.Custom)
            && bool_decide (act_provider a <> Providers.api_as_str api_provider)
         then push_structural true $"activity provider identity does not match its recorded kind"
         else
           (match recorded_constraint a api_provider with
            | Some expected =>
                push_structural (bool_decide (act_effective a <> expected))
                  $"activity effective reasoning is impossible for its recorded route"
            | None =>
                push_structural
                  (bool_decide (act_effective a = ReasoningEffortTier.ThinkingEnabledGranularityUnavailable))
                  $"granularity-unavailable receipt is not valid for this recorded route"
            end)
           ++ check_activity_operation g a
     end) = [] <-> route_ok a /\ operation_ok g a.
Proof.
  unfold route_ok. destruct (provenance_is_bounded a) eqn:Eb; cbn [negb].
  - apply provenance_is_bounded_spec in Eb as (api & endpoint & model & Hr). pose proof Hr as (-> & He & Hm & _).
    rewrite (recorded_constraint_spec _ _ _ _ Hr).
    assert (Huniq : forall api' endpoint' model', recorded_route a api' endpoint' model' ->
      api' = api /\ endpoint' = endpoint /\ model' = model).
    { intros ??? (? & ? & ? & _). destruct Hr as (? & _). by simplify_eq. }
    assert (Hid : bool_decide (api <> Providers.ApiProvider.Custom) &&
        bool_decide (act_provider a <> Providers.api_as_str api) = false <->
      (api = Providers.ApiProvider.Custom \/ act_provider a = Providers.api_as_str api))
      by (by rewrite andb_false_iff, !bool_decide_ne_false).
    destruct (_ && _) eqn:Ec.
    + split; [done|]. intros [[(? & ? & ? & (-> & -> & ->)%Huniq & Hor & _)|[Hn _]] _]; [|by apply Hn in Hr].
      by apply Hid in Hor.
    + destruct Hid as [Hid _]. specialize (Hid eq_refl). rewrite app_nil, check_activity_operation_spec.
      destruct (constrained_effective_reasoning_for_route _ _ _ _) eqn:Ek;
        rewrite push_if_nil, ?bool_decide_ne_false, ?bool_decide_eq_false; (split; [|
        intros [[(? & ? & ? & (-> & -> & ->)%Huniq & _ & H)|[Hn _]] ?]; [|by apply Hn in Hr]; by rewrite Ek in H]);
        intros [? ?]; split; try done; left; exists api, endpoint, model; by rewrite Ek.
  - rewrite app_nil, push_if_nil, bool_decide_ne_false, check_activity_operation_spec.
    assert (Hn : forall api endpoint model, ~ recorded_route a api endpoint model).
    { intros api endpoint model Hr. assert (provenance_is_bounded a = true); [|congruence].
      apply provenance_is_bounded_spec. eauto. }
    split; [intros [? ?]; auto|]. intros [[(? & ? & ? & Hr & _)|[_ ?]] ?]; [by apply Hn in Hr|done].
Qed.

Lemma check_activity_spec g a : check_activity g a = [] <-> activity_ok g a.
Proof.
  unfold check_activity. rewrite !app_nil, !push_if_nil, !orb_false_iff, bad_characters_spec, Z.ltb_ge.
  assert (Hreq : (match act_requested a with
      | ReasoningEffortTier.ThinkingEnabledGranularityUnavailable | ReasoningEffortTier.Unavailable => true
      | _ => false end) = false <->
    act_requested a <> ReasoningEffortTier.ThinkingEnabledGranularityUnavailable /\
    act_requested a <> ReasoningEffortTier.Unavailable) by (destruct (act_requested a); naive_solver).
  assert (Hne : str_is_empty (act_provider a) = false <-> act_provider a <> [])
    by (by destruct (act_provider a)).
  rewrite Hreq, Hne.
  match goal with |- context [?x = []] =>
    lazymatch x with (if _ then _ else _) =>
      assert (Hroute : x = [] <-> route_ok a /\ operation_ok g a) end end.
  { apply check_route_spec. }
  rewrite Hroute. split; [intros Hall; constructor; tauto|intros [? ? ? ?]; tauto].
Qed.

Lemma is_live_operation_spec n :
  is_live_operation n = true <->
  node_kind n = NodeKind.Operation /\
  node_state n ∈ [NodeState.Initializing; NodeState.Active; NodeState.Waiting].
Proof.
  assert (Hs : forall s, NodeState.is_live s = true <->
    s ∈ [NodeState.Initializing; NodeState.Active; NodeState.Waiting]).
  { intros s. split; [destruct s; try done; set_solver|]. rewrite !elem_of_cons.
    intros [->|[->|[->|Hn%not_elem_of_nil]]]; done. }
  unfold is_live_operation. by rewrite andb_true_iff, bool_decide_eq_true, Hs.
Qed.

Lemma check_v2_spec g :
  check_v2_live_operations_rooted g = [] <->
  forall n, n ∈ nodes g -> node_kind n = NodeKind.Operation ->
    node_state n ∈ [NodeState.Initializing; NodeState.Active; NodeState.Waiting] -> rooted g (node_id n).
Proof.
  unfold check_v2_live_operations_rooted. rewrite bind_nil.
  split; intros H n Hn; specialize (H n Hn).
  - intros Hk Hs. rewrite (proj2 (is_live_operation_spec n)), push_if_nil, negb_false_iff in H by done.
    by apply has_root_rooted, is_rooted_spec.
  - destruct (is_live_operation n) eqn:E; [|done]. apply is_live_operation_spec in E as [Hk Hs].
    apply push_if_nil, negb_false_iff, is_rooted_spec, has_root_rooted. auto.
Qed.

Lemma check_v3_spec g :
  check_v3_binding_only_on_operations g = [] <->
  forall n, n ∈ nodes g -> is_Some (node_binding n) -> node_kind n = NodeKind.Operation.
Proof.
  unfold check_v3_binding_only_on_operations. rewrite bind_nil.
  split; intros H n Hn; specialize (H n Hn).
  - rewrite push_if_nil, andb_false_iff, negb_false_iff, bool_decide_ne_false in H.
    intros [b Hb]. rewrite Hb in H. by destruct H.
  - rewrite push_if_nil, andb_false_iff, negb_false_iff, bool_decide_ne_false.
    destruct (node_binding n); [right; auto|by left].
Qed.

Lemma is_satisfied_by_spec r payload :
  is_satisfied_by r payload = true <-> r = EvidenceOfKind (EvidenceKind.tag (ref_kind payload)).
Proof. destruct r. cbn. rewrite bool_decide_eq_true. naive_solver. Qed.

Lemma requirement_satisfied_spec g id r :
  requirement_satisfied (verifying_evidence g id) r = true <-> evidence_for g id r.
Proof.
  unfold requirement_satisfied, verifying_evidence, evidence_for. rewrite existsb_spec. split.
  - intros (ev & [Hk (e & [[Hv Ht]%andb_true_iff He]%elem_of_retain & Hev)%list_elem_of_omap]%elem_of_retain & Hs).
    apply bool_decide_eq_true in Hk, Hv, Ht.
    destruct (node_evidence ev) as [payload|] eqn:Hp; [|done]. apply is_satisfied_by_spec in Hs.
    exists e, ev, payload. by split_and!.
  - intros (e & ev & payload & He & Hv & Ht & Hev & Hk & Hp & Hs%is_satisfied_by_spec). exists ev. split; [|by rewrite Hp].
    apply elem_of_retain. split; [by apply bool_decide_eq_true|].
    apply list_elem_of_omap. exists e. split; [|done]. apply elem_of_retain. split; [|done].
    by rewrite !bool_decide_true.
Qed.

Lemma check_v4_spec g :
  check_v4_verified_requires_evidence g = [] <->
  forall n, n ∈ nodes g -> node_state n = NodeState.Verified ->
    node_acceptance n <> [] /\ forall r, r ∈ node_acceptance n -> evidence_for g (node_id n) r.
Proof.
  unfold check_v4_verified_requires_evidence. rewrite bind_nil.
  split; intros H n Hn; specialize (H n Hn).
  - intros Hv. rewrite bool_decide_false in H by tauto.
    destruct (node_acceptance n) as [|a acc]; [done|]. split; [done|]. intros r Hr.
    cbn [is_nil] in H. rewrite bind_nil in H. specialize (H r Hr).
    rewrite push_if_nil, negb_false_iff in H. by apply requirement_satisfied_spec.
  - case_bool_decide as Hv; [done|]. destruct (H Hv) as [Hne Hall].
    destruct (node_acceptance n) as [|a acc] eqn:Ea; [done|]. cbn [is_nil].
    apply bind_nil. intros r Hr. apply push_if_nil, negb_false_iff, requirement_satisfied_spec. auto.
Qed.

Lemma node_is_done_spec n : node_is_done n = false <-> ~ node_done n.
Proof.
  unfold node_is_done, node_done. destruct (node_state n); try (split; [by intros _ [?|[? _]]|done]).
  - destruct (node_acceptance n); cbn [is_nil]; split; try done; [|by intros _ [?|[_ ?]]]. intros H.
    exfalso. apply H. by right.
  - split; [done|]. intros H. exfalso. apply H. by left.
Qed.

Lemma has_unmet_spec g k id : has_unmet g k id = true <-> unmet g k id.
Proof.
  unfold has_unmet, unmet. rewrite existsb_spec. split.
  - intros (e & He & [[Hk Hf]%andb_true_iff Hd]%andb_true_iff).
    apply bool_decide_eq_true in Hk, Hf. destruct (node g (edge_to e)) as [dep|] eqn:Hn; [|done].
    apply negb_true_iff, node_is_done_spec in Hd. exists e, dep. by split_and!.
  - intros (e & dep & He & Hk & Hf & Hn & Hd%node_is_done_spec). exists e. split; [done|].
    by rewrite !bool_decide_true, Hn, Hd.
Qed.

Lemma check_v5_spec g :
  check_v5_blocked_has_cause g = [] <->
  forall n, n ∈ nodes g -> node_state n = NodeState.Blocked ->
    (exists e, e ∈ edges g /\ edge_kind e = EdgeKind.Blocks /\ edge_to e = node_id n) \/
    unmet g EdgeKind.DependsOn (node_id n) \/ unmet g EdgeKind.RequiresApproval (node_id n).
Proof.
  assert (Hedge : forall id, blocked_by_edge g id = true <->
    exists e, e ∈ edges g /\ edge_kind e = EdgeKind.Blocks /\ edge_to e = id).
  { intros id. unfold blocked_by_edge. rewrite existsb_spec. split.
    - intros (e & He & [Hk Ht]%andb_true_iff). apply bool_decide_eq_true in Hk, Ht. eauto.
    - intros (e & He & Hk & Ht). exists e. split; [done|]. by rewrite !bool_decide_true. }
  unfold check_v5_blocked_has_cause. rewrite bind_nil.
  split; intros H n Hn; specialize (H n Hn).
  - intros Hb. rewrite bool_decide_false in H by tauto.
    rewrite push_if_nil, negb_false_iff, !orb_true_iff, !has_unmet_spec, Hedge in H. tauto.
  - case_bool_decide as Hb; [done|]. 
    rewrite push_if_nil, negb_false_iff, !orb_true_iff, !has_unmet_spec, Hedge. specialize (H Hb). tauto.
Qed.

Lemma externals_cons n ns :
  externals (n :: ns) = match node_binding n with Some b => external b :: externals ns | None => externals ns end.
Proof. unfold externals. cbn. by destruct (node_binding n). Qed.

Lemma check_v6_from_spec `{Externs} (seen : gmap str WorkNodeId) ns :
  check_v6_from seen ns = [] <->
  (forall n b, n ∈ ns -> node_binding n = Some b -> external_identity_is_well_formed (external b) = true) /\
  NoDup (externals ns) /\ (forall x, x ∈ externals ns -> seen !! x = None).
Proof.
  revert seen. induction ns as [|n ns IH]; intros seen; cbn [check_v6_from].
  { split; [|done]. intros _.
    split_and!; [by intros n b ?%not_elem_of_nil|constructor|by intros x ?%not_elem_of_nil]. }
  rewrite externals_cons. destruct (node_binding n) as [b|] eqn:Eb.
  - rewrite !app_nil, push_if_nil, negb_false_iff, IH, NoDup_cons.
    assert (Hseen : match seen !! external b with
        | Some previous => push_if true ValidationCode.V6
            ($"external " ++ debug_str (external b) ++ $" bound by both " ++ previous ++ $" and " ++ node_id n)
        | None => [] end = [] <-> seen !! external b = None) by (by destruct (seen !! external b)).
    rewrite Hseen. split.
    + intros (Hwf & Hnone & Hall & Hnd & Hins). split_and!.
      * intros m c [->|Hm]%elem_of_cons Hc; [|by eapply Hall]. by simplify_eq.
      * intros Hin. specialize (Hins _ Hin). by rewrite lookup_insert_eq in Hins.
      * done.
      * intros x [->|Hx]%elem_of_cons; [done|]. specialize (Hins x Hx).
        by apply lookup_insert_None in Hins as [? _].
    + intros (Hall & [Hnin Hnd] & Hnone). split_and!.
      * eapply Hall; [|exact Eb]. by apply elem_of_cons; left.
      * apply Hnone. by apply elem_of_cons; left.
      * intros m c Hm Hc. eapply Hall; [|exact Hc]. by apply elem_of_cons; right.
      * done.
      * intros x Hx. rewrite lookup_insert_ne by (intros <-; done). apply Hnone. by apply elem_of_cons; right.
  - rewrite IH. split; intros (Hall & Hnd & Hnone); split_and!; try done.
    + intros m c [->|Hm]%elem_of_cons Hc; [congruence|by eapply Hall].
    + intros m c Hm Hc. eapply Hall; [|exact Hc]. by apply elem_of_cons; right.
Qed.

Lemma check_v7_spec g :
  check_v7_refs_inert g = [] <->
  forall n, n ∈ nodes g ->
    node_kind n = NodeKind.RuntimeRef \/ node_kind n = NodeKind.LaneRef -> node_state n = NodeState.Ready.
Proof.
  assert (Hr : forall n, is_reference_kind n = true <->
      node_kind n = NodeKind.RuntimeRef \/ node_kind n = NodeKind.LaneRef)
    by (intros n; unfold is_reference_kind; destruct (node_kind n); naive_solver).
  setoid_rewrite <- Hr.
  unfold check_v7_refs_inert. rewrite bind_nil.
  split; intros H n Hn; specialize (H n Hn).
  - rewrite push_if_nil, andb_false_iff, bool_decide_ne_false in H.
    intros Hk. rewrite Hk in H. by destruct H.
  - rewrite push_if_nil, andb_false_iff, bool_decide_ne_false.
    destruct (is_reference_kind n); [right; auto|by left].
Qed.

Lemma check_increasing_spec previous rs :
  check_increasing previous rs = [] <->
  increasing rs /\ forall p r, previous = Some p -> r ∈ rs -> p < receipt_revision r.
Proof.
  unfold increasing. revert previous. induction rs as [|r rs IH]; intros previous; cbn [check_increasing].
  { split; [|done]. intros _. split; [constructor|]. by intros p r _ ?%not_elem_of_nil. }
  assert (Hrec : check_increasing (Some (receipt_revision r)) rs = [] <->
    StronglySorted (fun a b => receipt_revision a < receipt_revision b) (r :: rs)).
  { rewrite IH. split.
    - intros [Hs Hlt]. constructor; [done|]. apply Forall_forall. intros x Hx. by eapply Hlt.
    - intros [Hs Hlt]%StronglySorted_inv. split; [done|]. intros p x [= <-] Hx.
      by eapply Forall_forall in Hlt. }
  destruct previous as [p|].
  - destruct (Z.leb_spec (receipt_revision r) p) as [Hle|Hgt].
    + split; [done|]. intros [_ H]. specialize (H p r eq_refl ltac:(set_solver)). lia.
    + rewrite Hrec. split; [|tauto]. intros Hs. split; [done|]. intros q x [= <-].
      apply StronglySorted_inv in Hs as [_ Hlt]. intros [->|Hx]%elem_of_cons; [lia|].
      eapply Forall_forall in Hlt; [|exact Hx]. cbn in Hlt. lia.
  - rewrite Hrec. split; [|tauto]. intros Hs. split; [done|]. by intros ? ? [=].
Qed.

Lemma check_v8_spec g :
  check_v8_history_bounded_monotonic g = [] <->
  (length (history g) <= HISTORY_CAP)%nat /\ increasing (history g) /\
  forall r, last (history g) = Some r -> receipt_revision r <= u64_saturating_add (revision g) 1.
Proof.
  unfold check_v8_history_bounded_monotonic.
  rewrite !app_nil, push_if_nil, Nat.ltb_ge, check_increasing_spec.
  destruct (last (history g)) as [r|].
  - rewrite push_if_nil, Z.ltb_ge. split.
    + intros (Hb & [Hi _] & Hl). split_and!; [done..|]. by intros ? [= <-].
    + intros (Hb & Hi & Hl). split_and!; try done. by apply Hl.
  - split; [intros (Hb & [Hi _] & _); by split_and!|intros (Hb & Hi & _); by split_and!].
Qed.

Lemma active_todos_spec g :
  (active_todos g <= 1)%nat <-> forall i j, active_row g i -> active_row g j -> i = j.
Proof.
  unfold active_todos. rewrite retain_at_most_one. unfold active_row. split.
  - intros H i j (b & n & Hb & Hn & Hs) (c & m & Hc & Hm & Ht). apply (H i j b c Hb Hc).
    + rewrite Hn. by apply bool_decide_eq_true.
    + rewrite Hm. by apply bool_decide_eq_true.
  - intros H i j b c Hb Hc Pb Pc.
    destruct (node g (todo_node b)) as [n|] eqn:Hn; [|done]. apply bool_decide_eq_true in Pb.
    destruct (node g (todo_node c)) as [m|] eqn:Hm; [|done]. apply bool_decide_eq_true in Pc.
    apply H; [by exists b, n|by exists c, m].
Qed.

Lemma check_structural_spec g :
  check_structural g = [] <->
  schema g = SCHEMA_VERSION /\
  (NoDup (node_id <$> nodes g) /\
   forall n, n ∈ nodes g -> is_Some (node_evidence n) -> node_kind n = NodeKind.Evidence) /\
  (NoDup (edge_id <$> edges g) /\
   forall e, e ∈ edges g -> edge_from e ∈ node_id <$> nodes g /\ edge_to e ∈ node_id <$> nodes g) /\
  (NoDup (plan_order (compat g)) /\ forall id, id ∈ plan_order (compat g) -> plan_step g id) /\
  (NoDup (legacy_id <$> todos (compat g)) /\
   forall b, b ∈ todos (compat g) -> legacy_id b <> 0 /\ plan_step g (todo_node b) /\
     forall i, plan_index b = Some i -> zget (plan_order (compat g)) i = Some (todo_node b)) /\
  (forall i j, active_row g i -> active_row g j -> i = j) /\
  (length (activities g) <= 256)%nat /\
  (forall a, a ∈ activities g -> activity_ok g a).
Proof.
  unfold check_structural.
  rewrite !app_nil, !push_if_nil, bool_decide_ne_false, check_nodes_spec, check_edges_spec,
    check_plan_order_spec, check_todos_spec, !Nat.ltb_ge, active_todos_spec, bind_nil.
  assert (Hnil : forall A (P : A -> Prop), (forall x : A, x ∈ [] -> P x) <-> True)
    by (intros A P; split; [done|]; intros _ x Hx; by apply not_elem_of_nil in Hx).
  rewrite !Hnil.
  assert (Hact : (forall x, x ∈ activities g -> check_activity g x = []) <->
                 (forall a, a ∈ activities g -> activity_ok g a))
    by (split; intros H a Ha; apply check_activity_spec; by apply H).
  rewrite Hact. tauto.
Qed.

(** A snapshot whose edges join its own nodes has a reachable cycle exactly when
    it has a cycle. *)
Lemma cycle_reachable g :
  (forall e, e ∈ edges g -> edge_from e ∈ node_id <$> nodes g /\ edge_to e ∈ node_id <$> nodes g) ->
  (forall n, n ∈ nodes g -> ~ reaches_cycle g (node_id n)) <->
  (forall id, ~ tc (depends_on g) id id).
Proof.
  intros Hends. split.
  - intros H id Hid.
    assert (id ∈ node_id <$> nodes g) as (n & -> & Hn)%list_elem_of_fmap.
    { inversion Hid as [? ? (e & He & _ & <- & _)|? ? ? (e & He & _ & <- & _)]; by apply Hends. }
    apply (H n Hn). by exists (node_id n).
  - intros H n Hn (m & _ & Hm). by apply (H m).
Qed.

(** Validation accepts exactly the well-formed snapshots. *)
Lemma validate_well_formed `{Externs} g : validate g = Ok tt <-> well_formed g.
Proof.
  assert (Hv : validate g = Ok tt <-> all_violations g = [])
    by (unfold validate; by destruct (all_violations g)).
  rewrite Hv. unfold all_violations.
  rewrite !app_nil, check_structural_spec, check_v1_spec, check_v2_spec, check_v3_spec, check_v4_spec,
    check_v5_spec, check_v7_spec, check_v8_spec.
  unfold check_v6_binding_identity. rewrite check_v6_from_spec.
  split.
  - intros ((H1 & (H2 & H3) & (H4 & H5) & H6 & (H7 & H8) & H9 & H10 & H11) & H12 & H13 & H14 & H15 & H16 &
      (H17 & H18 & _) & H19 & (H20 & H21 & H22)).
    pose proof (proj1 (cycle_reachable g H5) H12). constructor; assumption.
  - intros [? ? ? ? He [? ?] ? ? ? ? ? ? ? ? ? ? ? ? ? ? ? ?].
    split_and!; try assumption; [by apply (cycle_reachable g He)|].
    intros x _. apply lookup_empty.
Qed.

Lemma validate_Ok `{Externs} g u : validate g = Ok u <-> well_formed g.
Proof. destruct u. apply validate_well_formed. Qed.

Lemma well_formed_new : well_formed new.
Proof.
  constructor; cbn; try done; try (by intros ? ?%not_elem_of_nil); try (by constructor);
    try lia.
  - split; [constructor|by intros ? ?%not_elem_of_nil].
  - by intros i j (b & n & Hb & _).
  - intros id Hid. inversion Hid as [? ? (e & He & _)|? ? ? (e & He & _)]; by apply not_elem_of_nil in He.
  - by intros ? ? ?%not_elem_of_nil.
Qed.
