(* ===== verification/WorkReducer.v ===== *)
(** * The work graph: the reducer

    [crates/tui/src/work_graph/reducer.rs], the only write path.  A change is
    applied to a copy, the copy is validated, and only then the revision, the
    history and the deduplication window move; an error returns a report and no
    snapshot. *)

From S2P Require Import Text WorkModel WorkValidate.

Definition structural (m : str) : ValidationReport := single ValidationCode.Structural m.

Section reducer.
Context `{Externs}.

(** ** Nodes and edges *)

Definition add_node (next : WorkGraphSnapshot) (n : WorkNode)
  : result ValidationReport WorkGraphSnapshot :=
  reject_if (negb (opt_is_none (node next (node_id n)))) (structural ($"duplicate node " ++ node_id n));;
  Ok (with_nodes next (nodes next ++ [n])).

Definition add_edge (next : WorkGraphSnapshot) (e : WorkEdge)
  : result ValidationReport WorkGraphSnapshot :=
  reject_if (negb (opt_is_none (edge next (edge_id e)))) (structural ($"duplicate edge " ++ edge_id e));;
  foldM (fun (_ : unit) endpoint =>
           reject_if (opt_is_none (node next endpoint))
             (structural ($"edge " ++ edge_id e ++ $" references missing node " ++ endpoint)))
    tt [edge_from e; edge_to e];;
  Ok (with_edges next (edges next ++ [e])).

Definition remove_edge (next : WorkGraphSnapshot) (id : WorkEdgeId)
  : result ValidationReport WorkGraphSnapshot :=
  let kept := retain (fun e => negb (bool_decide (edge_id e = id))) (edges next) in
  reject_if (length kept =? length (edges next))%nat (structural ($"edge " ++ id ++ $" not found"));;
  Ok (with_edges next kept).

Definition patched (n : WorkNode) (patch : WorkNodePatch) (now : Ts) : WorkNode :=
  {| node_id := node_id n; node_kind := node_kind n;
     node_title := default (node_title n) (patch_title patch);
     node_state := default (node_state n) (patch_state patch);
     node_acceptance := default (node_acceptance n) (patch_acceptance patch);
     node_binding := node_binding n; node_evidence := node_evidence n;
     node_provenance := default (node_provenance n) (patch_provenance patch);
     node_created_at := node_created_at n; node_updated_at := now |}.

Definition patch_node (next : WorkGraphSnapshot) (id : WorkNodeId) (patch : WorkNodePatch) (now : Ts)
  : result ValidationReport WorkGraphSnapshot :=
  n ← ok_or (node next id) (structural ($"node " ++ id ++ $" not found"));
  reject_if (NodeState.is_terminal (node_state n) && negb (opt_is_none (patch_state patch)))
    (single ValidationCode.V9
       ($"node " ++ id ++ $" is terminal (" ++ NodeState.debug (node_state n)
        ++ $"); use Supersede to replace it"));;
  Ok (with_nodes next (replace_node id (patched n patch now) (nodes next))).

(** A node with another state, binding and modification time. *)
Definition restated (n : WorkNode) (state : NodeState) (binding : option OperationBinding) (now : Ts)
  : WorkNode :=
  {| node_id := node_id n; node_kind := node_kind n; node_title := node_title n;
     node_state := state; node_acceptance := node_acceptance n; node_binding := binding;
     node_evidence := node_evidence n; node_provenance := node_provenance n;
     node_created_at := node_created_at n; node_updated_at := now |}.

Definition bind_operation (next : WorkGraphSnapshot) (id : WorkNodeId) (binding : OperationBinding)
  (now : Ts) : result ValidationReport WorkGraphSnapshot :=
  n ← ok_or (node next id) (structural ($"node " ++ id ++ $" not found"));
  Ok (with_nodes next (replace_node id (restated n (node_state n) (Some binding) now) (nodes next))).

(** ** Owner observations *)

Definition state_of_owner (s : OwnerState) : NodeState :=
  match s with
  | OwnerState.Initializing => NodeState.Initializing
  | OwnerState.Running => NodeState.Active
  | OwnerState.Waiting => NodeState.Waiting
  | OwnerState.Completed => NodeState.Completed
  | OwnerState.Failed => NodeState.Failed
  | OwnerState.Cancelled => NodeState.Cancelled
  end.

(** [new_state]: what an observation claims. *)
Definition observed_state (obs : OperationObservation) : option NodeState :=
  match obs with
  | OwnerReported state _ _ _ => Some (state_of_owner state)
  | OwnerMissing _ => Some NodeState.Stale
  | CancelUpdate outcome _ =>
      match outcome with
      | CancelOutcome.Requested | CancelOutcome.Acknowledged | CancelOutcome.AlreadyFinished => None
      | CancelOutcome.Forced => Some NodeState.Cancelled
      | CancelOutcome.NotFound | CancelOutcome.StaleUnknown => Some NodeState.Stale
      end
  end.

Definition observed_binding (binding : OperationBinding) (obs : OperationObservation)
  : OperationBinding :=
  match obs with
  | OwnerReported state seq at_ output =>
      {| external := external binding; durable := durable binding;
         last_observation := Some {| obs_owner_state := state; obs_seq := seq;
           obs_observed_at := at_; obs_output := output |} |}
  | _ => binding
  end.

Definition reconciled_state (current : NodeState) (obs : OperationObservation) : NodeState :=
  match observed_state obs with
  | Some state => if negb (NodeState.is_terminal current) then state else current
  | None => current
  end.

Definition reconcile (next : WorkGraphSnapshot) (id : WorkNodeId) (obs : OperationObservation)
  (ctx : ChangeCtx) : result ValidationReport WorkGraphSnapshot :=
  n ← ok_or (node next id) (structural ($"node " ++ id ++ $" not found"));
  binding ← ok_or (node_binding n) (structural ($"node " ++ id ++ $" has no operation binding"));
  Ok (with_nodes next
        (replace_node id
           (restated n (reconciled_state (node_state n) obs) (Some (observed_binding binding obs)) (now ctx))
           (nodes next))).

(** ** Evidence *)

Definition evidence_node_id (ctx : ChangeCtx) (target : WorkNodeId) (evidence : EvidenceRef) : WorkNodeId :=
  WorkNodeId_derive (session_id ctx) ($"evidence:" ++ target ++ $":" ++ ref_reference evidence).

Definition attach_evidence (next : WorkGraphSnapshot) (target : WorkNodeId) (evidence : EvidenceRef)
  (ctx : ChangeCtx) : result ValidationReport WorkGraphSnapshot :=
  reject_if (opt_is_none (node next target)) (structural ($"node " ++ target ++ $" not found"));;
  let evidence_id := evidence_node_id ctx target evidence in
  next ← add_node next
    {| node_id := evidence_id; node_kind := NodeKind.Evidence;
       node_title := $"evidence: " ++ ref_reference evidence; node_state := NodeState.Completed;
       node_acceptance := []; node_binding := None; node_evidence := Some evidence;
       node_provenance := RuntimeReconcile $"attach_evidence" (now ctx);
       node_created_at := now ctx; node_updated_at := now ctx |};
  add_edge next
    {| edge_id := WorkEdgeId_derive (session_id ctx) ($"verifies:" ++ evidence_id ++ $":" ++ target);
       edge_kind := EdgeKind.Verifies; edge_from := evidence_id; edge_to := target |}.

(** ** Plan diffs *)

Definition remove_node (next : WorkGraphSnapshot) (id : WorkNodeId)
  : result ValidationReport WorkGraphSnapshot :=
  reject_if (existsb (fun e => bool_decide (edge_from e = id) || bool_decide (edge_to e = id)) (edges next))
    (structural ($"node " ++ id ++ $" still has edges after proposed removals"));;
  let kept := retain (fun n => negb (bool_decide (node_id n = id))) (nodes next) in
  reject_if (length kept =? length (nodes next))%nat (structural ($"node " ++ id ++ $" not found"));;
  Ok (with_nodes next kept).

Definition apply_proposal (next : WorkGraphSnapshot) (proposal : WorkGraphProposal) (ctx : ChangeCtx)
  : result ValidationReport WorkGraphSnapshot :=
  next ← foldM add_node next (added_nodes proposal);
  next ← foldM add_edge next (added_edges proposal);
  next ← foldM (fun next u => patch_node next (update_id u) (update_patch u) (now ctx)) next
           (updated_nodes proposal);
  next ← foldM remove_edge next (removed_edges proposal);
  next ← foldM remove_node next (removed_nodes proposal);
  Ok (match replacement_compat proposal with
      | Some compat => with_compat next compat
      | None => next
      end).

Definition preview_plan_diff (current : WorkGraphSnapshot) (proposal : WorkGraphProposal)
  (ctx : ChangeCtx) : result ValidationReport WorkGraphSnapshot :=
  candidate ← apply_proposal current proposal ctx;
  validate candidate;;
  Ok candidate.

Definition validate_proposal (current : WorkGraphSnapshot) (proposal : WorkGraphProposal)
  (ctx : ChangeCtx) : result ValidationReport unit :=
  preview_plan_diff current proposal ctx;;
  Ok tt.

Definition propose_plan_diff (next : WorkGraphSnapshot) (proposal : WorkGraphProposal)
  (ctx : ChangeCtx) : result ValidationReport WorkGraphSnapshot :=
  reject_if (existsb (fun p => bool_decide (proposal_id p = proposal_id proposal)) (proposals next))
    (structural ($"duplicate proposal " ++ proposal_id proposal));;
  validate_proposal next proposal ctx;;
  Ok (with_proposals next (proposals next ++ [proposal])).

Definition withdraw_plan_diff (next : WorkGraphSnapshot) (id : ProposalId)
  : result ValidationReport WorkGraphSnapshot :=
  let kept := retain (fun p => negb (bool_decide (proposal_id p = id))) (proposals next) in
  reject_if (length kept =? length (proposals next))%nat
    (structural ($"proposal " ++ id ++ $" not found"));;
  Ok (with_proposals next kept).

(** The Approval node that records an acceptance. *)
Definition approval_node (ctx : ChangeCtx) (id : ProposalId) (approval : ApprovalRef) : WorkNode :=
  {| node_id := WorkNodeId_derive (session_id ctx) ($"approval:" ++ id);
     node_kind := NodeKind.Approval;
     node_title := $"plan diff approved: " ++ approval_reference approval;
     node_state := NodeState.Completed; node_acceptance := []; node_binding := None;
     node_evidence := None; node_provenance := UserEdit id;
     node_created_at := now ctx; node_updated_at := now ctx |}.

Definition accept_plan_diff (next : WorkGraphSnapshot) (id : ProposalId) (approval : ApprovalRef)
  (ctx : ChangeCtx) : result ValidationReport WorkGraphSnapshot :=
  index ← ok_or (position (fun p => bool_decide (proposal_id p = id)) (proposals next))
    (structural ($"proposal " ++ id ++ $" not found"));
  proposal ← ok_or (proposals next !! index) (structural $"unreachable");
  next ← apply_proposal (with_proposals next (delete index (proposals next))) proposal ctx;
  add_node next (approval_node ctx id approval).

(** ** Supersession *)

Definition supersede (next : WorkGraphSnapshot) (old replacement : WorkNodeId) (ctx : ChangeCtx)
  : result ValidationReport WorkGraphSnapshot :=
  reject_if (bool_decide (old = replacement)) (structural $"node cannot supersede itself");;
  reject_if (opt_is_none (node next replacement))
    (structural ($"replacement node " ++ replacement ++ $" not found"));;
  n ← ok_or (node next old) (structural ($"node " ++ old ++ $" not found"));
  add_edge
    (with_nodes next
       (replace_node old (restated n NodeState.Superseded (node_binding n) (now ctx)) (nodes next)))
    {| edge_id := WorkEdgeId_derive (session_id ctx) ($"supersedes:" ++ replacement ++ $":" ++ old);
       edge_kind := EdgeKind.Supersedes; edge_from := replacement; edge_to := old |}.

(** ** Activities *)

Definition record_activity (next : WorkGraphSnapshot) (event : WorkActivityEvent)
  : result ValidationReport WorkGraphSnapshot :=
  match act_operation event with
  | Some operation =>
      n ← ok_or (node next operation)
        (structural ($"activity references missing operation " ++ operation));
      reject_if (bool_decide (node_kind n <> NodeKind.Operation) || negb (NodeState.is_live (node_state n)))
        (structural ($"activity operation " ++ operation ++ $" is not live"))
  | None => Ok tt
  end;;
  Ok (with_activities next (push_bounded ACTIVITY_CAP (activities next) event)).

(** ** The reducer *)

Definition apply_pure (g : WorkGraphSnapshot) (change : WorkGraphChange) (ctx : ChangeCtx)
  : result ValidationReport WorkGraphSnapshot :=
  match change with
  | AddNode n => add_node g n
  | UpdateNode id patch => patch_node g id patch (now ctx)
  | AddEdge e => add_edge g e
  | RemoveEdge id => remove_edge g id
  | BindOperation id binding => bind_operation g id binding (now ctx)
  | ReconcileOperation id obs => reconcile g id obs ctx
  | AttachEvidence id evidence => attach_evidence g id evidence ctx
  | ProposePlanDiff proposal => propose_plan_diff g proposal ctx
  | WithdrawPlanDiff id => withdraw_plan_diff g id
  | AcceptPlanDiff id approval => accept_plan_diff g id approval ctx
  | Supersede old replacement => supersede g old replacement ctx
  | ReplaceCompatProjection compat => Ok (with_compat g compat)
  | SetImportDigest digest =>
      reject_if (str_is_empty digest) (structural $"legacy import digest cannot be empty");;
      Ok (with_import_digest g (Some digest))
  | RecordActivity event => record_activity g event
  end.

Definition noop_receipt (g : WorkGraphSnapshot) (change : WorkGraphChange) (ctx : ChangeCtx)
  (key : IdempotencyKey) : ChangeReceipt :=
  {| change_id := ChangeId_derive (session_id ctx)
       ($"noop:" ++ key_binding key ++ $":" ++ display_u (key_seq key));
     receipt_revision := revision g; summary := kind_name change ++ $" (duplicate)";
     applied_at := now ctx; receipt_key := Some key; no_op := true |}.

(** The key of [ctx] when the deduplication window holds it. *)
Definition duplicate_key (g : WorkGraphSnapshot) (ctx : ChangeCtx) : option IdempotencyKey :=
  match idempotency_key ctx with
  | Some key => if bool_decide (key ∈ seen_keys g) then Some key else None
  | None => None
  end.

Definition seen_after (g : WorkGraphSnapshot) (ctx : ChangeCtx) : list IdempotencyKey :=
  match idempotency_key ctx with
  | Some key => (insert_bounded SEEN_KEYS_CAP (seen_keys g) key).1
  | None => seen_keys g
  end.

Definition apply (g : WorkGraphSnapshot) (change : WorkGraphChange) (ctx : ChangeCtx)
  : result ValidationReport (WorkGraphSnapshot * ChangeReceipt) :=
  match duplicate_key g ctx with
  | Some key => Ok (g, noop_receipt g change ctx key)
  | None =>
      next ← apply_pure g change ctx;
      validate next;;
      let rev := u64_add (revision g) 1 in
      let receipt := receipt_of change rev ctx in
      Ok (with_receipt next rev (push_bounded HISTORY_CAP (history next) receipt) (seen_after next ctx),
          receipt)
  end.
End reducer.
