(* ===== verification/WorkReducerFacts.v ===== *)
(** * The work graph: lemmas about the reducer

    The frame of every operation, how node lookups evolve, and the inversion of
    [apply]. *)

From S2P Require Import Text WorkModel WorkValidate WorkInvariant WorkReducer.

(** ** Bounded containers *)

Lemma push_bounded_length {A} cap (l : list A) x :
  (0 < cap)%nat -> (length l <= cap)%nat -> (length (push_bounded cap l x) <= cap)%nat.
Proof.
  intros Hc Hl. unfold push_bounded. rewrite length_app. cbn [length].
  destruct (Nat.leb_spec cap (length l)); destruct l; cbn [length tail] in *; lia.
Qed.

Lemma push_bounded_elem {A} cap (l : list A) x y : y ∈ push_bounded cap l x -> y ∈ l \/ y = x.
Proof.
  unfold push_bounded. rewrite elem_of_app, list_elem_of_singleton.
  destruct (_ <=? _)%nat; [|tauto]. intros [Hy|?]; [left; by apply elem_of_tail|by right].
Qed.

Lemma push_bounded_last {A} cap (l : list A) x : last (push_bounded cap l x) = Some x.
Proof. apply last_snoc. Qed.

Lemma tail_sorted {A} (R : A -> A -> Prop) l : StronglySorted R l -> StronglySorted R (tail l).
Proof. intros H. destruct l; cbn; [constructor|]. by apply StronglySorted_inv in H as [? _]. Qed.

Lemma sorted_snoc {A} (R : A -> A -> Prop) l x :
  StronglySorted R l -> (forall y, y ∈ l -> R y x) -> StronglySorted R (l ++ [x]).
Proof.
  induction 1 as [|y l Hs IH Hy]; intros Hx; cbn; [by repeat constructor|].
  constructor.
  - apply IH. intros z Hz. apply Hx. by apply elem_of_cons; right.
  - apply Forall_app. split; [done|]. constructor; [|done]. apply Hx. by apply elem_of_cons; left.
Qed.

Lemma push_bounded_increasing cap rs r :
  increasing rs -> (forall r', r' ∈ rs -> receipt_revision r' < receipt_revision r) ->
  increasing (push_bounded cap rs r).
Proof.
  intros Hi Hlt. unfold push_bounded, increasing. apply sorted_snoc.
  - destruct (_ <=? _)%nat; [by apply tail_sorted|done].
  - intros y Hy. apply Hlt. destruct (_ <=? _)%nat; [by apply elem_of_tail|done].
Qed.

Lemma insert_bounded_in `{EqDecision A} cap (l : list A) x : x ∈ (insert_bounded cap l x).1.
Proof. unfold insert_bounded. case_bool_decide; [done|]. cbn. set_solver. Qed.

Lemma insert_bounded_inv `{EqDecision A} cap (l : list A) x :
  (0 < cap)%nat -> NoDup l -> (length l <= cap)%nat ->
  NoDup (insert_bounded cap l x).1 /\ (length (insert_bounded cap l x).1 <= cap)%nat.
Proof.
  intros Hc Hnd Hl. unfold insert_bounded. case_bool_decide as Hx; [done|].
  split; [|by apply (push_bounded_length cap l x)]. cbn.
  assert (Hkept : forall l', l' = l \/ l' = tail l -> NoDup (l' ++ [x])).
  { intros l' Hl'. apply NoDup_app. split_and!; [| |apply NoDup_singleton].
    - destruct Hl' as [->| ->]; [done|]. destruct l; [done|]. by apply NoDup_cons in Hnd as [_ ?].
    - intros y Hy ->%list_elem_of_singleton. apply Hx. destruct Hl' as [->| ->]; [done|]. by apply elem_of_tail. }
  destruct (_ <=? _)%nat; apply Hkept; auto.
Qed.

(** ** Frames *)

(** The fields only [apply] itself moves. *)
Definition same_log (g g' : WorkGraphSnapshot) : Prop :=
  revision g' = revision g /\ history g' = history g /\ seen_keys g' = seen_keys g /\ schema g' = schema g.

#[export] Instance same_log_preorder : PreOrder same_log.
Proof.
  split; [by intros g|]. intros g1 g2 g3 (? & ? & ? & ?) (? & ? & ? & ?). split_and!; congruence.
Qed.

Section reducer.
Context `{Externs}.

Lemma add_node_Ok next n next' :
  add_node next n = Ok next' <->
  node next (node_id n) = None /\ next' = with_nodes next (nodes next ++ [n]).
Proof.
  unfold add_node. rewrite bind_Ok. split.
  - intros (u & Hu%reject_if_Ok & [= <-]). apply negb_false_iff in Hu.
    by destruct (node next (node_id n)).
  - intros [Hn ->]. exists tt. split; [|done]. by rewrite Hn.
Qed.

Lemma add_edge_Ok next e next' :
  add_edge next e = Ok next' <->
  edge next (edge_id e) = None /\ is_Some (node next (edge_from e)) /\ is_Some (node next (edge_to e)) /\
  next' = with_edges next (edges next ++ [e]).
Proof.
  unfold add_edge. cbn [foldM]. split.
  - intros (u & Hu%reject_if_Ok & (v & Hv & [= <-])%bind_Ok)%bind_Ok.
    apply bind_Ok in Hv as (w & Hw%reject_if_Ok & Hv). apply bind_Ok in Hv as (z & Hz%reject_if_Ok & _).
    rewrite opt_is_none_false in Hw, Hz. apply negb_false_iff in Hu.
    split_and!; try done. by destruct (edge next (edge_id e)).
  - intros (He & [n1 Hf] & [n2 Ht] & ->). rewrite He. simpl. rewrite Hf. simpl. by rewrite Ht.
Qed.

Lemma patch_node_Ok next id patch t next' :
  patch_node next id patch t = Ok next' <->
  exists n, node next id = Some n /\
    (NodeState.is_terminal (node_state n) = true -> patch_state patch = None) /\
    next' = with_nodes next (replace_node id (patched n patch t) (nodes next)).
Proof.
  unfold patch_node. rewrite bind_Ok. split.
  - intros (n & Hn%ok_or_Ok & (u & Hu%reject_if_Ok & [= <-])%bind_Ok). exists n. split_and!; [done| |done].
    intros Hterm. rewrite Hterm in Hu. apply negb_false_iff in Hu. by destruct (patch_state patch).
  - intros (n & Hn & Hterm & ->). exists n. rewrite Hn. split; [done|].
    assert (NodeState.is_terminal (node_state n) && negb (opt_is_none (patch_state patch)) = false) as ->.
    { destruct (NodeState.is_terminal (node_state n)); [|done]. by rewrite Hterm. }
    done.
Qed.

Lemma remove_edge_Ok next id next' :
  remove_edge next id = Ok next' ->
  next' = with_edges next (retain (fun e => negb (bool_decide (edge_id e = id))) (edges next)).
Proof. unfold remove_edge. by intros (u & _ & [= <-])%bind_Ok. Qed.

Lemma remove_node_Ok next id next' :
  remove_node next id = Ok next' ->
  next' = with_nodes next (retain (fun n => negb (bool_decide (node_id n = id))) (nodes next)).
Proof. unfold remove_node. by intros (u & _ & (v & _ & [= <-])%bind_Ok)%bind_Ok. Qed.

(** The state of an acceptance: what each phase of [apply_proposal] keeps is
    kept by the whole. *)
Lemma apply_proposal_invariant (P : WorkGraphSnapshot -> Prop) proposal ctx :
  (forall s n s', P s -> add_node s n = Ok s' -> P s') ->
  (forall s e s', P s -> add_edge s e = Ok s' -> P s') ->
  (forall s u s', P s -> patch_node s (update_id u) (update_patch u) (now ctx) = Ok s' -> P s') ->
  (forall s id s', P s -> remove_edge s id = Ok s' -> P s') ->
  (forall s id s', id ∈ removed_nodes proposal -> P s -> remove_node s id = Ok s' -> P s') ->
  (forall s c, P s -> P (with_compat s c)) ->
  forall s s', P s -> apply_proposal s proposal ctx = Ok s' -> P s'.
Proof.
  intros H1 H2 H3 H4 H5 H6 s s' Hs. unfold apply_proposal.
  intros (s1 & E1 & (s2 & E2 & (s3 & E3 & (s4 & E4 & (s5 & E5 & Hlast)%bind_Ok)%bind_Ok)%bind_Ok)%bind_Ok)%bind_Ok.
  assert (P1 : P s1) by (eapply foldM_invariant; [|exact Hs|exact E1]; intros; by eapply H1).
  assert (P2 : P s2) by (eapply foldM_invariant; [|exact P1|exact E2]; intros; by eapply H2).
  assert (P3 : P s3) by (eapply foldM_invariant; [|exact P2|exact E3]; cbn beta; intros; by eapply H3).
  assert (P4 : P s4) by (eapply foldM_invariant; [|exact P3|exact E4]; intros; by eapply H4).
  assert (P5 : P s5) by (eapply foldM_invariant; [|exact P4|exact E5]; intros; by eapply H5).
  destruct (replacement_compat proposal); injection Hlast as <-; [by apply H6|done].
Qed.

Ltac frame_op :=
  match goal with
  | E : add_node _ _ = Ok _ |- _ => apply add_node_Ok in E as (_ & ->)
  | E : add_edge _ _ = Ok _ |- _ => apply add_edge_Ok in E as (_ & _ & _ & ->)
  | E : patch_node _ _ _ _ = Ok _ |- _ => apply patch_node_Ok in E as (? & _ & _ & ->)
  | E : remove_edge _ _ = Ok _ |- _ => apply remove_edge_Ok in E as ->
  | E : remove_node _ _ = Ok _ |- _ => apply remove_node_Ok in E as ->
  end.

Lemma apply_proposal_log s proposal ctx s' :
  apply_proposal s proposal ctx = Ok s' -> same_log s s' /\ proposals s' = proposals s /\ activities s' = activities s.
Proof.
  apply (apply_proposal_invariant (fun x => same_log s x /\ proposals x = proposals s /\ activities x = activities s));
    try (intros; frame_op; done); done.
Qed.

Lemma apply_pure_log g change ctx next : apply_pure g change ctx = Ok next -> same_log g next.
Proof.
  destruct change; cbn [apply_pure]; intros E; try (by frame_op).
  - unfold bind_operation in E. inv_bind. done.
  - unfold reconcile in E. inv_bind. done.
  - unfold attach_evidence in E. apply bind_Ok in E as (_ & _ & (g1 & E1 & E2)%bind_Ok). by repeat frame_op.
  - unfold propose_plan_diff in E. inv_bind. done.
  - unfold withdraw_plan_diff in E. inv_bind. done.
  - unfold accept_plan_diff in E.
    apply bind_Ok in E as (i & _ & (p & _ & (g1 & E1%apply_proposal_log & E2)%bind_Ok)%bind_Ok).
    frame_op. by destruct E1 as ((? & ? & ? & ?) & _).
  - unfold supersede in E. apply bind_Ok in E as (_ & _ & (_ & _ & (n & _ & E)%bind_Ok)%bind_Ok). by frame_op.
  - injection E as <-. done.
  - inv_bind. done.
  - unfold record_activity in E. apply bind_Ok in E as (_ & _ & [= <-]). done.
Qed.

(** ** Lookups *)

Lemma node_with_nodes_app g n id m :
  node g id = Some m -> node (with_nodes g (nodes g ++ [n])) id = Some m.
Proof. unfold node. cbn [nodes with_nodes]. rewrite find_app. by intros ->. Qed.

Lemma find_replace_node ns id id' n' :
  node_id n' = id ->
  find (fun n => bool_decide (node_id n = id')) (replace_node id n' ns) =
  if decide (id' = id) then (fun _ => n') <$> find (fun n => bool_decide (node_id n = id')) ns
  else find (fun n => bool_decide (node_id n = id')) ns.
Proof.
  intros Hid. induction ns as [|n ns IH]; cbn; [by case_decide|].
  destruct (decide (node_id n = id)) as [Hn|Hn].
  - rewrite (bool_decide_true (node_id n = id)) by done. cbn.
    case_decide as Heq; subst; [by rewrite !bool_decide_true|].
    by rewrite !bool_decide_false by congruence.
  - rewrite (bool_decide_false (node_id n = id)) by done. cbn. rewrite IH.
    case_decide as Heq; subst; [by rewrite bool_decide_false|done].
Qed.

Lemma node_replace g id n' id' :
  node_id n' = id ->
  node (with_nodes g (replace_node id n' (nodes g))) id' =
  if decide (id' = id) then (fun _ => n') <$> node g id' else node g id'.
Proof. apply find_replace_node. Qed.

Lemma node_retain g id id' :
  id' <> id ->
  node (with_nodes g (retain (fun n => negb (bool_decide (node_id n = id))) (nodes g))) id' = node g id'.
Proof.
  intros Hne. unfold node. cbn [nodes with_nodes]. induction (nodes g) as [|n ns IH]; [done|].
  unfold retain in *. rewrite filter_cons. cbn [find].
  destruct (decide (node_id n = id)) as [Hn|Hn].
  - rewrite decide_False by (by rewrite bool_decide_true). rewrite bool_decide_false by congruence. exact IH.
  - rewrite decide_True by (by rewrite bool_decide_false). cbn [find]. by rewrite IH.
Qed.

(** ** Persistence of a node *)

(** What no change alters. *)
Definition same_identity (n n' : WorkNode) : Prop :=
  node_id n' = node_id n /\ node_kind n' = node_kind n /\ node_evidence n' = node_evidence n /\
  node_created_at n' = node_created_at n.

Definition persists (id : WorkNodeId) (g g' : WorkGraphSnapshot) : Prop :=
  forall n, node g id = Some n ->
  exists n', node g' id = Some n' /\ same_identity n n' /\
    (NodeState.is_terminal (node_state n) = true -> node_state n' = node_state n).

#[export] Instance persists_preorder id : PreOrder (persists id).
Proof.
  split.
  - intros g n Hn. exists n. by split_and!.
  - intros g1 g2 g3 H12 H23 n Hn. destruct (H12 n Hn) as (n2 & Hn2 & (? & ? & ? & ?) & Ht2).
    destruct (H23 n2 Hn2) as (n3 & Hn3 & (? & ? & ? & ?) & Ht3). exists n3.
    split; [done|]. split; [split_and!; congruence|].
    intros Ht. rewrite Ht3; [by apply Ht2|]. by rewrite Ht2.
Qed.

Lemma persists_same_nodes id g g' : nodes g' = nodes g -> persists id g g'.
Proof. intros E n Hn. exists n. split; [|by split_and!]. unfold node in *. by rewrite E. Qed.

Lemma persists_replace id g i n n' :
  node g i = Some n -> same_identity n n' ->
  (id = i -> NodeState.is_terminal (node_state n) = true -> node_state n' = node_state n) ->
  persists id g (with_nodes g (replace_node i n' (nodes g))).
Proof.
  intros Hn Hid Ht m Hm. pose proof (node_Some _ _ _ Hn) as [_ Hni].
  assert (Hn' : node_id n' = i) by (destruct Hid; congruence).
  rewrite node_replace by done. case_decide as Heq.
  - subst id. rewrite Hm. exists n'. split; [done|]. simplify_eq. split; [done|auto].
  - exists m. by split_and!.
Qed.

Lemma add_node_persists id g n g' : add_node g n = Ok g' -> persists id g g'.
Proof.
  intros [_ ->]%add_node_Ok m Hm. exists m. split; [by apply node_with_nodes_app|by split_and!].
Qed.

Lemma patch_node_persists id g i patch t g' : patch_node g i patch t = Ok g' -> persists id g g'.
Proof.
  intros (n & Hn & Hterm & ->)%patch_node_Ok. eapply persists_replace; [exact Hn|by split_and!|].
  intros _ Ht. cbn. by rewrite Hterm.
Qed.

Lemma remove_node_persists id g i g' : id <> i -> remove_node g i = Ok g' -> persists id g g'.
Proof.
  intros Hne ->%remove_node_Ok n Hn. exists n. split; [by rewrite node_retain|by split_and!].
Qed.

Lemma apply_proposal_persists id g proposal ctx g' :
  id ∉ removed_nodes proposal -> apply_proposal g proposal ctx = Ok g' -> persists id g g'.
Proof.
  intros Hid E. revert E. apply (apply_proposal_invariant (persists id g)); try reflexivity.
  - intros s n s' Hs E. etransitivity; [exact Hs|by eapply add_node_persists].
  - intros s e s' Hs (_ & _ & _ & ->)%add_edge_Ok. etransitivity; [exact Hs|by apply persists_same_nodes].
  - intros s u s' Hs E. etransitivity; [exact Hs|by eapply patch_node_persists].
  - intros s i s' Hs ->%remove_edge_Ok. etransitivity; [exact Hs|by apply persists_same_nodes].
  - intros s i s' Hi Hs E. etransitivity; [exact Hs|]. eapply remove_node_persists; [|exact E]. congruence.
  - intros s c Hs. etransitivity; [exact Hs|by apply persists_same_nodes].
Qed.
End reducer.

(** The change accepts a proposal that removes [id]. *)
Definition removes (g : WorkGraphSnapshot) (change : WorkGraphChange) (id : WorkNodeId) : Prop :=
  exists pid approval p, change = AcceptPlanDiff pid approval /\ p ∈ proposals g /\
    proposal_id p = pid /\ id ∈ removed_nodes p.

Section apply.
Context `{Externs}.

(** What one change does to the node [id]. *)
Lemma apply_pure_evolves g change ctx next id n :
  apply_pure g change ctx = Ok next -> ~ removes g change id -> node g id = Some n ->
  exists n', node next id = Some n' /\ same_identity n n' /\
    (NodeState.is_terminal (node_state n) = true ->
     node_state n' = node_state n \/ exists r, change = Supersede id r).
Proof.
  intros E Hrm Hn.
  assert (Hp : persists id g next -> exists n', node next id = Some n' /\ same_identity n n' /\
    (NodeState.is_terminal (node_state n) = true ->
     node_state n' = node_state n \/ exists r, change = Supersede id r)).
  { intros Hp. destruct (Hp n Hn) as (n' & ? & ? & ?). exists n'. split_and!; auto; apply H2. }
  destruct change; cbn [apply_pure] in E.
  - apply Hp. by eapply add_node_persists.
  - apply Hp. by eapply patch_node_persists.
  - apply add_edge_Ok in E as (_ & _ & _ & ->). apply Hp. by apply persists_same_nodes.
  - apply remove_edge_Ok in E as ->. apply Hp. by apply persists_same_nodes.
  - unfold bind_operation in E. apply bind_Ok in E as (m & Hm%ok_or_Ok & [= <-]).
    apply Hp. eapply persists_replace; [exact Hm|by split_and!|done].
  - unfold reconcile in E. apply bind_Ok in E as (m & Hm%ok_or_Ok & (b & _ & [= <-])%bind_Ok).
    apply Hp. eapply persists_replace; [exact Hm|by split_and!|].
    intros _ Ht. cbn. unfold reconciled_state. rewrite Ht. by destruct (observed_state obs).
  - unfold attach_evidence in E. apply bind_Ok in E as (_ & _ & (g1 & E1 & E2)%bind_Ok).
    apply add_edge_Ok in E2 as (_ & _ & _ & ->). apply Hp.
    etransitivity; [by eapply add_node_persists|by apply persists_same_nodes].
  - unfold propose_plan_diff in E. inv_bind. apply Hp. by apply persists_same_nodes.
  - unfold withdraw_plan_diff in E. inv_bind. apply Hp. by apply persists_same_nodes.
  - unfold accept_plan_diff in E.
    apply bind_Ok in E as (i & Hi%ok_or_Ok & (p & Hpi%ok_or_Ok & (g1 & E1 & E2)%bind_Ok)%bind_Ok).
    apply position_Some in Hi as (q & Hq & Hqid%bool_decide_eq_true & _). assert (Hin := list_elem_of_lookup_2 _ _ _ Hq). simplify_eq.
    apply Hp. transitivity g1; [|by eapply add_node_persists].
    transitivity (with_proposals g (delete i (proposals g))); [by apply persists_same_nodes|].
    eapply apply_proposal_persists; [|exact E1]. intros Hid. apply Hrm. by eexists _, approval, _.
  - unfold supersede in E.
    apply bind_Ok in E as (_ & _ & (_ & _ & (m & Hm%ok_or_Ok & E)%bind_Ok)%bind_Ok).
    apply add_edge_Ok in E as (_ & _ & _ & ->).
    pose proof (node_Some _ _ _ Hm) as [_ Hmid].
    change (node (with_edges ?x ?y) id) with (node x id).
    rewrite node_replace by done. case_decide as Heq.
    + subst old. rewrite Hn. simplify_eq. eexists. split; [done|]. split; [by split_and!|]. eauto.
    + exists n. split; [done|]. split; [by split_and!|auto].
  - injection E as <-. apply Hp. by apply persists_same_nodes.
  - inv_bind. apply Hp. by apply persists_same_nodes.
  - unfold record_activity in E. apply bind_Ok in E as (_ & _ & [= <-]). apply Hp. by apply persists_same_nodes.
Qed.

(** The snapshot [apply] returns for an accepted candidate. *)
Definition committed (g next : WorkGraphSnapshot) (change : WorkGraphChange) (ctx : ChangeCtx)
  : WorkGraphSnapshot :=
  with_receipt next (u64_add (revision g) 1)
    (push_bounded HISTORY_CAP (history g) (receipt_of change (u64_add (revision g) 1) ctx))
    (seen_after g ctx).

Lemma apply_Ok g change ctx g' r :
  apply g change ctx = Ok (g', r) ->
  (exists key, duplicate_key g ctx = Some key /\ g' = g /\ r = noop_receipt g change ctx key) \/
  (duplicate_key g ctx = None /\ exists next, apply_pure g change ctx = Ok next /\ well_formed next /\
     same_log g next /\ g' = committed g next change ctx /\
     r = receipt_of change (u64_add (revision g) 1) ctx).
Proof.
  unfold apply. destruct (duplicate_key g ctx) as [key|]; [intros [= <- <-]; left; eauto|].
  intros (next & E & (u & Hv%validate_Ok & [= <- <-])%bind_Ok)%bind_Ok. right. split; [done|].
  exists next. pose proof (apply_pure_log _ _ _ _ E) as Hlog. split_and!; try done.
  unfold committed, seen_after. by destruct Hlog as (_ & -> & -> & _).
Qed.

Lemma committed_node g next change ctx id : node (committed g next change ctx) id = node next id.
Proof. done. Qed.

(** ** Coherence *)

(** The invariant of the snapshots [apply] is used on. *)
Record coherent (g : WorkGraphSnapshot) : Prop := {
  co_well_formed : well_formed g;
  co_revision : 0 <= revision g <= u64_max;
  co_history : forall r, r ∈ history g -> receipt_revision r <= revision g;
  co_keys_unique : NoDup (seen_keys g);
  co_keys_bounded : (length (seen_keys g) <= SEEN_KEYS_CAP)%nat }.

(** Recording a receipt keeps a snapshot well formed when the history stays so. *)
Lemma well_formed_with_receipt g rev h keys :
  well_formed g -> (length h <= HISTORY_CAP)%nat -> increasing h ->
  (forall r, last h = Some r -> receipt_revision r <= u64_saturating_add rev 1) ->
  well_formed (with_receipt g rev h keys).
Proof.
  intros Hwf H1 H2 H3. pose proof (wf_activities _ Hwf) as Hact. destruct Hwf.
  constructor; try assumption. intros a Ha. destruct (Hact a Ha). constructor; assumption.
Qed.

Lemma apply_coherent g change ctx g' r :
  coherent g -> revision g < u64_max -> apply g change ctx = Ok (g', r) ->
  coherent g' /\ revision g' <= revision g + 1.
Proof.
  intros Hco Hmax [(key & _ & -> & _)|(Hdup & next & E & Hwf & Hlog & -> & _)]%apply_Ok; [split; [done|lia]|].
  destruct Hco as [Hg Hrev Hhist Hnd Hlen].
  assert (Hadd : u64_add (revision g) 1 = revision g + 1) by (apply u64_add_small; lia).
  split; [|cbn; lia]. constructor; cbn -[seen_after HISTORY_CAP u64_max]; rewrite ?Hadd.
  - apply well_formed_with_receipt; [done| | |].
    + apply push_bounded_length; [unfold HISTORY_CAP; lia|apply Hg].
    + apply push_bounded_increasing; [apply Hg|]. intros r' Hr'. specialize (Hhist r' Hr'). cbn. lia.
    + intros r'. rewrite push_bounded_last. intros [= <-]. cbn -[u64_max]. unfold u64_saturating_add. lia.
  - lia.
  - intros r' [Hr'| ->]%push_bounded_elem; [specialize (Hhist r' Hr'); lia|cbn; lia].
  - unfold seen_after. destruct (idempotency_key ctx); [|done].
    apply insert_bounded_inv; [unfold SEEN_KEYS_CAP; lia|done..].
  - unfold seen_after. destruct (idempotency_key ctx); [|done].
    apply insert_bounded_inv; [unfold SEEN_KEYS_CAP; lia|done..].
Qed.

Lemma coherent_new : coherent new.
Proof.
  constructor; cbn -[u64_max]; [apply well_formed_new|unfold u64_max; lia|by intros ? ?%not_elem_of_nil
    |constructor|unfold SEEN_KEYS_CAP; lia].
Qed.

(** One step of a session: a change is applied, or rejected and forgotten. *)
Inductive session_step : WorkGraphSnapshot -> WorkGraphSnapshot -> Prop :=
| step_applied g change ctx g' r : apply g change ctx = Ok (g', r) -> session_step g g'
| step_rejected g change ctx report : apply g change ctx = Err report -> session_step g g.
End apply.

(** ** Plan diffs act on the graph part only *)

Definition result_map {E A B} (f : A -> B) (m : result E A) : result E B :=
  match m with Ok a => Ok (f a) | Err e => Err e end.

Lemma result_map_bind {E A A' B B'} (f : A -> A') (h : B -> B') (m : result E A)
  (k : A -> result E B) (k' : A' -> result E B') :
  (forall a, k' (f a) = result_map h (k a)) -> result_map f m ≫= k' = result_map h (m ≫= k).
Proof. intros Hk. destruct m; [apply Hk|done]. Qed.

Lemma foldM_map {E S S' X} (f : S -> S') (step : S -> X -> result E S) (step' : S' -> X -> result E S') xs :
  (forall s x, step' (f s) x = result_map f (step s x)) ->
  forall s, foldM step' (f s) xs = result_map f (foldM step s xs).
Proof.
  intros Hstep. induction xs as [|x xs IH]; intros s; cbn [foldM]; [done|].
  rewrite Hstep. by apply result_map_bind.
Qed.

(** The graph of [g] with everything else from [h]. *)
Definition graft (h g : WorkGraphSnapshot) : WorkGraphSnapshot :=
  {| schema := schema h; revision := revision h; nodes := nodes g; edges := edges g;
     history := history h; activities := activities h; import_digest := import_digest h;
     seen_keys := seen_keys h; proposals := proposals h; compat := compat g |}.

Section graft.
Context `{Externs} (h : WorkGraphSnapshot).

Lemma add_node_graft s n : add_node (graft h s) n = result_map (graft h) (add_node s n).
Proof. unfold add_node. change (node (graft h s)) with (node s). by destruct (node s (node_id n)). Qed.

Lemma add_edge_graft s e : add_edge (graft h s) e = result_map (graft h) (add_edge s e).
Proof.
  unfold add_edge. change (node (graft h s)) with (node s). change (edge (graft h s)) with (edge s).
  cbn [foldM]. destruct (edge s (edge_id e)), (node s (edge_from e)), (node s (edge_to e)); done.
Qed.

Lemma patch_node_graft s id patch t :
  patch_node (graft h s) id patch t = result_map (graft h) (patch_node s id patch t).
Proof.
  unfold patch_node. change (node (graft h s)) with (node s). destruct (node s id); [|done]. simpl.
  by destruct (_ && _).
Qed.

Lemma remove_edge_graft s id : remove_edge (graft h s) id = result_map (graft h) (remove_edge s id).
Proof. unfold remove_edge. cbn [edges graft]. by destruct (_ =? _)%nat. Qed.

Lemma remove_node_graft s id : remove_node (graft h s) id = result_map (graft h) (remove_node s id).
Proof. unfold remove_node. cbn [edges nodes graft]. destruct (existsb _ _), (_ =? _)%nat; done. Qed.

Lemma apply_proposal_graft s proposal ctx :
  apply_proposal (graft h s) proposal ctx = result_map (graft h) (apply_proposal s proposal ctx).
Proof.
  unfold apply_proposal. rewrite (foldM_map (graft h) add_node) by apply add_node_graft.
  apply result_map_bind. intros s1. rewrite (foldM_map (graft h) add_edge) by apply add_edge_graft.
  apply result_map_bind. intros s2.
  rewrite (foldM_map (graft h) (fun next u => patch_node next (update_id u) (update_patch u) (now ctx)))
    by (intros; apply patch_node_graft).
  apply result_map_bind. intros s3. rewrite (foldM_map (graft h) remove_edge) by apply remove_edge_graft.
  apply result_map_bind. intros s4. rewrite (foldM_map (graft h) remove_node) by apply remove_node_graft.
  apply result_map_bind. intros s5. by destruct (replacement_compat proposal).
Qed.
End graft.

Section proposals.
Context `{Externs}.

(** Accepting depends on the context only through its timestamp. *)
Lemma apply_proposal_now s proposal ctx ctx' :
  now ctx' = now ctx -> apply_proposal s proposal ctx' = apply_proposal s proposal ctx.
Proof. unfold apply_proposal. by intros ->. Qed.

Lemma propose_Ok g p ctx next :
  propose_plan_diff g p ctx = Ok next ->
  (forall q, q ∈ proposals g -> proposal_id q <> proposal_id p) /\
  (exists c, preview_plan_diff g p ctx = Ok c) /\ next = with_proposals g (proposals g ++ [p]).
Proof.
  unfold propose_plan_diff, validate_proposal.
  intros (u & Hu%reject_if_Ok & (v & (c & Hc & _)%bind_Ok & [= <-])%bind_Ok)%bind_Ok.
  split_and!; [|by exists c|done]. intros q Hq E.
  rewrite existsb_false in Hu. specialize (Hu q Hq). by rewrite bool_decide_true in Hu.
Qed.

Lemma position_fresh ps p :
  (forall q, q ∈ ps -> proposal_id q <> proposal_id p) ->
  position (fun q => bool_decide (proposal_id q = proposal_id p)) (ps ++ [p]) = Some (length ps).
Proof.
  induction ps as [|q ps IH]; intros Hf; cbn; [by rewrite bool_decide_true|].
  rewrite bool_decide_false by (apply Hf; set_solver). rewrite IH; [done|].
  intros r Hr. apply Hf. by apply elem_of_cons; right.
Qed.

Lemma retain_fresh ps p :
  (forall q, q ∈ ps -> proposal_id q <> proposal_id p) ->
  retain (fun q => negb (bool_decide (proposal_id q = proposal_id p))) (ps ++ [p]) = ps.
Proof.
  intros Hf. unfold retain. rewrite filter_app, filter_all, filter_cons_False, filter_nil, app_nil_r; [done| |].
  - by rewrite bool_decide_true.
  - apply Forall_forall. intros q Hq. by rewrite bool_decide_false by auto.
Qed.
End proposals.
