(* ===== verification/WorkSpec.v ===== *)
(** * Properties of the work graph

    Validation decides the invariants, the reducer commits changes atomically
    and once, sessions stay coherent, settled states are protected, and plan
    proposals do what their preview shows. *)

From stdpp Require Import relations.
From S2P Require Import Text WorkModel WorkValidate WorkGraphs WorkInvariant WorkReducer WorkReducerFacts.
#[local] Open Scope Z_scope.

(** ** A concrete environment for the witnesses

    The digest is a checksum written as 32 bytes: enough for identifiers to
    differ where a witness needs it. *)

Definition checksum (bytes : list N) : N :=
  fold_left (fun h b => (h * 257 + b + 1) mod 2 ^ 256)%N bytes 7%N.

Fixpoint bytes_of (count : nat) (n : N) : list N :=
  match count with 0%nat => [] | S count => (n mod 256)%N :: bytes_of count (n / 256)%N end.

Definition sample : Externs :=
  {| Sha256_digest := fun bytes => bytes_of 32 (checksum bytes);
     Url_parse := fun _ => None;
     parse_from_rfc3339_ok := fun _ => false;
     prints_as_itself := fun c => (32 <=? c)%N && (c <? 127)%N |}.

Definition sample_ctx (key : option IdempotencyKey) : ChangeCtx :=
  {| session_id := $"s1"; now := 1000; idempotency_key := key |}.

Definition sample_node (id : str) (kind : NodeKind) (state : NodeState)
  (binding : option OperationBinding) : WorkNode :=
  {| node_id := id; node_kind := kind; node_title := $"title"; node_state := state;
     node_acceptance := []; node_binding := binding; node_evidence := None;
     node_provenance := ToolUpdate $"plan" $"call"; node_created_at := 1; node_updated_at := 1 |}.

Definition shell_binding : OperationBinding :=
  {| external := $"shell:7"; durable := false; last_observation := None |}.

(** The outcome of a change that is known to be accepted. *)
Definition snapshot_after (res : result ValidationReport (WorkGraphSnapshot * ChangeReceipt)) : WorkGraphSnapshot :=
  match res with Ok (g, _) => g | Err _ => new end.

Definition receipt_after (res : result ValidationReport (WorkGraphSnapshot * ChangeReceipt)) : ChangeReceipt :=
  match res with
  | Ok (_, r) => r
  | Err _ => {| change_id := []; receipt_revision := 0; summary := []; applied_at := 0;
                receipt_key := None; no_op := false |}
  end.


Lemma after_ok res : is_ok res = true -> res = Ok (snapshot_after res, receipt_after res).
Proof. by destruct res as [[]|]. Qed.

(** An objective that contains one bound operation. *)
Definition sample_graph : WorkGraphSnapshot :=
  with_edges
    (with_nodes new
       [sample_node $"wn:obj" NodeKind.Objective NodeState.Active None;
        sample_node $"wn:op" NodeKind.Operation NodeState.Active (Some shell_binding)])
    [{| edge_id := $"we:1"; edge_kind := EdgeKind.Contains; edge_from := $"wn:obj"; edge_to := $"wn:op" |}].

(** ** Validation *)

(** C3: validation decides the graph invariants: it accepts a snapshot exactly
    when the structural rules and V1 to V8 hold declaratively (unique
    identifiers, resolved edges, acyclic dependencies, rooted live operations,
    evidence behind every Verified node, a cause behind every Blocked node,
    unique well-formed bindings, inert references, ordered bounded history),
    and a rejection always names a violation. *)
Theorem validate_decides_invariants `{Externs} g :
  (validate g = Ok tt <-> well_formed g) /\
  (forall report, validate g = Err report -> violations report <> [] /\ ~ well_formed g).
Proof.
  split; [apply validate_well_formed|]. intros report Hv. split.
  - revert Hv. unfold validate. destruct (all_violations g); [done|]. by intros [= <-].
  - intros Hwf%validate_well_formed. congruence.
Qed.

(** the depth-first search of V1 terminates within its fuel on every
    snapshot and reports nothing exactly when no node reaches a [DependsOn]
    cycle. *)
Theorem dependency_search_is_exact g :
  exists out,
    check_v1_from g (visit_fuel g) (nodes g) {| done_ := []; in_progress := [] |} = Some out /\
    (out = [] <-> forall n, n ∈ nodes g -> ~ reaches_cycle g (node_id n)).
Proof.
  destruct (check_v1_from_spec g (nodes g) {| done_ := []; in_progress := [] |}) as (out & Hout & _);
    [done|by intros x ?%not_elem_of_nil|].
  exists out. split; [done|]. rewrite <- check_v1_spec.
  unfold check_v1_depends_on_acyclic. by rewrite Hout.
Qed.

(** the ancestry search of V2 terminates within its fuel, even on malformed
    [Contains] cycles, and finds a root exactly when some proper ancestor is an
    Objective or a PlanStep. *)
Theorem ancestry_search_is_exact g id :
  exists b, rooted_search g (rooted_fuel g) [] [id] = Some b /\
    (b = true <-> rooted g id).
Proof.
  destruct (rooted_search_total g (rooted_fuel g) [] [id]) as [b Hb].
  { unfold rooted_fuel, unvisited_edges.
    pose proof (retain_length (fun e => negb (bool_decide (edge_to e ∈ @nil WorkNodeId))) (edges g)).
    cbn [length]. lia. }
  exists b. split; [done|]. pose proof (is_rooted_spec g id) as Hs. unfold is_rooted in Hs.
  rewrite Hb in Hs. rewrite <- has_root_rooted. exact Hs.
Qed.

(** ** The reducer *)


(** every session keeps the graph coherent.  From the empty snapshot, after
    any number of applied or rejected changes that fits a [u64], the graph is
    well formed, no history entry is ahead of the revision, the revision counts
    at most the changes made, and the deduplication window has no repetition
    and at most 1024 keys. *)
Theorem sessions_stay_coherent `{Externs} k g :
  nsteps session_step k new g -> Z.of_nat k <= u64_max ->
  well_formed g /\ 0 <= revision g <= Z.of_nat k /\
  (forall r, r ∈ history g -> receipt_revision r <= revision g) /\
  NoDup (seen_keys g) /\ (length (seen_keys g) <= SEEN_KEYS_CAP)%nat.
Proof.
  intros Hsteps Hk.
  assert (Hinv : coherent g /\ revision g <= Z.of_nat k).
  { revert g Hsteps Hk. induction k as [|k IH]; intros g Hsteps Hk.
    - inversion Hsteps; subst. split; [apply coherent_new|cbn; lia].
    - apply nsteps_inv_r in Hsteps as (g1 & Hs & Hstep). destruct (IH g1 Hs ltac:(lia)) as [Hco Hle].
      inversion Hstep as [? change ctx ? r E|]; subst; [|split; [done|lia]].
      destruct (apply_coherent g1 change ctx g r Hco ltac:(lia) E) as [Hco' Hle']. split; [done|lia]. }
  destruct Hinv as [[Hwf [Hr0 _] Hh Hnd Hb] Hle]. by split_and!.
Qed.

Lemma sessions_stay_coherent_witness :
  let g := snapshot_after (@apply sample new
             (AddNode (sample_node $"wn:obj" NodeKind.Objective NodeState.Active None)) (sample_ctx None)) in
  well_formed g /\ 0 <= revision g <= Z.of_nat 1 /\
  (forall r, r ∈ history g -> receipt_revision r <= revision g) /\
  NoDup (seen_keys g) /\ (length (seen_keys g) <= SEEN_KEYS_CAP)%nat.
Proof.
  apply (@sessions_stay_coherent sample 1).
  - apply nsteps_once. eapply step_applied. apply after_ok. vm_compute. reflexivity.
  - vm_compute. discriminate.
Defined.

(** C11: a terminal node is protected (V9).  No change alters a node's identity,
    kind, evidence or creation time; a node that is Verified, Superseded or
    Cancelled keeps its state unless the change explicitly supersedes it; and a
    node disappears only when an accepted plan diff removes it. *)
Theorem terminal_states_are_protected `{Externs} g change ctx g' r id n :
  apply g change ctx = Ok (g', r) -> node g id = Some n -> ~ removes g change id ->
  exists n', node g' id = Some n' /\
    node_id n' = node_id n /\ node_kind n' = node_kind n /\ node_evidence n' = node_evidence n /\
    node_created_at n' = node_created_at n /\
    (NodeState.is_terminal (node_state n) = true ->
     node_state n' = node_state n \/ exists replacement, change = Supersede id replacement).
Proof.
  intros E Hn Hrm. apply apply_Ok in E as [(key & _ & -> & _)|(_ & next & E & _ & _ & -> & _)].
  - exists n. split_and!; auto.
  - destruct (apply_pure_evolves _ _ _ _ _ _ E Hrm Hn) as (n' & Hn' & (? & ? & ? & ?) & Ht).
    exists n'. by split_and!.
Qed.

Definition cancelled_graph : WorkGraphSnapshot :=
  with_nodes sample_graph
    [sample_node $"wn:obj" NodeKind.Objective NodeState.Active None;
     sample_node $"wn:op" NodeKind.Operation NodeState.Cancelled (Some shell_binding)].

Definition running_observation (seq : Z) : OperationObservation :=
  OwnerReported OwnerState.Running seq 5 None.

Lemma terminal_states_are_protected_witness :
  let change := ReconcileOperation $"wn:op" (running_observation 3) in
  let g' := snapshot_after (@apply sample cancelled_graph change (sample_ctx None)) in
  exists n', node g' $"wn:op" = Some n' /\
    node_id n' = $"wn:op" /\ node_kind n' = NodeKind.Operation /\ node_evidence n' = None /\
    node_created_at n' = 1 /\
    (NodeState.is_terminal NodeState.Cancelled = true ->
     node_state n' = NodeState.Cancelled \/ exists replacement, change = Supersede $"wn:op" replacement).
Proof.
  eapply (@terminal_states_are_protected sample cancelled_graph _ (sample_ctx None) _ _ $"wn:op"
    (sample_node $"wn:op" NodeKind.Operation NodeState.Cancelled (Some shell_binding)));
    [apply after_ok; vm_compute; reflexivity|vm_compute; reflexivity|].
  intros (pid & approval & p & [=] & _).
Defined.

(** What an observation may do to a node's state.  A terminal state is kept;
    otherwise the owner's report is taken over, a missing owner is Stale, a
    forced cancellation is Cancelled, and an acknowledgement claims nothing. *)
Definition honest (before : NodeState) (obs : OperationObservation) (after : NodeState) : Prop :=
  (before ∈ [NodeState.Verified; NodeState.Superseded; NodeState.Cancelled] -> after = before) /\
  (before ∉ [NodeState.Verified; NodeState.Superseded; NodeState.Cancelled] ->
   match obs with
   | OwnerReported OwnerState.Initializing _ _ _ => after = NodeState.Initializing
   | OwnerReported OwnerState.Running _ _ _ => after = NodeState.Active
   | OwnerReported OwnerState.Waiting _ _ _ => after = NodeState.Waiting
   | OwnerReported OwnerState.Completed _ _ _ => after = NodeState.Completed
   | OwnerReported OwnerState.Failed _ _ _ => after = NodeState.Failed
   | OwnerReported OwnerState.Cancelled _ _ _ | CancelUpdate CancelOutcome.Forced _ =>
       after = NodeState.Cancelled
   | OwnerMissing _ | CancelUpdate CancelOutcome.NotFound _ | CancelUpdate CancelOutcome.StaleUnknown _ =>
       after = NodeState.Stale
   | CancelUpdate _ _ => after = before
   end).

Lemma reconciled_state_honest before obs : honest before obs (reconciled_state before obs).
Proof.
  unfold honest, reconciled_state.
  assert (Ht : before ∈ [NodeState.Verified; NodeState.Superseded; NodeState.Cancelled] <->
    NodeState.is_terminal before = true).
  { rewrite !elem_of_cons. split.
    - by intros [->|[->|[->|?%not_elem_of_nil]]].
    - destruct before; try done; tauto. }
  rewrite Ht. split.
  - intros ->. by destruct (observed_state obs).
  - intros ->%not_true_is_false. by destruct obs as [[] ? ? ?|?|[] ?].
Qed.

(** owner observations are reconciled honestly.  The operation must be bound;
    its new state is the observed one unless it is terminal; no observation
    ever verifies a node; a missing owner yields Stale, never Active or
    Completed; the last report is kept; and nothing but that node changes. *)
Theorem reconcile_is_honest `{Externs} g id obs ctx g' r :
  apply g (ReconcileOperation id obs) ctx = Ok (g', r) -> no_op r = false ->
  exists n n' binding, node g id = Some n /\ node_binding n = Some binding /\ node g' id = Some n' /\
    honest (node_state n) obs (node_state n') /\
    (node_state n' = NodeState.Verified -> node_state n = NodeState.Verified) /\
    (forall state seq at_ output, obs = OwnerReported state seq at_ output ->
       last_observation <$> node_binding n' =
       Some (Some {| obs_owner_state := state; obs_seq := seq; obs_observed_at := at_; obs_output := output |})) /\
    (external <$> node_binding n') = Some (external binding) /\
    (forall other, other <> id -> node g' other = node g other) /\ edges g' = edges g.
Proof.
  intros E Hnoop. apply apply_Ok in E as [(key & _ & _ & ->)|(_ & next & E & _ & _ & -> & _)]; [done|].
  cbn [apply_pure] in E. unfold reconcile in E.
  apply bind_Ok in E as (n & Hn%ok_or_Ok & (binding & Hb%ok_or_Ok & [= <-])%bind_Ok).
  pose proof (node_Some _ _ _ Hn) as [_ Hid].
  eexists n, _, binding. split_and!; [done|done| | | | | | |done].
  - rewrite committed_node, node_replace by done. rewrite decide_True by done. by rewrite Hn.
  - apply reconciled_state_honest.
  - cbn. unfold reconciled_state. destruct obs as [[] ? ? ?|?|[] ?]; cbn;
      destruct (NodeState.is_terminal (node_state n)); cbn; try done; congruence.
  - by intros state seq at_ output ->.
  - by destruct obs.
  - intros other Hne. rewrite committed_node, node_replace by done. by rewrite decide_False.
Qed.

Lemma reconcile_is_honest_witness :
  let obs := OwnerMissing 9 in
  let g' := snapshot_after (@apply sample sample_graph (ReconcileOperation $"wn:op" obs) (sample_ctx None)) in
  exists n n' binding, node sample_graph $"wn:op" = Some n /\ node_binding n = Some binding /\
    node g' $"wn:op" = Some n' /\
    honest (node_state n) obs (node_state n') /\
    (node_state n' = NodeState.Verified -> node_state n = NodeState.Verified) /\
    (forall state seq at_ output, obs = OwnerReported state seq at_ output ->
       last_observation <$> node_binding n' =
       Some (Some {| obs_owner_state := state; obs_seq := seq; obs_observed_at := at_; obs_output := output |})) /\
    (external <$> node_binding n') = Some (external binding) /\
    (forall other, other <> $"wn:op" -> node g' other = node sample_graph other) /\
    edges g' = edges sample_graph.
Proof.
  eapply (@reconcile_is_honest sample sample_graph $"wn:op" (OwnerMissing 9) (sample_ctx None));
    [apply after_ok; vm_compute; reflexivity|vm_compute; reflexivity].
Defined.

(** changes are idempotent under their key: once a change with a key was
    applied, every later change with the same key is acknowledged with a
    no-op receipt and leaves the snapshot as it is. *)
Theorem repeated_key_is_a_no_op `{Externs} g change ctx g1 r1 key change' ctx' :
  apply g change ctx = Ok (g1, r1) ->
  idempotency_key ctx = Some key -> idempotency_key ctx' = Some key ->
  apply g1 change' ctx' = Ok (g1, noop_receipt g1 change' ctx' key) /\
  receipt_revision (noop_receipt g1 change' ctx' key) = revision g1.
Proof.
  intros E Hk Hk'. split; [|done].
  assert (Hin : key ∈ seen_keys g1).
  { apply apply_Ok in E as [(k & Hdup & -> & _)|(_ & next & _ & _ & _ & -> & _)].
    - unfold duplicate_key in Hdup. rewrite Hk in Hdup. by case_bool_decide.
    - cbn -[seen_after]. unfold seen_after. rewrite Hk. apply insert_bounded_in. }
  unfold apply, duplicate_key. rewrite Hk'. by rewrite bool_decide_true.
Qed.

Definition sample_key : IdempotencyKey := {| key_binding := $"bd:1"; key_seq := 3 |}.

Lemma repeated_key_is_a_no_op_witness :
  let change := ReconcileOperation $"wn:op" (running_observation 3) in
  let ctx := sample_ctx (Some sample_key) in
  let g1 := snapshot_after (@apply sample sample_graph change ctx) in
  @apply sample g1 change ctx = Ok (g1, @noop_receipt sample g1 change ctx sample_key) /\
  receipt_revision (@noop_receipt sample g1 change ctx sample_key) = revision g1.
Proof.
  eapply (@repeated_key_is_a_no_op sample sample_graph _ _ _ _ sample_key);
    [apply after_ok; vm_compute; reflexivity|reflexivity|reflexivity].
Defined.

(** an evidence reference is attached to a node at most once per session:
    the identifiers are derived, so a second attachment is a structural
    rejection and not a second node. *)
Theorem evidence_attaches_once `{Externs} g id evidence ctx g1 r1 ctx' :
  apply g (AttachEvidence id evidence) ctx = Ok (g1, r1) -> no_op r1 = false ->
  session_id ctx' = session_id ctx -> duplicate_key g1 ctx' = None ->
  (exists ev, node g1 (evidence_node_id ctx id evidence) = Some ev /\ node_evidence ev = Some evidence) /\
  apply g1 (AttachEvidence id evidence) ctx' =
    Err (structural ($"duplicate node " ++ evidence_node_id ctx id evidence)).
Proof.
  intros E Hnoop Hs Hdup. apply apply_Ok in E as [(key & _ & _ & ->)|(_ & next & E & _ & _ & -> & _)]; [done|].
  cbn [apply_pure] in E. unfold attach_evidence in E.
  apply bind_Ok in E as (u & Ht%reject_if_Ok%opt_is_none_false & (g2 & [Hfresh ->]%add_node_Ok & E2)%bind_Ok).
  apply add_edge_Ok in E2 as (_ & _ & _ & ->). cbn [node_id] in Hfresh.
  set (ev := {| node_id := evidence_node_id ctx id evidence |}) in *.
  set (g' := committed _ _ _ _) in *.
  assert (Hev : node g' (evidence_node_id ctx id evidence) = Some ev).
  { unfold node in *. change (nodes g') with (nodes g ++ [ev]). rewrite find_app, Hfresh. cbn.
    by rewrite bool_decide_true. }
  assert (Hid : node g' id <> None).
  { destruct Ht as [t Ht]. unfold node in *. change (nodes g') with (nodes g ++ [ev]).
    by rewrite find_app, Ht. }
  split; [exists ev; by split|].
  unfold apply. rewrite Hdup. cbn [apply_pure]. unfold attach_evidence.
  assert (evidence_node_id ctx' id evidence = evidence_node_id ctx id evidence) as ->
    by (unfold evidence_node_id; by rewrite Hs).
  destruct (node g' id) eqn:Hn; [|done]. simpl. unfold add_node at 1. cbn [node_id].
  by rewrite Hev.
Qed.

Definition sample_evidence : EvidenceRef :=
  {| ref_kind := EvidenceKind.TestSummary; ref_reference := $"run-1"; ref_raw_bytes := Some 10;
     ref_truncated := false |}.

Lemma evidence_attaches_once_witness :
  let change := AttachEvidence $"wn:op" sample_evidence in
  let g1 := snapshot_after (@apply sample sample_graph change (sample_ctx None)) in
  (exists ev, node g1 (@evidence_node_id sample (sample_ctx None) $"wn:op" sample_evidence) = Some ev /\
     node_evidence ev = Some sample_evidence) /\
  @apply sample g1 change (sample_ctx None) =
    Err (structural ($"duplicate node " ++ @evidence_node_id sample (sample_ctx None) $"wn:op" sample_evidence)).
Proof.
  eapply (@evidence_attaches_once sample sample_graph $"wn:op" sample_evidence (sample_ctx None));
    [apply after_ok; vm_compute; reflexivity|vm_compute; reflexivity|reflexivity|reflexivity].
Defined.

(** the reviewed and the accepted plan cannot drift: a proposal that was
    previewed when proposed and is accepted next, with the same timestamp,
    yields exactly the previewed nodes, edges and projections, plus the
    Approval node of the acceptance, and leaves the other proposals pending. *)
Theorem accepted_plan_is_the_previewed_plan `{Externs} g p ctx g1 r1 approval ctx' g2 r2 :
  apply g (ProposePlanDiff p) ctx = Ok (g1, r1) -> no_op r1 = false ->
  apply g1 (AcceptPlanDiff (proposal_id p) approval) ctx' = Ok (g2, r2) -> no_op r2 = false ->
  now ctx' = now ctx ->
  exists c, preview_plan_diff g p ctx = Ok c /\
    nodes g2 = nodes c ++ [approval_node ctx' (proposal_id p) approval] /\
    edges g2 = edges c /\ compat g2 = compat c /\ proposals g2 = proposals g.
Proof.
  intros E1 Hn1 E2 Hn2 Hnow.
  apply apply_Ok in E1 as [(key & _ & _ & ->)|(_ & next & E & _ & _ & -> & _)]; [done|].
  apply propose_Ok in E as (Hfresh & (c & Hc) & ->). exists c. split; [done|].
  set (g1 := committed _ _ _ _) in *.
  apply apply_Ok in E2 as [(key & _ & _ & ->)|(_ & next & E & _ & _ & -> & _)]; [done|].
  cbn [apply_pure] in E. unfold accept_plan_diff in E.
  assert (Hps : proposals g1 = proposals g ++ [p]) by done.
  rewrite Hps, position_fresh in E by done. cbn [ok_or mbind result_bind] in E.
  rewrite list_lookup_middle in E by done. cbn [ok_or mbind result_bind] in E.
  assert (Hdel : delete (length (proposals g)) (proposals g ++ [p]) = proposals g).
  { rewrite delete_middle. apply app_nil_r. }
  rewrite Hdel in E.
  change (with_proposals g1 (proposals g)) with (graft (with_proposals g1 (proposals g)) g) in E.
  rewrite apply_proposal_graft, (apply_proposal_now g p ctx ctx' Hnow) in E.
  unfold preview_plan_diff in Hc. apply bind_Ok in Hc as (c' & Hc' & (u & _ & [= ->])%bind_Ok).
  rewrite Hc' in E. cbn [result_map mbind result_bind] in E. by apply add_node_Ok in E as [_ ->].
Qed.

Definition sample_proposal : WorkGraphProposal :=
  {| proposal_id := $"pp:1";
     added_nodes := [sample_node $"wn:step" NodeKind.PlanStep NodeState.Ready None];
     added_edges := [{| edge_id := $"we:2"; edge_kind := EdgeKind.Contains; edge_from := $"wn:obj";
                        edge_to := $"wn:step" |}];
     updated_nodes := []; removed_nodes := []; removed_edges := []; replacement_compat := None |}.

Lemma accepted_plan_is_the_previewed_plan_witness :
  let ctx := sample_ctx None in
  let approval := {| approval_reference := $"receipt-1" |} in
  let g1 := snapshot_after (@apply sample sample_graph (ProposePlanDiff sample_proposal) ctx) in
  let g2 := snapshot_after (@apply sample g1 (AcceptPlanDiff $"pp:1" approval) ctx) in
  exists c, @preview_plan_diff sample sample_graph sample_proposal ctx = Ok c /\
    nodes g2 = nodes c ++ [@approval_node sample ctx $"pp:1" approval] /\
    edges g2 = edges c /\ compat g2 = compat c /\ proposals g2 = proposals sample_graph.
Proof.
  eapply (@accepted_plan_is_the_previewed_plan sample sample_graph sample_proposal (sample_ctx None) _ _
    {| approval_reference := $"receipt-1" |} (sample_ctx None));
    [apply after_ok; vm_compute; reflexivity|vm_compute; reflexivity
    |apply after_ok; vm_compute; reflexivity|vm_compute; reflexivity|reflexivity].
Defined.

(** withdrawing undoes proposing: the graph, the projections, the
    activities and the pending proposals are those before the proposal. *)
Theorem withdraw_undoes_propose `{Externs} g p ctx g1 r1 ctx' g2 r2 :
  apply g (ProposePlanDiff p) ctx = Ok (g1, r1) -> no_op r1 = false ->
  apply g1 (WithdrawPlanDiff (proposal_id p)) ctx' = Ok (g2, r2) -> no_op r2 = false ->
  nodes g2 = nodes g /\ edges g2 = edges g /\ compat g2 = compat g /\ activities g2 = activities g /\
  proposals g2 = proposals g /\ import_digest g2 = import_digest g.
Proof.
  intros E1 Hn1 E2 Hn2.
  apply apply_Ok in E1 as [(key & _ & _ & ->)|(_ & next & E & _ & _ & -> & _)]; [done|].
  apply propose_Ok in E as (Hfresh & _ & ->).
  apply apply_Ok in E2 as [(key & _ & _ & ->)|(_ & next & E & _ & _ & -> & _)]; [done|].
  cbn [apply_pure] in E. unfold withdraw_plan_diff in E. apply bind_Ok in E as (u & _ & [= <-]).
  split_and!; try done. exact (retain_fresh (proposals g) p Hfresh).
Qed.

Lemma withdraw_undoes_propose_witness :
  let ctx := sample_ctx None in
  let g1 := snapshot_after (@apply sample sample_graph (ProposePlanDiff sample_proposal) ctx) in
  let g2 := snapshot_after (@apply sample g1 (WithdrawPlanDiff $"pp:1") ctx) in
  nodes g2 = nodes sample_graph /\ edges g2 = edges sample_graph /\ compat g2 = compat sample_graph /\
  activities g2 = activities sample_graph /\ proposals g2 = proposals sample_graph /\
  import_digest g2 = import_digest sample_graph.
Proof.
  eapply (@withdraw_undoes_propose sample sample_graph sample_proposal (sample_ctx None) _ _ (sample_ctx None));
    [apply after_ok; vm_compute; reflexivity|vm_compute; reflexivity
    |apply after_ok; vm_compute; reflexivity|vm_compute; reflexivity].
Defined.

(** the history slack of V8 lets an invalid snapshot out.  A snapshot whose
    newest receipt is one revision ahead passes validation, and the next
    accepted change appends a receipt with that same revision: [apply] answers
    [Ok] with a snapshot that validation rejects. *)
Theorem history_slack_breaks_the_next_change `{Externs} :
  let ahead := {| change_id := []; receipt_revision := 1; summary := $"import"; applied_at := 0;
                  receipt_key := None; no_op := false |} in
  let g := with_receipt new 0 [ahead] [] in
  validate g = Ok tt /\
  exists g' r, apply g (SetImportDigest $"d") (sample_ctx None) = Ok (g', r) /\
    (receipt_revision <$> history g') = [1; 1] /\ ~ well_formed g'.
Proof.
  split; [reflexivity|]. eexists _, _. split; [reflexivity|]. split; [reflexivity|].
  intros Hwf. apply wf_history_increasing in Hwf. apply StronglySorted_inv in Hwf as [_ Hlt].
  apply Forall_cons in Hlt as [Hlt _]. change (1 < 1) in Hlt. lia.
Qed.
