(* ===== verification/PlanTodo.v ===== *)
(** * The legacy Plan and To-do stores

    The state of [crates/tui/src/tools/todo.rs] and [plan.rs]: the To-do list
    with its single-in-progress rule and the plan with its timing, apart from
    the JSON of the tools.  Parsing a status from text is not modelled (it uses
    Unicode lowercasing).  The eleven metadata fields of [PlanSnapshot] and
    [PlanState] are those of [CompatPlanMetadata] and share its record. *)

From S2P Require Import Text WorkModel.

(** ** To-do ([todo.rs]) *)

Module TodoStatus.
Inductive TodoStatus : Set := Pending | InProgress | Completed | Cancelled.

#[export] Instance TodoStatus_eq_dec : EqDecision TodoStatus.
Proof. solve_decision. Defined.

Definition as_str (s : TodoStatus) : str :=
  match s with
  | Pending => $"pending" | InProgress => $"in_progress"
  | Completed => $"completed" | Cancelled => $"cancelled"
  end.

Definition is_settled (s : TodoStatus) : bool :=
  match s with Completed | Cancelled => true | _ => false end.
End TodoStatus.
Export (hints) TodoStatus.
Abbreviation TodoStatus := TodoStatus.TodoStatus.

Record TodoItem := { item_id : Z; content : str; status : TodoStatus }.

Record TodoListSnapshot := {
  snap_items : list TodoItem; completion_pct : Z; snap_in_progress_id : option Z }.

#[export] Instance TodoItem_eq_dec : EqDecision TodoItem.
Proof. solve_decision. Defined.
#[export] Instance TodoListSnapshot_eq_dec : EqDecision TodoListSnapshot.
Proof. solve_decision. Defined.

Record TodoList := { items : list TodoItem; next_id : Z }.

Definition todo_new : TodoList := {| items := []; next_id := 1 |}.

(** The rounded percentage of settled rows, a [u8]. *)
Definition completion_of (its : list TodoItem) : Z :=
  if is_nil its then 0
  else
    let settled := zlen (retain (fun i => TodoStatus.is_settled (status i)) its) in
    u8_saturate ((usize_saturating_mul settled 100 + zlen its / 2) / zlen its).

Definition completion_percentage (l : TodoList) : Z := completion_of (items l).

Definition in_progress_of (its : list TodoItem) : option Z :=
  item_id <$> find (fun i => bool_decide (status i = TodoStatus.InProgress)) its.

Definition in_progress_id (l : TodoList) : option Z := in_progress_of (items l).

Definition todo_snapshot (l : TodoList) : TodoListSnapshot :=
  {| snap_items := items l; completion_pct := completion_percentage l;
     snap_in_progress_id := in_progress_id l |}.

(** The loop of [from_snapshot]: the seen identifiers, the in-progress count and
    the greatest identifier. *)
Record restore := { seen : list Z; in_progress_count : nat; max_id : Z }.

Definition restore_item (r : restore) (i : TodoItem) : result str restore :=
  reject_if (item_id i =? 0) $"To-do item IDs must be greater than zero";;
  reject_if (bool_decide (item_id i ∈ seen r)) ($"Duplicate To-do item ID " ++ display_u (item_id i));;
  let count := if bool_decide (status i = TodoStatus.InProgress)
               then S (in_progress_count r) else in_progress_count r in
  reject_if (bool_decide (status i = TodoStatus.InProgress) && (1 <? count)%nat) $"Only one To-do item may be in progress";;
  Ok {| seen := item_id i :: seen r; in_progress_count := count; max_id := Z.max (max_id r) (item_id i) |}.

Definition from_snapshot (s : TodoListSnapshot) : result str TodoList :=
  r ← foldM restore_item {| seen := []; in_progress_count := 0; max_id := 0 |} (snap_items s);
  next ← (if is_nil (snap_items s) then Ok 1
          else ok_or (u32_checked_add (max_id r) 1) $"To-do item IDs are exhausted");
  Ok {| items := snap_items s; next_id := next |}.

Definition set_status (i : TodoItem) (s : TodoStatus) : TodoItem :=
  {| item_id := item_id i; content := content i; status := s |}.

Definition set_single_in_progress (its : list TodoItem) (allow_id : option Z) : list TodoItem :=
  (fun i => if bool_decide (Some (item_id i) <> allow_id)
               && bool_decide (status i = TodoStatus.InProgress)
            then set_status i TodoStatus.Pending else i) <$> its.

Definition todo_add (l : TodoList) (content : str) (s : TodoStatus) : TodoList * TodoItem :=
  let its := if bool_decide (s = TodoStatus.InProgress)
             then set_single_in_progress (items l) None else items l in
  let item := {| item_id := next_id l; content := content; status := s |} in
  ({| items := its ++ [item]; next_id := (next_id l + 1) mod 2 ^ 32 |}, item).

(** The loop that updates the first row with the identifier. *)
Fixpoint update_first (id : Z) (s : TodoStatus) (its : list TodoItem) : list TodoItem * option TodoItem :=
  match its with
  | [] => ([], None)
  | i :: its =>
      if item_id i =? id then (set_status i s :: its, Some (set_status i s))
      else let '(its, updated) := update_first id s its in (i :: its, updated)
  end.

Definition update_status (l : TodoList) (id : Z) (s : TodoStatus) : TodoList * option TodoItem :=
  let its := if bool_decide (s = TodoStatus.InProgress)
             then set_single_in_progress (items l) (Some id) else items l in
  let '(its, updated) := update_first id s its in
  ({| items := its; next_id := next_id l |}, updated).

Definition todo_clear (l : TodoList) : TodoList := {| items := []; next_id := 1 |}.

(** The state part of [TodoWriteTool::execute], [TodoAddTool::execute] and
    [TodoUpdateTool::execute] without a work graph; [publish_todo_snapshot]
    rebuilds the list from the snapshot. *)
Definition publish_todo_snapshot (desired : TodoListSnapshot) : result str (TodoList * TodoListSnapshot) :=
  l ← from_snapshot desired;
  Ok (l, desired).

Definition write_todos (todos : list (str * TodoStatus)) : result str (TodoList * TodoListSnapshot) :=
  publish_todo_snapshot
    (todo_snapshot (fold_left (fun l item => (todo_add l item.1 item.2).1) todos todo_new)).

Definition add_todo (current : TodoList) (content : str) (s : TodoStatus)
  : result str (TodoList * TodoListSnapshot) :=
  desired ← from_snapshot (todo_snapshot current);
  publish_todo_snapshot (todo_snapshot (todo_add desired content s).1).

Definition update_todo (current : TodoList) (id : Z) (s : TodoStatus)
  : result str (TodoList * TodoListSnapshot * option TodoItem) :=
  desired ← from_snapshot (todo_snapshot current);
  let '(desired, updated) := update_status desired id s in
  match updated with
  | Some item => p ← publish_todo_snapshot (todo_snapshot desired); Ok (p, Some item)
  | None => Ok (current, todo_snapshot current, None)
  end.

(** ** Plan ([plan.rs]) *)

Module StepStatus.
Inductive StepStatus : Set := Pending | InProgress | Completed.

#[export] Instance StepStatus_eq_dec : EqDecision StepStatus.
Proof. solve_decision. Defined.
End StepStatus.
Export (hints) StepStatus.
Abbreviation StepStatus := StepStatus.StepStatus.

Record PlanItemArg := { step : str; step_status : StepStatus }.

(** [UpdatePlanArgs] and [PlanSnapshot] have the same fields. *)
Record PlanSnapshot := { plan_meta : CompatPlanMetadata; plan_items : list PlanItemArg }.

#[export] Instance CompatPlanMetadata_eq_dec : EqDecision CompatPlanMetadata.
Proof. solve_decision. Defined.
#[export] Instance PlanItemArg_eq_dec : EqDecision PlanItemArg.
Proof. solve_decision. Defined.
#[export] Instance PlanSnapshot_eq_dec : EqDecision PlanSnapshot.
Proof. solve_decision. Defined.

(** [Instant] values are opaque numbers. *)
Record PlanStep := {
  text : str; plan_step_status : StepStatus; started_at : option Z; completed_at : option Z }.

Record PlanState := { state_meta : CompatPlanMetadata; steps : list PlanStep }.

Definition default_plan : PlanState := {| state_meta := compat_plan default_compat; steps := [] |}.

Definition plan_snapshot_is_empty (s : PlanSnapshot) : bool :=
  plan_metadata_is_empty (plan_meta s) && is_nil (plan_items s).

Definition clean_optional (value : option str) : option str :=
  match value with
  | Some s => if str_is_empty (trim s) then None else Some (trim s)
  | None => None
  end.

Definition clean_list (values : list str) : list str :=
  retain (fun v => negb (str_is_empty v)) (trim <$> values).

Definition clean_metadata (m : CompatPlanMetadata) : CompatPlanMetadata :=
  {| cp_title := clean_optional (cp_title m); cp_objective := clean_optional (cp_objective m);
     cp_context_summary := clean_optional (cp_context_summary m);
     cp_explanation := clean_optional (cp_explanation m);
     cp_sources_used := clean_list (cp_sources_used m);
     cp_critical_files := clean_list (cp_critical_files m);
     cp_constraints := clean_list (cp_constraints m);
     cp_recommended_approach := clean_optional (cp_recommended_approach m);
     cp_verification_plan := clean_optional (cp_verification_plan m);
     cp_risks_and_unknowns := clean_optional (cp_risks_and_unknowns m);
     cp_handoff_packet := clean_optional (cp_handoff_packet m) |}.

(** One step, with the timing carried over from an old step of the same text. *)
Definition updated_step (old_steps : list PlanStep) (now : Z) (step_text : str) (s : StepStatus) : PlanStep :=
  match find (fun o => bool_decide (text o = step_text)) old_steps with
  | Some old =>
      {| text := text old; plan_step_status := s;
         started_at :=
           if bool_decide (plan_step_status old = StepStatus.Pending)
              && bool_decide (s = StepStatus.InProgress) then Some now else started_at old;
         completed_at :=
           if bool_decide (plan_step_status old = StepStatus.InProgress)
              && bool_decide (s = StepStatus.Completed) then Some now else completed_at old |}
  | None =>
      {| text := step_text; plan_step_status := s;
         started_at := if bool_decide (s = StepStatus.InProgress) then Some now else None;
         completed_at := None |}
  end.

(** The loop over [args.plan]. *)
Fixpoint new_steps (old_steps : list PlanStep) (now : Z) (in_progress_seen : bool)
  (plan : list PlanItemArg) : list PlanStep :=
  match plan with
  | [] => []
  | item :: plan =>
      let step_text := trim (step item) in
      if str_is_empty step_text then new_steps old_steps now in_progress_seen plan
      else
        let wants := bool_decide (step_status item = StepStatus.InProgress) in
        let s := if wants && in_progress_seen then StepStatus.Pending else step_status item in
        updated_step old_steps now step_text s
          :: new_steps old_steps now (in_progress_seen || wants) plan
  end.

(** [PlanState::update] at the time [now]. *)
Definition plan_update (st : PlanState) (args : PlanSnapshot) (now : Z) : PlanState :=
  {| state_meta := clean_metadata (plan_meta args);
     steps := new_steps (steps st) now false (plan_items args) |}.

Definition plan_snapshot (st : PlanState) : PlanSnapshot :=
  {| plan_meta := state_meta st;
     plan_items := (fun s => {| step := text s; step_status := plan_step_status s |}) <$> steps st |}.

Definition plan_from_snapshot (s : PlanSnapshot) (now : Z) : PlanState := plan_update default_plan s now.

Definition count_status (s : StepStatus) (ss : list PlanStep) : Z :=
  zlen (retain (fun p => bool_decide (plan_step_status p = s)) ss).

Definition counts (st : PlanState) : Z * Z * Z :=
  (count_status StepStatus.Pending (steps st), count_status StepStatus.InProgress (steps st),
   count_status StepStatus.Completed (steps st)).

Definition progress_percent (st : PlanState) : Z :=
  if is_nil (steps st) then 0
  else u8_saturate (usize_saturating_mul (count_status StepStatus.Completed (steps st)) 100
                    / zlen (steps st)).

(** * The work graph: legacy projections

    [crates/tui/src/work_graph/compat.rs]: the Plan and To-do snapshots that old
    readers receive are functions of the graph snapshot. *)

(** [CompatPlanMetadata::from_plan_snapshot] and [to_plan_snapshot]. *)
Definition from_plan_snapshot (s : PlanSnapshot) : CompatPlanMetadata := plan_meta s.
Definition to_plan_snapshot (m : CompatPlanMetadata) : PlanSnapshot := {| plan_meta := m; plan_items := [] |}.

Definition plan_status (n : WorkNode) : StepStatus :=
  match node_state n with
  | NodeState.Initializing | NodeState.Active => StepStatus.InProgress
  | NodeState.Completed | NodeState.Verified => StepStatus.Completed
  | _ => StepStatus.Pending
  end.

Definition todo_status (n : WorkNode) : TodoStatus :=
  match node_state n with
  | NodeState.Initializing | NodeState.Active => TodoStatus.InProgress
  | NodeState.Completed | NodeState.Verified => TodoStatus.Completed
  | NodeState.Cancelled | NodeState.Superseded => TodoStatus.Cancelled
  | _ => TodoStatus.Pending
  end.

Definition project_plan (g : WorkGraphSnapshot) : PlanSnapshot :=
  {| plan_meta := plan_meta (to_plan_snapshot (compat_plan (compat g)));
     plan_items := (fun n => {| step := node_title n; step_status := plan_status n |})
                     <$> omap (node g) (plan_order (compat g)) |}.

Definition project_item (g : WorkGraphSnapshot) (b : CompatTodoBinding) : option TodoItem :=
  n ← node g (todo_node b);
  Some {| item_id := legacy_id b; content := node_title n; status := todo_status n |}.

Definition project_todos (g : WorkGraphSnapshot) : TodoListSnapshot :=
  let its := omap (project_item g) (todos (compat g)) in
  {| snap_items := its; completion_pct := completion_of its; snap_in_progress_id := in_progress_of its |}.
