(* ===== verification/PlanTodoSpec.v ===== *)
(** * Properties of the Plan and To-do stores and their projections

    The single row in progress, the normalization and restoring of plans, the
    completion percentage, and what the projections of a valid graph are. *)

From S2P Require Import Text WorkModel WorkValidate WorkInvariant PlanTodo.

(** ** To-do lists *)

Definition in_progress_rows (its : list TodoItem) : nat :=
  length (retain (fun i => bool_decide (status i = TodoStatus.InProgress)) its).

Arguments in_progress_rows : simpl never.

(** The invariant of a live list. *)
Record todo_valid (l : TodoList) : Prop := {
  tv_unique : NoDup (item_id <$> items l);
  tv_range : forall i, i ∈ items l -> 1 <= item_id i < next_id l;
  tv_single : (in_progress_rows (items l) <= 1)%nat;
  tv_next : 1 <= next_id l <= u32_max }.

Lemma in_progress_rows_cons i its :
  in_progress_rows (i :: its) =
  ((if bool_decide (status i = TodoStatus.InProgress) then 1 else 0) + in_progress_rows its)%nat.
Proof.
  unfold in_progress_rows, retain. rewrite filter_cons.
  destruct (bool_decide (status i = TodoStatus.InProgress)); by case_decide.
Qed.

Lemma in_progress_rows_nil : in_progress_rows [] = 0%nat.
Proof. done. Qed.

Lemma in_progress_rows_app its its' :
  in_progress_rows (its ++ its') = (in_progress_rows its + in_progress_rows its')%nat.
Proof. unfold in_progress_rows, retain. by rewrite filter_app, length_app. Qed.

Lemma in_progress_rows_zero its :
  in_progress_rows its = 0%nat <-> forall i, i ∈ its -> status i <> TodoStatus.InProgress.
Proof.
  induction its as [|i its IH]; [split; [by intros _ i ?%not_elem_of_nil|done]|].
  rewrite in_progress_rows_cons. split.
  - intros H j [->|Hj]%elem_of_cons; case_bool_decide; try lia; [done|].
    apply IH; [lia|done].
  - intros H. rewrite bool_decide_false by (apply H; by apply elem_of_cons; left).
    apply IH. intros j Hj. apply H. by apply elem_of_cons; right.
Qed.

(** At most one row can be in progress when all such rows share an identifier. *)
Lemma in_progress_rows_one its k :
  NoDup (item_id <$> its) ->
  (forall i, i ∈ its -> status i = TodoStatus.InProgress -> item_id i = k) ->
  (in_progress_rows its <= 1)%nat.
Proof.
  induction its as [|i its IH]; [unfold in_progress_rows; cbn; lia|]. rewrite fmap_cons, NoDup_cons, in_progress_rows_cons.
  intros [Hi Hnd] Hk. case_bool_decide as Hs.
  - assert (Hz : in_progress_rows its = 0%nat); [|lia]. apply in_progress_rows_zero.
    intros j Hj Hsj. apply Hi. rewrite (Hk i), <- (Hk j); [|by apply elem_of_cons; right|done|by apply elem_of_cons; left|done].
    apply list_elem_of_fmap. eauto.
  - cbn. apply IH; [done|]. intros j Hj. apply Hk. by apply elem_of_cons; right.
Qed.

Lemma set_single_ids its o : item_id <$> set_single_in_progress its o = item_id <$> its.
Proof.
  unfold set_single_in_progress. rewrite <- list_fmap_compose. apply list_fmap_ext.
  intros _ i _. cbn. by destruct (_ && _).
Qed.

Lemma set_single_in_progress_only its o i :
  i ∈ set_single_in_progress its o -> status i = TodoStatus.InProgress -> Some (item_id i) = o.
Proof.
  intros (j & -> & _)%list_elem_of_fmap. destruct (_ && _) eqn:E; cbn; [done|].
  intros Hs. rewrite Hs in E. apply andb_false_iff in E as [E|E]; [|done].
  apply bool_decide_eq_false in E. by apply dec_stable.
Qed.

Lemma update_first_ids id s its : item_id <$> (update_first id s its).1 = item_id <$> its.
Proof.
  induction its as [|i its IH]; [done|]. cbn. destruct (item_id i =? id); [done|].
  destruct (update_first id s its) as [its' u]. cbn in *. by rewrite IH.
Qed.

Lemma update_first_elem id s its i :
  i ∈ (update_first id s its).1 -> i ∈ its \/ (item_id i = id /\ status i = s).
Proof.
  induction its as [|j its IH]; [by intros ?%not_elem_of_nil|]. cbn.
  destruct (Z.eqb_spec (item_id j) id) as [Hj|Hj].
  - intros [->|Hi]%elem_of_cons; [by right|left]. by apply elem_of_cons; right.
  - destruct (update_first id s its) as [its' u]. cbn in *.
    intros [->|Hi]%elem_of_cons; [left; by apply elem_of_cons; left|].
    destruct (IH Hi); [left; by apply elem_of_cons; right|by right].
Qed.

Lemma update_first_rows id s its :
  s <> TodoStatus.InProgress ->
  (in_progress_rows (update_first id s its).1 <= in_progress_rows its)%nat.
Proof.
  intros Hs. induction its as [|i its IH]; [done|]. cbn. destruct (item_id i =? id).
  - change (in_progress_rows (set_status i s :: its) <= in_progress_rows (i :: its))%nat.
    rewrite (in_progress_rows_cons i), (in_progress_rows_cons (set_status i s)). cbn [set_status status].
    rewrite (bool_decide_false (s = TodoStatus.InProgress)) by done. lia.
  - destruct (update_first id s its) as [its' u]. cbn in *. rewrite !in_progress_rows_cons. lia.
Qed.

(** Ranges and uniqueness depend on the identifiers only. *)
Lemma ids_range (its its' : list TodoItem) (P : Z -> Prop) :
  item_id <$> its' = item_id <$> its -> (forall i, i ∈ its -> P (item_id i)) ->
  forall i, i ∈ its' -> P (item_id i).
Proof.
  intros E H i Hi. assert (Hin : item_id i ∈ item_id <$> its) by (rewrite <- E; apply list_elem_of_fmap; eauto).
  apply list_elem_of_fmap in Hin as (j & -> & Hj). by apply H.
Qed.

Lemma todo_add_valid l c s : todo_valid l -> next_id l < u32_max -> todo_valid (todo_add l c s).1.
Proof.
  intros [Hu Hr Hs Hn] Hmax.
  assert (Hmod : (next_id l + 1) mod 2 ^ 32 = next_id l + 1) by (apply Z.mod_small; unfold u32_max in *; lia).
  set (its := if bool_decide (s = TodoStatus.InProgress) then set_single_in_progress (items l) None else items l).
  assert (Hids : item_id <$> its = item_id <$> items l)
    by (unfold its; case_bool_decide; [apply set_single_ids|done]).
  assert (Hr' : forall i, i ∈ its -> 1 <= item_id i < next_id l) by (eapply (ids_range _ _ (fun z => 1 <= z < next_id l)); eauto).
  constructor; cbn -[u32_max Z.modulo Z.pow]; fold its; rewrite ?Hmod.
  - rewrite fmap_app, Hids. apply NoDup_app. split_and!; [done| |apply NoDup_singleton].
    intros x Hx ->%list_elem_of_singleton. cbn in *. apply list_elem_of_fmap in Hx as (i & Hi & Hin).
    specialize (Hr i Hin). lia.
  - intros i [Hi| ->%list_elem_of_singleton]%elem_of_app; [specialize (Hr' i Hi); lia|cbn; lia].
  - rewrite in_progress_rows_app, in_progress_rows_cons, in_progress_rows_nil. cbn. unfold its. case_bool_decide as E.
    + assert (in_progress_rows (set_single_in_progress (items l) None) = 0%nat) as ->; [|lia].
      apply in_progress_rows_zero. by intros i Hi Hsi%(set_single_in_progress_only _ _ _ Hi).
    + lia.
  - lia.
Qed.

Lemma update_status_valid l id s : todo_valid l -> todo_valid (update_status l id s).1.
Proof.
  intros [Hu Hr Hs Hn]. unfold update_status.
  set (its := if bool_decide (s = TodoStatus.InProgress) then set_single_in_progress (items l) (Some id) else items l).
  assert (Hids : item_id <$> its = item_id <$> items l)
    by (unfold its; case_bool_decide; [apply set_single_ids|done]).
  destruct (update_first id s its) as [its' u] eqn:E.
  assert (Hids' : item_id <$> its' = item_id <$> items l).
  { pose proof (update_first_ids id s its) as H. rewrite E in H. cbn in H. congruence. }
  constructor; cbn -[u32_max]; [by rewrite Hids'|by eapply (ids_range _ _ (fun z => 1 <= z < next_id l)) | |done].
  destruct (decide (s = TodoStatus.InProgress)) as [->|Hne].
  - apply (in_progress_rows_one _ id); [by rewrite Hids'|]. intros i Hi Hsi.
    pose proof (update_first_elem id TodoStatus.InProgress its i) as He. rewrite E in He. cbn in He.
    destruct (He Hi) as [Hin|[? _]]; [|done]. unfold its in Hin. rewrite bool_decide_true in Hin by done.
    apply set_single_in_progress_only in Hin; [congruence|done].
  - pose proof (update_first_rows id s its Hne) as Hle. rewrite E in Hle. cbn in Hle.
    unfold its in Hle. rewrite bool_decide_false in Hle by done. lia.
Qed.

Lemma todo_new_valid : todo_valid todo_new.
Proof.
  constructor; cbn -[u32_max];
    [by apply NoDup_nil|by intros i ?%not_elem_of_nil|rewrite in_progress_rows_nil; lia|unfold u32_max; lia].
Qed.

(** *** Restoring *)

Definition greatest_id (m : Z) (its : list TodoItem) : Z := fold_left (fun m i => Z.max m (item_id i)) its m.

Lemma greatest_id_bounds m its :
  m <= greatest_id m its /\ (forall i, i ∈ its -> item_id i <= greatest_id m its) /\
  (greatest_id m its = m \/ exists i, i ∈ its /\ greatest_id m its = item_id i).
Proof.
  revert m. induction its as [|i its IH]; intros m.
  - unfold greatest_id; cbn. split_and!; [lia|by intros i ?%not_elem_of_nil|by left].
  - change (greatest_id m (i :: its)) with (greatest_id (Z.max m (item_id i)) its).
    destruct (IH (Z.max m (item_id i))) as (H1 & H2 & H3). split_and!; [lia| |].
    + intros j [->|Hj]%elem_of_cons; [lia|by apply H2].
    + destruct H3 as [H3|(j & Hj & H3)]; [|right; exists j; split; [by apply elem_of_cons; right|done]].
      destruct (Z.max_spec m (item_id i)) as [[? E]|[? E]]; [right; exists i|left; lia].
      split; [by apply elem_of_cons; left|]. lia.
Qed.

Lemma restore_spec r its r' :
  (in_progress_count r <= 1)%nat ->
  foldM restore_item r its = Ok r' <->
  (forall i, i ∈ its -> item_id i <> 0) /\ NoDup (item_id <$> its) /\
  (forall x, x ∈ seen r -> x ∉ item_id <$> its) /\
  (in_progress_count r + in_progress_rows its <= 1)%nat /\
  r' = {| seen := reverse (item_id <$> its) ++ seen r;
          in_progress_count := in_progress_count r + in_progress_rows its;
          max_id := greatest_id (max_id r) its |}.
Proof.
  revert r r'. induction its as [|i its IH]; intros r r' Hc; cbn [foldM].
  - split.
    + intros [= <-]. split_and!; [by intros ? ?%not_elem_of_nil|constructor|by intros ? _ ?%not_elem_of_nil| |].
      * unfold in_progress_rows. cbn. lia.
      * destruct r. cbn. f_equal. unfold in_progress_rows. cbn. lia.
    + intros (_ & _ & _ & _ & ->). destruct r. cbn. f_equal. f_equal. unfold in_progress_rows. cbn. lia.
  - rewrite bind_Ok. unfold restore_item.
    set (row := if bool_decide (status i = TodoStatus.InProgress) then S (in_progress_count r) else in_progress_count r).
    assert (Hrow : row = (in_progress_count r + if bool_decide (status i = TodoStatus.InProgress) then 1 else 0)%nat)
      by (unfold row; case_bool_decide; lia).
    rewrite in_progress_rows_cons, fmap_cons, NoDup_cons. split.
    + intros (r1 & (u1 & H1%reject_if_Ok & (u2 & H2%reject_if_Ok & (u3 & H3%reject_if_Ok & [= <-])%bind_Ok)%bind_Ok)%bind_Ok & Hf).
      apply Z.eqb_neq in H1. apply bool_decide_eq_false in H2.
      assert (Hle : (row <= 1)%nat).
      { unfold row in *. destruct (bool_decide (status i = TodoStatus.InProgress)); [|done].
        rewrite andb_true_l in H3. by apply Nat.ltb_ge in H3. }
      apply IH in Hf as (Ha & Hb & Hd & He & ->); [|done]. cbn [seen in_progress_count max_id] in *.
      split_and!; [| |done| |lia|].
      * intros j [->|Hj]%elem_of_cons; auto.
      * apply Hd. by apply elem_of_cons; left.
      * intros x Hx [->|Hin]%elem_of_cons; [done|]. eapply Hd; [|exact Hin]. by apply elem_of_cons; right.
      * rewrite reverse_cons, <- app_assoc. f_equal. lia.
    + intros (Ha & (Hb1 & Hb) & Hd & He & ->).
      exists {| seen := item_id i :: seen r; in_progress_count := row; max_id := Z.max (max_id r) (item_id i) |}.
      split.
      * rewrite (proj2 (Z.eqb_neq _ _) (Ha i ltac:(by apply elem_of_cons; left))). cbn [reject_if mbind result_bind].
        rewrite (bool_decide_false (item_id i ∈ seen r))
          by (intros Hx; apply (Hd _ Hx); by apply elem_of_cons; left). cbn [reject_if mbind result_bind].
        fold row.
        assert (bool_decide (status i = TodoStatus.InProgress) && (1 <? row)%nat = false) as ->; [|done].
        apply andb_false_iff. right. apply Nat.ltb_ge. lia.
      * apply IH; cbn [seen in_progress_count max_id]; [lia|]. split_and!; [|done| |lia|].
        -- intros j Hj. apply Ha. by apply elem_of_cons; right.
        -- intros x [->|Hx]%elem_of_cons; [done|]. intros Hin. apply (Hd _ Hx). by apply elem_of_cons; right.
        -- rewrite reverse_cons, <- app_assoc. f_equal. lia.
Qed.

Lemma from_snapshot_Ok s l :
  from_snapshot s = Ok l <->
  (forall i, i ∈ snap_items s -> item_id i <> 0) /\ NoDup (item_id <$> snap_items s) /\
  (in_progress_rows (snap_items s) <= 1)%nat /\
  (snap_items s <> [] -> greatest_id 0 (snap_items s) + 1 <= u32_max) /\
  l = {| items := snap_items s; next_id := if is_nil (snap_items s) then 1 else greatest_id 0 (snap_items s) + 1 |}.
Proof.
  unfold from_snapshot. rewrite bind_Ok. setoid_rewrite restore_spec; [|cbn; lia]. cbn [seen in_progress_count max_id].
  setoid_rewrite bind_Ok. split.
  - intros (r & (Ha & Hb & _ & Hd & ->) & next & Hn & [= <-]). cbn [max_id] in Hn. split_and!; try done.
    + intros Hne. destruct (snap_items s); [done|]. cbn [is_nil] in Hn. apply ok_or_Ok in Hn.
      unfold u32_checked_add in Hn. by destruct (Z.leb_spec (greatest_id 0 (t :: l) + 1) u32_max).
    + f_equal. destruct (snap_items s); cbn [is_nil] in *; [by injection Hn|].
      apply ok_or_Ok in Hn. unfold u32_checked_add in Hn. destruct (_ <=? _); [by injection Hn|done].
  - intros (Ha & Hb & Hd & Hmax & ->). eexists. split; [split_and!; [done|done|by intros ? ?%not_elem_of_nil|cbn; lia|done]|].
    eexists. split; [|done]. cbn [max_id]. destruct (snap_items s); cbn [is_nil]; [done|].
    unfold u32_checked_add. by rewrite (proj2 (Z.leb_le _ _) (Hmax ltac:(done))).
Qed.

(** the To-do list keeps its invariant: identifiers are unique, positive and
    below the next one, and at most one row is in progress, through additions
    (while identifiers last), status updates and clearing; and what a valid
    list publishes restores to the same rows. *)
Theorem todo_list_invariant l :
  todo_valid l ->
  (forall c s, next_id l < u32_max -> todo_valid (todo_add l c s).1) /\
  (forall id s, todo_valid (update_status l id s).1) /\
  todo_valid (todo_clear l) /\
  exists l', from_snapshot (todo_snapshot l) = Ok l' /\ items l' = items l /\ next_id l' <= next_id l /\
    todo_valid l'.
Proof.
  intros Hv. split; [intros; by apply todo_add_valid|]. split; [intros; by apply update_status_valid|].
  split; [apply todo_new_valid|]. destruct Hv as [Hu Hr Hs Hn].
  set (next := if is_nil (items l) then 1 else greatest_id 0 (items l) + 1).
  pose proof (greatest_id_bounds 0 (items l)) as (Hg0 & Hg1 & Hg2).
  assert (Hnext : items l <> [] -> greatest_id 0 (items l) + 1 <= next_id l).
  { intros Hne. destruct Hg2 as [E|(i & Hi & E)]; [|specialize (Hr i Hi); lia].
    rewrite E. destruct (items l) as [|i its]; [done|]. specialize (Hr i ltac:(by apply elem_of_cons; left)). lia. }
  exists {| items := items l; next_id := next |}. split_and!.
  - apply from_snapshot_Ok. cbn [snap_items todo_snapshot]. split_and!; try done.
    + intros i Hi. specialize (Hr i Hi). lia.
    + intros Hne. specialize (Hnext Hne). lia.
  - done.
  - cbn. unfold next. destruct (items l); cbn [is_nil]; [lia|by apply Hnext].
  - constructor; cbn -[u32_max]; try done.
    + intros i Hi. specialize (Hr i Hi). unfold next. specialize (Hg1 i Hi).
      destruct (items l); cbn [is_nil]; [by apply not_elem_of_nil in Hi|lia].
    + unfold next. destruct (items l); cbn [is_nil]; [lia|]. specialize (Hnext ltac:(done)). lia.
Qed.

Lemma todo_list_invariant_witness :
  let l := (todo_add (todo_add todo_new $"write tests" TodoStatus.InProgress).1 $"run" TodoStatus.InProgress).1 in
  (forall c s, next_id l < u32_max -> todo_valid (todo_add l c s).1) /\
  (forall id s, todo_valid (update_status l id s).1) /\
  todo_valid (todo_clear l) /\
  exists l', from_snapshot (todo_snapshot l) = Ok l' /\ items l' = items l /\ next_id l' <= next_id l /\
    todo_valid l'.
Proof.
  apply todo_list_invariant. repeat (apply todo_add_valid; [|vm_compute; reflexivity]). apply todo_new_valid.
Defined.

(** ** Percentages *)

(** the completion percentage is a percentage: between 0 and 100 for every
    list, 0 for the empty one, and, while a hundred times the number of rows
    fits a [usize], the share of settled rows rounded to the nearest percent. *)
Theorem completion_is_a_rounded_percentage its :
  let settled := zlen (retain (fun i => TodoStatus.is_settled (status i)) its) in
  0 <= completion_of its <= 100 /\
  (its = [] -> completion_of its = 0) /\
  (its <> [] -> 100 * zlen its <= usize_max ->
   2 * Z.abs (completion_of its * zlen its - 100 * settled) <= zlen its).
Proof.
  cbv zeta. unfold completion_of.
  set (settled := zlen (retain _ its)).
  assert (Hs : 0 <= settled <= zlen its).
  { unfold settled, zlen. pose proof (retain_length (fun i => TodoStatus.is_settled (status i)) its). lia. }
  destruct its as [|i its']; cbn [is_nil]; [split_and!; done|]. set (its := i :: its') in *.
  assert (Hpos : 0 < zlen its) by (unfold its, zlen; cbn; lia).
  set (m := usize_saturating_mul settled 100).
  assert (Hm : 0 <= m <= settled * 100) by (unfold m, usize_saturating_mul, usize_max; lia).
  assert (Hq : 0 <= (m + zlen its / 2) / zlen its <= 100).
  { assert (0 <= zlen its / 2) by (apply Z.div_pos; lia). split; [apply Z.div_pos; lia|].
    apply Z.lt_succ_r. apply Z.div_lt_upper_bound; [done|].
    pose proof (Z.mul_div_le (zlen its) 2). lia. }
  assert (Hsat : u8_saturate ((m + zlen its / 2) / zlen its) = (m + zlen its / 2) / zlen its).
  { unfold u8_saturate, u8_max. by rewrite (proj2 (Z.leb_le _ _)) by lia. }
  rewrite Hsat. split_and!; [lia|lia|done|]. intros _ Hfit.
  assert (Heq : m = settled * 100) by (unfold m, usize_saturating_mul; lia).
  rewrite Heq. pose proof (Z.div_mod (settled * 100 + zlen its / 2) (zlen its) ltac:(lia)) as H1.
  pose proof (Z.mod_pos_bound (settled * 100 + zlen its / 2) (zlen its) Hpos) as H2.
  pose proof (Z.div_mod (zlen its) 2 ltac:(lia)) as H3. pose proof (Z.mod_pos_bound (zlen its) 2 ltac:(lia)) as H4.
  nia.
Qed.

(** ** Plans *)

(** What an update keeps of its items: trimmed non-empty steps, with one
    in-progress step at most. *)
Fixpoint clean_items (in_progress_seen : bool) (plan : list PlanItemArg) : list PlanItemArg :=
  match plan with
  | [] => []
  | i :: plan =>
      if str_is_empty (trim (step i)) then clean_items in_progress_seen plan
      else
        let wants := bool_decide (step_status i = StepStatus.InProgress) in
        {| step := trim (step i);
           step_status := if wants && in_progress_seen then StepStatus.Pending else step_status i |}
        :: clean_items (in_progress_seen || wants) plan
  end.

Lemma updated_step_item olds t txt s :
  text (updated_step olds t txt s) = txt /\ plan_step_status (updated_step olds t txt s) = s.
Proof.
  unfold updated_step. destruct (find _ olds) as [o|] eqn:E; [|done].
  apply find_Some in E as [_ E]. by apply bool_decide_eq_true in E.
Qed.

Lemma new_steps_items olds t b plan :
  (fun s => {| step := text s; step_status := plan_step_status s |}) <$> new_steps olds t b plan
  = clean_items b plan.
Proof.
  revert b. induction plan as [|i plan IH]; intros b; cbn [new_steps clean_items]; [done|].
  destruct (str_is_empty (trim (step i))); [apply IH|]. rewrite fmap_cons, IH.
  by destruct (updated_step_item olds t (trim (step i))
    (if bool_decide (step_status i = StepStatus.InProgress) && b then StepStatus.Pending else step_status i)) as [-> ->].
Qed.

Lemma clean_items_idem b plan : clean_items b (clean_items b plan) = clean_items b plan.
Proof.
  revert b. induction plan as [|i plan IH]; intros b; cbn [clean_items]; [done|].
  destruct (str_is_empty (trim (step i))) eqn:E; [apply IH|].
  cbn [clean_items step step_status]. rewrite trim_idem, E.
  assert (Hw : b || bool_decide ((if bool_decide (step_status i = StepStatus.InProgress) && b
      then StepStatus.Pending else step_status i) = StepStatus.InProgress) =
    b || bool_decide (step_status i = StepStatus.InProgress)) by (by destruct (step_status i), b).
  rewrite Hw, IH. f_equal. f_equal. by destruct (step_status i), b.
Qed.

Lemma clean_items_facts b plan :
  (forall i, i ∈ clean_items b plan -> step i <> [] /\ trim (step i) = step i) /\
  (length (retain (fun i => bool_decide (step_status i = StepStatus.InProgress)) (clean_items b plan))
   <= if b then 0 else 1)%nat.
Proof.
  revert b. induction plan as [|i plan IH]; intros b; cbn [clean_items].
  { split; [by intros i ?%not_elem_of_nil|]. destruct b; cbn; lia. }
  destruct (str_is_empty (trim (step i))) eqn:E; [apply IH|]. split.
  - intros j [->|Hj]%elem_of_cons; [|by eapply (proj1 (IH _))].
    cbn [step]. split; [by destruct (trim (step i))|apply trim_idem].
  - unfold retain. rewrite filter_cons. cbn [step_status].
    pose proof (proj2 (IH (b || bool_decide (step_status i = StepStatus.InProgress)))) as Hn.
    unfold retain in Hn. destruct (step_status i), b; cbn in *; repeat case_bool_decide; repeat case_decide; cbn in *; try lia; try done.
Qed.

Lemma clean_optional_idem o : clean_optional (clean_optional o) = clean_optional o.
Proof.
  destruct o as [s|]; [|done]. cbn. destruct (str_is_empty (trim s)) eqn:E; [done|]. cbn.
  by rewrite trim_idem, E.
Qed.

Lemma clean_list_idem l : clean_list (clean_list l) = clean_list l.
Proof.
  unfold clean_list, retain. induction l as [|s l IH]; [done|]. rewrite !fmap_cons, filter_cons.
  case_decide as Hs; [|done]. rewrite fmap_cons, trim_idem, filter_cons_True by done. by rewrite IH.
Qed.

Arguments clean_list : simpl never.
Arguments clean_optional : simpl never.

Lemma clean_metadata_idem m : clean_metadata (clean_metadata m) = clean_metadata m.
Proof. unfold clean_metadata. cbn. by rewrite !clean_optional_idem, !clean_list_idem. Qed.

(** a plan update normalizes: every kept step is non-empty and trimmed, at
    most one is in progress, a kept step of a known text keeps its start time
    unless it starts now; and saving then restoring the plan gives back the
    same snapshot. *)
Theorem plan_update_normalizes st args t t' :
  let st' := plan_update st args t in
  (forall s, s ∈ steps st' -> text s <> [] /\ trim (text s) = text s) /\
  0 <= count_status StepStatus.InProgress (steps st') <= 1 /\
  (forall old s, started_at (updated_step (steps st) t (text old) s) <> started_at old ->
     find (fun o => bool_decide (text o = text old)) (steps st) = Some old ->
     plan_step_status old = StepStatus.Pending /\ s = StepStatus.InProgress) /\
  plan_snapshot (plan_from_snapshot (plan_snapshot st') t') = plan_snapshot st'.
Proof.
  cbv zeta. pose proof (new_steps_items (steps st) t false (plan_items args)) as Hitems.
  pose proof (clean_items_facts false (plan_items args)) as [Hclean Hone].
  split_and!.
  - intros s Hs. assert (Hin : {| step := text s; step_status := plan_step_status s |} ∈ clean_items false (plan_items args)).
    { rewrite <- Hitems. apply list_elem_of_fmap. by exists s. }
    by apply Hclean in Hin.
  - unfold count_status. apply zlen_nonneg.
  - unfold count_status, zlen. cbn [steps plan_update].
    rewrite <- Hitems, retain_fmap, length_fmap in Hone. cbn [step_status] in Hone. lia.
  - intros old s Hne Hf. unfold updated_step in Hne. rewrite Hf in Hne. cbn in Hne.
    destruct (bool_decide _) eqn:E1, (bool_decide (s = _)) eqn:E2; try done.
    by apply bool_decide_eq_true in E1, E2.
  - unfold plan_from_snapshot, plan_update, plan_snapshot. cbn [state_meta steps plan_meta plan_items].
    rewrite !new_steps_items, clean_items_idem, clean_metadata_idem. done.
Qed.

(** ** Projections *)

(** In a well-formed graph every To-do row projects. *)
Lemma project_items_ids g (bs : list CompatTodoBinding) :
  (forall b, b ∈ bs -> is_Some (node g (todo_node b))) ->
  item_id <$> omap (project_item g) bs = legacy_id <$> bs.
Proof.
  induction bs as [|b bs IH]; intros H; [done|]. cbn [omap list_omap]. unfold project_item at 1.
  destruct (H b ltac:(by apply elem_of_cons; left)) as [n Hn]. rewrite Hn. cbn. rewrite IH; [done|].
  intros c Hc. apply H. by apply elem_of_cons; right.
Qed.

Lemma project_items_active g (bs : list CompatTodoBinding) :
  (forall b n, b ∈ bs -> node g (todo_node b) = Some n -> node_state n <> NodeState.Initializing) ->
  in_progress_rows (omap (project_item g) bs) =
  length (retain (fun b => match node g (todo_node b) with
                           | Some n => bool_decide (node_state n = NodeState.Active)
                           | None => false end) bs).
Proof.
  induction bs as [|b bs IH]; intros H; [done|]. cbn [omap list_omap]. unfold project_item at 1, retain.
  rewrite filter_cons. specialize (IH ltac:(intros c n Hc; apply H; by apply elem_of_cons; right)).
  unfold retain in IH. destruct (node g (todo_node b)) as [n|] eqn:Hn; cbn.
  - assert (Hni : node_state n <> NodeState.Initializing) by (eapply H; [by apply elem_of_cons; left|done]).
    rewrite in_progress_rows_cons, IH. cbn [status]. unfold todo_status.
    destruct (node_state n); cbn; try done.
  - rewrite IH. by rewrite decide_False.
Qed.

(** the To-do projection of a well-formed graph restores: if no projected
    node is Initializing and the identifiers leave room for the next one, the
    legacy reader accepts the projected snapshot and gets exactly its rows. *)
Theorem projected_todos_restore g :
  well_formed g ->
  (forall b n, b ∈ todos (compat g) -> node g (todo_node b) = Some n ->
     node_state n <> NodeState.Initializing) ->
  (forall b, b ∈ todos (compat g) -> 0 <= legacy_id b < u32_max) ->
  exists l, from_snapshot (project_todos g) = Ok l /\ items l = snap_items (project_todos g) /\
    item_id <$> items l = legacy_id <$> todos (compat g).
Proof.
  intros Hwf Hni Hmax.
  assert (Hsome : forall b, b ∈ todos (compat g) -> is_Some (node g (todo_node b))).
  { intros b Hb. destruct (wf_todos g Hwf b Hb) as (_ & (n & Hn & _) & _). by exists n. }
  pose proof (project_items_ids g _ Hsome) as Hids.
  assert (Hrange : forall i, i ∈ omap (project_item g) (todos (compat g)) -> 0 < item_id i < u32_max).
  { intros i Hi. assert (Hin : item_id i ∈ legacy_id <$> todos (compat g))
      by (rewrite <- Hids; apply list_elem_of_fmap; eauto).
    apply list_elem_of_fmap in Hin as (b & -> & Hb). specialize (Hmax b Hb).
    destruct (wf_todos g Hwf b Hb) as (Hz & _). lia. }
  set (its := snap_items (project_todos g)).
  exists {| items := its; next_id := if is_nil its then 1 else greatest_id 0 its + 1 |}.
  split; [|split; [done|exact Hids]]. unfold its.
  - apply from_snapshot_Ok. cbn [snap_items project_todos]. split_and!.
    + intros i Hi. specialize (Hrange i Hi). lia.
    + rewrite Hids. apply Hwf.
    + rewrite (project_items_active g _ Hni). exact (proj2 (active_todos_spec g) (wf_one_active g Hwf)).
    + intros _. pose proof (greatest_id_bounds 0 (omap (project_item g) (todos (compat g)))) as (_ & _ & [->|(i & Hi & ->)]).
      * unfold u32_max. lia.
      * specialize (Hrange i Hi). lia.
    + done.
Qed.

Definition step_node (id : str) (s : NodeState) : WorkNode :=
  {| node_id := id; node_kind := NodeKind.PlanStep; node_title := $"step"; node_state := s;
     node_acceptance := []; node_binding := None; node_evidence := None;
     node_provenance := ToolUpdate $"work_update" $"call"; node_created_at := 1; node_updated_at := 1 |}.

(** Two To-do rows for two plan steps in the given states. *)
Definition two_rows (s1 s2 : NodeState) : WorkGraphSnapshot :=
  with_compat (with_nodes new [step_node $"wn:1" s1; step_node $"wn:2" s2])
    {| compat_plan := compat_plan default_compat; plan_order := [];
       todos := [{| legacy_id := 1; todo_node := $"wn:1"; plan_index := None |};
                 {| legacy_id := 2; todo_node := $"wn:2"; plan_index := None |}] |}.

Definition plain_externs : Externs :=
  {| Sha256_digest := fun _ => []; Url_parse := fun _ => None;
     parse_from_rfc3339_ok := fun _ => false; prints_as_itself := fun _ => true |}.

Lemma two_rows_well_formed : well_formed (two_rows NodeState.Active NodeState.Ready).
Proof. apply (@validate_well_formed plain_externs). vm_compute. reflexivity. Qed.

Lemma projected_todos_restore_witness :
  let g := two_rows NodeState.Active NodeState.Ready in
  exists l, from_snapshot (project_todos g) = Ok l /\ items l = snap_items (project_todos g) /\
    item_id <$> items l = legacy_id <$> todos (compat g).
Proof.
  apply projected_todos_restore; [apply two_rows_well_formed| |].
  - intros b n Hb. cbn in Hb. apply elem_of_cons in Hb as [->|Hb];
      [|apply list_elem_of_singleton in Hb as ->]; by intros [= <-].
  - intros b Hb. cbn in Hb. apply elem_of_cons in Hb as [->|Hb];
      [|apply list_elem_of_singleton in Hb as ->]; vm_compute; split; congruence.
Defined.

(** validation and projection disagree on what is active: a graph with an
    Initializing and an Active To-do row is accepted by validation, which
    counts Active rows only, but both rows project as in progress and the
    legacy reader rejects the projection. *)
Theorem initializing_row_breaks_projection `{Externs} :
  let g := two_rows NodeState.Initializing NodeState.Active in
  validate g = Ok tt /\
  from_snapshot (project_todos g) = Err $"Only one To-do item may be in progress".
Proof. split; vm_compute; reflexivity. Qed.
