(* ===== verification/WorkModelSpec.v ===== *)
(** * Properties of the work-graph data model

    Derived identifiers, the reasoning constraint of a route, evidence
    references and external identities. *)

From S2P Require Import Text WorkModel.
From S2P Require Providers.

(** ** Identifiers *)

Lemma id_preimage_eq p s d : id_preimage p s d = p ++ 31%N :: s ++ 31%N :: d.
Proof. done. Qed.

(** The text hashed for an identifier separates its parts: for session names
    without the unit separator, equal texts come from the same prefix, session
    and discriminator (so [("ab", "c")] and [("a", "bc")] differ); a session
    name that contains the separator does collide. *)
Theorem identifier_preimage_is_injective prefix session discriminator prefix' session' discriminator' :
  31%N ∉ prefix -> 31%N ∉ prefix' -> 31%N ∉ session -> 31%N ∉ session' ->
  (id_preimage prefix session discriminator = id_preimage prefix' session' discriminator' <->
   prefix = prefix' /\ session = session' /\ discriminator = discriminator') /\
  id_preimage prefix (session ++ unit_separator ++ session') discriminator =
    id_preimage prefix session (session' ++ unit_separator ++ discriminator).
Proof.
  intros Hp Hp' Hs Hs'. split.
  - split; [|by intros (-> & -> & ->)]. rewrite !id_preimage_eq. intros E.
    apply app_sep_inj in E as [-> E]; [|done..]. by apply app_sep_inj in E as [-> ->].
  - unfold id_preimage. by rewrite <- !app_assoc.
Qed.

Lemma identifier_preimage_is_injective_witness :
  (id_preimage $"wn:" $"ab" $"c" = id_preimage $"wn:" $"a" $"bc" <->
   $"wn:" = $"wn:" /\ $"ab" = $"a" /\ $"c" = $"bc") /\
  id_preimage $"wn:" ($"ab" ++ unit_separator ++ $"a") $"c" =
    id_preimage $"wn:" $"ab" ($"a" ++ unit_separator ++ $"c").
Proof. apply identifier_preimage_is_injective; by apply (bool_decide_eq_false_1 _); vm_compute. Defined.

(** ** Evidence references *)

Lemma no_space_or_control (r : str) :
  existsb (fun c => is_whitespace c || is_control c) r = false <->
  forall c, c ∈ r -> is_whitespace c = false /\ is_control c = false.
Proof. rewrite existsb_false. split; intros H c Hc; specialize (H c Hc); by apply orb_false_iff. Qed.

(** The extra conditions of a web citation. *)
Definition citation_ok `{Externs} (kind : EvidenceKind) (reference : str) : Prop :=
  match kind with
  | EvidenceKind.WebCitation ref_id url retrieved_at =>
      ref_id = reference /\ web_citation_url_ok url = true /\ parse_from_rfc3339_ok retrieved_at = true
  | _ => True
  end.

(** an evidence reference can only be a short logical handle: construction
    succeeds exactly for a non-empty reference of at most 512 characters, with
    no whitespace or control character, that is no absolute, drive or home path
    and carries no PEM marker, where a web citation names its own reference, a
    safe URL and an RFC 3339 time; the value built is the one given, and
    reading it back through the constructor yields it again. *)
Theorem evidence_reference_is_a_handle `{Externs} kind reference raw truncated e :
  EvidenceRef_new kind reference raw truncated = Ok e <->
  e = {| ref_kind := kind; ref_reference := reference; ref_raw_bytes := raw; ref_truncated := truncated |} /\
  reference <> [] /\ char_count reference <= 512 /\
  (forall c, c ∈ reference -> is_whitespace c = false /\ is_control c = false) /\
  (forall c, head reference = Some c -> c <> chr "/" /\ c <> chr "\" /\ c <> chr "~") /\
  drive_absolute reference = false /\ str_contains $"-----BEGIN" reference = false /\
  citation_ok kind reference /\
  EvidenceRef_new (ref_kind e) (ref_reference e) (ref_raw_bytes e) (ref_truncated e) = Ok e.
Proof.
  assert (Hcit : forall m, match kind with
      | EvidenceKind.WebCitation ref_id url retrieved_at =>
          reject_if (bool_decide (ref_id <> reference)) WebCitationReferenceMismatch;;
          reject_if (negb (web_citation_url_ok url)) InvalidWebCitationUrl;;
          reject_if (negb (parse_from_rfc3339_ok retrieved_at)) InvalidWebCitationTimestamp
      | _ => Ok tt end = Ok m <-> citation_ok kind reference).
  { intros []. destruct kind; cbn [citation_ok]; try done. rewrite bind_Ok. setoid_rewrite bind_Ok. split.
    - intros (? & H1%reject_if_Ok & ? & H2%reject_if_Ok & H3%reject_if_Ok).
      apply negb_false_iff in H2, H3. apply bool_decide_eq_false in H1. split_and!; try done. by apply dec_stable.
    - intros (-> & H2 & H3). exists tt. split; [by rewrite bool_decide_false by tauto|].
      exists tt. by rewrite H2, H3. }
  assert (Hnew : forall e', EvidenceRef_new kind reference raw truncated = Ok e' <->
    e' = {| ref_kind := kind; ref_reference := reference; ref_raw_bytes := raw; ref_truncated := truncated |} /\
    reference <> [] /\ char_count reference <= 512 /\
    (forall c, c ∈ reference -> is_whitespace c = false /\ is_control c = false) /\
    (forall c, head reference = Some c -> c <> chr "/" /\ c <> chr "\" /\ c <> chr "~") /\
    drive_absolute reference = false /\ str_contains $"-----BEGIN" reference = false /\ citation_ok kind reference).
  { intros e'. unfold EvidenceRef_new. split.
    - intros (? & H1%reject_if_Ok & (? & H2%reject_if_Ok & (? & H3%reject_if_Ok & (? & H4%reject_if_Ok &
        (? & H5%reject_if_Ok & (? & H6%reject_if_Ok & (m & H7%Hcit & [= <-])%bind_Ok)%bind_Ok)%bind_Ok)%bind_Ok)%bind_Ok)%bind_Ok)%bind_Ok.
      apply Z.ltb_ge in H2. rewrite no_space_or_control in H5. apply orb_false_iff in H3 as [[H3a H3b]%orb_false_iff H3c].
      split_and!; try done; [by destruct reference|].
      intros c Hc. rewrite Hc in *. cbn [default] in *. apply N.eqb_neq in H3a, H3b, H4. by split_and!.
    - intros (-> & H1 & H2 & H3 & H4 & H5 & H6 & H7%(Hcit tt)). destruct reference as [|c r] eqn:Er; [done|].
      destruct (H4 c eq_refl) as (Ha%N.eqb_neq & Hb%N.eqb_neq & Hc%N.eqb_neq).
      rewrite H7. cbn [str_is_empty head default reject_if mbind result_bind].
      unfold EVIDENCE_REFERENCE_MAX_LEN. apply Z.ltb_ge in H2. apply no_space_or_control in H3.
      change (id c) with c. rewrite H2, Ha, Hb, H5, Hc, H3, H6. done. }
  rewrite Hnew. split.
  - intros (-> & Hrest). split_and!; try apply Hrest; try done. by apply Hnew.
  - intros (-> & ? & ? & ? & ? & ? & ? & ? & _). by split_and!.
Qed.

(** ** Operation identities *)

Definition identity_schemes : list str :=
  [$"fleet:"; $"task:"; $"shell:"; $"worker:"; $"workflow:"; $"lane:"].

Lemma schemes_disjoint p q rest rest' :
  p ∈ identity_schemes -> q ∈ identity_schemes -> p ++ rest = q ++ rest' -> p = q /\ rest = rest'.
Proof.
  intros Hp Hq. unfold identity_schemes in Hp, Hq. rewrite !elem_of_cons in Hp, Hq.
  destruct Hp as [->|[->|[->|[->|[->|[->|Hp%not_elem_of_nil]]]]]], Hq as [->|[->|[->|[->|[->|[->|Hq%not_elem_of_nil]]]]]];
    try done; cbn; intros E; try discriminate E; by injection E as ->.
Qed.

(** a bound operation's external identity is well formed exactly when it is
    [fleet:run/task], split at the first slash, or one of the five plain
    schemes, with plain parts (non-empty, no whitespace or control character);
    and it belongs to one scheme only. *)
Theorem external_identity_has_one_scheme external :
  (external_identity_is_well_formed external = true <->
   (exists run task, external = $"fleet:" ++ run ++ (chr "/" :: task) /\ (chr "/" ∉ run) /\
      plain_identity run = true /\ plain_identity task = true) \/
   (exists scheme rest, scheme ∈ [$"task:"; $"shell:"; $"worker:"; $"workflow:"; $"lane:"] /\
      external = scheme ++ rest /\ plain_identity rest = true)) /\
  (forall p q rest rest', p ∈ identity_schemes -> q ∈ identity_schemes ->
     external = p ++ rest -> external = q ++ rest' -> p = q).
Proof.
  assert (Hsub : forall s, s ∈ [$"task:"; $"shell:"; $"worker:"; $"workflow:"; $"lane:"] -> s ∈ identity_schemes)
    by (intros s Hs; by apply elem_of_cons; right).
  assert (Hfl : $"fleet:" ∈ identity_schemes) by (by apply elem_of_cons; left).
  split; [|intros p q rest rest' Hp Hq -> E; by apply (schemes_disjoint p q rest rest') in E as [-> _]].
  unfold external_identity_is_well_formed.
  destruct (strip_prefix $"fleet:" external) as [rest|] eqn:Ef.
  - apply strip_prefix_Some in Ef. subst external. change $"/" with [chr "/"]. split.
    + destruct (split_once [chr "/"] rest) as [[run task]|] eqn:Es; [|done].
      intros [Hr Ht]%andb_true_iff. left. exists run, task.
      pose proof (split_once_Some _ _ _ _ Es) as ->. split_and!; try done. by eapply split_once_char_before.
    + intros [(run & task & E & Hn & Hr & Ht)|(s & r & Hs & E & _)].
      * apply app_inv_head in E. subst rest. rewrite split_once_char by done. by rewrite Hr, Ht.
      * apply schemes_disjoint in E as [<- _]; [|done|by apply Hsub].
        exfalso. revert Hs. apply (bool_decide_eq_false_1 _). by vm_compute.
  - rewrite existsb_spec. split.
    + intros (s & Hs & Hp). destruct (strip_prefix s external) as [r|] eqn:E; [|done].
      apply strip_prefix_Some in E. right. by exists s, r.
    + intros [(run & task & E & _)|(s & r & Hs & E & Hr)].
      * exfalso. assert (strip_prefix $"fleet:" external = Some (run ++ chr "/" :: task)) as E'
          by (by apply strip_prefix_Some). congruence.
      * exists s. split; [done|].
        assert (strip_prefix s external = Some r) as -> by (by apply strip_prefix_Some). done.
Qed.

(** ** Reasoning receipts *)

(** the effective reasoning tier of a route is stable and never invented:
    applying the route's constraint to its own result changes nothing, a custom
    endpoint is always unavailable, and a Z.ai or MiniMax route has a tier only
    on the exact first-party endpoint. *)
Theorem constrained_reasoning_is_stable requested provider endpoint model effective :
  constrained_effective_reasoning_for_route requested provider endpoint model = Some effective ->
  constrained_effective_reasoning_for_route effective provider endpoint model = Some effective /\
  (provider = Providers.ApiProvider.Custom -> effective = ReasoningEffortTier.Unavailable) /\
  (effective <> ReasoningEffortTier.Unavailable ->
   (provider = Providers.ApiProvider.Zai ->
      Providers.is_exact_zai_chat_route Providers.ProviderKind.Zai endpoint = true) /\
   (provider = Providers.ApiProvider.Minimax ->
      Providers.is_exact_minimax_chat_route Providers.ProviderKind.Minimax endpoint = true) /\
   (provider = Providers.ApiProvider.MinimaxAnthropic ->
      Providers.is_exact_minimax_anthropic_route Providers.ProviderKind.MinimaxAnthropic endpoint = true)).
Proof.
  unfold constrained_effective_reasoning_for_route, Providers.api_is_exact_zai_chat_route,
    Providers.is_exact_minimax_m3_route, Providers.is_exact_minimax_anthropic_m3_route.
  repeat case_bool_decide; subst; cbn [andb negb]; try done.
  - destruct (Providers.is_exact_zai_chat_route _ endpoint); cbn [negb].
    + destruct (Providers.is_exact_zai_glm_5_2_route Providers.ApiProvider.Zai endpoint model),
        (Providers.is_exact_known_zai_reasoning_route Providers.ApiProvider.Zai endpoint model);
        intros [= <-]; destruct requested; by split_and!.
    + intros [= <-]. by split_and!.
  - destruct (Providers.is_exact_minimax_chat_route _ endpoint), (eq_ignore_ascii_case _ _); cbn [andb];
      intros [= <-]; destruct requested; by split_and!.
  - destruct (Providers.is_exact_minimax_anthropic_route _ endpoint), (eq_ignore_ascii_case _ _); cbn [andb];
      intros [= <-]; destruct requested; by split_and!.
  - intros [= <-]. by split_and!.
  - destruct (Providers.is_exact_kimi_code_k3_route provider endpoint model),
      (Providers.is_exact_direct_moonshot_k3_route provider endpoint model);
      try done; intros [= <-]; destruct requested; by split_and!.
Qed.

Lemma constrained_reasoning_is_stable_witness :
  let endpoint := $"https://api.z.ai/api/paas/v4" in
  constrained_effective_reasoning_for_route ReasoningEffortTier.High Providers.ApiProvider.Zai endpoint $"glm-5.2"
    = Some ReasoningEffortTier.High /\
  (Providers.ApiProvider.Zai = Providers.ApiProvider.Custom ->
     ReasoningEffortTier.High = ReasoningEffortTier.Unavailable) /\
  (ReasoningEffortTier.High <> ReasoningEffortTier.Unavailable ->
   (Providers.ApiProvider.Zai = Providers.ApiProvider.Zai ->
      Providers.is_exact_zai_chat_route Providers.ProviderKind.Zai endpoint = true) /\
   (Providers.ApiProvider.Zai = Providers.ApiProvider.Minimax ->
      Providers.is_exact_minimax_chat_route Providers.ProviderKind.Minimax endpoint = true) /\
   (Providers.ApiProvider.Zai = Providers.ApiProvider.MinimaxAnthropic ->
      Providers.is_exact_minimax_anthropic_route Providers.ProviderKind.MinimaxAnthropic endpoint = true)).
Proof.
  apply (constrained_reasoning_is_stable ReasoningEffortTier.Low). vm_compute. reflexivity.
Defined.
