(* ===== verification/ReviewRepair.v ===== *)
(** * The bounded review-repair loop

    [crates/workflow/src/review_repair.rs]: the ceilings, the route and
    iteration receipts, the stop reasons and the three operations of
    [ReviewRepairLoop], each as a function from the loop to the loop it leaves
    behind and the result it returns. *)

From S2P Require Import Text.

Record ReviewRepairBounds := {
  max_iterations : Z; max_wall_clock_secs : Z; max_tool_calls : Z }.

Definition conservative : ReviewRepairBounds :=
  {| max_iterations := 3; max_wall_clock_secs := 900; max_tool_calls := 120 |}.

(** ** Receipts *)

Inductive RoutedBy := Fleet | Router (provider model : str) | SessionDefault.

Definition routed_by_label (r : RoutedBy) : str :=
  match r with
  | Fleet => $"fleet"
  | Router provider model => $"router " ++ provider ++ $"/" ++ model
  | SessionDefault => $"session default"
  end.

Record RouteReceipt := {
  role : str; provider : str; model : str;
  requested_reasoning : str; effective_reasoning : str; routed_by : RoutedBy }.

Definition is_complete (r : RouteReceipt) : bool :=
  negb (str_is_empty (trim (role r)))
  && negb (str_is_empty (trim (provider r)))
  && negb (str_is_empty (trim (model r)))
  && negb (str_is_empty (trim (requested_reasoning r)))
  && negb (str_is_empty (trim (effective_reasoning r))).

(** U+2192, the arrow between the requested and the effective reasoning. *)
Definition arrow : str := [0x2192%N].

Definition display_line (r : RouteReceipt) : str :=
  role r ++ $": " ++ provider r ++ $"/" ++ model r ++ $" reasoning "
  ++ (if bool_decide (requested_reasoning r = effective_reasoning r) then effective_reasoning r
      else requested_reasoning r ++ arrow ++ effective_reasoning r)
  ++ $" (routed by " ++ routed_by_label (routed_by r) ++ $")".

Inductive IterationVerdict := Clean | RepairsNeeded | VerdictInconclusive.

Record IterationReceipt := {
  iteration : Z; input_digest : str; reviewer : RouteReceipt; verifier : option RouteReceipt;
  verdict : IterationVerdict; finding_summaries : list str;
  receipt_tool_calls_used : Z; receipt_elapsed_secs : Z }.

(** ** Stop reasons *)

Inductive StopReason :=
| Verified
| RatificationDeclined (note : str)
| AwaitingRatification
| IterationCeiling (limit : Z)
| TimeCeiling (limit elapsed : Z)
| ToolCeiling (limit used : Z)
| StaleInput (pinned reported : str)
| Inconclusive (reason : str).

Definition is_success (r : StopReason) : bool := match r with Verified => true | _ => false end.

Definition is_ceiling (r : StopReason) : bool :=
  match r with IterationCeiling _ | TimeCeiling _ _ | ToolCeiling _ _ => true | _ => false end.

Definition stop_receipt (r : StopReason) : str :=
  match r with
  | Verified => $"verified"
  | RatificationDeclined note => $"ratification declined: " ++ note
  | AwaitingRatification => $"clean; awaiting human ratification before this counts as done"
  | IterationCeiling limit => $"stopped at the iteration ceiling (" ++ display_u limit ++ $")"
  | TimeCeiling limit elapsed =>
      $"stopped at the time ceiling (" ++ display_u elapsed ++ $"s of " ++ display_u limit ++ $"s)"
  | ToolCeiling limit used =>
      $"stopped at the tool ceiling (" ++ display_u used ++ $" of " ++ display_u limit ++ $" calls)"
  | StaleInput pinned reported =>
      $"stopped: input changed under review (pinned " ++ pinned ++ $", reported " ++ reported ++ $")"
  | Inconclusive reason => $"stopped: no usable verdict (" ++ reason ++ $")"
  end.

Record ReviewRepairPolicy := {
  require_human_ratification : bool; require_verifier_receipt : bool }.

Definition default_policy : ReviewRepairPolicy :=
  {| require_human_ratification := true; require_verifier_receipt := true |}.

Inductive ReviewRepairError :=
| AlreadyStopped (reason : StopReason)
| Stopped (reason : StopReason)
| IncompleteReceipt (detail : str).

Definition error_stop_reason (e : ReviewRepairError) : option StopReason :=
  match e with AlreadyStopped r | Stopped r => Some r | IncompleteReceipt _ => None end.

Definition error_display (e : ReviewRepairError) : str :=
  match e with
  | AlreadyStopped r => $"review-repair already stopped: " ++ stop_receipt r
  | Stopped r => stop_receipt r
  | IncompleteReceipt detail => $"review-repair receipt is unusable: " ++ detail
  end.

(** ** The loop *)

Record ReviewRepairLoop := {
  lane_id : str; bounds : ReviewRepairBounds; policy : ReviewRepairPolicy;
  pinned_input_digest : str; iterations : list IterationReceipt;
  elapsed_secs : Z; tool_calls_used : Z; stopped : option StopReason }.

Definition new_loop (lane digest : str) (b : ReviewRepairBounds) (p : ReviewRepairPolicy)
  : ReviewRepairLoop :=
  {| lane_id := lane; bounds := b; policy := p; pinned_input_digest := digest; iterations := [];
     elapsed_secs := 0; tool_calls_used := 0; stopped := None |}.

Definition with_stopped (l : ReviewRepairLoop) (r : StopReason) : ReviewRepairLoop :=
  {| lane_id := lane_id l; bounds := bounds l; policy := policy l;
     pinned_input_digest := pinned_input_digest l; iterations := iterations l;
     elapsed_secs := elapsed_secs l; tool_calls_used := tool_calls_used l; stopped := Some r |}.

(** [Err(self.stop(reason))]. *)
Definition stop {A} (l : ReviewRepairLoop) (r : StopReason)
  : ReviewRepairLoop * result ReviewRepairError A :=
  (with_stopped l r, Err (Stopped r)).

(** The iteration count the loop compares with its ceiling. *)
Definition iteration_count (l : ReviewRepairLoop) : Z := as_u32 (zlen (iterations l)).

Definition begin_iteration (l : ReviewRepairLoop) : ReviewRepairLoop * result ReviewRepairError Z :=
  match stopped l with
  | Some reason => (l, Err (AlreadyStopped reason))
  | None =>
      let next := u32_add (iteration_count l) 1 in
      if max_iterations (bounds l) <? next then stop l (IterationCeiling (max_iterations (bounds l)))
      else if max_wall_clock_secs (bounds l) <=? elapsed_secs l then
        stop l (TimeCeiling (max_wall_clock_secs (bounds l)) (elapsed_secs l))
      else if max_tool_calls (bounds l) <=? tool_calls_used l then
        stop l (ToolCeiling (max_tool_calls (bounds l)) (tool_calls_used l))
      else (l, Ok next)
  end.

(** The loop after an accepted receipt is charged and pushed. *)
Definition charge (l : ReviewRepairLoop) (r : IterationReceipt) : ReviewRepairLoop :=
  {| lane_id := lane_id l; bounds := bounds l; policy := policy l;
     pinned_input_digest := pinned_input_digest l; iterations := iterations l ++ [r];
     elapsed_secs := u64_saturating_add (elapsed_secs l) (receipt_elapsed_secs r);
     tool_calls_used := u32_saturating_add (tool_calls_used l) (receipt_tool_calls_used r);
     stopped := stopped l |}.

(** [self.stopped = Some(reason.clone()); return Ok(Some(reason))]. *)
Definition finish (l : ReviewRepairLoop) (r : StopReason)
  : ReviewRepairLoop * result ReviewRepairError (option StopReason) :=
  (with_stopped l r, Ok (Some r)).

(** What [record_iteration] does once the receipt is pushed. *)
Definition conclude (l : ReviewRepairLoop) (v : IterationVerdict)
  : ReviewRepairLoop * result ReviewRepairError (option StopReason) :=
  if max_tool_calls (bounds l) <? tool_calls_used l then
    finish l (ToolCeiling (max_tool_calls (bounds l)) (tool_calls_used l))
  else if max_wall_clock_secs (bounds l) <? elapsed_secs l then
    finish l (TimeCeiling (max_wall_clock_secs (bounds l)) (elapsed_secs l))
  else
    match v with
    | VerdictInconclusive => finish l (Inconclusive $"reviewer returned no usable verdict")
    | Clean =>
        finish l (if require_human_ratification (policy l) then AwaitingRatification else Verified)
    | RepairsNeeded =>
        if max_iterations (bounds l) <=? iteration_count l
        then finish l (IterationCeiling (max_iterations (bounds l)))
        else (l, Ok None)
    end.

Definition missing_identity (who : str) (r : IterationReceipt) : ReviewRepairError :=
  IncompleteReceipt (who ++ $" route for iteration " ++ display_u (iteration r)
                     ++ $" is missing identity fields").

Definition record_iteration (l : ReviewRepairLoop) (r : IterationReceipt)
  : ReviewRepairLoop * result ReviewRepairError (option StopReason) :=
  match stopped l with
  | Some reason => (l, Err (AlreadyStopped reason))
  | None =>
      if bool_decide (input_digest r <> pinned_input_digest l) then
        stop l (StaleInput (pinned_input_digest l) (input_digest r))
      else if negb (is_complete (reviewer r)) then (l, Err (missing_identity $"reviewer" r))
      else if require_verifier_receipt (policy l) then
        match verifier r with
        | None => stop l (Inconclusive $"policy requires a verifier receipt and none was produced")
        | Some v =>
            if negb (is_complete v) then (l, Err (missing_identity $"verifier" r))
            else conclude (charge l r) (verdict r)
        end
      else conclude (charge l r) (verdict r)
  end.

Definition ratify (l : ReviewRepairLoop) (approved : bool) (note : str)
  : ReviewRepairLoop * result ReviewRepairError StopReason :=
  match stopped l with
  | Some AwaitingRatification =>
      let reason := if approved then Verified else RatificationDeclined note in
      (with_stopped l reason, Ok reason)
  | Some other => (l, Err (AlreadyStopped other))
  | None => (l, Err (IncompleteReceipt $"the loop has not produced a clean result to ratify"))
  end.

Definition route_lines (l : ReviewRepairLoop) : list str :=
  iterations l ≫= fun i =>
    ($"#" ++ display_u (iteration i) ++ $" " ++ display_line (reviewer i))
    :: (match verifier i with
        | Some v => [$"#" ++ display_u (iteration i) ++ $" " ++ display_line v]
        | None => []
        end).

Definition budget_line (l : ReviewRepairLoop) : str :=
  $"iterations " ++ display_u (zlen (iterations l)) ++ $"/" ++ display_u (max_iterations (bounds l))
  ++ $", tools " ++ display_u (tool_calls_used l) ++ $"/" ++ display_u (max_tool_calls (bounds l))
  ++ $", elapsed " ++ display_u (elapsed_secs l) ++ $"s/"
  ++ display_u (max_wall_clock_secs (bounds l)) ++ $"s".

(** * Sessions of the review-repair loop *)

From stdpp Require Import relations.
#[local] Open Scope Z_scope.

(** ** Sessions *)

(** One call of the loop's interface. *)
Inductive action :=
| Begin
| Record_ (r : IterationReceipt)
| Ratify (approved : bool) (note : str).

Definition perform (l : ReviewRepairLoop) (a : action) : ReviewRepairLoop :=
  match a with
  | Begin => (begin_iteration l).1
  | Record_ r => (record_iteration l r).1
  | Ratify approved note => (ratify l approved note).1
  end.

(** Any sequence of calls, in any order. *)
Definition run (l : ReviewRepairLoop) (acts : list action) : ReviewRepairLoop := fold_left perform acts l.

Lemma run_snoc l acts a : run l (acts ++ [a]) = perform (run l acts) a.
Proof. unfold run. by rewrite fold_left_app. Qed.

(** What the loop requires of a receipt before it counts. *)
Definition accepted (digest : str) (p : ReviewRepairPolicy) (r : IterationReceipt) : Prop :=
  input_digest r = digest /\ is_complete (reviewer r) = true /\
  (require_verifier_receipt p = true -> exists v, verifier r = Some v /\ is_complete v = true).

(** A call of [record_iteration] is refused, stops the loop without a success,
    or charges an accepted receipt. *)
Lemma record_iteration_cases l r :
  (record_iteration l r).1 = l \/
  (stopped l = None /\ exists reason, (record_iteration l r).1 = with_stopped l reason /\
     reason <> Verified /\ reason <> AwaitingRatification) \/
  (stopped l = None /\ accepted (pinned_input_digest l) (policy l) r /\
     record_iteration l r = conclude (charge l r) (verdict r)).
Proof.
  unfold record_iteration, accepted. destruct (stopped l) as [s|]; [by left|].
  case_bool_decide as Hd; [right; left; split; [done|]; eexists; split; [done|by split]|].
  destruct (is_complete (reviewer r)) eqn:Hr; cbn [negb]; [|by left].
  destruct (require_verifier_receipt (policy l)); [|by do 2 right].
  destruct (verifier r) as [v|]; [|right; left; split; [done|]; eexists; split; [done|by split]].
  destruct (is_complete v) eqn:Hv; cbn [negb]; [|by left]. do 2 right. split_and!; try done. by exists v.
Qed.

(** The loop [conclude] leaves behind. *)
Lemma conclude_cases l v :
  (conclude l v).1 = l /\ v = RepairsNeeded /\ iteration_count l < max_iterations (bounds l) \/
  exists reason, (conclude l v).1 = with_stopped l reason /\
    (reason = Verified \/ reason = AwaitingRatification ->
     v = Clean /\ tool_calls_used l <= max_tool_calls (bounds l) /\
     elapsed_secs l <= max_wall_clock_secs (bounds l) /\
     (reason = Verified -> require_human_ratification (policy l) = false)).
Proof.
  unfold conclude, finish.
  destruct (Z.ltb_spec (max_tool_calls (bounds l)) (tool_calls_used l)); [right; eexists; split; [done|naive_solver]|].
  destruct (Z.ltb_spec (max_wall_clock_secs (bounds l)) (elapsed_secs l)); [right; eexists; split; [done|naive_solver]|].
  destruct v.
  - right. eexists; split; [done|]. destruct (require_human_ratification (policy l)); intros; naive_solver.
  - destruct (Z.leb_spec (max_iterations (bounds l)) (iteration_count l)); [right|by left].
    eexists; split; [done|naive_solver].
  - right. eexists; split; [done|naive_solver].
Qed.

Lemma begin_iteration_cases l :
  (begin_iteration l = (l, Ok (u32_add (iteration_count l) 1)) /\ stopped l = None /\
   u32_add (iteration_count l) 1 <= max_iterations (bounds l) /\
   elapsed_secs l < max_wall_clock_secs (bounds l) /\ tool_calls_used l < max_tool_calls (bounds l)) \/
  (exists e, (begin_iteration l).2 = Err e /\
     ((begin_iteration l).1 = l \/
      stopped l = None /\ exists reason, (begin_iteration l).1 = with_stopped l reason /\ is_ceiling reason = true)).
Proof.
  unfold begin_iteration, stop. destruct (stopped l) as [s|]; [right; eexists; split; [done|by left]|].
  repeat match goal with
  | |- context [(?a <? ?b)] => destruct (Z.ltb_spec a b)
  | |- context [(?a <=? ?b)] => destruct (Z.leb_spec a b)
  end; try (left; split_and!; [done..|lia|lia|lia]);
    right; eexists; (split; [done|]); right; (split; [done|]); by eexists.
Qed.

(** ** Success is earned *)

(** The last iteration was clean and within the ceilings. *)
Definition clean_result (l : ReviewRepairLoop) : Prop :=
  (exists it, last (iterations l) = Some it /\ verdict it = Clean) /\
  tool_calls_used l <= max_tool_calls (bounds l) /\ elapsed_secs l <= max_wall_clock_secs (bounds l).

Record history_ok (lane digest : str) (b : ReviewRepairBounds) (p : ReviewRepairPolicy)
  (acts : list action) (l : ReviewRepairLoop) : Prop := {
  ho_fixed : lane_id l = lane /\ bounds l = b /\ policy l = p /\ pinned_input_digest l = digest;
  ho_accepted : forall it, it ∈ iterations l -> accepted digest p it;
  ho_waiting : stopped l = Some AwaitingRatification -> clean_result l;
  ho_verified : stopped l = Some Verified -> clean_result l /\
    (require_human_ratification p = true -> exists note, Ratify true note ∈ acts) }.

Lemma history_ok_weaken lane digest b p acts a l :
  history_ok lane digest b p acts l -> history_ok lane digest b p (acts ++ [a]) l.
Proof.
  intros [? ? ? Hv]. constructor; try done. intros [? Hr]%Hv. split; [done|].
  intros [note ?]%Hr. exists note. apply elem_of_app. by left.
Qed.

Lemma history_ok_stop lane digest b p acts l reason :
  history_ok lane digest b p acts l -> reason <> Verified -> reason <> AwaitingRatification ->
  history_ok lane digest b p acts (with_stopped l reason).
Proof. intros [? ? ? ?] Hv Hw. constructor; cbn; try done; by intros [= ->]. Qed.

Lemma record_history_ok lane digest b p acts l r :
  history_ok lane digest b p acts l -> history_ok lane digest b p acts (record_iteration l r).1.
Proof.
  intros H. destruct (record_iteration_cases l r) as [->|[(_ & reason & -> & ? & ?)|(Hs & Ha & ->)]];
    [done|by apply history_ok_stop|].
  pose proof H as [(Hl & Hb & Hp & Hd) Hall _ _]. rewrite Hd, Hp in Ha.
  assert (Hall' : forall it, it ∈ iterations l ++ [r] -> accepted digest p it)
    by (intros it [Hi|Hi%list_elem_of_singleton]%elem_of_app; subst; auto).
  destruct (conclude_cases (charge l r) (verdict r)) as [(-> & _ & _)|(reason & -> & Hclean)].
  - constructor; cbn; try done; by rewrite Hs.
  - assert (Hok : reason = Verified \/ reason = AwaitingRatification ->
      clean_result (with_stopped (charge l r) reason)).
    { intros Hor. destruct (Hclean Hor) as (Hv & Ht & Hw & _). split_and!; [|done..]. exists r. split; [|done]. apply last_snoc. }
    constructor; cbn [lane_id bounds policy pinned_input_digest iterations stopped with_stopped charge]; try done.
    + intros [= Er]. apply Hok. by right.
    + intros [= Er]. split; [apply Hok; by left|]. intros Hr. exfalso.
      destruct (Hclean ltac:(by left)) as (_ & _ & _ & Hnr). specialize (Hnr Er). cbn in Hnr. congruence.
Qed.

Lemma perform_history_ok lane digest b p acts l a :
  history_ok lane digest b p acts l -> history_ok lane digest b p (acts ++ [a]) (perform l a).
Proof.
  intros H. apply (history_ok_weaken _ _ _ _ _ a) in H as H'. destruct a as [|r|approved note]; cbn [perform].
  - destruct (begin_iteration_cases l) as [(-> & _)|(e & _ & [->|(_ & reason & -> & Hc)])]; [done..|].
    apply history_ok_stop; [done|by intros ->..].
  - by apply record_history_ok.
  - unfold ratify. destruct (stopped l) as [[]|] eqn:Hs; try done.
    destruct H as [? ? Hw _]. specialize (Hw Hs).
    constructor; cbn [lane_id bounds policy pinned_input_digest iterations stopped with_stopped fst]; try done;
      try by destruct approved.
    intros E. split; [exact Hw|]. intros _. destruct approved; [|done].
    exists note. apply elem_of_app. right. by apply list_elem_of_singleton.
Qed.

(** C30: a loop that reports success earned it.  Whatever calls were made, in
    whatever order: every recorded iteration reviewed the pinned artifact on a
    complete reviewer route (and verifier route, if the policy asks for one),
    the last one was clean and within the tool and time ceilings, and, if the
    policy asks for it, a human approved. *)
Theorem review_success_is_earned lane digest b p acts :
  let l := run (new_loop lane digest b p) acts in
  stopped l = Some Verified ->
  (forall it, it ∈ iterations l -> accepted digest p it) /\
  (exists it, last (iterations l) = Some it /\ verdict it = Clean) /\
  tool_calls_used l <= max_tool_calls b /\ elapsed_secs l <= max_wall_clock_secs b /\
  (require_human_ratification p = true -> exists note, Ratify true note ∈ acts).
Proof.
  cbn. assert (H : history_ok lane digest b p acts (run (new_loop lane digest b p) acts)).
  { induction acts as [|a acts IH] using rev_ind.
    - constructor; cbn; try done. by intros it ?%not_elem_of_nil.
    - rewrite run_snoc. by apply perform_history_ok. }
  destruct H as [(_ & Hb & _) Hall _ Hv]. intros [(Hc & Ht & Hw) Hr]%Hv. rewrite Hb in Ht, Hw. by split_and!.
Qed.

Definition route : RouteReceipt :=
  {| role := $"reviewer"; provider := $"p"; model := $"m"; requested_reasoning := $"high";
     effective_reasoning := $"high"; routed_by := Fleet |}.

Definition iteration_of (digest : str) (v : IterationVerdict) (tools : Z) : IterationReceipt :=
  {| iteration := 1; input_digest := digest; reviewer := route; verifier := Some route; verdict := v;
     finding_summaries := []; receipt_tool_calls_used := tools; receipt_elapsed_secs := 10 |}.

Lemma review_success_is_earned_witness :
  let acts := [Begin; Record_ (iteration_of $"d" RepairsNeeded 40); Begin;
               Record_ (iteration_of $"d" Clean 30); Ratify true $"ok"] in
  let l := run (new_loop $"lane" $"d" conservative default_policy) acts in
  stopped l = Some Verified /\
  (forall it, it ∈ iterations l -> accepted $"d" default_policy it) /\
  (exists it, last (iterations l) = Some it /\ verdict it = Clean) /\
  tool_calls_used l <= max_tool_calls conservative /\ elapsed_secs l <= max_wall_clock_secs conservative /\
  (require_human_ratification default_policy = true -> exists note, Ratify true note ∈ acts).
Proof. split; [|apply review_success_is_earned]; vm_compute; reflexivity. Defined.

(** ** The ceilings *)

Definition spent_tools (its : list IterationReceipt) : Z :=
  fold_left (fun n it => u32_saturating_add n (receipt_tool_calls_used it)) its 0.
Definition spent_secs (its : list IterationReceipt) : Z :=
  fold_left (fun n it => u64_saturating_add n (receipt_elapsed_secs it)) its 0.

(** The protocol: a receipt is recorded only for a claimed iteration. *)
Inductive round : ReviewRepairLoop -> ReviewRepairLoop -> Prop :=
| round_iteration l n r : begin_iteration l = (l, Ok n) -> round l (record_iteration l r).1
| round_refused l e : (begin_iteration l).2 = Err e -> round l (begin_iteration l).1
| round_ratify l approved note : round l (ratify l approved note).1.

Record within_bounds (b : ReviewRepairBounds) (l : ReviewRepairLoop) : Prop := {
  wb_bounds : bounds l = b;
  wb_tools : tool_calls_used l = spent_tools (iterations l);
  wb_secs : elapsed_secs l = spent_secs (iterations l);
  wb_count : zlen (iterations l) <= max_iterations b;
  wb_before : forall before it after, iterations l = before ++ it :: after ->
    spent_tools before < max_tool_calls b /\ spent_secs before < max_wall_clock_secs b }.

Lemma within_bounds_stop b l reason : within_bounds b l -> within_bounds b (with_stopped l reason).
Proof. intros [? ? ? ? ?]. by constructor. Qed.

Lemma within_bounds_charge b l r :
  within_bounds b l -> zlen (iterations l) < max_iterations b ->
  elapsed_secs l < max_wall_clock_secs b -> tool_calls_used l < max_tool_calls b ->
  within_bounds b (charge l r).
Proof.
  intros [Hb Ht Hs Hc Hbefore] Hn He Hu. constructor; cbn [bounds charge tool_calls_used elapsed_secs iterations].
  - done.
  - unfold spent_tools. rewrite fold_left_app. cbn. by rewrite Ht.
  - unfold spent_secs. rewrite fold_left_app. cbn. by rewrite Hs.
  - unfold zlen in *. rewrite length_app. cbn [length]. lia.
  - intros before it after E. destruct after as [|x after _] using rev_ind.
    + apply app_inj_tail in E as [<- _]. by rewrite <- Ht, <- Hs.
    + rewrite app_comm_cons, app_assoc in E. apply app_inj_tail in E as [E _]. by eapply Hbefore.
Qed.

Lemma round_within_bounds b l l' :
  max_iterations b < u32_max -> within_bounds b l -> round l l' -> within_bounds b l'.
Proof.
  intros Hmax H R. destruct R as [l n r Hbegin|l e He|l approved note].
  - destruct (begin_iteration_cases l) as [(_ & Hs & Hn & He & Ht)|(e & E & _)]; [|by rewrite Hbegin in E].
    pose proof H as [Hb _ _ Hc _]. rewrite Hb in Hn, He, Ht.
    assert (Hlen : zlen (iterations l) < max_iterations b).
    { pose proof (zlen_nonneg (iterations l)). unfold u32_add, iteration_count, as_u32, u32_max in *.
      rewrite (Z.mod_small (zlen (iterations l))) in Hn by lia. rewrite Z.mod_small in Hn by lia. lia. }
    destruct (record_iteration_cases l r) as [->|[(_ & reason & -> & _)|(_ & _ & ->)]];
      [done|by apply within_bounds_stop|].
    pose proof (within_bounds_charge b l r H Hlen He Ht) as Hch.
    destruct (conclude_cases (charge l r) (verdict r)) as [(-> & _)|(reason & -> & _)];
      [done|by apply within_bounds_stop].
  - destruct (begin_iteration_cases l) as [(E & _)|(e' & _ & [->|(_ & reason & -> & _)])];
      [by rewrite E in He|done|by apply within_bounds_stop].
  - unfold ratify. destruct (stopped l) as [[]|]; try done. by apply within_bounds_stop.
Qed.

(** the ceilings bound the loop.  A client that records an iteration only
    after claiming it never exceeds the iteration ceiling, and every iteration
    it ran started with tool calls and seconds left: the overrun is the last
    iteration's own at most. *)
Theorem review_ceilings_hold lane digest b p l :
  0 <= max_iterations b < u32_max ->
  rtc round (new_loop lane digest b p) l ->
  zlen (iterations l) <= max_iterations b /\
  tool_calls_used l = spent_tools (iterations l) /\ elapsed_secs l = spent_secs (iterations l) /\
  (forall before it after, iterations l = before ++ it :: after ->
     spent_tools before < max_tool_calls b /\ spent_secs before < max_wall_clock_secs b).
Proof.
  intros Hmax R. assert (H : within_bounds b l); [|destruct H; by split_and!].
  revert R. apply (rtc_ind_r (fun l => within_bounds b l)).
  - constructor; cbn; try done; [unfold zlen; cbn; lia|]. by intros [] ? ?.
  - intros l1 l2 _ R H. eapply round_within_bounds; [lia|done|done].
Qed.

Lemma review_ceilings_hold_witness :
  let b := {| max_iterations := 1; max_wall_clock_secs := 900; max_tool_calls := 120 |} in
  let l := (record_iteration (new_loop $"lane" $"d" b default_policy)
              (iteration_of $"d" RepairsNeeded 200)).1 in
  zlen (iterations l) <= max_iterations b /\
  tool_calls_used l = spent_tools (iterations l) /\ elapsed_secs l = spent_secs (iterations l) /\
  (forall before it after, iterations l = before ++ it :: after ->
     spent_tools before < max_tool_calls b /\ spent_secs before < max_wall_clock_secs b).
Proof.
  apply (review_ceilings_hold $"lane" $"d" _ default_policy).
  - vm_compute. split; congruence.
  - apply rtc_once. apply (round_iteration _ 1). vm_compute. reflexivity.
Defined.

(** ** Terminal states *)

(** a stopped loop stays stopped: no sequence of calls restarts it or
    changes its receipts and charges; only a loop that waits for a human can
    change its reason, to approved or declined. *)
Theorem stopped_review_stays_stopped l reason acts :
  stopped l = Some reason ->
  (reason <> AwaitingRatification -> run l acts = l) /\
  (run l acts = l \/ exists final, run l acts = with_stopped l final /\
     (final = Verified \/ exists note, final = RatificationDeclined note)).
Proof.
  assert (Hfrozen : forall l reason acts, stopped l = Some reason -> reason <> AwaitingRatification -> run l acts = l).
  { clear. intros l reason acts Hs Hr. induction acts as [|a acts IH] using rev_ind; [done|].
    rewrite run_snoc, IH. destruct a; cbn [perform]; unfold begin_iteration, record_iteration, ratify; rewrite Hs;
      try done. by destruct reason. }
  intros Hs. split; [by apply Hfrozen|]. revert Hs. induction acts as [|a acts IH]; intros Hs; [by left|].
  change (run l (a :: acts)) with (run (perform l a) acts). destruct a as [|r|approved note]; cbn [perform].
  - unfold begin_iteration. rewrite Hs. auto.
  - unfold record_iteration. rewrite Hs. auto.
  - unfold ratify. rewrite Hs. destruct reason; try (cbn; auto). right.
    eexists. split; [eapply Hfrozen; [done|by destruct approved]|]. destruct approved; [by left|right; eauto].
Qed.

Lemma stopped_review_stays_stopped_witness :
  let l := with_stopped (new_loop $"lane" $"d" conservative default_policy) (StaleInput $"d" $"e") in
  let acts := [Ratify true $"wave it through"; Begin] in
  stopped l = Some (StaleInput $"d" $"e") /\
  (StaleInput $"d" $"e" <> AwaitingRatification -> run l acts = l) /\
  (run l acts = l \/ exists final, run l acts = with_stopped l final /\
     (final = Verified \/ exists note, final = RatificationDeclined note)).
Proof. split; [|apply (stopped_review_stays_stopped _ (StaleInput $"d" $"e"))]; reflexivity. Defined.

(** an incomplete receipt is free.  However many iterations are claimed and
    answered with a reviewer route that lacks an identity field, the loop is
    where it was: nothing is charged, no ceiling comes nearer and it never
    stops. *)
Theorem incomplete_receipts_are_free lane digest b p r n :
  0 < max_iterations b -> 0 < max_wall_clock_secs b -> 0 < max_tool_calls b ->
  input_digest r = digest -> is_complete (reviewer r) = false ->
  let l := new_loop lane digest b p in
  begin_iteration l = (l, Ok 1) /\
  record_iteration l r = (l, Err (missing_identity $"reviewer" r)) /\
  run l (concat (replicate n [Begin; Record_ r])) = l.
Proof.
  intros Hi Hw Ht <- Hc l.
  assert (Hb : begin_iteration l = (l, Ok 1)).
  { unfold begin_iteration. cbn [stopped l new_loop]. change (u32_add (iteration_count l) 1) with 1.
    cbn [bounds l new_loop elapsed_secs tool_calls_used].
    destruct (Z.ltb_spec (max_iterations b) 1), (Z.leb_spec (max_wall_clock_secs b) 0),
      (Z.leb_spec (max_tool_calls b) 0); [lia..|done]. }
  assert (Hr : record_iteration l r = (l, Err (missing_identity $"reviewer" r))).
  { unfold record_iteration. cbn [stopped l new_loop pinned_input_digest].
    rewrite bool_decide_false by tauto. by rewrite Hc. }
  split_and!; [done|done|]. induction n as [|n IH]; [done|].
  change (concat (replicate (S n) [Begin; Record_ r])) with ([Begin; Record_ r] ++ concat (replicate n [Begin; Record_ r])).
  unfold run in *. rewrite fold_left_app. cbn [fold_left perform]. rewrite Hb. cbn [fst]. by rewrite Hr.
Qed.

Lemma incomplete_receipts_are_free_witness :
  let anonymous := {| role := $"reviewer"; provider := $""; model := $"m"; requested_reasoning := $"high";
                      effective_reasoning := $"high"; routed_by := Fleet |} in
  let r := {| iteration := 1; input_digest := $"d"; reviewer := anonymous; verifier := None; verdict := Clean;
              finding_summaries := []; receipt_tool_calls_used := 100; receipt_elapsed_secs := 600 |} in
  let l := new_loop $"lane" $"d" conservative default_policy in
  begin_iteration l = (l, Ok 1) /\
  record_iteration l r = (l, Err (missing_identity $"reviewer" r)) /\
  run l (concat (replicate 1000 [Begin; Record_ r])) = l.
Proof. apply incomplete_receipts_are_free; reflexivity. Defined.
