(* ===== verification/Gates.v ===== *)
(** * Workflow gates and lane handoffs

    [crates/workflow/src/gates.rs]: gate specifications and states, and the
    board of one lane with its evaluation, blocking, handoff and status
    operations.  A [BTreeMap<String, _>] is a [gmap] whose iteration order is
    the order of its keys.  Saving and loading the board are not modelled. *)

From S2P Require Import Text.

Inductive GateOn := RoleComplete | RoleStart.
Inductive GateKind := VerifyGate | ReviewGate | ApproveGate.
Inductive GateOnFail := RetryOnFail | BlockOnFail | EscalateOnFail.

Record GateSpec := {
  gate_id : str; gate_role : str; on : GateOn; gate : GateKind; on_fail : GateOnFail;
  blocks_role : option str; max_retries : Z; artifact_kind : option str;
  require_explicit_verdict : bool }.

Inductive GateState :=
| Pending
| Passed
| Blocked (reason : str)
| Retrying (attempt : Z) (reason : str)
| Escalated (reason : str).

Definition state_as_str (s : GateState) : str :=
  match s with
  | Pending => $"pending"
  | Passed => $"passed"
  | Blocked _ => $"blocked"
  | Retrying _ _ => $"retrying"
  | Escalated _ => $"escalated"
  end.

Definition is_blocking (s : GateState) : bool :=
  match s with Blocked _ | Escalated _ | Retrying _ _ => true | _ => false end.

Definition blocked_reason (s : GateState) : option str :=
  match s with
  | Blocked reason | Retrying _ reason | Escalated reason => Some reason
  | _ => None
  end.

Inductive GateOutcome :=
| Pass
| Fail_ (reason : str)
| HumanApprove (note : str).

Record HandoffArtifact := {
  artifact_id : str; artifact_lane_id : str; from_role : str; to_role : str;
  kind : str; payload : str; created_at : str }.

Inductive GateError :=
| EmptyGateId
| LaneMismatch (expected got : str)
| Io (message : str)
| Serde (message : str).

Record LaneGateBoard := {
  lane_id : str; gates : gmap str GateState; retries : gmap str Z; artifacts : list HandoffArtifact }.

Definition new_board (lane : str) : LaneGateBoard :=
  {| lane_id := lane; gates := ∅; retries := ∅; artifacts := [] |}.

Definition with_gates (b : LaneGateBoard) (gates : gmap str GateState) (retries : gmap str Z) : LaneGateBoard :=
  {| lane_id := lane_id b; gates := gates; retries := retries; artifacts := artifacts b |}.

(** [gates.entry(id).or_insert(Pending)]. *)
Definition install_gate (b : LaneGateBoard) (spec : GateSpec) : LaneGateBoard :=
  match gates b !! gate_id spec with
  | Some _ => b
  | None => with_gates b (<[gate_id spec := Pending]> (gates b)) (retries b)
  end.

Definition install_gates (b : LaneGateBoard) (specs : list GateSpec) : LaneGateBoard :=
  fold_left install_gate specs b.

(** The state a failure leads to, given the attempt it is. *)
Definition failed_state (spec : GateSpec) (attempt : Z) (reason : str) : GateState :=
  match on_fail spec with
  | BlockOnFail => Blocked reason
  | RetryOnFail => if attempt <=? max_retries spec then Retrying attempt reason else Escalated reason
  | EscalateOnFail => Escalated reason
  end.

Definition evaluate (b : LaneGateBoard) (spec : GateSpec) (outcome : GateOutcome)
  : LaneGateBoard * result GateError GateState :=
  if str_is_empty (trim (gate_id spec)) then (b, Err EmptyGateId)
  else
    match outcome with
    | Pass | HumanApprove _ =>
        (with_gates b (<[gate_id spec := Passed]> (gates b)) (delete (gate_id spec) (retries b)), Ok Passed)
    | Fail_ reason =>
        let attempt := u32_saturating_add (default 0 (retries b !! gate_id spec)) 1 in
        let state := failed_state spec attempt reason in
        (with_gates b (<[gate_id spec := state]> (gates b)) (<[gate_id spec := attempt]> (retries b)), Ok state)
    end.

Fixpoint role_is_blocked (b : LaneGateBoard) (specs : list GateSpec) (role : str) : option GateState :=
  match specs with
  | [] => None
  | spec :: specs =>
      if negb (eq_ignore_ascii_case (default [] (blocks_role spec)) role) then role_is_blocked b specs role
      else
        match gates b !! gate_id spec with
        | Some state => if is_blocking state then Some state else role_is_blocked b specs role
        | None => role_is_blocked b specs role
        end
  end.

Definition record_handoff (b : LaneGateBoard) (a : HandoffArtifact) : LaneGateBoard * result GateError unit :=
  if bool_decide (artifact_lane_id a <> lane_id b) then (b, Err (LaneMismatch (lane_id b) (artifact_lane_id a)))
  else ({| lane_id := lane_id b; gates := gates b; retries := retries b; artifacts := artifacts b ++ [a] |}, Ok tt).

Definition is_handoff (from to kind_ : str) (a : HandoffArtifact) : bool :=
  eq_ignore_ascii_case (from_role a) from && eq_ignore_ascii_case (to_role a) to
  && eq_ignore_ascii_case (kind a) kind_.

Definition latest_handoff (b : LaneGateBoard) (from to kind_ : str) : option HandoffArtifact :=
  find (is_handoff from to kind_) (reverse (artifacts b)).

Record GateStatusLine := { line_gate_id : str; line_state : str; line_blocked_reason : option str }.

(** The lines in key order. *)
Definition status_summary (b : LaneGateBoard) : list GateStatusLine :=
  (fun p => {| line_gate_id := p.1; line_state := state_as_str p.2; line_blocked_reason := blocked_reason p.2 |})
  <$> stable_sort (fun p q => str_le p.1 q.1) (map_to_list (gates b)).

Definition stopship_gate_pipeline : list GateSpec :=
  [ {| gate_id := $"scout-findings"; gate_role := $"scout"; on := RoleComplete; gate := ApproveGate;
       on_fail := BlockOnFail; blocks_role := Some $"implementer"; max_retries := 0;
       artifact_kind := Some $"findings"; require_explicit_verdict := false |};
    {| gate_id := $"reviewer-diff"; gate_role := $"reviewer"; on := RoleComplete; gate := ReviewGate;
       on_fail := BlockOnFail; blocks_role := Some $"verifier"; max_retries := 1;
       artifact_kind := Some $"diff_review"; require_explicit_verdict := false |};
    {| gate_id := $"verifier-suite"; gate_role := $"verifier"; on := RoleComplete; gate := VerifyGate;
       on_fail := RetryOnFail; blocks_role := Some $"release_lead"; max_retries := 2;
       artifact_kind := Some $"verify_report"; require_explicit_verdict := false |} ].

(** * Properties of workflow gates

    The failure policies, what blocks a role, and the lane scope of handoffs. *)

Lemma with_gates_retries b g r : retries (with_gates b g r) = r.
Proof. done. Qed.

(** ** Failures *)

Definition failures (b : LaneGateBoard) (spec : GateSpec) (reasons : list str) : LaneGateBoard :=
  fold_left (fun b reason => (evaluate b spec (Fail_ reason)).1) reasons b.

Lemma evaluate_fail b spec reason :
  trim (gate_id spec) <> [] ->
  let attempt := u32_saturating_add (default 0 (retries b !! gate_id spec)) 1 in
  evaluate b spec (Fail_ reason) =
    (with_gates b (<[gate_id spec := failed_state spec attempt reason]> (gates b))
       (<[gate_id spec := attempt]> (retries b)), Ok (failed_state spec attempt reason)).
Proof. intros Hid. unfold evaluate. by destruct (trim (gate_id spec)). Qed.

Lemma failures_spec b spec reasons reason :
  trim (gate_id spec) <> [] -> retries b !! gate_id spec = None ->
  zlen reasons + 1 <= u32_max ->
  let b' := failures b spec (reasons ++ [reason]) in
  gates b' !! gate_id spec = Some (failed_state spec (zlen reasons + 1) reason) /\
  retries b' !! gate_id spec = Some (zlen reasons + 1) /\
  (forall other, other <> gate_id spec ->
     gates b' !! other = gates b !! other /\ retries b' !! other = retries b !! other) /\
  artifacts b' = artifacts b /\ lane_id b' = lane_id b.
Proof.
  intros Hid Hr. revert reason. induction reasons as [|r rs IH] using rev_ind; intros reason Hlen b'.
  - unfold b', failures. cbn [app fold_left]. rewrite evaluate_fail by done. rewrite Hr. cbn.
    rewrite !lookup_insert_eq. split_and!; try done. intros other Ho. by rewrite !lookup_insert_ne by done.
  - unfold zlen in *. rewrite length_app in *. cbn [length] in *.
    destruct (IH r ltac:(lia)) as (Hg & Hc & Hother & Ha & Hl).
    unfold b', failures in *. rewrite fold_left_app. cbn [fold_left].
    rewrite evaluate_fail by done. rewrite Hc. cbn [fst gates retries artifacts lane_id with_gates default from_option id].
    assert (Hat : u32_saturating_add (Z.of_nat (length rs) + 1) 1 = Z.of_nat (length rs + 1) + 1)
      by (unfold u32_saturating_add; lia).
    rewrite Hat, !lookup_insert_eq. split_and!; try done. intros other Ho. rewrite !lookup_insert_ne by done.
    by apply Hother.
Qed.

(** failures follow the gate's policy.  After n failures in a row of a gate
    without earlier retries, a blocking gate is blocked, a retrying gate is at
    its n-th retry up to [max_retries] and escalated beyond, and an escalating
    gate is escalated from the first failure on, whatever its [max_retries]; no
    other gate changes; and a pass or a human approval clears the gate and its
    counter at any point. *)
Theorem failures_follow_the_gate_policy b spec reasons reason :
  trim (gate_id spec) <> [] -> retries b !! gate_id spec = None -> zlen reasons + 1 <= u32_max ->
  let b' := failures b spec (reasons ++ [reason]) in
  let n := zlen reasons + 1 in
  gates b' !! gate_id spec = Some
    (match on_fail spec with
     | BlockOnFail => Blocked reason
     | RetryOnFail => if bool_decide (n <= max_retries spec) then Retrying n reason else Escalated reason
     | EscalateOnFail => Escalated reason
     end) /\
  (forall other, other <> gate_id spec -> gates b' !! other = gates b !! other) /\
  (forall outcome, outcome = Pass \/ (exists note, outcome = HumanApprove note) ->
     (evaluate b' spec outcome).2 = Ok Passed /\
     gates (evaluate b' spec outcome).1 !! gate_id spec = Some Passed /\
     retries (evaluate b' spec outcome).1 !! gate_id spec = None).
Proof.
  intros Hid Hr Hlen b' n. destruct (failures_spec b spec reasons reason Hid Hr Hlen) as (Hg & Hc & Hother & _).
  fold b' in Hg, Hc, Hother. split_and!.
  - rewrite Hg. unfold failed_state. destruct (on_fail spec); try done. fold n.
    destruct (Z.leb_spec n (max_retries spec)); [by rewrite bool_decide_true|by rewrite bool_decide_false by lia].
  - intros other Ho. by apply Hother.
  - intros outcome Ho. unfold evaluate.
    assert (str_is_empty (trim (gate_id spec)) = false) as -> by (by destruct (trim (gate_id spec))).
    destruct Ho as [->|[note ->]]; cbn; split_and!;
      [done|apply lookup_insert_eq|apply lookup_delete_eq|done|apply lookup_insert_eq|apply lookup_delete_eq].
Qed.

Definition retrying_gate : GateSpec :=
  {| gate_id := $"verifier-suite"; gate_role := $"verifier"; on := RoleComplete; gate := VerifyGate;
     on_fail := RetryOnFail; blocks_role := Some $"release_lead"; max_retries := 2; artifact_kind := None;
     require_explicit_verdict := false |}.

Lemma failures_follow_the_gate_policy_witness :
  let b' := failures (install_gates (new_board $"lane") [retrying_gate]) retrying_gate
              ([$"red"; $"red again"] ++ [$"still red"]) in
  gates b' !! $"verifier-suite" = Some (Escalated $"still red") /\
  (forall other, other <> $"verifier-suite" ->
     gates b' !! other = gates (install_gates (new_board $"lane") [retrying_gate]) !! other) /\
  (forall outcome, outcome = Pass \/ (exists note, outcome = HumanApprove note) ->
     (evaluate b' retrying_gate outcome).2 = Ok Passed /\
     gates (evaluate b' retrying_gate outcome).1 !! $"verifier-suite" = Some Passed /\
     retries (evaluate b' retrying_gate outcome).1 !! $"verifier-suite" = None).
Proof.
  apply (failures_follow_the_gate_policy (install_gates (new_board $"lane") [retrying_gate]) retrying_gate
           [$"red"; $"red again"] $"still red"); [by vm_compute|by vm_compute|by vm_compute].
Defined.

(** ** Blocking *)

(** [spec] targets [role] and its gate is in the blocking state [state]. *)
Definition blocks (b : LaneGateBoard) (role : str) (spec : GateSpec) (state : GateState) : Prop :=
  to_ascii_lowercase (default [] (blocks_role spec)) = to_ascii_lowercase role /\
  gates b !! gate_id spec = Some state /\ blocked_reason state <> None.

(** What [spec] contributes to the search. *)
Definition blocking_state (b : LaneGateBoard) (role : str) (spec : GateSpec) : option GateState :=
  if eq_ignore_ascii_case (default [] (blocks_role spec)) role
  then gates b !! gate_id spec ≫= fun s => if is_blocking s then Some s else None
  else None.

Lemma blocking_state_spec b role spec s : blocking_state b role spec = Some s <-> blocks b role spec s.
Proof.
  unfold blocking_state, blocks, eq_ignore_ascii_case. case_bool_decide as E; [|naive_solver].
  destruct (gates b !! gate_id spec) as [s'|]; cbn; [|naive_solver]. destruct s'; cbn; naive_solver.
Qed.

Lemma role_is_blocked_first b specs role : role_is_blocked b specs role = first_some (blocking_state b role) specs.
Proof.
  induction specs as [|spec specs IH]; [done|]. cbn [role_is_blocked first_some]. rewrite IH. unfold blocking_state.
  destruct (eq_ignore_ascii_case _ _), (gates b !! gate_id spec) as [[]|]; done.
Qed.

(** a role is blocked exactly by the first listed gate that targets it, up
    to ASCII case, and is blocked, retrying or escalated; it is free exactly
    when no gate does. *)
Theorem role_blocking_is_exact b specs role :
  (forall state, role_is_blocked b specs role = Some state <->
     exists before spec after, specs = before ++ spec :: after /\ blocks b role spec state /\
       forall earlier s, earlier ∈ before -> ~ blocks b role earlier s) /\
  (role_is_blocked b specs role = None <-> forall spec s, spec ∈ specs -> ~ blocks b role spec s).
Proof.
  rewrite role_is_blocked_first. setoid_rewrite <- blocking_state_spec. split.
  - intros state. rewrite first_some_Some. setoid_rewrite eq_None_not_Some. unfold is_Some. naive_solver.
  - rewrite first_some_None. setoid_rewrite eq_None_not_Some. unfold is_Some. naive_solver.
Qed.

Lemma install_gates_pending b specs id :
  gates (install_gates b specs) !! id =
    match gates b !! id with
    | Some s => Some s
    | None => if bool_decide (id ∈ gate_id <$> specs) then Some Pending else None
    end.
Proof.
  revert b. induction specs as [|spec specs IH]; intros b.
  { cbn. by destruct (gates b !! id). }
  unfold install_gates. cbn [fold_left]. fold (install_gates (install_gate b spec) specs). rewrite IH.
  unfold install_gate. rewrite fmap_cons. destruct (decide (id = gate_id spec)) as [->|Hne].
  - rewrite (bool_decide_true (_ ∈ _ :: _)) by left. destruct (gates b !! gate_id spec) eqn:E; [by rewrite E|].
    cbn. by rewrite lookup_insert_eq.
  - assert (Hi : gates (match gates b !! gate_id spec with Some _ => b
        | None => with_gates b (<[gate_id spec:=Pending]> (gates b)) (retries b) end) !! id = gates b !! id).
    { destruct (gates b !! gate_id spec); [done|]. cbn. by rewrite lookup_insert_ne. }
    rewrite Hi. destruct (gates b !! id); [done|].
    by rewrite (bool_decide_ext (id ∈ gate_id spec :: _) (id ∈ gate_id <$> specs)) by set_solver.
Qed.

(** a gate blocks nobody before its first failure: on a fresh lane with any
    gates installed, every gate is pending, the summary has no blocked line, and
    no role is blocked. *)
Theorem installed_gates_block_nobody lane specs :
  let b := install_gates (new_board lane) specs in
  (forall spec, spec ∈ specs -> gates b !! gate_id spec = Some Pending) /\
  Forall (fun line => line_blocked_reason line = None) (status_summary b) /\
  forall listed role, role_is_blocked b listed role = None.
Proof.
  intros b. assert (Hg : forall id s, gates b !! id = Some s -> s = Pending).
  { intros id s. unfold b. rewrite install_gates_pending. cbn. rewrite lookup_empty. case_bool_decide; congruence. }
  split_and!.
  - intros spec Hin. unfold b. rewrite install_gates_pending. cbn. rewrite lookup_empty, bool_decide_true; [done|].
    by apply list_elem_of_fmap_2.
  - unfold status_summary. apply Forall_forall. intros line ([id s] & -> & Hin)%list_elem_of_fmap.
    rewrite stable_sort_perm in Hin. apply elem_of_map_to_list in Hin. by rewrite (Hg _ _ Hin).
  - intros listed role. rewrite role_is_blocked_first. apply first_some_None. intros spec _.
    unfold blocking_state. destruct (eq_ignore_ascii_case _ _); [|done].
    destruct (gates b !! gate_id spec) as [s|] eqn:E; [|done]. by rewrite (Hg _ _ E).
Qed.

(** ** Handoffs *)

Definition handoffs (b : LaneGateBoard) (records : list HandoffArtifact) : LaneGateBoard :=
  fold_left (fun b a => (record_handoff b a).1) records b.

Lemma handoffs_spec b records :
  artifacts (handoffs b records) =
    artifacts b ++ filter (fun a => artifact_lane_id a = lane_id b) records /\
  lane_id (handoffs b records) = lane_id b.
Proof.
  revert b. induction records as [|a records IH]; intros b; [by rewrite app_nil_r|].
  unfold handoffs. cbn [fold_left]. fold (handoffs (record_handoff b a).1 records).
  destruct (IH (record_handoff b a).1) as [-> ->]. unfold record_handoff. rewrite filter_cons.
  case_bool_decide; cbn; [by rewrite decide_False|]. rewrite decide_True by tauto. split; [|done].
  by rewrite <-app_assoc.
Qed.

(** handoffs stay in their lane.  From a new board, whatever is recorded,
    the artifacts kept are those of the lane in the order recorded, the others
    being refused; and the latest handoff of a kind between two roles is the
    last one of them that was kept. *)
Theorem handoffs_stay_in_their_lane lane records from to kind_ :
  let b := handoffs (new_board lane) records in
  artifacts b = filter (fun a => artifact_lane_id a = lane) records /\
  (forall a, latest_handoff b from to kind_ = Some a <->
     exists before after, filter (fun a => artifact_lane_id a = lane) records = before ++ a :: after /\
       is_handoff from to kind_ a = true /\ Forall (fun x => is_handoff from to kind_ x = false) after) /\
  (forall a, artifact_lane_id a <> lane -> record_handoff b a = (b, Err (LaneMismatch lane (artifact_lane_id a)))).
Proof.
  intros b. destruct (handoffs_spec (new_board lane) records) as [Ha Hl]. cbn in Ha, Hl. fold b in Ha, Hl.
  split_and!; [done| |].
  - intros a. unfold latest_handoff. rewrite Ha. apply find_reverse_Some.
  - intros a Hne. unfold record_handoff. rewrite Hl. by rewrite bool_decide_true.
Qed.
