(* ===== verification/WorkflowPlan.v ===== *)
(** * Declarative workflow plans

    [crates/workflow/src/lib.rs]: the configuration, the compiled plan,
    [WorkflowPlan::from_config] with every check in its order, the topological
    sort of the phases, and the write-scope overlap test.  A [BTreeMap] is a
    [gmap] and a [BTreeSet] a [gset], since only membership and lookups are
    used.  [Path::starts_with] is the one of a Unix target.

    Indexing a map or a slice out of range is a panic of the model; the
    recursion of [visit_phase] is on fuel, one more than the number of phases. *)

From S2P Require Import Text.

(** ** Data *)

Inductive FailurePolicy := SkipContinue | Abort_.
Inductive AgentType := General | Explore | Plan | Review | Implementer | Verifier.
Inductive TaskMode := ReadOnly | ReadWrite.
Inductive IsolationMode := Auto | Shared | Worktree.

#[export] Instance TaskMode_eq_dec : EqDecision TaskMode.
Proof. solve_decision. Defined.

Record Task := {
  task_id : str; prompt : str; agent_type : AgentType; mode : TaskMode; isolation : IsolationMode;
  file_scope : list str; depends_on_results : list str;
  max_steps : option Z; timeout_secs : option Z }.

Record Phase := {
  name : str; description : option str; depends_on : list str; parallel : bool;
  on_failure : FailurePolicy; tasks : list Task }.

Record WorkflowConfig := {
  goal : str; max_concurrent : Z; config_description : option str; phases : list Phase }.

Record PhasePlan := {
  plan_name : str; plan_parallel : bool; plan_on_failure : FailurePolicy; plan_tasks : list Task }.

Record WorkflowPlan := { plan_goal : str; plan_max_concurrent : Z; plan_phases : list PhasePlan }.

Definition phase_names (p : WorkflowPlan) : list str := plan_name <$> plan_phases p.

(** ** Isolation of writers *)

Definition resolve (m : IsolationMode) (parallel_write : bool) : IsolationMode :=
  match m with
  | Auto => if parallel_write then Worktree else Shared
  | other => other
  end.

Definition wants_worktree (m : IsolationMode) (parallel_write : bool) : bool :=
  match resolve m parallel_write with Worktree => true | _ => false end.

(** ** Errors *)

Inductive WorkflowValidationError :=
| EmptyField (field : str)
| EmptyWorkflow
| EmptyPhase (phase : str)
| InvalidMaxConcurrent (value : Z)
| DuplicatePhase (phase : str)
| DuplicateTask (task : str)
| InvalidPhaseDependency (phase dependency : str)
| PhaseDependencyCycle (phase : str)
| InvalidTaskResultDependency (task dependency : str)
| UnavailableTaskResultDependency (task dependency dependency_phase task_phase : str)
| MissingParallelWriteScope (task : str)
| OverlappingParallelWriteScope (left right : str).

(** How [from_config] can fail to return a plan: with an error of the code, by
    an index out of range, or, in the model, by lack of fuel. *)
Inductive plan_error := Rejected (e : WorkflowValidationError) | Panicked | OutOfFuel.

Definition reject (e : WorkflowValidationError) : plan_error := Rejected e.

Definition validate_non_empty (field value : str) : result WorkflowValidationError unit :=
  reject_if (str_is_empty (trim value)) (EmptyField field).

(** ** Write scopes *)

(** [trim_start_matches("./")]. *)
Fixpoint trim_dot_slash (s : str) : str :=
  match s with
  | a :: ((b :: rest) as t) => if N.eqb a (chr ".") && N.eqb b (chr "/") then trim_dot_slash rest else s
  | _ => s
  end.

(** [trim_end_matches('/')]. *)
Definition trim_end_slashes (s : str) : str := rev (trim_start_by (N.eqb (chr "/")) (rev s)).

Definition normalize_file_scope_root (scope : str) : str :=
  let trimmed := trim_end_slashes (trim_dot_slash (trim scope)) in
  match strip_suffix $"/**" trimmed with
  | Some root => root
  | None => default trimmed (strip_suffix $"/*" trimmed)
  end.

Definition glob_prefix (scope : str) : str :=
  trim_end_slashes (default scope (head (split_char (chr "*") scope))).

(** [Path::components] on Unix. *)
Inductive component := RootDir | CurDir | ParentDir | Normal (name : str).

#[export] Instance component_eq_dec : EqDecision component.
Proof. solve_decision. Defined.

Definition body_component (piece : str) : option component :=
  if str_is_empty piece || bool_decide (piece = $".") then None
  else if bool_decide (piece = $"..") then Some ParentDir
  else Some (Normal piece).

Definition path_components (s : str) : list component :=
  let body := omap body_component (split_char (chr "/") s) in
  match s with
  | [] => []
  | c :: _ =>
      if N.eqb c (chr "/") then RootDir :: body
      else if bool_decide (head (split_char (chr "/") s) = Some $".") then CurDir :: body
      else body
  end.

(** [Path::starts_with]. *)
Definition path_starts_with (path base : str) : bool :=
  bool_decide (path_components base `prefix_of` path_components path).

Definition scope_overlaps (left right : str) : bool :=
  let left := normalize_file_scope_root left in
  let right := normalize_file_scope_root right in
  if bool_decide (left = right) || bool_decide (left = $".") || bool_decide (right = $".") then true
  else if contains_char (chr "*") left || contains_char (chr "*") right then
    bool_decide (glob_prefix left = glob_prefix right)
  else path_starts_with left right || path_starts_with right left.

Definition scopes_overlap (left right : list str) : bool :=
  existsb (fun l => existsb (scope_overlaps l) right) left.

Definition is_writer (t : Task) : bool := bool_decide (mode t = ReadWrite).

(** The first pair of writers, the left one first, that overlap. *)
Fixpoint check_write_pairs (writers : list Task) : result WorkflowValidationError unit :=
  match writers with
  | [] => Ok tt
  | writer :: rest =>
      match find (fun other => scopes_overlap (file_scope writer) (file_scope other)) rest with
      | Some other => Err (OverlappingParallelWriteScope (task_id writer) (task_id other))
      | None => check_write_pairs rest
      end
  end.

Definition validate_parallel_write_scope (p : Phase) : result WorkflowValidationError unit :=
  if negb (parallel p) then Ok tt
  else
    let write_tasks := retain is_writer (tasks p) in
    match find (fun t => bool_decide (file_scope t = [])) write_tasks with
    | Some t => Err (MissingParallelWriteScope (task_id t))
    | None => check_write_pairs write_tasks
    end.

(** ** The index of phases and tasks *)

Record index := {
  phase_indices : gmap str nat; all_tasks : gmap str Task; task_phase : gmap str str }.

Definition empty_index : index := {| phase_indices := ∅; all_tasks := ∅; task_phase := ∅ |}.

Definition index_task (phase : Phase) (ix : index) (t : Task) : result WorkflowValidationError index :=
  validate_non_empty $"task id" (task_id t);;
  validate_non_empty $"task prompt" (prompt t);;
  match all_tasks ix !! task_id t with
  | Some _ => Err (DuplicateTask (task_id t))
  | None => Ok {| phase_indices := phase_indices ix;
                  all_tasks := <[task_id t := t]> (all_tasks ix);
                  task_phase := <[task_id t := name phase]> (task_phase ix) |}
  end.

Definition index_phase (ix : index) (entry : nat * Phase) : result WorkflowValidationError index :=
  let '(phase_index, phase) := entry in
  validate_non_empty $"phase name" (name phase);;
  reject_if (bool_decide (tasks phase = [])) (EmptyPhase (name phase));;
  match phase_indices ix !! name phase with
  | Some _ => Err (DuplicatePhase (name phase))
  | None =>
      foldM (index_task phase)
        {| phase_indices := <[name phase := phase_index]> (phase_indices ix);
           all_tasks := all_tasks ix; task_phase := task_phase ix |} (tasks phase)
  end.

Definition enumerate {A} (l : list A) : list (nat * A) := imap pair l.

Definition build_index (c : WorkflowConfig) : result WorkflowValidationError index :=
  foldM index_phase empty_index (enumerate (phases c)).

(** ** Dependencies and order *)

Definition check_dependency (ix : index) (p : Phase) (_ : unit) (dependency : str)
  : result WorkflowValidationError unit :=
  reject_if (bool_decide (dependency = name p) || bool_decide (phase_indices ix !! dependency = None))
    (InvalidPhaseDependency (name p) dependency).

Definition check_phase (ix : index) (_ : unit) (p : Phase) : result WorkflowValidationError unit :=
  foldM (check_dependency ix p) tt (depends_on p);;
  validate_parallel_write_scope p.

Record visit_state := { visiting : gset str; visited : gset str; ordered : list str }.

Definition opened (st : visit_state) (n : str) : visit_state :=
  {| visiting := {[n]} ∪ visiting st; visited := visited st; ordered := ordered st |}.

Definition closed (st : visit_state) (n : str) : visit_state :=
  {| visiting := visiting st ∖ {[n]}; visited := {[n]} ∪ visited st; ordered := ordered st ++ [n] |}.

(** [&config.phases[phase_indices[name]]]. *)
Definition phase_named (c : WorkflowConfig) (indices : gmap str nat) (n : str) : result plan_error Phase :=
  i ← ok_or (indices !! n) Panicked;
  ok_or (phases c !! i) Panicked.

Fixpoint visit_phase (fuel : nat) (c : WorkflowConfig) (indices : gmap str nat) (st : visit_state) (n : str)
  : result plan_error visit_state :=
  match fuel with
  | O => Err OutOfFuel
  | S fuel =>
      if bool_decide (n ∈ visited st) then Ok st
      else if bool_decide (n ∈ visiting st) then Err (Rejected (PhaseDependencyCycle n))
      else
        phase ← phase_named c indices n;
        st ← foldM (visit_phase fuel c indices) (opened st n) (depends_on phase);
        Ok (closed st n)
  end.

Definition phase_fuel (c : WorkflowConfig) : nat := S (length (phases c)).

Definition unvisited : visit_state := {| visiting := ∅; visited := ∅; ordered := [] |}.

Definition ordered_phases (c : WorkflowConfig) (indices : gmap str nat) : result plan_error (list str) :=
  st ← foldM (visit_phase (phase_fuel c) c indices) unvisited (name <$> phases c);
  Ok (ordered st).

(** ** Result dependencies *)

Definition order_of (ordered_phase_names : list str) : gmap str nat :=
  list_to_map (reverse ((fun e => (e.2, e.1)) <$> enumerate ordered_phase_names)).

Definition check_result_dependency (ix : index) (phase_order : gmap str nat) (p : Phase) (t : Task)
  (_ : unit) (dependency : str) : result plan_error unit :=
  match task_phase ix !! dependency with
  | None => Err (Rejected (InvalidTaskResultDependency (task_id t) dependency))
  | Some dependency_phase =>
      there ← ok_or (phase_order !! dependency_phase) Panicked;
      here ← ok_or (phase_order !! name p) Panicked;
      reject_if (here <=? there)%nat
        (Rejected (UnavailableTaskResultDependency (task_id t) dependency dependency_phase (name p)))
  end.

Definition check_results (ix : index) (phase_order : gmap str nat) (_ : unit) (p : Phase)
  : result plan_error unit :=
  foldM (fun _ t => foldM (check_result_dependency ix phase_order p t) tt (depends_on_results t)) tt (tasks p).

Definition plan_of (p : Phase) : PhasePlan :=
  {| plan_name := name p; plan_parallel := parallel p; plan_on_failure := on_failure p; plan_tasks := tasks p |}.

Definition collect_plans (c : WorkflowConfig) (indices : gmap str nat) (order : list str)
  : result plan_error (list PhasePlan) :=
  foldM (fun done n => phase ← phase_named c indices n; Ok (done ++ [plan_of phase])) [] order.

(** ** Compilation *)

Definition from_config (c : WorkflowConfig) : result plan_error WorkflowPlan :=
  map_err reject (validate_non_empty $"workflow goal" (goal c));;
  reject_if (negb ((1 <=? max_concurrent c) && (max_concurrent c <=? 20)))
    (Rejected (InvalidMaxConcurrent (max_concurrent c)));;
  reject_if (bool_decide (phases c = [])) (Rejected EmptyWorkflow);;
  ix ← map_err reject (build_index c);
  map_err reject (foldM (check_phase ix) tt (phases c));;
  order ← ordered_phases c (phase_indices ix);
  foldM (check_results ix (order_of order)) tt (phases c);;
  plans ← collect_plans c (phase_indices ix) order;
  Ok {| plan_goal := goal c; plan_max_concurrent := max_concurrent c; plan_phases := plans |}.

Definition validate (c : WorkflowConfig) : result plan_error unit := from_config c;; Ok tt.
