(* ===== verification/WorkflowOrder.v ===== *)
(** * The phase order of workflow plans

    Correctness and termination of [visit_phase] and [ordered_phases]: on an
    index that describes the phases, the search never runs out of fuel or out
    of range, it reports a cycle exactly when there is one, and the order it
    returns puts every phase after the phases it depends on. *)

From S2P Require Import Text WorkflowPlan.
From stdpp Require Import relations.

Definition names (c : WorkflowConfig) : list str := name <$> phases c.

(** The phase [x] depends on the phase [y]. *)
Definition dep (c : WorkflowConfig) (x y : str) : Prop :=
  exists p, p ∈ phases c /\ name p = x /\ y ∈ depends_on p.

(** Every name of [order] comes after the names it depends on. *)
Definition topological (c : WorkflowConfig) (order : list str) : Prop :=
  forall before x after, order = before ++ x :: after -> forall y, dep c x y -> y ∈ before.

Lemma topological_nil c : topological c [].
Proof. by intros [] ? ? ?. Qed.

Lemma topological_snoc c order x :
  topological c order -> (forall y, dep c x y -> y ∈ order) -> topological c (order ++ [x]).
Proof.
  intros Ht Hx before x' after E y Hd. destruct after as [|z after _] using rev_ind.
  - apply app_inj_tail in E as [-> ->]. by apply Hx.
  - rewrite app_comm_cons, app_assoc in E. apply app_inj_tail in E as [-> _]. by eapply Ht.
Qed.

(** An order of this kind leaves no room for a cycle. *)
Lemma topological_tc c order x y :
  topological c order -> tc (dep c) x y -> x ∈ order ->
  exists before after, order = before ++ x :: after /\ y ∈ before.
Proof.
  intros Ht Hxy. revert order Ht. induction Hxy as [x y H|x y z H _ IH]; intros order Ht Hx.
  - apply list_elem_of_split in Hx as (before & after & ->). exists before, after. split; [done|]. by eapply Ht.
  - apply list_elem_of_split in Hx as (before & after & ->). exists before, after. split; [done|].
    assert (Hb : topological c before).
    { intros b1 u b2 -> v Hv. eapply (Ht b1 u (b2 ++ x :: after)); [by rewrite <-app_assoc|done]. }
    destruct (IH before Hb) as (b1 & b2 & -> & Hz); [by eapply Ht|]. set_solver.
Qed.

Lemma topological_acyclic c order x : topological c order -> NoDup order -> x ∈ order -> ~ tc (dep c) x x.
Proof.
  intros Ht Hnd Hx Hc. destruct (topological_tc c order x x Ht Hc Hx) as (before & after & -> & Hin).
  apply NoDup_app in Hnd as (_ & Hd & _). apply (Hd x Hin). by left.
Qed.

Section order.
Context (c : WorkflowConfig) (indices : gmap str nat).
Hypothesis Hindexed : forall n i, indices !! n = Some i <-> name <$> phases c !! i = Some n.
Hypothesis Hknown : forall x y, dep c x y -> y ∈ names c.

Lemma indexed_unique p q : p ∈ phases c -> q ∈ phases c -> name p = name q -> p = q.
Proof.
  intros [i Hi]%list_elem_of_lookup [j Hj]%list_elem_of_lookup E.
  assert (Ei : indices !! name p = Some i) by (apply Hindexed; by rewrite Hi).
  assert (Ej : indices !! name p = Some j) by (apply Hindexed; rewrite Hj; cbn; by rewrite E). congruence.
Qed.

Lemma phase_named_known n :
  n ∈ names c -> exists p, p ∈ phases c /\ name p = n /\ phase_named c indices n = Ok p.
Proof.
  intros (p & -> & [i Hi]%list_elem_of_lookup)%list_elem_of_fmap. exists p.
  split_and!; [by eapply list_elem_of_lookup_2|done|]. unfold phase_named.
  assert (indices !! name p = Some i) as -> by (apply Hindexed; by rewrite Hi). cbn. by rewrite Hi.
Qed.

(** The state between two visits. *)
Record tidy (st : visit_state) : Prop := {
  td_visited : forall n, n ∈ visited st <-> n ∈ ordered st;
  td_nodup : NoDup (ordered st);
  td_known : forall n, n ∈ ordered st -> n ∈ names c;
  td_fresh : forall n, n ∈ visiting st -> n ∉ ordered st;
  td_topological : topological c (ordered st) }.

(** [st'] is [st] with more phases ordered. *)
Definition extends (st st' : visit_state) : Prop :=
  visiting st' = visiting st /\ exists more, ordered st' = ordered st ++ more.

Lemma extends_refl st : extends st st.
Proof. split; [done|]. exists []. by rewrite app_nil_r. Qed.

Lemma extends_trans st1 st2 st3 : extends st1 st2 -> extends st2 st3 -> extends st1 st3.
Proof.
  intros (Hv & m & Hm) (Hv' & m' & Hm'). split; [congruence|]. exists (m ++ m'). by rewrite Hm', Hm, app_assoc.
Qed.

Lemma extends_ordered st st' n : extends st st' -> n ∈ ordered st -> n ∈ ordered st'.
Proof. intros (_ & m & ->). rewrite elem_of_app. auto. Qed.

Definition search_ok (st : visit_state) (goals : list str) (r : result plan_error visit_state) : Prop :=
  match r with
  | Ok st' => tidy st' /\ extends st st' /\ forall n, n ∈ goals -> n ∈ ordered st'
  | Err (Rejected e) => exists p, e = PhaseDependencyCycle p /\ tc (dep c) p p
  | Err _ => False
  end.

Lemma visit_all_ok (f : visit_state -> str -> result plan_error visit_state) goals st :
  (forall st' n, tidy st' -> extends st st' -> n ∈ goals -> search_ok st' [n] (f st' n)) ->
  tidy st -> search_ok st goals (foldM f st goals).
Proof.
  intros Hf. assert (Hgen : forall gs st', (forall n, n ∈ gs -> n ∈ goals) -> tidy st' -> extends st st' ->
    search_ok st' gs (foldM f st' gs)).
  { induction gs as [|n gs IH]; intros st' Hgs Ht He; cbn [foldM].
    - split_and!; [done|apply extends_refl|by intros ? ?%not_elem_of_nil].
    - pose proof (Hf st' n Ht He ltac:(set_solver)) as Hn. destruct (f st' n) as [st1|[]]; [|done..].
      destruct Hn as (Ht1 & He1 & Hin). cbn.
      pose proof (IH st1 ltac:(set_solver) Ht1 (extends_trans _ _ _ He He1)) as Hr.
      destruct (foldM f st1 gs) as [st2|[]]; [|done..]. destruct Hr as (Ht2 & He2 & Hin2).
      split_and!; [done|by eapply extends_trans|]. intros m [->|Hm]%elem_of_cons; [|by apply Hin2].
      eapply extends_ordered; [done|]. apply Hin. by left. }
  intros Ht. apply Hgen; [done|done|apply extends_refl].
Qed.

Lemma tidy_opened st n : tidy st -> n ∉ visited st -> tidy (opened st n).
Proof.
  intros [Hv Hnd Hk Hf Ht] Hn. constructor; cbn [visited ordered visiting opened]; try done.
  intros m [->%elem_of_singleton|Hm]%elem_of_union; [by rewrite <-Hv|by apply Hf].
Qed.

Lemma tidy_closed st n :
  tidy st -> n ∈ visiting st -> n ∈ names c -> (forall y, dep c n y -> y ∈ ordered st) -> tidy (closed st n).
Proof.
  intros [Hv Hnd Hk Hf Ht] Hn Hin Hdeps. constructor; cbn [visited ordered visiting closed].
  - intros m. rewrite elem_of_union, elem_of_singleton, Hv, elem_of_app, list_elem_of_singleton. tauto.
  - apply NoDup_app. split_and!; [done| |by apply NoDup_singleton].
    intros m Hm ->%list_elem_of_singleton. by apply (Hf _ Hn).
  - intros m [Hm| ->%list_elem_of_singleton]%elem_of_app; [by apply Hk|done].
  - intros m [Hm Hne]%elem_of_difference. rewrite elem_of_app, list_elem_of_singleton.
    rewrite elem_of_singleton in Hne. intros [?|?]; [by apply (Hf m)|done].
  - by apply topological_snoc.
Qed.

(** The open phases are a path that ends at the phase visited. *)
Lemma visit_phase_ok fuel st n :
  tidy st -> n ∈ names c ->
  (forall p, p ∈ visiting st -> p ∈ names c /\ tc (dep c) p n) ->
  (size (list_to_set (names c) : gset str) < fuel + size (visiting st))%nat ->
  search_ok st [n] (visit_phase fuel c indices st n).
Proof.
  revert st n. induction fuel as [|fuel IH]; intros st n Ht Hn Hopen Hfuel.
  { exfalso. assert (size (visiting st) <= size (list_to_set (names c) : gset str))%nat; [|lia].
    apply subseteq_size. intros p Hp. apply elem_of_list_to_set. by apply Hopen. }
  cbn [visit_phase]. case_bool_decide as Hv.
  { split_and!; [done|apply extends_refl|]. intros m ->%list_elem_of_singleton. by apply (td_visited _ Ht). }
  case_bool_decide as Hc.
  { exists n. split; [done|]. by apply Hopen. }
  destruct (phase_named_known n Hn) as (p & Hp & Hpn & ->). cbn [mbind result_bind].
  assert (Hdep : forall y, dep c n y <-> y ∈ depends_on p).
  { intros y. split; [|by intros; exists p]. intros (q & Hq & Hqn & Hy).
    by rewrite (indexed_unique p q) by congruence. }
  assert (Hall : search_ok (opened st n) (depends_on p)
    (foldM (visit_phase fuel c indices) (opened st n) (depends_on p))).
  { apply visit_all_ok; [|by apply tidy_opened]. intros st' y Htidy [Hvis _] Hy%Hdep. apply IH; [done| | |].
    - by apply (Hknown n).
    - intros q. rewrite Hvis. cbn. intros [->%elem_of_singleton|Hq]%elem_of_union.
      + split; [done|]. by apply tc_once.
      + destruct (Hopen q Hq). split; [done|]. eapply tc_transitive; [done|]. by apply tc_once.
    - rewrite Hvis. cbn. rewrite size_insert_new by done. lia. }
  destruct (foldM (visit_phase fuel c indices) (opened st n) (depends_on p)) as [st'|e]; [|done].
  destruct Hall as (Ht' & (Hvis & more & Hmore) & Hin). cbn in Hvis, Hmore. split_and!.
  - apply tidy_closed; [done|rewrite Hvis; set_solver|done|]. intros y Hy%Hdep. by apply Hin.
  - split; [cbn; rewrite Hvis; set_solver|]. exists (more ++ [n]). cbn. by rewrite Hmore, <-app_assoc.
  - intros m ->%list_elem_of_singleton. cbn. apply elem_of_app. right. by left.
Qed.

(** The order is a topological order of all the phases, or there is a cycle. *)
Lemma ordered_phases_ok :
  match ordered_phases c indices with
  | Ok order => NoDup order /\ topological c order /\ forall n, n ∈ order <-> n ∈ names c
  | Err (Rejected e) => exists p, e = PhaseDependencyCycle p /\ tc (dep c) p p
  | Err _ => False
  end.
Proof.
  assert (H : search_ok unvisited (names c) (foldM (visit_phase (phase_fuel c) c indices) unvisited (names c))).
  { apply visit_all_ok.
    - intros st n Ht [Hvis _] Hn. apply visit_phase_ok; [done|done| |].
      + rewrite Hvis. by intros p ?%not_elem_of_empty.
      + rewrite Hvis. cbn. rewrite size_empty. unfold phase_fuel.
        pose proof (size_list_to_set_le (names c)) as Hs. unfold names in Hs. rewrite length_fmap in Hs.
        unfold names. lia.
    - constructor; cbn; [set_solver|by apply NoDup_nil|set_solver|set_solver|apply topological_nil]. }
  unfold ordered_phases. fold (names c).
  destruct (foldM _ unvisited (names c)) as [st|]; [|done]. destruct H as (Ht & _ & Hin). cbn.
  split_and!; [apply Ht|apply Ht|]. intros n. split; [by apply Ht|by apply Hin].
Qed.

Lemma ordered_phases_complete : (forall x, ~ tc (dep c) x x) -> is_ok (ordered_phases c indices) = true.
Proof.
  intros Hacyclic. pose proof ordered_phases_ok as H. destruct (ordered_phases c indices) as [order|[e| |]]; try done.
  destruct H as (p & _ & Hp). by destruct (Hacyclic p).
Qed.

(** The state after visiting [before] in a topological listing. *)
Definition listed (before : list str) : visit_state :=
  {| visiting := ∅; visited := list_to_set before; ordered := before |}.

Lemma visit_skip k st ds :
  (forall d, d ∈ ds -> d ∈ visited st) -> foldM (visit_phase (S k) c indices) st ds = Ok st.
Proof.
  intros Hds. induction ds as [|d ds IH]; [done|]. cbn [foldM visit_phase].
  rewrite bool_decide_true by (apply Hds; by left). apply IH. set_solver.
Qed.

Lemma visit_listed before n :
  n ∈ names c -> n ∉ before -> (forall y, dep c n y -> y ∈ before) ->
  visit_phase (phase_fuel c) c indices (listed before) n = Ok (listed (before ++ [n])).
Proof.
  intros Hn Hfresh Hdeps. destruct (phase_named_known n Hn) as (p & Hp & Hpn & Hphase).
  destruct (length (phases c)) as [|k] eqn:Ek.
  { apply length_zero_iff_nil in Ek. unfold names in Hn. rewrite Ek in Hn. by apply not_elem_of_nil in Hn. }
  unfold phase_fuel. rewrite Ek. remember (S k) as fuel eqn:Efuel. cbn [visit_phase visited visiting listed].
  rewrite bool_decide_false by (by rewrite elem_of_list_to_set). rewrite bool_decide_false by set_solver.
  rewrite Hphase. cbn [mbind result_bind]. subst fuel. rewrite visit_skip.
  - cbn. unfold closed, listed. cbn. do 2 f_equal; [set_solver|]. rewrite list_to_set_app_L. set_solver.
  - intros d Hd. cbn. apply elem_of_list_to_set, Hdeps. by exists p.
Qed.

(** Phases listed in a topological order keep that order. *)
Lemma listed_order_kept : topological c (names c) -> NoDup (names c) -> ordered_phases c indices = Ok (names c).
Proof.
  intros Ht Hnd.
  assert (Hgen : forall before after, names c = before ++ after ->
    foldM (visit_phase (phase_fuel c) c indices) unvisited before = Ok (listed before)).
  { intros before. induction before as [|n before IH] using rev_ind; intros after E; [done|].
    rewrite <- app_assoc in E. rewrite foldM_app, (IH _ E). cbn [mbind result_bind foldM].
    rewrite visit_listed; [done|rewrite E; set_solver| |by eapply Ht].
    rewrite E in Hnd. apply NoDup_app in Hnd as (_ & Hd & _). intros Hin. apply (Hd _ Hin). by left. }
  unfold ordered_phases. fold (names c). rewrite (Hgen (names c) []); [done|by rewrite app_nil_r].
Qed.
End order.

(** * Write scopes of parallel workflow tasks

    What the overlap test of [crates/workflow/src/lib.rs] decides.  A scope
    without a star inside stands for the paths at or below its root; two scopes
    overlap exactly when some path is in both.  Paths are compared as the code
    compares them, component by component, without resolving [".."]. *)

(** The path is at or below [root]. *)
Definition below (root : str) (path : list component) : Prop :=
  root = $"." \/ path_components root `prefix_of` path.

Definition in_scope (scope : str) (path : list component) : Prop := below (normalize_file_scope_root scope) path.

Definition in_scopes (scopes : list str) (path : list component) : Prop :=
  exists scope, scope ∈ scopes /\ in_scope scope path.

(** The root of the scope is a concrete path. *)
Definition concrete (scope : str) : Prop := contains_char (chr "*") (normalize_file_scope_root scope) = false.

Lemma prefix_comparable {A} (p q path : list A) :
  p `prefix_of` path -> q `prefix_of` path -> p `prefix_of` q \/ q `prefix_of` p.
Proof. intros Hp Hq. destruct (prefix_weak_total p q path Hp Hq); auto. Qed.

Lemma roots_meet l r :
  (exists path, below l path /\ below r path) <->
  l = $"." \/ r = $"." \/ path_components l `prefix_of` path_components r
  \/ path_components r `prefix_of` path_components l.
Proof.
  unfold below. split.
  - intros (path & [->|Hl] & [->|Hr]); auto. destruct (prefix_comparable _ _ _ Hl Hr); auto.
  - intros [->|[->|[H|H]]]; [exists (path_components r)|exists (path_components l)|exists (path_components r)|
      exists (path_components l)]; auto.
Qed.

Lemma scope_overlaps_spec l r :
  concrete l -> concrete r -> scope_overlaps l r = true <-> exists path, in_scope l path /\ in_scope r path.
Proof.
  unfold concrete, in_scope. intros Hl Hr. rewrite roots_meet. unfold scope_overlaps. rewrite Hl, Hr. cbn [orb].
  destruct (bool_decide (_ = _) || _ || _) eqn:E.
  - rewrite !orb_true_iff, !bool_decide_eq_true in E. split; [intros _|done]. destruct E as [[->|?]|?]; auto.
  - rewrite !orb_false_iff, !bool_decide_eq_false in E. unfold path_starts_with.
    rewrite orb_true_iff, !bool_decide_eq_true. tauto.
Qed.

Lemma scope_overlaps_sym l r : scope_overlaps l r = scope_overlaps r l.
Proof.
  unfold scope_overlaps. rewrite (bool_decide_ext _ (normalize_file_scope_root r = normalize_file_scope_root l)) by done.
  rewrite <-!orb_assoc, (orb_comm (bool_decide (normalize_file_scope_root l = _))).
  destruct (_ || (_ || _)); [done|].
  rewrite (orb_comm (contains_char _ (normalize_file_scope_root l))).
  destruct (_ || _); [by apply bool_decide_ext|apply orb_comm].
Qed.

Lemma scopes_overlap_true ls rs :
  scopes_overlap ls rs = true <-> exists l r, l ∈ ls /\ r ∈ rs /\ scope_overlaps l r = true.
Proof. unfold scopes_overlap. rewrite existsb_spec. setoid_rewrite existsb_spec. naive_solver. Qed.

Lemma scopes_overlap_sym ls rs : scopes_overlap ls rs = scopes_overlap rs ls.
Proof.
  apply eq_true_iff_eq. rewrite !scopes_overlap_true. setoid_rewrite scope_overlaps_sym at 1. naive_solver.
Qed.

Lemma scopes_overlap_spec ls rs :
  Forall concrete ls -> Forall concrete rs ->
  scopes_overlap ls rs = true <-> exists path, in_scopes ls path /\ in_scopes rs path.
Proof.
  rewrite !Forall_forall. intros Hl Hr. rewrite scopes_overlap_true. unfold in_scopes. split.
  - intros (l & r & Hi & Hj & (path & ? & ?)%scope_overlaps_spec); [naive_solver|auto..].
  - intros (path & (l & Hi & ?) & (r & Hj & ?)). exists l, r. split_and!; [done..|].
    apply scope_overlaps_spec; eauto.
Qed.

(** ** The check of a parallel phase *)

(** The writers have scopes, and no two of them overlap. *)
Definition writers_apart (p : Phase) : Prop :=
  (forall t, t ∈ tasks p -> mode t = ReadWrite -> file_scope t <> []) /\
  (forall i j t u, i <> j -> tasks p !! i = Some t -> tasks p !! j = Some u ->
     mode t = ReadWrite -> mode u = ReadWrite -> scopes_overlap (file_scope t) (file_scope u) = false).

Lemma check_write_pairs_Ok ws :
  check_write_pairs ws = Ok tt <->
  StronglySorted (fun t u => scopes_overlap (file_scope t) (file_scope u) = false) ws.
Proof.
  induction ws as [|w ws IH]; cbn; [split; [constructor|done]|].
  destruct (Prelude.find _ ws) as [o|] eqn:E.
  - split; [done|]. intros Hs. apply StronglySorted_inv in Hs as [_ Hs]. apply find_Some in E as [Ho E].
    rewrite Forall_forall in Hs. rewrite (Hs _ Ho) in E. done.
  - rewrite IH. rewrite find_None in E. split; [intros H; constructor; [done|by apply Forall_forall]|].
    by intros [? _]%StronglySorted_inv.
Qed.

Lemma validate_parallel_write_scope_Ok p :
  validate_parallel_write_scope p = Ok tt <-> (parallel p = true -> writers_apart p).
Proof.
  unfold validate_parallel_write_scope. destruct (parallel p); cbn; [|naive_solver].
  assert (Hw : forall t, is_writer t = true <-> mode t = ReadWrite) by (intros t; apply bool_decide_eq_true).
  destruct (Prelude.find _ _) as [t|] eqn:E.
  - apply find_Some in E as [[Ht%Hw Hin]%elem_of_retain He%bool_decide_eq_true]. split; [done|].
    intros H. destruct (H eq_refl) as [Hs _]. by destruct (Hs t).
  - rewrite find_None in E. rewrite check_write_pairs_Ok, retain_strongly_sorted.
    2: { intros t u. by rewrite scopes_overlap_sym. }
    unfold writers_apart. setoid_rewrite Hw. split.
    + intros H _. split; [|naive_solver]. intros t Ht Hm He. specialize (E t).
      rewrite bool_decide_true in E by done. discriminate E. apply elem_of_retain. by rewrite Hw.
    + intros H. destruct (H eq_refl) as [_ H2]. naive_solver.
Qed.
