(* ===== verification/WorkflowIndex.v ===== *)
(** * The index of workflow phases and tasks

    [build_index] succeeds exactly on phases and tasks with distinct, non-blank
    names, and the maps it builds describe them. *)

From S2P Require Import Text WorkflowPlan WorkflowOrder.

Definition nonblank (s : str) : Prop := trim s <> [].

Definition all_tasks_of (ps : list Phase) : list Task := ps ≫= tasks.

Record named (ns : list str) (ts : list Task) : Prop := {
  nm_phases : NoDup ns /\ Forall nonblank ns;
  nm_fields : Forall (fun t => nonblank (task_id t) /\ nonblank (prompt t)) ts;
  nm_tasks : NoDup (task_id <$> ts) }.

(** ** The index *)

Lemma validate_non_empty_Ok field v : validate_non_empty field v = Ok tt <-> nonblank v.
Proof.
  unfold validate_non_empty, nonblank. rewrite reject_if_Ok. by destruct (trim v).
Qed.

(** [ix] describes the phases [ps] followed by the first tasks [ts] of the
    phase [p], if any. *)
Record described (ps : list (str * list Task)) (ix : index) : Prop := {
  de_indices : forall n i, phase_indices ix !! n = Some i <-> ps.*1 !! i = Some n;
  de_tasks : forall t, is_Some (all_tasks ix !! t) <-> t ∈ task_id <$> (ps ≫= snd);
  de_task_phase : forall t n, task_phase ix !! t = Some n <->
    exists p, p ∈ ps /\ p.1 = n /\ t ∈ task_id <$> p.2 }.

Definition signature (p : Phase) : str * list Task := (name p, tasks p).

Definition named_of (ps : list (str * list Task)) : Prop := named ps.*1 (ps ≫= snd).

Lemma named_prefix ns ms ts us : named (ns ++ ms) (ts ++ us) -> named ns ts.
Proof.
  intros [[Hn Hb] Hf Ht]. rewrite fmap_app in Ht. apply NoDup_app in Hn as (? & _ & _), Ht as (? & _ & _).
  apply Forall_app in Hb as [? _], Hf as [? _]. by constructor.
Qed.

Lemma signature_names done n us : (done ++ [(n, us) : str * list Task]).*1 = done.*1 ++ [n].
Proof. by rewrite fmap_app. Qed.

Lemma signature_tasks done n us : (done ++ [(n, us) : str * list Task]) ≫= snd = (done ≫= snd) ++ us.
Proof. by rewrite bind_app, bind_singleton. Qed.

Lemma described_task done p ts ix t :
  described (done ++ [(name p, ts)]) ix -> all_tasks ix !! task_id t = None ->
  described (done ++ [(name p, ts ++ [t])])
    {| phase_indices := phase_indices ix; all_tasks := <[task_id t := t]> (all_tasks ix);
       task_phase := <[task_id t := name p]> (task_phase ix) |}.
Proof.
  intros [Hi Ha Hp] Hnew.
  assert (Hfresh : task_id t ∉ task_id <$> (done ≫= snd) ++ ts).
  { rewrite <-(signature_tasks done (name p)), <-Ha, Hnew. by intros [? ?]. }
  constructor; cbn.
  - intros n i. by rewrite Hi, !signature_names.
  - intros x. rewrite lookup_insert_is_Some', Ha, !signature_tasks, app_assoc, !fmap_app, !elem_of_app. cbn.
    rewrite list_elem_of_singleton. naive_solver.
  - intros x n. rewrite lookup_insert_Some, Hp. setoid_rewrite elem_of_app. setoid_rewrite list_elem_of_singleton. split.
    + intros [[<- <-]|(Hne & [n' us] & [Hin| [= -> ->]] & <- & Hx)]; cbn [fst snd] in *.
      * exists (name p, ts ++ [t]). split_and!; [by right|done|]. cbn [snd]. rewrite fmap_app. apply elem_of_app. right. by left.
      * exists (n', us). auto.
      * exists (name p, ts ++ [t]). split_and!; [by right|done|]. cbn [snd]. rewrite fmap_app. apply elem_of_app. by left.
    + intros ([n' us] & [Hin| [= -> ->]] & <- & Hx); cbn [fst snd] in *.
      * right. split; [|exists (n', us); auto]. intros <-. apply Hfresh. rewrite fmap_app. apply elem_of_app. left.
        apply list_elem_of_fmap in Hx as (u & -> & Hu). apply list_elem_of_fmap. exists u. split; [done|].
        apply list_elem_of_bind. by exists (n', us).
      * rewrite fmap_app in Hx. apply elem_of_app in Hx as [Hx|[->|Hx]%elem_of_cons]; [|by left|by apply not_elem_of_nil in Hx].
        right. split; [|exists (name p, ts); auto]. intros <-. apply Hfresh. rewrite fmap_app. apply elem_of_app. by right.
Qed.

Lemma named_task ns ts t :
  named ns ts -> nonblank (task_id t) -> nonblank (prompt t) -> task_id t ∉ task_id <$> ts -> named ns (ts ++ [t]).
Proof.
  intros [Hp Hf Ht] H1 H2 Hfresh. constructor; [done| |].
  - apply Forall_app. split; [done|]. by apply Forall_singleton.
  - rewrite fmap_app. apply NoDup_app. split_and!; [done| |by apply NoDup_singleton].
    by intros x Hx ->%list_elem_of_singleton.
Qed.

Lemma index_task_spec p done ts ix t :
  named_of (done ++ [(name p, ts)]) -> described (done ++ [(name p, ts)]) ix ->
  match index_task p ix t with
  | Ok ix' => named_of (done ++ [(name p, ts ++ [t])]) /\ described (done ++ [(name p, ts ++ [t])]) ix'
  | Err _ => ~ named_of (done ++ [(name p, ts ++ [t])])
  end.
Proof.
  intros Hn Hd. unfold index_task, named_of in *. rewrite !signature_names, !signature_tasks in *. rewrite app_assoc.
  destruct (validate_non_empty $"task id" (task_id t)) as [[]|] eqn:E1; cbn.
  2: { intros [_ [_ [H _]%Forall_singleton]%Forall_app _]. apply (validate_non_empty_Ok $"task id") in H. congruence. }
  apply validate_non_empty_Ok in E1.
  destruct (validate_non_empty $"task prompt" (prompt t)) as [[]|] eqn:E2; cbn.
  2: { intros [_ [_ [_ H]%Forall_singleton]%Forall_app _]. apply (validate_non_empty_Ok $"task prompt") in H. congruence. }
  apply validate_non_empty_Ok in E2. pose proof (de_tasks _ _ Hd (task_id t)) as Hin. rewrite signature_tasks in Hin.
  destruct (all_tasks ix !! task_id t) as [t'|] eqn:E3.
  - intros [_ _ Hnd]. rewrite fmap_app in Hnd. apply NoDup_app in Hnd as (_ & Hdis & _).
    apply (Hdis (task_id t)); [apply Hin; eauto|by left].
  - split; [|by apply described_task]. apply named_task; try done. rewrite <-Hin. by intros [? ?].
Qed.

Lemma index_tasks_spec p done ts ix :
  named_of (done ++ [(name p, [])]) -> described (done ++ [(name p, [])]) ix ->
  match foldM (index_task p) ix ts with
  | Ok ix' => named_of (done ++ [(name p, ts)]) /\ described (done ++ [(name p, ts)]) ix'
  | Err _ => ~ named_of (done ++ [(name p, ts)])
  end.
Proof.
  intros Hn Hd. induction ts as [|t ts IH] using rev_ind; [done|]. rewrite foldM_app.
  destruct (foldM (index_task p) ix ts) as [ix'|e]; cbn.
  - destruct IH as [Hn' Hd']. pose proof (index_task_spec p done ts ix' t Hn' Hd') as H.
    by destruct (index_task p ix' t).
  - intros H. apply IH. unfold named_of in *. rewrite signature_names, signature_tasks in *.
    rewrite app_assoc in H. rewrite <-(app_nil_r (_ ++ [name p])) in H. by apply named_prefix in H.
Qed.

Definition named_phases (ps : list Phase) : Prop :=
  named_of (signature <$> ps) /\ forall p, p ∈ ps -> tasks p <> [].

Lemma named_phases_prefix ps qs : named_phases (ps ++ qs) -> named_phases ps.
Proof.
  unfold named_phases, named_of. rewrite !fmap_app, bind_app. intros [H1%named_prefix H2]. split; [done|].
  intros p Hp. apply H2. apply elem_of_app. by left.
Qed.

Lemma described_phase done ix n :
  described done ix -> n ∉ done.*1 ->
  described (done ++ [(n, [])])
    {| phase_indices := <[n := length done]> (phase_indices ix); all_tasks := all_tasks ix; task_phase := task_phase ix |}.
Proof.
  intros [Hi Ha Hp] Hfresh. constructor; cbn.
  - intros m i. rewrite lookup_insert_Some, Hi, signature_names. rewrite lookup_app_Some, length_fmap. split.
    + intros [[<- <-]|[Hne Hl]]; [right; split; [lia|by rewrite Nat.sub_diag]|by left].
    + intros [Hl|[Hle Hl]].
      * right. split; [|done]. intros <-. by apply Hfresh, list_elem_of_lookup_2 with i.
      * left. apply list_lookup_singleton_Some in Hl as [? <-]. split; [done|lia].
  - intros t. by rewrite Ha, signature_tasks, app_nil_r.
  - intros t m. rewrite Hp. setoid_rewrite elem_of_app. setoid_rewrite list_elem_of_singleton. split.
    + intros (p & ? & ?). exists p. auto.
    + intros (p & [Hin| ->] & ? & Ht); [by exists p|by apply not_elem_of_nil in Ht].
Qed.

Lemma named_phase done n : named_of done -> n ∉ done.*1 -> nonblank n -> named_of (done ++ [(n, [])]).
Proof.
  unfold named_of. rewrite signature_names, signature_tasks, app_nil_r. intros [[Hnd Hb] Hf Hts] Hfresh Hn.
  constructor; [split|done|done].
  - apply NoDup_app. split_and!; [done| |by apply NoDup_singleton].
    intros x Hx ->%list_elem_of_singleton. by apply Hfresh.
  - apply Forall_app. split; [done|]. by apply Forall_singleton.
Qed.

Lemma index_phase_spec done ix p :
  named_phases done -> described (signature <$> done) ix ->
  match index_phase ix (length done, p) with
  | Ok ix' => named_phases (done ++ [p]) /\ described (signature <$> done ++ [p]) ix'
  | Err _ => ~ named_phases (done ++ [p])
  end.
Proof.
  intros [Hn Hne] Hd. unfold index_phase, named_phases. rewrite fmap_app. cbn [fmap list_fmap].
  change (signature p) with (name p, tasks p).
  assert (Hhead : named_of ((signature <$> done) ++ [(name p, tasks p)]) -> nonblank (name p) /\ name p ∉ (signature <$> done).*1).
  { unfold named_of. rewrite signature_names. intros [[Hnd [_ Hb]%Forall_app] _ _].
    rewrite Forall_singleton in Hb. split; [done|].
    apply NoDup_app in Hnd as (_ & Hdis & _). intros Hin. apply (Hdis _ Hin). by left. }
  destruct (validate_non_empty $"phase name" (name p)) as [[]|] eqn:E1; cbn.
  2: { intros [[H _]%Hhead _]. apply (validate_non_empty_Ok $"phase name") in H. congruence. }
  apply validate_non_empty_Ok in E1. destruct (bool_decide (tasks p = [])) eqn:E2; cbn.
  { apply bool_decide_eq_true in E2. intros [_ H]. apply (H p); [|done]. apply elem_of_app. right. by left. }
  apply bool_decide_eq_false in E2. pose proof (de_indices _ _ Hd (name p)) as Hin.
  destruct (phase_indices ix !! name p) as [i|] eqn:E3.
  { intros [[_ Hfresh]%Hhead _]. apply Hfresh. eapply list_elem_of_lookup_2. by apply Hin. }
  assert (Hfresh : name p ∉ (signature <$> done).*1) by (intros [j ?%Hin]%list_elem_of_lookup; congruence).
  pose proof (described_phase _ _ _ Hd Hfresh) as Hd'. rewrite length_fmap in Hd'.
  pose proof (index_tasks_spec p _ (tasks p) _ (named_phase _ _ Hn Hfresh E1) Hd') as Ht.
  destruct (foldM _ _ (tasks p)) as [ix'|]; [|tauto]. destruct Ht as [Ht1 Ht2]. split; [|done]. split; [done|].
  intros q [?| ->%list_elem_of_singleton]%elem_of_app; auto.
Qed.

Lemma build_index_spec c :
  match build_index c with
  | Ok ix => named_phases (phases c) /\ described (signature <$> phases c) ix
  | Err _ => ~ named_phases (phases c)
  end.
Proof.
  unfold build_index, enumerate. induction (phases c) as [|p ps IH] using rev_ind.
  { cbn. split; [split; [|by intros ? ?%not_elem_of_nil]|].
    - constructor; cbn; [split|..]; constructor.
    - constructor; cbn; setoid_rewrite lookup_empty; [done| |].
      + intros t. split; [by intros [? ?]|by intros ?%not_elem_of_nil].
      + intros t n. split; [done|]. by intros (? & ?%not_elem_of_nil & _). }
  rewrite imap_app, foldM_app. cbn [imap]. rewrite Nat.add_0_r.
  destruct (foldM index_phase empty_index (imap pair ps)) as [ix|e].
  - destruct IH as [Hn Hd]. pose proof (index_phase_spec ps ix p Hn Hd) as H. cbn [mbind result_bind foldM].
    by destruct (index_phase ix (length ps, p)).
  - cbn. intros H. apply IH. by eapply named_phases_prefix.
Qed.
