(* ===== verification/WorkflowPlanSpec.v ===== *)
(** * Properties of workflow plan compilation

    [WorkflowPlan::from_config] compiles exactly the valid configurations, and
    the plan it returns is a schedule of their phases whose parallel writers
    stay apart. *)

From S2P Require Import Text WorkflowPlan WorkflowOrder WorkflowIndex.
From stdpp Require Import relations.

(** ** Valid configurations *)

Record valid (c : WorkflowConfig) : Prop := {
  va_goal : nonblank (goal c);
  va_concurrency : (1 <= max_concurrent c <= 20)%Z;
  va_phases : phases c <> [] /\ forall p, p ∈ phases c -> tasks p <> [];
  va_named : named (names c) (all_tasks_of (phases c));
  va_known : forall x y, dep c x y -> y ∈ names c /\ y <> x;
  va_acyclic : forall x, ~ tc (dep c) x x;
  va_writers : forall p, p ∈ phases c -> parallel p = true -> writers_apart p }.

Definition precedes (order : list str) (x y : str) : Prop :=
  exists before after, order = before ++ y :: after /\ x ∈ before.

(** Every result a task waits for is of a task of an earlier phase. *)
Definition available (c : WorkflowConfig) (order : list str) : Prop :=
  forall p t d, p ∈ phases c -> t ∈ tasks p -> d ∈ depends_on_results t ->
  exists q u, q ∈ phases c /\ u ∈ tasks q /\ task_id u = d /\ precedes order (name q) (name p).


(** ** Verdicts *)

(** The check [m] decides [P] and neither panics nor runs out of fuel. *)
Definition decides {A} (P : Prop) (m : result plan_error A) : Prop :=
  match m with
  | Ok _ => P
  | Err (Rejected _) => ~ P
  | Err _ => False
  end.

Lemma decides_iff {A} (P Q : Prop) (m : result plan_error A) : (P <-> Q) -> decides P m -> decides Q m.
Proof. intros H. destruct m as [|[]]; cbn; tauto. Qed.

Lemma decides_Ok {A} P (m : result plan_error A) a : decides P m -> m = Ok a -> P.
Proof. by intros H ->. Qed.

Lemma decides_reject (P : Prop) (b : bool) e : (P <-> b = false) -> decides P (reject_if b (Rejected e)).
Proof. intros H. destruct b; cbn; [by rewrite H|by apply H]. Qed.

Lemma decides_map_err {A} (P : Prop) (m : result WorkflowValidationError A) :
  (P <-> is_ok m = true) -> decides P (map_err reject m).
Proof. intros H. destruct m; cbn; [by apply H|by rewrite H]. Qed.

Lemma decides_bind {A B} (P Q : Prop) (m : result plan_error A) (k : A -> result plan_error B) :
  decides P m -> (forall a, P -> m = Ok a -> decides Q (k a)) -> decides (P /\ Q) (m ≫= k).
Proof.
  intros Hm Hk. destruct m as [a|[]]; cbn in *; try tauto. specialize (Hk a Hm eq_refl).
  eapply decides_iff; [|exact Hk]. tauto.
Qed.

Lemma decides_foldM {X} (P : X -> Prop) (f : unit -> X -> result plan_error unit) xs :
  (forall x, x ∈ xs -> decides (P x) (f tt x)) -> decides (forall x, x ∈ xs -> P x) (foldM f tt xs).
Proof.
  induction xs as [|x xs IH]; intros H; [by intros x ?%not_elem_of_nil|]. cbn [foldM].
  eapply decides_iff; [|apply (decides_bind (P x) (forall x, x ∈ xs -> P x))].
  - set_solver.
  - apply H. by left.
  - intros [] _ _. apply IH. intros y Hy. apply H. by right.
Qed.

(** ** Result dependencies *)

Lemma elem_of_enumerate {A} (l : list A) i x : (i, x) ∈ enumerate l <-> l !! i = Some x.
Proof. unfold enumerate. rewrite elem_of_lookup_imap. naive_solver. Qed.

Lemma enumerate_values {A} (l : list A) : (enumerate l).*2 = l.
Proof.
  unfold enumerate. rewrite fmap_imap. apply list_eq. intros i. rewrite list_lookup_imap. by destruct (l !! i).
Qed.

Lemma order_of_lookup order n i : NoDup order -> order_of order !! n = Some i <-> order !! i = Some n.
Proof.
  intros Hnd. unfold order_of. rewrite <-elem_of_list_to_map.
  - rewrite elem_of_reverse, list_elem_of_fmap. split.
    + intros ([j m] & [= -> ->] & H). by apply elem_of_enumerate.
    + intros H. exists (i, n). split; [done|]. by apply elem_of_enumerate.
  - rewrite reverse_Permutation, <-list_fmap_compose.
    rewrite (list_fmap_ext _ snd) by done. by rewrite enumerate_values.
Qed.

Lemma precedes_lookup order x y i j :
  NoDup order -> order !! i = Some x -> order !! j = Some y -> precedes order x y <-> (i < j)%nat.
Proof.
  intros Hnd Hi Hj. split.
  - intros (before & after & -> & Hx). apply list_elem_of_lookup in Hx as [k Hk].
    assert (i = k) as -> by (eapply NoDup_lookup; [done..|]; by apply lookup_app_l_Some).
    assert (j = length before) as ->; [|by eapply lookup_lt_Some].
    eapply NoDup_lookup; [done..|]. by apply list_lookup_middle.
  - intros Hlt. exists (take j order), (drop (S j) order). split; [by rewrite take_drop_middle|].
    apply list_elem_of_lookup. exists i. by rewrite lookup_take_lt.
Qed.

Section results.
Context (c : WorkflowConfig) (ix : index) (order : list str).
Hypothesis Hdescribed : described (signature <$> phases c) ix.
Hypothesis Hnodup : NoDup order.
Hypothesis Hall : forall n, n ∈ order <-> n ∈ names c.

Lemma order_of_known p : p ∈ phases c -> exists i, order_of order !! name p = Some i /\ order !! i = Some (name p).
Proof.
  intros Hp. assert (Hin : name p ∈ order) by (apply Hall, list_elem_of_fmap; by exists p).
  apply list_elem_of_lookup in Hin as [i Hi]. exists i. by rewrite order_of_lookup.
Qed.

Lemma task_phase_of d n :
  task_phase ix !! d = Some n <-> exists q u, q ∈ phases c /\ u ∈ tasks q /\ task_id u = d /\ name q = n.
Proof.
  rewrite (de_task_phase _ _ Hdescribed). split.
  - intros (e & (q & -> & Hq)%list_elem_of_fmap & <- & (u & -> & Hu)%list_elem_of_fmap). by exists q, u.
  - intros (q & u & Hq & Hu & <- & <-). exists (signature q). split_and!; [by apply list_elem_of_fmap_2|done|].
    by apply list_elem_of_fmap_2.
Qed.

Lemma check_result_dependency_decides p t d :
  p ∈ phases c ->
  decides (exists q u, q ∈ phases c /\ u ∈ tasks q /\ task_id u = d /\ precedes order (name q) (name p))
    (check_result_dependency ix (order_of order) p t tt d).
Proof.
  intros Hp. unfold check_result_dependency. destruct (task_phase ix !! d) as [n|] eqn:E.
  - pose proof E as (q & u & Hq & Hu & <- & <-)%task_phase_of.
    destruct (order_of_known q Hq) as (i & -> & Hi). destruct (order_of_known p Hp) as (j & -> & Hj).
    cbn [ok_or mbind result_bind]. apply decides_reject. rewrite Nat.leb_gt, <-(precedes_lookup order) by done. split.
    + intros (q' & u' & Hq' & Hu' & Hd & Hpre). assert (name q' = name q) as <-; [|done].
      assert (E' : task_phase ix !! task_id u = Some (name q')) by (apply task_phase_of; by exists q', u'). congruence.
    + intros Hpre. by exists q, u.
  - intros (q & u & Hq & Hu & <- & _).
    assert (task_phase ix !! task_id u = Some (name q)) by (apply task_phase_of; by exists q, u). congruence.
Qed.

Lemma check_results_decides : decides (available c order) (foldM (check_results ix (order_of order)) tt (phases c)).
Proof.
  eapply decides_iff; [|apply (decides_foldM (fun p => forall t, t ∈ tasks p -> forall d, d ∈ depends_on_results t ->
    exists q u, q ∈ phases c /\ u ∈ tasks q /\ task_id u = d /\ precedes order (name q) (name p)))].
  - unfold available. naive_solver.
  - intros p Hp. apply decides_foldM. intros t _. apply decides_foldM. intros d _. by apply check_result_dependency_decides.
Qed.
End results.

(** ** Collecting the plans *)

Lemma indexed c ix :
  described (signature <$> phases c) ix -> forall n i, phase_indices ix !! n = Some i <-> name <$> phases c !! i = Some n.
Proof.
  intros [Hi _ _] n i. rewrite Hi, <-list_fmap_compose, list_lookup_fmap.
  destruct (phases c !! i); cbn; split; congruence.
Qed.

Lemma collect_plans_ok c indices order :
  (forall n i, indices !! n = Some i <-> name <$> phases c !! i = Some n) -> (forall n, n ∈ order -> n ∈ names c) ->
  exists ps, collect_plans c indices order = Ok (plan_of <$> ps) /\ name <$> ps = order /\ forall p, p ∈ ps -> p ∈ phases c.
Proof.
  intros Hix Hin. unfold collect_plans. induction order as [|n order IH] using rev_ind.
  { exists []. split_and!; [done..|]. by intros ? ?%not_elem_of_nil. }
  destruct IH as (ps & H1 & <- & H3); [set_solver|].
  destruct (phase_named_known c indices Hix n) as (p & Hp & <- & Hph); [set_solver|].
  exists (ps ++ [p]). rewrite foldM_app, H1. cbn [foldM mbind result_bind]. rewrite Hph. cbn.
  rewrite !fmap_app. split_and!; [done..|]. set_solver.
Qed.

Lemma NoDup_names_Permutation (ps qs : list Phase) :
  NoDup (name <$> ps) -> NoDup (name <$> qs) -> (forall p, p ∈ ps -> p ∈ qs) ->
  (forall q, q ∈ qs -> name q ∈ name <$> ps) -> ps ≡ₚ qs.
Proof.
  intros Hp Hq Hin Hnames. apply NoDup_Permutation; [by eapply NoDup_fmap_1|by eapply NoDup_fmap_1|].
  intros p. split; [apply Hin|]. intros Hpq. pose proof (Hnames p Hpq) as (p' & E & Hp')%list_elem_of_fmap.
  apply list_elem_of_lookup in Hpq as [i Hi]. pose proof (Hin p' Hp') as [j Hj]%list_elem_of_lookup.
  assert (i = j) as ->; [|congruence].
  eapply (NoDup_lookup (name <$> qs)); [done|by rewrite list_lookup_fmap, Hi|by rewrite list_lookup_fmap, Hj, E].
Qed.

Lemma NoDup_names_eq (ps qs : list Phase) :
  NoDup (name <$> qs) -> ps ≡ₚ qs -> name <$> ps = name <$> qs -> ps = qs.
Proof.
  intros Hnd Hperm E. apply list_eq. intros i.
  assert (Hi : name <$> ps !! i = name <$> qs !! i) by (by rewrite <-!list_lookup_fmap, E).
  destruct (ps !! i) as [p|] eqn:Ep, (qs !! i) as [q|] eqn:Eq; cbn in Hi; try done. injection Hi as Hi. f_equal.
  apply list_elem_of_lookup_2 in Ep. rewrite Hperm in Ep. apply list_elem_of_lookup in Ep as [j Hj].
  assert (j = i) as ->; [|congruence].
  eapply (NoDup_lookup (name <$> qs)); [done|by rewrite list_lookup_fmap, Hj|by rewrite list_lookup_fmap, Eq, Hi].
Qed.

(** ** Compilation *)

(** The checks of the phases, in the terms of [valid]. *)
Definition phase_sound (c : WorkflowConfig) (p : Phase) : Prop :=
  (forall d, d ∈ depends_on p -> d ∈ names c /\ d <> name p) /\ (parallel p = true -> writers_apart p).

Lemma check_phase_Ok c ix p :
  described (signature <$> phases c) ix -> check_phase ix tt p = Ok tt <-> phase_sound c p.
Proof.
  intros Hd. unfold check_phase, phase_sound. rewrite bind_Ok. setoid_rewrite validate_parallel_write_scope_Ok.
  assert (Hdep : forall d, check_dependency ix p tt d = Ok tt <-> d ∈ names c /\ d <> name p).
  { intros d. unfold check_dependency. rewrite reject_if_Ok, orb_false_iff, !bool_decide_eq_false.
    assert (Hn : d ∈ names c <-> phase_indices ix !! d <> None); [|tauto].
    unfold names. rewrite list_elem_of_lookup. setoid_rewrite list_lookup_fmap.
    setoid_rewrite <-(indexed c ix Hd d). rewrite not_eq_None_Some. done. }
  split.
  - intros ([] & Hf & Hw). split; [|done]. intros d Hin. apply Hdep. eapply foldM_unit_Ok; [done|done].
  - intros [Hf Hw]. exists tt. split; [|done]. apply foldM_unit_Ok. intros d Hin. by apply Hdep, Hf.
Qed.

Lemma check_phases_decides c ix :
  described (signature <$> phases c) ix ->
  decides (forall p, p ∈ phases c -> phase_sound c p) (map_err reject (foldM (check_phase ix) tt (phases c))).
Proof.
  intros Hd. apply decides_map_err. rewrite is_ok_spec. setoid_rewrite foldM_unit_Ok.
  setoid_rewrite check_phase_Ok; [|done]. naive_solver.
Qed.

Lemma phases_sound_known c : (forall p, p ∈ phases c -> phase_sound c p) -> forall x y, dep c x y -> y ∈ names c /\ y <> x.
Proof. intros H x y (p & Hp & <- & Hy). by apply (H p Hp). Qed.

(** The order [from_config] computes. *)
Definition phase_order (c : WorkflowConfig) (order : list str) : Prop :=
  exists ix, build_index c = Ok ix /\ ordered_phases c (phase_indices ix) = Ok order.

Definition schedule (c : WorkflowConfig) (order : list str) : Prop := order ≡ₚ names c /\ topological c order.

Lemma named_phases_names c : named_phases (phases c) <-> named (names c) (all_tasks_of (phases c)) /\ forall p, p ∈ phases c -> tasks p <> [].
Proof.
  unfold named_phases, named_of, all_tasks_of, names. rewrite <-list_fmap_compose.
  assert ((signature <$> phases c) ≫= snd = phases c ≫= tasks) as ->; [|done].
  induction (phases c) as [|p ps IH]; [done|]. rewrite fmap_cons, !bind_cons. by rewrite IH.
Qed.

Lemma tc_dep_known c x y : tc (dep c) x y -> x ∈ names c.
Proof. by destruct 1 as [x y (p & Hp & <- & _)|x y z (p & Hp & <- & _) _]; apply list_elem_of_fmap_2. Qed.

Lemma phase_order_schedule c order :
  NoDup (names c) -> (forall x y, dep c x y -> y ∈ names c) -> phase_order c order ->
  schedule c order /\ (forall x, ~ tc (dep c) x x).
Proof.
  intros Hnd Hk (ix & Hix & Ho). pose proof (build_index_spec c) as Hb. rewrite Hix in Hb. destruct Hb as [_ Hd].
  pose proof (ordered_phases_ok c (phase_indices ix) (indexed c ix Hd) Hk) as H. rewrite Ho in H.
  destruct H as (Hno & Ht & Hall). split; [split; [by apply NoDup_Permutation|done]|].
  intros x Hx. apply (topological_acyclic c order x Ht Hno); [|done]. apply Hall. by eapply tc_dep_known.
Qed.

Lemma checked_order c ix :
  build_index c = Ok ix -> (forall p, p ∈ phases c -> phase_sound c p) -> 
  decides (forall x, ~ tc (dep c) x x) (ordered_phases c (phase_indices ix)) /\
  forall order, ordered_phases c (phase_indices ix) = Ok order ->
    phase_order c order /\ NoDup order /\ forall n, n ∈ order <-> n ∈ names c.
Proof.
  intros Hix Hs. pose proof (build_index_spec c) as Hb. rewrite Hix in Hb. destruct Hb as [Hn Hd].
  apply named_phases_names in Hn as [Hn _]. destruct Hn as [[Hnd _] _ _].
  assert (Hk : forall x y, dep c x y -> y ∈ names c) by (intros x y H; by destruct (phases_sound_known c Hs x y H)).
  pose proof (ordered_phases_ok c (phase_indices ix) (indexed c ix Hd) Hk) as H. split.
  - destruct (ordered_phases c (phase_indices ix)) as [order|[]] eqn:E; [|naive_solver|done..].
    cbn. eapply (phase_order_schedule c order); [done|done|by exists ix].
  - intros order E. rewrite E in H. split; [by exists ix|naive_solver].
Qed.

Lemma from_config_decides c :
  decides (valid c /\ exists order, phase_order c order /\ available c order) (from_config c).
Proof.
  unfold from_config. eapply decides_iff; cycle 1.
  { apply (decides_bind (nonblank (goal c))
      (1 <= max_concurrent c <= 20 /\ phases c <> [] /\ named_phases (phases c) /\
       (forall p, p ∈ phases c -> phase_sound c p) /\ (forall x, ~ tc (dep c) x x) /\
       (exists order, phase_order c order /\ available c order) /\ True)%Z).
    { apply decides_map_err. rewrite is_ok_spec. rewrite <-(validate_non_empty_Ok $"workflow goal").
      split; [eauto|by intros [[] ?]]. }
    intros [] _ _. apply decides_bind.
    { apply decides_reject. rewrite negb_false_iff, andb_true_iff. lia. }
    intros [] _ _. apply decides_bind; [apply decides_reject; by rewrite bool_decide_eq_false|].
    intros [] _ _. apply decides_bind.
    { pose proof (build_index_spec c) as H. destruct (build_index c); cbn; tauto. }
    intros ix Hnamed Hix. pose proof (build_index_spec c) as Hb.
    destruct (build_index c) as [ix'|e] eqn:Eix; [|done]. injection Hix as ->. destruct Hb as [_ Hd].
    apply decides_bind; [by apply check_phases_decides|].
    intros [] Hs _. destruct (checked_order c ix Eix Hs) as [Hdec Hord]. apply decides_bind; [done|].
    intros order _ Ho. destruct (Hord order Ho) as (Hpo & Hnd & Hin). apply decides_bind.
    { eapply decides_iff; [|by apply (check_results_decides c ix order Hd)].
      split; [by exists order|]. intros (o & (ix' & Hix' & Ho') & Ha). by assert (order = o) as -> by congruence. }
    intros [] _ _. destruct (collect_plans_ok c (phase_indices ix) order (indexed c ix Hd)) as (ps & -> & _); [|done].
    intros n. by apply Hin. }
  rewrite named_phases_names. split.
  - intros (Hg & Hc & Hp & [Hn Ht] & Hs & Ha & Ho & _). split; [|done].
    constructor; [done|done|by split|done|by apply phases_sound_known|done|]. intros p Hp'. by apply (Hs p Hp').
  - intros [[Hg Hc [Hp Ht] Hn Hk Ha Hw] Ho]. split_and!; try first [done|lia].
    intros p Hp'. split; [|by apply Hw]. intros d Hd. apply (Hk (name p)). by exists p.
Qed.

Lemma from_config_Ok c plan :
  from_config c = Ok plan ->
  exists order ps, phase_order c order /\ name <$> ps = order /\ ps ≡ₚ phases c /\
    plan = {| plan_goal := goal c; plan_max_concurrent := max_concurrent c; plan_phases := plan_of <$> ps |}.
Proof.
  intros H. pose proof (from_config_decides c) as Hd. rewrite H in Hd. destruct Hd as [Hv _].
  unfold from_config in H. apply bind_Ok in H as ([] & _ & H). apply bind_Ok in H as ([] & _ & H).
  apply bind_Ok in H as ([] & _ & H). apply bind_Ok in H as (ix & Hix%map_err_Ok & H). apply bind_Ok in H as ([] & _ & H).
  apply bind_Ok in H as (order & Ho & H). apply bind_Ok in H as ([] & _ & H). apply bind_Ok in H as (plans & Hp & [= <-]).
  assert (Hpo : phase_order c order) by by exists ix.
  pose proof (build_index_spec c) as Hb. rewrite Hix in Hb. destruct Hb as [_ Hd].
  destruct (va_named _ Hv) as [[Hnd _] _ _].
  destruct (phase_order_schedule c order Hnd) as [[Hperm _] _]; [apply Hv|done|].
  destruct (collect_plans_ok c (phase_indices ix) order (indexed c ix Hd)) as (ps & Hc & Hn & Hin).
  { intros n. by rewrite Hperm. }
  exists order, ps. split_and!; [done|done| |by rewrite Hp in Hc; simplify_eq].
  apply NoDup_names_Permutation; [by rewrite Hn, Hperm|done|done|].
  intros q Hq. rewrite Hn, Hperm. by apply list_elem_of_fmap_2.
Qed.

(** *** Where a cycle error comes from *)

Definition cycle_free {A} (m : result WorkflowValidationError A) : Prop := forall p, m <> Err (PhaseDependencyCycle p).

Lemma cycle_free_bind {A B} (m : result WorkflowValidationError A) (k : A -> result WorkflowValidationError B) :
  cycle_free m -> (forall a, cycle_free (k a)) -> cycle_free (m ≫= k).
Proof. unfold cycle_free. intros Hm Hk p. destruct m; cbn; [apply Hk|]. specialize (Hm p). congruence. Qed.

Lemma cycle_free_foldM {S X} (f : S -> X -> result WorkflowValidationError S) s xs :
  (forall s x, cycle_free (f s x)) -> cycle_free (foldM f s xs).
Proof. intros H. revert s. induction xs as [|x xs IH]; intros s; cbn; [done|]. by apply cycle_free_bind. Qed.

Lemma cycle_free_reject b e : (forall p, e <> PhaseDependencyCycle p) -> cycle_free (reject_if b e).
Proof. intros H p. destruct b; cbn; [|done]. intros [= ->]. by apply (H p). Qed.

Lemma cycle_free_non_empty field v : cycle_free (validate_non_empty field v).
Proof. by apply cycle_free_reject. Qed.

Lemma cycle_free_index c : cycle_free (build_index c).
Proof.
  apply cycle_free_foldM. intros ix [i p]. unfold index_phase.
  apply cycle_free_bind; [apply cycle_free_non_empty|intros _]. apply cycle_free_bind; [by apply cycle_free_reject|intros _].
  destruct (phase_indices ix !! name p); [done|]. apply cycle_free_foldM. intros ix' t. unfold index_task.
  do 2 (apply cycle_free_bind; [apply cycle_free_non_empty|intros _]). by destruct (all_tasks ix' !! task_id t).
Qed.

Lemma cycle_free_check_phase ix p : cycle_free (check_phase ix tt p).
Proof.
  apply cycle_free_bind; [apply cycle_free_foldM; intros; by apply cycle_free_reject|intros _].
  unfold validate_parallel_write_scope. destruct (parallel p); [|done]. cbn [negb].
  destruct (Prelude.find (fun t => bool_decide (file_scope t = [])) (retain is_writer (tasks p))); [done|].
  induction (retain is_writer (tasks p)) as [|w ws IH]; cbn; [done|].
  by destruct (Prelude.find (fun other => scopes_overlap (file_scope w) (file_scope other)) ws).
Qed.

Lemma check_results_cycle_free ix order ps p : foldM (check_results ix order) tt ps <> Err (Rejected (PhaseDependencyCycle p)).
Proof.
  assert (H : forall X (f : unit -> X -> result plan_error unit) xs,
    (forall u x, f u x <> Err (Rejected (PhaseDependencyCycle p))) -> foldM f tt xs <> Err (Rejected (PhaseDependencyCycle p))).
  { intros X f xs Hf. induction xs as [|x xs IH]; [done|]. cbn. pose proof (Hf tt x). by destruct (f tt x) as [[]|]. }
  apply H. intros u q. apply H. intros u1 t. apply H. intros u2 d. unfold check_result_dependency.
  destruct (task_phase ix !! d) as [n|]; [|done]. destruct (order !! n), (order !! name q); try done. cbn.
  by destruct (_ <=? _)%nat.
Qed.

Lemma cycle_error c p : from_config c = Err (Rejected (PhaseDependencyCycle p)) -> tc (dep c) p p.
Proof.
  assert (Hmap : forall A (m : result WorkflowValidationError A), cycle_free m ->
    map_err reject m <> Err (Rejected (PhaseDependencyCycle p))).
  { intros A m Hm. destruct m as [a|e]; [done|]. cbn. intros [= ->]. by apply (Hm p). }
  unfold from_config. intros [H|([] & _ & H)]%bind_Err; [by apply Hmap in H; [|apply cycle_free_non_empty]|].
  apply bind_Err in H as [H|([] & _ & H)]; [by apply reject_if_Err in H as [_ H]|].
  apply bind_Err in H as [H|([] & _ & H)]; [by apply reject_if_Err in H as [_ H]|].
  apply bind_Err in H as [H|(ix & Hix%map_err_Ok & H)]; [by apply Hmap in H; [|apply cycle_free_index]|].
  apply bind_Err in H as [H|([] & Hs%map_err_Ok & H)].
  { apply Hmap in H; [done|]. apply cycle_free_foldM. intros [] q. apply cycle_free_check_phase. }
  pose proof (build_index_spec c) as Hb. rewrite Hix in Hb. destruct Hb as [_ Hd].
  assert (Hk : forall x y, dep c x y -> y ∈ names c).
  { intros x y Hxy. apply (phases_sound_known c) in Hxy; [tauto|]. intros q Hq. apply (check_phase_Ok c ix); [done|].
    by eapply foldM_unit_Ok. }
  apply bind_Err in H as [H|(order & Ho & H)].
  - pose proof (ordered_phases_ok c (phase_indices ix) (indexed c ix Hd) Hk) as Hok. rewrite H in Hok.
    by destruct Hok as (q & [= ->] & Hq).
  - apply bind_Err in H as [H|([] & _ & H)]; [by apply check_results_cycle_free in H|].
    apply bind_Err in H as [H|(plans & _ & H)]; [|done]. exfalso.
    pose proof (ordered_phases_ok c (phase_indices ix) (indexed c ix Hd) Hk) as Hok. rewrite Ho in Hok.
    destruct (collect_plans_ok c (phase_indices ix) order (indexed c ix Hd)) as (ps & Hc & _); [naive_solver|congruence].
Qed.

(** C28: an accepted plan is a schedule.  It has every phase of the
    configuration once, with its tasks and policies unchanged; every phase comes
    after the phases it depends on; every result a task waits for is of a task
    of an earlier phase; and the configuration was valid. *)
Theorem accepted_plan_is_a_schedule c plan :
  from_config c = Ok plan ->
  valid c /\ plan_goal plan = goal c /\ plan_max_concurrent plan = max_concurrent c /\
  plan_phases plan ≡ₚ plan_of <$> phases c /\
  schedule c (phase_names plan) /\ available c (phase_names plan).
Proof.
  intros H. pose proof (from_config_decides c) as Hd. rewrite H in Hd. destruct Hd as [Hv (o & Ho & Ha)].
  destruct (from_config_Ok c plan H) as (order & ps & Hpo & Hn & Hperm & ->).
  assert (o = order) as -> by (destruct Ho as (ix & Hix & Ho), Hpo as (ix' & Hix' & Hpo); congruence).
  assert (Hnames : phase_names {| plan_goal := goal c; plan_max_concurrent := max_concurrent c; plan_phases := plan_of <$> ps |} = order).
  { unfold phase_names. cbn. rewrite <-list_fmap_compose. exact Hn. }
  rewrite Hnames. destruct (va_named _ Hv) as [[Hnd _] _ _].
  destruct (phase_order_schedule c order Hnd) as [Hs _]; [apply Hv|done|]. cbn. split_and!; try done. by rewrite Hperm.
Qed.

(** compilation rejects only what it should, and with an error of the code:
    it never indexes out of range and its recursion ends.  A rejected
    configuration is invalid, or a task waits for a result that its order of
    the phases does not make available; and a reported cycle is one. *)
Theorem rejection_is_justified c :
  match from_config c with
  | Ok _ => valid c
  | Err (Rejected e) =>
      (valid c -> exists order, schedule c order /\ ~ available c order) /\
      (forall p, e = PhaseDependencyCycle p -> tc (dep c) p p)
  | Err _ => False
  end.
Proof.
  pose proof (from_config_decides c) as Hd. destruct (from_config c) as [plan|[e| |]] eqn:E; cbn in Hd; [tauto| |done..].
  split.
  - intros Hv. pose proof (build_index_spec c) as Hb. pose proof (va_named _ Hv) as Hn.
    assert (Hnp : named_phases (phases c)) by (apply named_phases_names; split; [done|apply Hv]).
    destruct (build_index c) as [ix|] eqn:Eix; [|tauto]. destruct Hb as [_ Hdesc].
    assert (Hk : forall x y, dep c x y -> y ∈ names c) by apply Hv.
    pose proof (ordered_phases_complete c (phase_indices ix) (indexed c ix Hdesc) Hk (va_acyclic _ Hv)) as Ho.
    apply is_ok_spec in Ho as [order Ho]. assert (Hpo : phase_order c order) by by exists ix. exists order.
    split; [|intros Ha; apply Hd; split; [done|by exists order]].
    destruct Hn as [[Hnd _] _ _]. by destruct (phase_order_schedule c order Hnd Hk Hpo).
  - intros p ->. by apply cycle_error.
Qed.

Lemma listed_phase_order c : valid c -> topological c (names c) -> phase_order c (names c).
Proof.
  intros Hv Ht. pose proof (build_index_spec c) as Hb. pose proof (va_named _ Hv) as Hn.
  assert (Hnp : named_phases (phases c)) by (apply named_phases_names; split; [done|apply Hv]).
  destruct (build_index c) as [ix|] eqn:Eix; [|tauto]. destruct Hb as [_ Hdesc].
  exists ix. split; [done|]. destruct Hn as [[Hnd _] _ _]. apply listed_order_kept; [by apply indexed|apply Hv|done|done].
Qed.

(** phases listed in dependency order keep it.  If every phase of a valid
    configuration is listed after the phases it depends on, compilation accepts
    it exactly when the results are available in the listed order, and the plan
    lists the phases as the configuration does. *)
Theorem listed_order_is_kept c :
  valid c -> topological c (names c) ->
  (available c (names c) ->
     from_config c = Ok {| plan_goal := goal c; plan_max_concurrent := max_concurrent c;
                           plan_phases := plan_of <$> phases c |}) /\
  (~ available c (names c) -> is_ok (from_config c) = false).
Proof.
  intros Hv Ht. pose proof (listed_phase_order c Hv Ht) as Hpo. pose proof (from_config_decides c) as Hd.
  assert (Hdet : forall order, phase_order c order -> order = names c).
  { intros order (ix & Hix & Ho). destruct Hpo as (ix' & Hix' & Ho'). congruence. }
  split.
  - intros Ha. destruct (from_config c) as [plan|[e| |]] eqn:E; [|exfalso; apply Hd; eauto|done..].
    destruct (from_config_Ok c plan E) as (order & ps & Ho%Hdet & Hn & Hperm & ->). do 3 f_equal.
    rewrite Ho in Hn. destruct (va_named _ Hv) as [[Hnd _] _ _]. by apply NoDup_names_eq.
  - intros Hna. destruct (from_config c) as [plan|e] eqn:E; [|done]. exfalso.
    destruct Hd as [_ (order & Ho%Hdet & Ha)]. by subst.
Qed.

(** C29: parallel writers stay apart.  In an accepted plan, no path is in the
    concrete write scopes of two different tasks of a parallel phase that may
    write, and each of them declares a scope. *)
Theorem parallel_writers_stay_apart c plan p i j t u :
  from_config c = Ok plan -> p ∈ plan_phases plan -> plan_parallel p = true ->
  i <> j -> plan_tasks p !! i = Some t -> plan_tasks p !! j = Some u ->
  mode t = ReadWrite -> mode u = ReadWrite ->
  Forall concrete (file_scope t) -> Forall concrete (file_scope u) ->
  file_scope t <> [] /\ file_scope u <> [] /\
  forall path, ~ (in_scopes (file_scope t) path /\ in_scopes (file_scope u) path).
Proof.
  intros H Hp Hpar Hij Ht Hu Hmt Hmu Hct Hcu. pose proof (from_config_decides c) as Hd. rewrite H in Hd.
  destruct Hd as [Hv _]. destruct (from_config_Ok c plan H) as (order & ps & _ & _ & Hperm & ->). cbn in Hp.
  apply list_elem_of_fmap in Hp as (q & -> & Hq). rewrite Hperm in Hq. cbn in Hpar, Ht, Hu.
  destruct (va_writers _ Hv q Hq Hpar) as [Hscope Hapart]. split_and!.
  - apply Hscope; [by eapply list_elem_of_lookup_2|done].
  - apply Hscope; [by eapply list_elem_of_lookup_2|done].
  - intros path Hpath. specialize (Hapart i j t u Hij Ht Hu Hmt Hmu).
    assert (scopes_overlap (file_scope t) (file_scope u) = true); [|congruence].
    apply scopes_overlap_spec; [done|done|by exists path].
Qed.

(** ** Examples *)

Definition task_of (id : str) (m : TaskMode) (scope waits : list str) : Task :=
  {| task_id := id; prompt := $"run it"; agent_type := General; mode := m; isolation := Auto; file_scope := scope;
     depends_on_results := waits; max_steps := None; timeout_secs := None |}.

Definition phase_of (n : str) (deps : list str) (par : bool) (ts : list Task) : Phase :=
  {| name := n; description := None; depends_on := deps; parallel := par; on_failure := SkipContinue; tasks := ts |}.

Definition config_of (ps : list Phase) : WorkflowConfig :=
  {| goal := $"ship"; max_concurrent := 4; config_description := None; phases := ps |}.

(** Two parallel writers, listed before the scouting they depend on. *)
Definition two_writers (left right : str) : WorkflowConfig :=
  config_of [phase_of $"implement" [$"scout"] true
               [task_of $"one" ReadWrite [left] [$"find"]; task_of $"two" ReadWrite [right] []];
             phase_of $"scout" [] false [task_of $"find" ReadOnly [] []]].

Definition reordered (c : WorkflowConfig) : WorkflowPlan :=
  {| plan_goal := goal c; plan_max_concurrent := max_concurrent c; plan_phases := plan_of <$> reverse (phases c) |}.

Lemma accepted_plan_is_a_schedule_witness :
  let c := two_writers $"src/auth/**" $"./src/ui/" in
  let plan := reordered c in
  valid c /\ plan_goal plan = goal c /\ plan_max_concurrent plan = max_concurrent c /\
  plan_phases plan ≡ₚ plan_of <$> phases c /\
  schedule c (phase_names plan) /\ available c (phase_names plan).
Proof. apply accepted_plan_is_a_schedule. vm_compute. reflexivity. Defined.

Lemma parallel_writers_stay_apart_witness :
  let t := task_of $"one" ReadWrite [$"src/auth/**"] [$"find"] in
  let u := task_of $"two" ReadWrite [$"./src/ui/"] [] in
  file_scope t <> [] /\ file_scope u <> [] /\
  forall path, ~ (in_scopes (file_scope t) path /\ in_scopes (file_scope u) path).
Proof.
  cbn zeta. apply (parallel_writers_stay_apart (two_writers $"src/auth/**" $"./src/ui/")
    (reordered (two_writers $"src/auth/**" $"./src/ui/"))
    (plan_of (phase_of $"implement" [$"scout"] true
       [task_of $"one" ReadWrite [$"src/auth/**"] [$"find"]; task_of $"two" ReadWrite [$"./src/ui/"] []])) 0 1).
  - vm_compute. reflexivity.
  - apply list_elem_of_further, list_elem_of_here.
  - reflexivity.
  - discriminate.
  - reflexivity.
  - reflexivity.
  - reflexivity.
  - reflexivity.
  - constructor; [vm_compute; reflexivity|constructor].
  - constructor; [vm_compute; reflexivity|constructor].
Defined.

Definition in_order : WorkflowConfig :=
  config_of [phase_of $"scout" [] false [task_of $"find" ReadOnly [] []];
             phase_of $"report" [$"scout"] false [task_of $"write up" ReadOnly [] [$"find"]]].

Lemma in_order_topological : topological in_order (names in_order).
Proof.
  change (names in_order) with (([] ++ [$"scout"]) ++ [$"report"]).
  assert (Hdep : forall x y, dep in_order x y -> x = $"report" /\ y = $"scout").
  { intros x y (p & Hp & <- & Hy). repeat (apply elem_of_cons in Hp as [->|Hp]); cbn in Hy; [by apply not_elem_of_nil in Hy|
      |by apply not_elem_of_nil in Hp]. by apply list_elem_of_singleton in Hy as ->. }
  apply topological_snoc; [apply topological_snoc; [apply topological_nil|]|].
  - intros y [H _]%Hdep. by vm_compute in H.
  - intros y [_ ->]%Hdep. by left.
Qed.

Lemma listed_order_is_kept_witness :
  (available in_order (names in_order) ->
     from_config in_order = Ok {| plan_goal := goal in_order; plan_max_concurrent := max_concurrent in_order;
                                  plan_phases := plan_of <$> phases in_order |}) /\
  (~ available in_order (names in_order) -> is_ok (from_config in_order) = false).
Proof.
  apply listed_order_is_kept; [|exact in_order_topological].
  assert (H : decides (valid in_order /\ exists order, phase_order in_order order /\ available in_order order) (from_config in_order))
    by apply from_config_decides.
  vm_compute (from_config in_order) in H. exact (proj1 H).
Defined.

(** glob scopes can collide.  The overlap test compares a scope with a star
    by equality of the parts before the star, so parallel writers of [src/*.rs]
    and of [src/lib.rs] are accepted, and the star alone overlaps nothing
    else. *)
Theorem glob_overlap_is_missed :
  is_ok (from_config (two_writers $"src/*.rs" $"src/lib.rs")) = true /\
  is_ok (from_config (two_writers $"*" $"src")) = true /\
  is_ok (from_config (two_writers $"src/*" $"src/lib.rs")) = false.
Proof. by vm_compute. Qed.
