(* ===== verification/WorkflowRoles.v ===== *)
(** * Fleet roles of workflow steps

    [crates/workflow/src/role_resolve.rs]: role tokens, the map from roles to
    agent profiles, and the resolution of a step's identity. *)

From S2P Require Import Text.

Record FleetRoleMap := { roles : gmap str str }.

Definition new_roles : FleetRoleMap := {| roles := ∅ |}.

Inductive RouteSource := ExplicitProfile | FleetRole | RoleAsProfile.

Definition route_source_str (s : RouteSource) : str :=
  match s with
  | ExplicitProfile => $"explicit_profile"
  | FleetRole => $"fleet_role"
  | RoleAsProfile => $"role_as_profile"
  end.

Record ResolvedWorkflowAgent := {
  resolved_role : option str; resolved_profile : str; route_source : RouteSource }.

Inductive FleetRoleResolveError :=
| EmptyRole
| EmptyProfile
| UnknownRole (role known : str)
| MissingRoleOrProfile
| InvalidRoleToken (role : str).

(** Whitespace, quotes, backticks and [=] do not belong in a token. *)
Definition bad_token_char (c : char) : bool :=
  is_whitespace c || bool_decide (c ∈ [34%N; chr "'"; chr "`"; chr "="]).

Definition normalize_token (raw : str) : option str :=
  let trimmed := trim raw in
  if str_is_empty trimmed then None
  else if existsb bad_token_char trimmed then None
  else Some (to_ascii_lowercase trimmed).

Definition insert_role (m : FleetRoleMap) (role profile : str) : result FleetRoleResolveError FleetRoleMap :=
  role ← ok_or (normalize_token role) EmptyRole;
  profile ← ok_or (normalize_token profile) EmptyProfile;
  Ok {| roles := <[role := profile]> (roles m) |}.

Definition from_pairs (pairs : list (str * str)) : result FleetRoleResolveError FleetRoleMap :=
  foldM (fun m p => insert_role m p.1 p.2) new_roles pairs.

Definition get_role (m : FleetRoleMap) (role : str) : option str :=
  key ← normalize_token role;
  roles m !! key.

Definition contains_role (m : FleetRoleMap) (role : str) : bool := bool_decide (is_Some (get_role m role)).

Definition validate_role_token (role : str) : result FleetRoleResolveError str :=
  ok_or (normalize_token role) (InvalidRoleToken role).

(** The keys in their order. *)
Definition known_roles (m : FleetRoleMap) : str :=
  if bool_decide (roles m = ∅) then $"(none)"
  else join $", " (stable_sort str_le (map_to_list (roles m)).*1).

Definition validate_optional (token : option str) : result FleetRoleResolveError (option str) :=
  match token with
  | Some raw => Some <$> validate_role_token raw
  | None => Ok None
  end.

Definition resolve_workflow_agent (role profile : option str) (fleet : FleetRoleMap) (require_known_role : bool)
  : result FleetRoleResolveError ResolvedWorkflowAgent :=
  role_norm ← validate_optional role;
  profile_norm ← validate_optional profile;
  match profile_norm with
  | Some p => Ok {| resolved_role := role_norm; resolved_profile := p; route_source := ExplicitProfile |}
  | None =>
      role_name ← ok_or role_norm MissingRoleOrProfile;
      match get_role fleet role_name with
      | Some mapped =>
          Ok {| resolved_role := Some role_name; resolved_profile := mapped; route_source := FleetRole |}
      | None =>
          reject_if require_known_role (UnknownRole role_name (known_roles fleet));;
          Ok {| resolved_role := Some role_name; resolved_profile := role_name; route_source := RoleAsProfile |}
      end
  end.

(** * Properties of fleet roles

    A normalized token is a fixed point of normalization, so the roster built
    from pairs is looked up by what its roles normalize to; the resolution of
    a step follows the declared precedence. *)

(** ** Tokens *)

Definition token_ok (s : str) : Prop := s <> [] /\ existsb bad_token_char s = false /\ to_ascii_lowercase s = s.

Lemma trim_clean s : existsb bad_token_char s = false -> trim s = s.
Proof.
  assert (Hstart : forall s, existsb bad_token_char s = false -> trim_start s = s).
  { intros [|c t]; [done|]. cbn. rewrite orb_false_iff. intros [Hc _]. unfold bad_token_char in Hc.
    apply orb_false_iff in Hc as [Hc _]. unfold trim_start. cbn. by rewrite Hc. }
  intros H. unfold trim, trim_end. rewrite (Hstart s H), Hstart, rev_involutive; [done|].
  apply not_true_iff_false. intros (c & Hin%in_rev & Hc)%existsb_exists.
  apply not_true_iff_false in H. apply H, existsb_exists. by exists c.
Qed.

Lemma lowercase_bad c : bad_token_char (char_to_ascii_lowercase c) = bad_token_char c.
Proof.
  unfold bad_token_char. rewrite is_whitespace_lower. f_equal. unfold char_to_ascii_lowercase.
  destruct (is_ascii_uppercase c) eqn:E; [|done]. unfold is_ascii_uppercase in E.
  apply andb_true_iff in E as [E1%N.leb_le E2%N.leb_le].
  rewrite !bool_decide_eq_false_2; [done|..]; rewrite !elem_of_cons, elem_of_nil; unfold chr; cbn; lia.
Qed.

Lemma lowercase_clean s : existsb bad_token_char (to_ascii_lowercase s) = existsb bad_token_char s.
Proof. induction s as [|c s IH]; [done|]. cbn. by rewrite lowercase_bad, <-IH. Qed.

(** What normalization yields: clean tokens, its fixed points. *)
Lemma normalize_token_ok raw t : normalize_token raw = Some t -> token_ok t.
Proof.
  unfold normalize_token. destruct (str_is_empty _) eqn:Ee; [done|]. destruct (existsb _ _) eqn:Eb; [done|].
  intros [= <-]. split_and!.
  - by destruct (trim raw).
  - by rewrite lowercase_clean.
  - apply to_ascii_lowercase_idem.
Qed.

Lemma normalize_token_fixed t : token_ok t -> normalize_token t = Some t.
Proof.
  intros (Hne & Hb & Hl). unfold normalize_token. rewrite trim_clean by done.
  destruct (str_is_empty t) eqn:E; [by destruct t|]. by rewrite Hb, Hl.
Qed.

Lemma normalize_token_idem raw t : normalize_token raw = Some t -> normalize_token t = Some t.
Proof. intros H. by eapply normalize_token_fixed, normalize_token_ok. Qed.

(** ** The roster *)

(** The profile the last pair for the role [r] binds. *)
Definition bound (pairs : list (str * str)) (r : str) : option str :=
  p ← Prelude.find (fun p => bool_decide (normalize_token p.1 = Some r)) (reverse pairs);
  normalize_token p.2.

Lemma bound_snoc pairs p r :
  bound (pairs ++ [p]) r = if bool_decide (normalize_token p.1 = Some r) then normalize_token p.2 else bound pairs r.
Proof. unfold bound. rewrite reverse_snoc. cbn. by case_bool_decide. Qed.

Lemma from_pairs_roles pairs fleet r : from_pairs pairs = Ok fleet -> roles fleet !! r = bound pairs r.
Proof.
  unfold from_pairs. revert fleet. induction pairs as [|p pairs IH] using rev_ind; intros fleet.
  - intros [= <-]. apply lookup_empty.
  - rewrite foldM_app. intros (m & Hm & H)%bind_Ok. cbn in H. apply bind_Ok in H as (m' & H & [= <-]).
    unfold insert_role in H. apply bind_Ok in H as (role & Hr%ok_or_Ok & H).
    apply bind_Ok in H as (profile & Hp%ok_or_Ok & [= <-]). cbn [roles]. rewrite bound_snoc, Hr, Hp.
    case_bool_decide as E; [injection E as ->; apply lookup_insert_eq|]. rewrite lookup_insert_ne by congruence. auto.
Qed.

Lemma bound_ok pairs r p : bound pairs r = Some p -> token_ok p.
Proof. unfold bound. intros (pr & _ & H)%bind_Some. by eapply normalize_token_ok. Qed.

(** ** Resolution *)

Definition malformed (token : option str) : Prop := exists raw, token = Some raw /\ normalize_token raw = None.

(** The declared precedence: an explicit profile, the roster's profile for the
    role, the role itself. *)
Inductive resolves (pairs : list (str * str)) (role profile : option str) (strict : bool)
  : result FleetRoleResolveError ResolvedWorkflowAgent -> Prop :=
| bad_role raw :
    role = Some raw -> normalize_token raw = None -> resolves pairs role profile strict (Err (InvalidRoleToken raw))
| bad_profile raw :
    ~ malformed role -> profile = Some raw -> normalize_token raw = None ->
    resolves pairs role profile strict (Err (InvalidRoleToken raw))
| explicit raw p :
    ~ malformed role -> profile = Some raw -> normalize_token raw = Some p ->
    resolves pairs role profile strict
      (Ok {| resolved_role := role ≫= normalize_token; resolved_profile := p; route_source := ExplicitProfile |})
| no_identity : role = None -> profile = None -> resolves pairs role profile strict (Err MissingRoleOrProfile)
| from_roster raw r p :
    role = Some raw -> profile = None -> normalize_token raw = Some r -> bound pairs r = Some p ->
    resolves pairs role profile strict
      (Ok {| resolved_role := Some r; resolved_profile := p; route_source := FleetRole |})
| unknown_role raw r known :
    role = Some raw -> profile = None -> normalize_token raw = Some r -> bound pairs r = None -> strict = true ->
    resolves pairs role profile strict (Err (UnknownRole r known))
| role_as_profile raw r :
    role = Some raw -> profile = None -> normalize_token raw = Some r -> bound pairs r = None -> strict = false ->
    resolves pairs role profile strict
      (Ok {| resolved_role := Some r; resolved_profile := r; route_source := RoleAsProfile |}).

(** a step's identity follows the precedence.  Against a roster built from
    pairs, a step resolves to its explicit profile if it has one, else to the
    profile of the last pair whose role is the step's after trimming and
    lowercasing, else, unless roles must be known, to its role; malformed tokens
    and a step with neither are errors; and the profile a step resolves to is
    a token that normalization keeps. *)
Theorem role_resolution_follows_precedence pairs fleet role profile strict :
  from_pairs pairs = Ok fleet ->
  resolves pairs role profile strict (resolve_workflow_agent role profile fleet strict) /\
  (forall a, resolve_workflow_agent role profile fleet strict = Ok a ->
     normalize_token (resolved_profile a) = Some (resolved_profile a)).
Proof.
  intros Hf. assert (H : resolves pairs role profile strict (resolve_workflow_agent role profile fleet strict)).
  { unfold resolve_workflow_agent, validate_optional, validate_role_token, ok_or. destruct role as [raw|]; cbn.
    - destruct (normalize_token raw) as [r|] eqn:Er; cbn; [|by eapply bad_role].
      assert (Hm : ~ malformed (Some raw)) by (intros (? & [= <-] & ?); congruence).
      destruct profile as [rawp|]; cbn.
      + destruct (normalize_token rawp) as [p|] eqn:Ep; cbn; [|by eapply bad_profile].
        rewrite <-Er. by eapply (explicit pairs (Some raw)).
      + unfold get_role. rewrite (normalize_token_idem _ _ Er). cbn. rewrite (from_pairs_roles _ _ _ Hf).
        destruct (bound pairs r) as [p|] eqn:Eb; cbn; [by eapply from_roster|].
        destruct strict; cbn; [by eapply unknown_role|by eapply role_as_profile].
    - assert (Hm : ~ malformed None) by (by intros (? & ? & ?)). destruct profile as [rawp|]; cbn; [|by apply no_identity].
      destruct (normalize_token rawp) as [p|] eqn:Ep; cbn; [|by eapply bad_profile].
      by eapply (explicit pairs None). }
  split; [done|]. intros a Ha. rewrite Ha in H. inversion H; subst; cbn.
  - by eapply normalize_token_idem.
  - by eapply normalize_token_fixed, bound_ok.
  - by eapply normalize_token_idem.
Qed.

Lemma role_resolution_follows_precedence_witness :
  let pairs := [($"Implementer", $"builder"); ($" scout ", $"Scout-2")] in
  match from_pairs pairs with
  | Ok fleet => resolves pairs (Some $" SCOUT") None true (resolve_workflow_agent (Some $" SCOUT") None fleet true)
  | Err _ => False
  end.
Proof.
  cbn zeta. destruct (from_pairs _) as [fleet|e] eqn:E; [|vm_compute in E; discriminate].
  apply (role_resolution_follows_precedence _ fleet _ _ _ E).
Defined.

Example scout_resolves :
  (fleet ← from_pairs [($"Implementer", $"builder"); ($" scout ", $"Scout-2")];
   resolve_workflow_agent (Some $" SCOUT") None fleet true) =
  Ok {| resolved_role := Some $"scout"; resolved_profile := $"scout-2"; route_source := FleetRole |}.
Proof. vm_compute. reflexivity. Qed.
