(* ===== verification/WorkflowIr.v ===== *)
(** * Workflow node trees

    [crates/workflow/src/lib.rs]: the workflow specification with its tree of
    nodes, the validation of identifiers and references, and the estimate of
    the agents a fleet would launch.  The node types that contain nodes are
    records over the type of their children. *)

From S2P Require Import Text.
From S2P Require Export WorkflowRoles Gates WorkflowPlan.

#[local] Set Warnings "-register-all".

(** ** Data *)

Record BudgetSpec := {
  budget_max_steps : option Z; budget_timeout_secs : option Z; max_parallel : option Z; max_tokens : option Z }.

Record PermissionSpec := {
  allow_write : bool; allow_network : bool; deny_all_tools : bool; allowed_tools : list str;
  permission_file_scope : list str }.

Record ModelPolicy := { provider : option str; model : option str; fallback_models : list str }.

Inductive PromotionStrategy := All | FirstSuccess | BestScore | TeacherSelected.

Record PromotionGate := {
  min_score_delta : Z; max_cost_delta_microusd : option Z; require_all_tests_pass : bool;
  reject_policy_violations : bool; reject_stale_replay : bool }.

Record PromotionPolicy := {
  strategy : PromotionStrategy; require_teacher_review : bool; min_successful_branches : option Z;
  promotion_gate : PromotionGate }.

Record LeafSpec := {
  leaf_id : str; leaf_prompt : str; leaf_agent_type : AgentType; leaf_role : option str; leaf_profile : option str;
  leaf_mode : TaskMode; leaf_isolation : IsolationMode; leaf_file_scope : list str;
  leaf_depends_on_results : list str; leaf_budget : BudgetSpec; leaf_permissions : PermissionSpec;
  leaf_model_policy : ModelPolicy }.

Record ReduceSpec := {
  reduce_id : str; inputs : list str; reduce_prompt : str; reduce_model_policy : ModelPolicy }.

Record TeacherReviewSpec := {
  review_id : str; candidates : list str; review_promotion_policy : PromotionPolicy }.

Record BranchSpec (node : Type) := {
  branch_id : str; branch_description : option str; branch_parallel : bool; branch_budget : BudgetSpec;
  branch_permissions : PermissionSpec; branch_model_policy : ModelPolicy; branch_children : list node }.
Arguments branch_id {node}.
Arguments branch_children {node}.
Arguments branch_parallel {node}.
Arguments branch_permissions {node}.

Record SequenceSpec (node : Type) := { sequence_id : str; sequence_children : list node }.
Arguments sequence_id {node}.
Arguments sequence_children {node}.

Record LoopUntilSpec (node : Type) := {
  loop_id : str; loop_condition : str; max_iterations : option Z; loop_children : list node }.
Arguments loop_id {node}.
Arguments max_iterations {node}.
Arguments loop_children {node}.

Record CondSpec (node : Type) := {
  cond_id : str; cond_condition : str; then_nodes : list node; else_nodes : list node }.
Arguments cond_id {node}.
Arguments then_nodes {node}.
Arguments else_nodes {node}.

Record ExpandSpec (node : Type) := {
  expand_id : str; expand_source : str; max_children : option nat; template : option node }.
Arguments expand_id {node}.
Arguments expand_source {node}.
Arguments max_children {node}.
Arguments template {node}.

Inductive WorkflowNode :=
| BranchSet (spec : BranchSpec WorkflowNode)
| Leaf (spec : LeafSpec)
| Sequence (spec : SequenceSpec WorkflowNode)
| Reduce (spec : ReduceSpec)
| TeacherReview (spec : TeacherReviewSpec)
| LoopUntil (spec : LoopUntilSpec WorkflowNode)
| Cond (spec : CondSpec WorkflowNode)
| Expand (spec : ExpandSpec WorkflowNode).

Record WorkflowSpec := {
  spec_id : option str; spec_goal : str; spec_description : option str; spec_budget : BudgetSpec;
  spec_permissions : PermissionSpec; spec_model_policy : ModelPolicy; spec_promotion_policy : PromotionPolicy;
  spec_gates : list GateSpec; spec_nodes : list WorkflowNode }.

Definition node_id (n : WorkflowNode) : str :=
  match n with
  | BranchSet s => branch_id s
  | Leaf s => leaf_id s
  | Sequence s => sequence_id s
  | Reduce s => reduce_id s
  | TeacherReview s => review_id s
  | LoopUntil s => loop_id s
  | Cond s => cond_id s
  | Expand s => expand_id s
  end.

Definition control_kind_name (n : WorkflowNode) : str :=
  match n with
  | BranchSet _ => $"branch_set"
  | Leaf _ => $"leaf"
  | Sequence _ => $"sequence"
  | Reduce _ => $"reduce"
  | TeacherReview _ => $"teacher_review"
  | LoopUntil _ => $"loop_until"
  | Cond _ => $"cond"
  | Expand _ => $"expand"
  end.

(** The children the validation descends into: not the template of an [Expand]. *)
Definition node_children (n : WorkflowNode) : list WorkflowNode :=
  match n with
  | BranchSet s => branch_children s
  | Sequence s => sequence_children s
  | LoopUntil s => loop_children s
  | Cond s => then_nodes s ++ else_nodes s
  | Leaf _ | Reduce _ | TeacherReview _ | Expand _ => []
  end.

(** ** Isolation *)

Definition leaf_is_write_capable (s : LeafSpec) : bool :=
  bool_decide (leaf_mode s = ReadWrite) || allow_write (leaf_permissions s).

Definition leaf_wants_worktree (s : LeafSpec) (parallel : bool) : bool :=
  wants_worktree (leaf_isolation s) (parallel && leaf_is_write_capable s).

(** ** Validation *)

Inductive WorkflowExecutionError :=
| EmptyNodeId (kind : str)
| EmptyLeafPrompt (leaf : str)
| InvalidLeafProfile (leaf profile : str)
| InvalidLeafRole (leaf role : str)
| DuplicateNodeId (node : str)
| UnknownNodeReference (node field reference : str).

Definition validate_leaf_profile (leaf profile : str) : result WorkflowExecutionError unit :=
  reject_if (str_is_empty profile || existsb bad_token_char profile) (InvalidLeafProfile leaf profile).

Definition validate_leaf_role (leaf role : str) : result WorkflowExecutionError unit :=
  reject_if (negb (is_ok (validate_role_token role))) (InvalidLeafRole leaf role).

Definition validate_leaf (s : LeafSpec) : result WorkflowExecutionError unit :=
  reject_if (str_is_empty (trim (leaf_prompt s))) (EmptyLeafPrompt (leaf_id s));;
  match leaf_role s with Some role => validate_leaf_role (leaf_id s) role | None => Ok tt end;;
  match leaf_profile s with Some profile => validate_leaf_profile (leaf_id s) profile | None => Ok tt end.

(** The loop body of [validate_workflow_nodes_inner]. *)
Fixpoint validate_node (seen : gset str) (n : WorkflowNode) : result WorkflowExecutionError (gset str) :=
  reject_if (str_is_empty (trim (node_id n))) (EmptyNodeId (control_kind_name n));;
  reject_if (bool_decide (node_id n ∈ seen)) (DuplicateNodeId (node_id n));;
  let seen := {[node_id n]} ∪ seen in
  match n with
  | BranchSet s => foldM validate_node seen (branch_children s)
  | Leaf s => validate_leaf s;; Ok seen
  | Sequence s => foldM validate_node seen (sequence_children s)
  | LoopUntil s => foldM validate_node seen (loop_children s)
  | Cond s =>
      seen ← foldM validate_node seen (then_nodes s);
      foldM validate_node seen (else_nodes s)
  | Reduce _ | TeacherReview _ | Expand _ => Ok seen
  end.

Definition validate_workflow_nodes_inner (nodes : list WorkflowNode) (seen : gset str)
  : result WorkflowExecutionError (gset str) :=
  foldM validate_node seen nodes.

Definition validate_known_references (node field : str) (references : list str) (known_ids : gset str)
  : result WorkflowExecutionError unit :=
  foldM (fun _ r => reject_if (bool_decide (r ∉ known_ids)) (UnknownNodeReference node field r)) tt references.

(** The loop body of [validate_workflow_references]. *)
Fixpoint validate_node_references (known_ids : gset str) (_ : unit) (n : WorkflowNode)
  : result WorkflowExecutionError unit :=
  match n with
  | BranchSet s => foldM (validate_node_references known_ids) tt (branch_children s)
  | Leaf s => validate_known_references (leaf_id s) $"depends_on_results" (leaf_depends_on_results s) known_ids
  | Sequence s => foldM (validate_node_references known_ids) tt (sequence_children s)
  | Reduce s => validate_known_references (reduce_id s) $"inputs" (inputs s) known_ids
  | TeacherReview s => validate_known_references (review_id s) $"candidates" (candidates s) known_ids
  | LoopUntil s => foldM (validate_node_references known_ids) tt (loop_children s)
  | Cond s =>
      foldM (validate_node_references known_ids) tt (then_nodes s);;
      foldM (validate_node_references known_ids) tt (else_nodes s)
  | Expand _ => Ok tt
  end.

Definition validate_workflow_references (nodes : list WorkflowNode) (known_ids : gset str)
  : result WorkflowExecutionError unit :=
  foldM (validate_node_references known_ids) tt nodes.

Definition validate_workflow_nodes (nodes : list WorkflowNode) : result WorkflowExecutionError unit :=
  seen ← validate_workflow_nodes_inner nodes ∅;
  validate_workflow_references nodes seen.

Definition validate_workflow_node_shapes (nodes : list WorkflowNode) : result WorkflowExecutionError unit :=
  validate_workflow_nodes_inner nodes ∅;; Ok tt.

(** ** The shape of a fleet *)

Definition DEFAULT_FLEET_WORKFLOW_MAX_AGENTS : Z := 1000.
Definition DEFAULT_FLEET_WORKFLOW_MAX_DEPTH : Z := 5.

Record WorkflowFleetLimits := { max_total_agents : Z; limit_max_depth : Z }.

Definition default_limits : WorkflowFleetLimits :=
  {| max_total_agents := DEFAULT_FLEET_WORKFLOW_MAX_AGENTS; limit_max_depth := DEFAULT_FLEET_WORKFLOW_MAX_DEPTH |}.

Record WorkflowFleetShape := { total_agents : Z; max_depth : Z }.

Definition default_shape : WorkflowFleetShape := {| total_agents := 0; max_depth := 0 |}.

Definition shape_add (a b : WorkflowFleetShape) : WorkflowFleetShape :=
  {| total_agents := usize_saturating_add (total_agents a) (total_agents b);
     max_depth := Z.max (max_depth a) (max_depth b) |}.

Definition shape_repeat (a : WorkflowFleetShape) (times : Z) : WorkflowFleetShape :=
  {| total_agents := usize_saturating_mul (total_agents a) times; max_depth := max_depth a |}.

Inductive WorkflowFleetLimitError :=
| InvalidWorkflow (source : WorkflowExecutionError)
| TooManyAgents (total max_total : Z)
| RecursionTooDeep (depth max_depth : Z)
| UnboundedExpand (node : str)
| MissingExpandTemplate (node : str)
| UnboundedLoop (node : str).

(** The depth grows by one per branch set of the recursion, so it stays far
    from the limit of a [usize]. *)
Fixpoint estimate_node_fleet_shape (depth : Z) (n : WorkflowNode) : result WorkflowFleetLimitError WorkflowFleetShape :=
  let at_depth depth nodes :=
    foldM (fun shape n => s ← estimate_node_fleet_shape depth n; Ok (shape_add shape s)) default_shape nodes in
  match n with
  | Leaf _ => Ok {| total_agents := 1; max_depth := depth |}
  | BranchSet s => at_depth (depth + 1) (branch_children s)
  | Sequence s => at_depth depth (sequence_children s)
  | Reduce _ | TeacherReview _ => Ok {| total_agents := 0; max_depth := 0 |}
  | LoopUntil s =>
      iterations ← ok_or (max_iterations s) (UnboundedLoop (loop_id s));
      shape ← at_depth depth (loop_children s);
      Ok (shape_repeat shape (Z.max iterations 1))
  | Cond s =>
      a ← at_depth depth (then_nodes s);
      b ← at_depth depth (else_nodes s);
      Ok (shape_add a b)
  | Expand s =>
      max_children ← ok_or (max_children s) (UnboundedExpand (expand_id s));
      match template s with
      | None => Err (MissingExpandTemplate (expand_id s))
      | Some template =>
          map_err InvalidWorkflow (validate_workflow_node_shapes [template]);;
          shape ← estimate_node_fleet_shape depth template;
          Ok (shape_repeat shape (Z.of_nat max_children))
      end
  end.

Definition estimate_fleet_shape_at_depth (nodes : list WorkflowNode) (depth : Z)
  : result WorkflowFleetLimitError WorkflowFleetShape :=
  foldM (fun shape n => s ← estimate_node_fleet_shape depth n; Ok (shape_add shape s)) default_shape nodes.

Definition estimate_fleet_shape (nodes : list WorkflowNode) : result WorkflowFleetLimitError WorkflowFleetShape :=
  estimate_fleet_shape_at_depth nodes 1.

Definition validate_for_fleet_with_limits (spec : WorkflowSpec) (limits : WorkflowFleetLimits)
  : result WorkflowFleetLimitError WorkflowFleetShape :=
  map_err InvalidWorkflow (validate_workflow_nodes (spec_nodes spec));;
  shape ← estimate_fleet_shape (spec_nodes spec);
  reject_if (max_total_agents limits <? total_agents shape)
    (TooManyAgents (total_agents shape) (max_total_agents limits));;
  reject_if (limit_max_depth limits <? max_depth shape)
    (RecursionTooDeep (max_depth shape) (limit_max_depth limits));;
  Ok shape.

Definition validate_for_fleet (spec : WorkflowSpec) : result WorkflowFleetLimitError WorkflowFleetShape :=
  validate_for_fleet_with_limits spec default_limits.

(** * Properties of workflow node trees

    Validation accepts exactly the trees whose identifiers are distinct and
    whose references are known. *)

(** ** Trees *)

Section induction.
Context (P : WorkflowNode -> Prop).
Context (Hbranch : forall s, Forall P (branch_children s) -> P (BranchSet s)).
Context (Hleaf : forall s, P (Leaf s)).
Context (Hseq : forall s, Forall P (sequence_children s) -> P (Sequence s)).
Context (Hreduce : forall s, P (Reduce s)).
Context (Hreview : forall s, P (TeacherReview s)).
Context (Hloop : forall s, Forall P (loop_children s) -> P (LoopUntil s)).
Context (Hcond : forall s, Forall P (then_nodes s) -> Forall P (else_nodes s) -> P (Cond s)).
Context (Hexpand : forall s, match template s with Some t => P t | None => True end -> P (Expand s)).

(** Induction with a hypothesis for every node inside. *)
Fixpoint node_nested_ind (n : WorkflowNode) : P n :=
  match n with
  | BranchSet s => Hbranch s (Forall_true P (branch_children s) node_nested_ind)
  | Leaf s => Hleaf s
  | Sequence s => Hseq s (Forall_true P (sequence_children s) node_nested_ind)
  | Reduce s => Hreduce s
  | TeacherReview s => Hreview s
  | LoopUntil s => Hloop s (Forall_true P (loop_children s) node_nested_ind)
  | Cond s => Hcond s (Forall_true P (then_nodes s) node_nested_ind) (Forall_true P (else_nodes s) node_nested_ind)
  | Expand s => Hexpand s (match template s as o return match o with Some t => P t | None => True end with
                           | Some t => node_nested_ind t
                           | None => I
                           end)
  end.
End induction.

(** The nodes of a tree in declaration order, templates aside. *)
Fixpoint descendants (n : WorkflowNode) : list WorkflowNode :=
  n :: match n with
       | BranchSet s => branch_children s ≫= descendants
       | Sequence s => sequence_children s ≫= descendants
       | LoopUntil s => loop_children s ≫= descendants
       | Cond s => (then_nodes s ≫= descendants) ++ (else_nodes s ≫= descendants)
       | Leaf _ | Reduce _ | TeacherReview _ | Expand _ => []
       end.

(** Induction over the children, templates aside. *)
Lemma node_children_ind (P : WorkflowNode -> Prop) :
  (forall n, (forall c, c ∈ node_children n -> P c) -> P n) -> forall n, P n.
Proof.
  intros H n. induction n as [s IH|s|s IH|s|s|s IH|s IH1 IH2|s _] using node_nested_ind; apply H; cbn;
    try (by intros c ?%not_elem_of_nil); try (by apply Forall_forall).
  intros c [Hc|Hc]%elem_of_app; [by eapply Forall_forall in IH1|by eapply Forall_forall in IH2].
Qed.

Lemma descendants_child n c t : c ∈ node_children n -> t ∈ descendants c -> t ∈ descendants n.
Proof.
  intros Hc Ht. destruct n; cbn in Hc |- *; try (by apply not_elem_of_nil in Hc); right; rewrite ?elem_of_app.
  4: apply elem_of_app in Hc as [Hc|Hc]; [left|right].
  all: apply list_elem_of_bind; eauto.
Qed.

Lemma descendants_self n : n ∈ descendants n.
Proof. destruct n; left. Qed.

Definition all_nodes (nodes : list WorkflowNode) : list WorkflowNode := nodes ≫= descendants.

Definition ids (nodes : list WorkflowNode) : list str := node_id <$> all_nodes nodes.

Lemma all_nodes_cons n nodes : all_nodes (n :: nodes) = descendants n ++ all_nodes nodes.
Proof. done. Qed.

(** ** Identifiers *)

(** The node by itself is well formed: its identifier, and the prompt, role and
    profile of a leaf. *)
Definition role_ok (role : str) : Prop :=
  trim role <> [] /\ Forall (fun c => bad_token_char c = false) (trim role).

Definition profile_ok (profile : str) : Prop :=
  profile <> [] /\ Forall (fun c => bad_token_char c = false) profile.

Definition node_ok (n : WorkflowNode) : Prop :=
  trim (node_id n) <> [] /\
  match n with
  | Leaf s =>
      trim (leaf_prompt s) <> [] /\ (forall role, leaf_role s = Some role -> role_ok role) /\
      (forall profile, leaf_profile s = Some profile -> profile_ok profile)
  | _ => True
  end.

Lemma str_is_empty_false s : str_is_empty s = false <-> s <> [].
Proof. by destruct s. Qed.

Lemma existsb_false_Forall {A} (p : A -> bool) l : existsb p l = false <-> Forall (fun x => p x = false) l.
Proof. rewrite existsb_false. by rewrite Forall_forall. Qed.

Lemma validate_leaf_profile_Ok leaf profile u : validate_leaf_profile leaf profile = Ok u <-> profile_ok profile.
Proof.
  unfold validate_leaf_profile, profile_ok. by rewrite reject_if_Ok, orb_false_iff, str_is_empty_false, existsb_false_Forall.
Qed.

Lemma normalize_token_Some raw token : normalize_token raw = Some token <-> role_ok raw /\ token = to_ascii_lowercase (trim raw).
Proof.
  unfold normalize_token, role_ok. rewrite <-str_is_empty_false, <-existsb_false_Forall.
  destruct (str_is_empty _), (existsb _ _); naive_solver.
Qed.

Lemma validate_leaf_role_Ok leaf role u : validate_leaf_role leaf role = Ok u <-> role_ok role.
Proof.
  unfold validate_leaf_role, validate_role_token. rewrite reject_if_Ok, negb_false_iff, is_ok_spec.
  setoid_rewrite ok_or_Ok. setoid_rewrite normalize_token_Some. naive_solver.
Qed.

Lemma validate_leaf_Ok s :
  validate_leaf s = Ok tt <-> trim (leaf_prompt s) <> [] /\ (forall role, leaf_role s = Some role -> role_ok role) /\
    (forall profile, leaf_profile s = Some profile -> profile_ok profile).
Proof.
  unfold validate_leaf. rewrite !seq_Ok, reject_if_Ok, str_is_empty_false.
  destruct (leaf_role s) as [r|], (leaf_profile s) as [p|];
    rewrite ?validate_leaf_role_Ok, ?validate_leaf_profile_Ok; naive_solver.
Qed.

(** The nodes are well formed, with distinct identifiers that are not in [seen]. *)
Definition fresh_nodes (seen : gset str) (ns : list WorkflowNode) : Prop :=
  Forall node_ok ns /\ NoDup (node_id <$> ns) /\ forall n, n ∈ ns -> node_id n ∉ seen.

Definition add_ids (ns : list WorkflowNode) (seen : gset str) : gset str := list_to_set (node_id <$> ns) ∪ seen.

Lemma fresh_nodes_app seen ns ms :
  fresh_nodes seen (ns ++ ms) <-> fresh_nodes seen ns /\ fresh_nodes (add_ids ns seen) ms.
Proof.
  unfold fresh_nodes, add_ids. rewrite Forall_app, fmap_app, NoDup_app. setoid_rewrite not_elem_of_union.
  setoid_rewrite elem_of_app. split.
  - intros ([H1 H2] & (H3 & H4 & H5) & H6). split_and!; try done; [naive_solver|]. intros n Hn. split; [|auto].
    rewrite elem_of_list_to_set. intros Hin. apply (H4 _ Hin). by apply list_elem_of_fmap_2.
  - intros ((H1 & H2 & H3) & H4 & H5 & H6). split_and!; try done; [|naive_solver]. intros x Hx (m & -> & Hm)%list_elem_of_fmap.
    destruct (H6 m Hm) as [Hnot _]. apply Hnot. by apply elem_of_list_to_set.
Qed.

Lemma add_ids_app ns ms seen : add_ids (ns ++ ms) seen = add_ids ms (add_ids ns seen).
Proof. unfold add_ids. rewrite fmap_app, list_to_set_app_L. set_solver. Qed.

Lemma foldM_validate seen nodes seen' :
  Forall (fun n => forall seen seen', validate_node seen n = Ok seen' <->
    fresh_nodes seen (descendants n) /\ seen' = add_ids (descendants n) seen) nodes ->
  foldM validate_node seen nodes = Ok seen' <-> fresh_nodes seen (all_nodes nodes) /\ seen' = add_ids (all_nodes nodes) seen.
Proof.
  intros H. revert seen. induction H as [|n nodes Hn _ IH]; intros seen.
  - cbn. unfold fresh_nodes, add_ids. cbn. rewrite union_empty_l_L. split; [intros [= ->]|by intros [_ ->]].
    split_and!; try done; [by apply NoDup_nil|]. by intros ? ?%not_elem_of_nil.
  - cbn [foldM]. rewrite all_nodes_cons, fresh_nodes_app, add_ids_app, bind_Ok. setoid_rewrite Hn. setoid_rewrite IH.
    naive_solver.
Qed.

Lemma fresh_nodes_cons seen n ns :
  fresh_nodes seen (n :: ns) <-> node_ok n /\ (node_id n ∉ seen) /\ fresh_nodes ({[node_id n]} ∪ seen) ns.
Proof.
  change (n :: ns) with ([n] ++ ns). rewrite fresh_nodes_app.
  assert (add_ids [n] seen = {[node_id n]} ∪ seen) as -> by (unfold add_ids; cbn; set_solver).
  unfold fresh_nodes at 1. rewrite Forall_singleton. setoid_rewrite list_elem_of_singleton. cbn.
  pose proof (NoDup_singleton (node_id n)). naive_solver.
Qed.

Lemma add_ids_cons n ns seen : add_ids (n :: ns) seen = add_ids ns ({[node_id n]} ∪ seen).
Proof. unfold add_ids. cbn. set_solver. Qed.

Lemma fresh_nodes_nil seen : fresh_nodes seen [].
Proof. split_and!; [done|apply NoDup_nil_2|]. by intros ? ?%not_elem_of_nil. Qed.

Lemma add_ids_nil seen : add_ids [] seen = seen.
Proof. unfold add_ids. cbn. apply union_empty_l_L. Qed.

Lemma validate_node_Ok n seen seen' :
  validate_node seen n = Ok seen' <-> fresh_nodes seen (descendants n) /\ seen' = add_ids (descendants n) seen.
Proof.
  revert seen seen'. induction n using node_nested_ind; intros seen seen'; cbn [validate_node descendants];
    rewrite fresh_nodes_cons, !seq_Ok, !reject_if_Ok, str_is_empty_false, bool_decide_eq_false, add_ids_cons; unfold node_ok.
  1,3,6: rewrite foldM_validate by done; unfold all_nodes; tauto.
  1: rewrite validate_leaf_Ok; pose proof (fresh_nodes_nil ({[node_id (Leaf s)]} ∪ seen)); rewrite add_ids_nil; naive_solver.
  1,2,4: rewrite add_ids_nil; match goal with |- context [fresh_nodes ?k []] => pose proof (fresh_nodes_nil k) end; naive_solver.
  rewrite bind_Ok. setoid_rewrite foldM_validate; [|done..]. rewrite fresh_nodes_app, add_ids_app.
  unfold all_nodes. naive_solver.
Qed.

Lemma validate_inner_Ok nodes seen seen' :
  validate_workflow_nodes_inner nodes seen = Ok seen' <->
  fresh_nodes seen (all_nodes nodes) /\ seen' = add_ids (all_nodes nodes) seen.
Proof. apply foldM_validate. apply Forall_true. intros n s1 s2. apply validate_node_Ok. Qed.

(** ** References *)

(** The identifiers a node refers to. *)
Definition references (n : WorkflowNode) : list str :=
  match n with
  | Leaf s => leaf_depends_on_results s
  | Reduce s => inputs s
  | TeacherReview s => candidates s
  | BranchSet _ | Sequence _ | LoopUntil _ | Cond _ | Expand _ => []
  end.

Definition known_references (known : gset str) (n : WorkflowNode) : Prop := forall r, r ∈ references n -> r ∈ known.

Lemma validate_known_references_Ok node field rs known u :
  validate_known_references node field rs known = Ok u <-> forall r, r ∈ rs -> r ∈ known.
Proof.
  unfold validate_known_references. rewrite foldM_unit_Ok. apply forall_proper; intros r.
  rewrite reject_if_Ok, bool_decide_eq_false. destruct (decide (r ∈ known)); tauto.
Qed.

Lemma foldM_references known nodes u :
  Forall (fun n => forall u, validate_node_references known tt n = Ok u <-> Forall (known_references known) (descendants n)) nodes ->
  foldM (validate_node_references known) tt nodes = Ok u <-> Forall (known_references known) (all_nodes nodes).
Proof.
  rewrite foldM_unit_Ok. induction 1 as [|n nodes Hn _ IH]; [split; [constructor|by intros _ ? ?%not_elem_of_nil]|].
  rewrite all_nodes_cons, Forall_app, <-IH, <-(Hn tt). setoid_rewrite elem_of_cons. naive_solver.
Qed.

Lemma validate_node_references_Ok known n u :
  validate_node_references known tt n = Ok u <-> Forall (known_references known) (descendants n).
Proof.
  revert u. induction n using node_nested_ind; intros u; cbn [validate_node_references descendants];
    rewrite Forall_cons; unfold known_references at 1; cbn [references];
    rewrite ?validate_known_references_Ok.
  2,4,5: rewrite Forall_nil; tauto.
  1,2,3: rewrite foldM_references by done; unfold all_nodes; set_solver.
  - rewrite seq_Ok, !foldM_references, Forall_app by done. unfold all_nodes. set_solver.
  - destruct u. rewrite Forall_nil. set_solver.
Qed.

(** node validation is exact.  A forest is accepted exactly when every node
    is well formed by itself, all identifiers are distinct, and every result,
    input or candidate it refers to is the identifier of one of its nodes,
    wherever it is in the forest. *)
Theorem node_validation_is_exact nodes :
  validate_workflow_nodes nodes = Ok tt <->
  Forall node_ok (all_nodes nodes) /\ NoDup (ids nodes) /\
  (forall n r, n ∈ all_nodes nodes -> r ∈ references n -> r ∈ ids nodes).
Proof.
  unfold validate_workflow_nodes. rewrite bind_Ok. setoid_rewrite validate_inner_Ok.
  assert (Hr : forall seen, validate_workflow_references nodes seen = Ok tt <-> Forall (known_references seen) (all_nodes nodes)).
  { intros seen. apply foldM_references, Forall_true. intros n u. apply validate_node_references_Ok. }
  setoid_rewrite Hr. unfold fresh_nodes, known_references, add_ids, ids. setoid_rewrite Forall_forall. split.
  - intros (seen & ((H1 & H2 & _) & ->) & H3). split_and!; [done..|]. intros n r Hn Hrr.
    specialize (H3 n Hn r Hrr). rewrite elem_of_union, elem_of_list_to_set in H3. set_solver.
  - intros (H1 & H2 & H3). eexists. split; [split; [split_and!; [done..|set_solver]|done]|].
    intros n Hn r Hrr. apply elem_of_union_l, elem_of_list_to_set. by eapply H3.
Qed.
