(* ===== verification/WorkflowMock.v ===== *)
(** * The deterministic workflow executor

    [crates/workflow/src/lib.rs]: usage receipts, execution results, and
    [MockWorkflowExecutor], which runs a tree of nodes against scripted leaf
    outcomes, predicate results and generated nodes, under cancellation and
    step and token budgets.  A step takes and returns the executor with the
    execution record.

    The recursion is structural in the tree except at an [Expand], whose
    generated nodes are taken out of the executor; the fuel counts these, so
    one more than the number of scripted expansions is enough. *)

From S2P Require Import Text.
From S2P Require Export WorkflowIr.

(** ** Usage *)

Record WorkflowUsage := { input_tokens : option Z; output_tokens : option Z; cost_microusd : option Z }.

Definition default_usage : WorkflowUsage := {| input_tokens := None; output_tokens := None; cost_microusd := None |}.
Definition zero_usage : WorkflowUsage :=
  {| input_tokens := Some 0; output_tokens := Some 0; cost_microusd := Some 0 |}.

Definition sum_reported (left right : option Z) : option Z :=
  match left, right with
  | Some l, Some r => Some (u64_saturating_add l r)
  | _, _ => None
  end.

Definition total_tokens (u : WorkflowUsage) : option Z := sum_reported (input_tokens u) (output_tokens u).

Definition usage_add (a b : WorkflowUsage) : WorkflowUsage :=
  {| input_tokens := sum_reported (input_tokens a) (input_tokens b);
     output_tokens := sum_reported (output_tokens a) (output_tokens b);
     cost_microusd := sum_reported (cost_microusd a) (cost_microusd b) |}.

Record WorkflowMemoUsage := {
  armh_hits : Z; armh_misses : Z; armh_saved_estimated_tokens : Z;
  provider_prompt_cache_hits : Z; provider_prompt_cache_misses : Z }.

Definition default_memo : WorkflowMemoUsage :=
  {| armh_hits := 0; armh_misses := 0; armh_saved_estimated_tokens := 0;
     provider_prompt_cache_hits := 0; provider_prompt_cache_misses := 0 |}.

Definition memo_add (a b : WorkflowMemoUsage) : WorkflowMemoUsage :=
  {| armh_hits := u64_saturating_add (armh_hits a) (armh_hits b);
     armh_misses := u64_saturating_add (armh_misses a) (armh_misses b);
     armh_saved_estimated_tokens :=
       u64_saturating_add (armh_saved_estimated_tokens a) (armh_saved_estimated_tokens b);
     provider_prompt_cache_hits :=
       u64_saturating_add (provider_prompt_cache_hits a) (provider_prompt_cache_hits b);
     provider_prompt_cache_misses :=
       u64_saturating_add (provider_prompt_cache_misses a) (provider_prompt_cache_misses b) |}.

(** ** Results *)

Inductive WorkflowRunStatus :=
| RunPending | Running | Succeeded | Failed | Cancelled | BudgetExceeded | ReplayDiverged.

#[export] Instance WorkflowRunStatus_eq_dec : EqDecision WorkflowRunStatus.
Proof. solve_decision. Defined.

Inductive ControlNodeKind :=
| BranchSetKind | LeafKind | SequenceKind | ReduceKind | TeacherReviewKind | LoopUntilKind | CondKind | ExpandKind.

Record LeafResult := {
  result_leaf_id : str; leaf_task_id : str; result_role : option str; result_profile : option str;
  leaf_status : WorkflowRunStatus; leaf_usage : WorkflowUsage; leaf_memo_usage : WorkflowMemoUsage;
  leaf_output : option str; leaf_artifacts : list str; schema_error : option str }.

Record BranchResult := {
  result_branch_id : str; branch_task_id : str; branch_status : WorkflowRunStatus; branch_usage : WorkflowUsage;
  branch_memo_usage : WorkflowMemoUsage; branch_artifacts : list str; branch_notes : option str }.

Record ControlNodeResult := {
  control_node_id : str; control_kind : ControlNodeKind; control_status : WorkflowRunStatus;
  selected_children : list str; control_summary : option str }.

Record WorkflowExecution := {
  status : WorkflowRunStatus; usage : WorkflowUsage; memo_usage : WorkflowMemoUsage;
  leaf_results : list LeafResult; branch_results : list BranchResult;
  control_node_results : list ControlNodeResult }.

Definition default_execution : WorkflowExecution :=
  {| status := Succeeded; usage := default_usage; memo_usage := default_memo; leaf_results := [];
     branch_results := []; control_node_results := [] |}.

Definition with_status (x : WorkflowExecution) (s : WorkflowRunStatus) : WorkflowExecution :=
  {| status := s; usage := usage x; memo_usage := memo_usage x; leaf_results := leaf_results x;
     branch_results := branch_results x; control_node_results := control_node_results x |}.

Definition push_branch (x : WorkflowExecution) (b : BranchResult) : WorkflowExecution :=
  {| status := status x; usage := usage x; memo_usage := memo_usage x; leaf_results := leaf_results x;
     branch_results := branch_results x ++ [b]; control_node_results := control_node_results x |}.

Definition push_control (x : WorkflowExecution) (c : ControlNodeResult) : WorkflowExecution :=
  {| status := status x; usage := usage x; memo_usage := memo_usage x; leaf_results := leaf_results x;
     branch_results := branch_results x; control_node_results := control_node_results x ++ [c] |}.

Definition is_stop (s : WorkflowRunStatus) : bool :=
  match s with Cancelled | BudgetExceeded => true | _ => false end.

Definition should_stop_mock_execution (x : WorkflowExecution) : bool := is_stop (status x).

Definition mark_execution_for_status (x : WorkflowExecution) (s : WorkflowRunStatus) : WorkflowExecution :=
  match s with
  | Succeeded | RunPending | Running => x
  | Failed | Cancelled | BudgetExceeded | ReplayDiverged => with_status x s
  end.

Definition aggregate_mock_status (results : list LeafResult) : WorkflowRunStatus :=
  if existsb (fun r => bool_decide (leaf_status r = Cancelled)) results then Cancelled
  else if existsb (fun r => bool_decide (leaf_status r = BudgetExceeded)) results then BudgetExceeded
  else if existsb (fun r => bool_decide (leaf_status r <> Succeeded)) results then Failed
  else Succeeded.

(** ** The executor *)

Record MockLeafOutcome := {
  outcome_status : WorkflowRunStatus; outcome_usage : WorkflowUsage; outcome_memo_usage : WorkflowMemoUsage;
  outcome_output : option str; outcome_artifacts : list str }.

Definition outcome_of (s : WorkflowRunStatus) (u : WorkflowUsage) (output : str) : MockLeafOutcome :=
  {| outcome_status := s; outcome_usage := u; outcome_memo_usage := default_memo; outcome_output := Some output;
     outcome_artifacts := [] |}.

Definition succeeded (output : str) : MockLeafOutcome := outcome_of Succeeded default_usage output.
Definition failed (output : str) : MockLeafOutcome := outcome_of Failed default_usage output.

Definition with_usage (o : MockLeafOutcome) (u : WorkflowUsage) : MockLeafOutcome :=
  {| outcome_status := outcome_status o; outcome_usage := u; outcome_memo_usage := outcome_memo_usage o;
     outcome_output := outcome_output o; outcome_artifacts := outcome_artifacts o |}.

Definition with_memo_usage (o : MockLeafOutcome) (u : WorkflowMemoUsage) : MockLeafOutcome :=
  {| outcome_status := outcome_status o; outcome_usage := outcome_usage o; outcome_memo_usage := u;
     outcome_output := outcome_output o; outcome_artifacts := outcome_artifacts o |}.

Record MockWorkflowExecutor := {
  leaf_outcomes : gmap str MockLeafOutcome; predicate_results : gmap str (list bool);
  generated_nodes : gmap str (list WorkflowNode); cancelled : bool;
  max_leaf_steps : option Z; leaf_steps_executed : Z; max_leaf_tokens : option Z; leaf_tokens_used : Z }.

Definition new_executor : MockWorkflowExecutor :=
  {| leaf_outcomes := ∅; predicate_results := ∅; generated_nodes := ∅; cancelled := false;
     max_leaf_steps := None; leaf_steps_executed := 0; max_leaf_tokens := None; leaf_tokens_used := 0 |}.

Definition with_predicates (m : MockWorkflowExecutor) (p : gmap str (list bool)) : MockWorkflowExecutor :=
  {| leaf_outcomes := leaf_outcomes m; predicate_results := p; generated_nodes := generated_nodes m;
     cancelled := cancelled m; max_leaf_steps := max_leaf_steps m; leaf_steps_executed := leaf_steps_executed m;
     max_leaf_tokens := max_leaf_tokens m; leaf_tokens_used := leaf_tokens_used m |}.

Definition with_generated (m : MockWorkflowExecutor) (g : gmap str (list WorkflowNode)) : MockWorkflowExecutor :=
  {| leaf_outcomes := leaf_outcomes m; predicate_results := predicate_results m; generated_nodes := g;
     cancelled := cancelled m; max_leaf_steps := max_leaf_steps m; leaf_steps_executed := leaf_steps_executed m;
     max_leaf_tokens := max_leaf_tokens m; leaf_tokens_used := leaf_tokens_used m |}.

(** The builders of a script. *)

Definition with_leaf_outcome (m : MockWorkflowExecutor) (id : str) (o : MockLeafOutcome) : MockWorkflowExecutor :=
  {| leaf_outcomes := <[id := o]> (leaf_outcomes m); predicate_results := predicate_results m; generated_nodes := generated_nodes m;
     cancelled := cancelled m; max_leaf_steps := max_leaf_steps m; leaf_steps_executed := leaf_steps_executed m;
     max_leaf_tokens := max_leaf_tokens m; leaf_tokens_used := leaf_tokens_used m |}.

Definition with_predicate_results (m : MockWorkflowExecutor) (id : str) (ps : list bool) : MockWorkflowExecutor :=
  with_predicates m (<[id := ps]> (predicate_results m)).

Definition with_generated_nodes (m : MockWorkflowExecutor) (id : str) (ns : list WorkflowNode) : MockWorkflowExecutor :=
  with_generated m (<[id := ns]> (generated_nodes m)).

Definition with_cancelled (m : MockWorkflowExecutor) : MockWorkflowExecutor :=
  {| leaf_outcomes := leaf_outcomes m; predicate_results := predicate_results m; generated_nodes := generated_nodes m;
     cancelled := true; max_leaf_steps := max_leaf_steps m; leaf_steps_executed := leaf_steps_executed m;
     max_leaf_tokens := max_leaf_tokens m; leaf_tokens_used := leaf_tokens_used m |}.

Definition with_max_leaf_steps (m : MockWorkflowExecutor) (n : Z) : MockWorkflowExecutor :=
  {| leaf_outcomes := leaf_outcomes m; predicate_results := predicate_results m; generated_nodes := generated_nodes m;
     cancelled := cancelled m; max_leaf_steps := Some n; leaf_steps_executed := leaf_steps_executed m;
     max_leaf_tokens := max_leaf_tokens m; leaf_tokens_used := leaf_tokens_used m |}.

Definition with_max_leaf_tokens (m : MockWorkflowExecutor) (n : Z) : MockWorkflowExecutor :=
  {| leaf_outcomes := leaf_outcomes m; predicate_results := predicate_results m; generated_nodes := generated_nodes m;
     cancelled := cancelled m; max_leaf_steps := max_leaf_steps m; leaf_steps_executed := leaf_steps_executed m;
     max_leaf_tokens := Some n; leaf_tokens_used := leaf_tokens_used m |}.

(** The executor after a leaf ran: its step and its known tokens are counted. *)
Definition with_leaf_run (m : MockWorkflowExecutor) (id : str) (tokens : Z) : MockWorkflowExecutor :=
  {| leaf_outcomes := delete id (leaf_outcomes m); predicate_results := predicate_results m;
     generated_nodes := generated_nodes m; cancelled := cancelled m; max_leaf_steps := max_leaf_steps m;
     leaf_steps_executed := u32_saturating_add (leaf_steps_executed m) 1;
     max_leaf_tokens := max_leaf_tokens m; leaf_tokens_used := u64_saturating_add (leaf_tokens_used m) tokens |}.

Definition mock_leaf_outcome (m : MockWorkflowExecutor) (s : LeafSpec) : MockWorkflowExecutor * MockLeafOutcome :=
  if cancelled m then
    (m, outcome_of Cancelled zero_usage $"mock workflow cancelled before leaf execution")
  else if bool_decide (max_leaf_steps m = Some (leaf_steps_executed m))
          || bool_decide (budget_max_steps (leaf_budget s) = Some 0) then
    (m, outcome_of BudgetExceeded zero_usage $"mock workflow leaf step budget exhausted")
  else if match max_leaf_tokens m with Some max => max <=? leaf_tokens_used m | None => false end
          || bool_decide (max_tokens (leaf_budget s) = Some 0) then
    (m, outcome_of BudgetExceeded zero_usage $"mock workflow leaf token budget exhausted")
  else
    let outcome := default (succeeded ($"mock leaf " ++ leaf_id s)) (leaf_outcomes m !! leaf_id s) in
    let tokens := total_tokens (outcome_usage outcome) in
    match max_tokens (leaf_budget s), tokens with
    | Some cap, Some t =>
        if cap <? t then
          (with_leaf_run m (leaf_id s) 0,
           {| outcome_status := BudgetExceeded; outcome_usage := outcome_usage outcome;
              outcome_memo_usage := outcome_memo_usage outcome;
              outcome_output := Some ($"mock workflow leaf token budget exhausted (" ++ display_u t
                                      ++ $" > " ++ display_u cap ++ $")");
              outcome_artifacts := outcome_artifacts outcome |})
        else (with_leaf_run m (leaf_id s) t, outcome)
    | _, _ => (with_leaf_run m (leaf_id s) (default 0 tokens), outcome)
    end.

Definition next_predicate_result (m : MockWorkflowExecutor) (id : str) : MockWorkflowExecutor * bool :=
  match predicate_results m !! id with
  | Some (p :: ps) => (with_predicates m (<[id := ps]> (predicate_results m)), p)
  | Some [] | None => (m, false)
  end.

(** ** Execution *)

Inductive mock_error := MockRejected (e : WorkflowExecutionError) | MockOutOfFuel.

Abbreviation mock_state := (MockWorkflowExecutor * WorkflowExecution)%type (only parsing).

Definition execute_leaf (st : mock_state) (s : LeafSpec) : mock_state :=
  let '(m, x) := st in
  let '(m, outcome) := mock_leaf_outcome m s in
  let x := mark_execution_for_status x (outcome_status outcome) in
  (m, {| status := status x;
         usage := match leaf_results x with
                  | [] => outcome_usage outcome
                  | _ => usage_add (usage x) (outcome_usage outcome)
                  end;
         memo_usage := memo_add (memo_usage x) (outcome_memo_usage outcome);
         leaf_results := leaf_results x ++
           [{| result_leaf_id := leaf_id s; leaf_task_id := leaf_id s; result_role := leaf_role s;
               result_profile := leaf_profile s; leaf_status := outcome_status outcome;
               leaf_usage := outcome_usage outcome; leaf_memo_usage := outcome_memo_usage outcome;
               leaf_output := outcome_output outcome; leaf_artifacts := outcome_artifacts outcome;
               schema_error := None |}];
         branch_results := branch_results x; control_node_results := control_node_results x |}).

(** [execute_nodes], given how to execute one node. *)
Fixpoint execute_nodes (run_node : mock_state -> WorkflowNode -> result mock_error mock_state)
  (st : mock_state) (nodes : list WorkflowNode) : result mock_error mock_state :=
  match nodes with
  | [] => Ok st
  | n :: nodes =>
      if should_stop_mock_execution st.2 then Ok st
      else st ← run_node st n; execute_nodes run_node st nodes
  end.

Definition with_execution (st : mock_state) (f : WorkflowExecution -> WorkflowExecution) : mock_state :=
  (st.1, f st.2).

Definition control (id : str) (k : ControlNodeKind) (s : WorkflowRunStatus) (children : list str) (summary : str)
  : ControlNodeResult :=
  {| control_node_id := id; control_kind := k; control_status := s; selected_children := children;
     control_summary := Some summary |}.

(** The usage of a branch: the first receipt, then sums. *)
Definition branch_total (results : list LeafResult) : WorkflowUsage :=
  match results with
  | [] => default_usage
  | r :: rest => fold_left (fun u r => usage_add u (leaf_usage r)) rest (leaf_usage r)
  end.

Definition memo_total (results : list LeafResult) : WorkflowMemoUsage :=
  fold_left (fun u r => memo_add u (leaf_memo_usage r)) results default_memo.

(** [execute_branch_set] after its children ran; [before] leaves had run. *)
Definition finish_branch_set (s : BranchSpec WorkflowNode) (before : nat) (x : WorkflowExecution) : WorkflowExecution :=
  let mine := drop before (leaf_results x) in
  let st := aggregate_mock_status mine in
  push_control
    (push_branch (mark_execution_for_status x st)
       {| result_branch_id := branch_id s; branch_task_id := branch_id s; branch_status := st;
          branch_usage := branch_total mine; branch_memo_usage := memo_total mine; branch_artifacts := [];
          branch_notes := Some $"mock branch set executed without runtime fanout" |})
    (control (branch_id s) BranchSetKind st (node_id <$> branch_children s)
       $"branch set scaffold executed children deterministically").

(** The [while] loop of [execute_loop_until], with the number of iterations and
    whether the predicate passed. *)
Fixpoint run_loop (body : mock_state -> result mock_error mock_state) (id : str) (remaining : nat)
  (iterations : Z) (st : mock_state) : result mock_error (mock_state * Z * bool) :=
  match remaining with
  | O => Ok (st, iterations, false)
  | S remaining =>
      if should_stop_mock_execution st.2 then Ok (st, iterations, false)
      else
        st ← body st;
        if should_stop_mock_execution st.2 then Ok (st, iterations + 1, false)
        else
          let '(m, passed) := next_predicate_result st.1 id in
          if passed then Ok ((m, st.2), iterations + 1, true)
          else run_loop body id remaining (iterations + 1) (m, st.2)
  end.

Definition loop_bound (s : LoopUntilSpec WorkflowNode) : nat := Z.to_nat (Z.max (default 1 (max_iterations s)) 1).

Definition finish_loop (s : LoopUntilSpec WorkflowNode) (iterations : Z) (passed : bool) (x : WorkflowExecution)
  : WorkflowExecution :=
  let st := if should_stop_mock_execution x then status x else if passed then Succeeded else Failed in
  push_control (mark_execution_for_status x st)
    (control (loop_id s) LoopUntilKind st (node_id <$> loop_children s)
       ($"loop_until iterations=" ++ display_u iterations)).

(** The status a [Cond] or an [Expand] reports. *)
Definition status_or_succeeded (x : WorkflowExecution) : WorkflowRunStatus :=
  if should_stop_mock_execution x then status x else Succeeded.

Definition finish_cond (s : CondSpec WorkflowNode) (passed : bool) (selected : list WorkflowNode) (x : WorkflowExecution)
  : WorkflowExecution :=
  push_control x (control (cond_id s) CondKind (status_or_succeeded x) (node_id <$> selected)
    ($"predicate_result=" ++ (if passed then $"true" else $"false"))).

Definition finish_expand (s : ExpandSpec WorkflowNode) (nodes : list WorkflowNode) (x : WorkflowExecution)
  : WorkflowExecution :=
  push_control x (control (expand_id s) ExpandKind (status_or_succeeded x) (node_id <$> nodes)
    ($"expanded_from=" ++ expand_source s)).

(** The nodes an [Expand] runs. *)
Definition expansion (m : MockWorkflowExecutor) (s : ExpandSpec WorkflowNode) : list WorkflowNode :=
  let nodes := default [] (generated_nodes m !! expand_id s) in
  match max_children s with
  | Some max => take max nodes
  | None => nodes
  end.

(** [execute_node] where [run_expanded] executes a generated node. *)
Fixpoint execute_node_with (run_expanded : mock_state -> WorkflowNode -> result mock_error mock_state)
  (st : mock_state) (n : WorkflowNode) : result mock_error mock_state :=
  match n with
  | BranchSet s =>
      let before := length (leaf_results st.2) in
      st ← execute_nodes (execute_node_with run_expanded) st (branch_children s);
      Ok (with_execution st (finish_branch_set s before))
  | Leaf s => Ok (execute_leaf st s)
  | Sequence s =>
      st ← execute_nodes (execute_node_with run_expanded) st (sequence_children s);
      Ok (with_execution st (fun x => push_control x
            (control (sequence_id s) SequenceKind (status x) (node_id <$> sequence_children s)
               $"sequence executed in declaration order")))
  | Reduce s =>
      Ok (with_execution st (fun x => push_control x
            (control (reduce_id s) ReduceKind Succeeded (inputs s) (reduce_prompt s))))
  | TeacherReview s =>
      Ok (with_execution st (fun x => push_control x
            (control (review_id s) TeacherReviewKind Succeeded (candidates s)
               $"teacher review scaffold selected declared candidates")))
  | LoopUntil s =>
      '(st, iterations, passed) ←
        run_loop (fun st => execute_nodes (execute_node_with run_expanded) st (loop_children s))
          (loop_id s) (loop_bound s) 0 st;
      Ok (with_execution st (finish_loop s iterations passed))
  | Cond s =>
      let '(m, passed) := next_predicate_result st.1 (cond_id s) in
      let st := (m, st.2) in
      if passed then
        st ← execute_nodes (execute_node_with run_expanded) st (then_nodes s);
        Ok (with_execution st (finish_cond s true (then_nodes s)))
      else
        st ← execute_nodes (execute_node_with run_expanded) st (else_nodes s);
        Ok (with_execution st (finish_cond s false (else_nodes s)))
  | Expand s =>
      let nodes := expansion st.1 s in
      let st := (with_generated st.1 (delete (expand_id s) (generated_nodes st.1)), st.2) in
      map_err MockRejected (validate_workflow_node_shapes nodes);;
      st ← execute_nodes run_expanded st nodes;
      Ok (with_execution st (finish_expand s nodes))
  end.

Fixpoint execute_node (fuel : nat) : mock_state -> WorkflowNode -> result mock_error mock_state :=
  match fuel with
  | O => execute_node_with (fun _ _ => Err MockOutOfFuel)
  | S fuel => execute_node_with (execute_node fuel)
  end.

Definition expand_fuel (m : MockWorkflowExecutor) : nat := size (generated_nodes m).

Definition run (m : MockWorkflowExecutor) (nodes : list WorkflowNode) : result mock_error mock_state :=
  map_err MockRejected (validate_workflow_nodes nodes);;
  execute_nodes (execute_node (expand_fuel m)) (m, default_execution) nodes.
