(* ===== verification/WorkflowMockSpec.v ===== *)
(** * Properties of the deterministic workflow executor

    An execution is a sequence of elementary steps.  The invariants of the
    record (what stops a run, what its status means, what the usage receipts
    add up to, the budgets) are invariants of the steps; termination and the
    bound by the estimated fleet are by induction on the tree. *)

From S2P Require Import Text WorkflowIr WorkflowMock.
From stdpp Require Import relations.
#[local] Open Scope Z_scope.

(** ** Steps *)

Definition stopped (st : mock_state) : bool := should_stop_mock_execution st.2.

Definition leaves (st : mock_state) : nat := length (leaf_results st.2).

Inductive step : mock_state -> mock_state -> Prop :=
| step_leaf s st : stopped st = false -> step st (execute_leaf st s)
| step_branch s before st :
    (before <= leaves st)%nat -> (stopped st = true -> (before < leaves st)%nat) ->
    step st (with_execution st (finish_branch_set s before))
| step_loop s iterations passed st : step st (with_execution st (finish_loop s iterations passed))
| step_control c st :
    control_kind c <> LoopUntilKind -> control_kind c <> BranchSetKind ->
    step st (with_execution st (fun x => push_control x c))
| step_predicates id ps m x : step (m, x) (with_predicates m (<[id := ps]> (predicate_results m)), x)
| step_generated id m x : step (m, x) (with_generated m (delete id (generated_nodes m)), x).

Abbreviation steps := (rtc step) (only parsing).

(** The only leaf that stopped the run is the last one, and the run is stopped
    exactly when there is one. *)
Definition stops_at_last (x : WorkflowExecution) : Prop :=
  if should_stop_mock_execution x
  then exists earlier l, leaf_results x = earlier ++ [l] /\ leaf_status l = status x /\
         Forall (fun l => is_stop (leaf_status l) = false) earlier
  else Forall (fun l => is_stop (leaf_status l) = false) (leaf_results x).

Lemma mark_status x s : status (mark_execution_for_status x s) =
  match s with Succeeded | RunPending | Running => status x | _ => s end.
Proof. by destruct s. Qed.

Lemma mark_frame x s :
  leaf_results (mark_execution_for_status x s) = leaf_results x /\
  branch_results (mark_execution_for_status x s) = branch_results x /\
  control_node_results (mark_execution_for_status x s) = control_node_results x /\
  usage (mark_execution_for_status x s) = usage x /\ memo_usage (mark_execution_for_status x s) = memo_usage x.
Proof. by destruct s. Qed.

Lemma step_leaf_results st st' : step st st' -> leaf_results st.2 `prefix_of` leaf_results st'.2.
Proof.
  destruct 1 as [s [m x] _|s before [m x] _ _|s it p [m x]|c [m x]| |]; cbn; try done.
  - unfold execute_leaf. destruct (mock_leaf_outcome m s) as [m' o]. cbn.
    destruct (mark_frame x (outcome_status o)) as (-> & _). by eexists.
  - by rewrite (proj1 (mark_frame _ _)).
  - by rewrite (proj1 (mark_frame _ _)).
Qed.

Lemma steps_leaf_results st st' : steps st st' -> leaf_results st.2 `prefix_of` leaf_results st'.2.
Proof. induction 1 as [|st1 st2 st3 H _ IH]; [done|]. etrans; [by apply step_leaf_results|done]. Qed.

Lemma aggregate_stop results :
  match aggregate_mock_status results with
  | Cancelled => exists r, r ∈ results /\ leaf_status r = Cancelled
  | BudgetExceeded => exists r, r ∈ results /\ leaf_status r = BudgetExceeded
  | Failed => forall r, r ∈ results -> is_stop (leaf_status r) = false
  | Succeeded => forall r, r ∈ results -> leaf_status r = Succeeded
  | _ => False
  end.
Proof.
  unfold aggregate_mock_status.
  destruct (existsb (fun r => bool_decide (leaf_status r = Cancelled)) results) eqn:E1.
  { apply existsb_spec in E1 as (r & Hr & E%bool_decide_eq_true). eauto. }
  destruct (existsb (fun r => bool_decide (leaf_status r = BudgetExceeded)) results) eqn:E2.
  { apply existsb_spec in E2 as (r & Hr & E%bool_decide_eq_true). eauto. }
  rewrite existsb_false in E1, E2. destruct (existsb _ _) eqn:E3.
  - intros r Hr. specialize (E1 r Hr). specialize (E2 r Hr).
    apply bool_decide_eq_false in E1, E2. by destruct (leaf_status r).
  - rewrite existsb_false in E3. intros r Hr. specialize (E3 r Hr).
    apply bool_decide_eq_false in E3. by destruct (decide (leaf_status r = Succeeded)).
Qed.

Lemma stops_leaf m x s :
  should_stop_mock_execution x = false -> stops_at_last x -> stops_at_last (execute_leaf (m, x) s).2.
Proof.
  intros Hs. unfold stops_at_last. rewrite Hs. intros Hall. unfold execute_leaf.
  destruct (mock_leaf_outcome m s) as [m' o]. destruct (mark_frame x (outcome_status o)) as (Hl & _).
  unfold should_stop_mock_execution in *. cbn [snd status leaf_results]. rewrite mark_status, Hl.
  assert (Hkeep : is_stop (outcome_status o) = false ->
    Forall (fun l => is_stop (leaf_status l) = false) (leaf_results x ++
      [{| result_leaf_id := leaf_id s; leaf_task_id := leaf_id s; result_role := leaf_role s;
          result_profile := leaf_profile s; leaf_status := outcome_status o; leaf_usage := outcome_usage o;
          leaf_memo_usage := outcome_memo_usage o; leaf_output := outcome_output o;
          leaf_artifacts := outcome_artifacts o; schema_error := None |}])).
  { intros H. apply Forall_app. split; [done|]. by apply Forall_singleton. }
  destruct (outcome_status o) eqn:E; cbn; rewrite ?Hs; try (by apply Hkeep);
    (eexists _, _; split_and!; done).
Qed.

Lemma aggregate_no_stop results :
  Forall (fun l => is_stop (leaf_status l) = false) results ->
  aggregate_mock_status results = Failed \/ aggregate_mock_status results = Succeeded.
Proof.
  rewrite Forall_forall. intros H. pose proof (aggregate_stop results) as Ha.
  destruct (aggregate_mock_status results); try done; [by right|by left| |];
    destruct Ha as (r & Hr & E); specialize (H r Hr); by rewrite E in H.
Qed.

Lemma aggregate_last results l :
  Forall (fun l => is_stop (leaf_status l) = false) results -> is_stop (leaf_status l) = true ->
  aggregate_mock_status (results ++ [l]) = leaf_status l.
Proof.
  rewrite Forall_forall. intros H Hl. pose proof (aggregate_stop (results ++ [l])) as Ha.
  assert (Hin : l ∈ results ++ [l]) by (apply elem_of_app; right; by left).
  destruct (aggregate_mock_status (results ++ [l])); try done.
  - specialize (Ha l Hin). by rewrite Ha in Hl.
  - specialize (Ha l Hin). congruence.
  - destruct Ha as (r & [Hr| ->%list_elem_of_singleton]%elem_of_app & E); [|done]. specialize (H r Hr). by rewrite E in H.
  - destruct Ha as (r & [Hr| ->%list_elem_of_singleton]%elem_of_app & E); [|done]. specialize (H r Hr). by rewrite E in H.
Qed.

Lemma stops_branch s before x :
  (should_stop_mock_execution x = true -> (before < length (leaf_results x))%nat) ->
  stops_at_last x -> stops_at_last (finish_branch_set s before x).
Proof.
  intros Hb. unfold stops_at_last, should_stop_mock_execution in *. unfold finish_branch_set.
  cbn [status leaf_results push_control push_branch]. rewrite mark_status, (proj1 (mark_frame _ _)).
  destruct (is_stop (status x)) eqn:Hs.
  - intros (earlier & l & E & Hl & Hall). rewrite E, length_app in Hb. cbn in Hb. specialize (Hb eq_refl).
    rewrite E, drop_app_le by lia. rewrite aggregate_last; [|by apply Forall_drop|by rewrite Hl].
    assert (match leaf_status l with Succeeded | RunPending | Running => status x | _ => leaf_status l end = status x) as ->
      by (rewrite Hl; by destruct (status x)).
    rewrite Hs. by exists earlier, l.
  - intros Hall. destruct (aggregate_no_stop (drop before (leaf_results x))) as [-> | ->]; [by apply Forall_drop|done|].
    by rewrite Hs.
Qed.

Lemma stops_loop s iterations passed x : stops_at_last x -> stops_at_last (finish_loop s iterations passed x).
Proof.
  unfold stops_at_last, should_stop_mock_execution, finish_loop. cbn [status leaf_results push_control].
  rewrite mark_status, (proj1 (mark_frame _ _)). unfold should_stop_mock_execution.
  destruct (is_stop (status x)) eqn:Hs; [by destruct (status x)|]. destruct passed; cbn; [by rewrite Hs|done].
Qed.

Lemma step_stops st st' : step st st' -> stops_at_last st.2 -> stops_at_last st'.2.
Proof.
  destruct 1 as [s [m x] Hs|s before [m x] Hb Hs|s it p [m x]|c [m x]| |]; try done.
  - by apply stops_leaf.
  - by apply stops_branch.
  - apply stops_loop.
Qed.

Lemma steps_stops st st' : steps st st' -> stops_at_last st.2 -> stops_at_last st'.2.
Proof. induction 1; eauto using step_stops. Qed.

Lemma stopped_grew st st' :
  stops_at_last st.2 -> steps st st' -> stopped st = false -> stopped st' = true -> (leaves st < leaves st')%nat.
Proof.
  intros Hi Hsteps Hs Hs'. pose proof (steps_stops _ _ Hsteps Hi) as Hi'.
  destruct (steps_leaf_results _ _ Hsteps) as [more Hmore]. unfold stops_at_last, stopped, leaves in *.
  rewrite Hs in Hi. rewrite Hs' in Hi'. destruct Hi' as (earlier & l & E & Hl & _). rewrite Hmore, length_app.
  destruct more as [|r more]; [|cbn; lia]. exfalso. rewrite app_nil_r in Hmore. rewrite Hmore in E.
  rewrite E in Hi. apply Forall_app in Hi as [_ Hi]. rewrite Forall_singleton in Hi.
  unfold should_stop_mock_execution in Hs'. congruence.
Qed.

(** ** Executions are sequences of steps *)

Definition runs_in_steps (run_node : mock_state -> WorkflowNode -> result mock_error mock_state) (n : WorkflowNode) : Prop :=
  forall st st', stops_at_last st.2 -> stopped st = false -> run_node st n = Ok st' -> steps st st'.

Lemma execute_nodes_steps run_node nodes st st' :
  Forall (runs_in_steps run_node) nodes -> stops_at_last st.2 ->
  execute_nodes run_node st nodes = Ok st' -> steps st st'.
Proof.
  intros H. revert st. induction H as [|n nodes Hn _ IH]; intros st Hi; cbn [execute_nodes]; [by intros [= ->]|].
  fold (stopped st). destruct (stopped st) eqn:Hs; [by intros [= ->]|]. intros (st1 & H1 & H2)%bind_Ok.
  pose proof (Hn st st1 Hi Hs H1) as Hsteps. etrans; [done|]. apply IH; [by eapply steps_stops|done].
Qed.

Lemma next_predicate_steps st id m p : next_predicate_result st.1 id = (m, p) -> steps st (m, st.2).
Proof.
  destruct st as [m0 x]. unfold next_predicate_result. cbn. destruct (predicate_results m0 !! id) as [[|q qs]|].
  - by intros [= -> _].
  - intros [= <- _]. apply rtc_once, step_predicates.
  - by intros [= -> _].
Qed.

Lemma run_loop_steps body id remaining iterations st st' it p :
  (forall st st', stops_at_last st.2 -> body st = Ok st' -> steps st st') -> stops_at_last st.2 ->
  run_loop body id remaining iterations st = Ok (st', it, p) -> steps st st'.
Proof.
  intros Hbody. revert iterations st. induction remaining as [|k IH]; intros iterations st Hi; cbn [run_loop];
    [by intros [= -> _ _]|]. fold (stopped st). destruct (stopped st); [by intros [= -> _ _]|].
  intros (st1 & H1 & H2)%bind_Ok. pose proof (Hbody _ _ Hi H1) as Hs1. fold (stopped st1) in H2.
  destruct (stopped st1); [by injection H2 as <- _ _|].
  destruct (next_predicate_result st1.1 id) as [m q] eqn:Hp. apply next_predicate_steps in Hp.
  destruct q; [injection H2 as <- _ _; by etrans|]. etrans; [exact Hs1|]. etrans; [exact Hp|].
  eapply IH; [|done]. eapply steps_stops; [|exact Hi]. by etrans.
Qed.

Lemma branch_steps s st st' :
  stops_at_last st.2 -> stopped st = false -> steps st st' ->
  steps st (with_execution st' (finish_branch_set s (leaves st))).
Proof.
  intros Hi Hs Hsteps. eapply rtc_r; [done|]. apply step_branch.
  - apply prefix_length, steps_leaf_results, Hsteps.
  - intros Hs'. by eapply stopped_grew.
Qed.

Lemma execute_node_with_steps run_expanded n :
  (forall g, runs_in_steps run_expanded g) -> runs_in_steps (execute_node_with run_expanded) n.
Proof.
  intros Hexp. induction n as [s IH|s|s IH|s|s|s IH|s IH1 IH2|s _] using node_nested_ind; intros st st' Hi Hs;
    cbn [execute_node_with].
  - intros (st1 & H1 & [= <-])%bind_Ok. apply branch_steps; [done..|]. by eapply execute_nodes_steps.
  - intros [= <-]. by apply rtc_once, step_leaf.
  - intros (st1 & H1 & [= <-])%bind_Ok. eapply rtc_r; [by eapply execute_nodes_steps|]. by apply step_control.
  - intros [= <-]. by apply rtc_once, step_control.
  - intros [= <-]. by apply rtc_once, step_control.
  - intros ([[st1 it] p] & H1 & [= <-])%bind_Ok. eapply rtc_r; [|apply step_loop].
    eapply run_loop_steps; [|done|exact H1]. intros st2 st3 Hi2 H3. by eapply execute_nodes_steps.
  - destruct (next_predicate_result st.1 (cond_id s)) as [m p] eqn:Hp. apply next_predicate_steps in Hp.
    assert (Hi1 : stops_at_last (m, st.2).2) by done.
    destruct p; intros (st1 & H1 & [= <-])%bind_Ok;
      (eapply rtc_r; [etrans; [exact Hp|]|by apply step_control]); by (eapply execute_nodes_steps; [|exact Hi1|exact H1]).
  - destruct st as [m x]. intros ([] & _ & (st1 & H1 & [= <-])%bind_Ok)%bind_Ok.
    eapply rtc_r; [|by apply (step_control (control _ _ _ _ _) st1)]. eapply rtc_l; [apply step_generated|].
    eapply execute_nodes_steps; [|done|exact H1]. by apply Forall_true.
Qed.

Lemma execute_node_steps fuel n : runs_in_steps (execute_node fuel) n.
Proof.
  revert n. induction fuel as [|fuel IH]; intros n; cbn [execute_node]; by apply execute_node_with_steps.
Qed.

Lemma run_steps m nodes m' x : run m nodes = Ok (m', x) -> steps (m, default_execution) (m', x).
Proof.
  unfold run. intros ([] & _ & H)%bind_Ok. eapply execute_nodes_steps; [|by constructor|exact H].
  apply Forall_true. intros n. apply execute_node_steps.
Qed.

(** An invariant of the steps holds of every run. *)
Lemma run_invariant (I : mock_state -> Prop) m nodes m' x :
  (forall st st', step st st' -> I st -> I st') -> I (m, default_execution) -> run m nodes = Ok (m', x) -> I (m', x).
Proof. intros Hstep Hi Hrun%run_steps. revert Hi. induction Hrun; eauto. Qed.

(** ** What the status means *)

(** A leaf status that leaves the status of the run alone. *)
Definition neutral (s : WorkflowRunStatus) : bool := match s with Succeeded | RunPending | Running => true | _ => false end.

Definition all_well (x : WorkflowExecution) : Prop :=
  Forall (fun l => neutral (leaf_status l) = true) (leaf_results x) /\
  Forall (fun b => branch_status b = Succeeded) (branch_results x) /\
  Forall (fun c => control_kind c = LoopUntilKind -> control_status c = Succeeded) (control_node_results x).

Definition status_explained (x : WorkflowExecution) : Prop := status x = Succeeded <-> all_well x.

Lemma aggregate_not_neutral results :
  neutral (aggregate_mock_status results) = true <-> aggregate_mock_status results = Succeeded.
Proof. pose proof (aggregate_stop results) as H. by destruct (aggregate_mock_status results). Qed.

Lemma marked_Succeeded x s : status (mark_execution_for_status x s) = Succeeded <-> status x = Succeeded /\ neutral s = true.
Proof. rewrite mark_status. destruct s; cbn; naive_solver. Qed.

Lemma step_explained st st' : step st st' -> status_explained st.2 -> status_explained st'.2.
Proof.
  unfold status_explained, all_well.
  destruct 1 as [s [m x] Hs|s before [m x] _ _|s it p [m x]|c [m x] Hc _| |]; cbn [snd with_execution]; try done; intros H.
  - unfold execute_leaf. destruct (mock_leaf_outcome m s) as [m' o]. cbn [snd status leaf_results branch_results control_node_results].
    destruct (mark_frame x (outcome_status o)) as (-> & -> & -> & _). rewrite marked_Succeeded, H, Forall_app, Forall_singleton. cbn. tauto.
  - unfold finish_branch_set. cbn [status leaf_results branch_results control_node_results push_control push_branch].
    destruct (mark_frame x (aggregate_mock_status (drop before (leaf_results x)))) as (-> & -> & -> & _).
    rewrite marked_Succeeded, aggregate_not_neutral, H, !Forall_app, !Forall_singleton. cbn. naive_solver.
  - unfold finish_loop. cbn [status leaf_results branch_results control_node_results push_control].
    set (t := if should_stop_mock_execution x then _ else _). destruct (mark_frame x t) as (-> & -> & -> & _).
    rewrite marked_Succeeded, !Forall_app, !Forall_singleton, H. cbn.
    assert (Ht : status x = Succeeded -> neutral t = true <-> t = Succeeded).
    { intros E. unfold t, should_stop_mock_execution. rewrite E. cbn. by destruct p. }
    rewrite <-H. split; [intros [E N]|intros (E & N)]; [|naive_solver]. apply H in E as Hw. rewrite Ht in N by done. naive_solver.
  - cbn [status leaf_results branch_results control_node_results push_control]. rewrite Forall_app, Forall_singleton, H. naive_solver.
Qed.

(** ** A sample run

    A sequence of a leaf, a loop over a branch set, and an expansion whose
    script instantiates its template. *)

Definition no_budget : BudgetSpec :=
  {| budget_max_steps := None; budget_timeout_secs := None; max_parallel := None; max_tokens := None |}.

Definition no_permissions : PermissionSpec :=
  {| allow_write := false; allow_network := false; deny_all_tools := false; allowed_tools := []; permission_file_scope := [] |}.

Definition no_model : ModelPolicy := {| provider := None; model := None; fallback_models := [] |}.

Definition sample_leaf (id : str) : LeafSpec :=
  {| leaf_id := id; leaf_prompt := $"work"; leaf_agent_type := General; leaf_role := None; leaf_profile := None;
     leaf_mode := ReadOnly; leaf_isolation := Shared; leaf_file_scope := []; leaf_depends_on_results := [];
     leaf_budget := no_budget; leaf_permissions := no_permissions; leaf_model_policy := no_model |}.

Definition sample_expand : ExpandSpec WorkflowNode :=
  {| expand_id := $"expand"; expand_source := $"scout"; max_children := Some 2%nat; template := Some (Leaf (sample_leaf $"t")) |}.

Definition sample_forest : list WorkflowNode :=
  [Sequence {| sequence_id := $"all"; sequence_children :=
     [Leaf (sample_leaf $"scout");
      LoopUntil {| loop_id := $"loop"; loop_condition := $"done"; max_iterations := Some 3; loop_children :=
        [BranchSet {| branch_id := $"fan"; branch_description := None; branch_parallel := true; branch_budget := no_budget;
           branch_permissions := no_permissions; branch_model_policy := no_model;
           branch_children := [Leaf (sample_leaf $"a"); Leaf (sample_leaf $"b")] |}] |};
      Expand sample_expand] |}].

Definition sample_usage : WorkflowUsage :=
  {| input_tokens := Some 5; output_tokens := Some 3; cost_microusd := None |}.

Definition sample_executor : MockWorkflowExecutor :=
  {| leaf_outcomes := {[ $"scout" := outcome_of Succeeded sample_usage $"found"; $"b" := outcome_of Failed sample_usage $"bad" ]};
     predicate_results := {[ $"loop" := [false; true] ]};
     generated_nodes := {[ $"expand" := [Leaf (sample_leaf $"g1"); Leaf (sample_leaf $"g2"); Leaf (sample_leaf $"g3")] ]};
     cancelled := false; max_leaf_steps := Some 6; leaf_steps_executed := 0; max_leaf_tokens := Some 40;
     leaf_tokens_used := 0 |}.

Example sample_run :
  match run sample_executor sample_forest with
  | Ok (m, x) => status x = BudgetExceeded /\ length (leaf_results x) = 7%nat /\ leaf_steps_executed m = 6
  | Err _ => False
  end.
Proof. vm_compute. done. Qed.

(** the status of a run is explained by its results.  A run is cancelled or
    out of budget exactly when its last leaf is, and no leaf ran after such a
    one; it has succeeded exactly when every leaf, every branch set and every
    loop did. *)
Theorem run_status_is_explained m nodes m' x :
  run m nodes = Ok (m', x) ->
  (is_stop (status x) = true ->
     exists earlier l, leaf_results x = earlier ++ [l] /\ leaf_status l = status x /\
       forall e, e ∈ earlier -> is_stop (leaf_status e) = false) /\
  (is_stop (status x) = false -> forall l, l ∈ leaf_results x -> is_stop (leaf_status l) = false) /\
  (status x = Succeeded <-> all_well x).
Proof.
  intros Hrun. pose proof (run_invariant (fun st => stops_at_last st.2) _ _ _ _ step_stops ltac:(by constructor) Hrun) as H1.
  assert (H2 : status_explained (m', x).2).
  { apply (run_invariant (fun st => status_explained st.2) m nodes m' x step_explained); [|exact Hrun].
    split; [intros _; split_and!; constructor|done]. }
  unfold stops_at_last, should_stop_mock_execution in H1. cbn in H1. split_and!; [| |exact H2].
  - intros E. rewrite E in H1. destruct H1 as (earlier & l & ? & ? & Hall). exists earlier, l. split_and!; [done..|].
    by apply Forall_forall.
  - intros E. rewrite E in H1. by apply Forall_forall.
Qed.

(** ** Usage *)

Definition branch_explained (x : WorkflowExecution) (b : BranchResult) : Prop :=
  exists pre mine post, leaf_results x = pre ++ mine ++ post /\ branch_status b = aggregate_mock_status mine /\
    branch_usage b = branch_total mine /\ branch_memo_usage b = memo_total mine.

Definition usage_explained (x : WorkflowExecution) : Prop :=
  usage x = branch_total (leaf_results x) /\ memo_usage x = memo_total (leaf_results x) /\
  Forall (branch_explained x) (branch_results x).

Lemma branch_total_snoc ls l :
  branch_total (ls ++ [l]) = match ls with [] => leaf_usage l | _ => usage_add (branch_total ls) (leaf_usage l) end.
Proof. destruct ls as [|l0 ls]; [done|]. cbn. by rewrite fold_left_app. Qed.

Lemma branch_explained_grow x x' b :
  leaf_results x `prefix_of` leaf_results x' -> branch_explained x b -> branch_explained x' b.
Proof.
  intros [more Hm] (pre & mine & post & E & H). exists pre, mine, (post ++ more). split; [|done].
  by rewrite Hm, E, <-!app_assoc.
Qed.

Lemma step_usage st st' : step st st' -> usage_explained st.2 -> usage_explained st'.2.
Proof.
  intros Hstep (Hu & Hm & Hb). pose proof (step_leaf_results _ _ Hstep) as Hpre.
  assert (Hold : Forall (branch_explained st'.2) (branch_results st.2)).
  { eapply Forall_impl; [exact Hb|]. intros b. by apply branch_explained_grow. }
  unfold usage_explained.
  destruct Hstep as [s [m x] Hs|s before [m x] _ _|s it p [m x]|c [m x] Hc _| |]; cbn [snd with_execution] in *; try done.
  - unfold execute_leaf in *. destruct (mock_leaf_outcome m s) as [m' o]. cbn [snd] in *.
    cbn [usage memo_usage leaf_results branch_results] in *.
    destruct (mark_frame x (outcome_status o)) as (El & Eb & _ & Eu & Em).
    rewrite El, Eb, Eu, Em in *. split_and!; [| |done].
    + rewrite branch_total_snoc, Hu. cbn. by destruct (leaf_results x).
    + unfold memo_total. rewrite fold_left_app. cbn. by rewrite Hm.
  - unfold finish_branch_set in *. cbn [usage memo_usage leaf_results branch_results push_control push_branch] in *.
    destruct (mark_frame x (aggregate_mock_status (drop before (leaf_results x)))) as (El & Eb & _ & Eu & Em).
    rewrite El, Eb, Eu, Em in *. split_and!; [done..|]. apply Forall_app_2; [exact Hold|apply Forall_singleton].
    exists (take before (leaf_results x)), (drop before (leaf_results x)), []. cbn. rewrite app_nil_r, take_drop, El. done.
  - unfold finish_loop in *. cbn [usage memo_usage leaf_results branch_results push_control] in *.
    set (t := if should_stop_mock_execution x then _ else _) in *. destruct (mark_frame x t) as (El & Eb & _ & Eu & Em).
    by rewrite El, Eb, Eu, Em in *.
Qed.

(** All the leaves report the quantity [f]. *)
Definition reported (f : WorkflowUsage -> option Z) (ls : list LeafResult) : Prop :=
  forall l, l ∈ ls -> is_Some (f (leaf_usage l)).

Lemma fold_usage_known (f : WorkflowUsage -> option Z) ls u :
  (forall a b, f (usage_add a b) = sum_reported (f a) (f b)) ->
  is_Some (f (fold_left (fun u r => usage_add u (leaf_usage r)) ls u)) <-> is_Some (f u) /\ reported f ls.
Proof.
  intros Hf. unfold reported. revert u. induction ls as [|l ls IH]; intros u; cbn [fold_left].
  - split; [intros ?; split; [done|by intros ? ?%not_elem_of_nil]|by intros []].
  - rewrite IH, Hf. setoid_rewrite elem_of_cons. unfold sum_reported.
    destruct (f u) as [a|], (f (leaf_usage l)) as [b|] eqn:E; split; intros [H1 H2];
      try (by destruct H1); try (by destruct (H2 l (or_introl eq_refl)); congruence).
    + split; [done|]. intros l' [->|?]; [by rewrite E|auto].
    + split; [done|]. auto.
Qed.

Lemma branch_total_known f ls :
  f default_usage = None -> (forall a b, f (usage_add a b) = sum_reported (f a) (f b)) ->
  is_Some (f (branch_total ls)) <-> ls <> [] /\ reported f ls.
Proof.
  intros Hd Hf. destruct ls as [|l ls]; cbn; [rewrite Hd; split; [by intros [? ?]|by intros [? _]]|].
  rewrite fold_usage_known by done. unfold reported. setoid_rewrite elem_of_cons. naive_solver.
Qed.

(** usage is accounted honestly.  The usage of a run is the sum over its
    leaves, a quantity being known exactly when there is a leaf and every leaf
    reported it; the memo usage is the sum over all leaves; and the status and
    usage of a branch set are those of the consecutive leaves it ran. *)
Theorem usage_is_accounted m nodes m' x :
  run m nodes = Ok (m', x) ->
  usage x = branch_total (leaf_results x) /\ memo_usage x = memo_total (leaf_results x) /\
  (forall b, b ∈ branch_results x -> branch_explained x b) /\
  (forall f, f ∈ [input_tokens; output_tokens; cost_microusd] ->
     is_Some (f (usage x)) <-> leaf_results x <> [] /\ reported f (leaf_results x)).
Proof.
  intros Hrun. assert (H : usage_explained (m', x).2).
  { apply (run_invariant (fun st => usage_explained st.2) m nodes m' x step_usage); [|exact Hrun].
    split_and!; [done..|constructor]. }
  destruct H as (Hu & Hm & Hb). cbn in Hu, Hm, Hb. split_and!; [done..|by apply Forall_forall|]. intros f Hf. rewrite Hu.
  repeat (apply elem_of_cons in Hf as [->|Hf]); [by apply branch_total_known..|by apply not_elem_of_nil in Hf].
Qed.

Lemma run_status_is_explained_witness :
  match run sample_executor sample_forest with
  | Ok (_, x) => exists earlier l, leaf_results x = earlier ++ [l] /\ leaf_status l = status x /\
      forall e, e ∈ earlier -> is_stop (leaf_status e) = false
  | Err _ => False
  end.
Proof.
  destruct (run sample_executor sample_forest) as [[m x]|e] eqn:E.
  - pose proof (proj1 (run_status_is_explained _ _ _ _ E)) as H. apply H.
    vm_compute in E. injection E as <- <-. vm_compute. reflexivity.
  - vm_compute in E. discriminate.
Defined.

Lemma usage_is_accounted_witness :
  match run sample_executor sample_forest with
  | Ok (_, x) => usage x = branch_total (leaf_results x) /\ memo_usage x = memo_total (leaf_results x) /\
      (forall b, b ∈ branch_results x -> branch_explained x b) /\
      (forall f, f ∈ [input_tokens; output_tokens; cost_microusd] ->
         is_Some (f (usage x)) <-> leaf_results x <> [] /\ reported f (leaf_results x))
  | Err _ => False
  end.
Proof.
  destruct (run sample_executor sample_forest) as [[m x]|e] eqn:E.
  - exact (usage_is_accounted _ _ _ _ E).
  - vm_compute in E. discriminate.
Defined.
