(* ===== verification/WorkflowMockBounds.v ===== *)
(** * Termination and bounds of the deterministic workflow executor

    A run never lacks fuel, its budgets bound the leaves it executes, and a
    forest that passes the fleet limits launches no more leaves than its
    estimate when its expansions instantiate their templates. *)

From S2P Require Import Text WorkflowIr WorkflowMock WorkflowMockSpec.
From stdpp Require Import relations.
#[local] Open Scope Z_scope.

(** ** Budgets *)

(** The cases of a leaf: rejected before it ran, or run. *)
Lemma mock_leaf_outcome_cases m s m' o :
  mock_leaf_outcome m s = (m', o) ->
  (m' = m /\ outcome_usage o = zero_usage /\
     (cancelled m = true /\ outcome_status o = Cancelled \/ cancelled m = false /\ outcome_status o = BudgetExceeded)) \/
  (cancelled m = false /\ max_leaf_steps m <> Some (leaf_steps_executed m) /\
   (forall k, max_leaf_tokens m = Some k -> leaf_tokens_used m < k) /\
   exists tokens, m' = with_leaf_run m (leaf_id s) tokens /\
     (tokens = default 0 (total_tokens (outcome_usage o)) \/ tokens = 0 /\ outcome_status o = BudgetExceeded)).
Proof.
  unfold mock_leaf_outcome. destruct (cancelled m) eqn:Ec; [intros [= <- <-]; left; auto|].
  destruct (bool_decide _ || _) eqn:Es; [intros [= <- <-]; left; auto|]. apply orb_false_iff in Es as [Es%bool_decide_eq_false _].
  destruct (_ || bool_decide (max_tokens _ = _)) eqn:Et; [intros [= <- <-]; left; auto|]. apply orb_false_iff in Et as [Et _].
  assert (Hk : forall k, max_leaf_tokens m = Some k -> leaf_tokens_used m < k) by (intros k Ek; rewrite Ek in Et; lia).
  intros H. right. split_and!; [done..|]. set (outcome := default _ _) in H.
  destruct (max_tokens (leaf_budget s)) as [cap|], (total_tokens (outcome_usage outcome)) as [t|] eqn:E.
  1: destruct (cap <? t); injection H as <- <-; eexists; (split; [done|]); cbn; rewrite ?E; auto.
  all: injection H as <- <-; eexists; (split; [done|]); cbn; rewrite ?E; auto.
Qed.

Definition known_tokens (l : LeafResult) : Z := default 0 (total_tokens (leaf_usage l)).

Definition spent_tokens (ls : list LeafResult) : Z := fold_left (fun n l => u64_saturating_add n (known_tokens l)) ls 0.

(** The last leaf was turned away before it ran. *)
Definition turned_away (l : LeafResult) : Prop :=
  leaf_usage l = zero_usage /\ (leaf_status l = Cancelled \/ leaf_status l = BudgetExceeded).

Record within_budget (m0 : MockWorkflowExecutor) (st : mock_state) : Prop := {
  wb_cancelled : cancelled st.1 = cancelled m0;
  wb_steps : max_leaf_steps st.1 = max_leaf_steps m0;
  wb_tokens : max_leaf_tokens st.1 = max_leaf_tokens m0;
  wb_executed : 0 <= leaf_steps_executed st.1 /\ forall k, max_leaf_steps m0 = Some k -> leaf_steps_executed st.1 <= k;
  wb_leaves : forall k, max_leaf_steps m0 = Some k ->
    zlen (leaf_results st.2) <= leaf_steps_executed st.1 + (if stopped st then 1 else 0);
  wb_spent : stopped st = false -> leaf_tokens_used st.1 = spent_tokens (leaf_results st.2);
  wb_admitted : forall before l after k, leaf_results st.2 = before ++ l :: after -> max_leaf_tokens m0 = Some k ->
    spent_tokens before < k \/ (after = [] /\ turned_away l);
  wb_never : cancelled m0 = true -> leaf_steps_executed st.1 = leaf_steps_executed m0 /\ zlen (leaf_results st.2) <= (if stopped st then 1 else 0) }.

Lemma within_budget_frame m0 st m' x' :
  within_budget m0 st ->
  (cancelled m' = cancelled st.1 /\ max_leaf_steps m' = max_leaf_steps st.1 /\ max_leaf_tokens m' = max_leaf_tokens st.1 /\
   leaf_steps_executed m' = leaf_steps_executed st.1 /\ leaf_tokens_used m' = leaf_tokens_used st.1) ->
  leaf_results x' = leaf_results st.2 -> should_stop_mock_execution x' = stopped st -> within_budget m0 (m', x').
Proof.
  intros [] (E1 & E2 & E3 & E4 & E5) El Es. constructor; cbn [fst snd]; unfold stopped in *; cbn [snd] in *;
    rewrite ?E1, ?E2, ?E3, ?E4, ?E5, ?El, ?Es; auto.
Qed.

Lemma finish_branch_set_frame s before x :
  (should_stop_mock_execution x = true -> (before < length (leaf_results x))%nat) -> stops_at_last x ->
  leaf_results (finish_branch_set s before x) = leaf_results x /\
  should_stop_mock_execution (finish_branch_set s before x) = should_stop_mock_execution x.
Proof.
  intros Hb Hi. pose proof (stops_branch s before x Hb Hi) as Hi'.
  assert (El : leaf_results (finish_branch_set s before x) = leaf_results x) by apply (proj1 (mark_frame _ _)).
  split; [done|]. unfold stops_at_last in Hi, Hi'. rewrite El in Hi'.
  destruct (should_stop_mock_execution x) eqn:E1, (should_stop_mock_execution (finish_branch_set s before x)) eqn:E2; try done.
  - destruct Hi as (earlier & l & E & Hl & _). rewrite E in Hi'. apply Forall_app in Hi' as [_ Hi']. rewrite Forall_singleton in Hi'.
    unfold should_stop_mock_execution in E1. congruence.
  - destruct Hi' as (earlier & l & E & Hl & _). rewrite E in Hi. apply Forall_app in Hi as [_ Hi]. rewrite Forall_singleton in Hi.
    unfold should_stop_mock_execution in E2. congruence.
Qed.

Lemma finish_loop_stop s it p x : should_stop_mock_execution (finish_loop s it p x) = should_stop_mock_execution x.
Proof.
  unfold should_stop_mock_execution, finish_loop. cbn [status push_control]. rewrite mark_status.
  unfold should_stop_mock_execution. destruct (is_stop (status x)) eqn:E; [by destruct (status x)|]. by destruct p.
Qed.

Lemma spent_tokens_snoc ls l : spent_tokens (ls ++ [l]) = u64_saturating_add (spent_tokens ls) (known_tokens l).
Proof. unfold spent_tokens. by rewrite fold_left_app. Qed.

Lemma snoc_split {A} (ls before after : list A) y l :
  ls ++ [y] = before ++ l :: after -> (exists after', ls = before ++ l :: after' /\ after = after' ++ [y]) \/ (before = ls /\ l = y /\ after = []).
Proof.
  destruct after as [|z after _] using rev_ind; intros E.
  - apply app_inj_tail in E as [-> ->]. by right.
  - rewrite app_comm_cons, app_assoc in E. apply app_inj_tail in E as [-> ->]. left. by exists after.
Qed.

Lemma leaf_result_of m x s m' o :
  mock_leaf_outcome m s = (m', o) ->
  exists l, leaf_results (execute_leaf (m, x) s).2 = leaf_results x ++ [l] /\ (execute_leaf (m, x) s).1 = m' /\
    leaf_status l = outcome_status o /\ leaf_usage l = outcome_usage o /\
    status (execute_leaf (m, x) s).2 = match outcome_status o with Succeeded | RunPending | Running => status x | e => e end.
Proof.
  intros E. unfold execute_leaf. rewrite E. cbn [fst snd leaf_results status]. rewrite mark_status, (proj1 (mark_frame _ _)).
  eexists. split_and!; [done..|]. by destruct (outcome_status o).
Qed.

Lemma admitted_snoc x l k before y after :
  Forall (fun l => is_stop (leaf_status l) = false) (leaf_results x) ->
  (forall before y after, leaf_results x = before ++ y :: after -> spent_tokens before < k \/ (after = [] /\ turned_away y)) ->
  (spent_tokens (leaf_results x) < k \/ turned_away l) ->
  leaf_results x ++ [l] = before ++ y :: after -> spent_tokens before < k \/ (after = [] /\ turned_away y).
Proof.
  intros Hno Ha Hl E. apply snoc_split in E as [(after' & E & ->)|(-> & <- & ->)]; [|by destruct Hl; auto].
  destruct (Ha before y after' E) as [?|[-> [_ Hy]]]; [by left|]. exfalso. rewrite E in Hno.
  apply Forall_app in Hno as [_ Hno]. apply Forall_cons in Hno as [Hno _]. by destruct Hy as [Hy|Hy]; rewrite Hy in Hno.
Qed.

Lemma leaf_within_budget m0 st s :
  (forall k, max_leaf_steps m0 = Some k -> k <= u32_max) -> stopped st = false -> stops_at_last st.2 ->
  within_budget m0 st -> within_budget m0 (execute_leaf st s).
Proof.
  destruct st as [m x]. intros Hmax Hs Hi [Hc Hms Hmt [He0 He] Hl Hsp Ha Hn]. cbn [fst snd] in *. rewrite Hs in Hl, Hn.
  specialize (Hsp Hs). unfold stops_at_last in Hi. change (should_stop_mock_execution x) with (stopped (m, x)) in Hi.
  rewrite Hs in Hi. destruct (mock_leaf_outcome m s) as [m' o] eqn:Eo.
  destruct (leaf_result_of m x s m' o Eo) as (l & El & Em & Els & Elu & Est).
  assert (Hlen : zlen (leaf_results x ++ [l]) = zlen (leaf_results x) + 1) by (unfold zlen; rewrite length_app; cbn; lia).
  assert (Hstop : stopped (execute_leaf (m, x) s) = is_stop (outcome_status o)).
  { unfold stopped, should_stop_mock_execution. rewrite Est. unfold stopped, should_stop_mock_execution in Hs. cbn in Hs.
    by destruct (outcome_status o). }
  destruct (mock_leaf_outcome_cases m s m' o Eo) as [(-> & Hu & Hst)|(Hcf & Hne & Hlt & tokens & -> & Htok)].
  - assert (Hst' : is_stop (outcome_status o) = true) by (by destruct Hst as [[_ ->]|[_ ->]]).
    constructor; rewrite ?Hstop, ?El, ?Em, ?Hlen, ?Hst'; [done|done|done|done| |done| |].
    + intros k Hk. specialize (Hl k Hk). lia.
    + intros before y after k E Hk. eapply admitted_snoc; [exact Hi|by intros; eapply Ha| |exact E].
      right. split; [by rewrite Elu|]. rewrite Els. destruct Hst as [[_ ->]|[_ ->]]; auto.
    + intros Hcan. destruct (Hn Hcan). split; [done|]. lia.
  - assert (Hlt' : forall k, max_leaf_steps m0 = Some k -> leaf_steps_executed m < k).
    { intros k Hk. specialize (He k Hk). destruct (decide (leaf_steps_executed m = k)); [|lia]. congruence. }
    constructor; rewrite ?Hstop, ?El, ?Em, ?Hlen; cbn [with_leaf_run cancelled max_leaf_steps max_leaf_tokens leaf_steps_executed leaf_tokens_used];
      [done|done|done| | | | |].
    + unfold u32_saturating_add, u32_max. split; [lia|]. intros k Hk. specialize (Hlt' k Hk). lia.
    + intros k Hk. specialize (Hl k Hk). specialize (Hlt' k Hk). specialize (Hmax k Hk). unfold u32_saturating_add, u32_max in *.
      destruct (is_stop _); lia.
    + intros Hno. rewrite spent_tokens_snoc, <-Hsp. unfold known_tokens. rewrite Elu.
      destruct Htok as [->|[_ E]]; [done|by rewrite E in Hno].
    + intros before y after k E Hk. eapply admitted_snoc; [exact Hi|by intros; eapply Ha| |exact E].
      left. rewrite <-Hsp. apply Hlt. congruence.
    + intros Hcan. congruence.
Qed.

Lemma step_within_budget m0 st st' :
  (forall k, max_leaf_steps m0 = Some k -> k <= u32_max) -> step st st' ->
  stops_at_last st.2 /\ within_budget m0 st -> stops_at_last st'.2 /\ within_budget m0 st'.
Proof.
  intros Hmax Hstep [Hi Hw]. split; [by eapply step_stops|].
  destruct Hstep as [s st Hs|s before [m x] _ Hb|s it p [m x]|c [m x]| |].
  - by apply leaf_within_budget.
  - destruct (finish_branch_set_frame s before x Hb Hi). by apply (within_budget_frame _ (m, x)).
  - apply (within_budget_frame _ (m, x)); [done|done|apply (proj1 (mark_frame _ _))|apply finish_loop_stop].
  - by apply (within_budget_frame _ (m, x)).
  - by apply (within_budget_frame _ (m, x)).
  - by apply (within_budget_frame _ (m, x)).
Qed.

(** budgets bound a run.  From a fresh executor, at most as many leaves run
    as the step budget allows and at most one more is recorded, the one turned
    away; every leaf was admitted while the known tokens spent before it were
    below the token budget, or is the last and was turned away without usage;
    and a cancelled executor runs no leaf. *)
Theorem budgets_bound_the_run m nodes m' x :
  leaf_steps_executed m = 0 -> leaf_tokens_used m = 0 ->
  (forall k, max_leaf_steps m = Some k -> 0 <= k <= u32_max) ->
  run m nodes = Ok (m', x) ->
  (forall k, max_leaf_steps m = Some k -> leaf_steps_executed m' <= k /\ zlen (leaf_results x) <= k + 1) /\
  (forall k before l after, max_leaf_tokens m = Some k -> leaf_results x = before ++ l :: after ->
     spent_tokens before < k \/ (after = [] /\ turned_away l)) /\
  (cancelled m = true -> leaf_steps_executed m' = 0 /\ zlen (leaf_results x) <= 1).
Proof.
  intros He Hu Hmax Hrun.
  assert (H : stops_at_last (m', x).2 /\ within_budget m (m', x)).
  { apply (run_invariant (fun st => stops_at_last st.2 /\ within_budget m st) m nodes m' x); [|split|exact Hrun].
    - intros st st'. apply step_within_budget. intros k Hk. by apply Hmax.
    - by constructor.
    - constructor; cbn; try done.
      + rewrite He. split; [done|]. intros k Hk. by apply Hmax.
      + intros k Hk. rewrite He. done.
      + intros [] ? ?; done. }
  destruct H as [_ [_ _ _ [_ H1] H2 _ H3 H4]]. cbn in H1, H2, H3, H4. split_and!.
  - intros k Hk. specialize (H1 k Hk). specialize (H2 k Hk). split; [done|]. destruct (stopped _); lia.
  - intros k before l after Hk E. by eapply H3.
  - intros Hc. destruct (H4 Hc) as [H5 H6]. split; [lia|]. destruct (stopped _); lia.
Qed.

(** ** Termination *)

(** Every scripted expansion has well-formed nodes with distinct identifiers. *)
Definition scripts_ok (m : MockWorkflowExecutor) : Prop :=
  forall id ns, generated_nodes m !! id = Some ns -> fresh_nodes ∅ (all_nodes ns).

(** The execution from [st] ends, and only a malformed script makes it fail. *)
Definition ends_well {A} (gen : A -> gmap str (list WorkflowNode)) (m : MockWorkflowExecutor) (r : result mock_error A) : Prop :=
  match r with
  | Ok a => gen a ⊆ generated_nodes m
  | Err (MockRejected _) => ~ scripts_ok m
  | Err MockOutOfFuel => False
  end.

Abbreviation generated_of := (fun st : mock_state => generated_nodes st.1) (only parsing).

Lemma scripts_ok_mono m m' : generated_nodes m' ⊆ generated_nodes m -> scripts_ok m -> scripts_ok m'.
Proof. intros Hsub H id ns Hid. apply (H id). by eapply lookup_weaken. Qed.

Lemma ends_well_bind {A B} (gen : B -> _) m (r : result mock_error A) (genA : A -> _) (k : A -> result mock_error B) :
  ends_well genA m r ->
  (forall a m', genA a ⊆ generated_nodes m -> generated_nodes m' = genA a -> ends_well gen m' (k a)) ->
  ends_well gen m (r ≫= k).
Proof.
  intros Hr Hk. destruct r as [a|[]]; cbn in *; try done.
  specialize (Hk a (with_generated m (genA a)) Hr eq_refl). destruct (k a) as [b|[]]; cbn in *; [by etrans| |done].
  intros Hok. apply Hk. by apply (scripts_ok_mono m).
Qed.

Lemma ends_well_ext {A} (gen : A -> _) m m' (r : result mock_error A) :
  generated_nodes m = generated_nodes m' -> ends_well gen m r -> ends_well gen m' r.
Proof. unfold ends_well, scripts_ok. by intros ->. Qed.

Lemma ends_well_same {A} (gen : A -> _) m a : gen a = generated_nodes m -> ends_well gen m (Ok a).
Proof. cbn. by intros ->. Qed.

Definition node_ends (fuel : nat) (run_node : mock_state -> WorkflowNode -> result mock_error mock_state) (n : WorkflowNode) : Prop :=
  forall st, (size (generated_nodes st.1) <= fuel)%nat -> ends_well generated_of st.1 (run_node st n).

Lemma shrinks (fuel : nat) (g g' : gmap str (list WorkflowNode)) : g' ⊆ g -> (size g <= fuel)%nat -> (size g' <= fuel)%nat.
Proof. intros H%map_subseteq_size. lia. Qed.

Lemma execute_nodes_ends fuel run_node nodes st :
  Forall (node_ends fuel run_node) nodes -> (size (generated_nodes st.1) <= fuel)%nat ->
  ends_well generated_of st.1 (execute_nodes run_node st nodes).
Proof.
  intros H. revert st. induction H as [|n nodes Hn _ IH]; intros st Hf; cbn [execute_nodes]; [by apply ends_well_same|].
  destruct (should_stop_mock_execution st.2); [by apply ends_well_same|]. eapply ends_well_bind; [by apply Hn|].
  intros st1 m1 Hsub Hm1. eapply ends_well_ext; [symmetry; exact Hm1|]. apply IH. by eapply shrinks.
Qed.

Lemma next_predicate_generated m id : generated_nodes (next_predicate_result m id).1 = generated_nodes m.
Proof. unfold next_predicate_result. by destruct (predicate_results m !! id) as [[|]|]. Qed.

Lemma run_loop_ends fuel body id remaining iterations st :
  (forall st, (size (generated_nodes st.1) <= fuel)%nat -> ends_well generated_of st.1 (body st)) ->
  (size (generated_nodes st.1) <= fuel)%nat ->
  ends_well (fun r : mock_state * Z * bool => generated_nodes r.1.1.1) st.1 (run_loop body id remaining iterations st).
Proof.
  intros Hbody. revert iterations st. induction remaining as [|k IH]; intros iterations st Hf; cbn [run_loop]; [by apply ends_well_same|].
  destruct (should_stop_mock_execution st.2); [by apply ends_well_same|]. eapply ends_well_bind; [by apply Hbody|].
  intros st1 m1 Hsub Hm1. destruct (should_stop_mock_execution st1.2); [by apply ends_well_same|].
  pose proof (next_predicate_generated st1.1 id) as Hg. destruct (next_predicate_result st1.1 id) as [m2 p]. cbn in Hg.
  destruct p; [apply ends_well_same; cbn; congruence|]. eapply ends_well_ext; [|apply IH]; cbn; [congruence|].
  rewrite Hg. by eapply shrinks.
Qed.

Lemma take_fresh seen k ns : fresh_nodes seen (all_nodes ns) -> fresh_nodes seen (all_nodes (take k ns)).
Proof.
  rewrite <-(take_drop k ns) at 1. unfold all_nodes. rewrite bind_app, fresh_nodes_app. tauto.
Qed.

Lemma expansion_ok m s : scripts_ok m -> fresh_nodes ∅ (all_nodes (expansion m s)).
Proof.
  intros Hok. unfold expansion. assert (H : fresh_nodes ∅ (all_nodes (default [] (generated_nodes m !! expand_id s)))).
  { destruct (generated_nodes m !! expand_id s) as [ns|] eqn:E; [by eapply Hok|apply fresh_nodes_nil]. }
  destruct (max_children s); [by apply take_fresh|done].
Qed.

Lemma validate_shapes_Ok ns u : validate_workflow_node_shapes ns = Ok u <-> fresh_nodes ∅ (all_nodes ns).
Proof. destruct u. unfold validate_workflow_node_shapes. rewrite bind_Ok. setoid_rewrite validate_inner_Ok. naive_solver. Qed.

Lemma execute_node_with_ends fuel run_expanded n :
  (forall g fuel', (fuel' < fuel)%nat -> node_ends fuel' run_expanded g) -> node_ends fuel (execute_node_with run_expanded) n.
Proof.
  intros Hexp. induction n as [s IH|s|s IH|s|s|s IH|s IH1 IH2|s _] using node_nested_ind; intros st Hf; cbn [execute_node_with].
  - eapply ends_well_bind; [by eapply execute_nodes_ends|]. intros st1 m1 _ Hm1. by apply ends_well_same.
  - destruct st as [m x]. unfold execute_leaf. destruct (mock_leaf_outcome m s) as [m' o] eqn:E.
    destruct (mock_leaf_outcome_cases _ _ _ _ E) as [(-> & _)|(_ & _ & _ & t & -> & _)]; by apply ends_well_same.
  - eapply ends_well_bind; [by eapply execute_nodes_ends|]. intros st1 m1 _ Hm1. by apply ends_well_same.
  - by apply ends_well_same.
  - by apply ends_well_same.
  - eapply ends_well_bind; [eapply run_loop_ends; [|exact Hf]|].
    + intros st1 Hf1. by eapply execute_nodes_ends.
    + intros [[st1 it] p] m1 _ Hm1. by apply ends_well_same.
  - pose proof (next_predicate_generated st.1 (cond_id s)) as Hg.
    destruct (next_predicate_result st.1 (cond_id s)) as [m p]. cbn in Hg.
    assert (Hcond : forall nodes k, Forall (node_ends fuel (execute_node_with run_expanded)) nodes ->
      ends_well generated_of st.1 (st1 ← execute_nodes (execute_node_with run_expanded) (m, st.2) nodes;
        Ok (with_execution st1 k))); [|by destruct p; apply Hcond].
    intros nodes k Hn. eapply ends_well_bind.
    + eapply ends_well_ext; [exact Hg|]. apply (execute_nodes_ends fuel _ nodes (m, st.2)); [done|cbn; by rewrite Hg].
    + intros st1 m1 _ Hm1. by apply ends_well_same.
  - destruct (validate_workflow_node_shapes (expansion st.1 s)) as [u|e] eqn:Ev; cbn [map_err mbind result_bind].
    2: { cbn. intros Hok%(expansion_ok _ s). apply (validate_shapes_Ok _ tt) in Hok. congruence. }
    set (m1 := with_generated st.1 (delete (expand_id s) (generated_nodes st.1))).
    assert (Hsub : generated_nodes m1 ⊆ generated_nodes st.1) by apply delete_subseteq.
    assert (He : ends_well generated_of st.1 (execute_nodes run_expanded (m1, st.2) (expansion st.1 s))).
    { unfold expansion. destruct (generated_nodes st.1 !! expand_id s) as [ns|] eqn:E.
      - assert (Hsize : (size (generated_nodes m1) < fuel)%nat).
        { pose proof (map_size_delete_Some (expand_id s) (generated_nodes st.1) (mk_is_Some _ _ E)) as Hd.
          assert (size (generated_nodes st.1) <> 0)%nat by (rewrite map_size_ne_0_lookup; eauto).
          unfold m1. cbn. lia. }
        pose proof (execute_nodes_ends (size (generated_nodes m1)) run_expanded
          match max_children s with Some max => take max ns | None => ns end (m1, st.2)) as Hn.
        cbn [default from_option id]. unfold ends_well in Hn |- *. cbn [fst] in Hn.
        destruct (execute_nodes _ _ _) as [st1|[e|]]; cbn.
        + etrans; [|exact Hsub]. apply Hn; [|done]. apply Forall_true. intros g. by apply Hexp.
        + intros Hok. apply Hn; [|done|by eapply scripts_ok_mono]. apply Forall_true. intros g. by apply Hexp.
        + apply Hn; [|done]. apply Forall_true. intros g. by apply Hexp.
      - destruct (max_children s) as [k|]; cbn [default from_option id]; rewrite ?take_nil; exact Hsub. }
    eapply ends_well_bind; [exact He|]. intros st1 m2 _ Hm2. by apply ends_well_same.
Qed.

Lemma execute_node_ends fuel n : node_ends fuel (execute_node fuel) n.
Proof.
  revert n. induction fuel as [|fuel IH]; intros n; cbn [execute_node]; apply execute_node_with_ends.
  - intros g fuel'. lia.
  - intros g fuel' Hlt st Hf. apply IH. lia.
Qed.

(** a run ends.  The executor always has fuel enough; it succeeds on a valid
    forest whose scripted expansions are well formed, and every error is the
    validation's. *)
Theorem run_always_ends m nodes :
  match run m nodes with
  | Ok (m', _) => validate_workflow_nodes nodes = Ok tt /\ generated_nodes m' ⊆ generated_nodes m
  | Err (MockRejected _) => validate_workflow_nodes nodes <> Ok tt \/ ~ scripts_ok m
  | Err MockOutOfFuel => False
  end.
Proof.
  unfold run. destruct (validate_workflow_nodes nodes) as [[]|e] eqn:Ev; cbn [map_err mbind result_bind]; [|by left].
  pose proof (execute_nodes_ends (expand_fuel m) (execute_node (expand_fuel m)) nodes (m, default_execution)) as H.
  cbn [fst] in H. unfold ends_well in H. destruct (execute_nodes _ _ _) as [[m' x]|[e|]].
  - split; [done|]. apply H; [|done]. apply Forall_true. intros n. apply execute_node_ends.
  - right. apply H; [|done]. apply Forall_true. intros n. apply execute_node_ends.
  - apply H; [|done]. apply Forall_true. intros n. apply execute_node_ends.
Qed.

(** ** The size of a fleet *)

(** The scripts of [m] instantiate the templates of the tree: every generated
    node of an [Expand] is estimated no larger than its template. *)
Inductive conforms (m : MockWorkflowExecutor) : WorkflowNode -> Prop :=
| conforms_branch s : (forall c, c ∈ branch_children s -> conforms m c) -> conforms m (BranchSet s)
| conforms_leaf s : conforms m (Leaf s)
| conforms_sequence s : (forall c, c ∈ sequence_children s -> conforms m c) -> conforms m (Sequence s)
| conforms_reduce s : conforms m (Reduce s)
| conforms_review s : conforms m (TeacherReview s)
| conforms_loop s : (forall c, c ∈ loop_children s -> conforms m c) -> conforms m (LoopUntil s)
| conforms_cond s :
    (forall c, c ∈ then_nodes s -> conforms m c) -> (forall c, c ∈ else_nodes s -> conforms m c) -> conforms m (Cond s)
| conforms_expand s :
    (forall t ns g, template s = Some t -> generated_nodes m !! expand_id s = Some ns -> g ∈ ns -> conforms m g) ->
    (forall t ns g depth shape, template s = Some t -> generated_nodes m !! expand_id s = Some ns -> g ∈ ns ->
       estimate_node_fleet_shape depth t = Ok shape ->
       exists shape', estimate_node_fleet_shape depth g = Ok shape' /\ total_agents shape' <= total_agents shape) ->
    conforms m (Expand s).

Lemma conforms_shrink m m' n : generated_nodes m' ⊆ generated_nodes m -> conforms m n -> conforms m' n.
Proof.
  intros Hsub. revert n. fix IH 2. intros n [s H|s|s H|s|s|s H|s H1 H2|s H1 H2]; constructor; try (intros c Hc; by apply IH, H).
  - intros c Hc. by apply IH, H1.
  - intros c Hc. by apply IH, H2.
  - intros t ns g Ht Hg Hin. apply IH. eapply H1; [done|by eapply lookup_weaken|done].
  - intros t ns g d shape Ht Hg Hin. eapply H2; [done|by eapply lookup_weaken|done].
Qed.

Definition in_range (shape : WorkflowFleetShape) : Prop := 0 <= total_agents shape <= usize_max.

Definition estimate_nodes (depth : Z) (acc : WorkflowFleetShape) (nodes : list WorkflowNode) :=
  foldM (fun shape n => s ← estimate_node_fleet_shape depth n; Ok (shape_add shape s)) acc nodes.

Definition estimate_sound (n : WorkflowNode) : Prop :=
  forall depth s, estimate_node_fleet_shape depth n = Ok s -> in_range s.

Lemma shape_add_range a b : in_range a -> in_range b -> in_range (shape_add a b) /\ total_agents a <= total_agents (shape_add a b).
Proof. unfold in_range, shape_add, usize_saturating_add. cbn. lia. Qed.

Lemma shape_repeat_range a k : in_range a -> 0 <= k -> in_range (shape_repeat a k).
Proof. unfold in_range, shape_repeat, usize_saturating_mul, usize_max. cbn. nia. Qed.

Lemma estimate_nodes_range depth nodes acc shape :
  Forall estimate_sound nodes -> in_range acc -> estimate_nodes depth acc nodes = Ok shape ->
  in_range shape /\ total_agents acc <= total_agents shape.
Proof.
  intros H. revert acc. induction H as [|n nodes Hn _ IH]; intros acc Hacc; [by intros [= <-]|].
  unfold estimate_nodes. cbn [foldM]. intros (s1 & (s & Hs & [= <-])%bind_Ok & Hrest)%bind_Ok.
  destruct (shape_add_range acc s Hacc (Hn _ _ Hs)) as [Hr Hle]. destruct (IH _ Hr Hrest). split; [done|lia].
Qed.

Lemma default_shape_range : in_range default_shape.
Proof. unfold in_range, usize_max. cbn. lia. Qed.

Lemma estimate_in_range n : estimate_sound n.
Proof.
  induction n as [s IH|s|s IH|s|s|s IH|s IH1 IH2|s IH] using node_nested_ind; intros depth shape; cbn [estimate_node_fleet_shape].
  1,3: intros H; by eapply (estimate_nodes_range _ _ default_shape _ IH default_shape_range) in H as [? _].
  1,2,3: intros [= <-]; unfold in_range, usize_max; cbn; lia.
  - intros (k & _ & (s1 & H & [= <-])%bind_Ok)%bind_Ok. apply shape_repeat_range; [|lia].
    by apply (estimate_nodes_range _ _ default_shape _ IH default_shape_range) in H as [? _].
  - intros (a & Ha & (b & Hb & [= <-])%bind_Ok)%bind_Ok.
    apply (estimate_nodes_range _ _ default_shape _ IH1 default_shape_range) in Ha as [Ha _].
    apply (estimate_nodes_range _ _ default_shape _ IH2 default_shape_range) in Hb as [Hb _].
    by apply shape_add_range.
  - intros (k & _ & H)%bind_Ok. destruct (template s) as [t|]; [|done].
    apply bind_Ok in H as ([] & _ & (s1 & H & [= <-])%bind_Ok). apply IH in H. apply shape_repeat_range; [done|lia].
Qed.

Lemma estimates_range nodes : Forall estimate_sound nodes.
Proof. apply Forall_true, estimate_in_range. Qed.

(** The leaves an execution may add: [k] of them. *)
Definition launches_at_most (k : Z) (st : mock_state) (r : result mock_error mock_state) : Prop :=
  match r with Ok st' => Z.of_nat (leaves st') <= Z.of_nat (leaves st) + k | Err _ => True end.

Definition node_launches (fuel : nat) (run_node : mock_state -> WorkflowNode -> result mock_error mock_state)
  (n : WorkflowNode) : Prop :=
  forall depth shape st, (size (generated_nodes st.1) <= fuel)%nat -> conforms st.1 n ->
    estimate_node_fleet_shape depth n = Ok shape -> total_agents shape < usize_max ->
    launches_at_most (total_agents shape) st (run_node st n).

Lemma execute_nodes_launches fuel run_node nodes depth acc shape st :
  Forall (node_launches fuel run_node) nodes -> Forall (node_ends fuel run_node) nodes ->
  (size (generated_nodes st.1) <= fuel)%nat -> (forall n, n ∈ nodes -> conforms st.1 n) -> in_range acc ->
  estimate_nodes depth acc nodes = Ok shape -> total_agents shape < usize_max ->
  launches_at_most (total_agents shape - total_agents acc) st (execute_nodes run_node st nodes).
Proof.
  intros Hl He. revert acc st. induction Hl as [|n nodes Hn Hl IH]; intros acc st Hf Hc Hacc; unfold estimate_nodes;
    cbn [foldM execute_nodes].
  { intros [= <-] _. cbn. lia. }
  apply Forall_cons in He as [Hen He]. intros (s1 & (s & Hs & [= <-])%bind_Ok & Hrest)%bind_Ok Hmax.
  pose proof (estimate_in_range n _ _ Hs) as Hr. destruct (shape_add_range acc s Hacc Hr) as [Hr1 Hle].
  destruct (estimate_nodes_range _ _ _ _ (estimates_range nodes) Hr1 Hrest) as [_ Hle2].
  assert (Hadd : total_agents (shape_add acc s) = total_agents acc + total_agents s)
    by (unfold shape_add, usize_saturating_add in *; cbn in *; lia).
  destruct (should_stop_mock_execution st.2); [cbn; unfold in_range in Hr; lia|].
  assert (Hns : launches_at_most (total_agents s) st (run_node st n)).
  { eapply Hn; [done|apply Hc; by left|exact Hs|]. unfold in_range in *. lia. }
  pose proof (Hen st Hf) as Hend. destruct (run_node st n) as [st1|]; [|done]. cbn in Hns, Hend |- *.
  assert (H1 : launches_at_most (total_agents shape - total_agents (shape_add acc s)) st1 (execute_nodes run_node st1 nodes)).
  { apply IH; [done|by eapply shrinks| |done|done|done]. intros m Hm. eapply conforms_shrink; [exact Hend|]. apply Hc. by right. }
  destruct (execute_nodes run_node st1 nodes); [|done]. cbn in *. lia.
Qed.

Lemma launches_weaken k k' st r : k <= k' -> launches_at_most k st r -> launches_at_most k' st r.
Proof. intros Hk. destruct r; cbn; [lia|done]. Qed.

(** A step that only appends to the record adds no leaf. *)
Lemma launches_finish k st r (f : WorkflowExecution -> WorkflowExecution) :
  (forall x, leaf_results (f x) = leaf_results x) ->
  launches_at_most k st r -> launches_at_most k st (st1 ← r; Ok (with_execution st1 f)).
Proof. intros Hf. destruct r as [st1|]; cbn; [|done]. unfold leaves, with_execution. cbn. by rewrite Hf. Qed.

Lemma run_loop_launches fuel body id remaining iterations k st :
  0 <= k ->
  (forall st1, (size (generated_nodes st1.1) <= fuel)%nat -> generated_nodes st1.1 ⊆ generated_nodes st.1 ->
     launches_at_most k st1 (body st1) /\ ends_well generated_of st1.1 (body st1)) ->
  (size (generated_nodes st.1) <= fuel)%nat ->
  match run_loop body id remaining iterations st with
  | Ok (st', _, _) => Z.of_nat (leaves st') <= Z.of_nat (leaves st) + k * Z.of_nat remaining
  | Err _ => True
  end.
Proof.
  intros Hk Hbody Hf. assert (Hgen : forall it st1, generated_nodes st1.1 ⊆ generated_nodes st.1 ->
    match run_loop body id remaining it st1 with
    | Ok (st', _, _) => Z.of_nat (leaves st') <= Z.of_nat (leaves st1) + k * Z.of_nat remaining
    | Err _ => True
    end); [|by apply Hgen]. clear iterations.
  induction remaining as [|n IH]; intros it st1 Hsub; cbn [run_loop]; [lia|].
  destruct (should_stop_mock_execution st1.2); [nia|]. destruct (Hbody st1) as [Hl He]; [by eapply shrinks|done|].
  destruct (body st1) as [st2|]; [|done]. cbn in Hl, He |- *. destruct (should_stop_mock_execution st2.2); [nia|].
  pose proof (next_predicate_generated st2.1 id) as Hg. destruct (next_predicate_result st2.1 id) as [m p]. cbn in Hg.
  destruct p; [unfold leaves in *; cbn; nia|]. specialize (IH (it + 1) (m, st2.2)). cbn [fst] in IH.
  rewrite Hg in IH. specialize (IH ltac:(by etrans)). destruct (run_loop _ _ _ _ _) as [[[st3 ?] ?]|]; [|done].
  unfold leaves in *. cbn [snd] in IH. nia.
Qed.

Lemma default_estimate depth nodes : 
  foldM (fun shape n => s ← estimate_node_fleet_shape depth n; Ok (shape_add shape s)) default_shape nodes
  = estimate_nodes depth default_shape nodes.
Proof. done. Qed.

Lemma children_launch fuel run_node nodes depth shape st :
  Forall (node_launches fuel run_node) nodes -> Forall (node_ends fuel run_node) nodes ->
  (size (generated_nodes st.1) <= fuel)%nat -> (forall n, n ∈ nodes -> conforms st.1 n) ->
  estimate_nodes depth default_shape nodes = Ok shape -> total_agents shape < usize_max ->
  launches_at_most (total_agents shape) st (execute_nodes run_node st nodes).
Proof.
  intros Hl He Hf Hc Hs Hmax.
  pose proof (execute_nodes_launches fuel run_node nodes depth default_shape shape st Hl He Hf Hc default_shape_range Hs Hmax).
  eapply launches_weaken; [|done]. cbn. lia.
Qed.

Lemma repeat_bound shape k : in_range shape -> 0 <= k -> total_agents (shape_repeat shape k) < usize_max ->
  total_agents (shape_repeat shape k) = total_agents shape * k.
Proof. unfold shape_repeat, usize_saturating_mul. cbn. lia. Qed.

Lemma replicate_launches fuel run_node nodes k st :
  0 <= k -> Forall (node_ends fuel run_node) nodes ->
  (forall g st1, g ∈ nodes -> generated_nodes st1.1 ⊆ generated_nodes st.1 -> launches_at_most k st1 (run_node st1 g)) ->
  (size (generated_nodes st.1) <= fuel)%nat ->
  launches_at_most (k * Z.of_nat (length nodes)) st (execute_nodes run_node st nodes).
Proof.
  intros Hk He. revert st. induction He as [|g nodes Hg He IH]; intros st Hrun Hf; cbn [execute_nodes length]; [cbn; lia|].
  destruct (should_stop_mock_execution st.2); [cbn; nia|]. pose proof (Hg st Hf) as Hend.
  pose proof (Hrun g st ltac:(by left) ltac:(done)) as Hl. destruct (run_node st g) as [st1|]; [|done]. cbn in Hl, Hend |- *.
  assert (H1 : launches_at_most (k * Z.of_nat (length nodes)) st1 (execute_nodes run_node st1 nodes)).
  { apply IH; [|by eapply shrinks]. intros g' st2 Hin Hsub. apply Hrun; [by right|by etrans]. }
  destruct (execute_nodes run_node st1 nodes); [|done]. cbn in *. nia.
Qed.

(** Removing a scripted expansion leaves less fuel to need. *)
Lemma delete_shrinks (fuel : nat) (g : gmap str (list WorkflowNode)) (id : str) ns :
  g !! id = Some ns -> (size g <= fuel)%nat -> (size (delete id g) < fuel)%nat.
Proof.
  intros E Hf. pose proof (map_size_delete_Some id g (mk_is_Some _ _ E)).
  assert (size g <> 0)%nat by (rewrite map_size_ne_0_lookup; eauto). lia.
Qed.

Lemma expand_launches fuel run_expanded s shape k t st :
  (forall g fuel', (fuel' < fuel)%nat -> node_ends fuel' run_expanded g /\ node_launches fuel' run_expanded g) ->
  (size (generated_nodes st.1) <= fuel)%nat -> conforms st.1 (Expand s) ->
  max_children s = Some k -> template s = Some t -> in_range shape -> total_agents shape < usize_max ->
  (exists depth, estimate_node_fleet_shape depth t = Ok shape) ->
  launches_at_most (total_agents shape * Z.of_nat k) st
    (execute_nodes run_expanded (with_generated st.1 (delete (expand_id s) (generated_nodes st.1)), st.2) (expansion st.1 s)).
Proof.
  intros Hexp Hf Hc Hk Ht [Hr _] Hmax (depth & Hs). unfold expansion. rewrite Hk.
  destruct (generated_nodes st.1 !! expand_id s) as [ns|] eqn:E; cbn [default from_option id].
  2: { rewrite take_nil. cbn. unfold leaves. cbn. nia. }
  inversion Hc as [| | | | | | |s0 Hc1 Hc2]; subst s0. pose proof (delete_shrinks fuel _ _ _ E Hf) as Hlt.
  apply (launches_weaken (total_agents shape * Z.of_nat (length (take k ns)))); [rewrite length_take; nia|].
  apply (replicate_launches (size (delete (expand_id s) (generated_nodes st.1)))
    run_expanded (take k ns) (total_agents shape)
    (with_generated st.1 (delete (expand_id s) (generated_nodes st.1)), st.2)); [done| | |done].
  - apply Forall_true. intros g. by apply Hexp.
  - intros g st1 Hg Hsub1. cbn in Hsub1. assert (Hin : g ∈ ns) by (apply elem_of_take in Hg as (? & ? & _); by eapply list_elem_of_lookup_2).
    destruct (Hc2 t ns g depth shape Ht E Hin Hs) as (sg & Hsg & Hle). apply (launches_weaken (total_agents sg)); [done|].
    eapply (proj2 (Hexp g _ Hlt)); [by eapply shrinks| |exact Hsg|lia].
    eapply conforms_shrink; [|by eapply (Hc1 t ns)]. etrans; [exact Hsub1|apply delete_subseteq].
Qed.

(** One level of the executor, given the next. *)
Lemma execute_node_with_launches fuel run_expanded n :
  (forall g fuel', (fuel' < fuel)%nat -> node_ends fuel' run_expanded g /\ node_launches fuel' run_expanded g) ->
  node_launches fuel (execute_node_with run_expanded) n.
Proof.
  intros Hexp. assert (Hends : forall nodes, Forall (node_ends fuel (execute_node_with run_expanded)) nodes).
  { intros nodes. apply Forall_true. intros m. apply execute_node_with_ends. intros g fuel' Hlt. by apply Hexp. }
  induction n as [s IH|s|s IH|s|s|s IH|s IH1 IH2|s _] using node_nested_ind; intros depth shape st Hf Hc Hs Hmax;
    inversion Hc as [s0 Hcs|s0|s0 Hcs|s0|s0|s0 Hcs|s0 Hc1 Hc2|s0 Hc1 Hc2]; subst s0; cbn [execute_node_with];
    cbn [estimate_node_fleet_shape] in Hs; rewrite ?default_estimate in Hs.
  - apply launches_finish; [intros x; apply (proj1 (mark_frame _ _))|]. by eapply children_launch.
  - injection Hs as <-. destruct st as [m x]. unfold launches_at_most, leaves.
    destruct (mock_leaf_outcome m s) as [m' o] eqn:E. destruct (leaf_result_of m x s m' o E) as (l & -> & _).
    rewrite length_app. cbn. lia.
  - apply launches_finish; [done|]. by eapply children_launch.
  - injection Hs as <-. cbn. unfold leaves. cbn. lia.
  - injection Hs as <-. cbn. unfold leaves. cbn. lia.
  - apply bind_Ok in Hs as (k & Hk%ok_or_Ok & Hs). apply bind_Ok in Hs as (inner & Hs & [= <-]).
    destruct (estimate_nodes_range _ _ _ _ (estimates_range _) default_shape_range Hs) as [Hr _].
    rewrite repeat_bound in * by (done || lia). assert (Hin : total_agents inner < usize_max) by (unfold in_range in Hr; nia).
    pose proof (run_loop_launches fuel (fun st => execute_nodes (execute_node_with run_expanded) st (loop_children s))
      (loop_id s) (loop_bound s) 0 (total_agents inner) st (proj1 Hr)) as Hloop.
    destruct (run_loop _ _ _ _ st) as [[[st1 it] p]|e]; [|done]. cbn. unfold leaves in *. cbn.
    rewrite (proj1 (mark_frame _ _)). unfold loop_bound in Hloop. rewrite Hk in Hloop. cbn in Hloop.
    rewrite Z2Nat.id in Hloop by lia. apply Hloop; [|done]. intros st2 Hf2 Hsub. split.
    + eapply children_launch; [exact IH|apply Hends|done| |exact Hs|done]. intros m Hm. eapply conforms_shrink; [exact Hsub|auto].
    + by eapply execute_nodes_ends.
  - apply bind_Ok in Hs as (a & Ha & Hs). apply bind_Ok in Hs as (b & Hb & [= <-]).
    destruct (estimate_nodes_range _ _ _ _ (estimates_range _) default_shape_range Ha) as [Hra _].
    destruct (estimate_nodes_range _ _ _ _ (estimates_range _) default_shape_range Hb) as [Hrb _].
    assert (Hadd : total_agents (shape_add a b) = total_agents a + total_agents b)
      by (unfold shape_add, usize_saturating_add in *; cbn in *; lia).
    rewrite Hadd in *. pose proof (next_predicate_generated st.1 (cond_id s)) as Hg. unfold in_range in *.
    destruct (next_predicate_result st.1 (cond_id s)) as [m p]. cbn in Hg.
    assert (Hsub : generated_nodes m ⊆ generated_nodes st.1) by (by rewrite Hg).
    destruct p; (apply launches_finish; [done|]).
    + apply (launches_weaken (total_agents a)); [lia|].
      apply (children_launch fuel _ _ depth a (m, st.2)); [exact IH1|apply Hends|by eapply shrinks| |done|lia].
      intros c Hc'. eapply conforms_shrink; [exact Hsub|auto].
    + apply (launches_weaken (total_agents b)); [lia|].
      apply (children_launch fuel _ _ depth b (m, st.2)); [exact IH2|apply Hends|by eapply shrinks| |done|lia].
      intros c Hc'. eapply conforms_shrink; [exact Hsub|auto].
  - apply bind_Ok in Hs as (k & Hk%ok_or_Ok & Hs). destruct (template s) as [t|] eqn:Et; [|done].
    apply bind_Ok in Hs as ([] & _ & Hs). apply bind_Ok in Hs as (inner & Hs & [= <-]).
    pose proof (estimate_in_range t _ _ Hs) as Hr. rewrite repeat_bound in * by (done || lia).
    destruct (validate_workflow_node_shapes (expansion st.1 s)) as [u|]; [|done]. cbn [map_err mbind result_bind].
    apply launches_finish; [done|]. destruct k as [|k].
    { unfold expansion. rewrite Hk, take_0. unfold launches_at_most, leaves. cbn [execute_nodes snd]. lia. }
    eapply expand_launches; [exact Hexp|done|done|done|done|done|unfold in_range in Hr; nia|by exists depth].
Qed.

Lemma execute_node_launches fuel n : node_launches fuel (execute_node fuel) n.
Proof.
  revert n. induction fuel as [|fuel IH]; intros n; cbn [execute_node]; apply execute_node_with_launches.
  - intros g fuel'. lia.
  - intros g fuel' Hlt. split.
    + intros st Hf. apply execute_node_ends. lia.
    + intros depth shape st Hf. apply IH. lia.
Qed.

(** C27: a fleet stays within its estimate.  When a specification passes the fleet
    limits and the scripted expansions instantiate the templates of its
    [Expand] nodes, no run records more leaves than the estimate, nor than the
    limit: whatever branches are taken and however often the loops repeat. *)
Theorem fleet_stays_within_estimate m spec limits shape m' x :
  validate_for_fleet_with_limits spec limits = Ok shape -> max_total_agents limits < usize_max ->
  (forall n, n ∈ spec_nodes spec -> conforms m n) ->
  run m (spec_nodes spec) = Ok (m', x) ->
  zlen (leaf_results x) <= total_agents shape <= max_total_agents limits /\ max_depth shape <= limit_max_depth limits.
Proof.
  unfold validate_for_fleet_with_limits. intros Hv Hmax Hc Hrun. apply bind_Ok in Hv as ([] & _ & Hv).
  apply bind_Ok in Hv as (s & Hs & Hv). rewrite !seq_Ok, !reject_if_Ok in Hv. destruct Hv as (Ht & Hd & [= <-]).
  unfold run in Hrun. apply bind_Ok in Hrun as ([] & _ & Hrun).
  pose proof (children_launch (expand_fuel m) (execute_node (expand_fuel m)) (spec_nodes spec) 1 s (m, default_execution)) as H.
  rewrite Hrun in H. cbn in H. unfold zlen. split; [|lia]. split; [|lia]. unfold leaves in H. cbn in H.
  apply H; [apply Forall_true; intros n; apply execute_node_launches|apply Forall_true; intros n; apply execute_node_ends|
    done|done|done|lia].
Qed.

Lemma budgets_bound_the_run_witness :
  match run sample_executor sample_forest with
  | Ok (m', x) => leaf_steps_executed m' <= 6 /\ zlen (leaf_results x) <= 7
  | Err _ => False
  end.
Proof.
  destruct (run sample_executor sample_forest) as [[m x]|e] eqn:E.
  - apply (budgets_bound_the_run sample_executor sample_forest m x); [done|done| |exact E|done].
    intros k [= <-]. unfold u32_max. lia.
  - vm_compute in E. discriminate.
Defined.

Definition sample_spec : WorkflowSpec :=
  {| spec_id := None; spec_goal := $"goal"; spec_description := None; spec_budget := no_budget;
     spec_permissions := no_permissions; spec_model_policy := no_model;
     spec_promotion_policy := {| strategy := All; require_teacher_review := false; min_successful_branches := None;
       promotion_gate := {| min_score_delta := 1; max_cost_delta_microusd := None; require_all_tests_pass := true;
         reject_policy_violations := true; reject_stale_replay := true |} |};
     spec_gates := []; spec_nodes := sample_forest |}.

Lemma sample_conforms n : n ∈ sample_forest -> conforms sample_executor n.
Proof.
  assert (Hleaf : forall id ns g, generated_nodes sample_executor !! id = Some ns -> g ∈ ns -> exists i, g = Leaf (sample_leaf i)).
  { intros id ns g. cbn. intros H Hg. apply lookup_singleton_Some in H as [_ <-].
    repeat (apply elem_of_cons in Hg as [->|Hg]; [by eexists|]). by apply not_elem_of_nil in Hg. }
  intros ->%list_elem_of_singleton. constructor. cbn [sequence_children]. intros c Hc.
  apply elem_of_cons in Hc as [->|Hc]; [constructor|]. apply elem_of_cons in Hc as [->|Hc].
  - constructor. cbn. intros c ->%list_elem_of_singleton. constructor. cbn. intros c Hc.
    repeat (apply elem_of_cons in Hc as [->|Hc]; [constructor|]). by apply not_elem_of_nil in Hc.
  - apply list_elem_of_singleton in Hc as ->. constructor.
    + intros t ns g _ Hns Hg. destruct (Hleaf _ _ _ Hns Hg) as [i ->]. constructor.
    + intros t ns g depth shape [= <-] Hns Hg [= <-]. destruct (Hleaf _ _ _ Hns Hg) as [i ->]. by eexists.
Qed.

Lemma fleet_stays_within_estimate_witness :
  match run sample_executor (spec_nodes sample_spec) with
  | Ok (_, x) => zlen (leaf_results x) <= 9 <= 1000 /\ 2 <= 5
  | Err _ => False
  end.
Proof.
  destruct (run sample_executor (spec_nodes sample_spec)) as [[m x]|e] eqn:E.
  - apply (fleet_stays_within_estimate sample_executor sample_spec default_limits {| total_agents := 9; max_depth := 2 |} m x).
    + vm_compute. reflexivity.
    + vm_compute. reflexivity.
    + intros n. apply sample_conforms.
    + exact E.
  - vm_compute in E. discriminate.
Defined.
