(* ===== verification/WorkflowPromotion.v ===== *)
(** * Promotion of workflow results

    [crates/workflow/src/lib.rs]: candidates drafted by a teacher review, the
    gate that promotes one by its student replay, and the selection of
    branches by a tournament and by a Pareto frontier. *)

From S2P Require Import Text.
From S2P Require Export WorkflowMock.

(** ** Data *)

Record BranchCandidate := {
  candidate_branch_id : str; candidate_status : WorkflowRunStatus; score : Z; cost : Z; diversity_key : option str }.

Inductive TeacherCandidateKind :=
| Note | WorkflowRecipe | SkillPatch | RegressionTest | CachePolicyPatch | BranchHeuristic | AuthoringPromptPatch.

Inductive TeacherCandidateStatus := Proposed | Accepted | Rejected | Promoted.

Record StudentReplayMetrics := { replay_score : Z; replay_cost_microusd : Z }.

Record StudentReplayTestResult := { test_name : str; test_passed : bool }.

Record StudentReplayResult := {
  replay_trace_id : str; replay_candidate_id : str; baseline : StudentReplayMetrics;
  replay_candidate : StudentReplayMetrics; required_tests : list StudentReplayTestResult;
  policy_violations : list str; stale : bool; replay_notes : option str }.

Record TeacherCandidate := {
  candidate_id : str; candidate_kind : TeacherCandidateKind; teacher_status : TeacherCandidateStatus;
  source_node_id : str; source_branch_id : option str; candidate_summary : str; evidence : list str;
  replay_results : list StudentReplayResult }.

Record PromotionGateDecision := {
  decision_candidate_id : str; decision_status : TeacherCandidateStatus; decision_score_delta : Z;
  decision_cost_delta : Z; reasons : list str }.

Record TeacherReviewReport := { review_node_id : str; report_candidates : list TeacherCandidate }.

#[export] Instance TeacherCandidateStatus_eq_dec : EqDecision TeacherCandidateStatus.
Proof. solve_decision. Defined.

(** ** The gate *)

Definition default_min_replay_score_delta : Z := 1.

Definition default_gate : PromotionGate :=
  {| min_score_delta := default_min_replay_score_delta; max_cost_delta_microusd := None;
     require_all_tests_pass := true; reject_policy_violations := true; reject_stale_replay := true |}.

(** [i64::try_from(n).unwrap_or(i64::MAX)] for a [u64] [n]. *)
Definition i64_saturate (n : Z) : Z := Z.min n i64_max.

Definition signed_u64_delta (candidate base : Z) : Z :=
  if base <=? candidate then i64_saturate (candidate - base) else - i64_saturate (base - candidate).

Definition score_delta (r : StudentReplayResult) : Z :=
  i32_saturating_sub (replay_score (replay_candidate r)) (replay_score (baseline r)).

Definition cost_delta_microusd (r : StudentReplayResult) : Z :=
  signed_u64_delta (replay_cost_microusd (replay_candidate r)) (replay_cost_microusd (baseline r)).

Definition replay_reasons (g : PromotionGate) (r : StudentReplayResult) : list str :=
  (if score_delta r <? min_score_delta g
   then [$"score delta " ++ display_i (score_delta r) ++ $" is below required " ++ display_i (min_score_delta g)]
   else []) ++
  match max_cost_delta_microusd g with
  | Some max =>
      if max <? cost_delta_microusd r
      then [$"cost delta " ++ display_i (cost_delta_microusd r) ++ $" exceeds allowed " ++ display_i max]
      else []
  | None => []
  end ++
  (if require_all_tests_pass g
   then (fun t => $"required test `" ++ test_name t ++ $"` failed") <$>
          retain (fun t => negb (test_passed t)) (required_tests r)
   else []) ++
  (if reject_policy_violations g then (fun v => $"policy violation: " ++ v) <$> policy_violations r else []) ++
  (if reject_stale_replay g && stale r then [$"student replay result is stale"] else []).

Definition evaluate_replay (g : PromotionGate) (id : str) (r : StudentReplayResult) : PromotionGateDecision :=
  let reasons := replay_reasons g r in
  {| decision_candidate_id := id;
     decision_status := match reasons with [] => Promoted | _ => Rejected end;
     decision_score_delta := score_delta r; decision_cost_delta := cost_delta_microusd r; reasons := reasons |}.

Definition evaluate_candidate (g : PromotionGate) (c : TeacherCandidate) : PromotionGateDecision :=
  match last (replay_results c) with
  | None =>
      {| decision_candidate_id := candidate_id c; decision_status := Rejected; decision_score_delta := 0;
         decision_cost_delta := 0; reasons := [$"no student replay result recorded"] |}
  | Some r => evaluate_replay g (candidate_id c) r
  end.

Definition promoted (d : PromotionGateDecision) : bool := bool_decide (decision_status d = Promoted).

(** ** Teacher reviews *)

Definition debug_status (s : WorkflowRunStatus) : str :=
  match s with
  | RunPending => $"Pending"
  | Running => $"Running"
  | Succeeded => $"Succeeded"
  | Failed => $"Failed"
  | Cancelled => $"Cancelled"
  | BudgetExceeded => $"BudgetExceeded"
  | ReplayDiverged => $"ReplayDiverged"
  end.

Definition debug_kind (k : ControlNodeKind) : str :=
  match k with
  | BranchSetKind => $"BranchSet"
  | LeafKind => $"Leaf"
  | SequenceKind => $"Sequence"
  | ReduceKind => $"Reduce"
  | TeacherReviewKind => $"TeacherReview"
  | LoopUntilKind => $"LoopUntil"
  | CondKind => $"Cond"
  | ExpandKind => $"Expand"
  end.

Definition MAX_EVIDENCE_CHARS : nat := 240.

Definition truncate_evidence (value : str) : str :=
  if (length value <=? MAX_EVIDENCE_CHARS)%nat then value
  else take (MAX_EVIDENCE_CHARS - 1) value ++ $"...".

Definition used_cache (u : WorkflowMemoUsage) : bool := (0 <? armh_hits u) || (0 <? provider_prompt_cache_hits u).

Definition some_positive (o : option Z) : bool := match o with Some n => 0 <? n | None => false end.

Definition known_or (o : option Z) : str := match o with Some n => display_u n | None => $"unknown" end.

(** A candidate as drafted: proposed, with no replay. *)
Definition drafted (review source : str) (kind : TeacherCandidateKind) (node : str) (branch : option str)
  (summary : str) (evidence : list str) : TeacherCandidate :=
  {| candidate_id := review ++ $":" ++ source; candidate_kind := kind; teacher_status := Proposed;
     source_node_id := node; source_branch_id := branch; candidate_summary := summary; evidence := evidence;
     replay_results := [] |}.

Definition teacher_candidate_from_branch (review : TeacherReviewSpec) (b : BranchResult) : TeacherCandidate :=
  let kind :=
    if used_cache (branch_memo_usage b) then CachePolicyPatch
    else if bool_decide (branch_status b = Succeeded) then WorkflowRecipe
    else BranchHeuristic in
  drafted (review_id review) (result_branch_id b) kind (branch_task_id b) (Some (result_branch_id b))
    ($"TeacherReview candidate from branch `" ++ result_branch_id b ++ $"` with "
     ++ debug_status (branch_status b) ++ $" status.")
    ([$"status=" ++ debug_status (branch_status b)] ++
     (if some_positive (total_tokens (branch_usage b)) || some_positive (cost_microusd (branch_usage b))
      then [$"tokens=" ++ known_or (total_tokens (branch_usage b)) ++ $", cost_microusd="
            ++ known_or (cost_microusd (branch_usage b))]
      else []) ++
     (if used_cache (branch_memo_usage b)
      then [$"armh_hits=" ++ display_u (armh_hits (branch_memo_usage b)) ++ $", provider_prompt_cache_hits="
            ++ display_u (provider_prompt_cache_hits (branch_memo_usage b))]
      else []) ++
     match branch_notes b with Some notes => [$"notes=" ++ notes] | None => [] end).

Definition teacher_candidate_from_leaf (review : TeacherReviewSpec) (l : LeafResult) : TeacherCandidate :=
  let kind :=
    if bool_decide (leaf_status l = Failed) then RegressionTest
    else if used_cache (leaf_memo_usage l) then CachePolicyPatch
    else Note in
  drafted (review_id review) (result_leaf_id l) kind (result_leaf_id l) None
    ($"TeacherReview candidate from leaf `" ++ result_leaf_id l ++ $"` with "
     ++ debug_status (leaf_status l) ++ $" status.")
    ([$"status=" ++ debug_status (leaf_status l)] ++
     match leaf_output l with Some output => [$"output=" ++ truncate_evidence output] | None => [] end).

Definition teacher_candidate_from_control (review : TeacherReviewSpec) (c : ControlNodeResult) : TeacherCandidate :=
  drafted (review_id review) (control_node_id c) AuthoringPromptPatch (control_node_id c) None
    ($"TeacherReview candidate from control node `" ++ control_node_id c ++ $"` ("
     ++ debug_kind (control_kind c) ++ $").")
    ([$"status=" ++ debug_status (control_status c)] ++
     match selected_children c with [] => [] | _ => [$"selected_children=" ++ join $"," (selected_children c)] end ++
     match control_summary c with Some summary => [$"summary=" ++ truncate_evidence summary] | None => [] end).

(** The loop body of [teacher_candidates_from_execution]. *)
Definition teacher_candidate (review : TeacherReviewSpec) (x : WorkflowExecution) (source : str)
  : option TeacherCandidate :=
  match find (fun b => bool_decide (result_branch_id b = source) || bool_decide (branch_task_id b = source))
          (branch_results x) with
  | Some b => Some (teacher_candidate_from_branch review b)
  | None =>
      match find (fun l => bool_decide (result_leaf_id l = source) || bool_decide (leaf_task_id l = source))
              (leaf_results x) with
      | Some l => Some (teacher_candidate_from_leaf review l)
      | None =>
          teacher_candidate_from_control review <$>
            find (fun c => bool_decide (control_node_id c = source)) (control_node_results x)
      end
  end.

Definition teacher_candidates_from_execution (review : TeacherReviewSpec) (x : WorkflowExecution)
  : list TeacherCandidate :=
  omap (teacher_candidate review x) (candidates review).

Definition from_execution (review : TeacherReviewSpec) (x : WorkflowExecution) : TeacherReviewReport :=
  {| review_node_id := review_id review; report_candidates := teacher_candidates_from_execution review x |}.

(** ** Selection of branches *)

Definition eligible (c : BranchCandidate) : bool := bool_decide (candidate_status c = Succeeded).

Record BranchTournament := { min_score : Z }.

(** The key [(cost, Reverse(score))]. *)
Definition cheaper (a b : BranchCandidate) : bool :=
  (cost a <? cost b) || ((cost a =? cost b) && (score b <=? score a)).

Definition tournament_select (t : BranchTournament) (cs : list BranchCandidate) : option BranchCandidate :=
  min_by cheaper (retain (fun c => eligible c && (min_score t <=? score c)) cs).

Record ParetoFrontier := { max_items : Z }.

Definition default_frontier_limit : Z := 8.

Definition default_frontier : ParetoFrontier := {| max_items := default_frontier_limit |}.

Definition dominates (o c : BranchCandidate) : bool :=
  (score c <=? score o) && (cost o <=? cost c) && ((score c <? score o) || (cost o <? cost c)).

(** The key [(Reverse(score), cost)]. *)
Definition better (a b : BranchCandidate) : bool :=
  (score b <? score a) || ((score a =? score b) && (cost a <=? cost b)).

Definition frontier (cs : list BranchCandidate) : list BranchCandidate :=
  stable_sort better
    (retain (fun c => negb (existsb (fun o => eligible o && dominates o c) cs)) (retain eligible cs)).

Definition frontier_select (f : ParetoFrontier) (cs : list BranchCandidate) : list BranchCandidate :=
  take (Z.to_nat (Z.max (max_items f) 1)) (frontier cs).

(** * Properties of the promotion of workflow results

    The gate promotes exactly the candidates whose replay earns it, drafted
    candidates are never promoted, the tournament picks the first best branch
    and the frontier is the Pareto frontier. *)

(** ** The gate *)

(** Clamping a difference does not change how it compares with a bound inside
    the range. *)
Lemma score_delta_below r k :
  i32_min < k <= i32_max ->
  score_delta r < k <-> replay_score (replay_candidate r) - replay_score (baseline r) < k.
Proof. unfold score_delta, i32_saturating_sub, i32_min, i32_max. lia. Qed.

Lemma cost_delta_above r k :
  i64_min < k < i64_max ->
  k < cost_delta_microusd r <-> k < replay_cost_microusd (replay_candidate r) - replay_cost_microusd (baseline r).
Proof.
  unfold cost_delta_microusd, signed_u64_delta, i64_saturate, i64_min, i64_max.
  destruct (Z.leb_spec (replay_cost_microusd (baseline r)) (replay_cost_microusd (replay_candidate r))); lia.
Qed.

(** What a replay must show for the gate [g] to promote its candidate. *)
Record earns (g : PromotionGate) (r : StudentReplayResult) : Prop := {
  earns_score : min_score_delta g <= replay_score (replay_candidate r) - replay_score (baseline r);
  earns_cost : forall k, max_cost_delta_microusd g = Some k ->
    replay_cost_microusd (replay_candidate r) - replay_cost_microusd (baseline r) <= k;
  earns_tests : require_all_tests_pass g = true -> Forall (fun t => test_passed t = true) (required_tests r);
  earns_policy : reject_policy_violations g = true -> policy_violations r = [];
  earns_fresh : reject_stale_replay g = true -> stale r = false }.

Lemma if_nil {A} (b : bool) (x : A) : (if b then [x] else []) = [] <-> b = false.
Proof. by destruct b. Qed.

Lemma reasons_if_nil {A B} (b : bool) (f : A -> B) l : (if b then f <$> l else []) = [] <-> (b = true -> l = []).
Proof. destruct b; [|done]. split; [intros H _; by apply fmap_nil_inv in H|intros ->; done]. Qed.

Lemma retain_is_nil {A} (p : A -> bool) l : retain p l = [] <-> Forall (fun x => p x = false) l.
Proof. induction l as [|x l IH]; cbn; [by split|]. rewrite Forall_cons, <-IH. destruct (p x); naive_solver. Qed.

Definition gate_in_range (g : PromotionGate) : Prop :=
  i32_min < min_score_delta g <= i32_max /\ forall k, max_cost_delta_microusd g = Some k -> i64_min < k < i64_max.

Lemma replay_reasons_nil g r : gate_in_range g -> replay_reasons g r = [] <-> earns g r.
Proof.
  intros [Hs Hc]. unfold replay_reasons. rewrite !app_nil, if_nil, Z.ltb_ge, <-Z.nlt_ge, score_delta_below, Z.nlt_ge by done.
  rewrite !reasons_if_nil, if_nil, andb_false_iff, retain_is_nil. setoid_rewrite negb_false_iff.
  assert (Hcost : match max_cost_delta_microusd g with
     | Some max => if max <? cost_delta_microusd r
         then [$"cost delta " ++ display_i (cost_delta_microusd r) ++ $" exceeds allowed " ++ display_i max] else []
     | None => [] end = [] <-> forall k, max_cost_delta_microusd g = Some k ->
       replay_cost_microusd (replay_candidate r) - replay_cost_microusd (baseline r) <= k).
  { destruct (max_cost_delta_microusd g) as [k|]; [|naive_solver]. specialize (Hc k eq_refl).
    rewrite if_nil, Z.ltb_ge, <-Z.nlt_ge, cost_delta_above, Z.nlt_ge by done. naive_solver. }
  rewrite Hcost. split; [intros (?&?&?&?&?)|intros []]; [constructor|split_and!]; try done;
    destruct (reject_stale_replay g); naive_solver.
Qed.

(** Promotion is earned.  A gate with bounds inside the range of its
    integers promotes a candidate exactly when the last replay recorded for it
    raises the score and keeps the cost as the gate demands (as integers,
    without the clamping of the differences), and has no failed test, policy
    violation or staleness the gate rejects; otherwise it rejects it and gives
    a reason. *)
Theorem promotion_is_earned g c :
  gate_in_range g ->
  let d := evaluate_candidate g c in
  (promoted d = true <-> exists r, last (replay_results c) = Some r /\ earns g r) /\
  (promoted d = false -> decision_status d = Rejected /\ reasons d <> []) /\
  decision_candidate_id d = candidate_id c.
Proof.
  intros Hg. cbn zeta. unfold evaluate_candidate, promoted. destruct (last (replay_results c)) as [r|].
  2: { split_and!; [|done|done]. split; [done|]. by intros (? & ? & _). }
  unfold evaluate_replay. cbn [decision_status reasons decision_candidate_id].
  pose proof (replay_reasons_nil g r Hg) as Hr. split_and!; [| |done].
  - split.
    + destruct (replay_reasons g r); [|done]. intros _. exists r. split; [done|]. by apply Hr.
    + intros (r' & [= <-] & He). apply Hr in He as ->. done.
  - by destruct (replay_reasons g r).
Qed.

(** ** Teacher reviews *)

Lemma teacher_candidate_drafted review x source c :
  teacher_candidate review x source = Some c -> teacher_status c = Proposed /\ replay_results c = [].
Proof.
  unfold teacher_candidate. destruct (find _ (branch_results x)); [by intros [= <-]|].
  destruct (find _ (leaf_results x)); [by intros [= <-]|]. by intros (? & _ & ->)%fmap_Some_1.
Qed.

(** The identifiers the results of an execution answer to. *)
Definition has_result (x : WorkflowExecution) (source : str) : Prop :=
  (exists b, b ∈ branch_results x /\ (result_branch_id b = source \/ branch_task_id b = source)) \/
  (exists l, l ∈ leaf_results x /\ (result_leaf_id l = source \/ leaf_task_id l = source)) \/
  (exists c, c ∈ control_node_results x /\ control_node_id c = source).

Lemma find_is_Some_iff {A} (p : A -> bool) l : is_Some (find p l) <-> exists a, a ∈ l /\ p a = true.
Proof. split; [intros [a Ha]; exists a; by apply find_Some|intros (a & Ha & Hp); by eapply find_is_Some]. Qed.

Lemma find_or_spec {A} (f g : A -> str) s l :
  is_Some (find (fun a => bool_decide (f a = s) || bool_decide (g a = s)) l) <-> exists a, a ∈ l /\ (f a = s \/ g a = s).
Proof. rewrite find_is_Some_iff. setoid_rewrite orb_true_iff. by setoid_rewrite bool_decide_eq_true. Qed.

Lemma teacher_candidate_is_Some review x source :
  is_Some (teacher_candidate review x source) <-> has_result x source.
Proof.
  unfold teacher_candidate, has_result. rewrite <-!find_or_spec.
  destruct (find _ (branch_results x)) as [b|]; [naive_solver|].
  destruct (find _ (leaf_results x)) as [l|]; [naive_solver|].
  rewrite fmap_is_Some, find_is_Some_iff. setoid_rewrite bool_decide_eq_true.
  split; [by right; right|]. by intros [[]|[[]|?]].
Qed.

(** a review drafts one candidate per result.  The report of a teacher review
    has, in the order of its declared sources, one candidate for each source
    that a branch, a leaf or a control node of the execution answers to; each is
    proposed without a replay, so that no gate promotes it as drafted. *)
Theorem reviews_only_draft review x :
  let cs := report_candidates (from_execution review x) in
  (forall c, c ∈ cs -> teacher_status c = Proposed /\ forall g, promoted (evaluate_candidate g c) = false) /\
  Forall2 (fun source c => teacher_candidate review x source = Some c)
    (retain (fun s => bool_decide (is_Some (teacher_candidate review x s))) (candidates review)) cs /\
  (forall s, s ∈ candidates review ->
     s ∈ retain (fun s => bool_decide (is_Some (teacher_candidate review x s))) (candidates review) <-> has_result x s).
Proof.
  cbn zeta. cbn [from_execution report_candidates]. unfold teacher_candidates_from_execution. split_and!.
  - intros c (s & _ & Hc)%list_elem_of_omap. destruct (teacher_candidate_drafted _ _ _ _ Hc) as [Hs Hr].
    split; [done|]. intros g. unfold evaluate_candidate. by rewrite Hr.
  - induction (candidates review) as [|s ss IH]; cbn; [constructor|].
    destruct (teacher_candidate review x s) as [c|] eqn:E; cbn; [|done]. by constructor.
  - intros s Hs. rewrite elem_of_retain, bool_decide_eq_true, teacher_candidate_is_Some. tauto.
Qed.

(** ** Selection of branches *)

Lemma cheaper_total a b : cheaper a b = true \/ cheaper b a = true.
Proof. unfold cheaper. lia. Qed.

Lemma cheaper_trans a b c : cheaper a b = true -> cheaper b c = true -> cheaper a c = true.
Proof. unfold cheaper. lia. Qed.

Lemma better_total a b : better a b = true \/ better b a = true.
Proof. unfold better. lia. Qed.

Lemma better_trans a b c : better a b = true -> better b c = true -> better a c = true.
Proof. unfold better. lia. Qed.

Lemma retain_split {A} (p : A -> bool) l before x after :
  retain p l = before ++ x :: after ->
  exists l1 l2, l = l1 ++ x :: l2 /\ retain p l1 = before /\ retain p l2 = after.
Proof.
  revert before. induction l as [|y l IH]; intros before; cbn; [by destruct before|].
  destruct (p y) eqn:E.
  - destruct before as [|z before]; intros [= -> H]; [exists [], l; done|].
    destruct (IH before H) as (l1 & l2 & -> & <- & <-). exists (z :: l1), l2. cbn. by rewrite E.
  - intros H. destruct (IH before H) as (l1 & l2 & -> & <- & <-). exists (y :: l1), l2. cbn. by rewrite E.
Qed.

(** the tournament picks the first best branch.  It selects a branch that
    succeeded with the minimum score; no such branch is cheaper, none of the
    same cost scores more, and those before it in the list are strictly worse.
    It selects none only when there is no such branch. *)
Theorem tournament_picks_first_best t cs :
  let admitted c := eligible c && (min_score t <=? score c) in
  match tournament_select t cs with
  | Some c =>
      admitted c = true /\
      exists before after, cs = before ++ c :: after /\
        (forall o, o ∈ before -> admitted o = true -> cost c < cost o \/ (cost c = cost o /\ score o < score c)) /\
        (forall o, o ∈ after -> admitted o = true -> cost c < cost o \/ (cost c = cost o /\ score o <= score c))
  | None => forall c, c ∈ cs -> admitted c = false
  end.
Proof.
  cbn zeta. unfold tournament_select. destruct (min_by _ _) as [c|] eqn:E.
  - destruct (min_by_first _ _ _ cheaper_total cheaper_trans E) as (b & a & Hl & Hb & Ha).
    apply retain_split in Hl as Hc. destruct Hc as (l1 & l2 & -> & <- & <-). rewrite Forall_forall in Hb, Ha. split.
    + assert (Hin : c ∈ retain (fun c => eligible c && (min_score t <=? score c)) (l1 ++ c :: l2))
        by (rewrite Hl; set_solver). by apply elem_of_retain in Hin as [? _].
    + exists l1, l2. split_and!; [done| |]; intros o Ho Hadm.
      * specialize (Hb o ltac:(by apply elem_of_retain)). unfold cheaper in Hb. lia.
      * specialize (Ha o ltac:(by apply elem_of_retain)). unfold cheaper in Ha. lia.
  - apply min_by_None, retain_is_nil in E. by rewrite Forall_forall in E.
Qed.

(** Every eligible branch is matched by one that nothing dominates: the best of
    those at least as good. *)
Lemma undominated_above (cs : list BranchCandidate) c :
  c ∈ cs -> eligible c = true ->
  exists f, f ∈ cs /\ eligible f = true /\ score c <= score f /\ cost f <= cost c /\
    forall o, o ∈ cs -> eligible o = true -> dominates o f = false.
Proof.
  intros Hc He. set (p := fun o => eligible o && ((score c <=? score o) && (cost o <=? cost c))).
  destruct (min_by better (retain p cs)) as [f|] eqn:E.
  - destruct (min_by_first _ _ _ better_total better_trans E) as (b & a & Hl & Hb & Ha). rewrite Forall_forall in Hb, Ha.
    assert (Hbest : forall o, o ∈ cs -> p o = true -> better f o = true).
    { intros o Ho Hp. assert (Hin : o ∈ b ++ f :: a) by (rewrite <-Hl; by apply elem_of_retain).
      apply elem_of_app in Hin as [Hin|[->|Hin]%elem_of_cons]; [|destruct (better_total f f); done|auto].
      specialize (Hb o Hin). destruct (better_total o f); congruence. }
    assert (Hf : f ∈ retain p cs) by (rewrite Hl; set_solver). apply elem_of_retain in Hf as [Hp Hf]. unfold p in Hp. apply andb_prop in Hp as [Hef Hp].
    exists f. split_and!; [done|done|lia|lia|]. intros o Ho Heo. apply not_true_iff_false. intros Hd.
    assert (Hpo : p o = true) by (unfold p, dominates in *; rewrite Heo; cbn [andb]; lia).
    specialize (Hbest o Ho Hpo). unfold dominates, better in *. lia.
  - apply min_by_None, retain_is_nil in E. rewrite Forall_forall in E. specialize (E c Hc). unfold p in E. rewrite He in E. cbn [andb] in E. lia.
Qed.

Lemma elem_of_frontier cs c :
  c ∈ frontier cs <-> c ∈ cs /\ eligible c = true /\ forall o, o ∈ cs -> eligible o = true -> dominates o c = false.
Proof.
  unfold frontier. rewrite stable_sort_perm, !elem_of_retain, negb_true_iff, <-not_true_iff_false, existsb_exists.
  setoid_rewrite <-list_elem_of_In. setoid_rewrite <-not_true_iff_false. split.
  - intros (Hn & He & Hc). split_and!; [done..|]. intros o Ho Heo Hd. apply Hn. exists o. by rewrite Heo.
  - intros (Hc & He & Hn). split_and!; [|done..]. intros (o & Ho & [Heo Hd]%andb_prop). by eapply Hn.
Qed.

(** the frontier is the Pareto frontier.  The branches that succeeded and
    that no succeeded branch dominates are sorted by falling score, then rising
    cost, and the first ones, at least one and at most the limit, are selected;
    among all of them every succeeded branch has one at least as good in score
    and cost; and the selection is empty only when no branch succeeded. *)
Theorem frontier_is_pareto f cs :
  frontier_select f cs = take (Z.to_nat (Z.max (max_items f) 1)) (frontier cs) /\
  (forall c, c ∈ frontier cs <->
     c ∈ cs /\ eligible c = true /\ forall o, o ∈ cs -> eligible o = true -> dominates o c = false) /\
  StronglySorted (fun a b => score b <= score a /\ cost b <= cost a /\ (score a = score b -> cost a = cost b))
    (frontier cs) /\
  (forall c, c ∈ cs -> eligible c = true -> exists o, o ∈ frontier cs /\ score c <= score o /\ cost o <= cost c) /\
  (frontier_select f cs = [] <-> forall c, c ∈ cs -> eligible c = false).
Proof.
  split_and!; [done|apply elem_of_frontier| | |].
  - assert (Hs : sorted_by better (frontier cs)) by (apply stable_sort_sorted; [apply better_total|apply better_trans]).
    assert (Hall : Forall (fun c => c ∈ frontier cs) (frontier cs)) by by apply Forall_forall.
    revert Hs Hall. generalize (frontier cs) at 1 3 4. intros l Hs. induction Hs as [|a l Hs IH Ha]; intros Hin; constructor.
    + apply IH. by apply Forall_cons in Hin as [_ ?].
    + apply Forall_cons in Hin as [Hina Hin]. rewrite Forall_forall in Ha, Hin |- *. intros b Hb.
      specialize (Ha b Hb). specialize (Hin b Hb). apply elem_of_frontier in Hina as (Hac & Hea & Hna).
      apply elem_of_frontier in Hin as (Hbc & Heb & Hnb). specialize (Hnb a Hac Hea). unfold better, dominates in *. lia.
  - intros c Hc He. destruct (undominated_above cs c Hc He) as (o & Ho & Heo & ? & ? & Hn).
    exists o. split; [by apply elem_of_frontier|done].
  - unfold frontier_select. split.
    + intros H c Hc. apply not_true_iff_false. intros He. destruct (undominated_above cs c Hc He) as (o & Ho & Heo & _ & _ & Hn).
      assert (Hin : o ∈ frontier cs) by by apply elem_of_frontier.
      assert (Hne : (Z.to_nat (Z.max (max_items f) 1) <> 0)%nat) by lia.
      destruct (frontier cs); [by apply not_elem_of_nil in Hin|]. by destruct (Z.to_nat _).
    + intros H. destruct (frontier cs) as [|o l] eqn:E; [apply take_nil|]. exfalso.
      assert (Hin : o ∈ frontier cs) by (rewrite E; by left). apply elem_of_frontier in Hin as (Hc & He & _).
      rewrite (H o Hc) in He. done.
Qed.

Lemma promotion_is_earned_witness :
  let metrics s c := {| replay_score := s; replay_cost_microusd := c |} in
  let r := {| replay_trace_id := $"t"; replay_candidate_id := $"c"; baseline := metrics 4 100;
              replay_candidate := metrics 6 90; required_tests := [{| test_name := $"unit"; test_passed := true |}];
              policy_violations := []; stale := false; replay_notes := None |} in
  let c := {| candidate_id := $"c"; candidate_kind := Note; teacher_status := Proposed; source_node_id := $"n";
              source_branch_id := None; candidate_summary := []; evidence := []; replay_results := [r] |} in
  promoted (evaluate_candidate default_gate c) = true.
Proof.
  cbn zeta. apply promotion_is_earned.
  - split; [by vm_compute|done].
  - eexists. split; [reflexivity|]. constructor; try done. by constructor.
Defined.
