(* ===== verification/WorkflowElevation.v ===== *)
(** * Elevation of workflow plans

    [crates/workflow/src/elevation.rs]: what a workflow specification may do,
    collected from its tree for the approval card, and whether it needs an
    operator's approval. *)

From S2P Require Import Text.
From S2P Require Export WorkflowIr.

Definition DEFAULT_HIGH_BUDGET_THRESHOLD : Z := 120000.

Record ElevationOptions := {
  token_budget : option Z; high_budget_threshold : Z; parent_allows_write : bool; parent_allows_network : bool }.

Definition default_options : ElevationOptions :=
  {| token_budget := None; high_budget_threshold := DEFAULT_HIGH_BUDGET_THRESHOLD; parent_allows_write := true;
     parent_allows_network := true |}.

Record WorkflowPlanElevation := {
  elevated : bool; elevation_goal : str; child_count : Z; child_summary : str; writes : bool; shell : bool;
  network : bool; secrets : bool; worktree : bool; high_budget : bool; broader_authority : bool;
  budget_label : str; elevation_reasons : list str }.

Definition yes_no (flag : bool) : str := if flag then $"yes" else $"no".

Definition card_fields (e : WorkflowPlanElevation) : list (str * str) :=
  [($"Goal", elevation_goal e); ($"Children", child_summary e); ($"Writes", yes_no (writes e));
   ($"Shell", yes_no (shell e)); ($"Network", yes_no (network e)); ($"Budget", budget_label e)].

Definition is_read_only_envelope (e : WorkflowPlanElevation) : bool :=
  negb (elevated e) && negb (writes e) && negb (shell e) && negb (network e) && negb (secrets e)
  && negb (worktree e) && negb (high_budget e) && negb (broader_authority e).

(** ** Tools *)

Definition is_write_tool (tool : str) : bool :=
  bool_decide (trim tool ∈ [$"Edit"; $"write_file"; $"edit_file"; $"apply_patch"; $"checklist_write"; $"todo_write"]).

Definition is_shell_tool (tool : str) : bool :=
  bool_decide (trim tool ∈ [$"exec_shell"; $"exec_shell_wait"; $"exec_shell_interact"; $"exec_wait";
                            $"exec_interact"; $"task_shell_start"; $"task_shell_wait"]).

Definition is_network_tool (tool : str) : bool :=
  bool_decide (tool ∈ [$"web_search"; $"web_run"; $"fetch_url"; $"wait_for_dev_server"]) || starts_with $"mcp_" tool.

Definition is_secret_tool (tool : str) : bool :=
  let lower := to_ascii_lowercase tool in
  str_contains $"secret" lower || str_contains $"credential" lower || str_contains $"password" lower
  || bool_decide (lower = $"read_env") || bool_decide (lower = $"env").

(** ** The walk *)

(** The variables [walk_nodes] fills in. *)
Record Walk := {
  child_ids : list str; walk_writes : bool; walk_shell : bool; walk_network : bool; walk_secrets : bool;
  walk_worktree : bool }.

Definition empty_walk : Walk :=
  {| child_ids := []; walk_writes := false; walk_shell := false; walk_network := false; walk_secrets := false;
     walk_worktree := false |}.

(** Setting the flags that hold; [worktree] and the children as given. *)
Definition flagged (w : Walk) (ids : list str) (write sh net secret tree : bool) : Walk :=
  {| child_ids := child_ids w ++ ids; walk_writes := walk_writes w || write; walk_shell := walk_shell w || sh;
     walk_network := walk_network w || net; walk_secrets := walk_secrets w || secret;
     walk_worktree := walk_worktree w || tree |}.

Definition merge_tool (w : Walk) (tool : str) : Walk :=
  let name := trim tool in
  flagged w [] (is_write_tool name) (is_shell_tool name) (is_network_tool name) (is_secret_tool name) false.

Definition merge_permissions (w : Walk) (p : PermissionSpec) : Walk :=
  fold_left merge_tool (allowed_tools p) (flagged w [] (allow_write p) false (allow_network p) false false).

Definition is_worktree (m : IsolationMode) : bool := match m with Worktree => true | Auto | Shared => false end.

Definition unrestricted_shell (l : LeafSpec) : bool :=
  bool_decide (leaf_mode l = ReadWrite)
  && match allowed_tools (leaf_permissions l) with [] => true | _ => false end
  && match leaf_agent_type l with Implementer | General => true | _ => false end.

Definition inspect_leaf (parallel : bool) (w : Walk) (l : LeafSpec) : Walk :=
  let w := flagged w [leaf_id l] (leaf_is_write_capable l) false false false false in
  let w := merge_permissions w (leaf_permissions l) in
  let w := flagged w [] false false false false (leaf_wants_worktree l parallel || is_worktree (leaf_isolation l)) in
  flagged w [] false (unrestricted_shell l) false false false.

(** The loop body of [walk_nodes]. *)
Fixpoint walk_node (parallel : bool) (w : Walk) (n : WorkflowNode) : Walk :=
  match n with
  | Leaf l => inspect_leaf parallel w l
  | BranchSet b =>
      fold_left (walk_node (branch_parallel b || parallel)) (branch_children b)
        (merge_permissions w (branch_permissions b))
  | Sequence s => fold_left (walk_node parallel) (sequence_children s) w
  | LoopUntil s => fold_left (walk_node parallel) (loop_children s) w
  | Cond s => fold_left (walk_node parallel) (else_nodes s) (fold_left (walk_node parallel) (then_nodes s) w)
  | Expand s => match template s with Some t => walk_node parallel w t | None => w end
  | Reduce _ | TeacherReview _ => w
  end.

Definition walk_nodes (parallel : bool) (w : Walk) (nodes : list WorkflowNode) : Walk :=
  fold_left (walk_node parallel) nodes w.

(** ** Risk hints *)

Inductive PlanRiskHint := HintReadOnly | HintWrites | HintShell | HintNetwork | HintElevated.

Definition elevates (h : PlanRiskHint) : bool := match h with HintReadOnly => false | _ => true end.

(** [map(str::trim).filter(|s| !s.is_empty())]. *)
Definition trimmed_nonempty (o : option str) : option str :=
  s ← trim <$> o; if str_is_empty s then None else Some s.

Definition assess_plan_risk_string (risk : option str) : PlanRiskHint :=
  match trimmed_nonempty risk with
  | None => HintReadOnly
  | Some s =>
      if bool_decide (s ∈ [$"read_only"; $"readonly"; $"low"; $"safe"]) then HintReadOnly
      else if bool_decide (s ∈ [$"writes"; $"write"; $"read_write"; $"readwrite"; $"medium"]) then HintWrites
      else if bool_decide (s = $"shell") then HintShell
      else if bool_decide (s = $"network") then HintNetwork
      else HintElevated
  end.

Definition apply_plan_risk_hint (w : Walk) (risk : option str) : Walk :=
  match assess_plan_risk_string risk with
  | HintReadOnly => w
  | HintWrites => flagged w [] true false false false false
  | HintShell => flagged w [] true true false false false
  | HintNetwork => flagged w [] false false true false false
  | HintElevated => flagged w [] true true true false false
  end.

Definition embedded_plan_risk_hint (description : option str) : option str :=
  value ← trimmed_nonempty description;
  if bool_decide (value ∈ [$"read_only"; $"readonly"; $"low"; $"safe"; $"writes"; $"write"; $"read_write"; $"readwrite";
                           $"medium"; $"shell"; $"network"; $"elevated"; $"high"])
  then Some value else None.

(** ** Labels *)

Definition format_budget_label (effective_tokens : option Z) (budget : BudgetSpec) (high_budget : bool) : str :=
  let part (o : option Z) (f : str -> str) := match o with Some n => [f (display_u n)] | None => [] end in
  let parts :=
    part effective_tokens (fun n => n ++ $" tokens") ++
    part (budget_max_steps budget) (fun n => $"max_steps=" ++ n) ++
    part (budget_timeout_secs budget) (fun n => $"timeout=" ++ n ++ $"s") ++
    part (max_parallel budget) (fun n => $"max_parallel=" ++ n) in
  match parts with
  | [] => $"default"
  | _ => if high_budget then join $", " parts ++ $" (high)" else join $", " parts
  end.

Definition ellipsis : char := 0x2026%N.

Definition summarize_children (ids : list str) : str :=
  match ids with
  | [] => $"0 children"
  | first :: second :: _ :: _ :: _ :: _ =>
      display_u (zlen ids) ++ $" children: " ++ first ++ $", " ++ second ++ [ellipsis] ++ $" (+"
      ++ display_u (zlen ids - 2) ++ $")"
  | _ =>
      display_u (zlen ids) ++ $" child" ++ (if zlen ids =? 1 then [] else $"ren") ++ $": " ++ join $", " ids
  end.

(** ** Assessment *)

Definition push_reason (flag : bool) (name : str) : list str := if flag then [name] else [].

Definition positive (o : option Z) : option Z := n ← o; if 0 <? n then Some n else None.

Definition effective_tokens (spec : WorkflowSpec) (options : ElevationOptions) : option Z :=
  positive (match token_budget options with Some n => Some n | None => max_tokens (spec_budget spec) end).

(** The walk over the tree, with the permissions and the risk of the specification. *)
Definition walk_spec (spec : WorkflowSpec) : Walk :=
  let w := merge_permissions (walk_nodes false empty_walk (spec_nodes spec)) (spec_permissions spec) in
  match embedded_plan_risk_hint (spec_description spec) with
  | Some risk => apply_plan_risk_hint w (Some risk)
  | None => w
  end.

Definition assess_workflow_elevation (spec : WorkflowSpec) (options : ElevationOptions) : WorkflowPlanElevation :=
  let w := walk_spec spec in
  let tokens := effective_tokens spec options in
  let high := match tokens with Some n => high_budget_threshold options <? n | None => false end in
  let broader := (negb (parent_allows_write options) && walk_writes w)
                 || (negb (parent_allows_network options) && walk_network w) in
  let reasons :=
    push_reason (walk_writes w) $"writes" ++ push_reason (walk_shell w) $"shell" ++
    push_reason (walk_network w) $"network" ++ push_reason (walk_secrets w) $"secrets" ++
    push_reason (walk_worktree w) $"worktree" ++ push_reason high $"high_budget" ++
    push_reason broader $"broader_authority" in
  {| elevated := match reasons with [] => false | _ => true end;
     elevation_goal := spec_goal spec; child_count := zlen (child_ids w);
     child_summary := summarize_children (child_ids w);
     writes := walk_writes w; shell := walk_shell w; network := walk_network w; secrets := walk_secrets w;
     worktree := walk_worktree w; high_budget := high; broader_authority := broader;
     budget_label := format_budget_label tokens (spec_budget spec) high; elevation_reasons := reasons |}.
