(* ===== verification/WorkflowElevationSpec.v ===== *)
(** * Properties of plan elevation

    The walk is a sum over the nodes of the tree, templates included, so each
    flag of the assessment holds exactly when a node, the specification's
    permissions or its risk grant the capability; and a plan inside the
    read-only envelope grants none anywhere. *)

From S2P Require Import Text WorkflowIr WorkflowElevation.

(** ** The walk as a sum *)

Definition walk_add (a b : Walk) : Walk :=
  flagged a (child_ids b) (walk_writes b) (walk_shell b) (walk_network b) (walk_secrets b) (walk_worktree b).

Lemma walk_add_empty w : walk_add w empty_walk = w.
Proof. destruct w. unfold walk_add, flagged. cbn. by rewrite !orb_false_r, app_nil_r. Qed.

Lemma walk_empty_add w : walk_add empty_walk w = w.
Proof. by destruct w. Qed.

Lemma walk_add_assoc a b c : walk_add a (walk_add b c) = walk_add (walk_add a b) c.
Proof. unfold walk_add, flagged. cbn. by rewrite !orb_assoc, app_assoc. Qed.

Lemma flagged_add w ids a b c d e : flagged w ids a b c d e = walk_add w (flagged empty_walk ids a b c d e).
Proof. done. Qed.

Fixpoint walk_sum (ws : list Walk) : Walk :=
  match ws with
  | [] => empty_walk
  | w :: ws => walk_add w (walk_sum ws)
  end.

Lemma walk_sum_app ws vs : walk_sum (ws ++ vs) = walk_add (walk_sum ws) (walk_sum vs).
Proof. induction ws as [|w ws IH]; cbn; [by rewrite walk_empty_add|]. by rewrite IH, walk_add_assoc. Qed.

Definition tool_walk (tool : str) : Walk := merge_tool empty_walk tool.

Definition permission_walk (p : PermissionSpec) : Walk :=
  walk_add (flagged empty_walk [] (allow_write p) false (allow_network p) false false)
           (walk_sum (tool_walk <$> allowed_tools p)).

(** A loop whose body adds what it does not read adds a sum. *)
Lemma fold_left_walk {A} (f : Walk -> A -> Walk) (g : A -> Walk) xs w :
  Forall (fun x => forall w, f w x = walk_add w (g x)) xs -> fold_left f xs w = walk_add w (walk_sum (g <$> xs)).
Proof.
  intros H. revert w. induction H as [|x xs Hx _ IH]; intros w; cbn; [by rewrite walk_add_empty|].
  by rewrite Hx, IH, walk_add_assoc.
Qed.

Lemma merge_permissions_walk w p : merge_permissions w p = walk_add w (permission_walk p).
Proof.
  unfold merge_permissions, permission_walk. rewrite (fold_left_walk _ tool_walk).
  - by rewrite flagged_add, walk_add_assoc.
  - by apply Forall_true.
Qed.

(** What a node adds by itself. *)
Definition node_walk (parallel : bool) (n : WorkflowNode) : Walk :=
  match n with
  | Leaf l => inspect_leaf parallel empty_walk l
  | BranchSet b => permission_walk (branch_permissions b)
  | _ => empty_walk
  end.

(** The nodes of a tree, templates included, each with whether a parallel branch
    set is above it. *)
Fixpoint under (parallel : bool) (n : WorkflowNode) : list (bool * WorkflowNode) :=
  (parallel, n) ::
  match n with
  | BranchSet b => branch_children b ≫= under (branch_parallel b || parallel)
  | Sequence s => sequence_children s ≫= under parallel
  | LoopUntil s => loop_children s ≫= under parallel
  | Cond s => (then_nodes s ≫= under parallel) ++ (else_nodes s ≫= under parallel)
  | Expand s => match template s with Some t => under parallel t | None => [] end
  | Leaf _ | Reduce _ | TeacherReview _ => []
  end.

Definition walked (nodes : list WorkflowNode) : list (bool * WorkflowNode) := nodes ≫= under false.

Definition sum_under (pns : list (bool * WorkflowNode)) : Walk := walk_sum ((fun pn => node_walk pn.1 pn.2) <$> pns).

Lemma sum_under_nil : sum_under [] = empty_walk.
Proof. done. Qed.

Lemma sum_under_app l k : sum_under (l ++ k) = walk_add (sum_under l) (sum_under k).
Proof. unfold sum_under. by rewrite fmap_app, walk_sum_app. Qed.

Lemma sum_under_cons p n l : sum_under ((p, n) :: l) = walk_add (node_walk p n) (sum_under l).
Proof. done. Qed.

Lemma sum_under_bind (f : WorkflowNode -> list (bool * WorkflowNode)) nodes :
  walk_sum ((fun n => sum_under (f n)) <$> nodes) = sum_under (nodes ≫= f).
Proof.
  induction nodes as [|n nodes IH]; [done|]. rewrite fmap_cons, bind_cons. cbn [walk_sum]. by rewrite sum_under_app, <-IH.
Qed.

Lemma inspect_leaf_walk parallel w l : inspect_leaf parallel w l = walk_add w (inspect_leaf parallel empty_walk l).
Proof.
  unfold inspect_leaf. rewrite !merge_permissions_walk. unfold walk_add, flagged. cbn. f_equal;
    [by rewrite ?app_nil_r, <-?app_assoc|by rewrite ?orb_false_r, <-?orb_assoc..].
Qed.

Lemma walk_node_sum parallel w n : walk_node parallel w n = walk_add w (sum_under (under parallel n)).
Proof.
  revert parallel w. induction n as [s IH|s|s IH|s|s|s IH|s IH1 IH2|s IH] using node_nested_ind; intros parallel w;
    cbn [walk_node under]; rewrite sum_under_cons; cbn [node_walk]; rewrite ?sum_under_nil, ?walk_empty_add, ?walk_add_empty.
  - rewrite (fold_left_walk _ (fun n => sum_under (under (branch_parallel s || parallel) n))), sum_under_bind, merge_permissions_walk,
      walk_add_assoc; [done|]. eapply Forall_impl; [exact IH|]. auto.
  - apply inspect_leaf_walk.
  - rewrite (fold_left_walk _ (fun n => sum_under (under parallel n))), sum_under_bind; [done|].
    eapply Forall_impl; [exact IH|]. auto.
  - done.
  - done.
  - rewrite (fold_left_walk _ (fun n => sum_under (under parallel n))), sum_under_bind; [done|].
    eapply Forall_impl; [exact IH|]. auto.
  - rewrite !(fold_left_walk _ (fun n => sum_under (under parallel n))), !sum_under_bind, sum_under_app, walk_add_assoc; [done|..].
    + eapply Forall_impl; [exact IH1|]. auto.
    + eapply Forall_impl; [exact IH2|]. auto.
  - destruct (template s) as [t|]; [apply IH|]. by rewrite sum_under_nil, walk_add_empty.
Qed.

Lemma walk_nodes_sum nodes : walk_nodes false empty_walk nodes = sum_under (walked nodes).
Proof.
  unfold walk_nodes, walked. rewrite (fold_left_walk _ (fun n => sum_under (under false n))), sum_under_bind, walk_empty_add; [done|].
  apply Forall_true. intros n w. apply walk_node_sum.
Qed.

(** ** Flags *)

(** A flag of a sum holds when it holds of a summand. *)
Class AdditiveFlag (f : Walk -> bool) : Prop := {
  flag_empty : f empty_walk = false;
  flag_add a b : f (walk_add a b) = f a || f b }.

#[export] Instance writes_additive : AdditiveFlag walk_writes. Proof. by constructor. Qed.
#[export] Instance shell_additive : AdditiveFlag walk_shell. Proof. by constructor. Qed.
#[export] Instance network_additive : AdditiveFlag walk_network. Proof. by constructor. Qed.
#[export] Instance secrets_additive : AdditiveFlag walk_secrets. Proof. by constructor. Qed.
#[export] Instance worktree_additive : AdditiveFlag walk_worktree. Proof. by constructor. Qed.

Lemma flag_sum f `{AdditiveFlag f} ws : f (walk_sum ws) = true <-> exists w, w ∈ ws /\ f w = true.
Proof.
  induction ws as [|w ws IH]; cbn [walk_sum].
  - rewrite flag_empty. split; [done|]. by intros (? & ?%not_elem_of_nil & _).
  - rewrite flag_add, orb_true_iff, IH. setoid_rewrite elem_of_cons. naive_solver.
Qed.

Lemma flag_nodes f `{AdditiveFlag f} nodes :
  f (walk_nodes false empty_walk nodes) = true <-> exists p n, (p, n) ∈ walked nodes /\ f (node_walk p n) = true.
Proof.
  rewrite walk_nodes_sum. unfold sum_under. rewrite flag_sum by done. setoid_rewrite list_elem_of_fmap. split.
  - intros (w & ([p n] & -> & Hin) & Hw). by exists p, n.
  - intros (p & n & Hin & Hw). exists (node_walk p n). split; [|done]. by exists (p, n).
Qed.

(** ** Grants *)

Definition lists_tool (test : str -> bool) (p : PermissionSpec) : Prop :=
  exists t, t ∈ allowed_tools p /\ test (trim t) = true.

Definition may_write (p : PermissionSpec) : Prop := allow_write p = true \/ lists_tool is_write_tool p.

Definition may_reach_network (p : PermissionSpec) : Prop := allow_network p = true \/ lists_tool is_network_tool p.

Definition node_permissions (n : WorkflowNode) : option PermissionSpec :=
  match n with Leaf l => Some (leaf_permissions l) | BranchSet b => Some (branch_permissions b) | _ => None end.

(** The node has permissions that grant [P], or is a leaf that has [Q]. *)
Definition node_grants (P : PermissionSpec -> Prop) (Q : LeafSpec -> Prop) (n : WorkflowNode) : Prop :=
  (exists p, node_permissions n = Some p /\ P p) \/ (exists l, n = Leaf l /\ Q l).

Definition writes_files (l : LeafSpec) : Prop := leaf_mode l = ReadWrite.

Definition runs_anything (l : LeafSpec) : Prop :=
  leaf_mode l = ReadWrite /\ allowed_tools (leaf_permissions l) = [] /\
  (leaf_agent_type l = Implementer \/ leaf_agent_type l = General).

Definition gets_worktree (parallel : bool) (l : LeafSpec) : Prop :=
  leaf_isolation l = Worktree \/
  (leaf_isolation l = Auto /\ parallel = true /\ (leaf_mode l = ReadWrite \/ allow_write (leaf_permissions l) = true)).

Lemma tool_sum (f : Walk -> bool) `{AdditiveFlag f} test p :
  (forall t, f (tool_walk t) = test (trim t)) ->
  f (permission_walk p) = true <->
  f (flagged empty_walk [] (allow_write p) false (allow_network p) false false) = true \/ lists_tool test p.
Proof.
  intros Ht. unfold permission_walk, lists_tool. rewrite flag_add, orb_true_iff, flag_sum by done.
  setoid_rewrite list_elem_of_fmap. setoid_rewrite <-Ht. naive_solver.
Qed.

Lemma permission_writes p : walk_writes (permission_walk p) = true <-> may_write p.
Proof. unfold may_write. by rewrite (tool_sum walk_writes is_write_tool). Qed.

Lemma permission_network p : walk_network (permission_walk p) = true <-> may_reach_network p.
Proof. unfold may_reach_network. by rewrite (tool_sum walk_network is_network_tool). Qed.

Lemma permission_shell p : walk_shell (permission_walk p) = true <-> lists_tool is_shell_tool p.
Proof. rewrite (tool_sum walk_shell is_shell_tool) by done. cbn. naive_solver. Qed.

Lemma permission_secrets p : walk_secrets (permission_walk p) = true <-> lists_tool is_secret_tool p.
Proof. rewrite (tool_sum walk_secrets is_secret_tool) by done. cbn. naive_solver. Qed.

Lemma permission_worktree p : walk_worktree (permission_walk p) = false.
Proof.
  apply not_true_iff_false. rewrite (tool_sum walk_worktree (fun _ => false)) by done. unfold lists_tool. cbn. naive_solver.
Qed.

Lemma permission_ids p : child_ids (permission_walk p) = [].
Proof. unfold permission_walk. cbn. by induction (allowed_tools p) as [|t ts IH]. Qed.

(** What [inspect_leaf] adds, as a sum. *)
Lemma leaf_walk parallel l :
  inspect_leaf parallel empty_walk l =
  walk_add (flagged empty_walk [leaf_id l] (leaf_is_write_capable l) (unrestricted_shell l) false false
              (leaf_wants_worktree l parallel || is_worktree (leaf_isolation l)))
           (permission_walk (leaf_permissions l)).
Proof.
  unfold inspect_leaf. rewrite merge_permissions_walk.
  pose proof (permission_worktree (leaf_permissions l)) as Hw. pose proof (permission_ids (leaf_permissions l)) as Hids.
  destruct (permission_walk (leaf_permissions l)) as [i w sh net sec tree]. cbn in Hw, Hids. subst.
  unfold walk_add, flagged. cbn. rewrite !orb_false_r. f_equal. apply orb_comm.
Qed.

Lemma leaf_writes l : leaf_is_write_capable l = true <-> writes_files l \/ allow_write (leaf_permissions l) = true.
Proof. unfold leaf_is_write_capable, writes_files. by rewrite orb_true_iff, bool_decide_eq_true. Qed.

Lemma leaf_runs_anything l : unrestricted_shell l = true <-> runs_anything l.
Proof.
  unfold unrestricted_shell, runs_anything. rewrite !andb_true_iff, bool_decide_eq_true.
  destruct (allowed_tools _), (leaf_agent_type l); naive_solver.
Qed.

Lemma leaf_worktree parallel l :
  leaf_wants_worktree l parallel || is_worktree (leaf_isolation l) = true <-> gets_worktree parallel l.
Proof.
  unfold leaf_wants_worktree, gets_worktree, wants_worktree, resolve. pose proof (leaf_writes l) as H. unfold writes_files in H.
  rewrite <-H. destruct (leaf_isolation l), parallel, (leaf_is_write_capable l); cbn; naive_solver.
Qed.

Lemma node_flag (f : Walk -> bool) `{AdditiveFlag f} (P : PermissionSpec -> Prop) (Q : bool -> LeafSpec -> Prop) :
  (forall p, f (permission_walk p) = true <-> P p) ->
  (forall parallel l, f (inspect_leaf parallel empty_walk l) = true <-> P (leaf_permissions l) \/ Q parallel l) ->
  forall nodes, f (walk_nodes false empty_walk nodes) = true <->
    exists parallel n, (parallel, n) ∈ walked nodes /\ node_grants P (Q parallel) n.
Proof.
  intros HP HQ nodes. rewrite flag_nodes by done. unfold node_grants.
  assert (Hn : forall p n, f (node_walk p n) = true <->
    (exists q, node_permissions n = Some q /\ P q) \/ (exists l, n = Leaf l /\ Q p l)).
  { intros p n. destruct n; cbn [node_walk node_permissions]; rewrite ?HP, ?HQ, ?flag_empty; naive_solver. }
  by setoid_rewrite Hn.
Qed.

(** ** Assessment *)

Definition risk (spec : WorkflowSpec) : PlanRiskHint :=
  match embedded_plan_risk_hint (spec_description spec) with
  | Some r => assess_plan_risk_string (Some r)
  | None => HintReadOnly
  end.

Definition hint_walk (h : PlanRiskHint) : Walk :=
  match h with
  | HintReadOnly => empty_walk
  | HintWrites => flagged empty_walk [] true false false false false
  | HintShell => flagged empty_walk [] true true false false false
  | HintNetwork => flagged empty_walk [] false false true false false
  | HintElevated => flagged empty_walk [] true true true false false
  end.

Lemma walk_spec_sum spec :
  walk_spec spec =
  walk_add (walk_add (walk_nodes false empty_walk (spec_nodes spec)) (permission_walk (spec_permissions spec)))
           (hint_walk (risk spec)).
Proof.
  unfold walk_spec, risk. rewrite merge_permissions_walk. destruct (embedded_plan_risk_hint _) as [r|].
  - unfold apply_plan_risk_hint. destruct (assess_plan_risk_string (Some r)); cbn [hint_walk]; by rewrite ?walk_add_empty.
  - cbn [hint_walk]. by rewrite walk_add_empty.
Qed.

Lemma flag_spec (f : Walk -> bool) `{AdditiveFlag f} spec :
  f (walk_spec spec) = true <->
  f (walk_nodes false empty_walk (spec_nodes spec)) = true \/ f (permission_walk (spec_permissions spec)) = true \/
  f (hint_walk (risk spec)) = true.
Proof. rewrite walk_spec_sum, !flag_add, !orb_true_iff. tauto. Qed.

(** The capability is granted somewhere: by a node of the tree, by the
    specification's permissions, or by its risk. *)
Definition granted (spec : WorkflowSpec) (P : PermissionSpec -> Prop) (Q : bool -> LeafSpec -> Prop)
  (hints : list PlanRiskHint) : Prop :=
  (exists parallel n, (parallel, n) ∈ walked (spec_nodes spec) /\ node_grants P (Q parallel) n) \/
  P (spec_permissions spec) \/ risk spec ∈ hints.

Lemma flag_granted (f : Walk -> bool) `{AdditiveFlag f} P Q hints spec :
  (forall p, f (permission_walk p) = true <-> P p) ->
  (forall parallel l, f (inspect_leaf parallel empty_walk l) = true <-> P (leaf_permissions l) \/ Q parallel l) ->
  (forall h, f (hint_walk h) = true <-> h ∈ hints) ->
  f (walk_spec spec) = true <-> granted spec P Q hints.
Proof. intros HP HQ Hh. unfold granted. by rewrite flag_spec, (node_flag f P Q HP HQ), HP, Hh. Qed.

Ltac solve_hint h := destruct h; cbn; rewrite ?elem_of_cons, ?elem_of_nil; naive_solver.

Lemma writes_granted spec :
  walk_writes (walk_spec spec) = true <->
  granted spec may_write (fun _ => writes_files) [HintWrites; HintShell; HintElevated].
Proof.
  apply flag_granted; [apply _|apply permission_writes| |intros h; solve_hint h]. intros p l.
  rewrite leaf_walk, flag_add, orb_true_iff, permission_writes. cbn [walk_writes flagged empty_walk orb].
  rewrite leaf_writes. unfold may_write. tauto.
Qed.

Lemma shell_granted spec :
  walk_shell (walk_spec spec) = true <->
  granted spec (lists_tool is_shell_tool) (fun _ => runs_anything) [HintShell; HintElevated].
Proof.
  apply flag_granted; [apply _|apply permission_shell| |intros h; solve_hint h]. intros p l.
  rewrite leaf_walk, flag_add, orb_true_iff, permission_shell. cbn [walk_shell flagged empty_walk orb].
  rewrite leaf_runs_anything. tauto.
Qed.

Lemma network_granted spec :
  walk_network (walk_spec spec) = true <->
  granted spec may_reach_network (fun _ _ => False) [HintNetwork; HintElevated].
Proof.
  apply flag_granted; [apply _|apply permission_network| |intros h; solve_hint h]. intros p l.
  rewrite leaf_walk, flag_add, orb_true_iff, permission_network. cbn [walk_network flagged empty_walk orb]. naive_solver.
Qed.

Lemma secrets_granted spec :
  walk_secrets (walk_spec spec) = true <-> granted spec (lists_tool is_secret_tool) (fun _ _ => False) [].
Proof.
  apply flag_granted; [apply _|apply permission_secrets| |intros h; solve_hint h]. intros p l.
  rewrite leaf_walk, flag_add, orb_true_iff, permission_secrets. cbn [walk_secrets flagged empty_walk orb]. naive_solver.
Qed.

Lemma worktree_granted spec :
  walk_worktree (walk_spec spec) = true <-> granted spec (fun _ => False) gets_worktree [].
Proof.
  apply flag_granted; [apply _| | |intros h; solve_hint h].
  - intros p. by rewrite permission_worktree.
  - intros p l. rewrite leaf_walk, flag_add, orb_true_iff, permission_worktree. cbn [walk_worktree flagged empty_walk orb].
    rewrite leaf_worktree. naive_solver.
Qed.

Lemma push_reason_nil b s l : push_reason b s ++ l = [] <-> b = false /\ l = [].
Proof. destruct b; cbn; naive_solver. Qed.

Lemma elevated_false spec options :
  let e := assess_workflow_elevation spec options in
  elevated e = false <->
  writes e = false /\ shell e = false /\ network e = false /\ secrets e = false /\ worktree e = false /\
  high_budget e = false /\ broader_authority e = false.
Proof.
  cbn zeta. cbn [assess_workflow_elevation elevated writes shell network secrets worktree high_budget broader_authority].
  set (rs := push_reason _ _ ++ _).
  assert (Hrs : match rs with [] => false | _ => true end = false <-> rs = []) by (by destruct rs).
  rewrite Hrs. unfold rs. rewrite !push_reason_nil. set (b := _ || _). destruct b; cbn; naive_solver.
Qed.

(** elevation is exact.  Each capability of the assessment is reported exactly
    when it is granted: by the permissions of a leaf or a branch set anywhere in
    the tree (loops, both sides of conditions and templates included), by a
    leaf's mode, type or isolation, by the specification's permissions or by
    its risk; and the plan is elevated exactly when a capability, a budget over
    the threshold or an authority beyond the parent's is reported. *)
Theorem elevation_is_exact spec options :
  let e := assess_workflow_elevation spec options in
  (writes e = true <-> granted spec may_write (fun _ => writes_files) [HintWrites; HintShell; HintElevated]) /\
  (shell e = true <-> granted spec (lists_tool is_shell_tool) (fun _ => runs_anything) [HintShell; HintElevated]) /\
  (network e = true <-> granted spec may_reach_network (fun _ _ => False) [HintNetwork; HintElevated]) /\
  (secrets e = true <-> granted spec (lists_tool is_secret_tool) (fun _ _ => False) []) /\
  (worktree e = true <-> granted spec (fun _ => False) gets_worktree []) /\
  (high_budget e = true <-> exists n, effective_tokens spec options = Some n /\ high_budget_threshold options < n) /\
  (broader_authority e = true <->
     (parent_allows_write options = false /\ writes e = true) \/
     (parent_allows_network options = false /\ network e = true)) /\
  (elevated e = false <->
     writes e = false /\ shell e = false /\ network e = false /\ secrets e = false /\ worktree e = false /\
     high_budget e = false /\ broader_authority e = false).
Proof.
  cbn zeta. split_and!; [apply writes_granted|apply shell_granted|apply network_granted|apply secrets_granted|
    apply worktree_granted| | |apply elevated_false].
  - cbn [assess_workflow_elevation high_budget]. destruct (effective_tokens spec options) as [n|].
    + rewrite Z.ltb_lt. naive_solver.
    + naive_solver.
  - cbn [assess_workflow_elevation broader_authority writes network].
    rewrite orb_true_iff, !andb_true_iff, !negb_true_iff. done.
Qed.

Lemma not_granted spec (f : bool) P Q hints parallel n :
  (f = true <-> granted spec P Q hints) -> f = false -> (parallel, n) ∈ walked (spec_nodes spec) ->
  ~ node_grants P (Q parallel) n.
Proof. intros Hf -> Hin Hg. assert (false = true) by (apply Hf; left; eauto). done. Qed.

Lemma leaf_grants P Q l : node_grants P Q (Leaf l) <-> P (leaf_permissions l) \/ Q l.
Proof. unfold node_grants. cbn. naive_solver. Qed.

Lemma trim_write_tool t : is_write_tool (trim t) = is_write_tool t.
Proof. unfold is_write_tool. by rewrite trim_idem. Qed.

Lemma trim_shell_tool t : is_shell_tool (trim t) = is_shell_tool t.
Proof. unfold is_shell_tool. by rewrite trim_idem. Qed.


(** A plan with a scout in the template of an expansion. *)
Definition scout (mode : TaskMode) (tools : list str) : LeafSpec :=
  {| leaf_id := $"scout"; leaf_prompt := $"look"; leaf_agent_type := Explore; leaf_role := None; leaf_profile := None;
     leaf_mode := mode; leaf_isolation := Auto; leaf_file_scope := []; leaf_depends_on_results := [];
     leaf_budget := {| budget_max_steps := None; budget_timeout_secs := None; max_parallel := None; max_tokens := None |};
     leaf_permissions := {| allow_write := false; allow_network := false; deny_all_tools := false; allowed_tools := tools;
       permission_file_scope := [] |};
     leaf_model_policy := {| provider := None; model := None; fallback_models := [] |} |}.

Definition scouting (mode : TaskMode) (tools : list str) : WorkflowSpec :=
  {| spec_id := None; spec_goal := $"goal"; spec_description := Some $"read_only"; spec_budget := leaf_budget (scout mode []);
     spec_permissions := leaf_permissions (scout mode []); spec_model_policy := leaf_model_policy (scout mode []);
     spec_promotion_policy := {| strategy := All; require_teacher_review := false; min_successful_branches := None;
       promotion_gate := {| min_score_delta := 1; max_cost_delta_microusd := None; require_all_tests_pass := true;
         reject_policy_violations := true; reject_stale_replay := true |} |};
     spec_gates := [];
     spec_nodes := [Expand {| expand_id := $"each"; expand_source := $"plan"; max_children := Some 4%nat;
                              template := Some (Leaf (scout mode tools)) |}] |}.

Example scouting_is_read_only :
  is_read_only_envelope (assess_workflow_elevation (scouting ReadOnly [$"read_file"]) default_options) = true.
Proof. vm_compute. reflexivity. Qed.

Example shell_is_elevated :
  elevation_reasons (assess_workflow_elevation (scouting ReadOnly [$" exec_shell "]) default_options) = [$"shell"].
Proof. vm_compute. reflexivity. Qed.

