(* ===== verification/WorkflowReplay.v ===== *)
(** * Replay of recorded workflows

    [crates/workflow/src/replay.rs]: a run of a workflow against a recorded
    trace.  Leaves are looked up by the hash of their resolved inputs, which
    [serde_json] and [sha2] compute: the hash is a parameter.

    The recursion goes down the tree and into the nodes a trace records for an
    [Expand]; the fuel bounds its depth. *)

From S2P Require Import Text.
From S2P Require Export WorkflowMock.

#[export] Instance ControlNodeKind_eq_dec : EqDecision ControlNodeKind.
Proof. solve_decision. Defined.

Definition kind_number (k : ControlNodeKind) : nat :=
  match k with
  | BranchSetKind => 0 | LeafKind => 1 | SequenceKind => 2 | ReduceKind => 3 | TeacherReviewKind => 4
  | LoopUntilKind => 5 | CondKind => 6 | ExpandKind => 7
  end%nat.

Definition number_kind (n : nat) : ControlNodeKind :=
  nth n [BranchSetKind; LeafKind; SequenceKind; ReduceKind; TeacherReviewKind; LoopUntilKind; CondKind; ExpandKind]
    BranchSetKind.

#[export] Program Instance ControlNodeKind_countable : Countable ControlNodeKind :=
  inj_countable' kind_number number_kind _.
Next Obligation. by intros []. Qed.

(** ** Data *)

Record ReplayLeafRecord := {
  leaf_record_trace : str; leaf_record_id : str; record_input_hash : str; leaf_record_result : LeafResult }.

Record ReplayControlRecord := {
  control_record_trace : str; control_record_id : str; control_record_kind : ControlNodeKind;
  control_record_result : ControlNodeResult; recorded_nodes : list WorkflowNode }.

Record WorkflowReplayTrace := {
  trace_id : str; leaf_records : list ReplayLeafRecord; control_records : list ReplayControlRecord }.

Record ReplayOptions := { allow_live_replay : bool }.

Definition default_replay_options : ReplayOptions := {| allow_live_replay := false |}.

Abbreviation ReplayLeafKey := (str * str * str)%type (only parsing).
Abbreviation ReplayControlKey := (str * str * ControlNodeKind)%type (only parsing).

Inductive WorkflowReplayError :=
| Validation (e : WorkflowExecutionError)
| LiveReplayUnavailable (leaf : str)
| InputHash (reason : str)
| ReplayOutOfFuel.

(** What an executor is made of, besides the outputs it resolves. *)
Record WorkflowReplayExecutor := {
  executor_trace_id : str; options : ReplayOptions; leaf_map : gmap ReplayLeafKey LeafResult;
  control_map : gmap ReplayControlKey ReplayControlRecord }.

(** Collecting pairs into a map: the last pair of a key wins. *)
Definition collect `{Countable K} {A} (pairs : list (K * A)) : gmap K A :=
  fold_left (fun m p => <[p.1 := p.2]> m) pairs ∅.

Definition with_options (t : WorkflowReplayTrace) (o : ReplayOptions) : WorkflowReplayExecutor :=
  {| executor_trace_id := trace_id t; options := o;
     leaf_map := collect ((fun r => ((leaf_record_trace r, leaf_record_id r, record_input_hash r), leaf_record_result r))
                            <$> leaf_records t);
     control_map := collect ((fun r => ((control_record_trace r, control_record_id r, control_record_kind r), r))
                               <$> control_records t) |}.

Definition new_replay (t : WorkflowReplayTrace) : WorkflowReplayExecutor := with_options t default_replay_options.

(** ** Operations *)

(** The outputs resolved so far, and the record of the run. *)
Abbreviation outputs := (gmap str (option str)) (only parsing).
Abbreviation replay_state := (gmap str (option str) * WorkflowExecution)%type (only parsing).

Definition resolved_inputs_for_leaf (l : LeafSpec) (resolved : outputs) : outputs :=
  collect ((fun d => (d, default None (resolved !! d))) <$> leaf_depends_on_results l).

(** [branch_status]. *)
Definition replayed_branch_status (results : list LeafResult) : WorkflowRunStatus :=
  if existsb (fun r => bool_decide (leaf_status r = ReplayDiverged)) results then ReplayDiverged
  else if existsb (fun r => bool_decide (leaf_status r <> Succeeded)) results then Failed
  else Succeeded.

Definition select_nodes (nodes : list WorkflowNode) (selected : list str) : list WorkflowNode :=
  let by_id := collect ((fun n => (node_id n, n)) <$> nodes) in
  omap (fun id => by_id !! id) selected.

(** [mark_replay_diverged] or [mark_failed], as the status of a result says. *)
Definition mark_replayed (x : WorkflowExecution) (s : WorkflowRunStatus) : WorkflowExecution :=
  match s with
  | ReplayDiverged => with_status x ReplayDiverged
  | Failed => with_status x Failed
  | _ => x
  end.

Definition push_leaf (x : WorkflowExecution) (l : LeafResult) (memo : WorkflowMemoUsage) : WorkflowExecution :=
  {| status := status x;
     usage := match leaf_results x with [] => leaf_usage l | _ => usage_add (usage x) (leaf_usage l) end;
     memo_usage := memo; leaf_results := leaf_results x ++ [l]; branch_results := branch_results x;
     control_node_results := control_node_results x |}.

Definition diverged_leaf (l : LeafSpec) : LeafResult :=
  {| result_leaf_id := leaf_id l; leaf_task_id := leaf_id l; result_role := leaf_role l;
     result_profile := leaf_profile l; leaf_status := ReplayDiverged; leaf_usage := default_usage;
     leaf_memo_usage := default_memo; leaf_output := None; leaf_artifacts := []; schema_error := None |}.

Section replay.
Context (input_hash : option str -> str -> LeafSpec -> outputs -> result str str).
Context (e : WorkflowReplayExecutor) (spec : WorkflowSpec).

Definition compute_leaf_input_hash (l : LeafSpec) (inputs : outputs) : result WorkflowReplayError str :=
  map_err InputHash (input_hash (spec_id spec) (spec_goal spec) l inputs).

Definition control_record (id : str) (k : ControlNodeKind) : option ReplayControlRecord :=
  control_map e !! (executor_trace_id e, id, k).

Definition replay_leaf (st : replay_state) (l : LeafSpec) : result WorkflowReplayError replay_state :=
  let '(resolved, x) := st in
  hash ← compute_leaf_input_hash l (resolved_inputs_for_leaf l resolved);
  match leaf_map e !! (executor_trace_id e, leaf_id l, hash) with
  | None =>
      reject_if (allow_live_replay (options e)) (LiveReplayUnavailable (leaf_id l));;
      Ok (<[leaf_id l := None]> resolved,
          push_leaf (with_status x ReplayDiverged) (diverged_leaf l) (memo_usage x))
  | Some r =>
      let x := mark_replayed x (leaf_status r) in
      Ok (<[leaf_id l := leaf_output r]> resolved, push_leaf x r (memo_add (memo_usage x) (leaf_memo_usage r)))
  end.

(** [push_control_or_diverge]; the fallbacks are always given. *)
Definition push_control_or_diverge (id : str) (k : ControlNodeKind) (record : option ReplayControlRecord)
  (children : list str) (summary : str) (st : replay_state) : replay_state :=
  let '(resolved, x) := st in
  match record with
  | None => (resolved, push_control (with_status x ReplayDiverged) (control id k ReplayDiverged children summary))
  | Some r =>
      (resolved, push_control (mark_replayed x (control_status (control_record_result r))) (control_record_result r))
  end.

Definition replay_recorded_control (id : str) (k : ControlNodeKind) (children : list str) (summary : str)
  (st : replay_state) : replay_state :=
  push_control_or_diverge id k (control_record id k) children summary st.

(** [execute_branch_set] after its children: the branch result and then the
    control node; [before] leaves had run. *)
Definition push_replayed_branch (s : BranchSpec WorkflowNode) (before : nat) (st : replay_state) : replay_state :=
  let '(resolved, x) := st in
  let mine := drop before (leaf_results x) in
  let status := replayed_branch_status mine in
  (resolved,
   push_branch (mark_replayed x status)
     {| result_branch_id := branch_id s; branch_task_id := branch_id s; branch_status := status;
        branch_usage := branch_total mine; branch_memo_usage := memo_total mine; branch_artifacts := [];
        branch_notes := Some $"replay branch set evaluated from recorded leaf results" |}).

Definition finish_replayed_branch (s : BranchSpec WorkflowNode) (before : nat) (st : replay_state) : replay_state :=
  replay_recorded_control (branch_id s) BranchSetKind (node_id <$> branch_children s)
    $"branch set replayed declared children" (push_replayed_branch s before st).

Definition recorded_children (id : str) (k : ControlNodeKind) (fallback : list str) : list str :=
  match control_record id k with Some r => selected_children (control_record_result r) | None => fallback end.

Definition loop_selection (s : LoopUntilSpec WorkflowNode) : list str :=
  recorded_children (loop_id s) LoopUntilKind (node_id <$> loop_children s).

Definition cond_selection (s : CondSpec WorkflowNode) : list str := recorded_children (cond_id s) CondKind [].

Definition recorded_expansion (id : str) : list WorkflowNode :=
  match control_record id ExpandKind with Some r => recorded_nodes r | None => [] end.

Fixpoint replay_node (fuel : nat) (st : replay_state) (n : WorkflowNode) : result WorkflowReplayError replay_state :=
  match fuel with
  | O => Err ReplayOutOfFuel
  | S fuel =>
      match n with
      | BranchSet s =>
          let before := length (leaf_results st.2) in
          st ← foldM (replay_node fuel) st (branch_children s);
          Ok (finish_replayed_branch s before st)
      | Leaf l => replay_leaf st l
      | Sequence s =>
          st ← foldM (replay_node fuel) st (sequence_children s);
          Ok (replay_recorded_control (sequence_id s) SequenceKind (node_id <$> sequence_children s)
                $"sequence replayed in declaration order" st)
      | Reduce s => Ok (replay_recorded_control (reduce_id s) ReduceKind (inputs s) (reduce_prompt s) st)
      | TeacherReview s =>
          Ok (replay_recorded_control (review_id s) TeacherReviewKind (candidates s)
                $"teacher review replayed from recorded candidates" st)
      | LoopUntil s =>
          st ← foldM (replay_node fuel) st (select_nodes (loop_children s) (loop_selection s));
          Ok (push_control_or_diverge (loop_id s) LoopUntilKind (control_record (loop_id s) LoopUntilKind)
                (loop_selection s) $"loop_until replayed recorded child selection" st)
      | Cond s =>
          st ← foldM (replay_node fuel) st (select_nodes (then_nodes s ++ else_nodes s) (cond_selection s));
          Ok (push_control_or_diverge (cond_id s) CondKind (control_record (cond_id s) CondKind)
                (cond_selection s) $"cond replayed recorded branch selection" st)
      | Expand s =>
          let nodes := recorded_expansion (expand_id s) in
          map_err Validation (validate_workflow_node_shapes nodes);;
          st ← foldM (replay_node fuel) st nodes;
          Ok (push_control_or_diverge (expand_id s) ExpandKind (control_record (expand_id s) ExpandKind)
                (recorded_children (expand_id s) ExpandKind (node_id <$> nodes))
                ($"expand replayed recorded nodes from " ++ expand_source s) st)
      end
  end.

(** [WorkflowReplayExecutor::run] with the outputs resolved before. *)
Definition replay_run (fuel : nat) (resolved : outputs) : result WorkflowReplayError replay_state :=
  map_err Validation (validate_workflow_nodes (spec_nodes spec));;
  foldM (replay_node fuel) (resolved, default_execution) (spec_nodes spec).
End replay.
