(* ===== verification/WorkflowReplaySpec.v ===== *)
(** * Properties of the replay

    A replay returns recorded results and placeholders, nothing else; its
    status is explained by them. *)

From S2P Require Import Text WorkflowIr WorkflowMock WorkflowMockSpec WorkflowReplay.

(** ** Collected maps *)

Lemma collect_snoc `{Countable K} {A} (pairs : list (K * A)) p : collect (pairs ++ [p]) = <[p.1 := p.2]> (collect pairs).
Proof. unfold collect. by rewrite fold_left_app. Qed.

Lemma collect_elem `{Countable K} {A} (pairs : list (K * A)) k a : collect pairs !! k = Some a -> (k, a) ∈ pairs.
Proof.
  induction pairs as [|[k' a'] pairs IH] using rev_ind; [unfold collect; cbn; by rewrite lookup_empty|].
  rewrite collect_snoc, elem_of_app, list_elem_of_singleton. cbn. destruct (decide (k' = k)) as [->|Hne].
  - rewrite lookup_insert_eq. intros [= ->]. by right.
  - rewrite lookup_insert_ne by done. auto.
Qed.

Lemma select_nodes_elem (nodes : list WorkflowNode) selected n : n ∈ select_nodes nodes selected -> n ∈ nodes.
Proof.
  unfold select_nodes. intros (id & _ & Hn%collect_elem)%list_elem_of_omap. apply list_elem_of_fmap in Hn as (m & [= _ ->] & Hm). done.
Qed.

Section replay_spec.
Context (input_hash : option str -> str -> LeafSpec -> outputs -> result str str).
Context (e : WorkflowReplayExecutor) (spec : WorkflowSpec).

Abbreviation hash_of := (compute_leaf_input_hash input_hash spec).
Abbreviation leaf_step := (replay_leaf input_hash e spec).
Abbreviation node_step := (replay_node input_hash e spec).

(** ** Invariants *)

(** The nodes a replay may execute: those of the specification and those the
    trace recorded for an expansion among them. *)
Inductive sourced : WorkflowNode -> Prop :=
| sourced_root n : n ∈ spec_nodes spec -> sourced n
| sourced_child n c : sourced n -> c ∈ node_children n -> sourced c
| sourced_recorded s g : sourced (Expand s) -> g ∈ recorded_expansion e (expand_id s) -> sourced g.

Section invariant.
Context (P : replay_state -> Prop).
Context (Hleaf : forall l st st', sourced (Leaf l) -> P st -> leaf_step st l = Ok st' -> P st').
Context (Hbranch : forall s before st, P st -> P (push_replayed_branch s before st)).
Context (Hcontrol : forall id k children summary st,
  P st -> P (push_control_or_diverge id k (control_record e id k) children summary st)).

Lemma replay_nodes_invariant fuel nodes st st' :
  (forall n st st', sourced n -> P st -> node_step fuel st n = Ok st' -> P st') ->
  (forall n, n ∈ nodes -> sourced n) -> P st -> foldM (node_step fuel) st nodes = Ok st' -> P st'.
Proof. intros Hn Hs Hst. apply foldM_invariant; [|done]. intros st1 n st2 Hin H1 H2. eapply Hn; eauto. Qed.

Lemma replay_node_invariant fuel n st st' : sourced n -> P st -> node_step fuel st n = Ok st' -> P st'.
Proof.
  revert n st st'. induction fuel as [|fuel IH]; intros n st st' Hs Hst; [done|]. cbn [replay_node].
  destruct n as [s|l|s|s|s|s|s|s].
  - intros (st1 & H & [= <-])%bind_Ok. apply Hcontrol, Hbranch. eapply replay_nodes_invariant; [exact IH| |exact Hst|exact H].
    intros c Hc. by eapply sourced_child.
  - by apply Hleaf.
  - intros (st1 & H & [= <-])%bind_Ok. apply Hcontrol. eapply replay_nodes_invariant; [exact IH| |exact Hst|exact H].
    intros c Hc. by eapply sourced_child.
  - intros [= <-]. by apply Hcontrol.
  - intros [= <-]. by apply Hcontrol.
  - intros (st1 & H & [= <-])%bind_Ok. apply Hcontrol. eapply replay_nodes_invariant; [exact IH| |exact Hst|exact H].
    intros c Hc%select_nodes_elem. by eapply sourced_child.
  - intros (st1 & H & [= <-])%bind_Ok. apply Hcontrol. eapply replay_nodes_invariant; [exact IH| |exact Hst|exact H].
    intros c Hc%select_nodes_elem. by eapply sourced_child.
  - rewrite seq_Ok. intros [_ (st1 & H & [= <-])%bind_Ok]. apply Hcontrol.
    eapply replay_nodes_invariant; [exact IH| |exact Hst|exact H]. intros c Hc. by eapply sourced_recorded.
Qed.

Lemma replay_run_invariant fuel resolved st' :
  P (resolved, default_execution) -> replay_run input_hash e spec fuel resolved = Ok st' -> P st'.
Proof.
  unfold replay_run. intros Hst. rewrite seq_Ok. intros [_ H]. eapply replay_nodes_invariant; [|intros n; apply sourced_root|exact Hst|exact H].
  intros n st1 st2. apply replay_node_invariant.
Qed.
End invariant.

(** ** What a replay returns *)

(** The outputs the leaves of a history resolved. *)
Definition outputs_of (resolved : outputs) (h : list (LeafSpec * LeafResult)) : outputs :=
  fold_left (fun m sr => <[leaf_id sr.1 := leaf_output sr.2]> m) h resolved.

(** The result a replay gives a leaf when its inputs hash to [hash]. *)
Definition answers (l : LeafSpec) (hash : str) (r : LeafResult) : Prop :=
  match leaf_map e !! (executor_trace_id e, leaf_id l, hash) with
  | Some recorded => r = recorded
  | None => allow_live_replay (options e) = false /\ r = diverged_leaf l
  end.

(** A history in which every leaf got the recorded result of the inputs that the
    leaves before it resolved. *)
Inductive faithful (resolved : outputs) : list (LeafSpec * LeafResult) -> Prop :=
| faithful_nil : faithful resolved []
| faithful_snoc h l hash r :
    faithful resolved h -> sourced (Leaf l) ->
    hash_of l (resolved_inputs_for_leaf l (outputs_of resolved h)) = Ok hash -> answers l hash r ->
    faithful resolved (h ++ [(l, r)]).

(** A control result is recorded for its node and kind, or stands for a missing
    record. *)
Definition recorded_control (c : ControlNodeResult) : Prop :=
  (exists id k r, control_record e id k = Some r /\ c = control_record_result r) \/
  (control_status c = ReplayDiverged /\ control_record e (control_node_id c) (control_kind c) = None).

Definition history_of (resolved : outputs) (st : replay_state) : Prop :=
  exists h, faithful resolved h /\ leaf_results st.2 = h.*2 /\ st.1 = outputs_of resolved h.

Definition fine (s : WorkflowRunStatus) : bool := match s with Failed | ReplayDiverged => false | _ => true end.

(** The status is [Succeeded] exactly when nothing failed or diverged. *)
Definition replay_explained (x : WorkflowExecution) : Prop :=
  status x = Succeeded <->
  Forall (fun l => fine (leaf_status l) = true) (leaf_results x) /\
  Forall (fun b => branch_status b = Succeeded) (branch_results x) /\
  Forall (fun c => fine (control_status c) = true) (control_node_results x).

Lemma mark_replayed_frame x s :
  leaf_results (mark_replayed x s) = leaf_results x /\ branch_results (mark_replayed x s) = branch_results x /\
  control_node_results (mark_replayed x s) = control_node_results x /\ usage (mark_replayed x s) = usage x.
Proof. by destruct s. Qed.

Lemma mark_replayed_Succeeded x s : status (mark_replayed x s) = Succeeded <-> status x = Succeeded /\ fine s = true.
Proof. destruct s; cbn; naive_solver. Qed.

Lemma replayed_branch_status_cases rs :
  replayed_branch_status rs = ReplayDiverged \/ replayed_branch_status rs = Failed \/ replayed_branch_status rs = Succeeded.
Proof. unfold replayed_branch_status. destruct (existsb _ _); [auto|]. destruct (existsb _ _); auto. Qed.

Lemma replayed_branch_fine rs : fine (replayed_branch_status rs) = true <-> replayed_branch_status rs = Succeeded.
Proof. by destruct (replayed_branch_status_cases rs) as [->|[->| ->]]. Qed.

Record replay_ok (resolved : outputs) (st : replay_state) : Prop := {
  ok_history : history_of resolved st;
  ok_controls : Forall recorded_control (control_node_results st.2);
  ok_status : replay_explained st.2;
  ok_usage : usage st.2 = branch_total (leaf_results st.2) }.

Lemma replay_ok_leaf resolved l st st' :
  sourced (Leaf l) -> replay_ok resolved st -> leaf_step st l = Ok st' -> replay_ok resolved st'.
Proof.
  destruct st as [m x]. intros Hl [(h & Hh & Hx & Hm) Hc Hs Hu]. cbn in Hx, Hm, Hc, Hs, Hu. unfold replay_leaf.
  intros (hash & Hhash & H)%bind_Ok. subst m.
  assert (Hgo : forall r x1 memo, answers l hash r -> leaf_results x1 = leaf_results x -> branch_results x1 = branch_results x ->
    control_node_results x1 = control_node_results x -> usage x1 = usage x ->
    (status x1 = Succeeded <-> status x = Succeeded /\ fine (leaf_status r) = true) ->
    replay_ok resolved (<[leaf_id l := leaf_output r]> (outputs_of resolved h), push_leaf x1 r memo)).
  { intros r x1 memo Ha El Eb Ec Eu Es. constructor; cbn.
    - exists (h ++ [(l, r)]). split_and!; [by eapply faithful_snoc|cbn; by rewrite El, Hx, fmap_app|].
      unfold outputs_of. by rewrite fold_left_app.
    - by rewrite Ec.
    - unfold replay_explained in *. cbn. rewrite El, Eb, Ec, Es, Forall_app, Forall_singleton, Hs. tauto.
    - by rewrite El, Eu, branch_total_snoc, Hu. }
  destruct (leaf_map e !! _) as [r|] eqn:E.
  - injection H as <-. destruct (mark_replayed_frame x (leaf_status r)) as (El & Eb & Ec & Eu).
    apply Hgo; [unfold answers; by rewrite E|done..|apply mark_replayed_Succeeded].
  - apply seq_Ok in H as [Hlive%reject_if_Ok [= <-]]. apply (Hgo (diverged_leaf l)); try done.
    + unfold answers. by rewrite E.
    + cbn. naive_solver.
Qed.

Lemma replay_ok_branch resolved s before st : replay_ok resolved st -> replay_ok resolved (push_replayed_branch s before st).
Proof.
  destruct st as [m x]. intros [(h & Hh & Hx & Hm) Hc Hs Hu]. cbn in Hx, Hm, Hc, Hs, Hu. unfold push_replayed_branch.
  set (t := replayed_branch_status _). destruct (mark_replayed_frame x t) as (El & Eb & Ec & Eu).
  constructor; cbn [fst snd push_branch control_node_results usage leaf_results]; rewrite ?El, ?Ec, ?Eu; [exists h; cbn; by rewrite El|done| |done].
  unfold replay_explained in *. cbn [push_branch status leaf_results branch_results control_node_results].
  rewrite El, Eb, Ec, mark_replayed_Succeeded, Forall_app, Forall_singleton, Hs. cbn [branch_status].
  pose proof (replayed_branch_fine (drop before (leaf_results x))) as Hf. fold t in Hf. tauto.
Qed.

Lemma replay_ok_control resolved id k children summary st :
  replay_ok resolved st -> replay_ok resolved (push_control_or_diverge id k (control_record e id k) children summary st).
Proof.
  destruct st as [m x]. intros [(h & Hh & Hx & Hm) Hc Hs Hu]. cbn in Hx, Hm, Hc, Hs, Hu. unfold push_control_or_diverge.
  destruct (control_record e id k) as [r|] eqn:E.
  - destruct (mark_replayed_frame x (control_status (control_record_result r))) as (El & Eb & Ec & Eu).
    constructor; cbn [fst snd push_control control_node_results usage leaf_results]; rewrite ?El, ?Ec, ?Eu; [exists h; cbn; by rewrite El| | |done].
    + apply Forall_app_2; [done|]. apply Forall_singleton. left. eauto.
    + unfold replay_explained in *. cbn [push_control status leaf_results branch_results control_node_results].
      rewrite El, Eb, Ec, mark_replayed_Succeeded, Forall_app, Forall_singleton, Hs. tauto.
  - constructor; cbn; [by exists h| | |done].
    + apply Forall_app_2; [done|]. apply Forall_singleton. right. done.
    + unfold replay_explained. cbn. rewrite Forall_app, Forall_singleton. cbn. naive_solver.
Qed.
End replay_spec.

(** ** A sample trace

    The hash is the goal, the leaf and the outputs it depends on; the trace
    records a scout and an expansion, but not the leaf [late]. *)

Definition sample_hash (id : option str) (goal : str) (l : LeafSpec) (inputs : outputs) : result str str :=
  Ok (goal ++ leaf_id l ++ (leaf_depends_on_results l ≫= fun d => default [] (default None (inputs !! d)))).

Definition recorded_leaf (id hash output : str) : ReplayLeafRecord :=
  {| leaf_record_trace := $"t"; leaf_record_id := id; record_input_hash := hash;
     leaf_record_result :=
       {| result_leaf_id := id; leaf_task_id := id; result_role := None; result_profile := None;
          leaf_status := Succeeded; leaf_usage := sample_usage; leaf_memo_usage := default_memo;
          leaf_output := Some output; leaf_artifacts := []; schema_error := None |} |}.

Definition recorded_node (id : str) (k : ControlNodeKind) (children : list str) (nodes : list WorkflowNode) : ReplayControlRecord :=
  {| control_record_trace := $"t"; control_record_id := id; control_record_kind := k;
     control_record_result := control id k Succeeded children $"recorded"; recorded_nodes := nodes |}.

Definition sample_trace : WorkflowReplayTrace :=
  {| trace_id := $"t";
     leaf_records := [recorded_leaf $"scout" $"goalscout" $"found"; recorded_leaf $"g" $"goalg" $"done"];
     control_records := [recorded_node $"expand" ExpandKind [$"g"] [Leaf (sample_leaf $"g")];
                         recorded_node $"all" SequenceKind [] []] |}.

Definition spec_of (nodes : list WorkflowNode) : WorkflowSpec :=
  {| spec_id := None; spec_goal := $"goal"; spec_description := None; spec_budget := no_budget;
     spec_permissions := no_permissions; spec_model_policy := no_model;
     spec_promotion_policy := {| strategy := All; require_teacher_review := false; min_successful_branches := None;
       promotion_gate := {| min_score_delta := 1; max_cost_delta_microusd := None; require_all_tests_pass := true;
         reject_policy_violations := true; reject_stale_replay := true |} |};
     spec_gates := []; spec_nodes := nodes |}.

Definition replayed_spec : WorkflowSpec :=
  spec_of [Sequence {| sequence_id := $"all"; sequence_children :=
             [Leaf (sample_leaf $"scout"); Expand sample_expand; Leaf (sample_leaf $"late")] |}].

Example sample_replay :
  match replay_run sample_hash (new_replay sample_trace) replayed_spec 3 ∅ with
  | Ok (_, x) => status x = ReplayDiverged /\ leaf_output <$> leaf_results x = [Some $"found"; Some $"done"; None]
  | Err _ => False
  end.
Proof. vm_compute. done. Qed.



(** * Termination of the replay

    A replay descends into what the trace recorded for an expansion, so it ends
    when these expansions are well-founded, and never ends on an expansion
    recorded as generating itself. *)

Section replay_ends.
Context (input_hash : option str -> str -> LeafSpec -> outputs -> result str str).
Context (e : WorkflowReplayExecutor) (spec : WorkflowSpec).

Abbreviation node_run := (replay_node input_hash e spec).

(** The tree and what the trace recorded below it are well-founded. *)
Inductive replayable (n : WorkflowNode) : Prop :=
| replayable_node :
    (forall c, c ∈ node_children n -> replayable c) ->
    (forall s g, n = Expand s -> g ∈ recorded_expansion e (expand_id s) -> replayable g) ->
    replayable n.

(** From the fuel [d] on, the result no longer depends on the fuel. *)
Definition settles {A} (d : nat) (f : nat -> replay_state -> result WorkflowReplayError A) : Prop :=
  forall fuel st, (d <= fuel)%nat -> f fuel st = f d st /\ f d st <> Err ReplayOutOfFuel.

Definition node_settles (d : nat) (n : WorkflowNode) : Prop := settles d (fun fuel st => node_run fuel st n).

Definition nodes_settle (d : nat) (nodes : list WorkflowNode) : Prop :=
  settles d (fun fuel st => foldM (node_run fuel) st nodes).

Lemma settles_later {A : Type} (d d' : nat) (f : nat -> replay_state -> result WorkflowReplayError A) :
  (d <= d')%nat -> settles d f -> settles d' f.
Proof.
  intros Hd H fuel st Hf. destruct (H fuel st ltac:(lia)) as [E1 _]. destruct (H d' st Hd) as [E2 E3].
  rewrite E1, E2. done.
Qed.

Lemma nodes_settle_all nodes (d : nat) : Forall (node_settles d) nodes -> nodes_settle d nodes.
Proof.
  intros H fuel st Hf. revert st. induction H as [|n nodes Hn _ IH]; intros st; cbn [foldM]; [done|].
  destruct (Hn fuel st Hf) as [E1 E2]. rewrite E1. destruct (node_run d st n) as [st1|err]; cbn; [apply IH|].
  split; [done|]. congruence.
Qed.

Lemma settle_together nodes : (forall n, n ∈ nodes -> exists d, node_settles d n) -> exists d, nodes_settle d nodes.
Proof.
  intros H. cut (exists d, Forall (node_settles d) nodes).
  { intros [d Hd]. exists d. by apply nodes_settle_all. }
  induction nodes as [|n nodes IH]; [by exists 0%nat|]. destruct (H n ltac:(by left)) as [d1 H1].
  destruct IH as [d2 H2]; [intros m Hm; apply H; by right|]. exists (d1 `max` d2)%nat. constructor.
  - eapply settles_later; [|exact H1]. lia.
  - eapply Forall_impl; [exact H2|]. intros m. apply settles_later. lia.
Qed.

(** A step that only finishes what settled, settles. *)
Lemma settles_bind {A B : Type} (d : nat) (f : nat -> replay_state -> result WorkflowReplayError A) (k : replay_state -> A -> result WorkflowReplayError B) :
  settles d f -> (forall st a, k st a <> Err ReplayOutOfFuel) -> settles d (fun fuel st => f fuel st ≫= k st).
Proof.
  intros H Hk fuel st Hf. destruct (H fuel st Hf) as [-> E]. split; [done|].
  destruct (f d st) as [a|err]; cbn; [apply Hk|congruence].
Qed.

Lemma node_settles_S (d : nat) (n : WorkflowNode) (f : nat -> replay_state -> result WorkflowReplayError replay_state) :
  (forall fuel st, node_run (S fuel) st n = f fuel st) -> settles d f -> node_settles (S d) n.
Proof.
  intros Hn H fuel st Hf. destruct fuel as [|fuel]; [lia|]. rewrite !Hn. apply H. lia.
Qed.

Lemma replay_leaf_settles (d : nat) l : settles d (fun _ st => replay_leaf input_hash e spec st l).
Proof.
  intros fuel [m x] _. split; [done|]. unfold replay_leaf, compute_leaf_input_hash.
  destruct (input_hash _ _ _ _) as [h|]; cbn; [|done]. destruct (leaf_map e !! _); cbn; [done|].
  by destruct (allow_live_replay (options e)).
Qed.

(** Children that settle are enough. *)
Lemma children_settle (n : WorkflowNode) (nodes : list WorkflowNode) (k : nat -> replay_state -> replay_state) :
  (forall m, m ∈ nodes -> exists d, node_settles d m) ->
  (forall fuel st, node_run (S fuel) st n =
     st' ← foldM (node_run fuel) st nodes; Ok (k (length (leaf_results st.2)) st')) ->
  exists d, node_settles d n.
Proof.
  intros [d Hd]%settle_together Hn. exists (S d). eapply node_settles_S; [exact Hn|]. by apply (settles_bind d _ (fun st st' => Ok _)).
Qed.

Lemma replayable_settles n : replayable n -> exists d, node_settles d n.
Proof.
  induction 1 as [n _ IHc _ IHg]. destruct n as [s|l|s|s|s|s|s|s].
  - eapply (children_settle _ (branch_children s) (fun before => finish_replayed_branch e s before)); [exact IHc|done].
  - exists 1%nat. eapply node_settles_S; [done|apply replay_leaf_settles].
  - eapply (children_settle _ (sequence_children s) (fun _ => _)); [exact IHc|done].
  - by eapply (children_settle _ [] (fun _ => _)); [intros m ?%not_elem_of_nil|].
  - by eapply (children_settle _ [] (fun _ => _)); [intros m ?%not_elem_of_nil|].
  - eapply (children_settle _ (select_nodes (loop_children s) (loop_selection e s)) (fun _ => _)); [|done].
    intros m Hm%select_nodes_elem. by apply IHc.
  - eapply (children_settle _ (select_nodes (then_nodes s ++ else_nodes s) (cond_selection e s)) (fun _ => _)); [|done].
    intros m Hm%select_nodes_elem. by apply IHc.
  - destruct (settle_together (recorded_expansion e (expand_id s))) as [d Hd]; [intros m Hm; by eapply IHg|].
    exists (S d). eapply node_settles_S; [done|]. intros fuel st Hf. cbn.
    destruct (validate_workflow_node_shapes (recorded_expansion e (expand_id s))) as [u|err]; cbn; [|done].
    apply (settles_bind d _ (fun _ st' => Ok _) Hd); done.
Qed.

(** A rank that falls from an expansion to the expansions recorded for it makes
    every node replayable. *)
Lemma ranked_replayable (rank : str -> nat) :
  (forall (s t : ExpandSpec WorkflowNode) g, g ∈ recorded_expansion e (expand_id s) -> Expand t ∈ descendants g ->
     (rank (expand_id t) < rank (expand_id s))%nat) ->
  forall n, replayable n.
Proof.
  intros Hrank. assert (H : forall k n, (forall t, Expand t ∈ descendants n -> (rank (expand_id t) < k)%nat) -> replayable n).
  { induction k as [k IHk] using (well_founded_induction lt_wf). intros n.
    induction n as [n IH] using node_children_ind. intros Hn. constructor.
    - intros c Hc. apply IH; [done|]. intros t Ht. apply Hn. by eapply descendants_child.
    - intros s g -> Hg. eapply IHk; [apply Hn, descendants_self|]. intros t Ht. by eapply Hrank. }
  intros n. apply (H (S (list_max (rank ∘ node_id <$> descendants n)))). intros t Ht.
  pose proof (proj1 (list_max_le (rank ∘ node_id <$> descendants n) _) (le_n _)) as Hmax. rewrite Forall_forall in Hmax.
  specialize (Hmax (rank (expand_id t))). apply Nat.lt_succ_r, Hmax. apply list_elem_of_fmap. by exists (Expand t).
Qed.

Lemma self_generating_runs_out (s : ExpandSpec WorkflowNode) rest fuel st :
  recorded_expansion e (expand_id s) = Expand s :: rest -> is_ok (validate_workflow_node_shapes (Expand s :: rest)) = true ->
  node_run fuel st (Expand s) = Err ReplayOutOfFuel.
Proof.
  intros Hg [u Hv]%is_ok_spec. revert st. induction fuel as [|fuel IH]; intros st; [done|].
  cbn [replay_node]. rewrite Hg, Hv. cbn. by rewrite IH.
Qed.
End replay_ends.

(** ** Samples *)

(** An expansion whose script generates an expansion of the same identifier: the
    executor runs it once, and records the inner expansion before the outer. *)
Definition nested_executor : MockWorkflowExecutor := with_generated_nodes new_executor $"expand" [Expand sample_expand].

Example nested_run :
  match run nested_executor [Expand sample_expand] with
  | Ok (_, x) => (selected_children <$> control_node_results x) = [[]; [$"expand"]]
  | Err _ => False
  end.
Proof. vm_compute. done. Qed.

Definition nested_trace : WorkflowReplayTrace :=
  {| trace_id := $"t"; leaf_records := [];
     control_records := [recorded_node $"expand" ExpandKind [] [];
                         recorded_node $"expand" ExpandKind [$"expand"] [Expand sample_expand]] |}.

(** a replay ends on well-founded traces.  When the nodes of the specification
    and what the trace recorded below their expansions are well-founded, some
    fuel gives the result of every larger fuel, and never lacks. *)
Theorem replay_ends input_hash e spec :
  (forall n, n ∈ spec_nodes spec -> replayable e n) ->
  exists d, forall fuel resolved, (d <= fuel)%nat ->
    replay_run input_hash e spec fuel resolved = replay_run input_hash e spec d resolved /\
    replay_run input_hash e spec d resolved <> Err ReplayOutOfFuel.
Proof.
  intros H. destruct (settle_together input_hash e spec (spec_nodes spec)) as [d Hd].
  { intros n Hn. apply replayable_settles. by apply H. }
  exists d. intros fuel resolved Hf. unfold replay_run. destruct (validate_workflow_nodes (spec_nodes spec)) as [u|err]; cbn; [|done].
  by apply Hd.
Qed.

(** A trace with an expansion recorded as generating itself passes the checks of
    the executor, and its replay never ends: no fuel is enough. *)
Theorem self_generating_trace_never_ends input_hash e spec s rest fuel resolved :
  spec_nodes spec = [Expand s] -> is_ok (validate_workflow_nodes (spec_nodes spec)) = true ->
  recorded_expansion e (expand_id s) = Expand s :: rest -> is_ok (validate_workflow_node_shapes (Expand s :: rest)) = true ->
  replay_run input_hash e spec fuel resolved = Err ReplayOutOfFuel.
Proof.
  intros Hs [u Hv]%is_ok_spec Hg Hr. unfold replay_run. rewrite Hv, Hs. cbn.
  by rewrite (self_generating_runs_out input_hash e spec s rest).
Qed.

Lemma sample_replayable n : replayable (new_replay sample_trace) n.
Proof.
  refine (ranked_replayable (new_replay sample_trace) (fun _ => 0%nat) _ n). intros s t g Hg Ht. exfalso.
  unfold recorded_expansion, control_record in Hg.
  destruct (control_map _ !! _) as [r|] eqn:E; [|by apply not_elem_of_nil in Hg].
  apply collect_elem, list_elem_of_fmap in E as (r' & [= _ _ _ ->] & Hr).
  repeat (apply elem_of_cons in Hr as [->|Hr]); [| |by apply not_elem_of_nil in Hr]; cbn in Hg.
  - apply list_elem_of_singleton in Hg as ->. by apply list_elem_of_singleton in Ht.
  - by apply not_elem_of_nil in Hg.
Qed.

Lemma replay_ends_witness :
  exists d, forall fuel resolved, (d <= fuel)%nat ->
    replay_run sample_hash (new_replay sample_trace) replayed_spec fuel resolved =
      replay_run sample_hash (new_replay sample_trace) replayed_spec d resolved /\
    replay_run sample_hash (new_replay sample_trace) replayed_spec d resolved <> Err ReplayOutOfFuel.
Proof. apply replay_ends. intros n _. apply sample_replayable. Defined.

Lemma self_generating_trace_never_ends_witness :
  forall fuel, replay_run sample_hash (new_replay nested_trace) (spec_of [Expand sample_expand]) fuel ∅ = Err ReplayOutOfFuel.
Proof.
  intros fuel. apply (self_generating_trace_never_ends sample_hash _ _ sample_expand []); vm_compute; reflexivity.
Defined.
