(* ===== verification/CommandSafety.v ===== *)
(** * Shell command safety

    [crates/tui/src/command_safety.rs]: the classification of commands by
    prefix, the read-only commands that may run in parallel without approval,
    and the analysis that rates a command before it runs. *)

From S2P Require Import Text.
From S2P Require Export BashArity.

(** ** Tables *)

Definition command_arity_git : list (str * Z) := [
  ($"git add", 2);
  ($"git am", 2);
  ($"git apply", 2);
  ($"git bisect", 2);
  ($"git blame", 2);
  ($"git branch", 2);
  ($"git cat-file", 2);
  ($"git checkout", 2);
  ($"git cherry-pick", 2);
  ($"git clean", 2);
  ($"git clone", 2);
  ($"git commit", 2);
  ($"git config", 2);
  ($"git describe", 2);
  ($"git diff", 2);
  ($"git fetch", 2);
  ($"git format-patch", 2);
  ($"git grep", 2);
  ($"git init", 2);
  ($"git log", 2);
  ($"git ls-files", 2);
  ($"git merge", 2);
  ($"git mv", 2);
  ($"git notes", 2);
  ($"git pull", 2);
  ($"git push", 2);
  ($"git rebase", 2);
  ($"git reflog", 2);
  ($"git remote", 2);
  ($"git reset", 2);
  ($"git restore", 2);
  ($"git revert", 2);
  ($"git rm", 2);
  ($"git show", 2);
  ($"git stash", 2);
  ($"git status", 2);
  ($"git submodule", 2);
  ($"git switch", 2);
  ($"git tag", 2);
  ($"git worktree", 2)
].

Definition command_arity_npm : list (str * Z) := [
  ($"npm audit", 2);
  ($"npm build", 2);
  ($"npm cache", 2);
  ($"npm ci", 2);
  ($"npm dedupe", 2);
  ($"npm fund", 2);
  ($"npm help", 2);
  ($"npm info", 2);
  ($"npm init", 2);
  ($"npm install", 2);
  ($"npm link", 2);
  ($"npm list", 2);
  ($"npm ls", 2);
  ($"npm outdated", 2);
  ($"npm pack", 2);
  ($"npm prune", 2);
  ($"npm publish", 2);
  ($"npm rebuild", 2);
  ($"npm run", 3);
  ($"npm start", 2);
  ($"npm stop", 2);
  ($"npm test", 2);
  ($"npm uninstall", 2);
  ($"npm update", 2);
  ($"npm version", 2);
  ($"npm view", 2)
].

Definition command_arity_yarn : list (str * Z) := [
  ($"yarn add", 2);
  ($"yarn audit", 2);
  ($"yarn build", 2);
  ($"yarn install", 2);
  ($"yarn run", 3);
  ($"yarn start", 2);
  ($"yarn test", 2);
  ($"yarn upgrade", 2);
  ($"yarn workspace", 3)
].

Definition command_arity_pnpm : list (str * Z) := [
  ($"pnpm add", 2);
  ($"pnpm build", 2);
  ($"pnpm install", 2);
  ($"pnpm run", 3);
  ($"pnpm start", 2);
  ($"pnpm test", 2);
  ($"pnpm update", 2)
].

Definition command_arity_cargo : list (str * Z) := [
  ($"cargo add", 2);
  ($"cargo bench", 2);
  ($"cargo build", 2);
  ($"cargo check", 2);
  ($"cargo clean", 2);
  ($"cargo clippy", 2);
  ($"cargo doc", 2);
  ($"cargo fix", 2);
  ($"cargo fmt", 2);
  ($"cargo generate", 2);
  ($"cargo install", 2);
  ($"cargo metadata", 2);
  ($"cargo package", 2);
  ($"cargo publish", 2);
  ($"cargo remove", 2);
  ($"cargo run", 2);
  ($"cargo search", 2);
  ($"cargo test", 2);
  ($"cargo tree", 2);
  ($"cargo uninstall", 2);
  ($"cargo update", 2);
  ($"cargo yank", 2)
].

Definition command_arity_docker : list (str * Z) := [
  ($"docker build", 2);
  ($"docker compose", 3);
  ($"docker container", 3);
  ($"docker cp", 2);
  ($"docker exec", 2);
  ($"docker image", 3);
  ($"docker images", 2);
  ($"docker inspect", 2);
  ($"docker kill", 2);
  ($"docker logs", 2);
  ($"docker network", 3);
  ($"docker ps", 2);
  ($"docker pull", 2);
  ($"docker push", 2);
  ($"docker rm", 2);
  ($"docker rmi", 2);
  ($"docker run", 2);
  ($"docker start", 2);
  ($"docker stop", 2);
  ($"docker system", 3);
  ($"docker tag", 2);
  ($"docker volume", 3)
].

Definition command_arity_kubectl : list (str * Z) := [
  ($"kubectl apply", 2);
  ($"kubectl create", 3);
  ($"kubectl delete", 3);
  ($"kubectl describe", 3);
  ($"kubectl exec", 2);
  ($"kubectl explain", 2);
  ($"kubectl get", 3);
  ($"kubectl label", 2);
  ($"kubectl logs", 2);
  ($"kubectl patch", 2);
  ($"kubectl port-forward", 2);
  ($"kubectl rollout", 3);
  ($"kubectl scale", 2);
  ($"kubectl set", 2);
  ($"kubectl top", 3)
].

Definition command_arity_go : list (str * Z) := [
  ($"go build", 2);
  ($"go clean", 2);
  ($"go env", 2);
  ($"go fmt", 2);
  ($"go generate", 2);
  ($"go get", 2);
  ($"go install", 2);
  ($"go list", 2);
  ($"go mod", 3);
  ($"go run", 2);
  ($"go test", 2);
  ($"go vet", 2);
  ($"go work", 3)
].

Definition command_arity_python_pip : list (str * Z) := [
  ($"pip install", 2);
  ($"pip uninstall", 2);
  ($"pip list", 2);
  ($"pip show", 2);
  ($"pip freeze", 2);
  ($"pip3 install", 2);
  ($"pip3 uninstall", 2);
  ($"pip3 list", 2);
  ($"pip3 show", 2);
  ($"python", 2);
  ($"python3", 2)
].

Definition command_arity_make_cmake : list (str * Z) := [
  ($"make", 1)
].

Definition command_arity_gh_github_cli : list (str * Z) := [
  ($"gh pr", 3);
  ($"gh issue", 3);
  ($"gh repo", 3);
  ($"gh release", 3);
  ($"gh workflow", 3);
  ($"gh run", 3);
  ($"gh secret", 3)
].

Definition command_arity_rustup : list (str * Z) := [
  ($"rustup default", 2);
  ($"rustup install", 2);
  ($"rustup show", 2);
  ($"rustup target", 3);
  ($"rustup toolchain", 3);
  ($"rustup update", 2)
].

Definition command_arity_deno_bun_node : list (str * Z) := [
  ($"deno run", 2);
  ($"deno test", 2);
  ($"deno fmt", 2);
  ($"deno lint", 2);
  ($"bun add", 2);
  ($"bun build", 2);
  ($"bun install", 2);
  ($"bun run", 3);
  ($"bun test", 2);
  ($"npx", 2)
].

Definition COMMAND_ARITY : list (str * Z) :=
  command_arity_git ++ command_arity_npm ++ command_arity_yarn ++ command_arity_pnpm ++ command_arity_cargo ++ command_arity_docker ++ command_arity_kubectl ++ command_arity_go ++ command_arity_python_pip ++ command_arity_make_cmake ++ command_arity_gh_github_cli ++ command_arity_rustup ++ command_arity_deno_bun_node.

Definition PARALLEL_READONLY_PREFIXES : list str :=
  [$"git status"; $"git log"; $"git diff"; $"git show"; $"git ls-files"; $"git blame"; $"git grep"; $"ls";
   $"pwd"; $"cat"; $"head"; $"tail"; $"wc"; $"which"; $"stat"; $"file"; $"du"; $"df"; $"grep"; $"rg";
   $"fd"].

Definition SAFE_COMMANDS : list str :=
  [$"ls"; $"dir"; $"pwd"; $"cd"; $"cat"; $"head"; $"tail"; $"less"; $"more"; $"grep"; $"rg"; $"ag";
   $"find"; $"fd"; $"which"; $"whereis"; $"type"; $"echo"; $"printf"; $"date"; $"cal"; $"uptime";
   $"whoami"; $"id"; $"hostname"; $"uname"; $"env"; $"printenv"; $"set"; $"ps"; $"top"; $"htop"; $"df";
   $"du"; $"free"; $"vmstat"; $"wc"; $"sort"; $"uniq"; $"cut"; $"tr"; $"awk"; $"sed"; $"diff"; $"file";
   $"stat"; $"md5"; $"sha1sum"; $"sha256sum"; $"git status"; $"git log"; $"git diff"; $"git show";
   $"git branch"; $"git remote"; $"git tag"; $"git stash list"; $"npm list"; $"npm ls"; $"npm outdated";
   $"npm view"; $"cargo check"; $"cargo test"; $"cargo build"; $"cargo doc"; $"python --version";
   $"node --version"; $"rustc --version"; $"man"; $"help"; $"info"].

Definition WORKSPACE_SAFE_COMMANDS : list str :=
  [$"mkdir"; $"touch"; $"cp"; $"mv"; $"git add"; $"git commit"; $"git checkout"; $"git switch";
   $"git restore"; $"git merge"; $"git rebase"; $"git cherry-pick"; $"git reset --soft"; $"npm install";
   $"npm ci"; $"npm update"; $"cargo build"; $"cargo run"; $"cargo test"; $"cargo fmt"; $"pip install";
   $"pip uninstall"; $"make"; $"cmake"; $"ninja"].

Definition PRIVILEGED_PATTERNS : list str :=
  [$"sudo"; $"su "; $"doas"; $"pkexec"; $"gksudo"; $"kdesudo"].

Definition NETWORK_COMMANDS : list str :=
  [$"curl"; $"wget"; $"fetch"; $"nc"; $"netcat"; $"ncat"; $"ssh"; $"scp"; $"sftp"; $"rsync"; $"ftp";
   $"ping"; $"traceroute"; $"nslookup"; $"dig"; $"host"; $"nmap"; $"masscan"; $"tcpdump"; $"wireshark"].

Definition KNOWN_SAFE_CHAIN_PREFIXES : list str :=
  [$"cargo"; $"rustc"; $"rustup"; $"git"; $"gh"; $"hub"; $"npm"; $"yarn"; $"pnpm"; $"node"; $"npx"; $"zig";
   $"go"; $"deno"; $"bun"; $"make"; $"cmake"; $"ninja"; $"meson"; $"python"; $"python3"; $"pip"; $"pip3";
   $"uv"; $"poetry"; $"ls"; $"pwd"; $"cd"; $"echo"; $"cat"; $"head"; $"tail"; $"grep"; $"rg"; $"find";
   $"fd"; $"wc"; $"sort"; $"uniq"; $"which"; $"env"; $"true"; $"false"].

(** ** Prefixes *)

(** [classify_command]: the algorithm of [BashArity.classify], over the table in
    its own order. *)
Definition command_dict : BashArityDict := {| entries := COMMAND_ARITY |}.

Definition classify_command (tokens : list str) : str := classify command_dict tokens.

(** Words, lowercased and joined by single spaces. *)
Definition normalize_words (s : str) : str := join $" " (split_whitespace (to_ascii_lowercase (trim s))).

Definition prefix_allow_matches (pattern command : str) : bool :=
  let pattern_norm := normalize_words pattern in
  match split_whitespace command with
  | [] => str_is_empty pattern_norm
  | tokens =>
      if bool_decide (classify_command tokens = pattern_norm) then true
      else
        let command_norm := normalize_words command in
        bool_decide (command_norm = pattern_norm) || starts_with (pattern_norm ++ $" ") command_norm
  end.

(** ** Words of a shell command *)

(** What the analysis takes from elsewhere: [shlex::split], and the full Unicode
    lowercase of [str::to_lowercase]. *)
Class Shell := { shlex_split : str -> option (list str); to_lowercase : str -> str }.

Section analysis.
Context `{Shell}.

Definition is_quote (c : char) : bool := N.eqb c 34 || N.eqb c (chr "'").

(** [str::trim_matches]. *)
Definition trim_matches (p : char -> bool) (s : str) : str := rev (trim_start_by p (rev (trim_start_by p s))).

Definition shell_words (segment : str) : list str :=
  match shlex_split segment with
  | Some words => words
  | None => trim_matches is_quote <$> split_whitespace segment
  end.

Definition is_env_assignment (token : str) : bool :=
  match split_once $"=" token with
  | None => false
  | Some (name, _) =>
      negb (str_is_empty name)
      && forallb (fun c => N.eqb c (chr "_") || is_ascii_alphanumeric c) name
      && match name with c :: _ => N.eqb c (chr "_") || is_ascii_alphabetic c | [] => false end
  end.

(** The tokens from [primary_token_index] on: [env] with its flags and
    assignments, and assignments, are skipped. *)
Fixpoint primary_tokens_from (in_env : bool) (tokens : list str) : list str :=
  match tokens with
  | [] => []
  | t :: rest =>
      if in_env && (starts_with $"-" t || is_env_assignment t) then primary_tokens_from true rest
      else if bool_decide (t = $"env") then primary_tokens_from true rest
      else if is_env_assignment t then primary_tokens_from false rest
      else tokens
  end.

Definition primary_tokens (tokens : list str) : list str := primary_tokens_from false tokens.

Definition split_command_segments (command : str) : list str :=
  let s := replace $"&&" [10%N] command in
  let s := replace $"||" [10%N] s in
  let s := replace_chars (N.eqb (chr ";")) [10%N] s in
  retain (fun segment => negb (str_is_empty segment)) (trim <$> split_char 10 s).

(** ** Read-only commands *)

Definition is_nestlone_readonly_invocation (tokens : list str) : bool :=
  match tokens with
  | [] => false
  | command :: args =>
      bool_decide (command ∈ [$"nestlone"; $"codew"])
      && bool_decide (args ∈ [[$"--version"]; [$"-V"]; [$"-v"]; [$"--help"]; [$"-h"]])
  end.

Definition readonly_shell_wrapper_inner_command (tokens : list str) : option str :=
  match tokens with
  | [shell; flag; inner] =>
      if bool_decide (shell ∈ [$"bash"; $"sh"; $"zsh"]) && bool_decide (flag ∈ [$"-c"; $"-lc"]) then Some inner else None
  | _ => None
  end.

(** A cluster of short flags with one of [flags]. *)
Definition short_flags (flags : list char) (token : str) : bool :=
  starts_with $"-" token && negb (starts_with $"--" token) && existsb (fun c => bool_decide (c ∈ flags)) (tail token).

Definition has_exec_capable_readonly_flag (canonical : str) (tokens : list str) : bool :=
  if bool_decide (canonical = $"fd") then
    existsb (fun t => bool_decide (t ∈ [$"--exec"; $"--exec-batch"]) || starts_with $"--exec=" t
                      || starts_with $"--exec-batch=" t || short_flags [chr "x"; chr "X"] t) (drop 1 tokens)
  else if bool_decide (canonical = $"rg") then
    existsb (fun t => bool_decide (t = $"--pre") || starts_with $"--pre=" t) (drop 1 tokens)
  else if bool_decide (canonical = $"git grep") then
    existsb (fun t => bool_decide (t = $"-O") || starts_with $"-O" t || bool_decide (t = $"--open-files-in-pager")
                      || starts_with $"--open-files-in-pager=" t || short_flags [chr "O"] t) (drop 2 tokens)
  else false.

Definition follows (tokens : list str) : bool :=
  existsb (fun t => bool_decide (t ∈ [$"-f"; $"-F"; $"--follow"]) || starts_with $"--follow=" t) (drop 1 tokens).

Definition shell_metacharacters : list char :=
  [10%N; 13%N; chr ";"; chr "&"; chr "|"; chr ">"; chr "<"; chr "`"].

Definition has_shell_syntax (s : str) : bool :=
  str_contains $"$(" s || existsb (fun c => bool_decide (c ∈ shell_metacharacters)) s.

(** The checks of [is_parallel_readonly_command] on the command itself. *)
Definition readonly_tokens (tokens : list str) : bool :=
  if is_nestlone_readonly_invocation tokens then true
  else
    let canonical := classify_command tokens in
    if has_exec_capable_readonly_flag canonical tokens then false
    else if bool_decide (canonical = $"tail") && follows tokens then false
    else bool_decide (canonical ∈ PARALLEL_READONLY_PREFIXES).

(** [None] when the fuel is out: the recursion unwraps [bash -c]. *)
Fixpoint parallel_readonly (fuel : nat) (command : str) : option bool :=
  match fuel with
  | O => None
  | S fuel =>
      let trimmed := trim command in
      if str_is_empty trimmed then Some false
      else if has_shell_syntax trimmed then Some false
      else
        match primary_tokens (shell_words trimmed) with
        | [] => Some false
        | tokens =>
            match readonly_shell_wrapper_inner_command tokens with
            | Some inner => parallel_readonly fuel inner
            | None => Some (readonly_tokens tokens)
            end
        end
  end.

Definition readonly_fuel (command : str) : nat := S (length command).

Definition is_parallel_readonly_command (command : str) : bool :=
  default false (parallel_readonly (readonly_fuel command) command).

(** ** Levels *)

Inductive SafetyLevel := Safe | WorkspaceSafe | RequiresApproval | Dangerous.

#[export] Instance SafetyLevel_eq_dec : EqDecision SafetyLevel.
Proof. solve_decision. Defined.

Record SafetyAnalysis := { level : SafetyLevel; reasons : list str; suggestions : list str }.

Definition safe : SafetyAnalysis := {| level := Safe; reasons := [$"Command is read-only"]; suggestions := [] |}.
Definition workspace_safe (reason : str) : SafetyAnalysis :=
  {| level := WorkspaceSafe; reasons := [reason]; suggestions := [] |}.
Definition requires_approval (reasons : list str) : SafetyAnalysis :=
  {| level := RequiresApproval; reasons := reasons; suggestions := [] |}.
Definition dangerous (reasons suggestions : list str) : SafetyAnalysis :=
  {| level := Dangerous; reasons := reasons; suggestions := suggestions |}.

(** ** Destructive patterns *)

Definition primary_shell_command_is (command expected : str) : bool :=
  existsb (fun segment => bool_decide (head (primary_tokens (shell_words segment)) = Some expected))
    (split_command_segments command).

Definition remote_pipe (left right : str) : bool :=
  let lower := to_ascii_lowercase left in
  (str_contains $"curl" lower || str_contains $"wget" lower)
  && match primary_tokens (shell_words right) with
     | t :: _ => bool_decide (t ∈ [$"sh"; $"bash"; $"zsh"])
     | [] => false
     end.

(** [parts.windows(2).any(f)]. *)
Fixpoint any_window (f : str -> str -> bool) (parts : list str) : bool :=
  match parts with
  | a :: ((b :: _) as rest) => f a b || any_window f rest
  | _ => false
  end.

Definition pipes_remote_content_to_shell (command : str) : bool :=
  existsb (fun segment => any_window remote_pipe (split_char (chr "|") segment)) (split_command_segments command).

Definition slashes (s : str) : str := replace_chars (N.eqb (chr "\")) $"/" s.

Definition is_root_delete_target (target : str) : bool :=
  let normalized := slashes (trim_matches is_quote target) in
  bool_decide (normalized ∈ [$"/"; $"/*"; $"//"]) || starts_with $"/*/" normalized || starts_with $"/." normalized.

Definition is_home_delete_target (target : str) : bool :=
  let lower := to_ascii_lowercase (slashes (trim_matches is_quote target)) in
  bool_decide (lower ∈ [$"~"; $"$home"; $"${home}"]) || starts_with $"~/" lower || starts_with $"$home/" lower
  || starts_with $"${home}/" lower.

Definition target_contains_parent_escape (target : str) : bool :=
  existsb (fun component => bool_decide (component = $"..")) (split_char (chr "/") (slashes target)).

(** What the loop over the arguments of [rm] collects. *)
Record RmArgs := { recursive : bool; force : bool; targets : list str }.

Definition rm_arg (a : RmArgs) (arg : str) : RmArgs :=
  if bool_decide (arg = $"--") then a
  else if bool_decide (arg ∈ [$"--recursive"; $"--dir"]) then
    {| recursive := true; force := force a; targets := targets a |}
  else if bool_decide (arg = $"--force") then
    {| recursive := recursive a; force := true; targets := targets a |}
  else if starts_with $"-" arg && negb (starts_with $"--" arg) then
    {| recursive := recursive a || existsb (fun c => bool_decide (c ∈ [chr "r"; chr "R"])) arg;
       force := force a || existsb (N.eqb (chr "f")) arg; targets := targets a |}
  else {| recursive := recursive a; force := force a; targets := targets a ++ [arg] |}.

Definition rm_args (args : list str) : RmArgs :=
  fold_left rm_arg args {| recursive := false; force := false; targets := [] |}.

Definition target_reason (target : str) : option str :=
  if is_root_delete_target target then Some $"Recursive or forced deletion targets the root filesystem"
  else if is_home_delete_target target then Some $"Recursive or forced deletion targets the home directory"
  else if target_contains_parent_escape target then Some $"Recursive or forced deletion may escape the workspace"
  else None.

Definition dangerous_rm_reason (args : list str) : option str :=
  let a := rm_args args in
  if negb (recursive a || force a) then None else first_some target_reason (targets a).

Definition execs_rm (args : list str) : bool :=
  any_window (fun a b => bool_decide (a = $"-exec") && bool_decide (b = $"rm")) args.

(** [args.iter().take_while(|arg| !arg.starts_with('-'))]. *)
Fixpoint find_roots (args : list str) : list str :=
  match args with
  | a :: rest => if starts_with $"-" a then [] else a :: find_roots rest
  | [] => []
  end.

Definition is_broad_target (target : str) : bool :=
  is_root_delete_target target || is_home_delete_target target || target_contains_parent_escape target.

Definition analyze_find_mutation (args : list str) : option SafetyAnalysis :=
  if negb (existsb (fun a => bool_decide (a = $"-delete")) args || execs_rm args) then None
  else if existsb is_broad_target (find_roots args) then
    Some (dangerous [$"find mutation targets a broad or external path"]
            [$"Restrict the find root to a workspace-relative path"])
  else Some (requires_approval [$"find command may delete files"]).

(** The loop body over the segments. *)
Definition analyze_segment (segment : str) : option SafetyAnalysis :=
  match primary_tokens (shell_words segment) with
  | t :: args =>
      if bool_decide (t = $"rm") then
        (fun reason => dangerous [reason] [$"Review the deletion target before retrying"]) <$> dangerous_rm_reason args
      else if bool_decide (t = $"find") then analyze_find_mutation args
      else None
  | [] => None
  end.

Definition analyze_destructive_patterns (command : str) : option SafetyAnalysis :=
  if primary_shell_command_is command $"eval" then
    Some (dangerous [$"Command invokes shell eval"] [$"Avoid evaluating dynamically generated shell input"])
  else if pipes_remote_content_to_shell command then
    Some (dangerous [$"Piping remote content directly to shell is dangerous"]
            [$"Download the script first and review it before execution"])
  else first_some analyze_segment (split_command_segments command).

(** ** The analysis *)

Definition DANGEROUS_PATTERNS : list (str * str) :=
  [($"rm -rf /", $"Attempts to recursively delete root filesystem");
   ($"rm -rf /*", $"Attempts to recursively delete all root directories");
   ($"rm -rf ~", $"Attempts to recursively delete home directory");
   ($"rm -rf $HOME", $"Attempts to recursively delete home directory");
   ($":(){ :|:& };:", $"Fork bomb " ++ [0x2014%N] ++ $" will crash the system")].

Definition all_segments_known_safe (command : str) : bool :=
  match split_command_segments command with
  | [] => false
  | segments =>
      forallb (fun seg =>
        let head := default [] (find (fun tok => negb (contains_char (chr "=") tok) && bool_decide (tok <> $"env"))
                                  (split_whitespace seg)) in
        existsb (eq_ignore_ascii_case head) KNOWN_SAFE_CHAIN_PREFIXES) segments
  end.

Definition is_safe_command (command : str) : bool :=
  match primary_tokens (shell_words command) with
  | [] => false
  | refs => is_nestlone_readonly_invocation refs
  end || existsb (fun safe_cmd => starts_with safe_cmd (to_lowercase command)) SAFE_COMMANDS.

Definition is_workspace_safe_command (command : str) : bool :=
  existsb (fun ws_cmd => starts_with ws_cmd (to_lowercase command)) WORKSPACE_SAFE_COMMANDS.

Definition is_chain (command : str) : bool :=
  str_contains $"&&" command || str_contains $"||" command || contains_char (chr ";") command.

Definition is_substitution (command : str) : bool := contains_char (chr "`") command || str_contains $"$(" command.

Definition privileged_pattern (command : str) : option str :=
  find (fun p => starts_with p (trim command) || str_contains ($" " ++ p ++ $" ") (to_lowercase command))
    PRIVILEGED_PATTERNS.

Definition remote_pipe_text (lower : str) : bool :=
  (str_contains $"curl" lower || str_contains $"wget" lower)
  && (str_contains $"| sh" lower || str_contains $"| bash" lower || str_contains $"| zsh" lower).

(** The end of [analyze_command]: a command that is neither known to be safe
    nor dangerous. *)
Definition analyze_unknown (command : str) : SafetyAnalysis :=
  let lower := to_lowercase command in
  let first_word := default [] (head (split_whitespace (trim command))) in
  if bool_decide (first_word ∈ NETWORK_COMMANDS) then requires_approval [$"Command may make network requests"]
  else if bool_decide (first_word = $"rm") && (str_contains $"-r" lower || str_contains $"-f" lower) then
    if str_contains $".." lower || str_contains $"~/" lower || str_contains $"$HOME" lower then
      dangerous [$"Recursive or forced deletion"; $"May delete files outside workspace"]
        [$"Use relative paths within the workspace"]
    else requires_approval [$"Recursive or forced deletion"]
  else if str_contains $"git push" lower then
    if str_contains $"--force" lower || str_contains $"-f" lower
    then requires_approval [$"Force push can overwrite remote history"]
    else requires_approval [$"Push will modify remote repository"]
  else requires_approval [$"Unknown command - review before execution"].

Definition analyze_command (command : str) : SafetyAnalysis :=
  let lower := to_lowercase command in
  if contains_char 10%N command || contains_char 13%N command then
    dangerous [$"Command contains multiple lines"]
      [$"Run one command at a time"; $"Write multiline scripts to a file first, then execute the script";
       $"Use task_shell_start or background shell for long interactive flows"]
  else if contains_char 0%N command then
    dangerous [$"Command contains a null byte"] [$"Strip embedded null bytes before retrying"]
  else
    match analyze_destructive_patterns command with
    | Some analysis => analysis
    | None =>
        if is_chain command then
          if all_segments_known_safe command
          then requires_approval [$"Command chains known-safe segments (cargo/git/etc.)"]
          else requires_approval [$"Command chaining detected"]
        else if is_substitution command then requires_approval [$"Command substitution detected"]
        else
          match find (fun p => str_contains (to_lowercase p.1) lower) DANGEROUS_PATTERNS with
          | Some (_, reason) => dangerous [reason] [$"Review the command carefully before execution"]
          | None =>
              match privileged_pattern command with
              | Some p => requires_approval [$"Command uses privileged execution (" ++ trim p ++ $")"]
              | None =>
                  if remote_pipe_text lower then
                    dangerous [$"Piping remote content directly to shell is dangerous"]
                      [$"Download the script first and review it before execution"]
                  else if is_safe_command (trim command) then safe
                  else if is_workspace_safe_command (trim command)
                  then workspace_safe $"Command modifies files within workspace"
                  else analyze_unknown command
              end
          end
    end.

Definition extract_primary_command (command : str) : option str :=
  let trimmed := trim command in
  if starts_with $"env " trimmed || starts_with $"ENV=" trimmed then
    find (fun s => negb (contains_char (chr "=") s) && bool_decide (s <> $"env")) (split_whitespace trimmed)
  else head (split_whitespace trimmed).
End analysis.
