(* ===== verification/CommandSafetySpec.v ===== *)
(** * Properties of shell command safety

    A segment that deletes a broad target is blocked, a command rated safe has
    no shell syntax the analysis knows of, the read-only classifier decides an
    inductive notion, and the two prefix dictionaries agree where both have the
    command. *)

From Stdlib Require Import Btauto.
From S2P Require Import Text BashArity CommandSafety.

(** ** Arguments of rm *)

(** The argument asks for a recursive or forced deletion. *)
Definition rm_flag (arg : str) : bool :=
  bool_decide (arg ∈ [$"--recursive"; $"--dir"; $"--force"])
  || short_flags [chr "r"; chr "R"; chr "f"] arg.

(** The argument is an operand. *)
Definition rm_operand (arg : str) : bool :=
  bool_decide (arg ∉ [$"--"; $"--recursive"; $"--dir"; $"--force"])
  && negb (starts_with $"-" arg && negb (starts_with $"--" arg)).

Definition deletes_broadly (args : list str) : Prop :=
  (exists flag, flag ∈ args /\ rm_flag flag = true) /\
  (exists target, target ∈ args /\ rm_operand target = true /\ is_broad_target target = true).

(** The members of [rm -rf]'s clusters: the dash is none of them. *)
Lemma cluster_flags arg :
  starts_with $"-" arg = true ->
  existsb (fun c => bool_decide (c ∈ [chr "r"; chr "R"])) arg || existsb (N.eqb (chr "f")) arg =
  existsb (fun c => bool_decide (c ∈ [chr "r"; chr "R"; chr "f"])) (tail arg).
Proof.
  intros (r & ->)%starts_with_spec. change ($"-" ++ r) with (chr "-" :: r). cbn [existsb tail].
  replace (bool_decide (chr "-" ∈ [chr "r"; chr "R"])) with false by (by vm_compute).
  replace (chr "f" =? chr "-")%N with false by (by vm_compute). cbn [orb].
  induction r as [|c r IH]; [done|]. cbn [existsb]. rewrite <-IH.
  assert (Hc : bool_decide (c ∈ [chr "r"; chr "R"; chr "f"]) = bool_decide (c ∈ [chr "r"; chr "R"]) || (chr "f" =? c)%N).
  { apply eq_true_iff_eq. rewrite orb_true_iff, !bool_decide_eq_true, N.eqb_eq. set_solver. }
  rewrite Hc. btauto.
Qed.

Lemma rm_arg_spec a arg :
  let b := rm_arg a arg in
  (recursive b || force b) = (recursive a || force a) || rm_flag arg /\
  targets b = targets a ++ (if rm_operand arg then [arg] else []).
Proof.
  cbn zeta. unfold rm_arg. case_bool_decide as H1; [subst arg|].
  { replace (rm_flag $"--") with false by (by vm_compute). replace (rm_operand $"--") with false by (by vm_compute).
    by rewrite orb_false_r, app_nil_r. }
  case_bool_decide as H2; [|case_bool_decide as H3; [subst arg|]].
  { unfold rm_flag, rm_operand. rewrite (bool_decide_eq_true_2 (arg ∈ _)) by set_solver. rewrite bool_decide_eq_false_2 by set_solver.
    cbn. rewrite orb_true_r, app_nil_r. by destruct (force a), (recursive a). }
  { replace (rm_flag $"--force") with true by (by vm_compute). replace (rm_operand $"--force") with false by (by vm_compute).
    cbn. by rewrite !orb_true_r, app_nil_r. }
  assert (Ho : bool_decide (arg ∉ [$"--"; $"--recursive"; $"--dir"; $"--force"]) = true) by (apply bool_decide_eq_true; set_solver).
  unfold rm_flag, rm_operand, short_flags. rewrite (bool_decide_eq_false_2 (arg ∈ _)) by set_solver. rewrite Ho. cbn [andb orb].
  destruct (starts_with $"-" arg && negb (starts_with $"--" arg)) eqn:E; cbn [andb negb recursive force targets].
  - rewrite app_nil_r. split; [|done]. apply andb_prop in E as [Ed _]. rewrite <-(cluster_flags arg Ed).
    btauto.
  - by rewrite orb_false_r.
Qed.

Lemma rm_args_spec args :
  (recursive (rm_args args) || force (rm_args args)) = existsb rm_flag args /\
  targets (rm_args args) = retain rm_operand args.
Proof.
  unfold rm_args. set (a0 := {| recursive := false |}).
  assert (H : forall a, let b := fold_left rm_arg args a in
    (recursive b || force b) = (recursive a || force a) || existsb rm_flag args /\ targets b = targets a ++ retain rm_operand args).
  { induction args as [|arg args IH]; intros a; cbn zeta; cbn [fold_left]; [by rewrite orb_false_r, app_nil_r|].
    destruct (IH (rm_arg a arg)) as [-> ->]. destruct (rm_arg_spec a arg) as [-> ->]. cbn [existsb retain].
    split; [by rewrite orb_assoc|]. rewrite <-app_assoc. f_equal. cbn. by destruct (rm_operand arg). }
  apply (H a0).
Qed.

Lemma target_reason_spec t : is_Some (target_reason t) <-> is_broad_target t = true.
Proof.
  unfold target_reason, is_broad_target. destruct (is_root_delete_target t), (is_home_delete_target t), (target_contains_parent_escape t);
    cbn; split; try done; by intros [].
Qed.

Lemma dangerous_rm_spec args : is_Some (dangerous_rm_reason args) <-> deletes_broadly args.
Proof.
  unfold dangerous_rm_reason, deletes_broadly. destruct (rm_args_spec args) as [-> ->].
  assert (Ht : is_Some (first_some target_reason (retain rm_operand args)) <->
    exists t, t ∈ args /\ rm_operand t = true /\ is_broad_target t = true).
  { setoid_rewrite <-target_reason_spec. split.
    - intros [y (before & t & after & E & Hy & _)%first_some_Some]. exists t.
      assert (Hin : t ∈ retain rm_operand args) by (rewrite E; set_solver). apply elem_of_retain in Hin. naive_solver.
    - intros (t & Hin & Ho & Hb). destruct (first_some _ _) eqn:E; [done|]. rewrite first_some_None in E.
      rewrite E in Hb; [by destruct Hb|]. by apply elem_of_retain. }
  rewrite <-Ht, <-existsb_spec. destruct (existsb rm_flag args); cbn; [naive_solver|]. split; [by intros []|naive_solver].
Qed.

Section with_shell.
Context `{Shell}.

(** ** Destructive segments *)

Lemma analyze_segment_rm seg args :
  primary_tokens (shell_words seg) = $"rm" :: args -> deletes_broadly args ->
  exists a, analyze_segment seg = Some a /\ level a = Dangerous.
Proof.
  intros E [reason Hr]%dangerous_rm_spec. unfold analyze_segment. rewrite E, bool_decide_eq_true_2 by done. rewrite Hr. cbn. eauto.
Qed.

Lemma analyze_segment_find seg args target :
  primary_tokens (shell_words seg) = $"find" :: args -> $"-delete" ∈ args \/ execs_rm args = true ->
  target ∈ find_roots args -> is_broad_target target = true ->
  exists a, analyze_segment seg = Some a /\ level a = Dangerous.
Proof.
  intros E Hd Ht Hb. unfold analyze_segment, analyze_find_mutation.
  rewrite E, bool_decide_eq_false_2, bool_decide_eq_true_2 by done.
  assert (Hm : existsb (fun a => bool_decide (a = $"-delete")) args || execs_rm args = true).
  { apply orb_true_iff. destruct Hd as [Hd|Hd]; [left|by right]. apply existsb_spec. exists $"-delete". by rewrite bool_decide_eq_true. }
  rewrite Hm. cbn [negb]. rewrite (proj2 (existsb_spec is_broad_target _)) by eauto. eauto.
Qed.

(** The first segment with a verdict decides. *)
Lemma first_verdict_decides segs before seg after a :
  segs = before ++ seg :: after -> analyze_segment seg = Some a -> level a = Dangerous ->
  (forall s b, s ∈ before -> analyze_segment s = Some b -> level b = Dangerous) ->
  exists b, first_some analyze_segment segs = Some b /\ level b = Dangerous.
Proof.
  intros -> Ha Hl Hb. induction before as [|s before IH]; cbn; [rewrite Ha; eauto|].
  destruct (analyze_segment s) as [b|] eqn:E; [exists b; split; [done|]; eapply Hb; [by left|done]|].
  apply IH. intros s' b Hs. apply Hb. by right.
Qed.

(** ** Safe commands *)

(** No segment starts with [word]. *)
Definition no_primary (word command : str) : Prop :=
  forall seg, seg ∈ split_command_segments command -> head (primary_tokens (shell_words seg)) <> Some word.

Lemma contains_char_false c s : contains_char c s = false <-> c ∉ s.
Proof.
  unfold contains_char. rewrite existsb_false. split.
  - intros Hs Hin. specialize (Hs c Hin). by rewrite N.eqb_refl in Hs.
  - intros Hs x Hx. apply N.eqb_neq. by intros ->.
Qed.

Lemma first_verdict_none command :
  analyze_destructive_patterns command = None ->
  no_primary $"eval" command /\ pipes_remote_content_to_shell command = false /\
  forall seg, seg ∈ split_command_segments command -> analyze_segment seg = None.
Proof.
  unfold analyze_destructive_patterns, primary_shell_command_is, no_primary. destruct (existsb _ _) eqn:Ee; [done|].
  destruct (pipes_remote_content_to_shell command); [done|]. rewrite first_some_None. intros Hs. split_and!; [|done|done].
  rewrite existsb_false in Ee. intros seg Hseg. specialize (Ee seg Hseg). by apply bool_decide_eq_false in Ee.
Qed.

Lemma analyze_segment_None seg :
  analyze_segment seg = None ->
  (forall args, primary_tokens (shell_words seg) = $"rm" :: args -> ~ deletes_broadly args) /\
  (forall args, primary_tokens (shell_words seg) = $"find" :: args -> ($"-delete" ∉ args) /\ execs_rm args = false).
Proof.
  intros Hn. split; intros args E.
  - intros Hd. destruct (analyze_segment_rm seg args E Hd) as (a & Ha & _). congruence.
  - unfold analyze_segment, analyze_find_mutation in Hn. rewrite E, bool_decide_eq_false_2, bool_decide_eq_true_2 in Hn by done.
    destruct (existsb _ args || execs_rm args) eqn:Em; [by destruct (existsb is_broad_target _)|].
    apply orb_false_iff in Em as [Em ?]. split; [|done]. intros Hin. rewrite existsb_false in Em. specialize (Em _ Hin).
    by rewrite bool_decide_eq_true_2 in Em.
Qed.

Lemma analyze_unknown_level command : level (analyze_unknown command) = RequiresApproval \/ level (analyze_unknown command) = Dangerous.
Proof.
  unfold analyze_unknown. repeat (destruct (bool_decide _ && _) || destruct (bool_decide _) || destruct (str_contains _ _)); cbn; auto.
Qed.

(** ** The read-only classifier *)

(** A command the classifier lets through: without shell syntax, either a
    read-only invocation or a shell wrapper around one. *)
Definition clean (command : str) : Prop := trim command <> [] /\ has_shell_syntax (trim command) = false.

(** A version or help query of the program itself, or a command of the table
    without the flags that let it run another program or never end. *)
Inductive readonly_invocation : list str -> Prop :=
| readonly_nestlone command arg :
    command ∈ [$"nestlone"; $"codew"] -> arg ∈ [$"--version"; $"-V"; $"-v"; $"--help"; $"-h"] ->
    readonly_invocation [command; arg]
| readonly_prefix tokens :
    classify_command tokens ∈ PARALLEL_READONLY_PREFIXES ->
    has_exec_capable_readonly_flag (classify_command tokens) tokens = false ->
    (classify_command tokens = $"tail" -> follows tokens = false) ->
    readonly_invocation tokens.

Inductive readonly : str -> Prop :=
| readonly_direct command t ts :
    clean command -> primary_tokens (shell_words (trim command)) = t :: ts ->
    (forall shell flag inner, t :: ts = [shell; flag; inner] -> shell ∈ [$"bash"; $"sh"; $"zsh"] -> flag ∉ [$"-c"; $"-lc"]) ->
    readonly_invocation (t :: ts) -> readonly command
| readonly_wrapped command shell flag inner :
    clean command -> primary_tokens (shell_words (trim command)) = [shell; flag; inner] ->
    shell ∈ [$"bash"; $"sh"; $"zsh"] -> flag ∈ [$"-c"; $"-lc"] -> readonly inner -> readonly command.

Lemma wrapper_Some tokens inner :
  readonly_shell_wrapper_inner_command tokens = Some inner <->
  exists shell flag, tokens = [shell; flag; inner] /\ shell ∈ [$"bash"; $"sh"; $"zsh"] /\ flag ∈ [$"-c"; $"-lc"].
Proof.
  unfold readonly_shell_wrapper_inner_command. destruct tokens as [|a [|b [|c [|d tokens]]]]; try (split; [done|naive_solver]).
  destruct (bool_decide _ && _) eqn:E.
  - apply andb_prop in E as [E1%bool_decide_eq_true E2%bool_decide_eq_true]. naive_solver.
  - split; [done|]. intros (? & ? & [= -> -> ->] & H1 & H2). by rewrite !bool_decide_eq_true_2 in E by done.
Qed.

Lemma wrapper_None tokens :
  readonly_shell_wrapper_inner_command tokens = None <->
  forall shell flag inner, tokens = [shell; flag; inner] -> shell ∈ [$"bash"; $"sh"; $"zsh"] -> flag ∉ [$"-c"; $"-lc"].
Proof.
  destruct (readonly_shell_wrapper_inner_command tokens) as [inner|] eqn:E; split; [done| | |done].
  - apply wrapper_Some in E as (shell & flag & -> & H1 & H2). intros Hn. by destruct (Hn shell flag inner eq_refl H1).
  - intros _ shell flag inner -> H1 H2. assert (Hs : readonly_shell_wrapper_inner_command [shell; flag; inner] = Some inner).
    { apply wrapper_Some. eauto. }
    congruence.
Qed.

Lemma nestlone_spec tokens :
  is_nestlone_readonly_invocation tokens = true <->
  exists command arg, tokens = [command; arg] /\ command ∈ [$"nestlone"; $"codew"] /\
    arg ∈ [$"--version"; $"-V"; $"-v"; $"--help"; $"-h"].
Proof.
  unfold is_nestlone_readonly_invocation. destruct tokens as [|command args]; [split; [done|naive_solver]|].
  rewrite andb_true_iff, !bool_decide_eq_true. split.
  - intros [H1 H2]. exists command. rewrite !elem_of_cons, elem_of_nil in H2. naive_solver set_solver.
  - intros (c & arg & [= -> ->] & H1 & H2). split; [done|]. exact (list_elem_of_fmap_2 (fun a => [a]) _ _ H2).
Qed.

Lemma readonly_tokens_spec tokens : readonly_tokens tokens = true <-> readonly_invocation tokens.
Proof.
  unfold readonly_tokens. destruct (is_nestlone_readonly_invocation tokens) eqn:En.
  { split; [|done]. intros _. apply nestlone_spec in En as (c & arg & -> & H1 & H2). by constructor. }
  destruct (has_exec_capable_readonly_flag _ _) eqn:Ef.
  { split; [done|]. inversion 1; subst; [|congruence]. assert (Hn : is_nestlone_readonly_invocation [command; arg] = true).
    { apply nestlone_spec. eauto. }
    congruence. }
  case_bool_decide as Ht; cbn [andb]; [destruct (follows tokens) eqn:Efo|].
  1: { split; [done|]. inversion 1 as [command arg H1 H2|? ? ? Hf]; subst; [|specialize (Hf Ht); congruence]. assert (Hn : is_nestlone_readonly_invocation [command; arg] = true).
    { apply nestlone_spec. eauto. }
    congruence. }
  all: rewrite bool_decide_eq_true; split; [intros Hp; by constructor|].
  all: inversion 1; subst; [|done]; assert (Hn : is_nestlone_readonly_invocation [command; arg] = true) by (apply nestlone_spec; eauto); congruence.
Qed.

Lemma parallel_readonly_sound fuel command : parallel_readonly fuel command = Some true -> readonly command.
Proof.
  revert command. induction fuel as [|fuel IH]; intros command; cbn [parallel_readonly]; [done|].
  destruct (str_is_empty (trim command)) eqn:Ee; [done|]. destruct (has_shell_syntax (trim command)) eqn:Es; [done|].
  assert (Hc : clean command) by (split; [by destruct (trim command)|done]).
  destruct (primary_tokens (shell_words (trim command))) as [|t ts] eqn:Et; [done|].
  destruct (readonly_shell_wrapper_inner_command (t :: ts)) as [inner|] eqn:Ew.
  - intros H'%IH. apply wrapper_Some in Ew as (shell & flag & E & H1 & H2). rewrite E in Et. by eapply readonly_wrapped.
  - intros [= H'%readonly_tokens_spec]. eapply readonly_direct; [done..| |done]. by apply wrapper_None.
Qed.

Lemma parallel_readonly_complete fuel command :
  readonly command -> is_Some (parallel_readonly fuel command) -> parallel_readonly fuel command = Some true.
Proof.
  intros Hr. revert fuel. induction Hr as [command t ts [Hne Hs] Et Ew Ht|command shell flag inner [Hne Hs] Et H1 H2 Hr IH];
    intros [|fuel]; cbn [parallel_readonly]; try (by intros []); rewrite Hs, Et.
  - assert (Ee : str_is_empty (trim command) = false) by (by destruct (trim command)). rewrite Ee.
    apply wrapper_None in Ew as ->. by apply readonly_tokens_spec in Ht as ->.
  - assert (Ee : str_is_empty (trim command) = false) by (by destruct (trim command)). rewrite Ee.
    rewrite (proj2 (wrapper_Some [shell; flag; inner] inner)) by eauto. apply IH.
Qed.

(** [shlex::split] only removes characters: the words and a space between each
    two are no longer than the text. *)
Definition words_fit (ws : list str) (s : str) : Prop :=
  (sum_list (length <$> ws) + (length ws - 1) <= length s)%nat.

Lemma trim_start_by_length p s : (length (trim_start_by p s) <= length s)%nat.
Proof. induction s as [|c s IH]; cbn; [done|]. destruct (p c); cbn; lia. Qed.

Lemma trim_matches_length p s : (length (trim_matches p s) <= length s)%nat.
Proof.
  unfold trim_matches. rewrite length_rev. etrans; [apply trim_start_by_length|]. rewrite length_rev. apply trim_start_by_length.
Qed.

Lemma trim_length s : (length (trim s) <= length s)%nat.
Proof. exact (trim_matches_length is_whitespace s). Qed.
Lemma split_by_length p s :
  (sum_list (length <$> split_by p s) + length (split_by p s) = S (length s))%nat.
Proof.
  induction s as [|c s IH]; [done|]. cbn [split_by]. destruct (p c); [cbn in *; lia|].
  destruct (split_by p s) as [|w ws]; cbn in *; lia.
Qed.

Lemma split_by_pieces p s : (1 <= length (split_by p s))%nat.
Proof. destruct s as [|c s]; cbn; [done|]. destruct (p c); cbn; [lia|]. destruct (split_by p s); cbn; lia. Qed.

Lemma retain_fit (ws : list str) :
  sum_list (length <$> retain (fun w => negb (str_is_empty w)) ws) = sum_list (length <$> ws) /\
  (length (retain (fun w => negb (str_is_empty w)) ws) <= length ws)%nat.
Proof.
  induction ws as [|w ws [IH1 IH2]]; [done|]. unfold retain in *. rewrite filter_cons.
  destruct w; [rewrite decide_False by done|rewrite decide_True by done]; cbn; rewrite IH1; split; lia.
Qed.

Lemma split_whitespace_fit s : words_fit (split_whitespace s) s.
Proof.
  unfold words_fit, split_whitespace. destruct (retain_fit (split_by is_whitespace s)) as [-> Hl].
  pose proof (split_by_length is_whitespace s). pose proof (split_by_pieces is_whitespace s). lia.
Qed.

Lemma map_shrinks (f : str -> str) (ws : list str) :
  (forall w, (length (f w) <= length w)%nat) -> (sum_list (length <$> (f <$> ws)) <= sum_list (length <$> ws))%nat.
Proof. intros Hf. induction ws as [|w ws IH]; [done|]. cbn. specialize (Hf w). cbn in IH. lia. Qed.

Lemma words_fit_app pre ws s : words_fit (pre ++ ws) s -> words_fit ws s.
Proof.
  unfold words_fit. rewrite fmap_app, sum_list_with_app, length_app.
  lia.
Qed.

Lemma primary_tokens_suffix tokens : exists pre, tokens = pre ++ primary_tokens tokens.
Proof.
  unfold primary_tokens. generalize false. induction tokens as [|t tokens IH]; intros b; [by exists []|]. cbn [primary_tokens_from].
  destruct (b && _); [|case_bool_decide; [|destruct (is_env_assignment t); [|by exists []]]].
  all: edestruct IH as [pre E]; exists (t :: pre); cbn; by f_equal.
Qed.

(** What the classifier relies on: [shlex::split] yields words that fit. *)
Class ShlexFits : Prop := shlex_fits : forall s ws, shlex_split s = Some ws -> words_fit ws s.

Lemma shell_words_fit `{!ShlexFits} s : words_fit (shell_words s) s.
Proof.
  unfold shell_words. destruct (shlex_split s) as [ws|] eqn:E; [by apply shlex_fits|].
  pose proof (split_whitespace_fit s) as Hs. unfold words_fit in *. rewrite length_fmap.
  pose proof (map_shrinks (trim_matches is_quote) (split_whitespace s) (trim_matches_length is_quote)). lia.
Qed.

(** The command inside a shell wrapper is shorter than the wrapper. *)
Lemma inner_shorter `{!ShlexFits} command inner :
  readonly_shell_wrapper_inner_command (primary_tokens (shell_words (trim command))) = Some inner ->
  (length inner < length command)%nat.
Proof.
  intros (shell & flag & E & _ & _)%wrapper_Some. destruct (primary_tokens_suffix (shell_words (trim command))) as [pre Ep].
  pose proof (shell_words_fit (trim command)) as Hf. rewrite Ep in Hf. apply words_fit_app in Hf. rewrite E in Hf.
  pose proof (trim_length command). unfold words_fit in Hf. cbn in Hf. lia.
Qed.

Lemma parallel_readonly_total `{!ShlexFits} fuel command :
  (length command < fuel)%nat -> is_Some (parallel_readonly fuel command).
Proof.
  revert command. induction fuel as [|fuel IH]; intros command Hl; [lia|]. cbn [parallel_readonly].
  destruct (str_is_empty _); [done|]. destruct (has_shell_syntax _); [done|].
  destruct (primary_tokens (shell_words (trim command))) as [|t ts] eqn:Et; [done|].
  destruct (readonly_shell_wrapper_inner_command (t :: ts)) as [inner|] eqn:Ew; [|done].
  rewrite <-Et in Ew. apply inner_shorter in Ew. apply IH. lia.
Qed.

(** ** Segments without a verdict *)

(** The segment deletes a broad target through [rm] or [find]. *)
Inductive deletes : str -> Prop :=
| deletes_rm seg args : primary_tokens (shell_words seg) = $"rm" :: args -> deletes_broadly args -> deletes seg
| deletes_find seg args target :
    primary_tokens (shell_words seg) = $"find" :: args -> $"-delete" ∈ args \/ execs_rm args = true ->
    target ∈ find_roots args -> is_broad_target target = true -> deletes seg.

Lemma deletes_verdict seg : deletes seg -> exists a, analyze_segment seg = Some a /\ level a = Dangerous.
Proof.
  intros [seg' args E Hd|seg' args target E Hd Ht Hb]; [by eapply analyze_segment_rm|by eapply analyze_segment_find].
Qed.

(** The segment is a [find] that deletes. *)
Definition mutating_find (seg : str) : Prop :=
  exists args, primary_tokens (shell_words seg) = $"find" :: args /\ ($"-delete" ∈ args \/ execs_rm args = true).

Lemma analyze_segment_dangerous seg a : ~ mutating_find seg -> analyze_segment seg = Some a -> level a = Dangerous.
Proof.
  intros Hn. unfold analyze_segment. destruct (primary_tokens (shell_words seg)) as [|t args] eqn:E; [done|].
  case_bool_decide; [by intros (reason & _ & ->)%fmap_Some|]. case_bool_decide as Hf; [subst t|done].
  unfold analyze_find_mutation. destruct (_ || _) eqn:Em; [|done]. destruct Hn. exists args. split; [done|].
  apply orb_true_iff in Em as [(x & Hx & ->%bool_decide_eq_true)%existsb_spec|]; auto.
Qed.

Lemma analyze_segment_None_iff seg :
  analyze_segment seg = None <->
  (forall args, primary_tokens (shell_words seg) = $"rm" :: args -> ~ deletes_broadly args) /\ ~ mutating_find seg.
Proof.
  split.
  - intros [Hr Hf]%analyze_segment_None. split; [done|]. intros (args & E & Hd). destruct (Hf args E) as [? ?]. destruct Hd; congruence.
  - intros [Hr Hf]. unfold analyze_segment. destruct (primary_tokens (shell_words seg)) as [|t args] eqn:E; [done|].
    case_bool_decide as Ht; [subst t|].
    { destruct (dangerous_rm_reason args) as [r|] eqn:Er; [|done]. destruct (Hr args eq_refl).
      apply dangerous_rm_spec. rewrite Er. done. }
    case_bool_decide as Ht'; [subst t|done]. unfold analyze_find_mutation. destruct (_ || _) eqn:Em; [|done].
    destruct Hf. exists args. split; [done|].
    apply orb_true_iff in Em as [(x & Hx & ->%bool_decide_eq_true)%existsb_spec|]; auto.
Qed.
End with_shell.
