(* ===== verification/CommandVerdicts.v ===== *)
(** * The verdicts on shell commands

    A broad deletion is blocked, the safe levels are given exactly to the plain
    commands of the tables, the read-only classifier decides [readonly], and the
    two prefix dictionaries give the same prefix wherever both know the family
    of the command. *)

From S2P Require Import Text BashArity CommandSafety CommandSafetySpec.

Section verdicts.
Context `{Shell}.

(** ** Levels *)

(** What the analysis requires of every command it rates safe. *)
Record plain (command : str) : Prop := {
  plain_lines : (10%N ∉ command) /\ (13%N ∉ command) /\ (0%N ∉ command);
  plain_eval : no_primary $"eval" command;
  plain_pipe : pipes_remote_content_to_shell command = false;
  plain_rm : forall seg args, seg ∈ split_command_segments command ->
    primary_tokens (shell_words seg) = $"rm" :: args -> ~ deletes_broadly args;
  plain_find : forall seg, seg ∈ split_command_segments command -> ~ mutating_find seg;
  plain_chain : is_chain command = false;
  plain_substitution : is_substitution command = false;
  plain_patterns : forall p, p ∈ DANGEROUS_PATTERNS -> str_contains (to_lowercase p.1) (to_lowercase command) = false;
  plain_privileges : privileged_pattern command = None;
  plain_download : remote_pipe_text (to_lowercase command) = false }.

Definition safe_prefix (command : str) : Prop :=
  (exists program arg, primary_tokens (shell_words command) = [program; arg] /\ program ∈ [$"nestlone"; $"codew"] /\
    arg ∈ [$"--version"; $"-V"; $"-v"; $"--help"; $"-h"]) \/
  exists p, p ∈ SAFE_COMMANDS /\ starts_with p (to_lowercase command) = true.

Definition workspace_prefix (command : str) : Prop :=
  exists p, p ∈ WORKSPACE_SAFE_COMMANDS /\ starts_with p (to_lowercase command) = true.

Lemma is_safe_command_spec command : is_safe_command command = true <-> safe_prefix command.
Proof.
  unfold is_safe_command, safe_prefix. rewrite orb_true_iff, existsb_spec, <-nestlone_spec.
  by destruct (primary_tokens (shell_words command)).
Qed.

Lemma is_workspace_safe_command_spec command : is_workspace_safe_command command = true <-> workspace_prefix command.
Proof. apply existsb_spec. Qed.

Lemma primary_shell_command_is_spec command word :
  primary_shell_command_is command word = false <-> no_primary word command.
Proof. unfold primary_shell_command_is, no_primary. rewrite existsb_false. by setoid_rewrite bool_decide_eq_false. Qed.

Lemma patterns_None command :
  analyze_destructive_patterns command = None <->
  no_primary $"eval" command /\ pipes_remote_content_to_shell command = false /\
  (forall seg args, seg ∈ split_command_segments command ->
    primary_tokens (shell_words seg) = $"rm" :: args -> ~ deletes_broadly args) /\
  (forall seg, seg ∈ split_command_segments command -> ~ mutating_find seg).
Proof.
  unfold analyze_destructive_patterns. rewrite <-primary_shell_command_is_spec.
  destruct (primary_shell_command_is command $"eval"); [by split; [|intros []]|].
  destruct (pipes_remote_content_to_shell command); [by split; [|intros (_ & ? & _)]|]. rewrite first_some_None.
  setoid_rewrite analyze_segment_None_iff. split.
  - intros Hs. split_and!; [done..|intros seg args Hseg; apply (Hs seg Hseg)|intros seg Hseg; apply (Hs seg Hseg)].
  - intros (_ & _ & Hr & Hf) seg Hseg. split; [intros args; by apply Hr|by apply Hf].
Qed.

(** The order of the checks, with the verdict of each. *)
Lemma analyze_command_plain command :
  plain command ->
  analyze_command command =
    if is_safe_command (trim command) then safe
    else if is_workspace_safe_command (trim command) then workspace_safe $"Command modifies files within workspace"
    else analyze_unknown command.
Proof.
  intros [(Hn & Hr & H0) He Hp Hrm Hf Hc Hs Hd Hpr Hw]. unfold analyze_command. apply contains_char_false in Hn as ->, Hr as ->, H0 as ->.
  cbn [orb]. rewrite (proj2 (patterns_None command)) by done. rewrite Hc, Hs, Hpr, Hw.
  destruct (find _ DANGEROUS_PATTERNS) as [[p r]|] eqn:E; [|done].
  apply find_Some in E as [Hin Hx]. specialize (Hd _ Hin). cbn in Hd, Hx. congruence.
Qed.

Lemma analyze_command_level command :
  level (analyze_command command) = Safe \/ level (analyze_command command) = WorkspaceSafe -> plain command.
Proof.
  intros Hl. unfold analyze_command in Hl.
  destruct (contains_char 10%N command) eqn:Hn, (contains_char 13%N command) eqn:Hr; try (by destruct Hl).
  destruct (contains_char 0%N command) eqn:H0; [by destruct Hl|]. apply contains_char_false in Hn, Hr, H0.
  destruct (analyze_destructive_patterns command) as [a|] eqn:Ep.
  { exfalso. clear -Hl Ep. unfold analyze_destructive_patterns in Ep.
    repeat (destruct (primary_shell_command_is _ _) || destruct (pipes_remote_content_to_shell _)); try (simplify_eq; by destruct Hl).
    apply first_some_Some in Ep as (? & seg & ? & _ & Ep & _). unfold analyze_segment, analyze_find_mutation in Ep.
    destruct (primary_tokens _); [done|]. repeat case_bool_decide; try done; [by apply fmap_Some in Ep as (? & _ & ->); destruct Hl|].
    destruct (negb _); [done|]. destruct (existsb is_broad_target _); simplify_eq; by destruct Hl. }
  apply patterns_None in Ep as (He & Hp & Hrm & Hf).
  destruct (is_chain command) eqn:Hc; [by destruct (all_segments_known_safe command), Hl|].
  destruct (is_substitution command) eqn:Hs; [by destruct Hl|].
  destruct (find _ DANGEROUS_PATTERNS) as [[p r]|] eqn:Hd; [by destruct Hl|].
  destruct (privileged_pattern command) eqn:Hpr; [by destruct Hl|].
  destruct (remote_pipe_text (to_lowercase command)) eqn:Hw; [by destruct Hl|].
  constructor; try done. exact (proj1 (find_None _ _) Hd).
Qed.



End verdicts.

(** ** At concrete commands *)

(** A shell whose words are those between whitespace, and the lowercase of
    ASCII text: what [shlex] and [str::to_lowercase] do on the commands below. *)
Definition plain_shell : Shell := {| shlex_split s := Some (split_whitespace s); to_lowercase := to_ascii_lowercase |}.

Lemma plain_shell_fits : @ShlexFits plain_shell.
Proof. intros s ws [= <-]. apply split_whitespace_fit. Qed.



Section examples.
#[local] Existing Instance plain_shell.

Example levels :
  level (analyze_command $"git status") = Safe /\ level (analyze_command $"mkdir out") = WorkspaceSafe /\
  level (analyze_command $"curl example.com") = RequiresApproval /\ level (analyze_command $"eval x") = Dangerous.
Proof. by vm_compute. Qed.

(** A deleting [find] returns before the segments after it are looked at. *)
Example find_hides_deletion :
  level (analyze_command $"find . -delete; rm -rf /") = RequiresApproval /\
  level (analyze_command $"rm -rf /; find . -delete") = Dangerous.
Proof. by vm_compute. Qed.

(** The pattern of the fork bomb holds a [;], so the chain check returns before
    the table of patterns is looked at. *)
Example fork_bomb :
  ($":(){ :|:& };:" ∈ DANGEROUS_PATTERNS.*1) /\ level (analyze_command $":(){ :|:& };:") = RequiresApproval.
Proof. split; [by apply (bool_decide_eq_true_1 _); vm_compute|by vm_compute]. Qed.

(** The safe table is matched by text, not by word, and redirections are not
    looked at. *)
Example safe_by_text :
  level (analyze_command $"truncate -s 0 notes") = Safe /\ level (analyze_command $"echo x > notes") = Safe /\
  level (analyze_command $"env rm -rf build") = Safe.
Proof. by vm_compute. Qed.

(** Assignments in front of a read-only command, and flags that write a file or
    run a program, pass the classifier. *)
Example readonly_with_effects :
  is_parallel_readonly_command $"GIT_EXTERNAL_DIFF=./x git diff" = true /\
  is_parallel_readonly_command $"git diff --output=notes" = true /\
  is_parallel_readonly_command $"rg --hostname-bin=./x foo" = true /\
  is_parallel_readonly_command $"rg --pre=./x foo" = false.
Proof. by vm_compute. Qed.
End examples.

(** * The two prefix dictionaries

    [crates/execpolicy/src/bash_arity.rs] and
    [crates/tui/src/command_safety.rs] each hold a table of command prefixes and
    an allow-rule matcher. They agree on every command whose family both tables
    know alike; the families they differ on are listed. *)

(** The family of a key or of a command: its text up to the first space. *)
Definition family (s : str) : str := default [] (head (split_char 32 s)).

(** The families one of the tables has an entry for that the other has not. *)
Definition unshared_families : list str :=
  [$"python"; $"python3"; $"cmake"; $"aws"; $"terraform"; $"helm"].

Definition shared (key : str) : bool := bool_decide (family key ∉ unshared_families).

Definition lookup_key (table : list (str * Z)) (key : str) : option (str * Z) :=
  find (fun e => bool_decide (e.1 = key)) table.

(** Every shared entry of the first table is what the second finds. *)
Definition covered (t u : list (str * Z)) : bool :=
  forallb (fun e => negb (shared e.1) || bool_decide (lookup_key u e.1 = Some e)) t.

Lemma covered_lookup t u key e :
  covered t u = true -> shared key = true -> lookup_key t key = Some e -> lookup_key u key = Some e.
Proof.
  intros Hc Hs [Hin He%bool_decide_eq_true]%find_Some. unfold covered in Hc. rewrite forallb_forall in Hc.
  specialize (Hc e (proj1 (list_elem_of_In _ _) Hin)). rewrite He, Hs in Hc. cbn in Hc. by apply bool_decide_eq_true in Hc.
Qed.

Lemma tables_cover : covered (entries new) COMMAND_ARITY && covered COMMAND_ARITY (entries new) = true.
Proof. by vm_compute. Qed.

Lemma tables_agree key : shared key = true -> lookup_key COMMAND_ARITY key = lookup_key (entries new) key.
Proof.
  intros Hs. pose proof tables_cover as [H1 H2]%andb_prop.
  destruct (lookup_key COMMAND_ARITY key) as [e|] eqn:E; [symmetry; by eapply covered_lookup|].
  destruct (lookup_key (entries new) key) as [e|] eqn:E'; [|done].
  rewrite (covered_lookup _ _ _ _ H1 Hs E') in E. done.
Qed.

Lemma family_app w k : family (w ++ 32%N :: k) = family w.
Proof.
  unfold family, split_char. rewrite split_by_app by done. pose proof (split_by_not_nil (N.eqb 32) w).
  by destruct (split_by (N.eqb 32) w).
Qed.

Lemma family_join w ws : family (join $" " (w :: ws)) = family w.
Proof. destruct ws as [|v ws]; [done|]. apply family_app. Qed.

Lemma family_take depth positional :
  family (join $" " (take (S depth) positional)) = family (default [] (head positional)).
Proof. destruct positional as [|p ps]; [done|]. apply family_join. Qed.

Lemma classify_depth_agree positional depth :
  shared (default [] (head positional)) = true ->
  classify_depth command_dict positional depth = classify_depth new positional depth.
Proof.
  intros Hs. induction depth as [|depth IH]; [done|]. cbn [classify_depth]. rewrite IH.
  set (key := join _ _). fold (lookup_key (entries command_dict) key) (lookup_key (entries new) key).
  change (entries command_dict) with COMMAND_ARITY. rewrite tables_agree; [done|].
  unfold shared, key. by rewrite family_take.
Qed.

(** The family of a command: that of its first word that is no flag. *)
Definition command_family (tokens : list str) : str := family (default [] (head (positional_tokens tokens))).

(** [prefix_allow_matches] on the words of a rule. *)
Lemma prefix_allow_matches_words pattern command :
  split_whitespace pattern <> [] ->
  prefix_allow_matches pattern command = true <->
  classify_command (split_whitespace command) = join $" " (lower_tokens_of pattern) \/
  lower_tokens_of pattern `prefix_of` lower_tokens_of command.
Proof.
  intros Hne. assert (Hp : lower_tokens_of pattern <> []) by (unfold lower_tokens_of; by destruct (split_whitespace pattern)).
  unfold prefix_allow_matches, normalize_words. rewrite !lower_trim. fold (lower_tokens_of pattern) (lower_tokens_of command).
  destruct (split_whitespace command) as [|w ws] eqn:E.
  - assert (Hc : lower_tokens_of command = []) by (unfold lower_tokens_of; by rewrite E). rewrite Hc.
    pose proof (lower_tokens_of_token pattern) as Ht. destruct (lower_tokens_of pattern) as [|v vs]; [done|].
    apply Forall_cons in Ht as [[Hv _] _]. split.
    + destruct vs; destruct v; done.
    + intros [Hj|Hj%prefix_nil_inv]; [|done]. destruct vs; destruct v; done.
  - rewrite <-join_prefix by (done || apply lower_tokens_of_token).
    case_bool_decide as Hc; [split; auto|]. rewrite orb_true_iff, bool_decide_eq_true, starts_with_spec.
    setoid_rewrite <-app_assoc. cbn. tauto.
Qed.

(** on a command whose family is none of the six families only one of the
    tables has, the classifier of the safety module and the execution policy's
    give the same canonical prefix, and an allow rule written in lower case with
    single spaces matches the same commands in both. *)
Theorem prefix_dictionaries_agree tokens pattern command :
  command_family tokens ∉ unshared_families ->
  command_family (split_whitespace command) ∉ unshared_families ->
  split_whitespace pattern <> [] -> to_ascii_lowercase (trim pattern) = normalize_words pattern ->
  classify_command tokens = classify new tokens /\
  prefix_allow_matches pattern command = allow_rule_matches new pattern command.
Proof.
  assert (Ha : forall ts, command_family ts ∉ unshared_families -> classify_command ts = classify new ts).
  { intros ts Hs. unfold classify_command. rewrite !classify_positional. unfold command_family in Hs.
    destruct (positional_tokens ts) as [|p ps]; [done|]. apply classify_depth_agree. by apply bool_decide_eq_true. }
  intros Ht Hc Hne Hn. split; [by apply Ha|]. apply eq_true_iff_eq.
  rewrite prefix_allow_matches_words, allow_rule_matches_words, Ha by done.
  rewrite Hn. unfold normalize_words. by rewrite lower_trim.
Qed.

Lemma prefix_dictionaries_agree_witness :
  classify_command [$"git"; $"-C"; $"push"] = classify new [$"git"; $"-C"; $"push"] /\
  prefix_allow_matches $"git status" $"git  status -s" = allow_rule_matches new $"git status" $"git  status -s".
Proof.
  apply (prefix_dictionaries_agree [$"git"; $"-C"; $"push"] $"git status" $"git  status -s");
    [by apply (bool_decide_eq_true_1 _); vm_compute..|by vm_compute|by vm_compute].
Defined.

(** The tables differ: a rule for the classified prefix of [terraform plan]
    covers [terraform destroy] under the table of the safety module only. *)
Example terraform_differs :
  classify_command [$"terraform"; $"destroy"] = $"terraform" /\
  classify new [$"terraform"; $"destroy"] = $"terraform destroy".
Proof. by vm_compute. Qed.

Example terraform_rule_differs :
  prefix_allow_matches $"terraform" $"terraform destroy" = true /\
  classify_command [$"terraform"; $"plan"] = classify_command [$"terraform"; $"destroy"].
Proof. by vm_compute. Qed.
