(* ===== verification/WorkImport.v ===== *)
(** * The work graph: import of legacy sessions

    [crates/tui/src/work_graph/migration.rs]: sessions saved before the graph
    existed hold a plan and a To-do list.  The import builds a graph from them
    through the reducer, one change at a time. *)

From S2P Require Import Text WorkModel WorkValidate WorkReducer PlanTodo.

(** [serde_json::to_vec] of the two snapshots. *)
Class LegacyJson := { canonical_json : PlanSnapshot -> TodoListSnapshot -> result str (list N) }.

Definition PLAN_PROVENANCE_SUFFIX : str := [0x2063%N].
Definition PLAN_PROVENANCE_PREFIX : str := PLAN_PROVENANCE_SUFFIX ++ $"cw-plan-step:".

(** [str::parse::<u32>]: decimal digits after an optional plus sign. *)
Definition parse_u32 (s : str) : option Z :=
  let digits := match strip_prefix $"+" s with Some r => r | None => s end in
  if str_is_empty digits || negb (forallb is_ascii_digit digits) then None
  else
    let n := fold_left (fun n c => 10 * n + (Z.of_N c - 48)) digits 0 in
    if n <=? u32_max then Some n else None.

Definition strip_plan_provenance (content : str) : str * option Z :=
  match split_once PLAN_PROVENANCE_PREFIX content with
  | None => (trim (replace PLAN_PROVENANCE_SUFFIX [] content), None)
  | Some (before, rest) =>
      let '(after, index) :=
        match split_once PLAN_PROVENANCE_SUFFIX rest with
        | Some (value, after) => (after, parse_u32 value)
        | None => ([], None)
        end in
      (trim (replace PLAN_PROVENANCE_SUFFIX [] (before ++ after)), index)
  end.

Definition node_state_from_plan (s : StepStatus) : NodeState :=
  match s with
  | StepStatus.Pending => NodeState.Ready
  | StepStatus.InProgress => NodeState.Active
  | StepStatus.Completed => NodeState.Completed
  end.

Definition node_state_from_todo (s : TodoStatus) : NodeState :=
  match s with
  | TodoStatus.Pending => NodeState.Ready
  | TodoStatus.InProgress => NodeState.Active
  | TodoStatus.Completed => NodeState.Completed
  | TodoStatus.Cancelled => NodeState.Cancelled
  end.

Definition advance_rank (s : NodeState) : Z :=
  match s with
  | NodeState.Completed | NodeState.Verified => 2
  | NodeState.Initializing | NodeState.Active => 1
  | _ => 0
  end.

Definition more_advanced_state (left right : NodeState) : NodeState :=
  if advance_rank left <? advance_rank right then right else left.

(** A patch of the state alone. *)
Definition state_patch (s : NodeState) : WorkNodePatch :=
  {| patch_title := None; patch_state := Some s; patch_acceptance := None; patch_provenance := None |}.

Section import.
Context `{Externs, LegacyJson} (session : str).

Definition import_ctx : ChangeCtx := {| session_id := session; now := 0; idempotency_key := None |}.

(** [apply] of [migration.rs]. *)
Definition import_apply (g : WorkGraphSnapshot) (change : WorkGraphChange) : result str WorkGraphSnapshot :=
  map_err report_display (fst <$> apply g change import_ctx).

Definition contains_edge (parent child : WorkNodeId) : WorkEdge :=
  {| edge_id := WorkEdgeId_derive session ($"contains:" ++ parent ++ $":" ++ child);
     edge_kind := EdgeKind.Contains; edge_from := parent; edge_to := child |}.

Definition add_contains_edge (g : WorkGraphSnapshot) (objective child : WorkNodeId) : result str WorkGraphSnapshot :=
  import_apply g (AddEdge (contains_edge objective child)).

Definition import_node (digest : str) (id : WorkNodeId) (kind : NodeKind) (title : str) (state : NodeState)
  (ordinal : option Z) : WorkNode :=
  {| node_id := id; node_kind := kind; node_title := title; node_state := state; node_acceptance := [];
     node_binding := None; node_evidence := None; node_provenance := Import_ digest ordinal;
     node_created_at := 0; node_updated_at := 0 |}.

(** The loop body over the steps of the plan. *)
Definition import_step (digest : str) (objective : WorkNodeId) (st : WorkGraphSnapshot * list WorkNodeId)
  (indexed : nat * PlanItemArg) : result str (WorkGraphSnapshot * list WorkNodeId) :=
  let '(index, item) := indexed in
  reject_if (u32_max <? Z.of_nat index) $"too many legacy plan steps";;
  let id := WorkNodeId_derive session ($"plan:" ++ display_u (Z.of_nat index)) in
  g ← import_apply st.1
        (AddNode (import_node digest id NodeKind.PlanStep (trim (step item))
                    (node_state_from_plan (step_status item)) (Some (Z.of_nat index))));
  g ← add_contains_edge g objective id;
  Ok (g, st.2 ++ [id]).

(** A To-do row whose content carries the marker of a plan step. *)
Definition import_aliased (g : WorkGraphSnapshot) (item : TodoItem) (id : WorkNodeId) : result str WorkGraphSnapshot :=
  n ← ok_or (node g id) $"legacy plan alias references a missing node";
  let current := node_state n in
  let desired := more_advanced_state current (node_state_from_todo (status item)) in
  if bool_decide (desired <> current) then import_apply g (UpdateNode id (state_patch desired)) else Ok g.

(** Any other row gets a node of its own. *)
Definition import_own (digest : str) (objective : WorkNodeId) (g : WorkGraphSnapshot) (item : TodoItem)
  (clean_title : str) (id : WorkNodeId) : result str WorkGraphSnapshot :=
  g ← import_apply g
        (AddNode (import_node digest id NodeKind.PlanStep clean_title NodeState.Ready (Some (item_id item))));
  g ← add_contains_edge g objective id;
  let desired := node_state_from_todo (status item) in
  if bool_decide (desired <> NodeState.Ready) then import_apply g (UpdateNode id (state_patch desired)) else Ok g.

(** The loop body over the To-do rows. *)
Definition import_todo (digest : str) (objective : WorkNodeId) (plan_order : list WorkNodeId)
  (st : WorkGraphSnapshot * list CompatTodoBinding) (item : TodoItem)
  : result str (WorkGraphSnapshot * list CompatTodoBinding) :=
  let '(clean_title, marker_index) := strip_plan_provenance (content item) in
  match (index ← marker_index; id ← zget plan_order index; Some (index, id)) with
  | Some (index, id) =>
      g ← import_aliased st.1 item id;
      Ok (g, st.2 ++ [{| legacy_id := item_id item; todo_node := id; plan_index := Some index |}])
  | None =>
      let id := WorkNodeId_derive session ($"todo:" ++ display_u (item_id item)) in
      g ← import_own digest objective st.1 item clean_title id;
      Ok (g, st.2 ++ [{| legacy_id := item_id item; todo_node := id; plan_index := None |}])
  end.

Definition import_legacy (plan : PlanSnapshot) (todos : TodoListSnapshot) : result str WorkGraphSnapshot :=
  let plan := plan_snapshot (plan_from_snapshot plan 0) in
  todos ← todo_snapshot <$> from_snapshot todos;
  canonical ← map_err (fun err => $"could not canonicalize legacy Work state: " ++ err) (canonical_json plan todos);
  let digest := sha256_hex canonical in
  let objective := WorkNodeId_derive session $"objective" in
  let title := default $"Imported session work" (or_else (cp_objective (plan_meta plan)) (cp_title (plan_meta plan))) in
  g ← import_apply new
        (AddNode (import_node digest objective NodeKind.Objective title NodeState.Ready None));
  st ← foldM (import_step digest objective) (g, []) (imap pair (plan_items plan));
  let '(g, order) := st in
  st ← foldM (import_todo digest objective order) (g, []) (snap_items todos);
  let '(g, bindings) := st in
  g ← import_apply g
        (ReplaceCompatProjection
           {| compat_plan := from_plan_snapshot plan; plan_order := order; todos := bindings |});
  import_apply g (SetImportDigest digest).
End import.
