(* ===== verification/WorkEdits.v ===== *)
(** * The work graph: edits of the session graph

    The second half of [crates/tui/src/work_graph/runtime.rs]: the helpers that
    write a Plan or To-do update into the graph through the reducer, and the
    application of an owner's observation.  An edit threads the graph and the
    position in the readings of the clock, and fails with a message. *)

From S2P Require Import Text WorkModel WorkValidate WorkReducer PlanTodo WorkImport.

(** ** Edits *)

Definition Edit (A : Type) : Type := WorkGraphSnapshot * nat -> result str (A * (WorkGraphSnapshot * nat)).

#[export] Instance Edit_ret : MRet Edit := fun A a s => Ok (a, s).
#[export] Instance Edit_bind : MBind Edit := fun A B f m s => '(a, s) ← m s; f a s.

Declare Scope edit_scope.
Delimit Scope edit_scope with edit.

Definition get_graph : Edit WorkGraphSnapshot := fun s => Ok (s.1, s).
Definition put_graph (g : WorkGraphSnapshot) : Edit unit := fun s => Ok (tt, (g, s.2)).
Definition lift {A} (r : result str A) : Edit A := fun s => a ← r; Ok (a, s).
Definition fail {A} (e : str) : Edit A := fun s => Err e.

(** The loops of the source: an early return ends them. *)
Fixpoint for_each {A B} (step : B -> A -> Edit B) (b : B) (l : list A) : Edit B :=
  match l with
  | [] => mret b
  | a :: l => b ← step b a; for_each step b l
  end.

Definition plan_node_state : StepStatus -> NodeState := node_state_from_plan.
Definition todo_node_state : TodoStatus -> NodeState := node_state_from_todo.

(** [u64::saturating_add]. *)
Definition tool_provenance (g : WorkGraphSnapshot) (tool : str) : Provenance :=
  ToolUpdate tool (tool ++ $":" ++ display_u (u64_saturating_add (revision g) 1)).

Definition bounded_operation_title (title : str) : str :=
  let normalized := join $" " (split_whitespace title) in
  let bounded := take 180 normalized in
  if negb (is_nil (drop 180 normalized)) then bounded ++ $"..."
  else if str_is_empty bounded then $"Runtime operation"
  else bounded.

Section edits.
Context `{Externs} (clock : nat -> Ts) (session : str).

(** The next reading of the clock. *)
Definition now_ms : Edit Ts := fun s => Ok (clock s.2, (s.1, S s.2)).

Definition apply_change (tool : str) (change : WorkGraphChange) : Edit unit :=
  t ← now_ms;
  g ← get_graph;
  r ← lift (map_err (fun err => tool ++ $": " ++ report_display err)
              (apply g change {| session_id := session; now := t; idempotency_key := None |}));
  put_graph r.1.

Definition patch_existing_node (tool : str) (id : WorkNodeId) (title : str) (state : NodeState) : Edit unit :=
  g ← get_graph;
  current ← lift (ok_or (node g id) ($"node " ++ id ++ $" not found"));
  if bool_decide (node_title current = title) && bool_decide (node_state current = state) then mret tt
  else
    apply_change tool
      (UpdateNode id {| patch_title := Some title; patch_state := Some state; patch_acceptance := None;
                        patch_provenance := Some (tool_provenance g tool) |}).

Definition upsert_node (tool : str) (n : WorkNode) : Edit unit :=
  g ← get_graph;
  match node g (node_id n) with
  | Some existing =>
      if bool_decide (node_kind existing <> node_kind n) then fail ($"node " ++ node_id n ++ $" changed kind")
      else patch_existing_node tool (node_id n) (node_title n) (node_state n)
  | None => apply_change tool (AddNode n)
  end.

Definition ensure_contains (tool : str) (parent child : WorkNodeId) : Edit unit :=
  g ← get_graph;
  let e := contains_edge session parent child in
  if negb (opt_is_none (edge g (edge_id e))) then mret tt else apply_change tool (AddEdge e).

(** A node written by a tool, with both of its timestamps. *)
Definition tool_node (id : WorkNodeId) (kind : NodeKind) (title : str) (state : NodeState)
  (provenance : Provenance) : Edit WorkNode :=
  created ← now_ms;
  updated ← now_ms;
  mret {| node_id := id; node_kind := kind; node_title := title; node_state := state;
          node_acceptance := []; node_binding := None; node_evidence := None;
          node_provenance := provenance; node_created_at := created; node_updated_at := updated |}.

Definition ensure_objective (tool : str) (plan : PlanSnapshot) : Edit WorkNodeId :=
  g ← get_graph;
  let id := default (WorkNodeId_derive session $"objective")
              (node_id <$> find (fun n => bool_decide (node_kind n = NodeKind.Objective)) (nodes g)) in
  let title := default $"Session work" (or_else (cp_objective (plan_meta plan)) (cp_title (plan_meta plan))) in
  n ← tool_node id NodeKind.Objective title NodeState.Ready (tool_provenance g tool);
  upsert_node tool n;;
  mret id.

(** The Active nodes behind the To-do rows. *)
Definition active_rows (g : WorkGraphSnapshot) : list (WorkNodeId * str) :=
  omap (fun b => n ← node g (todo_node b);
                 if bool_decide (node_state n = NodeState.Active) then Some (node_id n, node_title n) else None)
    (todos (compat g)).

Definition deactivate_projected_todos (tool : str) : Edit unit :=
  g ← get_graph;
  for_each (fun (_ : unit) row => patch_existing_node tool row.1 row.2 NodeState.Ready) tt (active_rows g).

(** ** Plan updates *)

(** [desired_active_alias.is_some()]: the first step in progress whose node is
    also a To-do row. *)
Definition wants_active_alias (g : WorkGraphSnapshot) (plan : PlanSnapshot) : bool :=
  existsb (fun indexed : nat * PlanItemArg =>
             bool_decide (step_status indexed.2 = StepStatus.InProgress)
             && match plan_order (compat g) !! indexed.1 with
                | Some id => existsb (fun b => bool_decide (todo_node b = id)) (todos (compat g))
                | None => false
                end)
    (imap pair (plan_items plan)).

Definition update_step (tool : str) (objective : WorkNodeId) (order : list WorkNodeId)
  (indexed : nat * PlanItemArg) : Edit (list WorkNodeId) :=
  let '(index, item) := indexed in
  g ← get_graph;
  let id := default (WorkNodeId_derive session ($"plan:" ++ display_u (Z.of_nat index)))
              (plan_order (compat g) !! index) in
  n ← tool_node id NodeKind.PlanStep (trim (step item)) (plan_node_state (step_status item))
        (tool_provenance g tool);
  upsert_node tool n;;
  ensure_contains tool objective id;;
  mret (order ++ [id]).

(** The To-do rows that survive a plan of [len] steps, pointing into the new
    order. *)
Definition realigned (order : list WorkNodeId) (len : Z) (bs : list CompatTodoBinding) : list CompatTodoBinding :=
  (fun b => match (index ← plan_index b; zget order index) with
            | Some id => {| legacy_id := legacy_id b; todo_node := id; plan_index := plan_index b |}
            | None => b
            end)
  <$> retain (fun b => match plan_index b with Some index => index <? len | None => true end) bs.

Definition update_plan_graph (tool : str) (plan : PlanSnapshot) : Edit unit :=
  objective ← ensure_objective tool plan;
  g ← get_graph;
  (if wants_active_alias g plan then deactivate_projected_todos tool else mret tt);;
  order ← for_each (update_step tool objective) [] (imap pair (plan_items plan));
  g ← get_graph;
  apply_change tool
    (ReplaceCompatProjection
       {| compat_plan := from_plan_snapshot plan; plan_order := order;
          todos := realigned order (zlen (plan_items plan)) (todos (compat g)) |}).

(** ** To-do updates *)

(** The node of the row [item] when the row mirrors a plan step. *)
Definition todo_alias (g : WorkGraphSnapshot) (order : list WorkNodeId) (item : TodoItem)
  : option (Z * WorkNodeId) :=
  b ← find (fun b => bool_decide (legacy_id b = item_id item)) (todos (compat g));
  index ← plan_index b;
  if bool_decide (zget order index = Some (todo_node b)) then Some (index, todo_node b) else None.

Definition own_node (g : WorkGraphSnapshot) (item : TodoItem) : WorkNodeId :=
  default (WorkNodeId_derive session ($"todo:" ++ display_u (item_id item)))
    (todo_node <$> find (fun b => bool_decide (legacy_id b = item_id item) && opt_is_none (plan_index b))
                     (todos (compat g))).

Definition update_own_row (tool : str) (objective : WorkNodeId) (item : TodoItem) (id : WorkNodeId) : Edit unit :=
  g ← get_graph;
  let desired := todo_node_state (status item) in
  n ← tool_node id NodeKind.PlanStep (trim (content item))
        (if bool_decide (desired = NodeState.Active) then NodeState.Ready else desired) (tool_provenance g tool);
  upsert_node tool n;;
  ensure_contains tool objective id;;
  if bool_decide (desired = NodeState.Active) then
    g ← get_graph;
    n ← lift (ok_or (node g id) ($"node " ++ id ++ $" not found after insert"));
    patch_existing_node tool id (node_title n) desired
  else mret tt.

Definition update_row (tool : str) (objective : WorkNodeId) (order : list WorkNodeId)
  (bindings : list CompatTodoBinding) (item : TodoItem) : Edit (list CompatTodoBinding) :=
  g ← get_graph;
  match todo_alias g order item with
  | Some (index, id) =>
      patch_existing_node tool id (trim (content item)) (todo_node_state (status item));;
      mret (bindings ++ [{| legacy_id := item_id item; todo_node := id; plan_index := Some index |}])
  | None =>
      let id := own_node g item in
      update_own_row tool objective item id;;
      mret (bindings ++ [{| legacy_id := item_id item; todo_node := id; plan_index := None |}])
  end.

Definition update_todo_graph (tool : str) (rows : TodoListSnapshot) : Edit unit :=
  deactivate_projected_todos tool;;
  g ← get_graph;
  objective ← ensure_objective tool (project_plan g);
  g ← get_graph;
  let order := plan_order (compat g) in
  bindings ← for_each (update_row tool objective order) [] (snap_items rows);
  g ← get_graph;
  apply_change tool
    (ReplaceCompatProjection
       {| compat_plan := compat_plan (compat g); plan_order := plan_order (compat g); todos := bindings |}).
End edits.
