(* ===== verification/WorkRuntime.v ===== *)
(** * The work graph: the session runtime

    [crates/tui/src/work_graph/liveness.rs], the vocabulary of the owners of
    operations, and [runtime.rs]: the active graph of a session with the
    legacy views it publishes.  A method holds its locks until it returns, so
    each is one function from the runtime to the runtime and a result. *)

From S2P Require Import Text WorkModel WorkValidate WorkReducer PlanTodo WorkImport.
From S2P Require Export WorkEdits.

(** ** Owners of operations ([liveness.rs]) *)

Record OperationIntent := {
  intent_external : str; intent_title : str; intent_durable : bool; intent_source : str;
  intent_call_id : str; intent_acceptance : list AcceptanceRequirement }.

Definition OperationIntent_new (external title : str) (durable : bool) (source call_id : str) : OperationIntent :=
  {| intent_external := external; intent_title := title; intent_durable := durable; intent_source := source;
     intent_call_id := call_id; intent_acceptance := [] |}.

Definition with_acceptance (i : OperationIntent) (acceptance : list AcceptanceRequirement) : OperationIntent :=
  {| intent_external := intent_external i; intent_title := intent_title i; intent_durable := intent_durable i;
     intent_source := intent_source i; intent_call_id := intent_call_id i; intent_acceptance := acceptance |}.

Record OperationOwnerSnapshot := {
  owner_external : str; owner_state : OwnerState; owner_seq : Z; owner_observed_at : Ts;
  owner_output : option EvidenceRef }.

Definition OperationOwnerSnapshot_new (external : str) (state : OwnerState) (seq : Z) (observed_at : Ts)
  : OperationOwnerSnapshot :=
  {| owner_external := external; owner_state := state; owner_seq := seq; owner_observed_at := observed_at;
     owner_output := None |}.

Definition with_output (s : OperationOwnerSnapshot) (output : EvidenceRef) : OperationOwnerSnapshot :=
  {| owner_external := owner_external s; owner_state := owner_state s; owner_seq := owner_seq s;
     owner_observed_at := owner_observed_at s; owner_output := Some output |}.

Definition into_observation (s : OperationOwnerSnapshot) : OperationObservation :=
  OwnerReported (owner_state s) (owner_seq s) (owner_observed_at s) (owner_output s).

(** [task_manager.rs]. *)
Module TaskStatus.
Inductive TaskStatus : Set := Queued | Running | Completed | Failed | Canceled.
End TaskStatus.

(** Times as [timestamp_millis]. *)
Definition task_owner_snapshot (id : str) (status : TaskStatus.TaskStatus) (lifecycle_seq : Z)
  (created_at : Ts) (started_at ended_at : option Ts) : OperationOwnerSnapshot :=
  let state :=
    match status with
    | TaskStatus.Queued => OwnerState.Initializing
    | TaskStatus.Running => OwnerState.Running
    | TaskStatus.Completed => OwnerState.Completed
    | TaskStatus.Failed => OwnerState.Failed
    | TaskStatus.Canceled => OwnerState.Cancelled
    end in
  OperationOwnerSnapshot_new ($"task:" ++ id) state lifecycle_seq
    (default created_at (or_else ended_at started_at)).

(** [fleet/ledger.rs]: the fields the projection reads. *)
Module FleetTaskLedgerStatus.
Inductive FleetTaskLedgerStatus : Set := Enqueued | Leased | Completed | Failed | Cancelled.
End FleetTaskLedgerStatus.

Record FleetTaskState := {
  entry_run_id : str; entry_task_id : str; task_status : FleetTaskLedgerStatus.FleetTaskLedgerStatus;
  task_lifecycle_seq : Z }.

Definition fleet_task_owner_snapshot (task : FleetTaskState) (observed_at : Ts) : OperationOwnerSnapshot :=
  let state :=
    match task_status task with
    | FleetTaskLedgerStatus.Enqueued => OwnerState.Initializing
    | FleetTaskLedgerStatus.Leased => OwnerState.Running
    | FleetTaskLedgerStatus.Completed => OwnerState.Completed
    | FleetTaskLedgerStatus.Failed => OwnerState.Failed
    | FleetTaskLedgerStatus.Cancelled => OwnerState.Cancelled
    end in
  OperationOwnerSnapshot_new ($"fleet:" ++ entry_run_id task ++ $"/" ++ entry_task_id task) state
    (Z.max (task_lifecycle_seq task) 1) observed_at.

(** [lane/src/registry.rs]: the fields the projection reads. *)
Module LaneStatus.
Inductive LaneStatus : Set := Pending | Running | Stopped | Failed | Completed.
End LaneStatus.

Record LaneRecord := { lane_id : str; lane_status : LaneStatus.LaneStatus; lane_lifecycle_seq : Z }.

Definition lane_owner_snapshot (record : LaneRecord) (observed_at : Ts) : OperationOwnerSnapshot :=
  let state :=
    match lane_status record with
    | LaneStatus.Pending => OwnerState.Initializing
    | LaneStatus.Running => OwnerState.Running
    | LaneStatus.Stopped => OwnerState.Cancelled
    | LaneStatus.Failed => OwnerState.Failed
    | LaneStatus.Completed => OwnerState.Completed
    end in
  OperationOwnerSnapshot_new ($"lane:" ++ lane_id record) state (Z.max (lane_lifecycle_seq record) 1) observed_at.

(** ** State *)

Record ActiveGraph := {
  active_session : option str; active_snapshot : option WorkGraphSnapshot; pending_publish : bool }.

Definition default_active : ActiveGraph :=
  {| active_session := None; active_snapshot := None; pending_publish := false |}.

(** The shared To-do list and plan, and the graph. *)
Record WorkRuntime := { rt_todos : TodoList; rt_plan : PlanState; rt_active : ActiveGraph }.

Definition new_shared_work_runtime (todos : TodoList) (plan : PlanState) : WorkRuntime :=
  {| rt_todos := todos; rt_plan := plan; rt_active := default_active |}.

Definition with_active (rt : WorkRuntime) (a : ActiveGraph) : WorkRuntime :=
  {| rt_todos := rt_todos rt; rt_plan := rt_plan rt; rt_active := a |}.

(** [active.snapshot = Some(next); active.pending_publish = true]. *)
Definition commit (rt : WorkRuntime) (next : WorkGraphSnapshot) : WorkRuntime :=
  with_active rt {| active_session := active_session (rt_active rt); active_snapshot := Some next;
                    pending_publish := true |}.

Record WorkRuntimeSnapshot := {
  captured_graph : WorkGraphSnapshot; captured_todos : TodoListSnapshot; captured_plan : PlanSnapshot }.

(** What a call meets: the readings of the clocks, and whether the locks of the
    views are free within the retries. *)
Record Env := { clock : nat -> Ts; instant : Z; todos_free : bool; plan_free : bool }.

(** What the stores of a workspace hold: the replayed ledger, when it could be
    replayed, and the registry, when it could be opened. *)
Record Owners := {
  fleet_tasks : option (gmap str FleetTaskState); lane_load : option (str -> option LaneRecord) }.

(** The session differs from the one asked for. *)
Definition other_session (a : ActiveGraph) (session : option str) : bool :=
  match session, active_session a with
  | Some expected, Some actual => bool_decide (expected <> actual)
  | _, _ => false
  end.

Definition resolved_session_id (a : ActiveGraph) (requested : option str) : str :=
  default $"unsaved-work" (or_else requested (active_session a)).

(** The node bound to [external]. *)
Definition bound_node (g : WorkGraphSnapshot) (ext : str) : option WorkNode :=
  find (fun n => match node_binding n with Some b => bool_decide (external b = ext) | None => false end) (nodes g).

(** ** Queries *)

Definition has_operation_binding (rt : WorkRuntime) (session : option str) (ext : str) : bool :=
  if other_session (rt_active rt) session then false
  else match active_snapshot (rt_active rt) with
       | Some g => negb (opt_is_none (bound_node g ext))
       | None => false
       end.

(** The live or stale durable bindings. *)
Definition durable_bindings (g : WorkGraphSnapshot) : list str :=
  omap (fun n => if NodeState.is_live (node_state n) || bool_decide (node_state n = NodeState.Stale)
                 then match node_binding n with
                      | Some b => if durable b then Some (external b) else None
                      | None => None
                      end
                 else None)
    (nodes g).

Definition reconcilable_durable_bindings (rt : WorkRuntime) (session : option str) : list str :=
  if other_session (rt_active rt) session then []
  else match active_snapshot (rt_active rt) with Some g => durable_bindings g | None => [] end.

Definition has_pending_publish (rt : WorkRuntime) : bool := pending_publish (rt_active rt).

Definition current_todos (rt : WorkRuntime) : TodoListSnapshot :=
  match active_snapshot (rt_active rt) with
  | Some g => project_todos g
  | None => todo_snapshot (rt_todos rt)
  end.

Section runtime.
Context `{Externs, LegacyJson}.

Definition validated (g : WorkGraphSnapshot) : result str unit := map_err report_display (validate g).

(** The projections agree with the graph, and the legacy reader takes them. *)
Definition validate_combined (g : WorkGraphSnapshot) (plan : PlanSnapshot) (rows : TodoListSnapshot) : result str unit :=
  validated g;;
  reject_if (bool_decide (project_plan g <> plan)) $"Work Graph Plan projection is inconsistent";;
  reject_if (bool_decide (project_todos g <> rows)) $"Work Graph To-do projection is inconsistent";;
  from_snapshot rows;;
  Ok tt.

(** Changes the active graph even when the rest of the call fails. *)
Definition graph_for_update (a : ActiveGraph) (session : str) (plan : PlanSnapshot) (rows : TodoListSnapshot)
  : ActiveGraph * result str WorkGraphSnapshot :=
  let a := {| active_session := Some session; active_snapshot := active_snapshot a;
              pending_publish := pending_publish a |} in
  match active_snapshot a with
  | Some g => (a, validated g;; Ok g)
  | None =>
      match (if plan_snapshot_is_empty plan && is_nil (snap_items rows) then Ok new
             else import_legacy session plan rows) with
      | Ok g => ({| active_session := Some session; active_snapshot := Some g;
                    pending_publish := pending_publish a |}, Ok g)
      | Err e => (a, Err e)
      end
  end.

(** A call that needs both views: [what] completes the message of a busy lock. *)
Definition with_views {A} (env : Env) (rt : WorkRuntime) (what : str) (k : WorkRuntime * result str A)
  : WorkRuntime * result str A :=
  if negb (todos_free env) then (rt, Err ($"To-do state is busy; " ++ what))
  else if negb (plan_free env) then (rt, Err ($"Plan state is busy; " ++ what))
  else k.

(** Runs [k] on the graph to update: its error leaves the active graph as
    [graph_for_update] left it, a new graph is committed. *)
Definition with_graph {A} (rt : WorkRuntime) (session : str)
  (k : WorkGraphSnapshot -> result str (A * option WorkGraphSnapshot)) : WorkRuntime * result str A :=
  let '(a, base) := graph_for_update (rt_active rt) session (plan_snapshot (rt_plan rt)) (todo_snapshot (rt_todos rt)) in
  let rt := with_active rt a in
  match (base ← base; k base) with
  | Ok (x, Some next) => (commit rt next, Ok x)
  | Ok (x, None) => (rt, Ok x)
  | Err e => (rt, Err e)
  end.

(** The end of most edits: the new graph must still project. *)
Definition projected {A} (r : result str (A * (WorkGraphSnapshot * nat))) : result str (A * option WorkGraphSnapshot) :=
  '(x, (next, _)) ← r;
  validate_combined next (project_plan next) (project_todos next);;
  Ok (x, Some next).

(** ** Operations *)

Definition operation_parent (clock : nat -> Ts) (session source : str) : Edit WorkNodeId :=
  g ← get_graph;
  let steps s := find (fun n => bool_decide (node_kind n = NodeKind.PlanStep) && bool_decide (node_state n = s)) (nodes g) in
  let objective := find (fun n => bool_decide (node_kind n = NodeKind.Objective)) (nodes g) in
  match or_else (or_else (steps NodeState.Active) (steps NodeState.Ready)) objective with
  | Some parent => mret (node_id parent)
  | None =>
      t ← now_ms clock;
      let id := WorkNodeId_derive session $"objective:runtime-operations" in
      apply_change clock session source
        (AddNode {| node_id := id; node_kind := NodeKind.Objective; node_title := $"Runtime operations";
                    node_state := NodeState.Ready; node_acceptance := []; node_binding := None;
                    node_evidence := None; node_provenance := RuntimeReconcile source t;
                    node_created_at := t; node_updated_at := t |});;
      mret id
  end.

(** The operation is added inert, rooted, and only then advanced. *)
Definition add_operation (clock : nat -> Ts) (session : str) (intent : OperationIntent) : Edit WorkNodeId :=
  let source := intent_source intent in
  parent ← operation_parent clock session source;
  let id := WorkNodeId_derive session ($"operation:" ++ intent_external intent) in
  t ← now_ms clock;
  apply_change clock session source
    (AddNode {| node_id := id; node_kind := NodeKind.Operation;
                node_title := bounded_operation_title (intent_title intent); node_state := NodeState.Ready;
                node_acceptance := intent_acceptance intent;
                node_binding := Some {| external := intent_external intent; durable := intent_durable intent;
                                        last_observation := None |};
                node_evidence := None; node_provenance := ToolUpdate source (intent_call_id intent);
                node_created_at := t; node_updated_at := t |});;
  ensure_contains clock session source parent id;;
  g ← get_graph;
  title ← lift (ok_or (node_title <$> node g id) ($"operation " ++ id ++ $" disappeared during registration"));
  patch_existing_node clock session source id title NodeState.Initializing;;
  mret id.

Definition register_operation (env : Env) (rt : WorkRuntime) (session : str) (intent : OperationIntent)
  : WorkRuntime * result str WorkNodeId :=
  let ext := intent_external intent in
  if negb (external_identity_is_well_formed ext) then
    (rt, Err ($"invalid lifecycle binding external " ++ debug_str ext))
  else
    with_views env rt $"operation was not registered"
      (with_graph rt session (fun base =>
         match bound_node base ext with
         | Some existing =>
             if bool_decide (durable <$> node_binding existing <> Some (intent_durable intent))
             then Err ($"lifecycle binding " ++ ext ++ $" changed durability")
             else Ok (node_id existing, None)
         | None => projected (add_operation (clock env) session intent (base, 0%nat))
         end)).

Definition add_approval (clock : nat -> Ts) (session ext reference source call_id : str) (operation : WorkNodeId)
  : Edit unit :=
  let approval := WorkNodeId_derive session ($"approval:operation:" ++ ext ++ $":" ++ reference) in
  g ← get_graph;
  (if opt_is_none (node g approval) then
     t ← now_ms clock;
     apply_change clock session source
       (AddNode {| node_id := approval; node_kind := NodeKind.Approval;
                   node_title := bounded_operation_title ($"verification approved: " ++ reference);
                   node_state := NodeState.Completed; node_acceptance := []; node_binding := None;
                   node_evidence := None; node_provenance := ToolUpdate source call_id;
                   node_created_at := t; node_updated_at := t |})
   else mret tt);;
  let edge_ := WorkEdgeId_derive session ($"requires-approval:" ++ operation ++ $":" ++ approval) in
  g ← get_graph;
  if opt_is_none (edge g edge_) then
    apply_change clock session source
      (AddEdge {| edge_id := edge_; edge_kind := EdgeKind.RequiresApproval; edge_from := operation;
                  edge_to := approval |})
  else mret tt.

Definition record_operation_approval (env : Env) (rt : WorkRuntime)
  (session ext reference source call_id : str) : WorkRuntime * result str unit :=
  with_views env rt $"approval was not recorded"
    (with_graph rt session (fun base =>
       operation ← ok_or
         (node_id <$> find (fun n => bool_decide (node_kind n = NodeKind.Operation)
                                     && match node_binding n with
                                        | Some b => bool_decide (external b = ext)
                                        | None => false
                                        end) (nodes base))
         ($"operation binding " ++ ext ++ $" is not registered");
       projected (add_approval (clock env) session ext reference source call_id operation (base, 0%nat)))).

(** The live operation updated last, the greatest identifier first. *)
Definition latest_operation (g : WorkGraphSnapshot) : option WorkNodeId :=
  node_id <$> max_by (fun l r => (node_updated_at l <? node_updated_at r)
                                 || (node_updated_at l =? node_updated_at r) && str_le (node_id l) (node_id r))
                (retain (fun n => bool_decide (node_kind n = NodeKind.Operation) && NodeState.is_live (node_state n))
                   (nodes g)).

Definition record_effort (clock : nat -> Ts) (session : str) (requested effective : ReasoningEffortTier)
  (provider_kind : ApiProvider) (provider : str) (endpoint_identity model : option str) : Edit (option WorkNodeId) :=
  g ← get_graph;
  let operation := latest_operation g in
  t ← now_ms clock;
  r ← lift (map_err (fun err => $"reasoning effort: " ++ report_display err)
              (apply g (RecordActivity
                          {| act_requested := requested; act_effective := effective;
                             act_provider_kind := Some provider_kind; act_provider := provider;
                             act_endpoint_identity := endpoint_identity; act_model := model; act_ts := t;
                             act_operation := operation |})
                 {| session_id := session; now := t; idempotency_key := None |}));
  put_graph r.1;;
  mret operation.

Definition record_reasoning_effort_change (env : Env) (rt : WorkRuntime) (session : option str)
  (requested effective : ReasoningEffortTier) (provider_kind : ApiProvider) (provider : str)
  (endpoint_identity model : option str) : WorkRuntime * result str (option WorkNodeId) :=
  with_views env rt $"effort change was not recorded"
    (let session := resolved_session_id (rt_active rt) session in
     with_graph rt session (fun base =>
       projected (record_effort (clock env) session requested effective provider_kind provider
                    endpoint_identity model (base, 0%nat)))).

(** ** Observations *)

Definition binding_key (session ext : str) (seq : Z) : IdempotencyKey :=
  {| key_binding := BindingId_derive session ($"binding:" ++ ext); key_seq := seq |}.

(** What an owner's report means against the last one. *)
Inductive Verdict :=
| Unchanged
| Recovery
| Fresh.

Definition report_verdict (n : WorkNode) (ext : str) (state : OwnerState) (seq : Z) (output : option EvidenceRef)
  : result str Verdict :=
  match (b ← node_binding n; last_observation b) with
  | Some previous =>
      if seq <? obs_seq previous then
        Err ($"operation owner " ++ ext ++ $" sequence regressed from " ++ display_u (obs_seq previous) ++ $" to "
             ++ display_u seq)
      else if seq =? obs_seq previous then
        if bool_decide (node_state n <> NodeState.Stale) then Ok Unchanged
        else if bool_decide (state <> obs_owner_state previous) || bool_decide (output <> obs_output previous)
        then Err ($"operation owner " ++ ext ++ $" changed observation at sequence " ++ display_u seq)
        else Ok Recovery
      else Ok Fresh
  | None => Ok Fresh
  end.

(** The reducer call, at the time [t]. *)
Definition reconcile_with (base : WorkGraphSnapshot) (session : str) (n : WorkNode) (obs : OperationObservation)
  (key : option IdempotencyKey) (t : Ts) : result str (option WorkGraphSnapshot) :=
  '(next, receipt) ← map_err (fun err => $"runtime reconcile: " ++ report_display err)
    (apply base (ReconcileOperation (node_id n) obs) {| session_id := session; now := t; idempotency_key := key |});
  Ok (if no_op receipt then None else Some next).

(** [None] when the observation changes nothing. *)
Definition apply_observation_to_snapshot (base : WorkGraphSnapshot) (session ext : str) (obs : OperationObservation)
  (t : Ts) : result str (option WorkGraphSnapshot) :=
  n ← ok_or (bound_node base ext) ($"operation binding " ++ ext ++ $" is not registered");
  match obs with
  | OwnerReported state seq _ output =>
      verdict ← report_verdict n ext state seq output;
      match verdict with
      | Unchanged => Ok None
      | Recovery => reconcile_with base session n obs None t
      | Fresh => reconcile_with base session n obs (Some (binding_key session ext seq)) t
      end
  | OwnerMissing _ =>
      if bool_decide (node_state n = NodeState.Stale) then Ok None else reconcile_with base session n obs None t
  | CancelUpdate _ _ => reconcile_with base session n obs None t
  end.

Definition reconcile_observation (env : Env) (rt : WorkRuntime) (session ext : str) (obs : OperationObservation)
  : WorkRuntime * result str bool :=
  if other_session (rt_active rt) (Some session) then
    (rt, Err ($"lifecycle observation for session " ++ session ++ $" does not match active session"))
  else
    match (base ← ok_or (active_snapshot (rt_active rt)) $"lifecycle observation arrived before graph registration";
           apply_observation_to_snapshot base session ext obs (clock env 0)) with
    | Ok (Some next) => (commit rt next, Ok true)
    | Ok None => (rt, Ok false)
    | Err e => (rt, Err e)
    end.

Definition reconcile_operation (env : Env) (rt : WorkRuntime) (session : str) (snapshot : OperationOwnerSnapshot)
  : WorkRuntime * result str bool :=
  reconcile_observation env rt session (owner_external snapshot) (into_observation snapshot).

(** What the stores of the workspace say of a durable binding; [None] for the
    bindings of other owners. *)
Definition workspace_observation (owners : Owners) (observed_at : Ts) (ext : str) : option OperationObservation :=
  match strip_prefix $"fleet:" ext with
  | Some rest =>
      Some (default (OwnerMissing observed_at)
              ('(run, task) ← split_once $"/" rest;
               tasks ← fleet_tasks owners;
               record ← tasks !! (run ++ $":" ++ task);
               Some (into_observation (fleet_task_owner_snapshot record observed_at))))
  | None =>
      match strip_prefix $"lane:" ext with
      | Some id =>
          Some (default (OwnerMissing observed_at)
                  (load ← lane_load owners;
                   record ← load id;
                   Some (into_observation (lane_owner_snapshot record observed_at))))
      | None => None
      end
  end.

Definition reconcile_candidate (clock : nat -> Ts) (session : str) (owners : Owners) (observed_at : Ts)
  (st : WorkGraphSnapshot * Z * nat) (ext : str) : result str (WorkGraphSnapshot * Z * nat) :=
  let '(g, changed, reading) := st in
  match workspace_observation owners observed_at ext with
  | None => Ok st
  | Some obs =>
      next ← apply_observation_to_snapshot g session ext obs (clock reading);
      Ok (match next with
          | Some next => (next, usize_saturating_add changed 1, S reading)
          | None => (g, changed, S reading)
          end)
  end.

Definition workspace_candidates (g : WorkGraphSnapshot) : list str :=
  retain (fun ext => starts_with $"fleet:" ext || starts_with $"lane:" ext) (durable_bindings g).

(** The observation times and the changes read the clock from [reading] on. *)
Definition reconcile_workspace_snapshot (clock : nat -> Ts) (reading : nat) (g : WorkGraphSnapshot) (session : str)
  (owners : Owners) : result str (WorkGraphSnapshot * Z) :=
  match workspace_candidates g with
  | [] => Ok (g, 0)
  | candidates =>
      fst <$> foldM (reconcile_candidate clock session owners (clock reading)) (g, 0, S reading) candidates
  end.

(** [concurrent] is the runtime when the second lock is taken: the stores are
    read in between. *)
Definition reconcile_workspace_owner_bindings (env : Env) (rt concurrent : WorkRuntime) (session : str)
  (owners : Owners) : WorkRuntime * result str Z :=
  match (reject_if (bool_decide (active_session (rt_active rt) <> Some session))
           ($"workspace owner reconciliation does not match active session " ++ session);;
         base ← ok_or (active_snapshot (rt_active rt)) $"workspace owner reconciliation has no active graph";
         r ← reconcile_workspace_snapshot (clock env) 0 base session owners;
         Ok (revision base, r)) with
  | Err e => (concurrent, Err e)
  | Ok (rev, (next, changed)) =>
      if changed =? 0 then (concurrent, Ok 0)
      else if bool_decide (active_session (rt_active concurrent) <> Some session)
              || bool_decide (revision <$> active_snapshot (rt_active concurrent) <> Some rev)
      then (concurrent, Err $"Work Graph changed during workspace owner reconciliation")
      else (commit concurrent next, Ok changed)
  end.

(** ** Updates of the legacy views *)

(** The views a graph publishes: the stores restored from the projections must
    project back. *)
Definition derived_views (env : Env) (g : WorkGraphSnapshot) : result str (PlanState * TodoList) :=
  let next_plan := plan_from_snapshot (project_plan g) (instant env) in
  next_todos ← from_snapshot (project_todos g);
  validate_combined g (plan_snapshot next_plan) (todo_snapshot next_todos);;
  Ok (next_plan, next_todos).

(** The async methods wait for their locks. *)
Definition apply_plan_update (env : Env) (rt : WorkRuntime) (session tool : str) (plan : PlanSnapshot)
  : WorkRuntime * result str PlanSnapshot :=
  with_graph rt session (fun base =>
    '(_, (next, _)) ← update_plan_graph (clock env) session tool plan (base, 0%nat);
    derived_views env next;;
    Ok (project_plan next, Some next)).

Definition apply_todo_update (env : Env) (rt : WorkRuntime) (session tool : str) (rows : TodoListSnapshot)
  : WorkRuntime * result str TodoListSnapshot :=
  with_graph rt session (fun base =>
    '(_, (next, _)) ← update_todo_graph (clock env) session tool rows (base, 0%nat);
    derived_views env next;;
    Ok (project_todos next, Some next)).

Definition publish_pending (env : Env) (rt : WorkRuntime) : WorkRuntime * result str bool :=
  let a := rt_active rt in
  if negb (pending_publish a) then (rt, Ok false)
  else
    match (g ← ok_or (active_snapshot a) $"pending Work projection has no graph"; derived_views env g) with
    | Ok (next_plan, next_todos) =>
        ({| rt_todos := next_todos; rt_plan := next_plan;
            rt_active := {| active_session := active_session a; active_snapshot := active_snapshot a;
                            pending_publish := false |} |}, Ok true)
    | Err e => (rt, Err e)
    end.

Definition publish_pending_sync (env : Env) (rt : WorkRuntime) : WorkRuntime * result str bool :=
  with_views env rt $"saved Work views were not published" (publish_pending env rt).

(** ** Persistence *)

Definition capture (env : Env) (rt : WorkRuntime) (session : option str)
  : WorkRuntime * result str (option WorkRuntimeSnapshot) :=
  with_views env rt $"try saving again"
    (let a := rt_active rt in
     let todos_snapshot := todo_snapshot (rt_todos rt) in
     let plan_snapshot := plan_snapshot (rt_plan rt) in
     if is_nil (snap_items todos_snapshot) && plan_snapshot_is_empty plan_snapshot
        && match active_snapshot a with Some g => snapshot_is_empty g | None => true end
     then (rt, Ok None)
     else
       let had_graph := negb (opt_is_none (active_snapshot a)) in
       let had_pending_publish := pending_publish a in
       let '(a, graph) := graph_for_update a (resolved_session_id a session) plan_snapshot todos_snapshot in
       match (g ← graph;
              validate_combined g (project_plan g) (project_todos g);;
              reject_if (had_graph && negb had_pending_publish
                         && (bool_decide (project_plan g <> plan_snapshot)
                             || bool_decide (project_todos g <> todos_snapshot)))
                $"live Work Graph and legacy views disagree";;
              Ok g) with
       | Err e => (with_active rt a, Err e)
       | Ok g =>
           (with_active rt {| active_session := active_session a; active_snapshot := Some g;
                              pending_publish := negb had_graph || pending_publish a |},
            Ok (Some {| captured_graph := g; captured_todos := project_todos g; captured_plan := project_plan g |}))
       end).

(** The owners of operations that are not durable are gone after a restart. *)
Definition mark_stale (clock : nat -> Ts) (session : str) (st : WorkGraphSnapshot * nat) (id : WorkNodeId)
  : result str (WorkGraphSnapshot * nat) :=
  let '(g, reading) := st in
  r ← map_err (fun err => $"restart reconcile: " ++ report_display err)
        (apply g (ReconcileOperation id (OwnerMissing (clock reading)))
           {| session_id := session; now := clock (S reading); idempotency_key := None |});
  Ok (r.1, S (S reading)).

Definition ephemeral_operations (g : WorkGraphSnapshot) : list WorkNodeId :=
  omap (fun n => b ← node_binding n;
                 if negb (durable b) && NodeState.is_live (node_state n) then Some (node_id n) else None)
    (nodes g).

Definition mark_restored_ephemeral_operations_stale (clock : nat -> Ts) (g : WorkGraphSnapshot) (session : str)
  : result str (WorkGraphSnapshot * bool * nat) :=
  match ephemeral_operations g with
  | [] => Ok (g, false, 0%nat)
  | candidates =>
      '(g, reading) ← foldM (mark_stale clock session) (g, 0%nat) candidates;
      Ok (g, true, reading)
  end.

(** The restored graph, before any live state changes: [workspace] holds the
    stores when the restore reconciles them.  The flag asks for a publish. *)
Definition restored_graph (env : Env) (session : str) (graph : option WorkGraphSnapshot) (rows : TodoListSnapshot)
  (plan : PlanSnapshot) (workspace : option Owners) : result str (WorkGraphSnapshot * bool) :=
  let had_graph := negb (opt_is_none graph) in
  g ← match graph with
      | Some g => validated g;; Ok g
      | None => if is_nil (snap_items rows) && plan_snapshot_is_empty plan then Ok new
                else import_legacy session plan rows
      end;
  '(g, ephemeral, reading) ← mark_restored_ephemeral_operations_stale (clock env) g session;
  '(g, changed) ← match workspace with
                  | Some owners => reconcile_workspace_snapshot (clock env) reading g session owners
                  | None => Ok (g, 0)
                  end;
  (if snapshot_is_empty g then
     reject_if (negb (is_nil (snap_items rows)) || negb (plan_snapshot_is_empty plan))
       $"empty Work Graph cannot carry non-empty legacy views"
   else
     reject_if (negb (opt_is_none (import_digest g)) && compat_is_empty (compat g))
       $"imported Work Graph is missing compatibility projections");;
  validate_combined g (project_plan g) (project_todos g);;
  reject_if (had_graph && (bool_decide (project_plan g <> plan) || bool_decide (project_todos g <> rows)))
    $"persisted Work Graph and legacy views disagree";;
  Ok (g, ephemeral || (0 <? changed) || (negb had_graph && negb (snapshot_is_empty g))).

Definition restore_internal (env : Env) (rt : WorkRuntime) (session : str) (graph : option WorkGraphSnapshot)
  (rows : TodoListSnapshot) (plan : PlanSnapshot) (workspace : option Owners)
  : WorkRuntime * result str (option WorkRuntimeSnapshot) :=
  match ('(g, pending) ← restored_graph env session graph rows plan workspace;
         next_todos ← from_snapshot (project_todos g);
         Ok (g, pending, next_todos)) with
  | Err e => (rt, Err e)
  | Ok (g, pending, next_todos) =>
      with_views env rt $"session was not restored"
        ({| rt_todos := next_todos; rt_plan := plan_from_snapshot (project_plan g) (instant env);
            rt_active := {| active_session := Some session; active_snapshot := Some g; pending_publish := pending |} |},
         Ok (if snapshot_is_empty g then None
             else Some {| captured_graph := g; captured_todos := project_todos g; captured_plan := project_plan g |}))
  end.

Definition restore (env : Env) (rt : WorkRuntime) (session : str) (graph : option WorkGraphSnapshot)
  (rows : TodoListSnapshot) (plan : PlanSnapshot) : WorkRuntime * result str (option WorkRuntimeSnapshot) :=
  restore_internal env rt session graph rows plan None.

Definition restore_with_workspace_owner_bindings (env : Env) (rt : WorkRuntime) (session : str) (owners : Owners)
  (graph : option WorkGraphSnapshot) (rows : TodoListSnapshot) (plan : PlanSnapshot)
  : WorkRuntime * result str (option WorkRuntimeSnapshot) :=
  restore_internal env rt session graph rows plan (Some owners).

Definition clear (env : Env) (rt : WorkRuntime) (session : option str) : WorkRuntime * bool :=
  if negb (todos_free env && plan_free env) then (rt, false)
  else
    ({| rt_todos := todo_clear (rt_todos rt); rt_plan := default_plan;
        rt_active := {| active_session := Some (resolved_session_id (rt_active rt) session);
                        active_snapshot := Some new; pending_publish := false |} |}, true).
End runtime.
