(* ===== verification/WorkEditFacts.v ===== *)
(** * The work graph: what edits do

    Inversion lemmas for the edits of [WorkEdits], the nodes they write, and
    the coherence of the graph an edit ends with. *)

From S2P Require Import Text WorkModel WorkValidate WorkGraphs WorkInvariant WorkReducer WorkReducerFacts PlanTodo WorkImport WorkEdits.

(** ** Inversion *)

Lemma edit_bind_Ok {A B} (m : Edit A) (f : A -> Edit B) s x :
  (a ← m; f a) s = Ok x <-> exists a s', m s = Ok (a, s') /\ f a s' = Ok x.
Proof.
  change ((a ← m; f a) s) with ('(a, s) ← m s; f a s). rewrite bind_Ok. split.
  - intros ([a s'] & H1 & H2). eauto.
  - intros (a & s' & H1 & H2). by exists (a, s').
Qed.

Lemma lift_Ok {A} (r : result str A) s x : lift r s = Ok x <-> exists a, r = Ok a /\ x = (a, s).
Proof. unfold lift. rewrite bind_Ok. naive_solver. Qed.

Lemma for_each_app {A B} (step : B -> A -> Edit B) b l k s x :
  for_each step b (l ++ k) s = Ok x <->
  exists b' s', for_each step b l s = Ok (b', s') /\ for_each step b' k s' = Ok x.
Proof.
  revert b s. induction l as [|a l IH]; intros b s; cbn [for_each app].
  - split; [intros E; by exists b, s|]. by intros (b' & s' & [= <- <-] & E).
  - rewrite edit_bind_Ok. setoid_rewrite edit_bind_Ok. setoid_rewrite IH. naive_solver.
Qed.

(** Inverts a successful edit. *)
Ltac inv_edit :=
  repeat match goal with
  | E : (mbind ?f ?m) ?s = Ok ?x |- _ =>
      match type of m with
      | Edit _ => let a := fresh "a" in let s' := fresh "s" in let H1 := fresh "E" in
                  apply (edit_bind_Ok m f) in E as (a & s' & H1 & E)
      end
  | E : get_graph _ = Ok _ |- _ => injection E as <- <-
  | E : put_graph _ _ = Ok _ |- _ => injection E as <- <-
  | E : mret _ _ = Ok _ |- _ => injection E as <- <-
  | E : now_ms _ _ = Ok _ |- _ => injection E as <- <-
  | E : fail _ _ = Ok _ |- _ => discriminate E
  | E : lift _ _ = Ok _ |- _ => let a := fresh "a" in let H1 := fresh "E" in let H2 := fresh "E" in
      apply lift_Ok in E as (a & H1 & H2); try (injection H2 as -> ->); try subst
  | E : ok_or _ _ = Ok _ |- _ => apply ok_or_Ok in E
  | E : map_err _ _ = Ok _ |- _ => apply map_err_Ok in E
  end.

Section facts.
Context `{Externs} (clock : nat -> Ts) (session : str).

Lemma apply_no_key_Ok g change ctx g' r :
  idempotency_key ctx = None -> apply g change ctx = Ok (g', r) ->
  exists next, apply_pure g change ctx = Ok next /\ well_formed next /\ same_log g next /\
    g' = committed g next change ctx /\ no_op r = false.
Proof.
  intros Hk [(key & Hd & _)|(_ & next & ? & ? & ? & -> & ->)]%apply_Ok; [|by exists next].
  unfold duplicate_key in Hd. by rewrite Hk in Hd.
Qed.

Lemma apply_change_Ok tool change s x :
  apply_change clock session tool change s = Ok x ->
  let ctx := {| session_id := session; now := clock s.2; idempotency_key := None |} in
  exists next, apply_pure s.1 change ctx = Ok next /\ well_formed next /\ same_log s.1 next /\
    x = (tt, (committed s.1 next change ctx, S s.2)).
Proof.
  intros E. cbn zeta. destruct s as [g t]. unfold apply_change in E. inv_edit.
  destruct a as [g' r]. apply apply_no_key_Ok in E0 as (next & ? & ? & ? & -> & _); [|done].
  injection E as <-. by exists next.
Qed.

(** ** The nodes an edit writes *)

(** The node [id] has this kind, title and state. *)
Definition shows (g : WorkGraphSnapshot) (id : WorkNodeId) (kind : NodeKind) (title : str) (state : NodeState) : Prop :=
  exists n, node g id = Some n /\ node_kind n = kind /\ node_title n = title /\ node_state n = state.

(** All nodes but [ids] are as they were, and so are the projections' rows. *)
Definition touches (ids : list WorkNodeId) (g g' : WorkGraphSnapshot) : Prop :=
  compat g' = compat g /\ forall id n, id ∉ ids -> node g id = Some n -> node g' id = Some n.

#[export] Instance touches_preorder ids : PreOrder (touches ids).
Proof.
  split; [done|]. intros g1 g2 g3 [Hc1 H1] [Hc2 H2]. split; [congruence|]. eauto.
Qed.

Lemma touches_weaken ids ids' g g' : ids ⊆ ids' -> touches ids g g' -> touches ids' g g'.
Proof. intros Hs [Hc Hn]. split; [done|]. intros id n Hid. apply Hn. set_solver. Qed.

Lemma add_node_shows g n next :
  add_node g n = Ok next -> node next (node_id n) = Some n /\ touches [] g next.
Proof.
  intros [Hn ->]%add_node_Ok. split; [|split; [done|]].
  - unfold node. cbn [nodes with_nodes]. rewrite find_app. fold (node g (node_id n)). rewrite Hn. cbn.
    by rewrite bool_decide_true.
  - intros id m _. apply node_with_nodes_app.
Qed.

Lemma add_edge_touches g e next : add_edge g e = Ok next -> touches [] g next.
Proof. by intros (_ & _ & _ & ->)%add_edge_Ok. Qed.

Lemma patch_node_shows g id patch t next :
  patch_node g id patch t = Ok next ->
  exists n, node g id = Some n /\ node next id = Some (patched n patch t) /\ touches [id] g next.
Proof.
  intros (n & Hn & _ & ->)%patch_node_Ok. exists n. split; [done|].
  assert (Hid : node_id (patched n patch t) = id) by (by apply node_Some in Hn as [_ ?]).
  rewrite node_replace by done. rewrite decide_True by done. rewrite Hn. split; [done|]. split; [done|].
  intros id' m Hid' Hm. rewrite node_replace by done. rewrite decide_False by set_solver. done.
Qed.

Lemma patch_existing_Ok tool id title state s x :
  patch_existing_node clock session tool id title state s = Ok x ->
  exists n n', node s.1 id = Some n /\ node x.2.1 id = Some n' /\ node_kind n' = node_kind n /\
    node_title n' = title /\ node_state n' = state /\ node_acceptance n' = node_acceptance n /\
    node_binding n' = node_binding n /\ touches [id] s.1 x.2.1.
Proof.
  intros E. unfold patch_existing_node in E. inv_edit. exists a.
  destruct (_ && _) eqn:Eb.
  - inv_edit. injection E as <-. apply andb_prop in Eb as [E2%bool_decide_eq_true E3%bool_decide_eq_true]. by exists a.
  - apply apply_change_Ok in E as (next & E & _ & _ & ->). cbn [snd fst]. cbn [apply_pure] in E.
    apply patch_node_shows in E as (n & Hn & Hn' & Ht). simplify_eq. eexists. split_and!; [done|exact Hn'|done..].
Qed.

Lemma patch_existing_shows tool id title state s x :
  patch_existing_node clock session tool id title state s = Ok x ->
  exists n, node s.1 id = Some n /\ shows x.2.1 id (node_kind n) title state /\ touches [id] s.1 x.2.1.
Proof.
  intros (n & n' & Hn & Hn' & Hk & Ht & Hs & _ & _ & Hto)%patch_existing_Ok. exists n. split; [done|]. split; [by exists n'|done].
Qed.

Lemma upsert_shows tool n s x :
  upsert_node clock session tool n s = Ok x ->
  shows x.2.1 (node_id n) (node_kind n) (node_title n) (node_state n) /\ touches [node_id n] s.1 x.2.1.
Proof.
  intros E. unfold upsert_node in E. inv_edit. destruct (node s.1 (node_id n)) as [m|] eqn:Em.
  - case_bool_decide as Hk; [inv_edit|]. apply patch_existing_shows in E as (m' & Hm' & Hs & Ht).
    simplify_eq. by rewrite <-Hk.
  - apply apply_change_Ok in E as (next & E & _ & _ & ->). apply (add_node_shows s.1 n) in E as [Hn Ht].
    split; [by exists n|]. eapply touches_weaken; [|exact Ht]. set_solver.
Qed.

Lemma ensure_contains_touches tool parent child s x :
  ensure_contains clock session tool parent child s = Ok x -> touches [] s.1 x.2.1.
Proof.
  intros E. unfold ensure_contains in E. inv_edit. destruct (negb _); inv_edit; [by injection E as <-|].
  apply apply_change_Ok in E as (next & E & _ & _ & ->). exact (add_edge_touches _ _ _ E).
Qed.

Lemma tool_node_Ok id kind title state provenance s x :
  tool_node clock id kind title state provenance s = Ok x ->
  x.2.1 = s.1 /\ node_id x.1 = id /\ node_kind x.1 = kind /\ node_title x.1 = title /\ node_state x.1 = state.
Proof. destruct s as [g t]. by intros [= <-]. Qed.

Lemma ensure_objective_touches tool plan s x :
  ensure_objective clock session tool plan s = Ok x ->
  touches [x.1] s.1 x.2.1 /\ exists n, node x.2.1 x.1 = Some n /\ node_kind n = NodeKind.Objective.
Proof.
  intros E. unfold ensure_objective in E. inv_edit. injection E as <-.
  apply tool_node_Ok in E1 as (Hg & Hid & Hk & _). apply upsert_shows in E2 as [(n & Hn & Hkn & _) Ht].
  cbn [fst snd] in *. rewrite Hid, Hg in *. split; [done|]. exists n. split; [done|congruence].
Qed.

(** ** Loops that write one row at a time *)

(** The row [b] shows the title and state asked for [a]. *)
Definition row_shows {A B} (id_of : B -> WorkNodeId) (title : A -> str) (state : A -> NodeState)
  (g : WorkGraphSnapshot) (b : B) (a : A) : Prop := exists kind, shows g (id_of b) kind (title a) (state a).

Lemma shows_touches ids g g' id kind title state :
  touches ids g g' -> id ∉ ids -> shows g id kind title state -> shows g' id kind title state.
Proof. intros [_ Ht] Hid (n & Hn & Hk). exists n. split; [by apply Ht|done]. Qed.

Lemma for_each_writes {A B} (step : list B -> A -> Edit (list B)) (id_of : B -> WorkNodeId) (title : A -> str)
  (state : A -> NodeState) (P : B -> A -> Prop) :
  (forall bs a s x, step bs a s = Ok x ->
     exists b, x.1 = bs ++ [b] /\ P b a /\ row_shows id_of title state x.2.1 b a /\ touches [id_of b] s.1 x.2.1) ->
  forall l bs s x, for_each step bs l s = Ok x ->
  exists cs, x.1 = bs ++ cs /\ Forall2 P cs l /\ touches (id_of <$> cs) s.1 x.2.1 /\
    (NoDup (id_of <$> cs) -> Forall2 (row_shows id_of title state x.2.1) cs l).
Proof.
  intros Hstep l. induction l as [|a l IH]; intros bs s x E; cbn [for_each] in E.
  { injection E as <-. exists []. cbn. rewrite app_nil_r. split_and!; [done|constructor|done|constructor]. }
  apply edit_bind_Ok in E as (bs' & s' & Es & E). apply Hstep in Es as (b & Hb & Hp & Hs & Ht). cbn in Hb, Hs, Ht. subst bs'.
  apply IH in E as (cs & Hx & Hps & Hts & Hcs). exists (b :: cs). rewrite Hx, <-app_assoc. split_and!; [done|by constructor| |].
  - etransitivity; [eapply touches_weaken; [|exact Ht]|eapply touches_weaken; [|exact Hts]]; set_solver.
  - intros [Hnb Hnd]%NoDup_cons. constructor; [|by apply Hcs].
    destruct Hs as [kind Hs]. exists kind. by eapply shows_touches.
Qed.

(** ** Plan updates *)

Lemma update_step_writes tool objective order indexed s x :
  update_step clock session tool objective order indexed s = Ok x ->
  exists id, x.1 = order ++ [id] /\ True /\
    row_shows (fun id => id) (fun i => trim (step i.2)) (fun i => plan_node_state (step_status i.2)) x.2.1 id indexed /\
    touches [id] s.1 x.2.1.
Proof.
  destruct indexed as [index item]. intros E. unfold update_step in E. inv_edit. injection E as <-.
  apply tool_node_Ok in E1 as (Hg & Hid & Hk & Htt & Hst). apply upsert_shows in E2 as [Hs Ht].
  apply ensure_contains_touches in E3. cbn [fst snd] in *. rewrite Hid, Htt, Hst, Hg in *.
  eexists. split_and!; [done|done| |].
  - eexists. eapply shows_touches; [exact E3|set_solver|exact Hs].
  - etransitivity; [exact Ht|]. eapply touches_weaken; [|exact E3]. set_solver.
Qed.

Lemma deactivate_compat tool s x :
  deactivate_projected_todos clock session tool s = Ok x -> compat x.2.1 = compat s.1.
Proof.
  intros E. unfold deactivate_projected_todos in E. inv_edit.
  set (rows := active_rows s.1) in E. clearbody rows. revert s E. induction rows as [|row rows IH]; intros s E; cbn [for_each] in E; [by injection E as <-|].
  apply edit_bind_Ok in E as (u & s' & Es & E). destruct u.
  apply patch_existing_shows in Es as (_ & _ & _ & [Hc _]). apply IH in E. cbn in Hc. congruence.
Qed.

(** The plan a graph projects when its rows show the items. *)
Lemma project_rows (g : WorkGraphSnapshot) (ids : list WorkNodeId) (its : list PlanItemArg) :
  Forall2 (row_shows (fun id => id) (fun i => trim (step i.2)) (fun i => plan_node_state (step_status i.2)) g)
    ids (imap pair its) ->
  (fun n => {| step := node_title n; step_status := plan_status n |}) <$> omap (node g) ids =
  (fun i => {| step := trim (step i); step_status := step_status i |}) <$> its.
Proof.
  change (imap pair its) with (imap (fun i x => ((0 + i)%nat, x)) its). generalize 0%nat. intros k Hf.
  revert k ids Hf. induction its as [|item its IH]; intros k ids Hf; cbn in Hf; [by inversion Hf|].
  inversion Hf as [|id ? ids' ? (kind & n & Hn & _ & Ht & Hs) Hf']; subst. cbn [omap list_omap]. rewrite Hn. cbn.
  cbn [snd] in Ht, Hs. rewrite Ht. unfold plan_status at 1. rewrite Hs.
  f_equal; [by destruct (step_status item)|].
  apply (IH (S k)). erewrite imap_ext; [exact Hf'|]. intros i y _. cbn. f_equal. lia.
Qed.

Lemma update_plan_graph_projects tool plan s x :
  update_plan_graph clock session tool plan s = Ok x ->
  well_formed x.2.1 ->
  project_plan x.2.1 =
    {| plan_meta := plan_meta plan;
       plan_items := (fun i => {| step := trim (step i); step_status := step_status i |}) <$> plan_items plan |}.
Proof.
  intros E Hwf. unfold update_plan_graph in E. inv_edit.
  apply (for_each_writes _ (fun id => id) (fun i => trim (step i.2)) (fun i => plan_node_state (step_status i.2))
    (fun _ _ => True) (update_step_writes tool _)) in E3 as (ids & Hids & _ & _ & Hrows).
  apply apply_change_Ok in E as (next & E & _ & _ & ->). cbn [snd fst apply_pure] in *. injection E as <-.
  unfold project_plan. cbn [compat committed with_receipt with_compat compat_plan plan_order to_plan_snapshot plan_meta from_plan_snapshot] in *.
  f_equal. rewrite Hids. cbn [app]. apply (project_rows _ ids). apply Hrows.
  pose proof (wf_plan_order _ Hwf) as [Hnd _]. cbn in Hnd. rewrite Hids in Hnd. by rewrite list_fmap_id.
Qed.

(** ** To-do updates *)

Lemma update_own_row_writes tool objective item id s x :
  update_own_row clock session tool objective item id s = Ok x ->
  (exists kind, shows x.2.1 id kind (trim (content item)) (todo_node_state (status item))) /\ touches [id] s.1 x.2.1.
Proof.
  intros E. unfold update_own_row in E. inv_edit.
  apply tool_node_Ok in E1 as (Hg & Hid & _ & Htt & Hst). apply upsert_shows in E2 as [Hs Ht].
  apply ensure_contains_touches in E3. cbn [fst snd] in *. rewrite Hid, Htt, Hst, Hg in *.
  assert (Hs' := shows_touches _ _ _ _ _ _ _ E3 (not_elem_of_nil _) Hs).
  assert (Ht' : touches [id] s.1 s3.1) by (etransitivity; [exact Ht|eapply touches_weaken; [|exact E3]; set_solver]).
  destruct Hs' as (n & Hn & Hk & Htn & Hsn). case_bool_decide as Hd.
  - inv_edit. simplify_eq. apply patch_existing_shows in E as (n' & Hn' & (m & Hm & Hkm & Htm & Hsm) & Htp).
    rewrite Htn in Htm. split; [exists (node_kind n'); by exists m|]. by etransitivity.
  - injection E as <-. cbn. split; [|done]. eexists. by exists n.
Qed.

Lemma update_row_writes tool objective order bindings item s x :
  update_row clock session tool objective order bindings item s = Ok x ->
  exists b, x.1 = bindings ++ [b] /\ legacy_id b = item_id item /\
    row_shows todo_node (fun i => trim (content i)) (fun i => todo_node_state (status i)) x.2.1 b item /\
    touches [todo_node b] s.1 x.2.1.
Proof.
  intros E. unfold update_row in E. inv_edit. destruct (todo_alias s.1 order item) as [[index id]|]; inv_edit; injection E as <-.
  - apply patch_existing_shows in E0 as (n & _ & Hs & Ht). eexists. split_and!; [done|done| |exact Ht]. by eexists.
  - apply update_own_row_writes in E0 as [Hs Ht]. eexists. split_and!; [done|done|exact Hs|exact Ht].
Qed.

Lemma todo_status_state n s : node_state n = todo_node_state s -> todo_status n = s.
Proof. intros Hs. unfold todo_status. rewrite Hs. by destruct s. Qed.

Lemma project_bindings (g : WorkGraphSnapshot) (bs : list CompatTodoBinding) (its : list TodoItem) :
  Forall2 (fun b i => legacy_id b = item_id i) bs its ->
  Forall2 (row_shows todo_node (fun i => trim (content i)) (fun i => todo_node_state (status i)) g) bs its ->
  omap (project_item g) bs =
  (fun i => {| item_id := item_id i; content := trim (content i); status := status i |}) <$> its.
Proof.
  intros Hid. induction 1 as [|b i bs its (kind & n & Hn & _ & Ht & Hs) _ IH]; [done|].
  inversion Hid; subst. cbn [omap list_omap]. unfold project_item at 1. rewrite Hn. cbn. rewrite IH by done.
  f_equal. f_equal; [done|done|by apply todo_status_state].
Qed.

Lemma update_todo_graph_projects tool rows s x :
  update_todo_graph clock session tool rows s = Ok x ->
  legacy_id <$> todos (compat x.2.1) = item_id <$> snap_items rows /\
  (NoDup (todo_node <$> todos (compat x.2.1)) ->
   snap_items (project_todos x.2.1) =
   (fun i => {| item_id := item_id i; content := trim (content i); status := status i |}) <$> snap_items rows).
Proof.
  intros E. unfold update_todo_graph in E. inv_edit.
  match goal with L : for_each _ _ _ _ = Ok _ |- _ =>
    apply (for_each_writes _ todo_node (fun i => trim (content i)) (fun i => todo_node_state (status i))
      (fun b i => legacy_id b = item_id i) (update_row_writes tool _ _)) in L as (cs & Hcs & Hids & _ & Hrows) end.
  apply apply_change_Ok in E as (next & E & _ & _ & ->). cbn [snd fst apply_pure] in *. injection E as <-.
  unfold project_todos. cbn [compat committed with_receipt with_compat todos snap_items]. rewrite Hcs. cbn [app]. split.
  - clear -Hids. induction Hids as [|b i bs its Hb _ IH]; [done|]. rewrite !fmap_cons. by f_equal.
  - intros Hnd. exact (project_bindings _ cs _ Hids (Hrows Hnd)).
Qed.
End facts.
