(* ===== verification/WorkRuntimeFacts.v ===== *)
(** * The work graph: what the runtime keeps

    The coherence of the graphs an edit goes through, the projections the
    operations of the runtime leave alone, and the views a graph publishes. *)

From S2P Require Import Text WorkModel WorkValidate WorkGraphs WorkInvariant WorkReducer WorkReducerFacts PlanTodo PlanTodoSpec WorkImport WorkRuntime WorkEditFacts.

(** ** Coherence without the validity of the graph *)

Record settled (g : WorkGraphSnapshot) : Prop := {
  se_revision : 0 <= revision g <= u64_max;
  se_history : forall r, last (history g) = Some r -> receipt_revision r <= revision g;
  se_keys_unique : NoDup (seen_keys g);
  se_keys_bounded : (length (seen_keys g) <= SEEN_KEYS_CAP)%nat }.

Lemma sorted_last {A} (R : A -> A -> Prop) l x y :
  StronglySorted R l -> last l = Some y -> x ∈ l -> x = y \/ R x y.
Proof.
  induction 1 as [|a l Hs IH Hall]; [done|]. destruct l as [|b l].
  - intros [= <-] Hx%list_elem_of_singleton. by left.
  - cbn [last] in *. intros Hl [->|Hx]%elem_of_cons; [|by apply IH]. right. rewrite Forall_forall in Hall.
    by apply Hall, last_Some_elem_of.
Qed.

Lemma settled_coherent g : settled g -> well_formed g -> coherent g.
Proof.
  intros [Hr Hh Hn Hb] Hwf. constructor; [done|done| |done|done]. intros r Hin.
  destruct (last (history g)) as [y|] eqn:El.
  - destruct (sorted_last _ _ _ _ (wf_history_increasing g Hwf) El Hin) as [->|Hlt]; [by apply Hh|].
    specialize (Hh y eq_refl). lia.
  - apply last_None in El. rewrite El in Hin. by apply not_elem_of_nil in Hin.
Qed.

Lemma coherent_settled g : coherent g -> settled g.
Proof.
  intros [Hw Hr Hh Hn Hb]. constructor; [done| |done|done]. intros r Hl. apply Hh. by apply last_Some_elem_of.
Qed.

Section facts.
Context `{Externs}.

Lemma apply_settled g change ctx g' r : settled g -> apply g change ctx = Ok (g', r) -> settled g'.
Proof.
  intros [Hr Hh Hn Hb] [(key & _ & -> & _)|(_ & next & _ & _ & _ & -> & _)]%apply_Ok; [by constructor|].
  assert (Hadd : 0 <= u64_add (revision g) 1 <= u64_max).
  { unfold u64_add, u64_max. pose proof (Z.mod_pos_bound (revision g + 1) (2 ^ 64) ltac:(lia)). lia. }
  constructor; cbn -[seen_after HISTORY_CAP u64_max u64_add]; [done| | |].
  - intros r'. rewrite push_bounded_last. intros [= <-]. done.
  - unfold seen_after. destruct (idempotency_key ctx); [|done].
    apply insert_bounded_inv; [unfold SEEN_KEYS_CAP; lia|done..].
  - unfold seen_after. destruct (idempotency_key ctx); [|done].
    apply insert_bounded_inv; [unfold SEEN_KEYS_CAP; lia|done..].
Qed.

(** ** Edits keep what changes keep *)

Section preserved.
Context (P : WorkGraphSnapshot -> Prop)
  (HP : forall g change ctx g' r, P g -> apply g change ctx = Ok (g', r) -> P g').

Class Preserves {A} (m : Edit A) : Prop := preserves : forall s x, P s.1 -> m s = Ok x -> P x.2.1.

#[local] Typeclasses Opaque for_each apply_change patch_existing_node upsert_node ensure_contains tool_node
  ensure_objective deactivate_projected_todos update_step update_row update_own_row get_graph lift fail now_ms.

#[local] Instance preserves_ret {A} (a : A) : Preserves (mret a).
Proof. by intros s x Hs [= <-]. Qed.
#[local] Instance preserves_bind {A B} (m : Edit A) (f : A -> Edit B) :
  Preserves m -> (forall a, Preserves (f a)) -> Preserves (a ← m; f a).
Proof. intros Hm Hf s x Hs (a & s' & Ea & Eb)%edit_bind_Ok. eapply Hf; [|exact Eb]. exact (Hm _ _ Hs Ea). Qed.
#[local] Instance preserves_graph : Preserves get_graph.
Proof. by intros s x Hs [= <-]. Qed.
#[local] Instance preserves_fail {A} e : @Preserves A (fail e).
Proof. done. Qed.
#[local] Instance preserves_lift {A} (r : result str A) : Preserves (lift r).
Proof. by intros s x Hs (a & _ & ->)%lift_Ok. Qed.
#[local] Instance preserves_now clock : Preserves (now_ms clock).
Proof. by intros s x Hs [= <-]. Qed.
#[local] Instance preserves_if {A} (b : bool) (m k : Edit A) : Preserves m -> Preserves k -> Preserves (if b then m else k).
Proof. intros ? ?. by destruct b. Qed.
#[local] Instance preserves_for_each {A B} (step : B -> A -> Edit B) b l :
  (forall b a, Preserves (step b a)) -> Preserves (for_each step b l).
Proof.
  intros Hstep s x. revert b s. induction l as [|a l IH]; intros b s Hs; cbn [for_each]; [by intros [= <-]|].
  intros (b' & s' & Ea & Eb)%edit_bind_Ok. eapply IH; [|exact Eb]. exact (Hstep _ _ _ _ Hs Ea).
Qed.

#[local] Instance preserves_change clock session tool change : Preserves (apply_change clock session tool change).
Proof.
  intros [g t] x Hs E. unfold apply_change in E. inv_edit. injection E as <-. destruct a as [g' r]. exact (HP _ _ _ _ _ Hs E0).
Qed.

#[local] Instance preserves_patch clock session tool id title state :
  Preserves (patch_existing_node clock session tool id title state).
Proof. unfold patch_existing_node. apply _. Qed.
#[local] Instance preserves_upsert clock session tool n : Preserves (upsert_node clock session tool n).
Proof.
  unfold upsert_node. apply preserves_bind; [apply _|]. intros g. destruct (node g (node_id n)); apply _.
Qed.
#[local] Instance preserves_contains clock session tool parent child :
  Preserves (ensure_contains clock session tool parent child).
Proof. unfold ensure_contains. apply _. Qed.
#[local] Instance preserves_tool_node clock id kind title state provenance :
  Preserves (tool_node clock id kind title state provenance).
Proof. unfold tool_node. apply _. Qed.
#[local] Instance preserves_objective clock session tool plan : Preserves (ensure_objective clock session tool plan).
Proof. unfold ensure_objective. apply _. Qed.
#[local] Instance preserves_deactivate clock session tool : Preserves (deactivate_projected_todos clock session tool).
Proof. unfold deactivate_projected_todos. apply _. Qed.

#[local] Instance preserves_step clock session tool objective order indexed :
  Preserves (update_step clock session tool objective order indexed).
Proof. destruct indexed. unfold update_step. apply _. Qed.
#[local] Instance preserves_row clock session tool objective order bindings item :
  Preserves (update_row clock session tool objective order bindings item).
Proof.
  unfold update_row. apply preserves_bind; [apply _|]. intros g.
  destruct (todo_alias g order item) as [[index id]|]; [apply _|]. unfold update_own_row. apply _.
Qed.

Lemma preserves_plan clock session tool plan : Preserves (update_plan_graph clock session tool plan).
Proof. unfold update_plan_graph. apply _. Qed.

Lemma preserves_todo clock session tool rows : Preserves (update_todo_graph clock session tool rows).
Proof. unfold update_todo_graph. apply _. Qed.

Lemma preserves_operation clock session intent : Preserves (add_operation clock session intent).
Proof.
  unfold add_operation. apply preserves_bind; [|intros; apply _]. unfold operation_parent.
  apply preserves_bind; [apply _|]. intros g. destruct (or_else _ _); apply _.
Qed.

Lemma preserves_approval clock session ext reference source call_id operation :
  Preserves (add_approval clock session ext reference source call_id operation).
Proof. unfold add_approval. apply _. Qed.

Lemma preserves_effort clock session requested effective kind provider endpoint model :
  Preserves (record_effort clock session requested effective kind provider endpoint model).
Proof.
  intros [g t] x Hs E. unfold record_effort in E. inv_edit. injection E as <-.
  match goal with R : WorkGraphSnapshot * ChangeReceipt |- _ => destruct R as [g' r] end.
  match goal with E : apply _ _ _ = Ok _ |- _ => exact (HP _ _ _ _ _ Hs E) end.
Qed.
End preserved.

(** ** Projections *)

(** The legacy presentation and its plan steps are as they were. *)
Definition stable (g g' : WorkGraphSnapshot) : Prop :=
  compat g' = compat g /\
  forall id n, node g id = Some n -> node_kind n = NodeKind.PlanStep ->
  exists n', node g' id = Some n' /\ node_kind n' = NodeKind.PlanStep /\ node_title n' = node_title n /\
    node_state n' = node_state n.

#[export] Instance stable_preorder : PreOrder stable.
Proof.
  split.
  - intros g. split; [done|]. intros id n Hn Hk. by exists n.
  - intros g1 g2 g3 [Hc1 H1] [Hc2 H2]. split; [congruence|]. intros id n Hn Hk.
    destruct (H1 id n Hn Hk) as (n2 & Hn2 & Hk2 & Ht2 & Hs2). destruct (H2 id n2 Hn2 Hk2) as (n3 & Hn3 & Hk3 & Ht3 & Hs3).
    exists n3. split_and!; [done|done|congruence..].
Qed.

Lemma touches_stable ids g g' :
  touches ids g g' -> (forall id n, id ∈ ids -> node g id = Some n -> node_kind n <> NodeKind.PlanStep) -> stable g g'.
Proof.
  intros [Hc Ht] Hids. split; [done|]. intros id n Hn Hk. exists n. split; [|done]. apply Ht; [|done].
  intros Hin. by apply (Hids id n Hin Hn).
Qed.

Lemma touches_none_stable g g' : touches [] g g' -> stable g g'.
Proof. intros Ht. eapply touches_stable; [exact Ht|]. by intros id n ?%not_elem_of_nil. Qed.

Lemma stable_plan g g' : stable g g' -> well_formed g -> project_plan g' = project_plan g.
Proof.
  intros [Hc Hn] Hwf. unfold project_plan. rewrite Hc. f_equal. pose proof (wf_plan_order g Hwf) as [_ Hp].
  induction (plan_order (compat g)) as [|id ids IH]; [done|]. cbn [omap list_omap].
  destruct (Hp id) as (n & E & Hk); [by left|]. destruct (Hn id n E Hk) as (n' & E' & _ & Ht & Hs).
  rewrite E, E'. cbn. f_equal; [by unfold plan_status; rewrite Ht, Hs|]. apply IH. intros i Hi. apply Hp. by right.
Qed.

Lemma stable_todos g g' : stable g g' -> well_formed g -> project_todos g' = project_todos g.
Proof.
  intros [Hc Hn] Hwf. unfold project_todos. rewrite Hc.
  assert (Hi : omap (project_item g') (todos (compat g)) = omap (project_item g) (todos (compat g))).
  { pose proof (wf_todos g Hwf) as Hp. induction (todos (compat g)) as [|b bs IH]; [done|]. cbn [omap list_omap].
    destruct (Hp b) as (_ & (n & E & Hk) & _); [by left|]. destruct (Hn _ n E Hk) as (n' & E' & _ & Ht & Hs).
    assert (Hb : project_item g' b = project_item g b).
    { unfold project_item. rewrite E, E'. cbn. unfold todo_status. by rewrite Ht, Hs. }
    rewrite Hb, IH; [done|]. intros i Hi. apply Hp. by right. }
  by rewrite Hi.
Qed.

(** ** Operations leave the projections alone *)

Lemma operation_parent_stable clock session source s x :
  operation_parent clock session source s = Ok x -> stable s.1 x.2.1.
Proof.
  intros E. unfold operation_parent in E. inv_edit. destruct (or_else _ _); inv_edit; injection E as <-; [done|].
  match goal with E : apply_change _ _ _ _ _ = Ok _ |- _ => apply apply_change_Ok in E as (next & E & _ & _ & [= -> ->]) end.
  apply touches_none_stable. cbn [apply_pure] in *.
  match goal with E : add_node _ _ = Ok _ |- _ => exact (proj2 (add_node_shows _ _ _ E)) end.
Qed.

Lemma add_operation_stable clock session intent s x :
  add_operation clock session intent s = Ok x ->
  stable s.1 x.2.1 /\
  exists n, node x.2.1 x.1 = Some n /\ node_kind n = NodeKind.Operation /\
    node_state n = NodeState.Initializing /\ node_acceptance n = intent_acceptance intent /\
    node_binding n = Some {| external := intent_external intent; durable := intent_durable intent;
                             last_observation := None |}.
Proof.
  intros E. unfold add_operation in E. inv_edit. injection E as <-.
  set (id := WorkNodeId_derive session _) in *.
  match goal with E : operation_parent _ _ _ _ = Ok _ |- _ => apply operation_parent_stable in E as Hpar end.
  match goal with E : apply_change _ _ _ _ _ = Ok _ |- _ =>
    apply apply_change_Ok in E as (next & E & _ & _ & [= -> ->]); apply add_node_shows in E as [Hnode Hadd] end.
  match goal with E : ensure_contains _ _ _ _ _ _ = Ok _ |- _ => apply ensure_contains_touches in E as Hcon end.
  match goal with E : patch_existing_node _ _ _ _ _ _ _ = Ok _ |- _ =>
    apply patch_existing_Ok in E as (m & m' & Hm & Hm' & Hk & _ & Hs & Ha & Hb & Hto) end.
  cbn [fst snd node_id] in *. pose proof (proj2 Hcon id _ (not_elem_of_nil _) Hnode) as Hop. rewrite Hm in Hop. injection Hop as ->.
  split; [|by exists m'].
  transitivity s0.1; [done|]. transitivity next; [by apply touches_none_stable|].
  etransitivity; [apply touches_none_stable, Hcon|]. eapply touches_stable; [exact Hto|].
  intros i n ->%list_elem_of_singleton Hn. rewrite Hm in Hn. by injection Hn as <-.
Qed.

Lemma add_approval_stable clock session ext reference source call_id operation s x :
  add_approval clock session ext reference source call_id operation s = Ok x -> stable s.1 x.2.1.
Proof.
  intros E. unfold add_approval in E. set (id := WorkNodeId_derive session _) in *.
  apply edit_bind_Ok in E as (g & s0 & [= <- <-] & E). apply edit_bind_Ok in E as (u & s1 & E1 & E).
  transitivity s1.1.
  - destruct (opt_is_none (node s.1 id)); [|by injection E1 as <- <-]. inv_edit.
    match goal with E : apply_change _ _ _ _ _ = Ok _ |- _ => apply apply_change_Ok in E as (next & E & _ & _ & [= -> ->]) end.
    apply touches_none_stable. cbn [apply_pure fst snd] in *.
    match goal with E : add_node _ _ = Ok _ |- _ => exact (proj2 (add_node_shows _ _ _ E)) end.
  - inv_edit. destruct (opt_is_none (edge _ _)); [|by injection E as <-].
    apply apply_change_Ok in E as (next & E & _ & _ & ->). apply touches_none_stable. exact (add_edge_touches _ _ _ E).
Qed.

Lemma record_effort_stable clock session requested effective kind provider endpoint model s x :
  record_effort clock session requested effective kind provider endpoint model s = Ok x -> stable s.1 x.2.1.
Proof.
  intros E. unfold record_effort in E. inv_edit. injection E as <-.
  match goal with R : WorkGraphSnapshot * ChangeReceipt |- _ => destruct R as [g' r] end.
  match goal with E : apply _ _ _ = Ok _ |- _ => apply apply_no_key_Ok in E as (next & E & _ & _ & -> & _); [|done]; rename E into Ea end.
  cbn [apply_pure] in Ea. unfold record_activity in Ea. apply bind_Ok in Ea as (_ & _ & [= <-]). by apply touches_none_stable.
Qed.

(** ** Observations *)

Lemma bound_node_Some g ext n :
  bound_node g ext = Some n -> n ∈ nodes g /\ exists b, node_binding n = Some b /\ external b = ext.
Proof.
  intros [Hn Hb]%find_Some. split; [done|]. destruct (node_binding n) as [b|]; [|done]. apply bool_decide_eq_true in Hb. by exists b.
Qed.

(** A reconciliation that is not a duplicate is one change of the reducer. *)
Lemma reconcile_with_apply base session n obs key t g' :
  reconcile_with base session n obs key t = Ok (Some g') ->
  exists ctx r, apply base (ReconcileOperation (node_id n) obs) ctx = Ok (g', r) /\ no_op r = false /\ now ctx = t.
Proof.
  intros E. unfold reconcile_with in E. apply bind_Ok in E as ([next r] & Ea%map_err_Ok & E).
  destruct (no_op r) eqn:Er; [done|]. injection E as ->. by eexists _, r.
Qed.

(** It gives one node another state, binding and time. *)
Lemma apply_reconcile g id obs ctx g' r :
  apply g (ReconcileOperation id obs) ctx = Ok (g', r) -> no_op r = false ->
  exists n b, node g id = Some n /\ node_binding n = Some b /\ compat g' = compat g /\ NoDup (node_id <$> nodes g') /\
    forall i, node g' i =
      if decide (i = id) then Some (restated n (reconciled_state (node_state n) obs) (Some (observed_binding b obs)) (now ctx))
      else node g i.
Proof.
  intros [(k & _ & _ & ->)|(_ & next & Ep & Hwf & _ & -> & _)]%apply_Ok Hr; [done|].
  cbn [apply_pure] in Ep. unfold reconcile in Ep. apply bind_Ok in Ep as (n & Hn%ok_or_Ok & (b & Hb%ok_or_Ok & [= <-])%bind_Ok).
  exists n, b. split; [done|]. split; [done|]. split; [done|]. split; [apply Hwf|].
  intros i. rewrite committed_node, node_replace by (by apply node_Some in Hn as [_ ?]). case_decide as Hi; [|done].
  subst i. by rewrite Hn.
Qed.

Lemma apply_observation_apply base session ext obs t g' :
  apply_observation_to_snapshot base session ext obs t = Ok (Some g') ->
  exists n ctx r, bound_node base ext = Some n /\
    apply base (ReconcileOperation (node_id n) obs) ctx = Ok (g', r) /\ no_op r = false /\ now ctx = t.
Proof.
  intros E. unfold apply_observation_to_snapshot in E. apply bind_Ok in E as (n & Hn%ok_or_Ok & E).
  assert (Hk : exists key, reconcile_with base session n obs key t = Ok (Some g')).
  { destruct obs as [st seq at_ output|checked|outcome at_]; [|case_bool_decide; [done|by eauto]|by eauto].
    apply bind_Ok in E as (v & _ & E). destruct v; [done|by eauto..]. }
  destruct Hk as [key (ctx & r & Ha & Hr & Ht)%reconcile_with_apply]. by exists n, ctx, r.
Qed.

Lemma apply_observation_Some base session ext obs t g' :
  apply_observation_to_snapshot base session ext obs t = Ok (Some g') -> well_formed base ->
  exists n b, bound_node base ext = Some n /\ node_binding n = Some b /\
    node g' (node_id n) = Some (restated n (reconciled_state (node_state n) obs) (Some (observed_binding b obs)) t) /\
    touches [node_id n] base g' /\ exists change ctx r, apply base change ctx = Ok (g', r).
Proof.
  intros (n & ctx & r & Hn & Ha & Hr & Ht)%apply_observation_apply Hwf.
  pose proof (bound_node_Some _ _ _ Hn) as [Hin _]. pose proof (node_of_member base n (wf_node_ids base Hwf) Hin) as Hnn.
  destruct (apply_reconcile _ _ _ _ _ _ Ha Hr) as (n' & b & Hn' & Hb & Hc & _ & Hg). rewrite Hnn in Hn'. injection Hn' as <-.
  exists n, b. split; [done|]. split; [done|]. split; [by rewrite Hg, decide_True, Ht|]. split; [|by eauto].
  split; [done|]. intros i m Hi Hm. rewrite Hg, decide_False; [done|set_solver].
Qed.

Lemma apply_observation_stable base session ext obs t g' :
  apply_observation_to_snapshot base session ext obs t = Ok (Some g') -> well_formed base -> stable base g'.
Proof.
  intros E Hwf. destruct (apply_observation_Some _ _ _ _ _ _ E Hwf) as (n & b & Hn & Hb & _ & Ht & _).
  apply bound_node_Some in Hn as [Hin _]. eapply touches_stable; [exact Ht|].
  intros i m ->%list_elem_of_singleton Hm. rewrite (node_of_member base n (wf_node_ids base Hwf) Hin) in Hm. simplify_eq.
  rewrite (wf_bindings base Hwf m Hin) by (by rewrite Hb). done.
Qed.
End facts.
