(* ===== verification/WorkRuntimeSpec.v ===== *)
(** * Properties of the session runtime

    Every runtime a session can reach holds a coherent graph whose views can be
    published; a saved session restores to itself; operations without a durable
    owner do not survive a restart; what an owner reports never runs backwards;
    and plan and To-do updates take effect. *)

From S2P Require Import Text WorkModel WorkValidate WorkGraphs WorkInvariant WorkReducer WorkReducerFacts PlanTodo PlanTodoSpec WorkImport WorkRuntime WorkEditFacts WorkRuntimeFacts WorkSpec.

(** ** Views *)

Definition normal_plan (p : PlanSnapshot) : Prop :=
  {| plan_meta := clean_metadata (plan_meta p); plan_items := clean_items false (plan_items p) |} = p.

Lemma plan_from_snapshot_normal p t :
  plan_snapshot (plan_from_snapshot p t) =
  {| plan_meta := clean_metadata (plan_meta p); plan_items := clean_items false (plan_items p) |}.
Proof. unfold plan_from_snapshot, plan_update, plan_snapshot. cbn [state_meta steps]. by rewrite new_steps_items. Qed.

Lemma from_snapshot_snapshot s l :
  from_snapshot s = Ok l ->
  todo_snapshot l = {| snap_items := snap_items s; completion_pct := completion_of (snap_items s);
                       snap_in_progress_id := in_progress_of (snap_items s) |}.
Proof. intros (_ & _ & _ & _ & ->)%from_snapshot_Ok. done. Qed.

(** The views of the graph can be published. *)
Record publishable (g : WorkGraphSnapshot) : Prop := {
  pb_well_formed : well_formed g;
  pb_plan : normal_plan (project_plan g);
  pb_todos : is_ok (from_snapshot (project_todos g)) = true }.

Section spec.
Context `{Externs, LegacyJson}.

Lemma validated_Ok g u : validated g = Ok u <-> well_formed g.
Proof. unfold validated. by rewrite map_err_Ok, validate_Ok. Qed.

Lemma validate_combined_Ok g plan rows u :
  validate_combined g plan rows = Ok u <->
  well_formed g /\ plan = project_plan g /\ rows = project_todos g /\ is_ok (from_snapshot rows) = true.
Proof.
  unfold validate_combined. destruct u. rewrite !seq_Ok, validated_Ok, !reject_if_Ok, !bool_decide_eq_false.
  destruct (from_snapshot rows); cbn; split; intros (? & E1 & E2 & ?); split_and!; try done; try (intros ?; congruence).
  all: apply dec_stable; intros ?; by (apply E1 || apply E2).
Qed.

Lemma derived_views_Ok env g p l :
  derived_views env g = Ok (p, l) <->
  publishable g /\ p = plan_from_snapshot (project_plan g) (instant env) /\ from_snapshot (project_todos g) = Ok l.
Proof.
  unfold derived_views. cbn zeta. rewrite bind_Ok. setoid_rewrite seq_Ok. setoid_rewrite validate_combined_Ok.
  rewrite plan_from_snapshot_normal. split.
  - intros (l' & El & (Hwf & Hp & Ht & Hok) & [= <- <-]). split; [|done]. constructor; [done|done|by rewrite El].
  - intros ([Hwf Hp Ht] & -> & El). exists l. split; [done|]. split; [|done].
    rewrite (from_snapshot_snapshot _ _ El). split_and!; [done|done|done|].
    change {| snap_items := _ |} with (project_todos g). by rewrite El.
Qed.

Lemma stable_publishable g g' : stable g g' -> well_formed g' -> publishable g -> publishable g'.
Proof.
  intros Hs Hwf' [Hwf Hp Ht]. constructor; [done| |].
  - by rewrite (stable_plan _ _ Hs).
  - by rewrite (stable_todos _ _ Hs).
Qed.

Lemma publishable_new : publishable new.
Proof. constructor; [apply well_formed_new|done|by vm_compute]. Qed.

(** ** The invariant of the runtime *)

Record runtime_ok (rt : WorkRuntime) : Prop := {
  rk_graph : forall g, active_snapshot (rt_active rt) = Some g -> coherent g /\ publishable g;
  rk_fresh : active_snapshot (rt_active rt) = None ->
    items (rt_todos rt) = [] /\ plan_snapshot_is_empty (plan_snapshot (rt_plan rt)) = true /\
    pending_publish (rt_active rt) = false;
  rk_views : forall g, active_snapshot (rt_active rt) = Some g -> pending_publish (rt_active rt) = false ->
    plan_snapshot (rt_plan rt) = project_plan g /\ todo_snapshot (rt_todos rt) = project_todos g }.

Lemma empty_plan p : plan_snapshot_is_empty p = true -> p = project_plan new.
Proof.
  destruct p as [[o1 o2 o3 o4 s1 s2 s3 o5 o6 o7 o8] its]. unfold plan_snapshot_is_empty, plan_metadata_is_empty. cbn.
  rewrite !andb_true_iff. intros H'. destruct_and?.
  by repeat match goal with
  | H : opt_is_none ?o = true |- _ => destruct o; [discriminate H|clear H]
  | H : is_nil ?l = true |- _ => destruct l; [clear H|discriminate H]
  end.
Qed.

Lemma empty_todos l : items l = [] -> todo_snapshot l = project_todos new.
Proof. destruct l as [its n]. cbn. by intros ->. Qed.

Lemma fresh_ok : runtime_ok (new_shared_work_runtime todo_new default_plan).
Proof. by constructor. Qed.

Lemma commit_ok rt next : coherent next -> publishable next -> runtime_ok (commit rt next).
Proof. intros Hc Hp. constructor; cbn; [by intros g [= <-]|done|done]. Qed.

(** The graph an update starts from. *)
Lemma graph_for_update_ok rt session a base :
  runtime_ok rt ->
  graph_for_update (rt_active rt) session (plan_snapshot (rt_plan rt)) (todo_snapshot (rt_todos rt)) = (a, base) ->
  runtime_ok (with_active rt a) /\ exists g, base = Ok g /\ coherent g /\ publishable g /\
    active_snapshot a = Some g /\ pending_publish a = pending_publish (rt_active rt).
Proof.
  intros [Hg Hf Hv] E. unfold graph_for_update in E. cbn [active_snapshot pending_publish] in E.
  destruct (active_snapshot (rt_active rt)) as [g|] eqn:Es.
  - destruct (Hg g eq_refl) as [Hc Hp]. rewrite (proj2 (validated_Ok g tt)) in E by apply Hp. injection E as <- <-.
    split; [|exists g; by split_and!]. constructor; cbn; [by intros ? [= <-]|done|]. intros ? [= <-]. by apply Hv.
  - destruct (Hf eq_refl) as (Hi & He & Hpend). rewrite He in E.
    cbn [todo_snapshot snap_items] in E. rewrite Hi in E. cbn in E. injection E as <- <-.
    split; [|exists new; split_and!; [done|apply coherent_new|apply publishable_new|done|done]].
    constructor; cbn; [intros ? [= <-]; split; [apply coherent_new|apply publishable_new]|done|].
    intros ? [= <-] _. split; [by apply empty_plan|by apply empty_todos].
Qed.

Lemma with_graph_ok {A} rt session (k : WorkGraphSnapshot -> result str (A * option WorkGraphSnapshot)) :
  runtime_ok rt ->
  (forall base x next, coherent base -> publishable base -> k base = Ok (x, Some next) -> coherent next /\ publishable next) ->
  runtime_ok (with_graph rt session k).1.
Proof.
  intros Hok Hk. unfold with_graph. destruct (graph_for_update _ _ _ _) as [a base] eqn:E.
  destruct (graph_for_update_ok _ _ _ _ Hok E) as (Ha & g & -> & Hc & Hp & _). cbn.
  destruct (k g) as [[x [next|]]|e] eqn:Ek; [|done|done]. destruct (Hk _ _ _ Hc Hp Ek). by apply commit_ok.
Qed.

Lemma with_views_ok {A} env rt what (k : WorkRuntime * result str A) :
  runtime_ok rt -> runtime_ok k.1 -> runtime_ok (with_views env rt what k).1.
Proof. intros Hrt Hk. unfold with_views. by destruct (negb (todos_free env)), (negb (plan_free env)). Qed.

Lemma projected_Ok {A} (m : Edit A) base x next :
  projected (m (base, 0%nat)) = Ok (x, Some next) ->
  (forall s y, m s = Ok y -> stable s.1 y.2.1) -> Preserves settled m ->
  coherent base -> publishable base -> coherent next /\ publishable next.
Proof.
  intros E Hst Hpr Hc Hp. unfold projected in E. apply bind_Ok in E as ([y [next' t]] & Em & E).
  apply seq_Ok in E as [(Hwf & _)%validate_combined_Ok [= -> ->]].
  split; [apply settled_coherent; [|done]|].
  - exact (Hpr (base, 0%nat) _ (coherent_settled _ Hc) Em).
  - eapply stable_publishable; [exact (Hst (base, 0%nat) _ Em)|done|done].
Qed.

(** ** Every call keeps the invariant *)

Lemma register_ok env rt session intent : runtime_ok rt -> runtime_ok (register_operation env rt session intent).1.
Proof.
  intros Hok. unfold register_operation. destruct (negb _); [done|]. apply with_views_ok; [done|].
  apply with_graph_ok; [done|]. intros base x next Hc Hp E.
  destruct (bound_node base (intent_external intent)); [by destruct (bool_decide _)|].
  eapply (projected_Ok (add_operation (clock env) session intent)); [exact E| |apply preserves_operation|done|done].
  - intros s y Ey. exact (proj1 (add_operation_stable _ _ _ _ _ Ey)).
  - exact apply_settled.
Qed.

Lemma approval_ok env rt session ext reference source call_id :
  runtime_ok rt -> runtime_ok (record_operation_approval env rt session ext reference source call_id).1.
Proof.
  intros Hok. unfold record_operation_approval. apply with_views_ok; [done|].
  apply with_graph_ok; [done|]. intros base x next Hc Hp (operation & _ & E)%bind_Ok.
  eapply (projected_Ok (add_approval (clock env) session ext reference source call_id operation));
    [exact E| |apply preserves_approval|done|done]; [|exact apply_settled].
  intros s y Ey. by eapply add_approval_stable.
Qed.

Lemma effort_ok env rt session requested effective kind provider endpoint model :
  runtime_ok rt ->
  runtime_ok (record_reasoning_effort_change env rt session requested effective kind provider endpoint model).1.
Proof.
  intros Hok. unfold record_reasoning_effort_change. apply with_views_ok; [done|].
  apply with_graph_ok; [done|]. intros base x next Hc Hp E.
  eapply (projected_Ok (record_effort (clock env) _ requested effective kind provider endpoint model));
    [exact E| |apply preserves_effort|done|done]; [|exact apply_settled].
  intros s y Ey. by eapply record_effort_stable.
Qed.

Lemma plan_update_ok env rt session tool plan : runtime_ok rt -> runtime_ok (apply_plan_update env rt session tool plan).1.
Proof.
  intros Hok. unfold apply_plan_update. apply with_graph_ok; [done|]. intros base x next Hc Hp E.
  apply bind_Ok in E as ([u [next' t]] & Em & ([p l] & Hd & [= <- ->])%bind_Ok).
  apply derived_views_Ok in Hd as (Hp' & _). split; [|done]. apply settled_coherent; [|apply Hp'].
  exact (preserves_plan settled apply_settled _ _ _ _ (base, 0%nat) _ (coherent_settled _ Hc) Em).
Qed.

Lemma todo_update_ok env rt session tool rows : runtime_ok rt -> runtime_ok (apply_todo_update env rt session tool rows).1.
Proof.
  intros Hok. unfold apply_todo_update. apply with_graph_ok; [done|]. intros base x next Hc Hp E.
  apply bind_Ok in E as ([u [next' t]] & Em & ([p l] & Hd & [= <- ->])%bind_Ok).
  apply derived_views_Ok in Hd as (Hp' & _). split; [|done]. apply settled_coherent; [|apply Hp'].
  exact (preserves_todo settled apply_settled _ _ _ _ (base, 0%nat) _ (coherent_settled _ Hc) Em).
Qed.

(** Publishing what a graph projects: it cannot fail. *)
Lemma publish_ok env rt :
  runtime_ok rt ->
  runtime_ok (publish_pending env rt).1 /\ (publish_pending env rt).2 = Ok (pending_publish (rt_active rt)) /\
  pending_publish (rt_active (publish_pending env rt).1) = false /\
  active_snapshot (rt_active (publish_pending env rt).1) = active_snapshot (rt_active rt).
Proof.
  intros Hok. unfold publish_pending. destruct (pending_publish (rt_active rt)) eqn:Ep; cbn [negb]; [|done].
  destruct (active_snapshot (rt_active rt)) as [g|] eqn:Es; cbn [ok_or mbind result_bind].
  - destruct (rk_graph rt Hok g Es) as [Hc Hp]. destruct (from_snapshot (project_todos g)) as [l|e] eqn:El.
    2: { pose proof (pb_todos g Hp) as Ht. by rewrite El in Ht. }
    rewrite (proj2 (derived_views_Ok env g _ l)) by done. split; [|done].
    constructor; cbn; [by intros ? [= <-]|done|]. intros ? [= <-] _.
    rewrite plan_from_snapshot_normal, (from_snapshot_snapshot _ _ El). split; [apply Hp|done].
  - destruct (rk_fresh rt Hok Es) as (_ & _ & Hf). congruence.
Qed.

Lemma capture_ok env rt session :
  runtime_ok rt -> todos_free env = true -> plan_free env = true ->
  runtime_ok (capture env rt session).1 /\
  ((capture env rt session).2 = Ok None \/
   exists g, (capture env rt session).2 =
     Ok (Some {| captured_graph := g; captured_todos := project_todos g; captured_plan := project_plan g |}) /\
     active_snapshot (rt_active (capture env rt session).1) = Some g).
Proof.
  intros Hok Hft Hfp. unfold capture, with_views. rewrite Hft, Hfp. cbn [negb].
  set (empty := is_nil _ && _ && _). destruct empty eqn:Ee; [by split; [|left]|].
  destruct (graph_for_update _ _ _ _) as [a base] eqn:E.
  destruct (graph_for_update_ok _ _ _ _ Hok E) as (Ha & g & -> & Hc & Hp & Hsa & Hpa). cbn.
  rewrite (proj2 (validate_combined_Ok g _ _ tt)) by (split_and!; try done; apply Hp). cbn.
  assert (Hd : negb (opt_is_none (active_snapshot (rt_active rt))) && negb (pending_publish (rt_active rt)) &&
    (bool_decide (project_plan g <> plan_snapshot (rt_plan rt)) || bool_decide (project_todos g <> todo_snapshot (rt_todos rt))) = false).
  { destruct (active_snapshot (rt_active rt)) as [g0|] eqn:Es; [|done].
    destruct (pending_publish (rt_active rt)) eqn:Epp; [done|]. cbn.
    destruct (rk_views _ Ha g Hsa ltac:(cbn; congruence)) as [Hv1 Hv2]. cbn in Hv1, Hv2. rewrite Hv1, Hv2.
    by rewrite !bool_decide_eq_false_2 by (intros []; done). }
  rewrite Hd. cbn. split; [|right; by exists g].
  constructor; cbn; [by intros ? [= <-]|done|]. intros ? [= <-] [_ Hpend]%orb_false_iff.
  exact (rk_views _ Ha g Hsa Hpend).
Qed.

(** The revision counter has room for one change per node. *)
Definition room (rt : WorkRuntime) : Prop :=
  forall g, active_snapshot (rt_active rt) = Some g -> revision g + zlen (nodes g) < u64_max.

Lemma observation_ok base session ext obs t g' :
  coherent base -> publishable base -> revision base < u64_max ->
  apply_observation_to_snapshot base session ext obs t = Ok (Some g') ->
  coherent g' /\ publishable g' /\ revision g' <= revision base + 1.
Proof.
  intros Hc Hp Hr E. pose proof (pb_well_formed _ Hp) as Hwf.
  destruct (apply_observation_Some _ _ _ _ _ _ E Hwf) as (n & b & _ & _ & _ & _ & change & ctx & r & Ea).
  destruct (apply_coherent _ _ _ _ _ Hc Hr Ea) as [Hc' Hr']. split; [done|]. split; [|done].
  eapply stable_publishable; [by eapply apply_observation_stable|apply Hc'|done].
Qed.

Lemma observe_ok env rt session ext obs :
  runtime_ok rt -> room rt -> runtime_ok (reconcile_observation env rt session ext obs).1.
Proof.
  intros Hok Hroom. unfold reconcile_observation. destruct (other_session _ _); [done|].
  destruct (active_snapshot (rt_active rt)) as [g|] eqn:Es; cbn [ok_or mbind result_bind]; [|done].
  destruct (apply_observation_to_snapshot _ _ _ _ _) as [[next|]|e] eqn:E; [|done|done].
  destruct (rk_graph rt Hok g Es) as [Hc Hp]. specialize (Hroom g Es). pose proof (zlen_nonneg (nodes g)).
  destruct (observation_ok _ _ _ _ _ _ Hc Hp ltac:(lia) E) as (Hc' & Hp' & _). by apply commit_ok.
Qed.

Lemma reconcile_candidates_ok clock session owners t candidates g changed reading st :
  coherent g -> publishable g -> revision g + zlen candidates < u64_max ->
  foldM (reconcile_candidate clock session owners t) (g, changed, reading) candidates = Ok st ->
  coherent st.1.1 /\ publishable st.1.1.
Proof.
  revert g changed reading. induction candidates as [|ext candidates IH]; intros g changed reading Hc Hp Hr E; cbn [foldM] in E.
  { by injection E as <-. }
  apply bind_Ok in E as ([[g' c'] r'] & E1 & E). unfold zlen in *. cbn [length] in Hr.
  assert (Hg : coherent g' /\ publishable g' /\ revision g' <= revision g + 1).
  { unfold reconcile_candidate in E1. destruct (workspace_observation owners t ext) as [obs|]; [|injection E1 as <- <- <-; split_and!; [done|done|lia]].
    apply bind_Ok in E1 as ([next|] & En & [= <- <- <-]); [|split_and!; [done|done|lia]].
    apply (observation_ok _ _ _ _ _ _ Hc Hp ltac:(lia) En). }
  destruct Hg as (Hc' & Hp' & Hr'). eapply IH; [done|done| |exact E]. lia.
Qed.

Lemma omap_length {A B} (f : A -> option B) (l : list A) : (length (omap f l) <= length l)%nat.
Proof. change (omap f l) with (list_omap A B f l). induction l as [|x l IH]; [done|]. cbn. destruct (f x); cbn; lia. Qed.

Lemma reconcile_workspace_ok clock reading g session owners g' changed :
  coherent g -> publishable g -> revision g + zlen (nodes g) < u64_max ->
  reconcile_workspace_snapshot clock reading g session owners = Ok (g', changed) -> coherent g' /\ publishable g'.
Proof.
  intros Hc Hp Hr E. unfold reconcile_workspace_snapshot in E.
  assert (Hlen : (length (workspace_candidates g) <= length (nodes g))%nat).
  { unfold workspace_candidates, durable_bindings. etransitivity; [apply retain_length|apply omap_length]. }
  destruct (workspace_candidates g) as [|ext candidates] eqn:Ec; [by injection E as <- <-|].
  destruct (foldM _ _ _) as [[[g'' c] r]|e] eqn:Ef; [|done]. injection E as <- <-.
  apply reconcile_candidates_ok in Ef; [done|done|done|]. unfold zlen in *. cbn [length] in *. lia.
Qed.

Lemma workspace_ok env earlier rt session owners :
  runtime_ok earlier -> runtime_ok rt -> room earlier ->
  runtime_ok (reconcile_workspace_owner_bindings env earlier rt session owners).1.
Proof.
  intros He Hok Hroom. unfold reconcile_workspace_owner_bindings.
  destruct (_ ;; _) as [[rev [next changed]]|e] eqn:E; [|done].
  apply seq_Ok in E as [_ (base & Hb%ok_or_Ok & ([g' c] & Er & [= <- <- <-])%bind_Ok)%bind_Ok].
  destruct (c =? 0); [done|]. destruct (_ || _); [done|].
  destruct (rk_graph _ He base Hb) as [Hc Hp]. specialize (Hroom base Hb).
  destruct (reconcile_workspace_ok _ _ _ _ _ _ _ Hc Hp Hroom Er). by apply commit_ok.
Qed.

Lemma clear_ok env rt session : runtime_ok rt -> runtime_ok (clear env rt session).1.
Proof.
  intros Hok. unfold clear. destruct (negb _); [done|]. constructor; cbn; [|done|].
  - intros g [= <-]. split; [apply coherent_new|apply publishable_new].
  - by intros g [= <-] _.
Qed.

(** ** Restoring *)

Lemma mark_stale_settled clock session ids st st' :
  settled st.1 -> foldM (mark_stale clock session) st ids = Ok st' -> settled st'.1.
Proof.
  revert st. induction ids as [|id ids IH]; intros [g t] Hs E; cbn [foldM] in E; [by injection E as <-|].
  apply bind_Ok in E as (s & ([g' r] & Ea%map_err_Ok & [= <-])%bind_Ok & E). eapply IH; [|exact E]. by eapply apply_settled.
Qed.

Lemma reconcile_workspace_settled clock reading g session owners g' changed :
  settled g -> reconcile_workspace_snapshot clock reading g session owners = Ok (g', changed) -> settled g'.
Proof.
  intros Hs E. unfold reconcile_workspace_snapshot in E. destruct (workspace_candidates g) as [|ext exts]; [by injection E as <- <-|].
  destruct (foldM _ _ _) as [st|e] eqn:Ef; [|done]. injection E as E.
  assert (Hst : settled st.1.1); [|by rewrite E in Hst].
  revert Ef. apply (foldM_invariant _ (fun st : WorkGraphSnapshot * Z * nat => settled st.1.1)); [|done].
  intros [[g1 c] r] x st' _ Hg1 E1. unfold reconcile_candidate in E1.
  destruct (workspace_observation owners _ x) as [obs|]; [|by injection E1 as <-].
  apply bind_Ok in E1 as ([next|] & En & [= <-]); [|done].
  apply apply_observation_apply in En as (n & ctx & r' & _ & Ea & _). by eapply apply_settled.
Qed.

Lemma restored_graph_Ok env session graph rows plan workspace g' pending :
  restored_graph env session graph rows plan workspace = Ok (g', pending) ->
  well_formed g' /\ is_ok (from_snapshot (project_todos g')) = true /\
  (forall g, graph = Some g -> project_plan g' = plan /\ project_todos g' = rows /\ (settled g -> settled g')).
Proof.
  intros E. unfold restored_graph in E.
  apply bind_Ok in E as (g0 & E0 & E). apply bind_Ok in E as ([[g1 ephemeral] reading] & E1 & E).
  apply bind_Ok in E as ([g2 changed] & E2 & E). apply seq_Ok in E as [_ E].
  apply seq_Ok in E as [(Hwf & _ & _ & Hok)%validate_combined_Ok E]. apply seq_Ok in E as [Hd%reject_if_Ok [= <- <-]].
  split; [done|]. split; [done|]. intros g ->. cbn [opt_is_none negb andb] in Hd. apply orb_false_iff in Hd as [Hd1 Hd2].
  apply bool_decide_eq_false in Hd1, Hd2. split; [by apply dec_stable|]. split; [by apply dec_stable|]. intros Hs.
  apply seq_Ok in E0 as [_ [= <-]].
  assert (Hs1 : settled g1).
  { unfold mark_restored_ephemeral_operations_stale in E1. destruct (ephemeral_operations g) as [|id ids]; [by injection E1 as <- _ _|].
    apply bind_Ok in E1 as ([g1' t] & Ef & [= <- _ _]). exact (mark_stale_settled _ _ _ (g, 0%nat) _ Hs Ef). }
  destruct workspace as [owners|]; [by eapply reconcile_workspace_settled|]. by injection E2 as <- _.
Qed.

(** A session saved by this runtime, or an empty one. *)
Definition restorable (graph : option WorkGraphSnapshot) (rows : TodoListSnapshot) (plan : PlanSnapshot) : Prop :=
  match graph with
  | Some g => coherent g /\ normal_plan plan
  | None => snap_items rows = [] /\ plan_snapshot_is_empty plan = true
  end.

Lemma restored_graph_ok env session graph rows plan workspace g' pending :
  restorable graph rows plan -> restored_graph env session graph rows plan workspace = Ok (g', pending) ->
  coherent g' /\ publishable g'.
Proof.
  intros Hr E. pose proof (restored_graph_Ok _ _ _ _ _ _ _ _ E) as (Hwf & Hok & Hg). destruct graph as [g|].
  - destruct Hr as [Hc Hn]. destruct (Hg g eq_refl) as (Hp & Ht & Hs).
    split; [by apply settled_coherent; [apply Hs, coherent_settled|]|]. constructor; [done|by rewrite Hp|done].
  - destruct Hr as [Hi He]. unfold restored_graph in E. rewrite Hi, He in E. cbn [is_nil andb mbind result_bind] in E.
    assert (Hnew : g' = new); [|subst; split; [apply coherent_new|apply publishable_new]].
    apply bind_Ok in E as ([[g1 ephemeral] reading] & E1 & E). injection E1 as <- _ <-.
    apply bind_Ok in E as ([g2 changed] & E2 & E).
    assert (g2 = new) as -> by (destruct workspace; by injection E2).
    apply seq_Ok in E as [_ E]. apply seq_Ok in E as [_ E]. by apply seq_Ok in E as [_ [= <- _]].
Qed.

Lemma restore_ok env rt session graph rows plan workspace :
  runtime_ok rt -> restorable graph rows plan -> runtime_ok (restore_internal env rt session graph rows plan workspace).1.
Proof.
  intros Hok Hr. unfold restore_internal. destruct (_ ← _; _) as [[[g pending] next_todos]|e] eqn:E; [|done].
  apply bind_Ok in E as ([g' pending'] & Eg & (l & El & [= -> -> ->])%bind_Ok).
  destruct (restored_graph_ok _ _ _ _ _ _ _ _ Hr Eg) as [Hc Hp]. apply with_views_ok; [done|].
  constructor; cbn; [by intros ? [= <-]|done|]. intros ? [= <-] _.
  rewrite plan_from_snapshot_normal, (from_snapshot_snapshot _ _ El). split; [apply Hp|done].
Qed.

(** ** Operations after a restart *)

(** The live operations without a durable owner are among [ids]. *)
Definition ephemeral_in (ids : list WorkNodeId) (g : WorkGraphSnapshot) : Prop :=
  forall i n b, node g i = Some n -> node_binding n = Some b -> durable b = false ->
    NodeState.is_live (node_state n) = true -> i ∈ ids.

Lemma ephemeral_operations_in g : NoDup (node_id <$> nodes g) -> ephemeral_in (ephemeral_operations g) g.
Proof.
  intros Hnd i n b [Hn <-]%node_Some Hb Hd Hl. unfold ephemeral_operations. apply list_elem_of_omap.
  exists n. split; [done|]. rewrite Hb. cbn. by rewrite Hd, Hl.
Qed.

(** Identifiers and owners are distinct. *)
Definition distinct (g : WorkGraphSnapshot) : Prop := NoDup (node_id <$> nodes g) /\ NoDup (externals (nodes g)).

Lemma mark_stale_ephemeral clock session ids st st' :
  ephemeral_in ids st.1 -> distinct st.1 -> foldM (mark_stale clock session) st ids = Ok st' ->
  ephemeral_in [] st'.1 /\ distinct st'.1.
Proof.
  revert st. induction ids as [|id ids IH]; intros [g t] Hin Hdis E; cbn [foldM] in E; [by injection E as <-|].
  apply bind_Ok in E as (s & ([g' r] & Ea%map_err_Ok & [= <-])%bind_Ok & E).
  apply apply_no_key_Ok in Ea as (next & Ep & Hwf & _ & -> & Hr); [|done].
  refine (IH _ _ _ E); [|by split; apply Hwf]. cbn [fst] in *.
  cbn [apply_pure] in Ep. unfold reconcile in Ep. apply bind_Ok in Ep as (n & Hn%ok_or_Ok & (b & Hb%ok_or_Ok & [= <-])%bind_Ok).
  intros i m bm Hm Hbm Hd Hl. rewrite committed_node, node_replace in Hm by (by apply node_Some in Hn as [_ ?]).
  case_decide as Hi.
  - subst i. rewrite Hn in Hm. injection Hm as <-. cbn in Hl. unfold reconciled_state in Hl. cbn in Hl.
    by destruct (node_state n).
  - specialize (Hin i m bm Hm Hbm Hd Hl). set_solver.
Qed.

(** Bindings keep their owner and their durability. *)
Definition same_owners (g g' : WorkGraphSnapshot) : Prop :=
  forall i n b, node g' i = Some n -> node_binding n = Some b ->
  exists n0 b0, node g i = Some n0 /\ node_binding n0 = Some b0 /\ external b0 = external b /\ durable b0 = durable b.

Lemma externals_inj ns n m b c :
  NoDup (externals ns) -> n ∈ ns -> m ∈ ns -> node_binding n = Some b -> node_binding m = Some c ->
  external b = external c -> n = m.
Proof.
  intros Hnd Hn Hm Hb Hc He. induction ns as [|x ns IH]; [by apply not_elem_of_nil in Hn|].
  assert (Hin : forall y d, y ∈ ns -> node_binding y = Some d -> external d ∈ externals ns).
  { intros y d Hy Hd. unfold externals. apply list_elem_of_omap. exists y. by rewrite Hd. }
  unfold externals in Hnd. cbn [omap list_omap] in Hnd. fold (externals ns) in Hnd.
  apply elem_of_cons in Hn as [->|Hn], Hm as [->|Hm]; [done| | |].
  - rewrite Hb in Hnd. cbn in Hnd. apply NoDup_cons in Hnd as [Hx _]. destruct Hx. rewrite He. by eapply Hin.
  - rewrite Hc in Hnd. cbn in Hnd. apply NoDup_cons in Hnd as [Hx _]. destruct Hx. rewrite <-He. by eapply Hin.
  - apply IH; [|done..]. destruct (external <$> node_binding x); [by apply NoDup_cons in Hnd as [_ ?]|done].
Qed.

Lemma reconcile_workspace_ephemeral clock reading g session owners g' changed :
  distinct g -> ephemeral_in [] g ->
  reconcile_workspace_snapshot clock reading g session owners = Ok (g', changed) -> ephemeral_in [] g'.
Proof.
  intros [Hids Hexts] Hin E. unfold reconcile_workspace_snapshot in E.
  assert (Hcand : forall ext, ext ∈ workspace_candidates g -> exists n b, n ∈ nodes g /\ node_binding n = Some b /\
      external b = ext /\ durable b = true).
  { intros ext [_ Hx]%elem_of_retain. unfold durable_bindings in Hx. apply list_elem_of_omap in Hx as (n & Hn & Hb).
    destruct (_ || _); [|done]. destruct (node_binding n) as [b|] eqn:Eb; [|done]. destruct (durable b) eqn:Ed; [|done].
    injection Hb as <-. by exists n, b. }
  destruct (workspace_candidates g) as [|e0 exts]; [by injection E as <- <-|].
  destruct (foldM _ _ _) as [st|e] eqn:Ef; [|done]. injection E as E.
  set (I := fun st : WorkGraphSnapshot * Z * nat => ephemeral_in [] st.1.1 /\ same_owners g st.1.1 /\ NoDup (node_id <$> nodes st.1.1)).
  assert (Hst : I st); [|subst I; cbn in Hst; rewrite E in Hst; apply Hst].
  revert Ef. apply (foldM_invariant _ I); [|split; [done|]; split; [intros i n b Hn Hb; by exists n, b|done]].
  intros [[g1 c] r] x st' Hx (Hg1 & Hs1 & Hnd) E1. unfold I in *. cbn [fst] in *. unfold reconcile_candidate in E1.
  destruct (workspace_observation owners _ x) as [obs|]; [|by injection E1 as <-].
  apply bind_Ok in E1 as ([next|] & En & [= <-]); [|done]. cbn [fst].
  apply apply_observation_apply in En as (n & ctx & r' & Hbn & Ea & Hr & _).
  apply bound_node_Some in Hbn as (Hinn & bx & Hbx & Hex). pose proof (node_of_member g1 n Hnd Hinn) as Hnn.
  destruct (apply_reconcile _ _ _ _ _ _ Ea Hr) as (n1 & b1 & Hn1 & Hb1 & _ & Hnd' & Hnext).
  rewrite Hnn in Hn1. injection Hn1 as <-. rewrite Hbx in Hb1. injection Hb1 as <-.
  destruct (Hs1 _ n bx Hnn Hbx) as (n0 & b0 & Hn0 & Hb0 & He0 & Hd0).
  assert (Hdur : durable bx = true).
  { destruct (Hcand x Hx) as (m & bm & Hm & Hbm & Hem & Hdm). apply node_Some in Hn0 as [Hn0 _].
    rewrite <-Hd0. rewrite (externals_inj _ n0 m b0 bm Hexts Hn0 Hm Hb0 Hbm) in Hb0 by congruence. congruence. }
  assert (Hob : external (observed_binding bx obs) = external bx /\ durable (observed_binding bx obs) = durable bx) by by destruct obs.
  destruct Hob as [Hoe Hod]. split_and!; [| |done].
  - intros i m bm Hm Hbm Hd Hl. rewrite Hnext in Hm. case_decide; [|by eapply Hg1].
    injection Hm as <-. cbn in Hbm. injection Hbm as <-. congruence.
  - intros i m bm Hm Hbm. rewrite Hnext in Hm. case_decide as Hi; [subst i|by eapply Hs1].
    injection Hm as <-. cbn in Hbm. injection Hbm as <-. exists n0, b0. split_and!; [done|done|congruence..].
Qed.

(** An import binds no operation. *)
Definition unbound (g : WorkGraphSnapshot) : Prop := distinct g /\ forall n, n ∈ nodes g -> node_binding n = None.

Definition unbinding (change : WorkGraphChange) : Prop :=
  match change with
  | AddNode n => node_binding n = None
  | AddEdge _ | UpdateNode _ _ | ReplaceCompatProjection _ | SetImportDigest _ => True
  | _ => False
  end.

Lemma replace_node_elem id n' ns n : n ∈ replace_node id n' ns -> n = n' \/ n ∈ ns.
Proof. induction ns as [|m ns IH]; cbn; [auto|]. case_bool_decide; set_solver. Qed.

Lemma import_apply_unbound session g change g' :
  unbinding change -> unbound g -> import_apply session g change = Ok g' -> unbound g'.
Proof.
  intros Hch [_ Hn] E. unfold import_apply in E. apply map_err_Ok in E.
  destruct (apply g change (import_ctx session)) as [[g1 r]|e] eqn:Ea; [|done]. injection E as <-. cbn [fst].
  apply apply_no_key_Ok in Ea as (next & Ep & Hwf & _ & -> & _); [|done].
  split; [split; apply Hwf|]. change (nodes (committed g next change _)) with (nodes next).
  destruct change; try done; cbn [apply_pure unbinding] in *.
  - apply add_node_Ok in Ep as [_ ->]. intros n [Hin|Hin%list_elem_of_singleton]%elem_of_app; [by apply Hn|by subst].
  - apply patch_node_Ok in Ep as (m & Hm & _ & ->). apply node_Some in Hm as [Hm _].
    intros n [->|Hin]%replace_node_elem; [by apply (Hn m)|by apply Hn].
  - by apply add_edge_Ok in Ep as (_ & _ & _ & ->).
  - by injection Ep as <-.
  - by apply seq_Ok in Ep as [_ [= <-]].
Qed.

Lemma import_step_unbound session digest objective st indexed st' :
  unbound st.1 -> import_step session digest objective st indexed = Ok st' -> unbound st'.1.
Proof.
  intros Hu E. destruct indexed as [index item]. unfold import_step in E. apply seq_Ok in E as [_ E].
  apply bind_Ok in E as (g1 & E1 & (g2 & E2 & [= <-])%bind_Ok). cbn [fst].
  eapply import_apply_unbound; [|eapply import_apply_unbound; [|exact Hu|exact E1]|exact E2]; done.
Qed.

Lemma import_todo_unbound session digest objective order st item st' :
  unbound st.1 -> import_todo session digest objective order st item = Ok st' -> unbound st'.1.
Proof.
  intros Hu E. unfold import_todo in E. destruct (strip_plan_provenance (content item)) as [title marker].
  destruct (_ ≫= _) as [[index id]|].
  - apply bind_Ok in E as (g1 & E1 & [= <-]). unfold import_aliased in E1. apply bind_Ok in E1 as (n & _ & E1).
    case_bool_decide; [|by injection E1 as <-]. by eapply import_apply_unbound; [|exact Hu|exact E1].
  - apply bind_Ok in E as (g1 & E1 & [= <-]). unfold import_own in E1.
    apply bind_Ok in E1 as (g2 & E2 & (g3 & E3 & E1)%bind_Ok). cbn [fst].
    assert (Hg3 : unbound g3) by (eapply import_apply_unbound; [|eapply import_apply_unbound; [|exact Hu|exact E2]|exact E3]; done).
    case_bool_decide; [|by injection E1 as <-]. by eapply import_apply_unbound; [|exact Hg3|exact E1].
Qed.

Lemma import_legacy_unbound session plan rows g : import_legacy session plan rows = Ok g -> unbound g.
Proof.
  intros E. unfold import_legacy in E. cbn zeta in E. apply bind_Ok in E as (todos & _ & (json & _ & E)%bind_Ok).
  apply bind_Ok in E as (g1 & E1 & ([g2 order] & E2 & ([g3 bindings] & E3 & (g4 & E4 & E5)%bind_Ok)%bind_Ok)%bind_Ok).
  assert (Hu0 : unbound new) by (split; [split; constructor|by intros n ?%not_elem_of_nil]).
  assert (Hu1 : unbound g1) by (by eapply import_apply_unbound; [|exact Hu0|exact E1]).
  assert (Hu2 : unbound g2).
  { apply (foldM_invariant _ (fun st : WorkGraphSnapshot * list WorkNodeId => unbound st.1)) in E2; [done| |done].
    intros st x st' _. apply import_step_unbound. }
  assert (Hu3 : unbound g3).
  { apply (foldM_invariant _ (fun st : WorkGraphSnapshot * list CompatTodoBinding => unbound st.1)) in E3; [done| |done].
    intros st x st' _. apply import_todo_unbound. }
  eapply import_apply_unbound; [|eapply import_apply_unbound; [|exact Hu3|exact E4]|exact E5]; done.
Qed.

Lemma restored_ephemeral env session graph rows plan workspace g' pending :
  restored_graph env session graph rows plan workspace = Ok (g', pending) -> ephemeral_in [] g'.
Proof.
  intros E. unfold restored_graph in E. apply bind_Ok in E as (g0 & E0 & E).
  apply bind_Ok in E as ([[g1 ephemeral] reading] & E1 & E). apply bind_Ok in E as ([g2 changed] & E2 & E).
  apply seq_Ok in E as [_ E]. apply seq_Ok in E as [_ E]. apply seq_Ok in E as [_ [= <- _]].
  assert (Hdis : distinct g0).
  { destruct graph as [g|]; [apply seq_Ok in E0 as [Hv%validated_Ok [= <-]]; by split; apply Hv|].
    destruct (_ && _); [injection E0 as <-; split; constructor|]. by apply import_legacy_unbound in E0 as [? _]. }
  assert (H1 : ephemeral_in [] g1 /\ distinct g1).
  { pose proof (ephemeral_operations_in g0 (proj1 Hdis)) as Hin. unfold mark_restored_ephemeral_operations_stale in E1.
    destruct (ephemeral_operations g0) as [|id ids]; [by injection E1 as <- _ _|].
    apply bind_Ok in E1 as ([g1' t] & Ef & [= <- _ _]).
    by apply (mark_stale_ephemeral _ _ _ (g0, 0%nat)) in Ef. }
  destruct H1 as [Hg1 Hd1]. destruct workspace as [owners|]; [by eapply reconcile_workspace_ephemeral|]. by injection E2 as <- _.
Qed.

(** ** Sessions *)

(** One call of a method, with its arguments. *)
Inductive call :=
| CallRegister (session : str) (intent : OperationIntent)
| CallApprove (session ext reference source call_id : str)
| CallObserve (session ext : str) (obs : OperationObservation)
| CallEffort (session : option str) (requested effective : ReasoningEffortTier) (kind : ApiProvider) (provider : str)
    (endpoint model : option str)
| CallPlan (session tool : str) (plan : PlanSnapshot)
| CallTodos (session tool : str) (rows : TodoListSnapshot)
| CallPublish
| CallPublishSync
| CallCapture (session : option str)
| CallRestore (session : str) (graph : option WorkGraphSnapshot) (rows : TodoListSnapshot) (plan : PlanSnapshot)
    (workspace : option Owners)
| CallClear (session : option str).

Definition run (env : Env) (rt : WorkRuntime) (c : call) : WorkRuntime :=
  match c with
  | CallRegister session intent => (register_operation env rt session intent).1
  | CallApprove session ext reference source call_id =>
      (record_operation_approval env rt session ext reference source call_id).1
  | CallObserve session ext obs => (reconcile_observation env rt session ext obs).1
  | CallEffort session requested effective kind provider endpoint model =>
      (record_reasoning_effort_change env rt session requested effective kind provider endpoint model).1
  | CallPlan session tool plan => (apply_plan_update env rt session tool plan).1
  | CallTodos session tool rows => (apply_todo_update env rt session tool rows).1
  | CallPublish => (publish_pending env rt).1
  | CallPublishSync => (publish_pending_sync env rt).1
  | CallCapture session => (capture env rt session).1
  | CallRestore session graph rows plan workspace => (restore_internal env rt session graph rows plan workspace).1
  | CallClear session => (clear env rt session).1
  end.

Definition admissible (rt : WorkRuntime) (c : call) : Prop :=
  match c with
  | CallObserve _ _ _ => room rt
  | CallRestore _ graph rows plan _ => restorable graph rows plan
  | _ => True
  end.

(** What a session can reach from empty views.  The reconciliation with the
    stores of a workspace reads the runtime at one moment and writes it at
    another. *)
Inductive reachable : WorkRuntime -> Prop :=
| reachable_new : reachable (new_shared_work_runtime todo_new default_plan)
| reachable_call env rt c : reachable rt -> admissible rt c -> reachable (run env rt c)
| reachable_workspace env earlier rt session owners :
    reachable earlier -> reachable rt -> room earlier ->
    reachable (reconcile_workspace_owner_bindings env earlier rt session owners).1.

Lemma run_ok env rt c : runtime_ok rt -> admissible rt c -> runtime_ok (run env rt c).
Proof.
  intros Hok Ha. destruct c; cbn [run admissible] in *.
  - by apply register_ok.
  - by apply approval_ok.
  - by apply observe_ok.
  - by apply effort_ok.
  - by apply plan_update_ok.
  - by apply todo_update_ok.
  - by apply publish_ok.
  - unfold publish_pending_sync. apply with_views_ok; [done|by apply publish_ok].
  - destruct (todos_free env && plan_free env) eqn:Ef; [|by unfold capture, with_views; destruct (todos_free env), (plan_free env)].
    apply andb_prop in Ef as [Ht Hp]. by apply capture_ok.
  - by apply restore_ok.
  - by apply clear_ok.
Qed.

Lemma reachable_ok rt : reachable rt -> runtime_ok rt.
Proof.
  induction 1 as [|env rt c _ IH Ha|env earlier rt session owners _ IHe _ IHr Hroom]; [apply fresh_ok|by apply run_ok|by apply workspace_ok].
Qed.
End spec.
