(* ===== verification/WorkSessions.v ===== *)
(** * Properties of sessions

    What the runtime promises of every session it can reach, of saved sessions,
    of the operations it registers and observes, and of the updates of the
    legacy views. *)

From S2P Require Import Text WorkModel WorkValidate WorkGraphs WorkInvariant WorkReducer WorkReducerFacts PlanTodo PlanTodoSpec WorkImport WorkRuntime WorkEditFacts WorkRuntimeFacts WorkSpec WorkRuntimeSpec.

(** ** Environments for the witnesses *)

Definition sample_env : Env :=
  {| clock := fun n => 100 + Z.of_nat n; instant := 7; todos_free := true; plan_free := true |}.

Definition sample_json : LegacyJson := {| canonical_json := fun _ _ => Ok [] |}.

Definition fresh : WorkRuntime := new_shared_work_runtime todo_new default_plan.

Definition shell_intent : OperationIntent := OperationIntent_new $"shell:7" $"cargo test" false $"shell" $"call-1".

Definition two_steps : PlanSnapshot :=
  {| plan_meta := compat_plan default_compat;
     plan_items := [{| step := $" build "; step_status := StepStatus.InProgress |};
                    {| step := $"test"; step_status := StepStatus.Pending |}] |}.

Definition row (id : Z) (text : str) (s : TodoStatus) : TodoItem := {| item_id := id; content := text; status := s |}.

Definition rows_of (its : list TodoItem) : TodoListSnapshot := todo_snapshot {| items := its; next_id := 1 |}.

Section sessions.
Context `{Externs, LegacyJson}.

(** ** Coherence and publication *)



Lemma empty_projections g :
  snapshot_is_empty g = true ->
  snap_items (project_todos g) = [] /\ plan_snapshot_is_empty (project_plan g) = true.
Proof.
  unfold snapshot_is_empty, compat_is_empty. rewrite !andb_true_iff. intros H'. destruct_and?.
  unfold project_todos, project_plan, plan_snapshot_is_empty. cbn. destruct (todos (compat g)), (plan_order (compat g)); try done.
  cbn. split; [done|]. by rewrite andb_true_r.
Qed.

Lemma restored_graph_again env session g :
  publishable g -> ephemeral_operations g = [] ->
  import_digest g = None \/ compat_is_empty (compat g) = false ->
  restored_graph env session (Some g) (project_todos g) (project_plan g) None = Ok (g, false).
Proof.
  intros Hp He Hd. unfold restored_graph. rewrite (proj2 (validated_Ok g tt)) by apply Hp. cbn [mbind result_bind].
  unfold mark_restored_ephemeral_operations_stale. rewrite He. cbn [mbind result_bind].
  assert (Hc : (if snapshot_is_empty g
      then reject_if (negb (is_nil (snap_items (project_todos g))) || negb (plan_snapshot_is_empty (project_plan g)))
             $"empty Work Graph cannot carry non-empty legacy views"
      else reject_if (negb (opt_is_none (import_digest g)) && compat_is_empty (compat g))
             $"imported Work Graph is missing compatibility projections") = Ok tt).
  { destruct (snapshot_is_empty g) eqn:Ee.
    - destruct (empty_projections g Ee) as [-> ->]. done.
    - destruct Hd as [->| ->]; [done|]. by rewrite andb_false_r. }
  rewrite Hc. cbn [mbind result_bind].
  rewrite (proj2 (validate_combined_Ok g _ _ tt)) by (split_and!; try done; apply Hp). cbn [mbind result_bind].
  rewrite !bool_decide_eq_false_2 by (intros Hx; by apply Hx). done.
Qed.


(** ** Operations *)

(** after a restart no operation is live without a durable owner: whatever
    session is restored, saved or legacy, with or without the stores of its
    workspace, every node whose owner died with the process is stale or
    settled. *)
Theorem restored_operations_have_owners env rt session graph rows plan workspace rt' res :
  restore_internal env rt session graph rows plan workspace = (rt', Ok res) ->
  exists g, active_snapshot (rt_active rt') = Some g /\
    forall n b, n ∈ nodes g -> node_binding n = Some b -> NodeState.is_live (node_state n) = true -> durable b = true.
Proof.
  intros E. unfold restore_internal in E. destruct (_ ← _; _) as [[[g pending] l]|e] eqn:Er; [|done].
  apply bind_Ok in Er as ([g' pending'] & Eg & (l' & El & [= -> -> ->])%bind_Ok). unfold with_views in E.
  destruct (negb (todos_free env)), (negb (plan_free env)); try done. injection E as <- _. exists g. split; [done|].
  intros n b Hn Hb Hl. pose proof (restored_graph_Ok _ _ _ _ _ _ _ _ Eg) as (Hwf & _).
  destruct (durable b) eqn:Hd; [done|].
  pose proof (restored_ephemeral _ _ _ _ _ _ _ _ Eg _ n b (node_of_member _ _ (wf_node_ids _ Hwf) Hn) Hb Hd Hl) as Hx.
  by apply not_elem_of_nil in Hx.
Qed.

Lemma bound_node_is g ext n b :
  well_formed g -> n ∈ nodes g -> node_binding n = Some b -> external b = ext -> bound_node g ext = Some n.
Proof.
  intros Hwf Hn Hb He. destruct (bound_node g ext) as [m|] eqn:Em.
  - apply bound_node_Some in Em as (Hm & c & Hc & Hce). f_equal.
    apply (externals_inj (nodes g) m n c b); [apply (wf_external_unique g Hwf)|done..|congruence].
  - unfold bound_node in Em. rewrite find_None in Em. specialize (Em n Hn). rewrite Hb in Em. by apply bool_decide_eq_false in Em.
Qed.

(** registering an operation binds it once: the returned node is an
    Operation bound to the asked owner with the asked durability, and
    registering the same owner again, by any later call, returns the same node
    and leaves the graph as it is. *)
Theorem registration_binds_once env rt session intent rt1 id :
  reachable rt -> register_operation env rt session intent = (rt1, Ok id) ->
  exists g n b, active_snapshot (rt_active rt1) = Some g /\ node g id = Some n /\ node_kind n = NodeKind.Operation /\
    node_binding n = Some b /\ external b = intent_external intent /\ durable b = intent_durable intent /\
    forall env' session' intent', todos_free env' = true -> plan_free env' = true ->
      intent_external intent' = intent_external intent -> intent_durable intent' = intent_durable intent ->
      exists rt2, register_operation env' rt1 session' intent' = (rt2, Ok id) /\
        active_snapshot (rt_active rt2) = Some g.
Proof.
  intros Hr%reachable_ok E. pose proof (register_ok env rt session intent Hr) as Hok. rewrite E in Hok. cbn [fst] in Hok.
  assert (Hext : external_identity_is_well_formed (intent_external intent) = true /\
    exists g n b, active_snapshot (rt_active rt1) = Some g /\ node g id = Some n /\ node_binding n = Some b /\
      external b = intent_external intent /\ durable b = intent_durable intent).
  { unfold register_operation in E. destruct (external_identity_is_well_formed _); [|done]. split; [done|]. cbn [negb] in E.
    unfold with_views in E. destruct (negb (todos_free env)), (negb (plan_free env)); try done.
    unfold with_graph in E. destruct (graph_for_update _ _ _ _) as [a base] eqn:Eg.
    destruct (graph_for_update_ok _ _ _ _ Hr Eg) as (Ha & g & -> & Hc & Hp & Hsa & _). cbn [mbind result_bind] in E.
    destruct (bound_node g (intent_external intent)) as [existing|] eqn:Eb.
    - case_bool_decide as Hd; [done|]. injection E as <- <-. apply bound_node_Some in Eb as (Hin & b & Hb & He).
      rewrite Hb in Hd. exists g, existing, b. split_and!; [done| |done|done|].
      + apply node_of_member; [apply Hp|done].
      + by injection Hd.
    - destruct (projected _) as [[x o]|e] eqn:Ep; [|done].
      unfold projected in Ep. apply bind_Ok in Ep as ([y [next t]] & Em & Ep). apply seq_Ok in Ep as [_ [= <- <-]].
      injection E as <- <-.
      apply add_operation_stable in Em as (_ & n & Hn & _ & _ & _ & Hb). cbn in Hn. by eexists next, n, _. }
  destruct Hext as (Hwfe & g & n & b & Hg & Hn & Hb & He & Hd). destruct (rk_graph _ Hok g Hg) as [_ Hp].
  pose proof (node_Some _ _ _ Hn) as [Hin Hid].
  exists g, n, b. split_and!; [done|done| |done|done|done|].
  { apply (wf_bindings g (pb_well_formed _ Hp)); [done|by rewrite Hb]. }
  intros env' session' intent' Ht Hpf He' Hd'. unfold register_operation. rewrite He', Hwfe. cbn [negb]. unfold with_views.
  rewrite Ht, Hpf. cbn [negb]. unfold with_graph, graph_for_update. cbn [active_snapshot]. rewrite Hg.
  rewrite (proj2 (validated_Ok g tt)) by apply Hp. cbn [mbind result_bind].
  rewrite (bound_node_is g _ n b (pb_well_formed _ Hp) Hin Hb He). rewrite Hb. cbn [fmap option_fmap option_map].
  rewrite bool_decide_eq_false_2 by (rewrite Hd', Hd; by intros []). rewrite Hid. eexists. by split.
Qed.

(** ** Observations *)

Definition seq_le (before after : option ObservationSummary) : Prop :=
  match before, after with
  | Some a, Some b => obs_seq a <= obs_seq b
  | Some _, None => False
  | None, _ => True
  end.

(** C10: what owners report never runs backwards: an accepted observation of a
    registered owner either changes nothing, or changes only the node of that
    owner; its recorded sequence number does not decrease; and a report that
    repeats the recorded number is accepted only to wake a stale operation,
    with the same claim. *)
Theorem observations_never_regress env rt session ext obs rt' changed :
  reachable rt -> reconcile_observation env rt session ext obs = (rt', Ok changed) ->
  exists g n b, active_snapshot (rt_active rt) = Some g /\ bound_node g ext = Some n /\ node_binding n = Some b /\
    (changed = false -> rt' = rt) /\
    (changed = true -> exists g' n' b', active_snapshot (rt_active rt') = Some g' /\ node g' (node_id n) = Some n' /\
       node_binding n' = Some b' /\ external b' = external b /\ durable b' = durable b /\
       (forall i m, i <> node_id n -> node g i = Some m -> node g' i = Some m) /\
       seq_le (last_observation b) (last_observation b') /\
       forall state seq at_ output previous, obs = OwnerReported state seq at_ output ->
         last_observation b = Some previous -> seq = obs_seq previous ->
         node_state n = NodeState.Stale /\ state = obs_owner_state previous /\ output = obs_output previous).
Proof.
  intros Hr%reachable_ok E. unfold reconcile_observation in E. destruct (other_session _ _); [done|].
  destruct (active_snapshot (rt_active rt)) as [g|] eqn:Eg; [|done]. cbn [ok_or mbind result_bind] in E.
  destruct (rk_graph _ Hr g Eg) as [_ Hp]. pose proof (pb_well_formed _ Hp) as Hwf.
  destruct (apply_observation_to_snapshot _ _ _ _ _) as [[next|]|e] eqn:Ea; [| |done]; injection E as <- <-.
  - destruct (apply_observation_Some _ _ _ _ _ _ Ea Hwf) as (n & b & Hn & Hb & Hnode & [_ Ht] & _).
    exists g, n, b. split_and!; [done..|]. intros _. eexists next, _, _. split; [done|]. split; [exact Hnode|]. split; [done|].
    split; [by destruct obs|]. split; [by destruct obs|]. split; [intros i m Hi Hm; apply Ht; [set_solver|done]|].
    unfold apply_observation_to_snapshot in Ea. rewrite Hn in Ea. cbn [ok_or mbind result_bind] in Ea.
    destruct obs as [st seq at_ out|checked|outcome at_]; cbn [observed_binding last_observation];
      [|split; [by destruct (last_observation b); cbn|done]..].
    apply bind_Ok in Ea as (v & Ev & Ea). unfold report_verdict in Ev. rewrite Hb in Ev. cbn [mbind option_bind] in Ev.
    destruct (last_observation b) as [previous|] eqn:El; [|done].
    destruct (Z.ltb_spec seq (obs_seq previous)); [done|]. split; [cbn; lia|].
    intros ? ? ? ? ? [= <- <- <- <-] [= <-] ->. rewrite Z.eqb_refl in Ev.
    case_bool_decide as Hs; [by injection Ev as <-|]. destruct (_ || _) eqn:Eo; [done|].
    apply orb_false_iff in Eo as [Ho1%bool_decide_eq_false Ho2%bool_decide_eq_false].
    split_and!; (done || by apply dec_stable).
  - unfold apply_observation_to_snapshot in Ea. apply bind_Ok in Ea as (n & Hn%ok_or_Ok & _).
    pose proof (bound_node_Some _ _ _ Hn) as (_ & b & Hb & _). by exists g, n, b.
Qed.

(** ** Updates of the legacy views *)

Lemma with_graph_Ok {A} rt session (k : WorkGraphSnapshot -> result str (A * option WorkGraphSnapshot)) rt' x :
  with_graph rt session k = (rt', Ok x) ->
  exists base, (exists next, k base = Ok (x, Some next) /\ active_snapshot (rt_active rt') = Some next) \/ k base = Ok (x, None).
Proof.
  unfold with_graph. destruct (graph_for_update _ _ _ _) as [a [base|e]]; [|done]. cbn [mbind result_bind].
  destruct (k base) as [[y [next|]]|e] eqn:Ek; [| |done]; intros [= <- <-]; exists base; [left; by exists next|by right].
Qed.

(** an accepted plan update takes effect: the graph then projects exactly
    the submitted metadata and steps, trimmed and with the submitted statuses,
    whatever the graph was before, and this is the plan the call returns. *)
Theorem plan_update_takes_effect env rt session tool plan rt' shown :
  apply_plan_update env rt session tool plan = (rt', Ok shown) ->
  exists g, active_snapshot (rt_active rt') = Some g /\ project_plan g = shown /\
    shown = {| plan_meta := plan_meta plan;
               plan_items := (fun i => {| step := trim (step i); step_status := step_status i |}) <$> plan_items plan |} /\
    normal_plan shown.
Proof.
  intros (base & [(next & E & Hn)|E])%with_graph_Ok.
  - apply bind_Ok in E as ([u [next' t]] & Em & ([p l] & Hd & [= <- ->])%bind_Ok).
    apply derived_views_Ok in Hd as (Hp & _). exists next. split; [done|]. split; [done|]. split; [|apply Hp].
    exact (update_plan_graph_projects _ _ _ _ _ _ Em (pb_well_formed _ Hp)).
  - by apply bind_Ok in E as ([u [next' t]] & _ & ([p l] & _ & [=])%bind_Ok).
Qed.

(** an accepted To-do update takes effect: the graph then has exactly the
    submitted rows in order, and unless two rows share a node it projects
    their trimmed contents and statuses, which is the list the call returns. *)
Theorem todo_update_takes_effect env rt session tool rows rt' shown :
  apply_todo_update env rt session tool rows = (rt', Ok shown) ->
  exists g, active_snapshot (rt_active rt') = Some g /\ project_todos g = shown /\
    legacy_id <$> todos (compat g) = item_id <$> snap_items rows /\
    (NoDup (todo_node <$> todos (compat g)) ->
     snap_items shown =
     (fun i => {| item_id := item_id i; content := trim (content i); status := status i |}) <$> snap_items rows).
Proof.
  intros (base & [(next & E & Hn)|E])%with_graph_Ok.
  - apply bind_Ok in E as ([u [next' t]] & Em & ([p l] & Hd & [= <- ->])%bind_Ok).
    exists next. split; [done|]. split; [done|]. exact (update_todo_graph_projects _ _ _ _ _ _ Em).
  - by apply bind_Ok in E as ([u [next' t]] & _ & ([p l] & _ & [=])%bind_Ok).
Qed.
End sessions.

(** ** Sessions at concrete calls *)

Section examples.
#[local] Existing Instance sample.
#[local] Existing Instance sample_json.

Definition after_register : WorkRuntime := run sample_env fresh (CallRegister $"s1" shell_intent).
Definition after_plan : WorkRuntime := run sample_env after_register (CallPlan $"s1" $"update_plan" two_steps).
Definition after_todos : WorkRuntime :=
  run sample_env after_plan
    (CallTodos $"s1" $"todo_write" (rows_of [row 1 $" write " TodoStatus.Completed; row 2 $"read" TodoStatus.Pending])).

Lemma after_todos_reachable : reachable after_todos.
Proof. repeat (apply reachable_call; [|done]). apply reachable_new. Qed.

(** The graph of the last runtime. *)
Definition session_graph : WorkGraphSnapshot := default new (active_snapshot (rt_active after_todos)).

Lemma session_graph_active : active_snapshot (rt_active after_todos) = Some session_graph.
Proof. by vm_compute. Qed.



(** The session once its operation has ended. *)
Definition settled_session : WorkRuntime :=
  run sample_env after_todos (CallObserve $"s1" $"shell:7" (OwnerReported OwnerState.Completed 1 50 None)).

Lemma settled_reachable : reachable settled_session.
Proof.
  apply reachable_call; [apply after_todos_reachable|]. intros g Hg. rewrite session_graph_active in Hg.
  apply (inj Some) in Hg. rewrite <-Hg. by vm_compute.
Qed.

Definition saved : WorkRuntimeSnapshot :=
  match (capture sample_env settled_session None).2 with
  | Ok (Some s) => s
  | _ => {| captured_graph := new; captured_todos := project_todos new; captured_plan := project_plan new |}
  end.


Definition restarted : WorkRuntime * result str (option WorkRuntimeSnapshot) :=
  restore_internal sample_env fresh $"s1" (Some session_graph) (project_todos session_graph) (project_plan session_graph) None.

Lemma restarted_ok : is_ok restarted.2 = true.
Proof. by vm_compute. Qed.

Lemma restored_operations_have_owners_witness :
  exists g, active_snapshot (rt_active restarted.1) = Some g /\
    forall n b, n ∈ nodes g -> node_binding n = Some b -> NodeState.is_live (node_state n) = true -> durable b = true.
Proof.
  pose proof restarted_ok as Hok. destruct restarted.2 as [res|e] eqn:E; [|discriminate Hok].
  apply (restored_operations_have_owners sample_env fresh $"s1" (Some session_graph) (project_todos session_graph)
    (project_plan session_graph) None restarted.1 res).
  change (restarted = (restarted.1, Ok res)). rewrite <-E. apply surjective_pairing.
Defined.

Lemma registered :
  register_operation sample_env fresh $"s1" shell_intent = (after_register, Ok (WorkNodeId_derive $"s1" $"operation:shell:7")).
Proof. vm_compute. reflexivity. Qed.

Lemma fresh_reachable : reachable fresh.
Proof. apply reachable_new. Qed.

Lemma registration_binds_once_witness :
  exists g n b, active_snapshot (rt_active after_register) = Some g /\
    node g (WorkNodeId_derive $"s1" $"operation:shell:7") = Some n /\ node_binding n = Some b /\ external b = $"shell:7".
Proof.
  destruct (registration_binds_once sample_env fresh $"s1" shell_intent after_register
    (WorkNodeId_derive $"s1" $"operation:shell:7") fresh_reachable registered) as (g & n & b & Hg & Hn & _ & Hb & He & _).
  exists g, n, b. split; [exact Hg|]. split; [exact Hn|]. split; [exact Hb|exact He].
Defined.

Lemma observed :
  reconcile_observation sample_env after_todos $"s1" $"shell:7" (OwnerReported OwnerState.Completed 1 50 None) =
  (settled_session, Ok true).
Proof. vm_compute. reflexivity. Qed.

Lemma observations_never_regress_witness :
  exists g n b, active_snapshot (rt_active after_todos) = Some g /\ bound_node g $"shell:7" = Some n /\ node_binding n = Some b.
Proof.
  destruct (observations_never_regress sample_env after_todos $"s1" $"shell:7" (OwnerReported OwnerState.Completed 1 50 None)
    settled_session true after_todos_reachable observed) as (g & n & b & Hg & Hn & Hb & _).
  exists g, n, b. split; [exact Hg|]. split; [exact Hn|exact Hb].
Defined.

Definition two_steps_shown : PlanSnapshot :=
  {| plan_meta := compat_plan default_compat;
     plan_items := [{| step := $"build"; step_status := StepStatus.InProgress |};
                    {| step := $"test"; step_status := StepStatus.Pending |}] |}.

Lemma planned : apply_plan_update sample_env after_register $"s1" $"update_plan" two_steps = (after_plan, Ok two_steps_shown).
Proof. vm_compute. reflexivity. Qed.

Lemma plan_update_takes_effect_witness :
  exists g, active_snapshot (rt_active after_plan) = Some g /\ project_plan g = two_steps_shown.
Proof.
  destruct (plan_update_takes_effect sample_env after_register $"s1" $"update_plan" two_steps after_plan
    two_steps_shown planned) as (g & Hg & Hp & _).
  exists g. split; [exact Hg|exact Hp].
Defined.

Definition two_rows : TodoListSnapshot :=
  rows_of [row 1 $" write " TodoStatus.Completed; row 2 $"read" TodoStatus.Pending].

Lemma listed :
  apply_todo_update sample_env after_plan $"s1" $"todo_write" two_rows = (after_todos, Ok (current_todos after_todos)).
Proof. vm_compute. reflexivity. Qed.

Lemma todo_update_takes_effect_witness :
  exists g, active_snapshot (rt_active after_todos) = Some g /\ legacy_id <$> todos (compat g) = [1; 2].
Proof.
  destruct (todo_update_takes_effect sample_env after_plan $"s1" $"todo_write"
    two_rows after_todos (current_todos after_todos) listed) as (g & Hg & _ & Hids & _).
  exists g. split; [exact Hg|]. rewrite Hids. reflexivity.
Defined.

(** ** Behaviour that surprises *)

(** A legacy row that mirrors step [index]. *)
Definition marked (text index : str) : str := text ++ PLAN_PROVENANCE_PREFIX ++ index ++ PLAN_PROVENANCE_SUFFIX.

Definition legacy_plan : PlanSnapshot :=
  {| plan_meta := compat_plan default_compat;
     plan_items := [{| step := $"build"; step_status := StepStatus.InProgress |};
                    {| step := $"test"; step_status := StepStatus.Pending |}] |}.

Definition legacy_rows : TodoListSnapshot := rows_of [row 1 (marked $"test" $"1") TodoStatus.InProgress].

Definition outcome {A} (r : WorkRuntime * result str A) : option str := match r.2 with Ok _ => None | Err e => Some e end.

(** A legacy session with one step in progress and another in progress as a row:
    the import makes both steps active, the restore accepts them, and no
    publication succeeds from then on. *)
Example imported_session_never_publishes :
  let restored := restore sample_env fresh $"s1" None legacy_rows legacy_plan in
  outcome restored = None /\ pending_publish (rt_active restored.1) = true /\
  outcome (publish_pending sample_env restored.1) = Some $"Work Graph Plan projection is inconsistent".
Proof. vm_compute. done. Qed.

(** An imported session whose rows are cleared by an update saves, and the
    saved session is refused. *)
Example cleared_import_is_refused :
  let restored := restore sample_env fresh $"s1" None (rows_of [row 1 $"a" TodoStatus.Pending]) (project_plan new) in
  let cleared := apply_todo_update sample_env restored.1 $"s1" $"todo_write" (rows_of []) in
  outcome cleared = None /\
  match (capture sample_env cleared.1 None).2 with
  | Ok (Some s) =>
      outcome (restore sample_env fresh $"s1" (Some (captured_graph s)) (captured_todos s) (captured_plan s)) =
      Some $"imported Work Graph is missing compatibility projections"
  | _ => False
  end.
Proof. by vm_compute. Qed.

(** The reconciliation with the stores compares revisions only: a session that
    was cleared in between and has counted up to the same revision gets the old
    graph back. *)
Definition durable_intent : OperationIntent := OperationIntent_new $"lane:l1" $"lane" true $"lane" $"call-2".

Definition no_owners : Owners := {| fleet_tasks := None; lane_load := None |}.

Example cleared_graph_returns :
  let before := run sample_env fresh (CallRegister $"s1" durable_intent) in
  let cleared := run sample_env before (CallClear (Some $"s1")) in
  let after := run sample_env cleared (CallRegister $"s1" shell_intent) in
  let reconciled := reconcile_workspace_owner_bindings sample_env before after $"s1" no_owners in
  reconciled.2 = Ok 1 /\ has_operation_binding after (Some $"s1") $"lane:l1" = false /\
  has_operation_binding reconciled.1 (Some $"s1") $"lane:l1" = true /\
  has_operation_binding reconciled.1 (Some $"s1") $"shell:7" = false.
Proof. by vm_compute. Qed.

(** A call that fails leaves the graph it imported as the active one, without a
    publication: rows that the import trims then disagree with it and the
    session cannot be saved. *)
Example failed_call_blocks_saving :
  let legacy := new_shared_work_runtime {| items := [row 1 $" a" TodoStatus.Pending]; next_id := 2 |} default_plan in
  let failed := record_operation_approval sample_env legacy $"s1" $"shell:9" $"r" $"tool" $"call" in
  outcome failed = Some $"operation binding shell:9 is not registered" /\
  outcome (capture sample_env legacy None) = None /\
  outcome (capture sample_env failed.1 None) = Some $"live Work Graph and legacy views disagree".
Proof. by vm_compute. Qed.
End examples.
