(* ===== verification/WorkDigest.v ===== *)
(** * Plain-text views of the work graph

    The operation digest of [work_graph/digest.rs], and the block of live
    operations that [WorkRuntime::active_operation_summary] writes into the
    system prompt after a compaction. *)

From S2P Require Import Text WorkModel PlanTodo WorkEdits WorkRuntime.

(** ** [work_graph/digest.rs] *)

Definition state_rank (s : NodeState) : Z :=
  match s with
  | NodeState.Active | NodeState.Initializing => 0
  | NodeState.Waiting => 1
  | NodeState.Blocked | NodeState.Stale => 2
  | NodeState.Ready => 3
  | NodeState.Failed => 4
  | NodeState.Completed => 5
  | NodeState.Verified => 6
  | NodeState.Cancelled | NodeState.Superseded => 7
  end.

Definition state_label (s : NodeState) : str :=
  match s with
  | NodeState.Ready => $"ready"
  | NodeState.Initializing => $"starting"
  | NodeState.Active => $"running"
  | NodeState.Waiting => $"waiting"
  | NodeState.Blocked => $"blocked"
  | NodeState.Completed => $"ended"
  | NodeState.Verified => $"verified"
  | NodeState.Stale => $"stale"
  | NodeState.Superseded => $"superseded"
  | NodeState.Cancelled => $"cancelled"
  | NodeState.Failed => $"failed"
  end.

Definition todo_rank (item : TodoItem) : Z :=
  match status item with
  | TodoStatus.InProgress => 0
  | TodoStatus.Pending => 1
  | TodoStatus.Completed => 2
  | TodoStatus.Cancelled => 3
  end.

Definition todo_label (s : TodoStatus) : str :=
  match s with
  | TodoStatus.Pending => $"pending"
  | TodoStatus.InProgress => $"running"
  | TodoStatus.Completed => $"completed"
  | TodoStatus.Cancelled => $"cancelled"
  end.

Definition one_line (value : str) : str := join $" " (split_whitespace value).

(** [format!("{:<10}", s)]: padding counts characters. *)
Definition pad_10 (s : str) : str := s ++ replicate (10 - length s) 32%N.

Definition newline : str := [10%N].

(** The order of a pair of sort keys. *)
Definition key_le (a b : Z * Z) : bool := (a.1 <? b.1) || (a.1 =? b.1) && (a.2 <=? b.2).

Definition operation_key (n : WorkNode) : Z * Z := (state_rank (node_state n), node_updated_at n).
Definition row_key (i : TodoItem) : Z * Z := (todo_rank i, item_id i).

Definition owner_label (n : WorkNode) : str :=
  match node_binding n with Some b => external b | None => $"unbound" end.

(** [" · "], whose dot is one character above the ASCII range. *)
Definition dot : str := [32%N; 0xB7%N; 32%N].

Definition operation_line (n : WorkNode) : str :=
  $"  " ++ pad_10 (state_label (node_state n)) ++ $" " ++ owner_label n ++ dot ++ one_line (node_title n) ++ newline.

Definition row_line (i : TodoItem) : str :=
  $"  " ++ pad_10 (todo_label (status i)) ++ $" #" ++ display_u (item_id i) ++ dot ++ one_line (content i) ++ newline.

Definition digest_operations (g : WorkGraphSnapshot) : list WorkNode :=
  stable_sort (fun a b => key_le (operation_key a) (operation_key b))
    (retain (fun n => bool_decide (node_kind n = NodeKind.Operation)) (nodes g)).

Definition digest_rows (t : TodoListSnapshot) : list TodoItem :=
  stable_sort (fun a b => key_le (row_key a) (row_key b)) (snap_items t).

Definition NOTHING_ACTIVE : str := $"No active operations or to-do items.".

Definition format_operation_digest_parts (g : WorkGraphSnapshot) (t : TodoListSnapshot) : str :=
  let operations := digest_operations g in
  let todo_items := digest_rows t in
  if is_nil operations && is_nil todo_items then NOTHING_ACTIVE
  else
    trim_end
      ($"Operation digest" ++ newline
       ++ (if is_nil operations then [] else newline ++ $"Operations" ++ newline ++ (operations ≫= operation_line))
       ++ (if is_nil todo_items then [] else newline ++ $"To-do" ++ newline ++ (todo_items ≫= row_line))).

Definition format_operation_digest (snapshot : option WorkRuntimeSnapshot) : str :=
  match snapshot with
  | None => NOTHING_ACTIVE
  | Some s => format_operation_digest_parts (captured_graph s) (captured_todos s)
  end.

(** ** The summary of [runtime.rs] *)

Definition ACTIVE_OPERATION_SUMMARY_START : str := $"<!-- nestlone:active-work-operations:start -->".
Definition ACTIVE_OPERATION_SUMMARY_END : str := $"<!-- nestlone:active-work-operations:end -->".

Definition prompt_safe_title (title : str) : str := bounded_operation_title (replace_chars (N.eqb 96) $"'" title).

Definition operation_state_label (s : NodeState) : str :=
  match s with
  | NodeState.Ready => $"ready"
  | NodeState.Initializing => $"initializing"
  | NodeState.Active => $"running"
  | NodeState.Waiting => $"waiting"
  | NodeState.Blocked => $"blocked"
  | NodeState.Completed => $"completed"
  | NodeState.Verified => $"verified"
  | NodeState.Stale => $"stale"
  | NodeState.Superseded => $"superseded"
  | NodeState.Cancelled => $"cancelled"
  | NodeState.Failed => $"failed"
  end.

(** The operations the summary names. *)
Definition summary_operations (g : WorkGraphSnapshot) : list WorkNode :=
  take 24 (retain (fun n => bool_decide (node_kind n = NodeKind.Operation)
                            && (NodeState.is_live (node_state n) || bool_decide (node_state n = NodeState.Stale)))
                  (nodes g)).

Definition summary_line (n : WorkNode) : str :=
  $"- `" ++ owner_label n ++ $"` - " ++ operation_state_label (node_state n) ++ $" - " ++ prompt_safe_title (node_title n)
  ++ newline.

Definition SUMMARY_HEADER : str :=
  newline ++ $"## Active Work Graph Operations" ++ newline ++ newline
  ++ $"Owner records remain authoritative; reconcile before acting on a restored operation." ++ newline.

Definition active_operation_summary (rt : WorkRuntime) (session : option str) : option str :=
  if other_session (rt_active rt) session then None
  else
    g ← active_snapshot (rt_active rt);
    let operations := summary_operations g in
    if is_nil operations then None
    else Some (ACTIVE_OPERATION_SUMMARY_START ++ SUMMARY_HEADER ++ (operations ≫= summary_line)
               ++ ACTIVE_OPERATION_SUMMARY_END).

(** ** Facts *)

Lemma key_le_total a b : key_le a b = true \/ key_le b a = true.
Proof.
  unfold key_le. destruct a as [x y], b as [z w]. cbn.
  rewrite !orb_true_iff, !andb_true_iff, !Z.ltb_lt, !Z.eqb_eq, !Z.leb_le. lia.
Qed.

Lemma key_le_trans a b c : key_le a b = true -> key_le b c = true -> key_le a c = true.
Proof.
  unfold key_le. destruct a as [x y], b as [z w], c as [u v]. cbn.
  rewrite !orb_true_iff, !andb_true_iff, !Z.ltb_lt, !Z.eqb_eq, !Z.leb_le. lia.
Qed.

(** The digest shows each operation and each row once, in rank order. *)
Lemma digest_operations_spec g :
  digest_operations g ≡ₚ retain (fun n => bool_decide (node_kind n = NodeKind.Operation)) (nodes g) /\
  sorted_by (fun a b => key_le (operation_key a) (operation_key b)) (digest_operations g).
Proof.
  split; [apply stable_sort_perm|]. apply stable_sort_sorted; intros *; [apply key_le_total|apply key_le_trans].
Qed.

Lemma digest_rows_spec t :
  digest_rows t ≡ₚ snap_items t /\ sorted_by (fun a b => key_le (row_key a) (row_key b)) (digest_rows t).
Proof.
  split; [apply stable_sort_perm|]. apply stable_sort_sorted; intros *; [apply key_le_total|apply key_le_trans].
Qed.
