(* ===== verification/Redaction.v ===== *)
(** * Redaction of disclosed text

    [crates/workflow/src/redaction.rs]: paths and secret-shaped tokens are
    removed from text before it is sent to a router or written to a receipt.
    The text is read as tokens between spaces; what one token announces about
    the next is the only state. *)

From S2P Require Import Text.

Definition REDACTION_ABSOLUTE_PATH : str := $"absolute_path".
Definition REDACTION_RELATIVE_PATH : str := $"relative_path".
Definition REDACTION_SECRET : str := $"secret".

Definition PATH_PLACEHOLDER : str := $"<path>".
Definition SECRET_PLACEHOLDER : str := $"<redacted>".

Definition SECRET_NAME_MARKERS : list str :=
  [$"api_key"; $"apikey"; $"secret"; $"token"; $"password"; $"passwd"; $"credential"; $"authorization";
   $"auth_token"; $"access_key"; $"private_key"; $"session_key"].

Definition SECRET_VALUE_PREFIXES : list str :=
  [$"sk-"; $"sk_"; $"ghp_"; $"gho_"; $"ghs_"; $"github_pat_"; $"xoxb-"; $"xoxp-"; $"xapp-"].

Definition AUTH_SCHEMES : list str := [$"Bearer"; $"Basic"; $"Digest"; $"Token"].

Definition SELF_EVIDENT_AUTH_SCHEME : str := $"Bearer".

Definition AWS_KEY_ID_PREFIXES : list str :=
  [$"AKIA"; $"ASIA"; $"AGPA"; $"AIDA"; $"AROA"; $"ANPA"; $"ANVA"; $"ASCA"; $"ABIA"; $"ACCA"].

Definition AWS_KEY_ID_LEN : Z := 20.
Definition CREDENTIAL_VALUE_MIN_LEN : Z := 16.

(** The kinds are a set; [kinds] lists it in the order of the strings. *)
Record Redaction := { redaction_text : str; kind_set : gset str }.

Definition redacted (r : Redaction) : bool := negb (bool_decide (kind_set r = ∅)).
Definition kinds (r : Redaction) : list str := stable_sort str_le (elements (kind_set r)).

Inductive CredentialArm := Unarmed | IfShaped | Certain.

#[export] Instance CredentialArm_eq_dec : EqDecision CredentialArm.
Proof. solve_decision. Defined.

Definition is_armed (a : CredentialArm) : bool := match a with Unarmed => false | _ => true end.

(** [token_text] is [None] when the token stays as it is. *)
Record TokenOutcome := { token_text : option str; token_arm : CredentialArm }.

Definition keep : TokenOutcome := {| token_text := None; token_arm := Unarmed |}.
Definition keep_and_arm (a : CredentialArm) : TokenOutcome := {| token_text := None; token_arm := a |}.
Definition replace_with (t : str) : TokenOutcome := {| token_text := Some t; token_arm := Unarmed |}.

(** ** Shapes of tokens *)

Definition one_of (cs : str) (c : char) : bool := existsb (N.eqb c) cs.

Definition dquote : char := 34%N.
Definition squote : char := 39%N.
Definition backtick : char := 96%N.
Definition backslash : char := 92%N.

Definition unwrap_token (token : str) : str :=
  trim_end_by (one_of ($",.;:)]" ++ [dquote; squote] ++ $">!?"))
    (trim_start_by (one_of ($"([" ++ [dquote; squote] ++ $"<")) token).

Definition is_auth_scheme (token : str) : bool :=
  let word := unwrap_token token in
  negb (str_is_empty word) && forallb is_ascii_alphabetic word
  && existsb (fun scheme => eq_ignore_ascii_case scheme word) AUTH_SCHEMES.

Definition is_canonical_auth_scheme (token : str) : bool := bool_decide (unwrap_token token ∈ AUTH_SCHEMES).

(** The punctuation a credential may hold. *)
Definition credential_punctuation (c : char) : bool := one_of $"-_.=+/~" c.

Definition looks_like_credential_value (token : str) : bool :=
  let value := unwrap_token token in
  if char_count value <? CREDENTIAL_VALUE_MIN_LEN then false
  else if negb (forallb (fun c => is_ascii_digit c || is_ascii_alphabetic c || credential_punctuation c) value) then false
  else existsb is_ascii_digit value && existsb is_ascii_alphabetic value.

Definition looks_like_aws_access_key (token : str) : bool :=
  let value := unwrap_token token in
  if byte_len value <? AWS_KEY_ID_LEN then false
  else if negb (existsb (fun prefix => starts_with prefix value) AWS_KEY_ID_PREFIXES) then false
  else forallb (fun c => is_ascii_uppercase c || is_ascii_digit c) value.

Definition looks_absolute (token : str) : bool :=
  let trimmed := trim_start_by (one_of ($"([" ++ [dquote; squote])) token in
  if byte_len trimmed <? 2 then false
  else
    match strip_prefix $"/" trimmed with
    | Some rest =>
        match rest with
        | c :: _ => is_ascii_alphanumeric c || N.eqb c (chr ".") || N.eqb c (chr "_")
        | [] => false
        end
    | None =>
        if starts_with $"~/" trimmed || starts_with ($"~" ++ [backslash]) trimmed then true
        else if starts_with [backslash; backslash] trimmed then true
        else
          match trimmed with
          | drive :: c :: s :: _ => N.eqb c (chr ":") && one_of [backslash; chr "/"] s && is_ascii_alphabetic drive
          | _ => false
          end
    end.

Definition trim_path_punctuation (token : str) : str :=
  trim_end_by (one_of ($",;:.)]}" ++ [dquote; squote] ++ $">" ++ [backtick] ++ $"!?"))
    (trim_start_by (one_of ($"([{" ++ [dquote; squote] ++ $"<" ++ [backtick])) token).

Fixpoint unescape_path (token : str) : str :=
  match token with
  | [] => []
  | c :: rest =>
      if N.eqb c backslash then
        match rest with
        | d :: rest' =>
            if N.eqb d (chr "/") then chr "/" :: unescape_path rest'
            else if N.eqb d backslash then backslash :: unescape_path rest'
            else if N.eqb d dquote || N.eqb d squote then unescape_path rest'
            else backslash :: unescape_path rest
        | [] => [backslash]
        end
      else c :: unescape_path rest
  end.

Definition is_separator (c : char) : bool := one_of [chr "/"; backslash] c.

(** [str::rsplit_once] with a character. *)
Definition rsplit_once_char (d : char) (s : str) : option (str * str) :=
  '(a, b) ← split_once [d] (rev s);
  Some (rev b, rev a).

Definition looks_relative (candidate : str) : bool :=
  if negb (existsb is_separator candidate) then false
  else if existsb (fun prefix => starts_with prefix candidate)
            [$"./"; $"../"; $"." ++ [backslash]; $".." ++ [backslash]] then true
  else
    let trimmed := trim_end_by is_separator candidate in
    let segments := split_by is_separator trimmed in
    if (length segments <? 2)%nat || existsb str_is_empty segments then false
    else
      match last segments ≫= rsplit_once_char (chr ".") with
      | Some (stem, extension) =>
          negb (str_is_empty stem) && (1 <=? char_count extension) && (char_count extension <=? 8)
          && forallb is_ascii_alphabetic extension
      | None => false
      end.

Definition classify_path (token : str) : option str :=
  let raw := trim_path_punctuation token in
  let candidate := trim_path_punctuation (unescape_path raw) in
  if str_contains $"://" candidate then None
  else if looks_absolute raw || looks_absolute candidate then Some REDACTION_ABSOLUTE_PATH
  else if looks_relative candidate then Some REDACTION_RELATIVE_PATH
  else None.

(** ** The redactor *)

Definition secret_name (name : str) : bool :=
  existsb (fun marker => str_contains marker (to_ascii_lowercase name)) SECRET_NAME_MARKERS.

(** The rule for [NAME=value] with one separator: [None] when it does not
    decide the token. *)
Definition redact_assignment (separator : char) (token : str) (next : option str) (kinds : gset str)
  : option (TokenOutcome * gset str) :=
  '(name, value) ← split_once [separator] token;
  if secret_name name then
    Some
      (if is_auth_scheme value then
         (keep_and_arm (if is_canonical_auth_scheme value then Certain else IfShaped), kinds)
       else if str_is_empty value then
         (if from_option (fun next => is_auth_scheme next || looks_like_credential_value next) false next
          then (keep_and_arm IfShaped, kinds) else (keep, kinds))
       else (replace_with (name ++ [separator] ++ SECRET_PLACEHOLDER), {[ REDACTION_SECRET ]} ∪ kinds))
  else
    kind ← classify_path value;
    Some (replace_with (name ++ [separator] ++ PATH_PLACEHOLDER), {[ kind ]} ∪ kinds).

(** The rules for a token that is not an assignment. *)
Definition redact_bare (token : str) (next : option str) (kinds : gset str) : TokenOutcome * gset str :=
  if bool_decide (unwrap_token token = SELF_EVIDENT_AUTH_SCHEME) then (keep_and_arm Certain, kinds)
  else if is_auth_scheme token && from_option looks_like_credential_value false next then (keep_and_arm IfShaped, kinds)
  else if existsb (fun prefix => starts_with prefix (to_ascii_lowercase token)) SECRET_VALUE_PREFIXES
          || looks_like_aws_access_key token
  then (replace_with SECRET_PLACEHOLDER, {[ REDACTION_SECRET ]} ∪ kinds)
  else
    match classify_path token with
    | Some kind => (replace_with PATH_PLACEHOLDER, {[ kind ]} ∪ kinds)
    | None => (keep, kinds)
    end.

Definition redact_token (token : str) (next : option str) (kinds : gset str) : TokenOutcome * gset str :=
  match redact_assignment (chr "=") token next kinds with
  | Some r => r
  | None =>
      match redact_assignment (chr ":") token next kinds with
      | Some r => r
      | None => redact_bare token next kinds
      end
  end.

(** The first token that is not empty. *)
Definition next_token (tokens : list str) : option str := find (fun t => negb (str_is_empty t)) tokens.

(** The body of the loop: the output for one token, what it announces, and the
    kinds recorded. *)
Definition redact_step (arm : CredentialArm) (kinds : gset str) (token : str) (next : option str)
  : str * CredentialArm * gset str :=
  if str_is_empty token then ([], arm, kinds)
  else if is_armed arm && is_auth_scheme token then
    (token, if is_canonical_auth_scheme token then Certain else arm, kinds)
  else if is_armed arm && (bool_decide (arm = Certain) || looks_like_credential_value token) then
    (SECRET_PLACEHOLDER, Unarmed, {[ REDACTION_SECRET ]} ∪ kinds)
  else
    let '(outcome, kinds) := redact_token token next kinds in
    (default token (token_text outcome), token_arm outcome, kinds).

Fixpoint redact_tokens (arm : CredentialArm) (kinds : gset str) (tokens : list str) : list str * gset str :=
  match tokens with
  | [] => ([], kinds)
  | token :: rest =>
      let '(o, arm, kinds) := redact_step arm kinds token (next_token rest) in
      let '(out, kinds) := redact_tokens arm kinds rest in
      (o :: out, kinds)
  end.

Definition redact_for_disclosure (input : str) : Redaction :=
  let '(out, kinds) := redact_tokens Unarmed ∅ (split_char 32 input) in
  {| redaction_text := join $" " out; kind_set := kinds |}.

(** ** Examples *)

Definition shown (s : string) : str * list str := let r := redact_for_disclosure (lit s) in (redaction_text r, kinds r).

Example redact_ex1 :
  shown "see /Users/hunter/src/app and Authorization: Bearer qqq then asia" =
  ($"see <path> and Authorization: Bearer <redacted> then asia", [$"absolute_path"; $"secret"]).
Proof. vm_compute. reflexivity. Qed.

Example redact_ex2 :
  shown "API_KEY=abc, crates/tui/src/main.rs zai/glm-5.2" = ($"API_KEY=<redacted> <path> zai/glm-5.2", [$"relative_path"; $"secret"]).
Proof. vm_compute. reflexivity. Qed.

(** * Properties of redaction *)

(** ** One token *)

(** What may replace a token: a placeholder, alone or after the name and the
    separator of an assignment. *)
Definition replacement (token t : str) : Prop :=
  t = SECRET_PLACEHOLDER \/ t = PATH_PLACEHOLDER \/
  exists name sep value, (sep = chr "=" \/ sep = chr ":") /\ token = name ++ sep :: value /\
    (t = name ++ sep :: SECRET_PLACEHOLDER \/ t = name ++ sep :: PATH_PLACEHOLDER).

(** A token is kept and the kinds stay, or it is replaced and a kind recorded. *)
Definition accounted (token : str) (kinds : gset str) (t : str) (kinds' : gset str) : Prop :=
  (t = token /\ kinds' = kinds) \/ (replacement token t /\ exists k, kinds' = {[ k ]} ∪ kinds).

Lemma assignment_accounted sep token next kinds o kinds' :
  sep = chr "=" \/ sep = chr ":" -> redact_assignment sep token next kinds = Some (o, kinds') ->
  accounted token kinds (default token (token_text o)) kinds'.
Proof.
  intros Hsep. unfold redact_assignment. destruct (split_once [sep] token) as [[name value]|] eqn:E; [|done].
  apply split_once_Some in E. cbn [mbind option_bind]. unfold accounted, replacement.
  destruct (secret_name name).
  - destruct (is_auth_scheme value), (str_is_empty value); try (intros [= <- <-]; by left).
    + destruct (from_option _ _ _); intros [= <- <-]; by left.
    + intros [= <- <-]. right. split; [|eauto]. right. right. exists name, sep, value. by repeat split; auto.
  - destruct (classify_path value) as [kind|]; [|done]. intros [= <- <-].
    right. split; [|eauto]. right. right. exists name, sep, value. by repeat split; auto.
Qed.

Lemma bare_accounted token next kinds o kinds' :
  redact_bare token next kinds = (o, kinds') -> accounted token kinds (default token (token_text o)) kinds'.
Proof.
  unfold redact_bare, accounted, replacement.
  destruct (bool_decide _); [intros [= <- <-]; by left|]. destruct (_ && _); [intros [= <- <-]; by left|].
  destruct (_ || _); [intros [= <- <-]; eauto 6|].
  destruct (classify_path token) as [kind|]; intros [= <- <-]; eauto 6.
Qed.

Lemma token_accounted token next kinds o kinds' :
  redact_token token next kinds = (o, kinds') -> accounted token kinds (default token (token_text o)) kinds'.
Proof.
  unfold redact_token. destruct (redact_assignment (chr "=") _ _ _) as [r|] eqn:E.
  - intros ->. eapply assignment_accounted; [|exact E]. by left.
  - destruct (redact_assignment (chr ":") _ _ _) as [r|] eqn:E'; [|apply bare_accounted].
    intros ->. eapply assignment_accounted; [|exact E']. by right.
Qed.

Lemma step_accounted arm kinds token next o arm' kinds' :
  redact_step arm kinds token next = (o, arm', kinds') -> accounted token kinds o kinds'.
Proof.
  unfold redact_step. destruct token as [|c token]; [intros [= <- <- <-]; by left|]. cbn [str_is_empty].
  destruct (is_armed arm && is_auth_scheme _); [intros [= <- <- <-]; by left|].
  destruct (is_armed arm && _); [intros [= <- <- <-]; right; split; [by left|eauto]|].
  destruct (redact_token _ _ _) as [out ks] eqn:E. intros [= <- <- <-]. by eapply token_accounted.
Qed.

(** ** All tokens *)

Lemma redact_tokens_step arm kinds token rest out kinds' :
  redact_tokens arm kinds (token :: rest) = (out, kinds') ->
  exists o arm1 kinds1 out1, redact_step arm kinds token (next_token rest) = (o, arm1, kinds1) /\
    redact_tokens arm1 kinds1 rest = (out1, kinds') /\ out = o :: out1.
Proof.
  cbn [redact_tokens]. destruct (redact_step _ _ _ _) as [[o arm1] kinds1]. destruct (redact_tokens arm1 kinds1 rest) as [out1 ks] eqn:E.
  intros [= <- <-]. by exists o, arm1, kinds1, out1.
Qed.

Lemma redact_tokens_accounted arm kinds tokens out kinds' :
  redact_tokens arm kinds tokens = (out, kinds') ->
  kinds ⊆ kinds' /\ Forall2 (fun token o => o = token \/ replacement token o) tokens out /\
  (kinds' = ∅ -> out = tokens).
Proof.
  revert arm kinds out. induction tokens as [|token rest IH]; intros arm kinds out.
  - intros [= <- <-]. done.
  - intros (o & arm1 & kinds1 & out1 & Hs & Hr & ->)%redact_tokens_step.
    destruct (IH _ _ _ Hr) as (Hsub & Hall & Hsame). apply step_accounted in Hs as [[-> ->]|[Hrep [k ->]]].
    + split; [done|]. split; [constructor; auto|]. intros E. by rewrite Hsame.
    + split; [set_solver|]. split; [constructor; auto|]. intros ->. set_solver.
Qed.

Definition spaceless (t : str) : Prop := Forall (fun c => N.eqb 32 c = false) t.

Lemma replacement_spaceless token t : spaceless token -> replacement token t -> spaceless t.
Proof.
  unfold spaceless. intros Ht [->|[->|(name & sep & value & Hsep & -> & Hr)]]; [by repeat constructor..|].
  apply Forall_app in Ht as [Hn [Hs _]%Forall_cons].
  destruct Hr as [->| ->]; apply Forall_app; (split; [done|]); constructor; (done || by repeat constructor).
Qed.

(** The tokens of the redacted text. *)
Definition out_tokens (input : str) : list str := (redact_tokens Unarmed ∅ (split_char 32 input)).1.

Lemma disclosed_tokens input : split_char 32 (redaction_text (redact_for_disclosure input)) = out_tokens input.
Proof.
  unfold redact_for_disclosure, out_tokens. destruct (redact_tokens _ _ _) as [out ks] eqn:E. cbn.
  destruct (redact_tokens_accounted _ _ _ _ _ E) as (_ & Hall & _). apply split_join.
  - intros ->. apply Forall2_nil_inv_r in Hall. by apply split_by_not_nil in Hall.
  - pose proof (split_by_Forall (N.eqb 32) input) as Hin. change (split_by (N.eqb 32) input) with (split_char 32 input) in Hin.
    clear E. induction Hall as [|token o tokens out Ho Hall IH]; [constructor|]. apply Forall_cons in Hin as [Ht Hin].
    constructor; [|by apply IH]. destruct Ho as [->|Ho]; [done|]. by eapply replacement_spaceless.
Qed.

(** ** What is kept *)

(** A token that no rule for bare tokens removes. *)
Definition clean (t : str) : Prop :=
  classify_path t = None /\
  (forall prefix, prefix ∈ SECRET_VALUE_PREFIXES -> starts_with prefix (to_ascii_lowercase t) = false) /\
  looks_like_aws_access_key t = false.

Lemma clean_placeholders : clean SECRET_PLACEHOLDER /\ clean PATH_PLACEHOLDER.
Proof.
  assert (H : forall t, existsb (fun prefix => starts_with prefix (to_ascii_lowercase t)) SECRET_VALUE_PREFIXES = false ->
    forall prefix, prefix ∈ SECRET_VALUE_PREFIXES -> starts_with prefix (to_ascii_lowercase t) = false).
  { intros t Ht. by apply existsb_false. }
  split; (split; [by vm_compute|]); (split; [|by vm_compute]); apply H; by vm_compute.
Qed.

Lemma bare_kept token next kinds o kinds' :
  redact_bare token next kinds = (o, kinds') -> is_auth_scheme token = false -> clean (default token (token_text o)).
Proof.
  unfold redact_bare. intros E Hs. rewrite Hs in E. cbn [andb] in E.
  destruct (bool_decide (unwrap_token token = _)) eqn:Eb.
  { apply bool_decide_eq_true in Eb. unfold is_auth_scheme in Hs. rewrite Eb in Hs. by vm_compute in Hs. }
  destruct (existsb _ _ || _) eqn:Ep; [injection E as <- <-; apply clean_placeholders|].
  apply orb_false_iff in Ep as [Ep Ea].
  destruct (classify_path token) as [k|] eqn:Ec; injection E as <- <-; [apply clean_placeholders|].
  split; [done|]. split; [|done]. by apply existsb_false.
Qed.

Definition plain (t : str) : Prop := t <> [] /\ (chr "=" ∉ t) /\ (chr ":" ∉ t).

Lemma split_once_absent (c : char) (s : str) : c ∉ s -> split_once [c] s = None.
Proof. intros Hc. apply split_once_None. intros a b ->. apply Hc. set_solver. Qed.

Lemma plain_no_assignment token next kinds :
  plain token -> redact_token token next kinds = redact_bare token next kinds.
Proof.
  intros (_ & He & Hc). unfold redact_token, redact_assignment. by rewrite !split_once_absent.
Qed.

Lemma step_kept arm kinds token next o arm' kinds' :
  redact_step arm kinds token next = (o, arm', kinds') -> plain token -> is_auth_scheme token = false ->
  clean o.
Proof.
  intros E Hp Hs. unfold redact_step in E. destruct (str_is_empty token) eqn:Ee; [destruct token; [by destruct Hp|done]|].
  rewrite Hs, andb_false_r in E. destruct (is_armed arm && _); [injection E as <- _ _; apply clean_placeholders|].
  rewrite plain_no_assignment in E by done. destruct (redact_bare _ _ _) as [r ks] eqn:Eb. injection E as <- _ _.
  by eapply bare_kept.
Qed.

Lemma tokens_kept arm kinds tokens out kinds' i token o :
  redact_tokens arm kinds tokens = (out, kinds') -> tokens !! i = Some token -> out !! i = Some o ->
  plain token -> is_auth_scheme token = false -> clean o.
Proof.
  revert arm kinds out i. induction tokens as [|t rest IH]; [done|].
  intros arm kinds out i (o1 & arm1 & kinds1 & out1 & Hs & Hr & ->)%redact_tokens_step. destruct i as [|i]; cbn.
  - intros [= ->] [= <-] Hp Ha. by eapply step_kept.
  - by eapply IH.
Qed.

(** ** What is announced *)

Definition blank_tokens (ts : list str) : Prop := Forall (fun t => t = []) ts.

Lemma certain_tokens kinds blanks value rest out kinds' :
  blank_tokens blanks -> value <> [] -> is_auth_scheme value = false ->
  redact_tokens Certain kinds (blanks ++ value :: rest) = (out, kinds') ->
  out !! length blanks = Some SECRET_PLACEHOLDER.
Proof.
  intros Hb Hv Hs. revert kinds out. induction Hb as [|t blanks -> _ IH]; intros kinds out;
    intros (o & arm1 & kinds1 & out1 & Ho & Hr & ->)%redact_tokens_step.
  - unfold redact_step in Ho. destruct value as [|c value]; [done|]. cbn [str_is_empty] in Ho. rewrite Hs in Ho.
    cbn in Ho. by injection Ho as <- _ _.
  - injection Ho as _ <- <-. by apply (IH _ _ Hr).
Qed.

Lemma bearer_step arm kinds next :
  redact_step arm kinds SELF_EVIDENT_AUTH_SCHEME next = (SELF_EVIDENT_AUTH_SCHEME, Certain, kinds).
Proof. destruct arm; vm_compute; reflexivity. Qed.

Lemma announced_tokens arm kinds pre blanks value rest out kinds' :
  blank_tokens blanks -> value <> [] -> is_auth_scheme value = false ->
  redact_tokens arm kinds (pre ++ SELF_EVIDENT_AUTH_SCHEME :: blanks ++ value :: rest) = (out, kinds') ->
  out !! (length pre + S (length blanks))%nat = Some SECRET_PLACEHOLDER.
Proof.
  intros Hb Hv Hs. revert arm kinds out. induction pre as [|t pre IH]; intros arm kinds out;
    intros (o & arm1 & kinds1 & out1 & Ho & Hr & ->)%redact_tokens_step; cbn.
  - rewrite bearer_step in Ho. injection Ho as _ <- _. by eapply certain_tokens.
  - by eapply IH.
Qed.

(** redacted text keeps its shape and its guarantees, for any input: every
    token between spaces is kept or replaced by a placeholder (after the name,
    in an assignment); when no kind is recorded the text is the input; no kept
    token without [=] or [:] is a path, an AWS key or starts with a credential
    prefix; and the word after [Bearer], whatever it looks like, is gone. *)
Theorem disclosure_is_guarded input :
  let r := redact_for_disclosure input in
  let ins := split_char 32 input in
  let out := split_char 32 (redaction_text r) in
  Forall2 (fun token o => o = token \/ replacement token o) ins out /\
  (redacted r = false -> redaction_text r = input) /\
  (forall i token o, ins !! i = Some token -> out !! i = Some o -> plain token -> is_auth_scheme token = false ->
   clean o) /\
  (forall pre blanks value rest, ins = pre ++ SELF_EVIDENT_AUTH_SCHEME :: blanks ++ value :: rest ->
   blank_tokens blanks -> value <> [] -> is_auth_scheme value = false ->
   out !! (length pre + S (length blanks))%nat = Some SECRET_PLACEHOLDER).
Proof.
  intros r ins out. unfold out, r. rewrite disclosed_tokens. unfold out_tokens, redact_for_disclosure. fold ins.
  destruct (redact_tokens Unarmed ∅ ins) as [o ks] eqn:E. cbn [fst redaction_text].
  destruct (redact_tokens_accounted _ _ _ _ _ E) as (_ & Hall & Hsame). split; [done|]. split.
  - intros Hr%negb_false_iff%bool_decide_eq_true. rewrite Hsame by done. apply join_split.
  - split; [intros i token x; by eapply tokens_kept|].
    intros pre blanks value rest -> Hb Hv Hs. by eapply announced_tokens.
Qed.

(** ** What is not guarded *)

(** The name of an assignment is kept, a path included. *)
Example path_before_a_colon_is_disclosed :
  shown "docker -v /Users/hunter/src:/app" = ($"docker -v /Users/hunter/src:<path>", [$"absolute_path"]) /\
  shown "/home/x/token: next" = ($"/home/x/token: next", []).
Proof. by vm_compute. Qed.

(** Only the first [=] and the first [:] of a token are looked at. *)
Example second_assignment_is_disclosed :
  shown "host/cb?user=a&api_key=hunter2hunter2" = ($"host/cb?user=a&api_key=hunter2hunter2", []).
Proof. by vm_compute. Qed.

(** Redacting twice can remove more than redacting once. *)
Example redaction_is_not_idempotent :
  shown "b:/y=/z" = ($"b:/y=<path>", [$"absolute_path"]) /\ shown "b:/y=<path>" = ($"b:<path>", [$"absolute_path"]).
Proof. by vm_compute. Qed.
