(* ===== verification/Json.v ===== *)
(** * JSON values

    [serde_json::Value] as the program reads and edits it.  An object keeps its
    entries in insertion order (the workspace enables [preserve_order]) with
    one entry per key; [Map::insert] overwrites in place.  Parsing and printing
    belong to serde_json and are parameters wherever they are needed. *)

From S2P Require Import Text.

Inductive Number := PosInt (n : Z) | NegInt (n : Z) | Float (bits : Z).

Inductive Value :=
| Null
| Bool (b : bool)
| Num (n : Number)
| Str (s : str)
| Array (vs : list Value)
| Object (entries : list (str * Value)).

#[export] Instance Number_eq_dec : EqDecision Number.
Proof. solve_decision. Defined.

Abbreviation Map := (list (str * Value)) (only parsing).

Section induction.
Context (P : Value -> Prop)
  (HNull : P Null) (HBool : forall b, P (Bool b)) (HNum : forall n, P (Num n)) (HStr : forall s, P (Str s))
  (HArray : forall vs, Forall P vs -> P (Array vs))
  (HObject : forall m, Forall (fun e => P e.2) m -> P (Object m)).

(** Induction over the nested arrays and objects. *)
Fixpoint Value_nested_ind (v : Value) : P v :=
  match v with
  | Null => HNull
  | Bool b => HBool b
  | Num n => HNum n
  | Str s => HStr s
  | Array vs => HArray vs (list_ind (Forall P) (Forall_nil_2 P) (fun w _ IH => Forall_cons_2 P w _ (Value_nested_ind w) IH) vs)
  | Object m =>
      HObject m (list_ind (Forall (fun e => P e.2)) (Forall_nil_2 _)
        (fun e _ IH => Forall_cons_2 (fun e => P e.2) e _ (Value_nested_ind e.2) IH) m)
  end.
End induction.

(** ** Reading and editing *)

(** [Map::get]. *)
Fixpoint map_get (m : Map) (k : str) : option Value :=
  match m with
  | [] => None
  | (k', v) :: m => if bool_decide (k = k') then Some v else map_get m k
  end.

(** [Map::insert]. *)
Fixpoint map_insert (m : Map) (k : str) (v : Value) : Map :=
  match m with
  | [] => [(k, v)]
  | (k', v') :: m => if bool_decide (k = k') then (k', v) :: m else (k', v') :: map_insert m k v
  end.

Definition as_object (v : Value) : option Map := match v with Object m => Some m | _ => None end.
Definition as_array (v : Value) : option (list Value) := match v with Array vs => Some vs | _ => None end.
Definition as_str (v : Value) : option str := match v with Str s => Some s | _ => None end.
Definition as_bool (v : Value) : option bool := match v with Bool b => Some b | _ => None end.
Definition as_u64 (v : Value) : option Z := match v with Num (PosInt n) => Some n | _ => None end.

(** [Value::get] with a string index. *)
Definition get (v : Value) (k : str) : option Value := m ← as_object v; map_get m k.

(** [json!] on an [Option<&str>]. *)
Definition opt_str (o : option str) : Value := match o with Some s => Str s | None => Null end.
Definition uint (n : Z) : Value := Num (PosInt n).

Definition keys (m : Map) : list str := m.*1.

(** ** Lemmas *)

Lemma map_get_insert m k v : map_get (map_insert m k v) k = Some v.
Proof.
  induction m as [|[k' v'] m IH]; simpl; [by rewrite bool_decide_true|].
  destruct (decide (k = k')) as [->|]; [rewrite bool_decide_true by done|rewrite bool_decide_false by done].
  - simpl. by rewrite bool_decide_true.
  - simpl. by rewrite bool_decide_false.
Qed.

Lemma map_get_insert_ne m k k' v : k <> k' -> map_get (map_insert m k v) k' = map_get m k'.
Proof.
  intros Hk. induction m as [|[k0 v0] m IH]; simpl; [by rewrite bool_decide_false by congruence|].
  destruct (decide (k = k0)) as [->|Hn]; [rewrite bool_decide_true by done|rewrite (bool_decide_false (k = k0)) by done].
  - simpl. by rewrite bool_decide_false by congruence.
  - simpl. by rewrite IH.
Qed.

Lemma map_get_None m k : map_get m k = None <-> k ∉ keys m.
Proof.
  induction m as [|[k' v'] m IH]; simpl; [set_solver|].
  destruct (decide (k = k')) as [->|Hn]; [rewrite bool_decide_true by done; set_solver|].
  rewrite bool_decide_false by done. rewrite IH. set_solver.
Qed.

Lemma map_get_Some m k v : NoDup (keys m) -> map_get m k = Some v <-> (k, v) ∈ m.
Proof.
  induction m as [|[k' v'] m IH]; simpl; [set_solver|]. intros [Hk Hnd]%NoDup_cons.
  destruct (decide (k = k')) as [->|Hn]; [rewrite bool_decide_true by done|rewrite bool_decide_false by done].
  - rewrite elem_of_cons. split; [intros [= ->]; by left|]. intros [[= ->]|Hin]; [done|].
    destruct Hk. by apply (list_elem_of_fmap_2 fst) in Hin.
  - rewrite IH by done. set_solver.
Qed.

(** Appending to an object that lacks the key. *)
Lemma map_insert_new m k v : k ∉ keys m -> map_insert m k v = m ++ [(k, v)].
Proof.
  induction m as [|[k' v'] m IH]; simpl; [done|]. intros [Hk Hin]%not_elem_of_cons.
  rewrite bool_decide_false by done. by rewrite IH.
Qed.

Fixpoint well_formed (v : Value) : Prop :=
  match v with
  | Array vs => (fix go vs := match vs with [] => True | w :: vs => well_formed w /\ go vs end) vs
  | Object m =>
      NoDup (keys m) /\
      (fix go (m : Map) := match m with [] => True | (_, w) :: m => well_formed w /\ go m end) m
  | _ => True
  end.

Lemma well_formed_Array vs : well_formed (Array vs) <-> Forall well_formed vs.
Proof.
  simpl. induction vs as [|v vs IH]; [by rewrite Forall_nil|]. by rewrite Forall_cons, IH.
Qed.

Lemma well_formed_Object m : well_formed (Object m) <-> NoDup (keys m) /\ Forall (fun e => well_formed e.2) m.
Proof.
  simpl. apply and_iff_compat_l. induction m as [|[k v] m IH]; [by rewrite Forall_nil|]. by rewrite Forall_cons, IH.
Qed.

(** ** Equality of values up to the order of the keys *)

Fixpoint same_value (v w : Value) : bool :=
  match v, w with
  | Null, Null => true
  | Bool b, Bool c => Bool.eqb b c
  | Num n, Num n' => bool_decide (n = n')
  | Str s, Str t => bool_decide (s = t)
  | Array vs, Array ws =>
      (fix go vs ws :=
         match vs, ws with
         | [], [] => true
         | v :: vs, w :: ws => same_value v w && go vs ws
         | _, _ => false
         end) vs ws
  | Object m, Object n =>
      bool_decide (length m = length n) &&
      forallb (fun e => match map_get n e.1 with Some w => same_value e.2 w | None => false end) m
  | _, _ => false
  end.
