(* ===== verification/Tools.v ===== *)
(** * The tools crate

    [crates/tools/src]: the error and result of a tool ([lib.rs]), the terminal
    outcome of a call ([outcome.rs]), the resource claims a call makes and the
    scheduler that batches calls by them ([resources.rs]), and the registry that
    validates a call before it runs a handler ([lib.rs]). *)

From S2P Require Import Text Json.

(** ** Errors and results ([lib.rs]) *)

(** A [Path] is the list of its components: [PartialEq] and [starts_with]
    compare components, not characters. *)
Definition Path : Type := list str.

Inductive ToolError :=
| InvalidInput (message : str)
| MissingField (field : str)
| PathEscape (path : Path)
| ExecutionFailed (message : str)
| Timeout (seconds : Z)
| ToolCancelled (message : str)
| NotAvailable (message : str)
| PermissionDenied (message : str).

Record ToolResult := { content : str; success : bool; metadata : option Value }.

Definition ToolResult_success (c : str) : ToolResult := {| content := c; success := true; metadata := None |}.
Definition ToolResult_error (m : str) : ToolResult := {| content := m; success := false; metadata := None |}.
Definition with_metadata (r : ToolResult) (m : Value) : ToolResult :=
  {| content := content r; success := success r; metadata := Some m |}.

(** The fields the caller did supply are listed in the error. *)
Definition required_str (input : Value) (field : str) : result ToolError str :=
  ok_or (get input field ≫= as_str)
    (let provided := default [] (keys <$> as_object input) in
     match provided with
     | [] => MissingField field
     | _ => InvalidInput ($"missing required field '" ++ field ++ $"'. Input provided: " ++ join $", " provided)
     end).

Definition optional_str (input : Value) (field : str) : option str := get input field ≫= as_str.
Definition required_u64 (input : Value) (field : str) : result ToolError Z :=
  ok_or (get input field ≫= as_u64) (MissingField field).
Definition optional_u64 (input : Value) (field : str) (dflt : Z) : Z := default dflt (get input field ≫= as_u64).
Definition optional_bool (input : Value) (field : str) (dflt : bool) : bool := default dflt (get input field ≫= as_bool).

(** ** Terminal outcomes ([outcome.rs]) *)

Inductive ToolTerminalStatus := Succeeded | Failed | Denied | InvalidArguments | Cancelled | TimedOut.

Definition status_as_str (s : ToolTerminalStatus) : str :=
  match s with
  | Succeeded => $"succeeded"
  | Failed => $"failed"
  | Denied => $"denied"
  | InvalidArguments => $"invalid_arguments"
  | Cancelled => $"cancelled"
  | TimedOut => $"timed_out"
  end.

Record ToolExecutionOutcome := { status : ToolTerminalStatus; out_result : option ToolResult; out_error : option ToolError }.

Definition from_legacy (result : result ToolError ToolResult) : ToolExecutionOutcome :=
  match result with
  | Ok r => {| status := if success r then Succeeded else Failed; out_result := Some r; out_error := None |}
  | Err e =>
      {| status := match e with
                   | InvalidInput _ | MissingField _ => InvalidArguments
                   | PathEscape _ | PermissionDenied _ => Denied
                   | Timeout _ => TimedOut
                   | ToolCancelled _ => Cancelled
                   | ExecutionFailed _ | NotAvailable _ => Failed
                   end;
         out_result := None; out_error := Some e |}
  end.

Definition cancelled (r : ToolResult) : ToolExecutionOutcome :=
  {| status := Cancelled; out_result := Some r; out_error := None |}.

(** [None] is the [unreachable!] arm. *)
Definition legacy_result (o : ToolExecutionOutcome) : option (result ToolError ToolResult) :=
  match out_result o, out_error o with
  | Some r, None => Some (Ok r)
  | None, Some e => Some (Err e)
  | _, _ => None
  end.

(** ** Resource claims ([resources.rs]) *)

Inductive ResourceClaim :=
| ReadPath (p : Path)
| WritePath (p : Path)
| ReadTree (p : Path)
| WriteTree (p : Path)
| Terminal (s : str)
| GlobalExclusive.

#[export] Instance ResourceClaim_eq_dec : EqDecision ResourceClaim.
Proof. solve_decision. Defined.

(** [Path::starts_with]. *)
Fixpoint path_starts_with (p base : Path) : bool :=
  match base, p with
  | [], _ => true
  | b :: base, c :: p => bool_decide (b = c) && path_starts_with p base
  | _ :: _, [] => false
  end.

Definition trees_overlap (l r : Path) : bool :=
  path_starts_with l r || path_starts_with r l.

Definition conflicts_with (a b : ResourceClaim) : bool :=
  match a, b with
  | GlobalExclusive, _ | _, GlobalExclusive => true
  | Terminal l, Terminal r => bool_decide (l = r)
  | ReadPath _, ReadPath _ => false
  | ReadPath l, WritePath r | WritePath r, ReadPath l => bool_decide (l = r)
  | WritePath l, WritePath r => bool_decide (l = r)
  | ReadTree _, ReadTree _ => false
  | ReadTree _, ReadPath _ | ReadPath _, ReadTree _ => false
  | ReadTree tree, WritePath path | WritePath path, ReadTree tree => path_starts_with path tree
  | WriteTree tree, ReadPath path | ReadPath path, WriteTree tree => path_starts_with path tree
  | WriteTree tree, WritePath path | WritePath path, WriteTree tree => path_starts_with path tree
  | ReadTree l, WriteTree r | WriteTree r, ReadTree l => trees_overlap l r
  | WriteTree l, WriteTree r => trees_overlap l r
  | _, _ => false
  end.

Section schedule.
Context {T : Type}.

(** The loop of [schedule_non_conflicting]: the finished batches, the open
    batch and the claims of its items. *)
Record Scheduling := { batches : list (list T); batch : list T; batch_claims : list ResourceClaim }.

Definition has_global (claims : list ResourceClaim) : bool := bool_decide (GlobalExclusive ∈ claims).

(** [conflicts] of the loop, for an item's claims against the open batch. *)
Definition conflicts_batch (s : Scheduling) (claims : list ResourceClaim) : bool :=
  (match batch s with [] => false | _ => true end && (has_global claims || has_global (batch_claims s)))
  || existsb (fun claim => existsb (fun existing => conflicts_with claim existing) (batch_claims s)) claims.

Definition schedule_item (s : Scheduling) (x : T * list ResourceClaim) : Scheduling :=
  let '(item, claims) := x in
  let s := if conflicts_batch s claims && match batch s with [] => false | _ => true end
           then {| batches := batches s ++ [batch s]; batch := []; batch_claims := [] |}
           else s in
  {| batches := batches s; batch := batch s ++ [item]; batch_claims := batch_claims s ++ claims |}.

Definition schedule_non_conflicting (items : list (T * list ResourceClaim)) : list (list T) :=
  let s := foldl schedule_item {| batches := []; batch := []; batch_claims := [] |} items in
  match batch s with [] => batches s | b => batches s ++ [b] end.
End schedule.
Arguments Scheduling : clear implicits.

(** ** The registry ([lib.rs], payloads from [crates/protocol]) *)

Inductive ToolKind := KFunction | KMcp.

#[export] Instance ToolKind_eq_dec : EqDecision ToolKind.
Proof. solve_decision. Defined.

Record LocalShellParams := { command : str; cwd : option str; shell_timeout_ms : option Z }.

Inductive ToolPayload :=
| PFunction (arguments : str)
| PCustom (input : str)
| PLocalShell (params : LocalShellParams)
| PMcp (server tool : str) (raw_arguments : Value) (raw_tool_call_id : option str).

Inductive ToolOutput := OFunction (body : option Value) (success : bool) | OMcp (result : Value).

Inductive ToolCallSource := Direct | JsRepl.

Record ToolDescriptor := {
  tool_name : str; input_schema : Value; output_schema : Value;
  spec_parallel : bool; timeout_ms : option Z }.

Record ConfiguredToolDescriptor := { spec : ToolDescriptor; supports_parallel_tool_calls : bool }.

Record ToolCall := { call_name : str; payload : ToolPayload; source : ToolCallSource; raw_tool_call_id : option str }.

Definition execution_subject (call : ToolCall) (fallback_cwd : str) : str * str * str :=
  match payload call with
  | PLocalShell params => (command params, default fallback_cwd (cwd params), $"shell")
  | _ => (call_name call, fallback_cwd, $"tool")
  end.

Record ToolInvocation := { inv_call_id : str; inv_tool_name : str; inv_payload : ToolPayload; inv_source : ToolCallSource }.

Inductive FunctionCallError :=
| ToolNotFound (name : str)
| KindMismatch (expected got : ToolKind)
| MutatingToolRejected (name : str)
| CallTimedOut (name : str) (timeout_ms : Z)
| CallCancelled (name : str)
| CallExecutionFailed (name error : str).

Definition tool_payload_kind (p : ToolPayload) : ToolKind :=
  match p with PMcp _ _ _ _ => KMcp | PFunction _ | PCustom _ | PLocalShell _ => KFunction end.

(** A [ToolHandler]: its trait methods.  [handle] returns [None] where the
    deadline it is given passes before the future completes; without a
    deadline the future is awaited. *)
Record ToolHandler := {
  kind : ToolKind;
  matches_kind : ToolKind -> bool;
  is_mutating : bool;
  handle : option Z -> ToolInvocation -> option (result FunctionCallError ToolOutput) }.

(** The default method of the trait. *)
Definition matches_own_kind (own : ToolKind) (k : ToolKind) : bool := bool_decide (own = k).

Record ToolRegistry := { handlers : gmap str ToolHandler; specs : gmap str ConfiguredToolDescriptor }.

Definition register (r : ToolRegistry) (sp : ToolDescriptor) (h : ToolHandler) : ToolRegistry :=
  {| handlers := <[tool_name sp := h]> (handlers r);
     specs := <[tool_name sp := {| spec := sp; supports_parallel_tool_calls := spec_parallel sp |}]> (specs r) |}.

(** How a call holds the execution lock. *)
Inductive ToolExecutionGuard := GParallel | GSerial | GReentrant.

Definition acquire (lock_held supports_parallel : bool) : ToolExecutionGuard :=
  if lock_held then GReentrant else if supports_parallel then GParallel else GSerial.

(** The handler run of a call that has passed validation, with the lock mode
    it runs under; [fresh] stands for the generated call id. *)
Record Dispatch := { d_guard : ToolExecutionGuard; d_timeout : option Z; d_handler : ToolHandler; d_invocation : ToolInvocation }.

Definition admit_call (r : ToolRegistry) (fresh : str) (lock_held : bool) (call : ToolCall) (allow_mutating : bool)
    : result FunctionCallError Dispatch :=
  h ← ok_or (handlers r !! call_name call) (ToolNotFound (call_name call));
  configured ← ok_or (specs r !! call_name call) (ToolNotFound (call_name call));
  let payload_kind := tool_payload_kind (payload call) in
  reject_if (negb (matches_kind h payload_kind)) (KindMismatch (kind h) payload_kind);;
  reject_if (is_mutating h && negb allow_mutating) (MutatingToolRejected (call_name call));;
  Ok {| d_guard := acquire lock_held (supports_parallel_tool_calls configured);
        d_timeout := timeout_ms (spec configured);
        d_handler := h;
        d_invocation := {| inv_call_id := default ($"tool-call-" ++ fresh) (raw_tool_call_id call);
                           inv_tool_name := call_name call;
                           inv_payload := payload call;
                           inv_source := source call |} |}.

(** [None]: a call without a deadline whose future never completes. *)
Definition execute_with_timeout (d : Dispatch) : option (result FunctionCallError ToolOutput) :=
  match d_timeout d with
  | Some ms =>
      Some (default (Err (CallTimedOut (inv_tool_name (d_invocation d)) ms)) (handle (d_handler d) (Some ms) (d_invocation d)))
  | None => handle (d_handler d) None (d_invocation d)
  end.

Definition dispatch (r : ToolRegistry) (fresh : str) (lock_held : bool) (call : ToolCall) (allow_mutating : bool)
    : option (result FunctionCallError ToolOutput) :=
  match admit_call r fresh lock_held call allow_mutating with
  | Err e => Some (Err e)
  | Ok d => execute_with_timeout d
  end.

(** * Properties of the tools crate

    The scheduler against a declarative description of a greedy batching, the
    claims it compares against the accesses they stand for, and the guards of
    the registry's dispatch. *)

(** ** What a claim grants *)

Inductive Access := AReadPath | AWritePath.

(** The paths a claim lets its call read and write. *)
Definition writes (c : ResourceClaim) (p : Path) : Prop :=
  match c with WritePath q => p = q | WriteTree t => t `prefix_of` p | _ => False end.
Definition reads (c : ResourceClaim) (p : Path) : Prop :=
  match c with ReadPath q => p = q | ReadTree t => t `prefix_of` p | _ => False end.

(** Two claims that must not be exercised at the same time. *)
Definition interferes (a b : ResourceClaim) : Prop :=
  a = GlobalExclusive \/ b = GlobalExclusive \/ (exists s, a = Terminal s /\ b = Terminal s) \/
  exists p, (writes a p /\ (writes b p \/ reads b p)) \/ (reads a p /\ writes b p).

Lemma path_starts_with_spec p base : path_starts_with p base = true <-> base `prefix_of` p.
Proof.
  revert p. induction base as [|b base IH]; intros [|c p]; simpl.
  - split; [intros _; exists []; done|done].
  - split; [intros _; apply prefix_nil|done].
  - split; [done|]. intros [k Hk]. done.
  - rewrite andb_true_iff, bool_decide_eq_true, IH. split.
    + intros [-> H]. by apply prefix_cons.
    + intros H. split; [by eapply prefix_cons_inv_1|by eapply prefix_cons_inv_2].
Qed.

Lemma trees_overlap_spec l r : trees_overlap l r = true <-> exists p, (l `prefix_of` p) /\ (r `prefix_of` p).
Proof.
  unfold trees_overlap. rewrite orb_true_iff, !path_starts_with_spec. split.
  - intros [H|H]; eauto.
  - intros (p & H1 & H2). destruct (prefix_weak_total _ _ _ H1 H2); auto.
Qed.

(** Two resource claims conflict exactly when they interfere: one is the
    global claim, both name the same terminal, or there is a path that one of
    them may write and the other may read or write. *)
Lemma conflicts_are_interference a b : conflicts_with a b = true <-> interferes a b.
Proof.
  unfold interferes.
  destruct a, b; simpl; rewrite ?path_starts_with_spec, ?trees_overlap_spec, ?bool_decide_eq_true; naive_solver.
Qed.

(** ** Batching *)

Lemma ForallOrdPairs_snoc {A} (R : A -> A -> Prop) l x :
  ForallOrdPairs R (l ++ [x]) <-> ForallOrdPairs R l /\ Forall (fun y => R y x) l.
Proof.
  induction l as [|y l IH]; simpl.
  - split; [by repeat constructor|]. intros _. repeat constructor.
  - split.
    + inversion 1 as [|? ? H1 H2]; subst. apply IH in H2 as [H2 H3]. apply Forall_app in H1 as [H1 H4].
      inversion H4; subst. by repeat constructor.
    + intros [H1 H2]. inversion H1; subst. inversion H2; subst. constructor; [|by apply IH].
      apply Forall_app. by repeat constructor.
Qed.

Lemma ForallOrdPairs_split {A} (R : A -> A -> Prop) l x k :
  ForallOrdPairs R (l ++ x :: k) -> Forall (fun y => R y x) l.
Proof.
  induction l as [|y l IH]; simpl; [constructor|]. inversion 1 as [|? ? H1 H2]; subst.
  constructor; [|by apply IH]. by apply Forall_app in H1 as [_ [H1 _]%Forall_cons].
Qed.

(** Only the last element's relation to its predecessor can change. *)
Lemma Sorted_replace_last {A} (R : A -> A -> Prop) l x y :
  Sorted R (l ++ [x]) -> (forall z, R z x -> R z y) -> Sorted R (l ++ [y]).
Proof.
  intros Hs Hxy. induction l as [|z l IH]; simpl in *; [by repeat constructor|].
  inversion Hs as [|? ? H1 H2]; subst. constructor; [by apply IH|].
  destruct l as [|w l]; simpl in *; inversion H2; subst; constructor; auto.
Qed.

Lemma Sorted_snoc {A} (R : A -> A -> Prop) l x y : Sorted R (l ++ [x]) -> R x y -> Sorted R ((l ++ [x]) ++ [y]).
Proof.
  intros Hs Hxy. induction l as [|z l IH]; simpl in *; [by repeat constructor|].
  inversion Hs as [|? ? H1 H2]; subst. constructor; [by apply IH|].
  destruct l as [|w l]; simpl in *; inversion H2; subst; by constructor.
Qed.

Section schedule.
Context {T : Type}.
Implicit Types (x y : T * list ResourceClaim) (b : list (T * list ResourceClaim)).

(** Two calls that may run at the same time.  A call with the global claim
    runs alone, even beside a call without claims. *)
Definition compatible x y : Prop :=
  (GlobalExclusive ∉ x.2) /\ (GlobalExclusive ∉ y.2) /\ forall c d, c ∈ x.2 -> d ∈ y.2 -> ~ interferes c d.

Definition batch_ok b : Prop := b <> [] /\ ForallOrdPairs compatible b.

(** A batch is closed only because the next call cannot join it. *)
Definition follows b c : Prop := exists x, head c = Some x /\ exists y, y ∈ b /\ ~ compatible y x.

Definition greedy (bs : list (list (T * list ResourceClaim))) : Prop := Forall batch_ok bs /\ Sorted follows bs.

Lemma interferes_sym c d : interferes c d -> interferes d c.
Proof. unfold interferes. naive_solver. Qed.

Lemma greedy_unique bs cs : greedy bs -> greedy cs -> concat bs = concat cs -> bs = cs.
Proof.
  assert (Hshort : forall b k bs c cs, batch_ok c -> greedy (b :: bs) -> c = b ++ k ->
            concat bs = k ++ cs -> k = []).
  { intros b [|x k] bs' c cs' [_ Hc] [Hok Hs] -> He; [done|]. exfalso.
    inversion Hs as [|? ? _ Hd]; subst. destruct Hd as [|c' bs' (z & Hz & y & Hy & Hn)]; [done|].
    destruct c' as [|z' c']; [done|]. injection Hz as ->. simpl in He. injection He as -> _.
    apply ForallOrdPairs_split in Hc. rewrite Forall_forall in Hc. by apply Hn, Hc. }
  revert cs. induction bs as [|b bs IH]; intros [|c cs] Hb Hc He; simpl in He; [done|..].
  - destruct Hc as [[[Hn _] _]%Forall_cons _]. by destruct c.
  - destruct Hb as [[[Hn _] _]%Forall_cons _]. by destruct b.
  - assert (b = c) as ->.
    { pose proof (proj1 Hb) as [Hbo _]%Forall_cons. pose proof (proj1 Hc) as [Hco _]%Forall_cons.
      apply app_eq_inv in He as [(k & Hk & He)|(k & Hk & He)].
      - rewrite (Hshort c k cs b (concat bs)) in Hk by done. by rewrite app_nil_r in Hk.
      - rewrite (Hshort b k bs c (concat cs)) in Hk by done. by rewrite app_nil_r in Hk. }
    f_equal. apply IH; [..|by apply app_inv_head in He].
    + destruct Hb as [[_ ?]%Forall_cons Hs]. by inversion Hs.
    + destruct Hc as [[_ ?]%Forall_cons Hs]. by inversion Hs.
Qed.

Definition calls_of (bs : list (list (T * list ResourceClaim))) : list (list T) := (fun c => c.*1) <$> bs.

(** The loop state against the batches with their claims kept. *)
Definition represents (s : Scheduling T) (done_ : list (list (T * list ResourceClaim))) b : Prop :=
  batches s = calls_of done_ /\ batch s = b.*1 /\ batch_claims s = b ≫= snd.

Lemma conflict_has_cause (s : Scheduling T) done_ b x :
  represents s done_ b -> conflicts_batch s x.2 = true -> exists y, y ∈ b /\ ~ compatible y x.
Proof.
  intros (_ & Hb & Hc). unfold conflicts_batch, has_global. rewrite Hb, Hc.
  rewrite orb_true_iff, andb_true_iff, orb_true_iff, !bool_decide_eq_true, existsb_spec.
  intros [[Hne [Hg|Hg]]|(c & Hx & Hd)].
  - destruct b as [|y b]; [done|]. exists y. split; [by left|]. by intros (_ & ? & _).
  - apply list_elem_of_bind in Hg as (y & Hg & Hy). exists y. split; [done|]. by intros (? & _).
  - apply existsb_spec in Hd as (d & Hd & Hi). apply list_elem_of_bind in Hd as (y & Hd & Hy).
    exists y. split; [done|]. intros (_ & _ & Hn). apply (Hn d c); [done..|]. by apply interferes_sym, conflicts_are_interference.
Qed.

Lemma no_conflict_joins (s : Scheduling T) done_ b x :
  represents s done_ b -> conflicts_batch s x.2 = false -> Forall (fun y => compatible y x) b.
Proof.
  intros (_ & Hb & Hc). unfold conflicts_batch, has_global. rewrite Hb, Hc. clear Hb Hc.
  rewrite orb_false_iff, andb_false_iff, orb_false_iff, !bool_decide_eq_false, existsb_false.
  intros [[Hne|[Hg1 Hg2]] Hf]; [by destruct b|]. apply Forall_forall. intros y Hy. split_and!; [|done|].
  - intros Hg. apply Hg2, list_elem_of_bind. eauto.
  - intros d c Hd Hcx Hi. specialize (Hf c Hcx). rewrite existsb_false in Hf.
    assert (conflicts_with c d = false) as Hcd by (apply Hf, list_elem_of_bind; eauto).
    by apply interferes_sym, conflicts_are_interference in Hi; rewrite Hcd in Hi.
Qed.

Lemma schedule_item_step (s : Scheduling T) done_ b x :
  represents s done_ b -> Forall batch_ok done_ -> Sorted follows (done_ ++ [b]) -> ForallOrdPairs compatible b ->
  (b = [] -> done_ = []) ->
  exists done' b', represents (schedule_item s x) done' b' /\ greedy (done' ++ [b']) /\
    concat (done' ++ [b']) = concat (done_ ++ [b]) ++ [x].
Proof.
  intros Hr Hd Hs Hb He. unfold schedule_item. destruct x as [item claims].
  assert (Hopen : match batch s with [] => false | _ => true end = bool_decide (b <> [])).
  { destruct Hr as (_ & -> & _). destruct b; symmetry; [apply bool_decide_eq_false; naive_solver|by apply bool_decide_eq_true]. }
  rewrite Hopen. clear Hopen. destruct (conflicts_batch s claims && bool_decide (b <> [])) eqn:Ec.
  - apply andb_prop in Ec as [Ec Hne%bool_decide_eq_true].
    destruct (conflict_has_cause s done_ b (item, claims) Hr Ec) as (y & Hy & Hn). destruct Hr as (H1 & H2 & H3).
    exists (done_ ++ [b]), [(item, claims)]. split; [|split].
    + unfold represents, calls_of. simpl. by rewrite fmap_app, H1, H2, app_nil_r.
    + split.
      * rewrite !Forall_app, !Forall_singleton. split_and!; [done|done|]. split; [done|]. repeat constructor.
      * apply Sorted_snoc; [done|]. exists (item, claims). split; [done|]. by exists y.
    + rewrite !concat_app. simpl. by rewrite !app_nil_r.
  - assert (Hj : Forall (fun y => compatible y (item, claims)) b).
    { apply andb_false_iff in Ec as [Ec|Hn%bool_decide_eq_false]; [by eapply (no_conflict_joins s)|].
      destruct b; [constructor|]. by destruct Hn. }
    destruct Hr as (H1 & H2 & H3). exists done_, (b ++ [(item, claims)]). split; [|split].
    + unfold represents. simpl. rewrite fmap_app, bind_app, H2, H3. simpl. by rewrite app_nil_r.
    + split.
      * apply Forall_app. split; [done|]. apply Forall_singleton. split; [by destruct b|]. by apply ForallOrdPairs_snoc.
      * destruct b as [|z b]; [rewrite He by done; by repeat constructor|].
        eapply Sorted_replace_last; [exact Hs|]. intros c (z' & [= <-] & Hz). by exists z.
    + rewrite !concat_app. simpl. by rewrite !app_nil_r, app_assoc.
Qed.

Lemma schedule_loop (items : list (T * list ResourceClaim)) s done_ b :
  represents s done_ b -> greedy (done_ ++ [b]) ->
  exists done' b', represents (foldl schedule_item s items) done' b' /\ greedy (done' ++ [b']) /\
    concat (done' ++ [b']) = concat (done_ ++ [b]) ++ items.
Proof.
  revert s done_ b. induction items as [|x items IH]; intros s done_ b Hr Hg; simpl.
  - exists done_, b. by rewrite app_nil_r.
  - pose proof (proj1 Hg) as [Hd [Hb _]%Forall_cons]%Forall_app.
    destruct (schedule_item_step s done_ b x) as (d & b' & Hr' & Hg' & Hc'); [done|done|apply Hg|apply Hb|by destruct Hb|].
    destruct (IH _ _ _ Hr' Hg') as (d2 & b2 & H1 & H2 & H3). exists d2, b2. split; [done|split; [done|]].
    rewrite H3, Hc', <-app_assoc. done.
Qed.

Lemma schedule_greedy (items : list (T * list ResourceClaim)) :
  exists bs, schedule_non_conflicting items = calls_of bs /\ concat bs = items /\ greedy bs.
Proof.
  unfold schedule_non_conflicting. destruct items as [|x items]; [by exists []; repeat constructor|]. simpl foldl.
    destruct (schedule_item_step {| batches := []; batch := []; batch_claims := [] |} [] [] x)
      as (d & b & Hr & Hg & Hc); [by repeat constructor..|].
    destruct (schedule_loop items _ _ _ Hr Hg) as (d2 & b2 & (H1 & H2 & H3) & H4 & H5). exists (d2 ++ [b2]).
    split_and!; [|by rewrite H5, Hc|done]. rewrite H2, H1. unfold calls_of. rewrite fmap_app. simpl.
    pose proof (proj1 H4) as [_ [[Hb _] _]%Forall_cons]%Forall_app. by destruct b2.
Qed.

(** the scheduler is the greedy batching: its batches hold the calls in the
    order given, the calls of a batch are pairwise compatible (none holds the
    global claim beside another call and no claim of one interferes with a
    claim of the other), every batch is closed only because the call after it
    interferes with one of its calls, and no other batching has these
    properties. *)
Theorem schedule_is_greedy_batching (items : list (T * list ResourceClaim)) :
  exists bs, schedule_non_conflicting items = calls_of bs /\ concat bs = items /\ greedy bs /\
    forall cs, concat cs = items -> greedy cs -> cs = bs.
Proof.
  destruct (schedule_greedy items) as (bs & H1 & H2 & H3).
  exists bs. split_and!; [done..|]. intros cs Hc Hg. apply greedy_unique; [done..|congruence].
Qed.
End schedule.

(** ** Outcomes and the registry *)

(** The [unreachable!] of [legacy_result] is unreachable from either constructor. *)
Lemma legacy_result_total r : legacy_result (from_legacy r) = Some r.
Proof. by destruct r. Qed.

Lemma cancelled_keeps_its_result r :
  legacy_result (cancelled r) = Some (Ok r) /\ status (cancelled r) = Cancelled.
Proof. done. Qed.

(** Registering a tool makes its handler and its descriptor reachable under its
    name, and changes no other tool. *)
Lemma register_lookup r sp h name :
  handlers (register r sp h) !! name = (if bool_decide (name = tool_name sp) then Some h else handlers r !! name).
Proof. simpl. case_bool_decide as E; subst; [by rewrite lookup_insert_eq|by rewrite lookup_insert_ne]. Qed.

(** A handler runs only for a payload it accepts, a mutating one only where the
    caller allows mutation, and shares the lock only where its descriptor says so. *)
Lemma admitted_call_is_guarded r fresh held call allow d :
  admit_call r fresh held call allow = Ok d ->
  handlers r !! call_name call = Some (d_handler d) /\
  matches_kind (d_handler d) (tool_payload_kind (payload call)) = true /\
  (is_mutating (d_handler d) = true -> allow = true) /\
  (d_guard d = GParallel -> held = false /\ exists c, specs r !! call_name call = Some c /\ supports_parallel_tool_calls c = true) /\
  inv_payload (d_invocation d) = payload call.
Proof.
  unfold admit_call. rewrite bind_Ok. intros (h & Hh%ok_or_Ok & H). rewrite bind_Ok in H. destruct H as (c & Hc%ok_or_Ok & H).
  rewrite !seq_Ok, !reject_if_Ok in H. destruct H as (Hk & Hm & [= <-]). simpl. split_and!; [done|by destruct (matches_kind _ _)|..|done].
  - intros Hmut. rewrite Hmut in Hm. by destruct allow.
  - unfold acquire. intros Hg. destruct held; [done|]. destruct (supports_parallel_tool_calls c) eqn:Ec; [|done].
    split; [done|]. by exists c.
Qed.
