(* ===== verification/ReadRepeat.v ===== *)
(** * The read-repeat guard

    [crates/tui/src/core/engine/read_repeat_guard.rs]: finalized read-only calls
    are counted per user turn by tool name and canonical arguments.  The third
    identical call is nudged, the fifth is answered by a receipt for an earlier
    result, the eighth ends the turn.  Printing a value ([Value::to_string]) is
    serde_json's and a parameter. *)

From S2P Require Import Text Json Tools WorkModel.

Definition NUDGE_THRESHOLD : Z := 3.
Definition RECEIPT_THRESHOLD : Z := 5.
Definition STOP_THRESHOLD : Z := 8.

Definition CORRECTIVE_NUDGE : str :=
  $"[nestlone read-repeat guard] This identical read-only call has already been requested multiple times in the current user turn. Reuse the result already in context, change the arguments, or switch methods; do not issue the same read unchanged.".

(** Objects are rebuilt with their keys in order, at every depth. *)
Fixpoint canonical_json (value : Value) : Value :=
  match value with
  | Object m =>
      let entries := stable_sort (fun a b => str_le a.1 b.1) ((fun e => (e.1, canonical_json e.2)) <$> m) in
      Object (foldl (fun canonical e => map_insert canonical e.1 e.2) [] entries)
  | Array vs => Array (canonical_json <$> vs)
  | other => other
  end.

Record ReadRepeatKey := { key_tool_name : str; arguments_sha256 : str }.

#[export] Instance ReadRepeatKey_eq_dec : EqDecision ReadRepeatKey.
Proof. solve_decision. Defined.
#[export] Instance ReadRepeatKey_countable : Countable ReadRepeatKey.
Proof.
  refine (inj_countable' (fun k => (key_tool_name k, arguments_sha256 k))
            (fun p => {| key_tool_name := p.1; arguments_sha256 := p.2 |}) _). by intros [].
Defined.

Record ReadRepeatOccurrence := { key : ReadRepeatKey; count : Z }.

Record PriorSuccess := { tool_use_id : str; content_sha256 : str }.

Record ReadRepeatGuard := {
  counts : gmap ReadRepeatKey Z;
  prior_successes : gmap ReadRepeatKey PriorSuccess }.

Definition new_guard : ReadRepeatGuard := {| counts := ∅; prior_successes := ∅ |}.

(** ** Stamps *)

(** An execution is assumed where no stamp denies it. *)
Definition result_was_executed (r : ToolResult) : bool :=
  default true (m ← metadata r; v ← get m $"executed"; as_bool v).

Definition repeat_entry (occurrence : ReadRepeatOccurrence) (action : str)
    (source_tool_use_id source_content_sha256 : option str) : Value :=
  Object [($"tool_name", Str (key_tool_name (key occurrence)));
          ($"arguments_sha256", Str (arguments_sha256 (key occurrence)));
          ($"count", uint (count occurrence));
          ($"action", Str action);
          ($"source_tool_use_id", opt_str source_tool_use_id);
          ($"source_content_sha256", opt_str source_content_sha256)].

(** Metadata that is not an object is kept under [_prior]. *)
Definition stamp_repeat_metadata (r : ToolResult) (occurrence : ReadRepeatOccurrence) (executed : bool) (action : str)
    (source_tool_use_id source_content_sha256 : option str) : ToolResult :=
  let repeat := repeat_entry occurrence action source_tool_use_id source_content_sha256 in
  let md := default (Object []) (metadata r) in
  let object := match as_object md with
                | Some object => object
                | None => map_insert [] $"_prior" md
                end in
  with_metadata r (Object (map_insert (map_insert object $"executed" (Bool executed)) $"read_repeat" repeat)).

Definition receipt_result (occurrence : ReadRepeatOccurrence) (source_tool_use_id source_content_sha256 action : str) : ToolResult :=
  stamp_repeat_metadata
    (ToolResult_success
       ($"[read-only result receipt]" ++ [10%N] ++ $"Identical call occurrence " ++ display_u (count occurrence)
        ++ $" was not executed. Reuse tool result `" ++ source_tool_use_id ++ $"` (content sha256 `"
        ++ source_content_sha256 ++ $"`)."))
    occurrence false action (Some source_tool_use_id) (Some source_content_sha256).

(** ** The guard *)

Section guard.
Context `{Externs} (to_string : Value -> str).

Definition repeat_key (tool_name : str) (arguments : Value) : ReadRepeatKey :=
  {| key_tool_name := tool_name;
     arguments_sha256 := sha256_hex (as_bytes (to_string (canonical_json arguments))) |}.

Definition register (g : ReadRepeatGuard) (tool_name : str) (arguments : Value) : ReadRepeatGuard * ReadRepeatOccurrence :=
  let k := repeat_key tool_name arguments in
  let n := usize_saturating_add (default 0 (counts g !! k)) 1 in
  ({| counts := <[k := n]> (counts g); prior_successes := prior_successes g |}, {| key := k; count := n |}).

Definition prior_receipt (g : ReadRepeatGuard) (occurrence : ReadRepeatOccurrence) : option ToolResult :=
  if count occurrence <? RECEIPT_THRESHOLD then None else
  prior ← prior_successes g !! key occurrence;
  Some (receipt_result occurrence (tool_use_id prior) (content_sha256 prior) $"prior_result").

Definition remember_success (g : ReadRepeatGuard) (occurrence : ReadRepeatOccurrence) (tool_use_id : str) (r : ToolResult)
    : ReadRepeatGuard :=
  if negb (success r) || negb (result_was_executed r) then g else
  {| counts := counts g;
     prior_successes :=
       <[key occurrence := {| tool_use_id := tool_use_id; content_sha256 := sha256_hex (as_bytes (content r)) |}]>
         (prior_successes g) |}.

Definition coalesced_result (occurrence : ReadRepeatOccurrence) (leader_tool_use_id : str)
    (leader_result : result ToolError ToolResult) : result ToolError ToolResult :=
  match leader_result with
  | Err e => Err e
  | Ok leader =>
      if negb (success leader)
      then Ok (stamp_repeat_metadata leader occurrence false $"coalesced_error" (Some leader_tool_use_id) None)
      else
        let sha := sha256_hex (as_bytes (content leader)) in
        if RECEIPT_THRESHOLD <=? count occurrence
        then Ok (receipt_result occurrence leader_tool_use_id sha $"same_batch_receipt")
        else Ok (stamp_repeat_metadata leader occurrence false $"same_batch_subscription" (Some leader_tool_use_id) (Some sha))
  end.

Definition nudge_content (c : str) : str :=
  if str_contains $"[nestlone read-repeat guard]" c then c
  else (if str_is_empty c then [] else c ++ [10%N; 10%N]) ++ CORRECTIVE_NUDGE.

(** The metadata and its [read_repeat] entry, where both are objects. *)
Definition repeat_of (r : ToolResult) : option (Map * Map) :=
  md ← metadata r; m ← as_object md; e ← map_get m $"read_repeat"; rep ← as_object e; Some (m, rep).

Definition decorate_model_result (occurrence : ReadRepeatOccurrence) (r : ToolResult) : ToolResult :=
  if count occurrence <? NUDGE_THRESHOLD then r else
  let r := {| content := nudge_content (content r); success := success r; metadata := metadata r |} in
  match repeat_of r with
  | Some (m, rep) => with_metadata r (Object (map_insert m $"read_repeat" (Object (map_insert rep $"nudged" (Bool true)))))
  | None => stamp_repeat_metadata r occurrence (result_was_executed r) $"nudge" None None
  end.

Definition corrective_nudge (occurrence : ReadRepeatOccurrence) : option str :=
  if NUDGE_THRESHOLD <=? count occurrence then Some CORRECTIVE_NUDGE else None.

Definition should_stop (occurrence : ReadRepeatOccurrence) : bool := STOP_THRESHOLD <=? count occurrence.
End guard.

(** * What the guard counts *)

From stdpp Require Import sorting.
#[local] Open Scope Z_scope.

(** ** Canonical arguments *)

Definition key_le (a b : str * Value) : bool := str_le a.1 b.1.
Definition canonical_entry (e : str * Value) : str * Value := (e.1, canonical_json e.2).

Lemma fold_insert_new (acc l : list (str * Value)) :
  NoDup (keys (acc ++ l)) -> foldl (fun m e => map_insert m e.1 e.2) acc l = acc ++ l.
Proof.
  revert acc. induction l as [|[k v] l IH]; intros acc Hnd; simpl; [by rewrite app_nil_r|].
  rewrite map_insert_new; [rewrite IH; by rewrite <-app_assoc|].
  unfold keys in *. rewrite fmap_app in Hnd. apply NoDup_app in Hnd as (_ & Hd & _).
  intros Hin. apply (Hd k Hin). by left.
Qed.

Lemma keys_canonical m : keys (canonical_entry <$> m) = keys m.
Proof. unfold keys. rewrite <-list_fmap_compose. by apply list_fmap_ext. Qed.

Lemma canonical_json_Object m :
  NoDup (keys m) -> canonical_json (Object m) = Object (stable_sort key_le (canonical_entry <$> m)).
Proof.
  intros Hnd. simpl. f_equal. rewrite fold_insert_new; [done|]. simpl. unfold keys.
  rewrite stable_sort_perm. change (NoDup (keys (canonical_entry <$> m))). by rewrite keys_canonical.
Qed.

Lemma sorted_entries_unique (l k : list (str * Value)) :
  NoDup (keys l) -> l ≡ₚ k -> stable_sort key_le l = stable_sort key_le k.
Proof.
  intros Hnd Hp. eapply (StronglySorted_unique_strong (fun a b => key_le a b = true)).
  - intros [a v] [b w] Ha Hb H1 H2. rewrite stable_sort_perm in Ha. rewrite stable_sort_perm, <-Hp in Hb.
    assert (a = b) as <- by by apply str_le_antisym. f_equal.
    apply map_get_Some in Ha, Hb; [|done..]. congruence.
  - apply stable_sort_sorted; [intros; apply str_le_total|intros ???; apply str_le_trans].
  - apply stable_sort_sorted; [intros; apply str_le_total|intros ???; apply str_le_trans].
  - by rewrite !stable_sort_perm.
Qed.

Lemma same_Array vs ws : same_value (Array vs) (Array ws) = true <-> Forall2 (fun v w => same_value v w = true) vs ws.
Proof.
  simpl. revert ws. induction vs as [|v vs IH]; intros [|w ws]; [by split|by split; inversion 1..|].
  rewrite andb_true_iff, IH, Forall2_cons. done.
Qed.

Lemma same_Object m n :
  same_value (Object m) (Object n) = true <->
  length m = length n /\ forall k v, (k, v) ∈ m -> exists w, map_get n k = Some w /\ same_value v w = true.
Proof.
  simpl. rewrite andb_true_iff, bool_decide_eq_true, forallb_spec. apply and_iff_compat_l. split.
  - intros H k v Hin. specialize (H _ Hin). simpl in H. destruct (map_get n k) as [w|]; [eauto|done].
  - intros H [k v] Hin. simpl. destruct (H _ _ Hin) as (w & Hg & Hs). by rewrite Hg.
Qed.

(** Entries with the same keys and pointwise related values form the same set. *)
Lemma entries_perm m n :
  NoDup (keys m) -> NoDup (keys n) -> length m = length n ->
  (forall k v, (k, v) ∈ m -> exists w, (k, w) ∈ n /\ canonical_json v = canonical_json w) ->
  canonical_entry <$> m ≡ₚ canonical_entry <$> n.
Proof.
  intros Hm Hn Hl Hsub. apply submseteq_length_Permutation; [|rewrite !length_fmap; lia].
  apply NoDup_submseteq.
  - apply (NoDup_fmap_1 fst). change (NoDup (keys (canonical_entry <$> m))). by rewrite keys_canonical.
  - intros [k c] ([k' v] & [= -> ->] & Hin)%list_elem_of_fmap. destruct (Hsub _ _ Hin) as (w & Hw & ->).
    by apply (list_elem_of_fmap_2 canonical_entry) in Hw.
Qed.

Lemma canonical_json_spec v w :
  well_formed v -> well_formed w -> same_value v w = true <-> canonical_json v = canonical_json w.
Proof.
  revert w. induction v as [| | | |vs IH|m IH] using Value_nested_ind; intros w Hv Hw.
  1-4: destruct w; simpl; try (by split); rewrite ?Bool.eqb_true_iff, ?bool_decide_eq_true; split; congruence.
  - destruct w as [| | | |ws|n]; try by split.
    apply well_formed_Array in Hv, Hw. rewrite same_Array. simpl.
    cut (Forall2 (fun v w => same_value v w = true) vs ws <-> canonical_json <$> vs = canonical_json <$> ws);
      [intros ->; split; congruence|].
    revert ws Hw. induction vs as [|v vs IHv]; intros [|w ws] Hw; [by split|by split; [inversion 1|]..|].
    apply Forall_cons in Hv as [??], Hw as [??], IH as [IH1 IH2]. rewrite Forall2_cons, !fmap_cons, IH1, IHv by done.
    split; [by intros [-> ->]|by intros [= -> ->]].
  - destruct w as [| | | |ws|n]; try by split.
    apply well_formed_Object in Hv as [Hm Hvm], Hw as [Hn Hvn]. rewrite same_Object, !canonical_json_Object by done.
    rewrite Forall_forall in IH, Hvm, Hvn. split.
    + intros [Hl Hs]. f_equal. apply sorted_entries_unique; [by rewrite keys_canonical|].
      apply entries_perm; [done..|]. intros k v Hin. destruct (Hs _ _ Hin) as (w & Hg & Hsame).
      apply map_get_Some in Hg; [|done]. exists w. split; [done|].
      by apply (IH (k, v) Hin); [apply (Hvm (k, v))|apply (Hvn (k, w))|].
    + intros [= Hs]. assert (Hp : canonical_entry <$> m ≡ₚ canonical_entry <$> n).
      { by rewrite <-(stable_sort_perm key_le (canonical_entry <$> m)), Hs, stable_sort_perm. }
      split; [by apply Permutation_length in Hp; rewrite !length_fmap in Hp|].
      intros k v Hin. assert (Hc : (k, canonical_json v) ∈ canonical_entry <$> n).
      { rewrite <-Hp. by apply (list_elem_of_fmap_2 canonical_entry) in Hin. }
      apply list_elem_of_fmap in Hc as ([k' w] & [= <- Hc] & Hw). exists w. split; [by apply map_get_Some|].
      by apply (IH (k, v) Hin); [apply (Hvm (k, v))|apply (Hvn (k, w))|].
Qed.

(** ** Counting *)

Section counting.
Context `{Externs} (to_string : Value -> str).

Definition register_all (g : ReadRepeatGuard) (calls : list (str * Value)) : ReadRepeatGuard :=
  foldl (fun g c => (register to_string g c.1 c.2).1) g calls.

Definition key_of (c : str * Value) : ReadRepeatKey := repeat_key to_string c.1 c.2.

(** No two of the arguments at hand print and hash to the same digest unless
    they have the same canonical form. *)
Definition digests_separate (calls : list (str * Value)) : Prop :=
  forall c d, c ∈ calls -> d ∈ calls ->
    arguments_sha256 (key_of c) = arguments_sha256 (key_of d) -> canonical_json c.2 = canonical_json d.2.

Definition same_call (c d : str * Value) : bool := bool_decide (c.1 = d.1) && same_value c.2 d.2.

Lemma key_of_spec calls c d :
  digests_separate calls -> c ∈ calls -> d ∈ calls -> well_formed c.2 -> well_formed d.2 ->
  key_of c = key_of d <-> same_call c d = true.
Proof.
  intros Hs Hc Hd Wc Wd. unfold same_call. rewrite andb_true_iff, bool_decide_eq_true, canonical_json_spec by done.
  unfold key_of, repeat_key. split; [intros Hk|by intros [-> ->]].
  split; [congruence|]. apply Hs; [done..|]. unfold key_of, repeat_key. simpl. congruence.
Qed.

Lemma register_all_prior g calls : prior_successes (register_all g calls) = prior_successes g.
Proof. revert g. induction calls as [|c calls IH]; intros g; [done|]. simpl. by rewrite IH. Qed.

Definition occurrences_of (k : ReadRepeatKey) (calls : list (str * Value)) : Z :=
  zlen (retain (fun c => bool_decide (key_of c = k)) calls).

Lemma occurrences_of_cons k c calls :
  occurrences_of k (c :: calls) = (if bool_decide (key_of c = k) then 1 else 0) + occurrences_of k calls.
Proof.
  unfold occurrences_of, retain, zlen. rewrite filter_cons.
  destruct (bool_decide (key_of c = k)); [rewrite decide_True, length_cons by done|rewrite decide_False by done]; lia.
Qed.

Lemma counts_register_all g calls k :
  0 <= default 0 (counts g !! k) -> default 0 (counts g !! k) + zlen calls <= usize_max ->
  default 0 (counts (register_all g calls) !! k) = default 0 (counts g !! k) + occurrences_of k calls.
Proof.
  revert g. induction calls as [|c calls IH]; intros g H0 Hl; [change (occurrences_of k []) with 0; simpl; lia|].
  rewrite occurrences_of_cons. unfold zlen in *. rewrite length_cons in Hl. 
  change (register_all g (c :: calls)) with (register_all (register to_string g c.1 c.2).1 calls).
  assert (Hr : default 0 (counts (register to_string g c.1 c.2).1 !! k)
               = default 0 (counts g !! k) + (if bool_decide (key_of c = k) then 1 else 0)).
  { unfold register. simpl. case_bool_decide as E.
    - subst k. rewrite lookup_insert_eq. simpl. unfold usize_saturating_add. unfold key_of in *. lia.
    - rewrite lookup_insert_ne by done. lia. }
  rewrite IH, Hr; [lia|..]; rewrite Hr; case_bool_decide; lia.
Qed.

(** the guard counts a read by what it asks, not by how its arguments are
    spelled: after any sequence of registrations the next read's count is one
    more than the number of earlier calls of the same tool whose arguments are
    equal up to the order of their keys at every depth.  The turn is stopped at
    the eighth such call, the nudge appears from the third, and a receipt can
    replace the execution from the fifth.  This supposes that no two of the
    argument texts collide under SHA-256. *)
Theorem identical_reads_are_counted calls tool args :
  Forall (fun c => well_formed c.2) ((tool, args) :: calls) ->
  digests_separate ((tool, args) :: calls) ->
  zlen calls < usize_max ->
  let occ := (register to_string (register_all new_guard calls) tool args).2 in
  let earlier := zlen (retain (fun c => same_call c (tool, args)) calls) in
  count occ = 1 + earlier /\
  (should_stop occ = true <-> 7 <= earlier) /\
  (corrective_nudge occ <> None <-> 2 <= earlier) /\
  (forall g r, prior_receipt g occ = Some r -> 4 <= earlier).
Proof.
  intros Hw Hd Hl occ earlier.
  assert (Hc : count occ = 1 + earlier).
  { subst occ. unfold register. simpl. unfold usize_saturating_add.
    assert (H0 : default 0 (counts new_guard !! repeat_key to_string tool args) = 0) by (simpl; by rewrite lookup_empty).
    rewrite counts_register_all; rewrite H0; [|lia..].
    assert (occurrences_of (repeat_key to_string tool args) calls = earlier) as ->.
    { unfold occurrences_of, earlier. f_equal. apply retain_ext_in. intros c Hin. apply eq_true_iff_eq.
      rewrite bool_decide_eq_true. rewrite Forall_forall in Hw.
      apply (key_of_spec ((tool, args) :: calls) c (tool, args)); [done|by right|by left|apply Hw; by right|apply (Hw (tool, args)); by left]. }
    assert (earlier <= zlen calls); [|lia].
    unfold earlier, zlen. pose proof (retain_length (fun c => same_call c (tool, args)) calls). lia. }
  unfold should_stop, corrective_nudge, STOP_THRESHOLD, NUDGE_THRESHOLD. rewrite Hc. split; [done|]. split; [lia|]. split.
  - destruct (3 <=? 1 + earlier) eqn:E; [split; [lia|done]|split; [done|lia]].
  - intros g r. unfold prior_receipt, RECEIPT_THRESHOLD. rewrite Hc. destruct (1 + earlier <? 5) eqn:E; [done|lia].
Qed.
End counting.

(** A printer and a digest for the examples. *)
Definition plain_externs : Externs :=
  {| Sha256_digest := fun bytes => bytes; Url_parse := fun _ => None;
     parse_from_rfc3339_ok := fun _ => false; prints_as_itself := fun _ => true |}.

Fixpoint plain_text (v : Value) : str :=
  match v with
  | Null => $"null"
  | Bool b => if b then $"true" else $"false"
  | Num (PosInt n) => display_u n
  | Num (NegInt n) => display_i n
  | Num (Float bits) => $"f" ++ display_u bits
  | Str s => [34%N] ++ s ++ [34%N]
  | Array vs => $"[" ++ (vs ≫= fun v => plain_text v ++ $",") ++ $"]"
  | Object m => $"{" ++ (m ≫= fun e => e.1 ++ $":" ++ plain_text e.2 ++ $",") ++ $"}"
  end.

Definition args_ab : Value := Object [($"path", Str $"a"); ($"limit", uint 10)].
Definition args_ba : Value := Object [($"limit", uint 10); ($"path", Str $"a")].

Lemma identical_reads_are_counted_witness :
  let calls := [($"read_file", args_ab); ($"list_dir", args_ab); ($"read_file", args_ba)] in
  count (@register plain_externs plain_text (@register_all plain_externs plain_text new_guard calls) $"read_file" args_ab).2 = 3.
Proof.
  intros calls.
  refine (eq_trans (proj1 (@identical_reads_are_counted plain_externs plain_text calls $"read_file" args_ab _ _ _)) _).
  - repeat constructor; set_solver.
  - intros c d Hc Hd. set_unfold. destruct_or!; subst; vm_compute; done.
  - done.
  - vm_compute. reflexivity.
Defined.
