(* ===== verification/ArgRepair.v ===== *)
(** * Repair of malformed tool arguments

    [crates/tui/src/tools/arg_repair.rs]: five stages of text edits, each
    followed by a strict parse.  The parser ([serde_json::from_str]) is a
    parameter; the stages are the program's. *)

From S2P Require Import Text Json.

Definition MAX_ARG_LEN : Z := 1024 * 1024.

Inductive ArgRepairError := TooLarge (len : Z) | Unrepairable.

Definition quote : char := 34%N.
Definition bslash : char := 92%N.
Definition comma : char := 44%N.
Definition lbrace : char := 123%N.
Definition rbrace : char := 125%N.
Definition lbracket : char := 91%N.
Definition rbracket : char := 93%N.

(** A control character other than tab, newline and carriage return. *)
Definition is_dropped (c : char) : bool :=
  ((c <? 32) && negb (c =? 9) && negb (c =? 10) && negb (c =? 13))%N.

Fixpoint strip_control_go (in_string escape : bool) (s : str) : str :=
  match s with
  | [] => []
  | c :: s =>
      if escape then c :: strip_control_go in_string false s
      else if N.eqb c bslash then c :: strip_control_go in_string true s
      else if N.eqb c quote then c :: strip_control_go (negb in_string) false s
      else if in_string && is_dropped c then strip_control_go in_string false s
      else c :: strip_control_go in_string false s
  end.

Definition strip_control_chars_in_strings (s : str) : str := strip_control_go false false s.

(** One round of the loop. *)
Definition strip_commas_round (s : str) : str :=
  trim_end_by (N.eqb comma) (replace [comma; rbracket] [rbracket] (replace [comma; rbrace] [rbrace] s)).

Fixpoint strip_commas_loop (fuel : nat) (s : str) : str :=
  match fuel with
  | O => s
  | S fuel => let out := strip_commas_round s in if bool_decide (out = s) then out else strip_commas_loop fuel out
  end.

(** A round that changes the text shortens it. *)
Definition strip_trailing_commas (s : str) : str := strip_commas_loop (S (length s)) s.

(** [+1] for an opener, [-1] for its closer, summed. *)
Definition delta (opener closer : char) (s : str) : Z :=
  foldr (fun c n => (if N.eqb c opener then 1 else if N.eqb c closer then -1 else 0) + n) 0 s.

Fixpoint balance_braces (s : str) (max_iter : nat) : str :=
  match max_iter with
  | O => s
  | S n =>
      let brace_delta := delta lbrace rbrace s in
      let bracket_delta := delta lbracket rbracket s in
      if (brace_delta <=? 0) && (bracket_delta <=? 0) then s
      else balance_braces (s ++ replicate (Z.to_nat bracket_delta) rbracket ++ replicate (Z.to_nat brace_delta) rbrace) n
  end.

Fixpoint strip_excess_go (brace_depth bracket_depth : Z) (s : str) : str :=
  match s with
  | [] => []
  | c :: s =>
      if N.eqb c rbrace then
        if 0 <? brace_depth then c :: strip_excess_go (brace_depth - 1) bracket_depth s
        else strip_excess_go brace_depth bracket_depth s
      else if N.eqb c rbracket then
        if 0 <? bracket_depth then c :: strip_excess_go brace_depth (bracket_depth - 1) s
        else strip_excess_go brace_depth bracket_depth s
      else if N.eqb c lbrace then c :: strip_excess_go (brace_depth + 1) bracket_depth s
      else if N.eqb c lbracket then c :: strip_excess_go brace_depth (bracket_depth + 1) s
      else c :: strip_excess_go brace_depth bracket_depth s
  end.

Definition strip_excess_closers (s : str) : str := strip_excess_go 0 0 s.

Section repair.
Context (from_str : str -> option Value).

Definition repair (raw : str) : result ArgRepairError Value :=
  if MAX_ARG_LEN <? byte_len raw then Err (TooLarge (byte_len raw)) else
  match from_str raw with Some v => Ok v | None =>
  let s := strip_control_chars_in_strings raw in
  match from_str s with Some v => Ok v | None =>
  let s := strip_trailing_commas s in
  match from_str s with Some v => Ok v | None =>
  let s := balance_braces s 50 in
  match from_str s with Some v => Ok v | None =>
  let s := strip_excess_closers s in
  match from_str s with Some v => Ok v | None => Err Unrepairable end end end end end.
End repair.

(** * Properties of the argument repair

    Each stage's text is described; the loop of the third stage reaches its
    fixed point and the fourth stage needs one round of its fifty. *)

(** ** Replacement by something shorter *)

Section replace.
Context (p b : str) (Hlt : (length b < length p)%nat).

Lemma starts_with_length s : starts_with p s = true -> (length p <= length s)%nat.
Proof. intros (r & ->)%starts_with_spec. rewrite length_app. lia. Qed.

Lemma replace_go_length skip s :
  (skip <= length s)%nat -> (length (replace_go p b skip s) + skip <= length s)%nat.
Proof.
  revert skip. induction s as [|c s IH]; intros skip Hs; simpl in *; [lia|]. destruct skip as [|k]; [|specialize (IH k); lia].
  destruct (starts_with p (c :: s)) eqn:E.
  - apply starts_with_length in E. simpl in E. rewrite length_app. specialize (IH (pred (length p))). lia.
  - simpl. specialize (IH 0%nat). lia.
Qed.

Lemma replace_shrinks s :
  (replace p b s = s /\ split_once p s = None) \/ (length (replace p b s) < length s)%nat.
Proof.
  unfold replace. induction s as [|c s IH]; simpl.
  - left. split; [done|]. destruct p; simpl in *; [lia|done].
  - unfold starts_with. simpl. destruct (strip_prefix p (c :: s)) as [r|] eqn:E.
    + right. rewrite bool_decide_true by done. apply strip_prefix_Some in E.
      assert (length p <= S (length s))%nat as Hp by (change (S (length s)) with (length (c :: s)); rewrite E, length_app; lia).
      rewrite length_app. pose proof (replace_go_length (pred (length p)) s). lia.
    + rewrite bool_decide_false by (intros [? [=]]). destruct IH as [[-> ->]|IH]; [by left|right; simpl; lia].
Qed.
End replace.

Lemma trim_end_by_shrinks q s :
  (trim_end_by q s = s /\ forall r c, s = r ++ [c] -> q c = false) \/ (length (trim_end_by q s) < length s)%nat.
Proof.
  unfold trim_end_by. induction s as [|c s _] using rev_ind; [left; split; [done|]; intros [] ? [=]|].
  rewrite rev_app_distr. simpl. destruct (q c) eqn:E.
  - right. rewrite length_rev, length_app. simpl.
    assert (forall t, (length (trim_start_by q t) <= length t)%nat) as Hl.
    { intros t. induction t as [|d t IH]; simpl; [lia|]. destruct (q d); simpl; lia. }
    specialize (Hl (rev s)). rewrite length_rev in Hl. lia.
  - left. simpl. rewrite rev_involutive. split; [done|]. intros r d [-> [= ->]]%app_inj_tail. done.
Qed.

(** ** Stage three *)

(** No comma stands before a closer or at the end. *)
Definition no_trailing_comma (s : str) : Prop :=
  split_once [comma; rbrace] s = None /\ split_once [comma; rbracket] s = None /\ forall r, s <> r ++ [comma].

Lemma strip_commas_round_spec s :
  (strip_commas_round s = s /\ no_trailing_comma s) \/ (length (strip_commas_round s) < length s)%nat.
Proof.
  unfold strip_commas_round.
  destruct (replace_shrinks [comma; rbrace] [rbrace] ltac:(simpl; lia) s) as [[-> H1]|H1];
  match goal with |- context [replace [comma; rbracket] [rbracket] ?t] =>
    destruct (replace_shrinks [comma; rbracket] [rbracket] ltac:(simpl; lia) t) as [[-> H2]|H2] end;
  match goal with |- context [trim_end_by ?q ?t] => destruct (trim_end_by_shrinks q t) as [[-> H3]|H3] end;
  try (right; lia).
  left. split; [done|]. split_and!; [done..|]. intros r ->. by specialize (H3 r comma eq_refl).
Qed.

Lemma strip_commas_loop_spec fuel s :
  (length s < fuel)%nat -> let t := strip_commas_loop fuel s in strip_commas_round t = t /\ no_trailing_comma t.
Proof.
  revert s. induction fuel as [|fuel IH]; intros s Hl; simpl; [lia|].
  case_bool_decide as E.
  - destruct (strip_commas_round_spec s) as [[_ H]|H]; [by rewrite !E|rewrite E in H; lia].
  - destruct (strip_commas_round_spec s) as [[H _]|H]; [done|]. apply IH. lia.
Qed.

(** ** Stages four and five *)

Lemma delta_app o c s t : delta o c (s ++ t) = delta o c s + delta o c t.
Proof. unfold delta. induction s as [|d s IH]; simpl; [done|]. rewrite IH. lia. Qed.

Lemma delta_replicate o c d n :
  delta o c (replicate n d) = Z.of_nat n * (if N.eqb d o then 1 else if N.eqb d c then -1 else 0).
Proof.
  unfold delta. induction n as [|n IH]; [done|]. change (replicate (S n) d) with (d :: replicate n d).
  simpl foldr. rewrite IH. destruct (N.eqb d o), (N.eqb d c); lia.
Qed.

(** The closers that are missing, brackets first. *)
Definition missing_closers (s : str) : str :=
  replicate (Z.to_nat (delta lbracket rbracket s)) rbracket ++ replicate (Z.to_nat (delta lbrace rbrace s)) rbrace.

Lemma missing_closers_balance s :
  delta lbrace rbrace (s ++ missing_closers s) = Z.min 0 (delta lbrace rbrace s) /\
  delta lbracket rbracket (s ++ missing_closers s) = Z.min 0 (delta lbracket rbracket s).
Proof.
  unfold missing_closers. rewrite !delta_app, !delta_replicate. vm_compute (N.eqb _ _). cbv iota. lia.
Qed.

Lemma balance_braces_once n s : balance_braces s (S (S n)) = s ++ missing_closers s.
Proof.
  cbn [balance_braces]. destruct ((delta lbrace rbrace s <=? 0) && (delta lbracket rbracket s <=? 0)) eqn:E.
  - unfold missing_closers. rewrite !Z2Nat.nonpos by lia. simpl. by rewrite app_nil_r.
  - fold (missing_closers s). destruct (missing_closers_balance s) as [-> ->].
    replace (_ && _) with true by lia. done.
Qed.

(** Every closer of the text has an opener of its kind before it. *)
Definition closers_opened (d k : Z) (s : str) : Prop :=
  forall a b, s = a ++ b -> 0 <= d + delta lbrace rbrace a /\ 0 <= k + delta lbracket rbracket a.

Lemma closers_opened_cons d k c s :
  0 <= d -> 0 <= k ->
  closers_opened (d + delta lbrace rbrace [c]) (k + delta lbracket rbracket [c]) s -> closers_opened d k (c :: s).
Proof.
  intros Hd Hk H [|c' a] b He; [simpl; lia|]. injection He as <- He. specialize (H a b He).
  change (c :: a) with ([c] ++ a). rewrite !delta_app. lia.
Qed.

Lemma strip_excess_opened d k s : 0 <= d -> 0 <= k -> closers_opened d k (strip_excess_go d k s).
Proof.
  revert d k. induction s as [|c s IH]; intros d k Hd Hk; [intros [|x a] b; [simpl; lia|done]|].
  assert (Hkeep : forall d' k' t, 0 <= d' -> 0 <= k' -> d' = d + delta lbrace rbrace [c] -> k' = k + delta lbracket rbracket [c] ->
            t = strip_excess_go d' k' s -> closers_opened d k (c :: t)).
  { intros d' k' t ? ? -> -> ->. apply closers_opened_cons; [done..|]. by apply IH. }
  simpl. destruct (N.eqb_spec c rbrace) as [->|H1]; [destruct (0 <? d) eqn:E; [|by apply IH]|].
  { eapply (Hkeep (d - 1) k); [lia|lia|vm_compute (delta _ _ _); lia..|done]. }
  destruct (N.eqb_spec c rbracket) as [->|H2]; [destruct (0 <? k) eqn:E; [|by apply IH]|].
  { eapply (Hkeep d (k - 1)); [lia|lia|vm_compute (delta _ _ _); lia..|done]. }
  destruct (N.eqb_spec c lbrace) as [->|H3]; [eapply (Hkeep (d + 1) k); [lia|lia|vm_compute (delta _ _ _); lia..|done]|].
  destruct (N.eqb_spec c lbracket) as [->|H4]; [eapply (Hkeep d (k + 1)); [lia|lia|vm_compute (delta _ _ _); lia..|done]|].
  apply N.eqb_neq in H1, H2, H3, H4.
  eapply (Hkeep d k); [lia|lia|unfold delta; simpl; rewrite ?H1, ?H2, ?H3, ?H4; lia..|done].
Qed.

(** every stage of the repair ends and does what it is for: the comma loop
    stops at a text with no comma before a closer or at its end, which another
    round leaves as it is; the balancing loop appends each kind's missing
    closers, brackets first, in one round and none of the others changes the
    text; and in the last stage's text no closer comes before its opener.  An
    argument that parses is returned as it was parsed, and a result is always
    the parse of one of the five texts. *)
Theorem repair_stages_terminate (from_str : str -> option Value) raw :
  let s2 := strip_control_chars_in_strings raw in
  let s3 := strip_trailing_commas s2 in
  let s4 := balance_braces s3 50 in
  let s5 := strip_excess_closers s4 in
  no_trailing_comma s3 /\ strip_commas_round s3 = s3 /\
  s4 = s3 ++ missing_closers s3 /\ balance_braces s4 1 = s4 /\
  closers_opened 0 0 s5 /\
  (byte_len raw <= MAX_ARG_LEN -> forall v, from_str raw = Some v -> repair from_str raw = Ok v) /\
  (forall v, repair from_str raw = Ok v -> exists t, t ∈ [raw; s2; s3; s4; s5] /\ from_str t = Some v).
Proof.
  intros s2 s3 s4 s5. destruct (strip_commas_loop_spec (S (length s2)) s2 ltac:(lia)) as [H1 H2].
  assert (H4 : s4 = s3 ++ missing_closers s3) by apply (balance_braces_once 48).
  split_and!; [exact H2|exact H1|exact H4|..].
  - cbn [balance_braces]. destruct (missing_closers_balance s3) as [E1 E2]. rewrite H4, E1, E2.
    replace (_ && _) with true by lia. done.
  - by apply strip_excess_opened.
  - intros Hl v Hv. unfold repair. rewrite (proj2 (Z.ltb_ge _ _)) by done. by rewrite Hv.
  - intros v. unfold repair. fold s2 s3 s4 s5. clear H1 H2 H4. clearbody s5 s4 s3 s2. destruct (MAX_ARG_LEN <? byte_len raw); [done|].
    destruct (from_str raw) as [v1|] eqn:V1; [intros [= <-]; exists raw; set_solver|].
    destruct (from_str s2) as [v2|] eqn:V2; [intros [= <-]; exists s2; set_solver|].
    destruct (from_str s3) as [v3|] eqn:V3; [intros [= <-]; exists s3; set_solver|].
    destruct (from_str s4) as [v4|] eqn:V4; [intros [= <-]; exists s4; set_solver|].
    destruct (from_str s5) as [v5|] eqn:V5; [intros [= <-]; exists s5; set_solver|done].
Qed.

(** The comma stage does not know strings: the repair of a trailing comma also
    edits a value that holds [,}]. *)
Example comma_stage_edits_strings :
  strip_trailing_commas ($"{" ++ [quote] ++ $"a" ++ [quote] ++ $":" ++ [quote] ++ $"x,}y" ++ [quote] ++ $",}")
  = $"{" ++ [quote] ++ $"a" ++ [quote] ++ $":" ++ [quote] ++ $"x}y" ++ [quote] ++ $"}".
Proof. vm_compute. reflexivity. Qed.
