(* ===== verification/ToolDispatch.v ===== *)
(** * Dispatch of a turn's tool calls

    [crates/tui/src/core/engine/dispatch.rs]: finalizing the arguments of a
    call, the parallel pseudo-tool, the callers a tool admits, the message a
    failed call gives the model, the coalescing of repeated reads and the
    batches a turn executes.  Parsing and printing JSON and displaying a path
    are parameters. *)

From S2P Require Import Text Json Tools WorkModel ReadRepeat ArgRepair.

Record ToolCaller := { caller_type : str; tool_id : option str }.

(** [models.rs]: the fields of [Tool] that dispatch reads. *)
Record Tool := { def_name : str; def_input_schema : Value; allowed_callers : option (list str) }.

(** [streaming.rs]. *)
Record ToolUseState := {
  tu_id : str; tu_name : str; tu_input : Value; tu_caller : option ToolCaller;
  input_buffer : str; input_parse_error : option str }.

Record ToolExecutionPlan := {
  index : nat;
  id : str;
  name : str;
  input : Value;
  caller : option ToolCaller;
  interactive : bool;
  approval_required : bool;
  approval_description : str;
  approval_force_prompt : bool;
  supports_parallel : bool;
  read_only : bool;
  detached_start : bool;
  resources : list ResourceClaim;
  blocked_error : option ToolError;
  guard_result : option ToolResult }.

Inductive ToolExecutionBatch :=
| Parallel (plans : list ToolExecutionPlan)
| Serial (plan : ToolExecutionPlan).

Record CoalescedReadPlan := { leader_index : nat; follower : ToolExecutionPlan; occurrence : ReadRepeatOccurrence }.

Record ReadRepeatExecutionPlan := {
  executable : list ToolExecutionPlan;
  coalesced : list CoalescedReadPlan;
  occurrences : gmap nat ReadRepeatOccurrence }.

(** ** Approval stamps *)

Inductive ToolApprovalStamp := ApprovedByUser | ApprovedWithPolicy.

Definition decision (a : ToolApprovalStamp) : str :=
  match a with ApprovedByUser => $"approved_by_user" | ApprovedWithPolicy => $"approved_with_policy" end.

Definition model_visible_note (a : ToolApprovalStamp) : str :=
  match a with
  | ApprovedByUser => $"[approval] This tool call required approval and was approved by the user before execution."
  | ApprovedWithPolicy =>
      $"[approval] This tool call required approval and was approved by the user with an adjusted execution policy before execution."
  end.

Definition approval_metadata (a : ToolApprovalStamp) : Value :=
  Object [($"required", Bool true); ($"decision", Str (decision a)); ($"model_visible", Bool true)].

Definition stamp_tool_result_approval (r : ToolResult) (a : ToolApprovalStamp) : ToolResult :=
  let md := default (Object []) (metadata r) in
  let md := match as_object md with
            | Some object => Object (map_insert object $"approval" (approval_metadata a))
            | None => Object (map_insert (map_insert [] $"_prior" md) $"approval" (approval_metadata a))
            end in
  let note := model_visible_note a in
  {| content := if starts_with $"[approval] " (content r) then content r
                else if str_is_empty (content r) then note
                else note ++ [10%N; 10%N] ++ content r;
     success := success r; metadata := Some md |}.

(** ** Callers *)

Definition caller_type_for_tool_use (c : option ToolCaller) : str :=
  match c with Some c => caller_type c | None => $"direct" end.

Definition caller_allowed_for_tool (c : option ToolCaller) (tool_def : option Tool) : bool :=
  let requested := caller_type_for_tool_use c in
  match def ← tool_def; allowed_callers def with
  | Some [] => bool_decide (requested = $"direct")
  | Some allowed => existsb (fun item => bool_decide (item = requested)) allowed
  | None => bool_decide (requested = $"direct")
  end.

(** ** Errors as the model sees them *)

Definition mentions_mode_word (lower : str) : bool :=
  existsb (fun word => bool_decide (word = $"mode") || bool_decide (word = $"modes"))
    (split_by (fun c => negb (is_ascii_alphanumeric c)) lower).

Definition message_already_has_recovery_hint (message : str) : bool :=
  let lower := to_ascii_lowercase message in
  str_contains $"recovery:" lower || str_contains $"fallback:" lower.

Definition TRANSIENT_NEEDLES : list str :=
  [$"timeout"; $"timed out"; $"request failed"; $"connection"; $"network"; $"http 429"; $"rate limit"; $"http 5";
   $"anti-bot"; $"captcha"].

Definition is_transient_tool_failure (err : ToolError) (formatted_message : str) : bool :=
  match err with
  | Timeout _ => true
  | ExecutionFailed _ =>
      let lower := to_ascii_lowercase formatted_message in
      existsb (fun needle => str_contains needle lower) TRANSIENT_NEEDLES
  | _ => false
  end.

Definition transient_tool_fallback_hint (err : ToolError) (tool_name formatted_message : str) : option str :=
  if negb (is_transient_tool_failure err formatted_message) then None else
  let lower_tool := to_ascii_lowercase tool_name in
  if str_contains $"web_search" lower_tool || str_contains $"web_run" lower_tool || bool_decide (lower_tool = $"web.run")
  then Some $"after one retry, switch to a direct URL/open/fetch path or cached context instead of repeating the same search."
  else if str_contains $"fetch_url" lower_tool
  then Some $"after one retry, try a narrower URL/source, use search results or cached context, or state the access limit instead of repeating the same request."
  else if str_contains $"file_search" lower_tool || str_contains $"grep" lower_tool
  then Some $"after one retry, narrow the query/path or inspect likely files directly instead of repeating the same search unchanged."
  else if str_contains $"exec_shell" lower_tool || str_contains $"run_tests" lower_tool || str_contains $"run_verifiers" lower_tool
  then Some $"after one retry, narrow the command/scope, increase timeout only for expected long runs, or switch to file-level evidence."
  else if str_contains $"agent" lower_tool
  then Some $"after one retry, reduce delegated scope or continue in the parent context instead of repeatedly spawning the same agent."
  else Some $"after one retry, choose a different tool or narrower strategy instead of repeating the same call unchanged.".

Definition with_transient_tool_fallback_hint (message : str) (err : ToolError) (tool_name : str) : str :=
  if message_already_has_recovery_hint message then message else
  match transient_tool_fallback_hint err tool_name message with
  | Some hint => message ++ $" Fallback: " ++ hint
  | None => message
  end.

Section format.
Context (to_string : Value -> str) (path_display : Path -> str).

Definition tool_error_message (err : ToolError) (tool_name : str) : str :=
  match err with
  | InvalidInput message => $"Invalid input for tool '" ++ tool_name ++ $"': " ++ message
  | MissingField field => $"Tool '" ++ tool_name ++ $"' is missing required field '" ++ field ++ $"'"
  | PathEscape path =>
      $"Path escapes workspace: " ++ path_display path ++ $". Use a workspace-relative path or enable trust mode."
  | ExecutionFailed message => message
  | Timeout seconds =>
      $"Tool '" ++ tool_name ++ $"' timed out after " ++ display_u seconds ++ $"s. Try a narrower scope or a longer timeout."
  | ToolCancelled message => message
  | NotAvailable message =>
      let lower := to_ascii_lowercase message in
      if str_contains $"current tool catalog" lower || str_contains $"did you mean:" lower || mentions_mode_word lower
         || str_contains $"allow_shell" lower || str_contains $"feature flag" lower
      then message
      else $"Tool '" ++ tool_name ++ $"' is not available: " ++ message ++ $". Check mode, feature flags, or tool name."
  | PermissionDenied message =>
      let lower := to_ascii_lowercase message in
      if mentions_mode_word lower || str_contains $"allow_shell" lower || str_contains $"denied by user" lower
      then message
      else $"Tool '" ++ tool_name ++ $"' was denied: " ++ message ++ $". Adjust approval mode or request permission."
  end.

(** The category and the field of an error whose call never started. *)
Definition validation_category (err : ToolError) : option (str * option str) :=
  match err with
  | InvalidInput _ => Some ($"invalid_input", None)
  | MissingField field => Some ($"missing_field", Some field)
  | PathEscape _ => Some ($"path_escape", Some $"path")
  | NotAvailable _ => Some ($"tool_not_available", Some $"tool_name")
  | _ => None
  end.

Definition format_tool_error_with_schema (err : ToolError) (tool_name : str) (schema : option Value) : str :=
  let message := with_transient_tool_fallback_hint (tool_error_message err tool_name) err tool_name in
  match validation_category err with
  | None => message
  | Some (category, bad_field) =>
      let valid_shape :=
        default (Object [($"type", Str $"object");
                         ($"guidance", Str ($"Use the advertised input schema for '" ++ tool_name ++ $"'"))]) schema in
      let feedback :=
        Object [($"category", Str category); ($"bad_field", opt_str bad_field); ($"valid_shape", valid_shape);
                ($"retryable", Bool true); ($"side_effect_status", Str $"not_started")] in
      message ++ [10%N] ++ $"Tool validation feedback: " ++ to_string feedback
  end.
End format.

(** ** Arguments of a call *)

Definition fence : str := [96%N; 96%N; 96%N].

Definition strip_code_fences (text : str) : option str :=
  if negb (str_contains fence text) then None else
  let kept := retain (fun line => negb (starts_with fence (trim_start line))) (lines text) in
  let stripped := trim (join [10%N] kept) in
  if str_is_empty stripped then None else Some stripped.

(** The shortest prefix with as many closers as openers, from the first
    character on: the loop of [extract_balanced_segment]. *)
Fixpoint balanced_prefix (opener closer : char) (depth : Z) (s : str) : option str :=
  match s with
  | [] => None
  | c :: s =>
      if N.eqb c opener then (cons c) <$> balanced_prefix opener closer (depth + 1) s
      else if N.eqb c closer then
        if bool_decide (depth - 1 = 0) then Some [c] else (cons c) <$> balanced_prefix opener closer (depth - 1) s
      else (cons c) <$> balanced_prefix opener closer depth s
  end.

Fixpoint from_first (c : char) (s : str) : option str :=
  match s with
  | [] => None
  | d :: s' => if N.eqb d c then Some s else from_first c s'
  end.

Definition extract_balanced_segment (text : str) (opener closer : char) : option str :=
  start ← from_first opener text; balanced_prefix opener closer 0 start.

Definition extract_json_segment (text : str) : option str :=
  or_else (extract_balanced_segment text lbrace rbrace) (extract_balanced_segment text lbracket rbracket).

Definition malformed_tool_arguments_input (buffer : str) : Value := Object [($"raw_arguments", Str buffer)].

Definition malformed_tool_arguments_error `{Externs} (buffer : str) : str :=
  $"malformed tool arguments from model: expected valid JSON, got " ++ debug_str buffer.

Section parse.
Context (from_str : str -> option Value).

(** Repair first, then fenced, doubly encoded and embedded JSON. *)
Definition parse_tool_input (buffer : str) : option Value :=
  let trimmed := trim buffer in
  if str_is_empty trimmed then None else
  match repair from_str trimmed with Ok v => Some v | Err _ =>
  match strip_code_fences trimmed ≫= from_str with Some v => Some v | None =>
  match (s ← from_str trimmed; inner ← as_str s; from_str inner) with Some v => Some v | None =>
  extract_json_segment trimmed ≫= from_str end end end.

Definition final_tool_input (state : ToolUseState) : Value :=
  match input_parse_error state with
  | Some _ => malformed_tool_arguments_input (input_buffer state)
  | None =>
      if str_is_empty (trim (input_buffer state)) then tu_input state
      else default (tu_input state) (parse_tool_input (input_buffer state))
  end.
End parse.

(** Only the first of the prefixes that matches is removed. *)
Definition normalize_parallel_tool_name (raw : str) : str :=
  let n := trim raw in
  default n (first_some (fun p => strip_prefix p n) [$"functions."; $"tools."; $"tool."]).

(** [a.or_else(|| b)] on the aliases of a key. *)
Definition get_alias (item : Value) (names : list str) : option Value := first_some (get item) names.

Definition parse_parallel_call (item : Value) : result ToolError (str * Value) :=
  n ← ok_or (get_alias item [$"recipient_name"; $"tool_name"; $"name"; $"tool"] ≫= as_str) (MissingField $"recipient_name");
  Ok (normalize_parallel_tool_name n,
      default (Object []) (get_alias item [$"parameters"; $"input"; $"args"; $"arguments"])).

Definition parse_parallel_tool_calls (v : Value) : result ToolError (list (str * Value)) :=
  tool_uses ← ok_or (get v $"tool_uses" ≫= as_array) (MissingField $"tool_uses");
  reject_if (bool_decide (tool_uses = [])) (InvalidInput $"multi_tool_use.parallel requires at least one tool call");;
  foldM (fun calls item => call ← parse_parallel_call item; Ok (calls ++ [call])) [] tool_uses.

(** ** Dispatch policy *)

Definition tool_plan_is_parallel_safe (p : ToolExecutionPlan) : bool :=
  read_only p && supports_parallel p && negb (approval_required p) && negb (interactive p).

Definition is_none {A} (o : option A) : bool := match o with None => true | Some _ => false end.

Definition tool_plan_can_join_parallel_batch (p : ToolExecutionPlan) : bool :=
  is_none (blocked_error p) &&
  (tool_plan_is_parallel_safe p || (detached_start p && negb (approval_required p) && negb (interactive p))).

(** [flush_parallel]. *)
Definition flush_parallel (candidates : list (ToolExecutionPlan * list ResourceClaim)) : list ToolExecutionBatch :=
  Parallel <$> schedule_non_conflicting candidates.

Fixpoint batches_from (candidates : list (ToolExecutionPlan * list ResourceClaim)) (plans : list ToolExecutionPlan)
    : list ToolExecutionBatch :=
  match plans with
  | [] => flush_parallel candidates
  | plan :: plans =>
      if tool_plan_can_join_parallel_batch plan then batches_from (candidates ++ [(plan, resources plan)]) plans
      else flush_parallel candidates ++ Serial plan :: batches_from [] plans
  end.

Definition plan_tool_execution_batches (plans : list ToolExecutionPlan) : list ToolExecutionBatch := batches_from [] plans.

Definition mcp_read_tools : list str :=
  [$"list_mcp_resources"; $"list_mcp_resource_templates"; $"mcp_read_resource"; $"read_mcp_resource"; $"mcp_get_prompt"].
Definition mcp_tool_is_parallel_safe (n : str) : bool := bool_decide (n ∈ mcp_read_tools).
Definition mcp_tool_is_read_only (n : str) : bool := bool_decide (n ∈ mcp_read_tools).
Definition mcp_tool_approval_description (n : str) : str :=
  if mcp_tool_is_read_only n then $"Read-only MCP tool '" ++ n ++ $"'" else $"MCP tool '" ++ n ++ $"' may have side effects".

(** ** Repeated reads of a turn *)

Definition with_guard_result (p : ToolExecutionPlan) (r : ToolResult) : ToolExecutionPlan :=
  {| index := index p; id := id p; name := name p; input := input p; caller := caller p; interactive := interactive p;
     approval_required := approval_required p; approval_description := approval_description p;
     approval_force_prompt := approval_force_prompt p; supports_parallel := supports_parallel p;
     read_only := read_only p; detached_start := detached_start p; resources := resources p;
     blocked_error := blocked_error p; guard_result := Some r |}.

(** A read whose result may be shared; anything else is a barrier. *)
Definition eligible (p : ToolExecutionPlan) : bool :=
  read_only p && negb (interactive p) && negb (detached_start p) && is_none (blocked_error p) && is_none (guard_result p).

Section repeats.
Context `{Externs} (to_string : Value -> str).

(** The loop state of [plan_read_repeat_execution]. *)
Record Repeats := {
  r_out : ReadRepeatExecutionPlan;
  r_guard : ReadRepeatGuard;
  leaders : gmap ReadRepeatKey nat }.

Definition push_executable (o : ReadRepeatExecutionPlan) (p : ToolExecutionPlan) : ReadRepeatExecutionPlan :=
  {| executable := executable o ++ [p]; coalesced := coalesced o; occurrences := occurrences o |}.

Definition repeat_step (s : Repeats) (plan : ToolExecutionPlan) : Repeats :=
  if negb (eligible plan)
  then {| r_out := push_executable (r_out s) plan; r_guard := r_guard s; leaders := ∅ |}
  else
    let '(g, occ) := register to_string (r_guard s) (name plan) (input plan) in
    let o := {| executable := executable (r_out s); coalesced := coalesced (r_out s);
                occurrences := <[index plan := occ]> (occurrences (r_out s)) |} in
    match prior_receipt g occ with
    | Some receipt => {| r_out := push_executable o (with_guard_result plan receipt); r_guard := g; leaders := leaders s |}
    | None =>
        match leaders s !! key occ with
        | Some l =>
            {| r_out := {| executable := executable o;
                           coalesced := coalesced o ++ [{| leader_index := l; follower := plan; occurrence := occ |}];
                           occurrences := occurrences o |};
               r_guard := g; leaders := leaders s |}
        | None =>
            {| r_out := push_executable o plan; r_guard := g; leaders := <[key occ := index plan]> (leaders s) |}
        end
    end.

Definition plan_read_repeat_execution (plans : list ToolExecutionPlan) (g : ReadRepeatGuard)
    : ReadRepeatExecutionPlan * ReadRepeatGuard :=
  let s := foldl repeat_step
             {| r_out := {| executable := []; coalesced := []; occurrences := ∅ |}; r_guard := g; leaders := ∅ |} plans in
  (r_out s, r_guard s).
End repeats.

(** * Properties of the dispatch of a turn's calls *)

(** ** Batches *)

Definition plans_of (b : ToolExecutionBatch) : list ToolExecutionPlan :=
  match b with Parallel ps => ps | Serial p => [p] end.

(** A call that needs nobody's attention: not blocked, no approval, not
    interactive, and either a read its tool runs in parallel or the start of
    a detached job. *)
Definition unattended (p : ToolExecutionPlan) : Prop :=
  blocked_error p = None /\ approval_required p = false /\ interactive p = false /\
  (detached_start p = true \/ (read_only p = true /\ supports_parallel p = true)).

Lemma can_join_spec p : tool_plan_can_join_parallel_batch p = true <-> unattended p.
Proof.
  unfold tool_plan_can_join_parallel_batch, tool_plan_is_parallel_safe, unattended, is_none.
  destruct (blocked_error p), (read_only p), (supports_parallel p), (approval_required p), (interactive p), (detached_start p);
    simpl; naive_solver.
Qed.

Definition claimed (p : ToolExecutionPlan) : ToolExecutionPlan * list ResourceClaim := (p, resources p).

Definition batch_sound (b : ToolExecutionBatch) : Prop :=
  match b with
  | Parallel ps => ps <> [] /\ Forall unattended ps /\ ForallOrdPairs (fun p q => compatible (claimed p) (claimed q)) ps
  | Serial p => ~ unattended p
  end.

Lemma ForallOrdPairs_fmap {A B} (R : B -> B -> Prop) (f : A -> B) l :
  ForallOrdPairs R (f <$> l) <-> ForallOrdPairs (fun x y => R (f x) (f y)) l.
Proof.
  induction l as [|x l IH]; [by split; constructor|]. rewrite fmap_cons.
  split; inversion 1; subst; constructor; try (by apply IH); by apply Forall_fmap.
Qed.

Lemma claimed_fixed (l : list (ToolExecutionPlan * list ResourceClaim)) (ps : list ToolExecutionPlan) :
  (forall x, x ∈ l -> x ∈ claimed <$> ps) -> l = claimed <$> l.*1.
Proof.
  induction l as [|x l IH]; intros Hl; [done|]. rewrite !fmap_cons, <-IH by (intros; apply Hl; by right). f_equal.
  destruct (proj1 (list_elem_of_fmap _ _ _) (Hl x ltac:(by left))) as (p & -> & _). done.
Qed.

Lemma concat_plans (bs : list (list (ToolExecutionPlan * list ResourceClaim))) :
  ((Parallel <$> calls_of bs) ≫= plans_of) = (concat bs).*1.
Proof. induction bs as [|b bs IH]; [done|]. simpl. rewrite fmap_app. f_equal. apply IH. Qed.

Lemma flush_sound ps :
  Forall unattended ps ->
  (flush_parallel (claimed <$> ps) ≫= plans_of) = ps /\ Forall batch_sound (flush_parallel (claimed <$> ps)).
Proof.
  intros Hu. unfold flush_parallel. destruct (schedule_greedy (claimed <$> ps)) as (bs & -> & Hc & [Hok _]). split.
  - rewrite concat_plans, Hc, <-list_fmap_compose. by apply list_fmap_id.
  - unfold calls_of. rewrite <-list_fmap_compose. apply Forall_fmap, Forall_forall. intros b Hb.
    rewrite Forall_forall in Hok. destruct (Hok b Hb) as [Hne Hp].
    assert (Hin : forall x, x ∈ b -> x ∈ claimed <$> ps).
    { intros x Hx. rewrite <-Hc. apply list_elem_of_In, in_concat. exists b. by rewrite <-!list_elem_of_In. }
    simpl. rewrite (claimed_fixed b ps Hin) in Hp. apply (ForallOrdPairs_fmap compatible claimed) in Hp. split_and!; [by destruct b; [|]| |exact Hp].
    apply Forall_fmap, Forall_forall. intros x Hx. apply Hin, list_elem_of_fmap in Hx as (p & -> & Hx).
    rewrite Forall_forall in Hu. by apply Hu.
Qed.

Lemma batches_from_sound ps plans :
  Forall unattended ps ->
  (batches_from (claimed <$> ps) plans ≫= plans_of) = ps ++ plans /\ Forall batch_sound (batches_from (claimed <$> ps) plans).
Proof.
  revert ps. induction plans as [|p plans IH]; intros ps Hu; simpl; [rewrite app_nil_r; by apply flush_sound|].
  destruct (tool_plan_can_join_parallel_batch p) eqn:E.
  - apply can_join_spec in E. destruct (IH (ps ++ [p])) as [H1 H2]; [apply Forall_app; split; [done|by apply Forall_singleton]|].
    rewrite fmap_app in H1, H2. by rewrite <-app_assoc in H1.
  - destruct (flush_sound ps Hu) as [H1 H2]. destruct (IH []) as [H3 H4]; [constructor|].
    rewrite bind_app, H1. simpl. split; [f_equal; f_equal; exact H3|]. apply Forall_app. split; [done|].
    constructor; [|done]. simpl. rewrite <-can_join_spec. congruence.
Qed.

(** a turn's calls are executed in batches that keep their order and drop
    or repeat none.  A call that is blocked, needs approval, is interactive, or
    neither reads in parallel nor starts a detached job is a batch of its own;
    the calls of a parallel batch are all unattended and pairwise compatible,
    so none writes a path that another one reads or writes. *)
Theorem side_effects_run_alone plans :
  (plan_tool_execution_batches plans ≫= plans_of) = plans /\ Forall batch_sound (plan_tool_execution_batches plans).
Proof. by apply (batches_from_sound []). Qed.

(** ** Repeated reads *)

(** [interleaves l k m]: [m] holds the elements of [l] and of [k], each in order. *)
Inductive interleaves {A} : list A -> list A -> list A -> Prop :=
| inter_nil : interleaves [] [] []
| inter_left x l k m : interleaves l k m -> interleaves (x :: l) k (x :: m)
| inter_right x l k m : interleaves l k m -> interleaves l (x :: k) (x :: m).

Lemma interleaves_snoc_left {A} (l k m : list A) x : interleaves l k m -> interleaves (l ++ [x]) k (m ++ [x]).
Proof. induction 1; simpl; repeat constructor; done. Qed.
Lemma interleaves_snoc_right {A} (l k m : list A) x : interleaves l k m -> interleaves l (k ++ [x]) (m ++ [x]).
Proof. induction 1; simpl; repeat constructor; done. Qed.

Section repeats.
Context `{Externs} (to_string : Value -> str) (g0 : ReadRepeatGuard).

Definition plan_key (p : ToolExecutionPlan) : ReadRepeatKey := repeat_key to_string (name p) (input p).

(** What a call that is kept is executed as: itself, or a receipt for the
    result the guard remembers for the same read. *)
Definition kept_as (p q : ToolExecutionPlan) : Prop :=
  q = p \/
  exists prior occ, eligible p = true /\ prior_successes g0 !! plan_key p = Some prior /\
    RECEIPT_THRESHOLD <= count occ /\ key occ = plan_key p /\
    q = with_guard_result p (receipt_result occ (tool_use_id prior) (content_sha256 prior) $"prior_result").

(** [l] is executed, asks what [k] asks, and no barrier stands between [l] and
    the end of [seen]. *)
Definition led_by (out : ReadRepeatExecutionPlan) (seen : list ToolExecutionPlan) (k : ReadRepeatKey) (i : nat) : Prop :=
  exists before l mid, seen = before ++ l :: mid /\ index l = i /\ plan_key l = k /\
    Forall (fun p => eligible p = true) (l :: mid) /\ l ∈ executable out.

Definition coalesced_soundly (out : ReadRepeatExecutionPlan) (seen : list ToolExecutionPlan) (c : CoalescedReadPlan) : Prop :=
  eligible (follower c) = true /\ key (occurrence c) = plan_key (follower c) /\
  exists seen' after, seen = seen' ++ follower c :: after /\ led_by out seen' (plan_key (follower c)) (leader_index c).

Definition repeats_ok (seen : list ToolExecutionPlan) (s : Repeats) : Prop :=
  prior_successes (r_guard s) = prior_successes g0 /\
  (exists chosen, interleaves chosen (follower <$> coalesced (r_out s)) seen /\ Forall2 kept_as chosen (executable (r_out s))) /\
  Forall (coalesced_soundly (r_out s) seen) (coalesced (r_out s)) /\
  (forall k i, leaders s !! k = Some i -> led_by (r_out s) seen k i).

Lemma led_by_mono out out' seen k i :
  (forall p, p ∈ executable out -> p ∈ executable out') -> led_by out seen k i -> led_by out' seen k i.
Proof. intros Hs (b & l & m & ? & ? & ? & ? & ?). exists b, l, m. split_and!; auto. Qed.

Lemma led_by_snoc out seen k i p : eligible p = true -> led_by out seen k i -> led_by out (seen ++ [p]) k i.
Proof.
  intros Hp (b & l & m & -> & ? & ? & Hf & ?). exists b, l, (m ++ [p]). rewrite <-app_assoc. split_and!; try done.
  change (l :: m ++ [p]) with ((l :: m) ++ [p]). apply Forall_app. split; [done|by apply Forall_singleton].
Qed.

Lemma coalesced_snoc out out' seen p c :
  (forall q, q ∈ executable out -> q ∈ executable out') ->
  coalesced_soundly out seen c -> coalesced_soundly out' (seen ++ [p]) c.
Proof.
  intros Hs (He & Hk & s1 & s2 & -> & Hl). split_and!; [done..|]. exists s1, (s2 ++ [p]). rewrite <-app_assoc.
  split; [done|]. by eapply led_by_mono.
Qed.

Lemma repeat_step_ok seen s p : repeats_ok seen s -> repeats_ok (seen ++ [p]) (repeat_step to_string s p).
Proof.
  intros (Hg & (chosen & Hi & Hk) & Hc & Hl). unfold repeat_step.
  destruct (eligible p) eqn:Ee; simpl; [|split_and!; simpl; [done|..]].
  2: { exists (chosen ++ [p]). split; [by apply interleaves_snoc_left|]. apply Forall2_app; [done|]. repeat constructor. }
  2: { eapply Forall_impl; [exact Hc|]. intros c. apply coalesced_snoc. simpl. set_solver. }
  2: { intros k i. by rewrite lookup_empty. }
  set (occ := {| key := repeat_key to_string (name p) (input p); count := _ |}).
  set (g := {| counts := _; prior_successes := _ |}).
  destruct (prior_receipt g occ) as [r|] eqn:Er; simpl; [split_and!; simpl; [done|..]|].
  - exists (chosen ++ [p]). split; [by apply interleaves_snoc_left|]. apply Forall2_app; [done|]. constructor; [|constructor].
    right. unfold prior_receipt in Er. destruct (count occ <? RECEIPT_THRESHOLD) eqn:Et; [done|].
    apply bind_Some in Er as (prior & Hp & [= <-]). exists prior, occ. split_and!; [done| |lia|done|done].
    by rewrite <-Hg.
  - eapply Forall_impl; [exact Hc|]. intros c. apply coalesced_snoc. simpl. set_solver.
  - intros k i Hki. apply led_by_snoc; [done|]. eapply led_by_mono; [|by apply Hl]. simpl. set_solver.
  - destruct (leaders s !! repeat_key to_string (name p) (input p)) as [i|] eqn:El; simpl; (split_and!; simpl; [done|..]).
    + exists chosen. split; [|done]. rewrite fmap_app. by apply interleaves_snoc_right.
    + apply Forall_app. split.
      * eapply Forall_impl; [exact Hc|]. intros c. by apply coalesced_snoc.
      * apply Forall_singleton. split_and!; [done..|]. simpl. exists seen, []. split; [done|].
        eapply led_by_mono; [|by apply Hl]. done.
    + intros k j Hkj. apply led_by_snoc; [done|]. eapply led_by_mono; [|by apply Hl]. done.
    + exists (chosen ++ [p]). split; [by apply interleaves_snoc_left|]. apply Forall2_app; [done|]. repeat constructor.
    + eapply Forall_impl; [exact Hc|]. intros c. apply coalesced_snoc. simpl. set_solver.
    + intros k j. rewrite lookup_insert_Some. intros [[<- <-]|[_ Hkj]].
      * exists seen, p, []. split_and!; [done..| |simpl; set_solver]. by apply Forall_singleton.
      * apply led_by_snoc; [done|]. eapply led_by_mono; [|by apply Hl]. simpl. set_solver.
Qed.

(** a repeated read of a turn is executed at most once between two barriers
    and no call is lost.  The calls are split, in order, into those that are
    executed and the followers that are not; a call that is executed runs as it
    is, or is answered by a receipt for a result the guard remembers for the
    same read; every follower is a read that asks exactly what an earlier,
    executed read asks (its leader), with only shareable reads, so no write,
    interactive call, detached start or denial, in between. *)
Theorem repeated_reads_share_one_execution plans :
  let out := (plan_read_repeat_execution to_string plans g0).1 in
  (exists chosen, interleaves chosen (follower <$> coalesced out) plans /\ Forall2 kept_as chosen (executable out)) /\
  Forall (coalesced_soundly out plans) (coalesced out).
Proof.
  unfold plan_read_repeat_execution. simpl.
  set (s0 := {| r_out := _; r_guard := g0; leaders := ∅ |}).
  assert (Hok : forall seen s, repeats_ok seen s -> repeats_ok (seen ++ plans) (foldl (repeat_step to_string) s plans)).
  { induction plans as [|p plans IH]; intros seen s Hs; simpl; [by rewrite app_nil_r|].
    rewrite cons_middle, app_assoc. by apply IH, repeat_step_ok. }
  destruct (Hok [] s0) as (_ & H1 & H2 & _); [|done].
  split_and!; simpl; [done| |constructor|intros k i; by rewrite lookup_empty]. exists []. split; constructor.
Qed.
End repeats.

(** ** A read after a write *)

Definition sample_plan (i : nat) (tool : str) (ro : bool) : ToolExecutionPlan :=
  {| index := i; id := $"t" ++ display_u (Z.of_nat i); name := tool; input := args_ab; caller := None; interactive := false;
     approval_required := false; approval_description := []; approval_force_prompt := false; supports_parallel := ro;
     read_only := ro; detached_start := false; resources := []; blocked_error := None; guard_result := None |}.

Definition write_then_read : list ToolExecutionPlan := [sample_plan 0 $"write_file" false; sample_plan 1 $"read_file" true].

(** One step of a turn: the file is written, then read; the read's result, if
    it ran, is remembered. *)
Definition write_read_step (g : ReadRepeatGuard) (c : str) : ReadRepeatExecutionPlan * ReadRepeatGuard :=
  let '(out, g) := @plan_read_repeat_execution plain_externs plain_text write_then_read g in
  (out, match occurrences out !! 1%nat with
        | Some occ => @remember_success plain_externs g occ $"t1" (ToolResult_success c)
        | None => g
        end).

(** The barrier that keeps a read from an earlier result of the same batch does
    not keep it from a remembered one: the fifth write-then-read step answers
    the read with a receipt for the fourth result. *)
Example read_after_a_write_is_answered_from_before :
  let g4 := foldl (fun g c => (write_read_step g c).2) new_guard [$"1"; $"2"; $"3"; $"4"] in
  map (fun p => (name p, bool_decide (is_Some (guard_result p)))) (executable (write_read_step g4 $"5").1)
  = [($"write_file", false); ($"read_file", true)] /\
  (prior_successes g4 !! @repeat_key plain_externs plain_text $"read_file" args_ab ≫= fun s => Some (content_sha256 s))
  = Some (@sha256_hex plain_externs (as_bytes $"4")).
Proof. vm_compute. done. Qed.

(** ** Embedded JSON *)

Lemma balanced_prefix_spec o c d s t :
  o <> c -> 0 < d -> balanced_prefix o c d s = Some t ->
  exists r, s = t ++ r /\ d + delta o c t = 0 /\ forall a b, t = a ++ b -> b <> [] -> 0 < d + delta o c a.
Proof.
  intros Hoc. revert d t. induction s as [|x s IH]; intros d t Hd; simpl; [done|].
  assert (Hkeep : forall d' t', 0 < d' -> d' = d + delta o c [x] -> balanced_prefix o c d' s = Some t' ->
            exists r, x :: s = (x :: t') ++ r /\ d + delta o c (x :: t') = 0 /\
              forall a b, x :: t' = a ++ b -> b <> [] -> 0 < d + delta o c a).
  { intros d' t' Hd' -> Ht. destruct (IH _ _ Hd' Ht) as (r & -> & H0 & Hp). exists r. split; [done|].
    change (x :: t') with ([x] ++ t'). rewrite delta_app. split; [lia|].
    intros [|y a] b He Hb; [simpl; lia|]. injection He as <- He. specialize (Hp a b He Hb).
    change (x :: a) with ([x] ++ a). rewrite delta_app. lia. }
  assert (Hone : delta o c [x] = if N.eqb x o then 1 else if N.eqb x c then -1 else 0) by (unfold delta; simpl; lia).
  destruct (N.eqb_spec x o) as [->|Ho]; [|destruct (N.eqb_spec x c) as [->|Hc]].
  - intros (t' & Ht & ->)%fmap_Some. eapply Hkeep; [| |exact Ht]; lia.
  - case_bool_decide as E; [|intros (t' & Ht & ->)%fmap_Some; eapply Hkeep; [| |exact Ht]; lia].
    intros [= <-]. exists s. split; [done|]. split; [lia|]. intros [|y a] b He Hb; [simpl; lia|].
    injection He as <- He. symmetry in He. apply app_nil in He as [-> ->]. done.
  - intros (t' & Ht & ->)%fmap_Some. eapply Hkeep; [| |exact Ht]; lia.
Qed.

Lemma from_first_spec c s r : from_first c s = Some r -> exists a r', s = a ++ r /\ r = c :: r' /\ c ∉ a.
Proof.
  induction s as [|d s IH]; simpl; [done|]. destruct (N.eqb_spec d c) as [->|Hn].
  - intros [= <-]. exists [], s. split_and!; [done..|set_solver].
  - intros (a & r' & -> & -> & Ha)%IH. exists (d :: a), r'. split_and!; [done..|set_solver].
Qed.

(** The segment starts at the first opener and is the shortest part of the text
    from there on with as many closers as openers. *)
Lemma extracted_segment_is_minimal text o c t :
  o <> c -> extract_balanced_segment text o c = Some t ->
  exists before after, text = before ++ t ++ after /\ o ∉ before /\ head t = Some o /\ delta o c t = 0 /\
    forall a b, t = a ++ b -> a <> [] -> b <> [] -> 0 < delta o c a.
Proof.
  intros Hoc. unfold extract_balanced_segment. intros (s & (a & r & -> & -> & Ha)%from_first_spec & Hb)%bind_Some.
  simpl in Hb. rewrite N.eqb_refl in Hb. apply fmap_Some in Hb as (t' & Ht & ->).
  destruct (balanced_prefix_spec o c (0 + 1) r t' Hoc ltac:(lia) Ht) as (r' & -> & H0 & Hp).
  assert (Hd : delta o c [o] = 1) by (unfold delta; simpl; rewrite N.eqb_refl; lia).
  exists a, r'. split_and!; [done..| |].
  - change (o :: t') with ([o] ++ t'). rewrite delta_app. lia.
  - intros [|y a'] b He Hne Hb; [done|]. injection He as <- He. specialize (Hp a' b He Hb).
    change (o :: a') with ([o] ++ a'). rewrite delta_app. lia.
Qed.
