(* ===== verification/FleetExact.v ===== *)
(** * Exact fleets

    [crates/workflow/src/fleet_exact.rs], with the call ceiling of
    [reasoning_router.rs]: reasoning tiers, permission ceilings, members, the
    roster invariants, lookups and the reading of a fleet document.  Parsing
    TOML into the document is a parameter of the callers. *)

From S2P Require Import Text WorkflowRoles.

Definition EXACT_FLEET_SCHEMA_KIND : str := $"exact".
Definition LEGACY_FLEET_SCHEMA_KIND : str := $"legacy".
Definition EXACT_FLEET_SCHEMA_REVISION : Z := 1.
Definition ROUTER_MEMBER_KIND : str := $"router".
Definition WORKER_MEMBER_KIND : str := $"worker".
Definition ROUTER_PUBLIC_ID : str := $"router".
Definition ROUTER_PUBLIC_ROLE : str := $"router".

Definition ROLE_ALIASES : list (str * str) := [($"oracle", $"consultant"); ($"advisor", $"consultant")].

Definition canonical_role_key (value : str) : str :=
  let key := to_ascii_lowercase (trim value) in
  from_option snd key (find (fun a => bool_decide (a.1 = key)) ROLE_ALIASES).

Definition canonical_member_key (value : str) : str := to_ascii_lowercase (trim value).

Definition FORBIDDEN_ROUTE_SELECTORS : list str :=
  [$"auto"; $"inherit"; $"parent"; $"same"; $"faster"; $"fast"; $"cheap"; $"strong"; $"balanced"; $"default"].

(** ** Reasoning *)

Module ReasoningTier.
Inductive t := Off | Low | Medium | High | Max.

Definition as_str (x : t) : str :=
  match x with Off => $"off" | Low => $"low" | Medium => $"medium" | High => $"high" | Max => $"max" end.

Definition parse (value : str) : option t :=
  let v := to_ascii_lowercase (trim value) in
  if bool_decide (v ∈ [$"off"; $"none"; $"disabled"]) then Some Off
  else if bool_decide (v ∈ [$"low"; $"minimal"]) then Some Low
  else if bool_decide (v ∈ [$"medium"; $"mid"]) then Some Medium
  else if bool_decide (v = $"high") then Some High
  else if bool_decide (v ∈ [$"max"; $"maximum"; $"xhigh"]) then Some Max
  else None.

(** The derived order. *)
Definition rank (x : t) : Z := match x with Off => 0 | Low => 1 | Medium => 2 | High => 3 | Max => 4 end.

#[export] Instance t_eq_dec : EqDecision t.
Proof. solve_decision. Defined.
End ReasoningTier.
Export (hints) ReasoningTier.

Module RequestedReasoning.
Inductive t := Off | Low | Medium | High | Max | Auto.

Definition as_str (x : t) : str :=
  match x with
  | Off => $"off" | Low => $"low" | Medium => $"medium" | High => $"high" | Max => $"max" | Auto => $"auto"
  end.

Definition is_auto (x : t) : bool := match x with Auto => true | _ => false end.

Definition tier (x : t) : option ReasoningTier.t :=
  match x with
  | Off => Some ReasoningTier.Off | Low => Some ReasoningTier.Low | Medium => Some ReasoningTier.Medium
  | High => Some ReasoningTier.High | Max => Some ReasoningTier.Max | Auto => None
  end.

Definition of_tier (x : ReasoningTier.t) : t :=
  match x with
  | ReasoningTier.Off => Off | ReasoningTier.Low => Low | ReasoningTier.Medium => Medium
  | ReasoningTier.High => High | ReasoningTier.Max => Max
  end.

Definition parse (value : str) : option t :=
  if bool_decide (to_ascii_lowercase (trim value) = $"auto") then Some Auto
  else of_tier <$> ReasoningTier.parse value.

#[export] Instance t_eq_dec : EqDecision t.
Proof. solve_decision. Defined.
End RequestedReasoning.
Export (hints) RequestedReasoning.

Inductive ReasoningRouterError :=
| RouterParse (message : str)
| RouterIo (path message : str)
| RouterNotFound (name : str)
| AmbiguousRouter (name : str) (origins : list str)
| RouterUnknownSchema (schema : str)
| RouterUnsupportedRevision (revision supported : Z)
| RouterInvalidToken (field value : str)
| RouterNameMismatch (declared expected : str)
| CallReasoningTooExpensive (router value : str)
| InvalidCallReasoning (router value : str).

(** What a router's own call may run at: nothing above [low]. *)
Module RouterCallReasoning.
Inductive t := Off | Low.

Definition as_str (x : t) : str := match x with Off => $"off" | Low => $"low" end.
Definition tier (x : t) : ReasoningTier.t := match x with Off => ReasoningTier.Off | Low => ReasoningTier.Low end.

Definition parse (value router : str) : result ReasoningRouterError t :=
  let trimmed := trim value in
  let v := to_ascii_lowercase trimmed in
  if bool_decide (v ∈ [$"off"; $"none"; $"disabled"]) then Ok Off
  else if bool_decide (v ∈ [$"low"; $"minimal"]) then Ok Low
  else if bool_decide (v ∈ [$"medium"; $"mid"; $"high"; $"max"; $"maximum"; $"xhigh"])
  then Err (CallReasoningTooExpensive router trimmed)
  else Err (InvalidCallReasoning router trimmed).

#[export] Instance t_eq_dec : EqDecision t.
Proof. solve_decision. Defined.
End RouterCallReasoning.
Export (hints) RouterCallReasoning.

(** ** Permissions *)

Module ShellCeiling.
Inductive t := Closed | ReadOnly | Full.

Definition as_str (x : t) : str := match x with Closed => $"none" | ReadOnly => $"read_only" | Full => $"full" end.
(** The derived order: the most restrictive first. *)
Definition le (a b : t) : bool :=
  match a, b with Closed, _ => true | ReadOnly, Closed => false | ReadOnly, _ => true | Full, Full => true | Full, _ => false end.
Definition min_with (a b : t) : t := if le a b then a else b.

#[export] Instance t_eq_dec : EqDecision t.
Proof. solve_decision. Defined.
End ShellCeiling.
Export (hints) ShellCeiling.

Record PermissionCeiling := {
  write : bool; network_tool : bool; shell : ShellCeiling.t; delegation_depth : Z; tools : bool }.

#[export] Instance PermissionCeiling_eq_dec : EqDecision PermissionCeiling.
Proof. solve_decision. Defined.

Definition ROUTER : PermissionCeiling :=
  {| write := false; network_tool := false; shell := ShellCeiling.Closed; delegation_depth := 0; tools := false |}.

Definition base (w n : bool) (s : ShellCeiling.t) (d : Z) : PermissionCeiling :=
  {| write := w; network_tool := n; shell := s; delegation_depth := d; tools := true |}.

Definition preset (name : str) : option PermissionCeiling :=
  let v := to_ascii_lowercase (trim name) in
  if bool_decide (v = $"none") then Some ROUTER
  else if bool_decide (v = $"analyst") then Some (base false false ShellCeiling.Closed 0)
  else if bool_decide (v ∈ [$"read_only"; $"readonly"]) then Some (base false false ShellCeiling.ReadOnly 0)
  else if bool_decide (v ∈ [$"tester"; $"verifier"]) then Some (base false false ShellCeiling.Full 0)
  else if bool_decide (v ∈ [$"read_write"; $"readwrite"]) then Some (base true false ShellCeiling.Full 0)
  else if bool_decide (v = $"full") then Some (base true true ShellCeiling.Full 1)
  else None.

Definition clamp_to (self session : PermissionCeiling) : PermissionCeiling :=
  {| write := write self && write session;
     network_tool := network_tool self && network_tool session;
     shell := ShellCeiling.min_with (shell self) (shell session);
     delegation_depth := Z.min (delegation_depth self) (delegation_depth session);
     tools := tools self && tools session |}.

(** [preset("read_only").expect(..)]. *)
Definition default_permissions : PermissionCeiling := default ROUTER (preset $"read_only").

(** ** Members and fleets *)

Record FrozenRoute := { provider : str; model : str }.

Record ExactMember := {
  member_id : str; member_role : str; member_provider : str; member_model : str;
  member_reasoning : RequestedReasoning.t; member_permissions : PermissionCeiling }.

Definition member_route (m : ExactMember) : FrozenRoute := {| provider := member_provider m; model := member_model m |}.

#[export] Instance ExactMember_eq_dec : EqDecision ExactMember.
Proof. solve_decision. Defined.

Record RouterMember := {
  router_id : str; router_provider : str; router_model : str; call_reasoning : RouterCallReasoning.t }.

Definition router_route (r : RouterMember) : FrozenRoute := {| provider := router_provider r; model := router_model r |}.

Record ExactFleet := {
  fleet_name : str; fleet_description : option str; schema_revision : Z;
  members : list ExactMember; reasoning_router : option str; router : option RouterMember }.

Definition member (f : ExactFleet) (id : str) : option ExactMember :=
  let key := canonical_member_key id in
  find (fun m => bool_decide (canonical_member_key (member_id m) = key)) (members f).

Definition member_by_role (f : ExactFleet) (role : str) : option ExactMember :=
  let key := canonical_role_key role in
  find (fun m => bool_decide (canonical_role_key (member_role m) = key)) (members f).

Definition member_by_id_or_role (f : ExactFleet) (id_or_role : str) : option ExactMember :=
  match member f id_or_role with Some m => Some m | None => member_by_role f id_or_role end.

Inductive FleetRouterRef := RefProfile (name : str) | LegacyInline (r : RouterMember).

Definition router_ref (f : ExactFleet) : option FleetRouterRef :=
  match reasoning_router f with
  | Some name => Some (RefProfile name)
  | None => LegacyInline <$> router f
  end.

Definition has_auto_member (f : ExactFleet) : bool :=
  existsb (fun m => RequestedReasoning.is_auto (member_reasoning m)) (members f).

Inductive ExactFleetError :=
| ParseError (message : str)
| UnknownSchema (schema : str)
| UnsupportedRevision (revision supported : Z)
| InvalidToken (field value : str)
| DuplicateMember (id : str)
| DuplicateRole (role : str)
| IdRoleCollision (id other : str)
| ReservedRouterIdentity (id field : str)
| ContentHashMismatch (fleet recorded recomputed : str)
| NoMembers (fleet : str)
| UnknownMemberKind (id kind : str)
| MultipleRouters
| LateBindingSelector (id field value : str)
| InvalidReasoning (id value : str)
| UnknownPermissionPreset (id preset : str)
| RouterPermissionsDeclared (id : str)
| RouterRoleDeclared (id : str)
| RouterAutoReasoning (id : str)
| ConflictingRouterDeclarations (fleet : str)
| RouterError (source : ReasoningRouterError).

(** ** Roster invariants *)

(** The first loop of [validate]: the keys seen so far. *)
Definition validate_member (seen : gset str * gset str) (m : ExactMember) : result ExactFleetError (gset str * gset str) :=
  let '(ids, roles) := seen in
  let id := canonical_member_key (member_id m) in
  let role := canonical_role_key (member_role m) in
  reject_if (str_is_empty id) (InvalidToken $"member id" (member_id m));;
  reject_if (str_is_empty role) (InvalidToken $"member role" (member_role m));;
  reject_if (bool_decide (id = ROUTER_PUBLIC_ID)) (ReservedRouterIdentity (member_id m) $"id");;
  reject_if (bool_decide (role = ROUTER_PUBLIC_ID)) (ReservedRouterIdentity (member_id m) $"role");;
  reject_if (bool_decide (id ∈ ids)) (DuplicateMember id);;
  reject_if (bool_decide (role ∈ roles)) (DuplicateRole role);;
  Ok ({[ id ]} ∪ ids, {[ role ]} ∪ roles).

(** The member whose role is another member's id. *)
Definition colliding (ms : list ExactMember) (m : ExactMember) : option ExactMember :=
  find (fun other => bool_decide (member_id other <> member_id m)
                     && bool_decide (canonical_role_key (member_role other) = canonical_member_key (member_id m))) ms.

Definition validate (f : ExactFleet) : result ExactFleetError unit :=
  reject_if (bool_decide (members f = [])) (NoMembers (fleet_name f));;
  foldM validate_member (∅, ∅) (members f);;
  foldM (fun _ m => match colliding (members f) m with
                    | Some other => Err (IdRoleCollision (member_id m) (member_id other))
                    | None => Ok tt
                    end) tt (members f).

(** ** Reading a document *)

(** What serde makes of a TOML text; unknown keys are refused by it. *)
Record ExactMemberToml := {
  raw_id : str; raw_kind : option str; raw_role : option str; raw_provider : str; raw_model : str;
  raw_reasoning : option str; raw_permissions : option str }.

Record ExactFleetToml := {
  doc_name : str; doc_description : option str; doc_schema : str; doc_schema_revision : Z;
  doc_reasoning_router : option str; doc_members : list ExactMemberToml }.

Definition require_token (value field : str) : result ExactFleetError str :=
  ok_or (normalize_token value) (InvalidToken field (trim value)).

Definition require_member_role (value : str) : result ExactFleetError str :=
  role ← require_token value $"member role"; Ok (canonical_role_key role).

Definition is_selector (value : str) : bool :=
  existsb (fun selector => eq_ignore_ascii_case value selector) FORBIDDEN_ROUTE_SELECTORS.

Definition require_exact_route_token (value member field : str) : result ExactFleetError str :=
  let trimmed := trim value in
  reject_if (str_is_empty trimmed || existsb bad_token_char trimmed) (InvalidToken (member ++ $"." ++ field) trimmed);;
  reject_if (is_selector trimmed) (LateBindingSelector member field trimmed);;
  Ok trimmed.

(** An absent or blank kind is a worker. *)
Definition member_kind (raw : ExactMemberToml) : str :=
  to_ascii_lowercase (default WORKER_MEMBER_KIND
    (k ← trim <$> raw_kind raw; if str_is_empty k then None else Some k)).

Definition router_member (raw : ExactMemberToml) (id provider model : str) : result ExactFleetError RouterMember :=
  reject_if (bool_decide (is_Some (raw_permissions raw))) (RouterPermissionsDeclared id);;
  reject_if (bool_decide (is_Some (raw_role raw))) (RouterRoleDeclared id);;
  call ← match raw_reasoning raw with
         | None => Ok RouterCallReasoning.Off
         | Some value =>
             if eq_ignore_ascii_case (trim value) $"auto" then Err (RouterAutoReasoning id)
             else map_err RouterError (RouterCallReasoning.parse value id)
         end;
  Ok {| router_id := id; router_provider := provider; router_model := model; call_reasoning := call |}.

Definition worker_member (raw : ExactMemberToml) (id provider model : str) : result ExactFleetError ExactMember :=
  role ← match raw_role raw with Some role => require_member_role role | None => Ok id end;
  reasoning ← match raw_reasoning raw with
              | None => Ok RequestedReasoning.Off
              | Some value => ok_or (RequestedReasoning.parse value) (InvalidReasoning id (trim value))
              end;
  permissions ← match raw_permissions raw with
                | None => Ok default_permissions
                | Some p => ok_or (preset p) (UnknownPermissionPreset id (trim p))
                end;
  Ok {| member_id := id; member_role := role; member_provider := provider; member_model := model;
        member_reasoning := reasoning; member_permissions := permissions |}.

(** The loop over the document's members. *)
Record Reading := { read_members : list ExactMember; read_router : option RouterMember; seen_ids : gset str }.

Definition read_member (s : Reading) (raw : ExactMemberToml) : result ExactFleetError Reading :=
  id ← require_token (raw_id raw) $"member id";
  reject_if (bool_decide (id ∈ seen_ids s)) (DuplicateMember id);;
  let seen := {[ id ]} ∪ seen_ids s in
  provider ← require_exact_route_token (raw_provider raw) id $"provider";
  model ← require_exact_route_token (raw_model raw) id $"model";
  let kind := member_kind raw in
  if bool_decide (kind = ROUTER_MEMBER_KIND) then
    reject_if (bool_decide (is_Some (read_router s))) MultipleRouters;;
    r ← router_member raw id provider model;
    Ok {| read_members := read_members s; read_router := Some r; seen_ids := seen |}
  else if bool_decide (kind = WORKER_MEMBER_KIND) then
    m ← worker_member raw id provider model;
    Ok {| read_members := read_members s ++ [m]; read_router := read_router s; seen_ids := seen |}
  else Err (UnknownMemberKind id kind).

Definition named_router (doc : ExactFleetToml) (inline : option RouterMember) (name : str)
    : result ExactFleetError (option str) :=
  match trim <$> doc_reasoning_router doc with
  | Some value =>
      if str_is_empty value then Ok None
      else reject_if (bool_decide (is_Some inline)) (ConflictingRouterDeclarations name);; Ok (Some value)
  | None => Ok None
  end.

Definition from_toml (doc : ExactFleetToml) : result ExactFleetError ExactFleet :=
  reject_if (negb (eq_ignore_ascii_case (trim (doc_schema doc)) EXACT_FLEET_SCHEMA_KIND)) (UnknownSchema (trim (doc_schema doc)));;
  reject_if (negb (doc_schema_revision doc =? EXACT_FLEET_SCHEMA_REVISION))
    (UnsupportedRevision (doc_schema_revision doc) EXACT_FLEET_SCHEMA_REVISION);;
  name ← require_token (doc_name doc) $"name";
  s ← foldM read_member {| read_members := []; read_router := None; seen_ids := ∅ |} (doc_members doc);
  reject_if (bool_decide (read_members s = [])) (NoMembers name);;
  reference ← named_router doc (read_router s) name;
  let fleet := {| fleet_name := name; fleet_description := doc_description doc; schema_revision := doc_schema_revision doc;
                  members := read_members s; reasoning_router := reference; router := read_router s |} in
  validate fleet;;
  Ok fleet.

(** [toml::from_str] is a parameter: a document, or its message. *)
Definition parse (toml_from_str : str -> result str ExactFleetToml) (text : str) : result ExactFleetError ExactFleet :=
  doc ← map_err ParseError (toml_from_str text); from_toml doc.

(** The probe's parser is a parameter too: [None] where the text is not a
    document with an optional [schema] string. *)
Definition declared_schema_kind (probe : str -> option (option str)) (text : str) : option str :=
  schema ← mjoin (probe text);
  let s := to_ascii_lowercase (trim schema) in
  if str_is_empty s then None else Some s.

(** * Properties of exact fleets *)

(** ** Ceilings *)

(** [a] grants nothing that [b] does not. *)
Definition within (a b : PermissionCeiling) : Prop :=
  (write a = true -> write b = true) /\ (network_tool a = true -> network_tool b = true) /\
  ShellCeiling.le (shell a) (shell b) = true /\ delegation_depth a <= delegation_depth b /\ (tools a = true -> tools b = true).

Lemma min_with_spec c a b :
  ShellCeiling.le c (ShellCeiling.min_with a b) = true <-> ShellCeiling.le c a = true /\ ShellCeiling.le c b = true.
Proof. destruct c, a, b; cbn; naive_solver. Qed.

(** narrowing a member's ceiling to the session's posture gives the
    greatest authority that both allow: a posture is within the result exactly
    when it is within both, so the result never grants what either side denies
    and never denies what both grant. *)
Theorem clamp_is_the_common_authority a b c : within c (clamp_to a b) <-> within c a /\ within c b.
Proof.
  unfold within, clamp_to. cbn. rewrite min_with_spec, !andb_true_iff. split; [|naive_solver lia].
  intros (? & ? & ? & ? & ?). split; naive_solver lia.
Qed.

(** The router's posture is within every preset. *)
Lemma router_is_least name p : preset name = Some p -> within ROUTER p.
Proof.
  unfold preset. repeat case_bool_decide; intros [= <-] || discriminate; unfold within; cbn; naive_solver lia.
Qed.

(** ** The roster *)

Definition id_key (m : ExactMember) : str := canonical_member_key (member_id m).
Definition role_key (m : ExactMember) : str := canonical_role_key (member_role m).

Definition key_ok (k : str) : Prop := k <> [] /\ k <> ROUTER_PUBLIC_ID.

(** No two members share an id or a role, none wears the router's name, and no
    member's id is another member's role. *)
Definition roster_ok (ms : list ExactMember) : Prop :=
  ms <> [] /\ Forall (fun m => key_ok (id_key m) /\ key_ok (role_key m)) ms /\
  NoDup (id_key <$> ms) /\ NoDup (role_key <$> ms) /\
  forall m o, m ∈ ms -> o ∈ ms -> member_id m <> member_id o -> role_key o <> id_key m.

Definition unseen (seen : gset str * gset str) (m : ExactMember) : Prop := (id_key m ∉ seen.1) /\ (role_key m ∉ seen.2).

Lemma validate_member_Ok seen m s :
  validate_member seen m = Ok s <->
  (key_ok (id_key m) /\ key_ok (role_key m)) /\ unseen seen m /\ s = ({[ id_key m ]} ∪ seen.1, {[ role_key m ]} ∪ seen.2).
Proof.
  destruct seen as [ids roles]. unfold validate_member, key_ok, unseen. fold (id_key m) (role_key m).
  rewrite !seq_Ok, !reject_if_Ok, !bool_decide_eq_false.
  destruct (id_key m), (role_key m); cbn; naive_solver.
Qed.

Lemma validate_members_Ok ms seen :
  (exists s, foldM validate_member seen ms = Ok s) <->
  Forall (fun m => key_ok (id_key m) /\ key_ok (role_key m)) ms /\
  NoDup (id_key <$> ms) /\ NoDup (role_key <$> ms) /\ Forall (unseen seen) ms.
Proof.
  revert seen. induction ms as [|m ms IH]; intros seen.
  - split; [intros _; repeat constructor|]. intros _. by eexists.
  - rewrite !fmap_cons, !NoDup_cons, !Forall_cons.
    trans (exists s1, validate_member seen m = Ok s1 /\ exists s, foldM validate_member s1 ms = Ok s).
    { cbn [foldM]. setoid_rewrite bind_Ok. naive_solver. }
    assert (Hun : forall k, unseen ({[ id_key m ]} ∪ seen.1, {[ role_key m ]} ∪ seen.2) k <->
                            unseen seen k /\ id_key k <> id_key m /\ role_key k <> role_key m).
    { intros k. unfold unseen. cbn. rewrite !not_elem_of_union, !not_elem_of_singleton. tauto. }
    split.
    + intros (s1 & (Hk & Hu & ->)%validate_member_Ok & (Ha & Hi & Hr & Hun')%IH).
      rewrite Forall_forall in Hun'.
      assert (Hun2 : forall k, k ∈ ms -> unseen seen k /\ id_key k <> id_key m /\ role_key k <> role_key m)
        by (intros k Hin; by apply Hun, Hun').
      split_and!; try apply Hk; try done.
      * intros (k & Hid & Hin)%list_elem_of_fmap. by destruct (Hun2 k Hin) as (_ & ? & _).
      * intros (k & Hid & Hin)%list_elem_of_fmap. by destruct (Hun2 k Hin) as (_ & _ & ?).
      * apply Forall_forall. intros k Hin. by apply Hun2.
    + intros ((Hk & Ha) & (Hi & Hnd) & (Hr & Hnr) & Hu & Hus). eexists. rewrite validate_member_Ok. split; [done|].
      apply IH. split_and!; try done. apply Forall_forall. intros k Hin. apply Hun. rewrite Forall_forall in Hus.
      split; [by apply Hus|]. split; intros Heq; [apply Hi|apply Hr]; rewrite <-Heq; by apply list_elem_of_fmap_2.
Qed.

Lemma colliding_None ms m :
  colliding ms m = None <-> forall o, o ∈ ms -> member_id m <> member_id o -> role_key o <> id_key m.
Proof.
  unfold colliding. rewrite find_None. apply forall_proper. intros o. fold (role_key o) (id_key m).
  rewrite andb_false_iff, !bool_decide_eq_false. destruct (decide (member_id o = member_id m)); naive_solver.
Qed.

Lemma fleet_validate_Ok f : validate f = Ok tt <-> roster_ok (members f).
Proof.
  unfold validate, roster_ok. rewrite seq_Ok, reject_if_Ok, bool_decide_eq_false.
  apply and_iff_compat_l. rewrite bind_Ok.
  trans ((exists s, foldM validate_member (∅, ∅) (members f) = Ok s) /\
         forall m, m ∈ members f -> colliding (members f) m = None).
  - split.
    + intros (s & Hs & Hc). rewrite foldM_unit_Ok in Hc. split; [eauto|]. intros m Hm. specialize (Hc m Hm). by destruct (colliding _ m).
    + intros ((s & Hs) & Hc). exists s. split; [done|]. apply foldM_unit_Ok. intros m Hm. by rewrite (Hc m Hm).
  - rewrite validate_members_Ok.
    assert ((forall m, m ∈ members f -> colliding (members f) m = None) <->
            forall m o, m ∈ members f -> o ∈ members f -> member_id m <> member_id o -> role_key o <> id_key m) as ->.
    { split; [|intros H m Hm; apply colliding_None; eauto]. intros H m o Hm. by apply colliding_None, H. }
    assert (Forall (unseen (∅, ∅)) (members f)) by (apply Forall_forall; intros m _; unfold unseen; cbn; set_solver).
    naive_solver.
Qed.

(** ** Lookups *)

Lemma find_unique {A} (p : A -> bool) l x :
  x ∈ l -> p x = true -> (forall y, y ∈ l -> p y = true -> y = x) -> find p l = Some x.
Proof.
  intros Hx Hp Hu. destruct (find p l) as [y|] eqn:E.
  - apply find_Some in E as [Hy Hpy]. by rewrite (Hu y).
  - rewrite find_None in E. by rewrite E in Hp.
Qed.

Lemma NoDup_fmap_inj_in {A B} (f : A -> B) l x y : NoDup (f <$> l) -> x ∈ l -> y ∈ l -> f x = f y -> x = y.
Proof.
  induction l as [|z l IH]; [set_solver|]. rewrite fmap_cons. intros [Hz Hnd]%NoDup_cons.
  intros [->|Hx]%elem_of_cons [->|Hy]%elem_of_cons Heq; [done|..|by apply IH].
  - destruct Hz. rewrite Heq. by apply list_elem_of_fmap_2.
  - destruct Hz. rewrite <-Heq. by apply list_elem_of_fmap_2.
Qed.

(** A sound roster answers to an id and to a role with one member, in whatever
    order it is listed. *)
Lemma member_lookup f ms m s :
  roster_ok ms -> members f ≡ₚ ms -> m ∈ ms -> canonical_member_key s = id_key m -> member f s = Some m.
Proof.
  intros (_ & _ & Hid & _) Hp Hm Hs. apply find_unique; [by rewrite Hp|by apply bool_decide_eq_true; rewrite Hs|].
  intros o Ho Hk%bool_decide_eq_true. rewrite Hp in Ho. apply (NoDup_fmap_inj_in id_key ms); [done..|]. unfold id_key in *. congruence.
Qed.

Lemma role_lookup f ms m s :
  roster_ok ms -> members f ≡ₚ ms -> m ∈ ms -> canonical_role_key s = role_key m -> member_by_role f s = Some m.
Proof.
  intros (_ & _ & _ & Hr & _) Hp Hm Hs. apply find_unique; [by rewrite Hp|by apply bool_decide_eq_true; rewrite Hs|].
  intros o Ho Hk%bool_decide_eq_true. rewrite Hp in Ho. apply (NoDup_fmap_inj_in role_key ms); [done..|]. unfold role_key in *. congruence.
Qed.

Lemma role_spelled_as_key f ms m :
  roster_ok ms -> members f ≡ₚ ms -> m ∈ ms ->
  member_role m = member_id m \/ canonical_member_key (member_role m) = role_key m ->
  member_by_id_or_role f (member_role m) = Some m.
Proof.
  intros Hok Hp Hm Hrole. unfold member_by_id_or_role.
  destruct (member f (member_role m)) as [o|] eqn:E; [|by eapply role_lookup].
  apply find_Some in E as [Ho Hk%bool_decide_eq_true]. rewrite Hp in Ho. f_equal.
  destruct Hok as (_ & _ & Hid & _ & Hc). destruct Hrole as [Hrole|Hrole].
  - apply (NoDup_fmap_inj_in id_key ms); [done..|]. unfold id_key. by rewrite Hk, Hrole.
  - destruct (decide (member_id o = member_id m)) as [Heq|Hne].
    + apply (NoDup_fmap_inj_in id_key ms); [done..|]. unfold id_key. by rewrite Heq.
    + destruct (Hc o m Ho Hm Hne). unfold id_key. by rewrite Hk, Hrole.
Qed.

(** ** Reading a document *)

Definition is_worker (raw : ExactMemberToml) : bool := bool_decide (member_kind raw = WORKER_MEMBER_KIND).

(** What one worker entry becomes. *)
Definition reads (raw : ExactMemberToml) (m : ExactMember) : Prop :=
  normalize_token (raw_id raw) = Some (member_id m) /\
  member_provider m = trim (raw_provider raw) /\ member_model m = trim (raw_model raw) /\
  match raw_role raw with
  | Some r => exists t, normalize_token r = Some t /\ member_role m = canonical_role_key t
  | None => member_role m = member_id m
  end /\
  match raw_reasoning raw with
  | Some r => RequestedReasoning.parse r = Some (member_reasoning m)
  | None => member_reasoning m = RequestedReasoning.Off
  end /\
  match raw_permissions raw with
  | Some p => preset p = Some (member_permissions m)
  | None => Some (member_permissions m) = preset $"read_only"
  end.

(** The provider and the model are named, never selected later. *)
Definition exact_token (t : str) : Prop :=
  t <> [] /\ Forall (fun c => bad_token_char c = false) t /\ is_selector t = false.

Lemma require_exact_Ok value m field t :
  require_exact_route_token value m field = Ok t -> t = trim value /\ exact_token t.
Proof.
  unfold require_exact_route_token. rewrite !seq_Ok, !reject_if_Ok, orb_false_iff. intros ([Hn Hb] & Hs & [= <-]).
  split; [done|]. split; [by intros Heq; rewrite Heq in Hn|]. split; [|done].
  apply Forall_forall. intros c Hc. rewrite existsb_false in Hb. by apply Hb.
Qed.

Lemma worker_member_Ok raw id p q m :
  worker_member raw id p q = Ok m ->
  member_id m = id /\ member_provider m = p /\ member_model m = q /\
  (normalize_token (raw_id raw) = Some id -> p = trim (raw_provider raw) -> q = trim (raw_model raw) -> reads raw m).
Proof.
  unfold worker_member. rewrite bind_Ok. intros (role & Hrole & H). rewrite bind_Ok in H. destruct H as (rs & Hrs & H).
  rewrite bind_Ok in H. destruct H as (pm & Hpm & [= <-]). cbn. split_and!; [done..|]. intros Hid -> ->. unfold reads. cbn.
  split_and!; [done..| | |].
  - destruct (raw_role raw) as [r|]; [|by injection Hrole]. unfold require_member_role, require_token in Hrole.
    rewrite bind_Ok in Hrole. destruct Hrole as (t & Ht%ok_or_Ok & [= <-]). eauto.
  - destruct (raw_reasoning raw) as [r|]; [by apply ok_or_Ok in Hrs|by injection Hrs].
  - destruct (raw_permissions raw) as [r|]; [by apply ok_or_Ok in Hpm|by injection Hpm as <-].
Qed.

Definition reading_ok (seen : list ExactMemberToml) (s : Reading) : Prop :=
  Forall2 reads (retain is_worker seen) (read_members s) /\
  Forall (fun m => exact_token (member_provider m) /\ exact_token (member_model m)) (read_members s) /\
  length seen = (length (read_members s) + match read_router s with Some _ => 1 | None => 0 end)%nat.

Lemma retain_one {A} (p : A -> bool) x : retain p [x] = if p x then [x] else [].
Proof. unfold retain. rewrite filter_cons. destruct (p x); [by rewrite decide_True|by rewrite decide_False]. Qed.

Lemma read_member_ok seen s raw s' : reading_ok seen s -> read_member s raw = Ok s' -> reading_ok (seen ++ [raw]) s'.
Proof.
  intros (Hr & He & Hl). unfold read_member. rewrite bind_Ok. intros (id & Hid%ok_or_Ok & H).
  rewrite seq_Ok in H. destruct H as [_ H]. rewrite bind_Ok in H. destruct H as (p & [Hp Hpe]%require_exact_Ok & H).
  rewrite bind_Ok in H. destruct H as (q & [Hq Hqe]%require_exact_Ok & H). unfold reading_ok. rewrite retain_app, length_app. cbn [length].
  rewrite retain_one. unfold is_worker. case_bool_decide as Ek.
  - rewrite seq_Ok, reject_if_Ok in H. destruct H as [Hnr%bool_decide_eq_false H].
    rewrite bind_Ok in H. destruct H as (r & _ & [= <-]). cbn.
    rewrite bool_decide_false by (rewrite Ek; done). rewrite app_nil_r. split_and!; [done..|].
    destruct (read_router s); [by destruct Hnr|]. lia.
  - case_bool_decide as Ew; [|done]. rewrite bind_Ok in H. destruct H as (m & Hm & [= <-]). cbn.
    apply worker_member_Ok in Hm as (_ & Hmp & Hmq & Hreads). rewrite length_app. cbn [length]. split_and!; [|..|lia].
    + apply Forall2_app; [done|]. constructor; [by apply Hreads|constructor].
    + apply Forall_app. split; [done|]. apply Forall_singleton. by rewrite Hmp, Hmq.
Qed.

Lemma read_members_ok docs seen s s' :
  reading_ok seen s -> foldM read_member s docs = Ok s' -> reading_ok (seen ++ docs) s'.
Proof.
  revert seen s. induction docs as [|raw docs IH]; intros seen s Hs; cbn [foldM].
  - intros [= <-]. by rewrite app_nil_r.
  - rewrite bind_Ok. intros (s1 & H1 & H2). rewrite cons_middle, app_assoc. eapply IH; [|done]. by eapply read_member_ok.
Qed.

Lemma from_toml_Ok doc f :
  from_toml doc = Ok f ->
  exists s, foldM read_member {| read_members := []; read_router := None; seen_ids := ∅ |} (doc_members doc) = Ok s /\
    members f = read_members s /\ router f = read_router s /\ validate f = Ok tt /\
    (is_Some (reasoning_router f) -> router f = None).
Proof.
  unfold from_toml. rewrite !seq_Ok. intros (_ & _ & H). rewrite bind_Ok in H. destruct H as (name & _ & H).
  rewrite bind_Ok in H. destruct H as (s & Hs & H). rewrite seq_Ok in H. destruct H as (_ & H).
  rewrite bind_Ok in H. destruct H as (r & Hr & H). rewrite seq_Ok in H. destruct H as (Hv & [= <-]). exists s. cbn.
  split_and!; [done..|]. intros [x ->]. unfold named_router in Hr. destruct (trim <$> doc_reasoning_router doc) as [v|]; [|done].
  destruct (str_is_empty v); [done|]. rewrite seq_Ok, reject_if_Ok, bool_decide_eq_false in Hr. destruct Hr as [Hr _].
  destruct (read_router s); [by destruct Hr|done].
Qed.

(** A role of a document that is spelled out is recorded under its key. *)
Lemma canonical_token_role r t :
  normalize_token r = Some t -> canonical_member_key (canonical_role_key t) = canonical_role_key (canonical_role_key t).
Proof.
  intros (Hne & Hb & Hl)%normalize_token_ok.
  assert (Hk : to_ascii_lowercase (trim t) = t) by (by rewrite trim_clean, Hl).
  destruct (decide (t = $"oracle")) as [->|H1]; [by vm_compute|]. destruct (decide (t = $"advisor")) as [->|H2]; [by vm_compute|].
  assert (Hr : canonical_role_key t = t).
  { unfold canonical_role_key. rewrite Hk. cbn [find ROLE_ALIASES fst]. rewrite !bool_decide_false by congruence. done. }
  rewrite !Hr. exact Hk.
Qed.

Lemma reads_role raw m :
  reads raw m -> member_role m = member_id m \/ canonical_member_key (member_role m) = role_key m.
Proof.
  intros (_ & _ & _ & Hr & _). destruct (raw_role raw) as [r|]; [right|by left].
  destruct Hr as (t & Ht & He). unfold role_key. rewrite He. by eapply canonical_token_role.
Qed.

(** C36: a fleet read from a document is exact.  Its members are the worker
    entries in their order, with the id, provider, model, role, reasoning and
    permissions the entry names; at most one router is declared, one way.
    Every provider and model is a non-empty token and never a selector that is
    resolved later.  Ids and roles are unique and none is the router's, so a
    member is found under any spelling of its id and of its role, also after a
    renaming of the role and in whatever order the roster is listed. *)
Theorem parsed_fleet_is_exact doc f :
  from_toml doc = Ok f ->
  Forall2 reads (retain is_worker (doc_members doc)) (members f) /\
  length (doc_members doc) = (length (members f) + match router f with Some _ => 1 | None => 0 end)%nat /\
  (is_Some (reasoning_router f) -> router f = None) /\
  Forall (fun m => exact_token (member_provider m) /\ exact_token (member_model m)) (members f) /\
  roster_ok (members f) /\
  forall f' m, members f' ≡ₚ members f -> m ∈ members f ->
    (forall s, canonical_member_key s = id_key m -> member f' s = Some m /\ member_by_id_or_role f' s = Some m) /\
    (forall s, canonical_role_key s = role_key m -> member_by_role f' s = Some m) /\
    member_by_id_or_role f' (member_role m) = Some m.
Proof.
  intros (s & Hs & Hm & Hr & Hv & Hx)%from_toml_Ok.
  apply (read_members_ok _ []) in Hs as (Hreads & Hex & Hl); [|by split_and!; constructor]. apply fleet_validate_Ok in Hv.
  rewrite Hr, Hm in *. cbn [app] in Hreads, Hl. split_and!; [done..|]. intros f' m Hp Hin. split; [|split].
  - intros k Hk. unfold member_by_id_or_role. by rewrite (member_lookup f' (read_members s) m k).
  - intros k Hk. by eapply role_lookup.
  - eapply role_spelled_as_key; [done..|].
    apply list_elem_of_lookup in Hin as [i Hi]. destruct (Forall2_lookup_r _ _ _ _ _ Hreads Hi) as (raw & _ & Hraw).
    by eapply reads_role.
Qed.

Definition sample_entry (id : str) (kind role : option str) : ExactMemberToml :=
  {| raw_id := id; raw_kind := kind; raw_role := role; raw_provider := $" zai "; raw_model := $"glm-5";
     raw_reasoning := None; raw_permissions := None |}.

Definition sample_doc (entries : list ExactMemberToml) : ExactFleetToml :=
  {| doc_name := $"counsel"; doc_description := None; doc_schema := $"exact"; doc_schema_revision := 1;
     doc_reasoning_router := None; doc_members := entries |}.

Definition sample_fleet (entries : list ExactMemberToml) : ExactFleet :=
  match from_toml (sample_doc entries) with
  | Ok f => f
  | Err _ => {| fleet_name := []; fleet_description := None; schema_revision := 0; members := []; reasoning_router := None; router := None |}
  end.

Definition counsel : list ExactMemberToml :=
  [sample_entry $"Builder" None (Some $"implementer"); sample_entry $"gauge" (Some $"router") None;
   sample_entry $"second" None (Some $"oracle")].

Lemma parsed_fleet_is_exact_witness :
  exists m, member_by_id_or_role (sample_fleet counsel) $"consultant" = Some m /\ member_id m = $"second" /\
            roster_ok (members (sample_fleet counsel)).
Proof.
  assert (H : from_toml (sample_doc counsel) = Ok (sample_fleet counsel)) by (vm_compute; reflexivity).
  destruct (parsed_fleet_is_exact _ _ H) as (_ & _ & _ & _ & Hok & _).
  eexists. split; [vm_compute; reflexivity|]. split; [vm_compute; reflexivity|exact Hok].
Defined.

(** A member whose role defaults to its id keeps the old spelling of a renamed
    role in the roster. *)
Example defaulted_role_is_not_renamed :
  map member_role (members (sample_fleet [sample_entry $"oracle" None None])) = [$"oracle"].
Proof. vm_compute. reflexivity. Qed.

(** An id that is an old spelling of another member's role passes the collision
    check, and answers for that role: the role [oracle] is the second member's,
    the lookup by id or role returns the first. *)
Example alias_id_shadows_a_role :
  let f := sample_fleet [sample_entry $"oracle" None (Some $"auditor"); sample_entry $"b" None (Some $"consultant")] in
  (member_id <$> member_by_role f $"oracle", member_id <$> member_by_id_or_role f $"oracle") = (Some $"b", Some $"oracle").
Proof. vm_compute. reflexivity. Qed.
