(* ===== verification/FleetStore.v ===== *)
(** * Saved fleets and router profiles

    [crates/workflow/src/named_fleet.rs] and [reasoning_router.rs]: the two
    forms of a fleet document, the minimal parser of the legacy form, role
    resolution, the lookup by name in labelled roots, router profiles and the
    captured router service.  The file system, the TOML and JSON parsers are
    parameters; SHA-256 is the digest of [WorkModel]. *)

From S2P Require Import Text WorkModel WorkflowRoles FleetExact.

(** ** Router profiles ([reasoning_router.rs]) *)

Definition REASONING_ROUTER_DIR : str := $"routers".
Definition REASONING_ROUTER_SCHEMA_KIND : str := $"reasoning_router".
Definition REASONING_ROUTER_SCHEMA_REVISION : Z := 1.
Definition REASONING_ROUTER_SERVICE_KIND : str := $"reasoning_router".
Definition LEGACY_INLINE_ROUTER_ORIGIN : str := $"legacy_inline".

(** [QualifiedRouterId] and [QualifiedFleetId] have the same fields. *)
Record QualifiedId := { q_name : str; q_origin : str }.

Definition qualified (q : QualifiedId) : str := q_origin q ++ $"/" ++ q_name q.

Record ReasoningRouterProfile := {
  p_name : str; p_description : option str; p_schema_revision : Z;
  p_provider : str; p_model : str; p_call_reasoning : RouterCallReasoning.t }.

Record RouterProfileToml := {
  rp_name : str; rp_description : option str; rp_schema : str; rp_schema_revision : Z;
  rp_provider : str; rp_model : str; rp_call_reasoning : option str }.

Definition router_exact_token (value router field : str) : result ReasoningRouterError str :=
  let trimmed := trim value in
  reject_if (str_is_empty trimmed || existsb bad_token_char trimmed) (RouterInvalidToken (router ++ $"." ++ field) trimmed);;
  Ok trimmed.

Definition profile_from_toml (doc : RouterProfileToml) : result ReasoningRouterError ReasoningRouterProfile :=
  reject_if (negb (eq_ignore_ascii_case (trim (rp_schema doc)) REASONING_ROUTER_SCHEMA_KIND))
    (RouterUnknownSchema (trim (rp_schema doc)));;
  reject_if (negb (rp_schema_revision doc =? REASONING_ROUTER_SCHEMA_REVISION))
    (RouterUnsupportedRevision (rp_schema_revision doc) REASONING_ROUTER_SCHEMA_REVISION);;
  name ← ok_or (normalize_token (rp_name doc)) (RouterInvalidToken $"name" (trim (rp_name doc)));
  provider ← router_exact_token (rp_provider doc) name $"provider";
  model ← router_exact_token (rp_model doc) name $"model";
  call ← match rp_call_reasoning doc with
         | None => Ok RouterCallReasoning.Off
         | Some value => RouterCallReasoning.parse value name
         end;
  Ok {| p_name := name; p_description := rp_description doc; p_schema_revision := rp_schema_revision doc;
        p_provider := provider; p_model := model; p_call_reasoning := call |}.

Record CapturedReasoningRouter := {
  service_kind : str; cr_id : str; cr_origin : str; legacy_inline : bool; cr_route : FrozenRoute;
  requested_call_reasoning : RouterCallReasoning.t; dispatchable : bool; cr_permissions : PermissionCeiling }.

Definition from_profile (p : ReasoningRouterProfile) (origin : str) : CapturedReasoningRouter :=
  {| service_kind := REASONING_ROUTER_SERVICE_KIND; cr_id := p_name p; cr_origin := origin; legacy_inline := false;
     cr_route := {| provider := p_provider p; model := p_model p |}; requested_call_reasoning := p_call_reasoning p;
     dispatchable := false; cr_permissions := ROUTER |}.

Definition from_legacy_inline (m : RouterMember) : CapturedReasoningRouter :=
  {| service_kind := REASONING_ROUTER_SERVICE_KIND; cr_id := router_id m; cr_origin := LEGACY_INLINE_ROUTER_ORIGIN;
     legacy_inline := true; cr_route := router_route m; requested_call_reasoning := call_reasoning m;
     dispatchable := false; cr_permissions := ROUTER |}.

(** ** Legacy fleets ([named_fleet.rs]) *)

Record NamedFleet := { nf_name : str; nf_description : option str; nf_roles : gmap str str }.

Inductive NamedFleetError :=
| FleetNotFound (name : str)
| FleetIo (path message : str)
| FleetParse (path message : str)
| MissingRole (fleet role : str)
| NameMismatch (declared expected : str)
| AmbiguousFleet (name : str) (origins : list str)
| ExactError (fleet : str) (source : ExactFleetError).

Definition dquote : char := 34%N.
Definition squote : char := 39%N.
Definition bslash : char := 92%N.
Definition hash : char := 35%N.

(** The text before the first [#] outside a string. *)
Fixpoint strip_comment_go (quote : option char) (escaped : bool) (line : str) : str :=
  match line with
  | [] => []
  | c :: line =>
      match quote with
      | Some q =>
          if N.eqb q dquote then
            if escaped then c :: strip_comment_go quote false line
            else if N.eqb c bslash then c :: strip_comment_go quote true line
            else if N.eqb c dquote then c :: strip_comment_go None false line
            else c :: strip_comment_go quote false line
          else c :: strip_comment_go (if N.eqb c squote then None else quote) escaped line
      | None =>
          if N.eqb c dquote || N.eqb c squote then c :: strip_comment_go (Some c) escaped line
          else if N.eqb c hash then []
          else c :: strip_comment_go None escaped line
      end
  end.

Definition strip_toml_comment (line : str) : str := strip_comment_go None false line.

Record Minimal := { mn_name : option str; mn_description : option str; mn_roles : gmap str str; mn_section : str }.

Definition trim_matches (c : char) (s : str) : str := trim_end_by (N.eqb c) (trim_start_by (N.eqb c) s).

(** One line of the document. *)
Definition minimal_line (s : Minimal) (raw : str) : Minimal :=
  let line := trim (strip_toml_comment raw) in
  if str_is_empty line then s
  else if starts_with $"[" line && ends_with $"]" line then
    {| mn_name := mn_name s; mn_description := mn_description s; mn_roles := mn_roles s;
       mn_section := take (length line - 2) (drop 1 line) |}
  else
    match split_once $"=" line with
    | None => s
    | Some (key, value) =>
        let key := trim key in
        let value := trim_matches dquote (trim value) in
        if str_is_empty (mn_section s) then
          if bool_decide (key = $"name")
          then {| mn_name := Some value; mn_description := mn_description s; mn_roles := mn_roles s; mn_section := mn_section s |}
          else if bool_decide (key = $"description")
          then {| mn_name := mn_name s; mn_description := Some value; mn_roles := mn_roles s; mn_section := mn_section s |}
          else s
        else if bool_decide (mn_section s = $"roles")
        then {| mn_name := mn_name s; mn_description := mn_description s; mn_roles := <[key := value]> (mn_roles s);
                mn_section := mn_section s |}
        else s
    end.

Definition parse_fleet_toml_minimal (text : str) : result NamedFleetError NamedFleet :=
  let s := foldl minimal_line {| mn_name := None; mn_description := None; mn_roles := ∅; mn_section := [] |} (lines text) in
  name ← ok_or (mn_name s) (FleetParse $"<memory>" $"missing name");
  Ok {| nf_name := name; nf_description := mn_description s; nf_roles := mn_roles s |}.

(** The map's entries in the order of its keys. *)
Definition roles_in_order (f : NamedFleet) : list (str * str) :=
  stable_sort (fun p q => str_le p.1 q.1) (map_to_list (nf_roles f)).

Definition resolve (f : NamedFleet) (role : str) : result NamedFleetError str :=
  let key := to_ascii_lowercase (trim role) in
  ok_or (match nf_roles f !! key with
         | Some v => Some v
         | None => snd <$> find (fun p => eq_ignore_ascii_case p.1 role) (roles_in_order f)
         end)
    (MissingRole (nf_name f) role).

Definition STOPSHIP_REQUIRED_ROLES : list str := [$"scout"; $"implementer"; $"reviewer"; $"verifier"; $"release_lead"].

Definition validate_stopship_roles (f : NamedFleet) : result NamedFleetError unit :=
  foldM (fun _ role => resolve f role;; Ok tt) tt STOPSHIP_REQUIRED_ROLES.

(** ** Documents *)

Inductive FleetSchema := Legacy (f : NamedFleet) | Exact (f : ExactFleet).

Record FleetDocument := { doc_form : FleetSchema; doc_source : option str; source_hash : str }.

Definition document_name (d : FleetDocument) : str :=
  match doc_form d with Legacy f => nf_name f | Exact f => fleet_name f end.
Definition document_description (d : FleetDocument) : option str :=
  match doc_form d with Legacy f => nf_description f | Exact f => fleet_description f end.
Definition is_legacy (d : FleetDocument) : bool := match doc_form d with Legacy _ => true | Exact _ => false end.
Definition document_exact (d : FleetDocument) : option ExactFleet :=
  match doc_form d with Exact f => Some f | Legacy _ => None end.
Definition schema_kind (d : FleetDocument) : str :=
  match doc_form d with Legacy _ => LEGACY_FLEET_SCHEMA_KIND | Exact _ => EXACT_FLEET_SCHEMA_KIND end.
Definition document_revision (d : FleetDocument) : Z :=
  match doc_form d with Legacy _ => 0 | Exact f => schema_revision f end.

Definition sha256_label `{Externs} (bytes : list N) : str := $"sha256:" ++ sha256_hex bytes.
Definition content_hash `{Externs} (text : str) : str := sha256_label (as_bytes text).

Record FleetSearchRoot := { origin : str; root : str }.

(** [origin/name]; anything else is a bare name. *)
Definition split_qualified (name : str) : option str * str :=
  let trimmed := trim name in
  match split_once $"/" trimmed with
  | Some (origin, bare) =>
      if negb (str_is_empty (trim origin)) && negb (str_is_empty (trim bare)) then (Some (trim origin), trim bare)
      else (None, trimmed)
  | None => (None, trimmed)
  end.

(** [Path::join] on Unix: an absolute argument replaces the path. *)
Definition path_join (p q : str) : str :=
  if starts_with $"/" q then q else if ends_with $"/" p then p ++ q else p ++ $"/" ++ q.

(** The third-party parsers, and what the file system answers. *)
Record Documents := {
  toml_fleet : str -> result str ExactFleetToml;
  toml_schema : str -> option (option str);
  toml_router : str -> result str RouterProfileToml;
  json_fleet : str -> result str NamedFleet;
  is_file : str -> bool;
  read_to_string : str -> result str str }.

Section store.
Context `{Externs} (D : Documents).

Definition parse_named_fleet (text : str) : result NamedFleetError NamedFleet :=
  let trimmed := trim text in
  if starts_with $"{" trimmed then map_err (FleetParse $"<memory>") (json_fleet D trimmed)
  else parse_fleet_toml_minimal trimmed.

Definition schema_of (text : str) : option str := declared_schema_kind (toml_schema D) text.

Definition parse_document (text : str) : result NamedFleetError FleetDocument :=
  form ← match schema_of text with
         | Some k =>
             if bool_decide (k = EXACT_FLEET_SCHEMA_KIND)
             then Exact <$> map_err (ExactError $"<memory>") (FleetExact.parse (toml_fleet D) text)
             else Err (FleetParse $"<memory>" ($"unknown fleet schema `" ++ k ++ $"`; expected `exact`"))
         | None => Legacy <$> parse_named_fleet text
         end;
  Ok {| doc_form := form; doc_source := None; source_hash := content_hash text |}.

Definition read_file (path : str) : result NamedFleetError str := map_err (FleetIo path) (read_to_string D path).

(** The path replaces [<memory>] in an error. *)
Definition relabel (path : str) (e : NamedFleetError) : NamedFleetError :=
  match e with
  | FleetParse _ message => FleetParse path message
  | ExactError _ source => ExactError path source
  | other => other
  end.

Definition check_name (declared : str) (expect_name : option str) : result NamedFleetError unit :=
  match expect_name with
  | Some expected => reject_if (bool_decide (declared <> expected)) (NameMismatch declared expected)
  | None => Ok tt
  end.

Definition load (path : str) (expect_name : option str) : result NamedFleetError FleetDocument :=
  text ← read_file path;
  d ← map_err (relabel path) (parse_document text);
  check_name (document_name d) expect_name;;
  Ok {| doc_form := doc_form d; doc_source := Some path; source_hash := source_hash d |}.

Definition origin_matches (requested : option str) (r : FleetSearchRoot) : bool :=
  match requested with Some o => eq_ignore_ascii_case (origin r) o | None => true end.

(** The roots of the requested origin that hold the file. *)
Definition candidates (dir : str) (requested : option str) (bare : str) (roots : list FleetSearchRoot)
    : list (FleetSearchRoot * str) :=
  retain (fun c => is_file D c.2)
    ((fun r => (r, path_join (path_join (root r) dir) (bare ++ $".toml"))) <$> retain (origin_matches requested) roots).

(** Whether one of the files declares a schema; the first unreadable file before
    it is an error. *)
Fixpoint any_declared (cs : list (FleetSearchRoot * str)) : result NamedFleetError bool :=
  match cs with
  | [] => Ok false
  | c :: cs =>
      text ← read_file c.2;
      if bool_decide (is_Some (schema_of text)) then Ok true else any_declared cs
  end.

Definition load_by_name (name : str) (roots : list FleetSearchRoot) : result NamedFleetError (FleetDocument * QualifiedId) :=
  let '(requested, bare) := split_qualified name in
  match candidates $"fleets" requested bare roots with
  | [] => Err (FleetNotFound name)
  | ((first_root, first_path) :: rest) as cs =>
      any_exact ← match rest with [] => Ok false | _ => any_declared cs end;
      reject_if any_exact
        (AmbiguousFleet bare ((fun c => origin c.1 ++ $"/" ++ bare ++ $" (" ++ c.2 ++ $")") <$> cs));;
      d ← load first_path (Some bare);
      Ok (d, {| q_name := bare; q_origin := origin first_root |})
  end.

Definition load_named_fleet_file (path : str) (expect_name : option str) : result NamedFleetError NamedFleet :=
  text ← read_file path;
  f ← map_err (fun e => match e with FleetParse _ m => FleetParse path m | other => other end) (parse_named_fleet text);
  check_name (nf_name f) expect_name;;
  Ok f.

(** First hit wins. *)
Definition load_named_fleet (name : str) (roots : list str) : result NamedFleetError NamedFleet :=
  match find (is_file D) ((fun r => path_join (path_join r $"fleets") (name ++ $".toml")) <$> roots) with
  | Some path => load_named_fleet_file path (Some name)
  | None => Err (FleetNotFound name)
  end.

Definition parse_profile (text : str) : result ReasoningRouterError ReasoningRouterProfile :=
  doc ← map_err RouterParse (toml_router D text); profile_from_toml doc.

Definition load_router (name : str) (roots : list FleetSearchRoot)
    : result ReasoningRouterError (ReasoningRouterProfile * QualifiedId) :=
  let '(requested, bare) := split_qualified name in
  reject_if (str_is_empty bare) (RouterInvalidToken $"router reference" (trim name));;
  match candidates REASONING_ROUTER_DIR requested bare roots with
  | [] => Err (RouterNotFound (trim name))
  | ((first_root, first_path) :: rest) as cs =>
      reject_if (match rest with [] => false | _ => true end)
        (AmbiguousRouter bare ((fun c => origin c.1 ++ $"/" ++ bare) <$> cs));;
      text ← map_err (RouterIo first_path) (read_to_string D first_path);
      profile ← parse_profile text;
      reject_if (bool_decide (p_name profile <> bare)) (RouterNameMismatch (p_name profile) bare);;
      Ok (profile, {| q_name := p_name profile; q_origin := origin first_root |})
  end.
End store.

(** * Properties of the fleet store *)

Section store.
Context `{Externs} (D : Documents).

(** ** Ambiguity *)

Definition undeclared (path : str) : Prop := exists text, read_to_string D path = Ok text /\ schema_of D text = None.

Lemma read_file_Ok path text : read_file D path = Ok text <-> read_to_string D path = Ok text.
Proof. apply map_err_Ok. Qed.

Lemma any_declared_false cs : any_declared D cs = Ok false -> Forall (fun c => undeclared c.2) cs.
Proof.
  induction cs as [|c cs IH]; cbn; [constructor|]. rewrite bind_Ok. intros (text & Ht%read_file_Ok & Hd).
  case_bool_decide as E; [done|]. constructor; [|by apply IH]. exists text. split; [done|]. by apply eq_None_not_Some.
Qed.

Lemma load_Ok path expect d :
  load D path expect = Ok d ->
  doc_source d = Some path /\ (forall n, expect = Some n -> document_name d = n) /\
  (undeclared path -> is_legacy d = true) /\
  exists text, read_to_string D path = Ok text /\ source_hash d = content_hash text.
Proof.
  unfold load. rewrite bind_Ok. intros (text & Ht%read_file_Ok & H1). rewrite bind_Ok in H1. destruct H1 as (d' & Hd%map_err_Ok & H1).
  rewrite seq_Ok in H1. destruct H1 as [Hn [= <-]]. cbn.
  unfold parse_document in Hd. rewrite bind_Ok in Hd. destruct Hd as (form & Hf & [= <-]). cbn in *. split_and!; [done|..].
  - intros n ->. cbn in Hn. apply reject_if_Ok, bool_decide_eq_false in Hn. by destruct (decide (document_name {| doc_form := form; doc_source := None; source_hash := content_hash text |} = n)).
  - intros (text' & Ht' & Hs). rewrite Ht in Ht'. injection Ht' as <-. rewrite Hs in Hf.
    destruct (parse_named_fleet D text); [by injection Hf as <-|done].
  - eauto.
Qed.

(** a definition that names exact providers and models is never found by
    shadowing.  A fleet loaded by name comes from the first of the roots, of
    the requested origin if one is named, that hold its file; the document
    declares that name and carries the hash of the text that was read.  If any
    other root holds the file too, the loaded fleet is of the legacy form and
    none of the files declares a schema.  A router profile is loaded only from
    the one root that holds it. *)
Theorem exact_definitions_are_not_shadowed name roots :
  let requested := (split_qualified name).1 in
  let bare := (split_qualified name).2 in
  (forall d q, load_by_name D name roots = Ok (d, q) ->
     exists r path rest, candidates D $"fleets" requested bare roots = (r, path) :: rest /\
       document_name d = bare /\ q = {| q_name := bare; q_origin := origin r |} /\ doc_source d = Some path /\
       (exists text, read_to_string D path = Ok text /\ source_hash d = content_hash text) /\
       (rest <> [] -> is_legacy d = true /\ Forall (fun c => undeclared c.2) ((r, path) :: rest))) /\
  (forall p q, load_router D name roots = Ok (p, q) ->
     exists r path, candidates D REASONING_ROUTER_DIR requested bare roots = [(r, path)] /\
       p_name p = bare /\ q = {| q_name := bare; q_origin := origin r |}).
Proof.
  cbn zeta. split; intros d q; unfold load_by_name, load_router; destruct (split_qualified name) as [requested bare]; cbn.
  - destruct (candidates D _ requested bare roots) as [|[r path] rest] eqn:E; [done|]. rewrite bind_Ok.
    intros (b & Hb & Hl). rewrite seq_Ok, reject_if_Ok in Hl. destruct Hl as [-> Hl]. rewrite bind_Ok in Hl.
    destruct Hl as (d' & (Hs & Hn & Hleg & Ht)%load_Ok & [= <- <-]). exists r, path, rest.
    assert (Hall : rest <> [] -> Forall (fun c => undeclared c.2) ((r, path) :: rest)).
    { intros Hr. apply any_declared_false. destruct rest; [by destruct Hr|exact Hb]. }
    split_and!; [done|by apply Hn|done|done|done|]. intros Hr. specialize (Hall Hr). split; [|done].
    apply Hleg. by apply Forall_cons in Hall as [? _].
  - rewrite seq_Ok. intros [_ H1].
    destruct (candidates D _ requested bare roots) as [|[r path] rest] eqn:E; [done|]. rewrite seq_Ok, reject_if_Ok in H1.
    destruct H1 as [Hr H1]. destruct rest; [|done]. rewrite bind_Ok in H1. destruct H1 as (text & _ & H1).
    rewrite bind_Ok in H1. destruct H1 as (p & _ & H1). rewrite seq_Ok, reject_if_Ok, bool_decide_eq_false in H1.
    destruct H1 as [Hn [= <- <-]]. exists r, path. destruct (decide (p_name p = bare)) as [<-|]; [by split_and!|by destruct Hn].
Qed.
End store.

(** ** Examples *)

(** A file system with a legacy fleet in two roots and one router profile. *)
Definition legacy_text : str := $"name = 'x'" ++ [10%N] ++ $"[roles]" ++ [10%N] ++ $"scout = s # one".

Definition sample_documents : Documents :=
  {| toml_fleet := fun _ => Err $"not exact"; toml_schema := fun _ => Some None;
     toml_router := fun _ => Ok {| rp_name := $"luna"; rp_description := None; rp_schema := $"reasoning_router"; rp_schema_revision := 1;
                                   rp_provider := $"zai"; rp_model := $"glm-5"; rp_call_reasoning := Some $"low" |};
     json_fleet := fun _ => Err $"no json";
     is_file := fun p => bool_decide (p ∈ [$"/w/fleets/'x'.toml"; $"/h/fleets/'x'.toml"; $"/h/routers/luna.toml"]);
     read_to_string := fun p => Ok legacy_text |}.

Definition plain_digest : Externs :=
  {| Sha256_digest := fun bytes => bytes; Url_parse := fun _ => None;
     parse_from_rfc3339_ok := fun _ => false; prints_as_itself := fun _ => true |}.

Definition two_roots : list FleetSearchRoot :=
  [{| origin := $"workspace"; root := $"/w" |}; {| origin := $"nestlone_home"; root := $"/h/" |}].

Lemma exact_definitions_are_not_shadowed_witness :
  exists d q p, @load_by_name plain_digest sample_documents $"'x'" two_roots = Ok (d, q) /\ is_legacy d = true /\
    load_router sample_documents $"luna" two_roots = Ok (p, {| q_name := $"luna"; q_origin := $"nestlone_home" |}).
Proof.
  destruct (@exact_definitions_are_not_shadowed plain_digest sample_documents $"'x'" two_roots) as [Hf _].
  do 3 eexists. split; [vm_compute; reflexivity|].
  destruct (Hf _ _ ltac:(vm_compute; reflexivity)) as (r & path & rest & Hc & _ & _ & _ & _ & Hl).
  split; [|vm_compute; reflexivity].
  apply Hl. intros ->. vm_compute in Hc. discriminate Hc.
Defined.

(** The file system is asked for whatever the name spells: a bare name that
    starts with a slash replaces the root, and [..] leaves it. *)
Example names_are_not_confined :
  path_join (path_join $"/w" $"fleets") ((split_qualified $"/etc/team").2 ++ $".toml") = $"/etc/team.toml" /\
  path_join (path_join $"/w" $"fleets") ((split_qualified $"workspace/../../team").2 ++ $".toml") = $"/w/fleets/../../team.toml".
Proof. vm_compute. done. Qed.
