(* ===== verification/FleetReasoning.v ===== *)
(** * Reasoning of a frozen route

    [crates/workflow/src/fleet_reasoning.rs] and [fleet_preflight.rs]: what a
    provider can express, the bounded routing summary, the router's answer, the
    resolution of a member's requested reasoning, the preflighted routes and
    the receipt of a task.  The streaming JSON deserializer is a parameter. *)

From S2P Require Import Text Json WorkModel FleetExact FleetStore Redaction.

Module Tier := ReasoningTier.

(** ** Capabilities *)

Inductive ProviderReasoningControl := ControlNone | EnabledDisabled | Tiers | ControlAdaptive.

Definition control_as_str (c : ProviderReasoningControl) : str :=
  match c with
  | ControlNone => $"none" | EnabledDisabled => $"enabled_disabled" | Tiers => $"tiers" | ControlAdaptive => $"native_adaptive"
  end.

(** [wire_tiers] is the array of five tiers as the function it is indexed as. *)
Record WireTiers := { w_off : Tier.t; w_low : Tier.t; w_medium : Tier.t; w_high : Tier.t; w_max : Tier.t }.

#[export] Instance WireTiers_eq_dec : EqDecision WireTiers.
Proof. solve_decision. Defined.

Definition wire_at (w : WireTiers) (t : Tier.t) : Tier.t :=
  match t with
  | Tier.Off => w_off w | Tier.Low => w_low w | Tier.Medium => w_medium w | Tier.High => w_high w | Tier.Max => w_max w
  end.

Definition FAITHFUL_WIRE_TIERS : WireTiers :=
  {| w_off := Tier.Off; w_low := Tier.Low; w_medium := Tier.Medium; w_high := Tier.High; w_max := Tier.Max |}.

Record ReasoningCapability := {
  control : ProviderReasoningControl; min_tier : option Tier.t; max_tier : option Tier.t; wire_tiers : option WireTiers }.

Definition capability_of (c : ProviderReasoningControl) : ReasoningCapability :=
  {| control := c; min_tier := None; max_tier := None; wire_tiers := None |}.
Definition none := capability_of ControlNone.
Definition tiered := capability_of Tiers.
Definition enabled_disabled := capability_of EnabledDisabled.
Definition native_adaptive := capability_of ControlAdaptive.

Definition with_wire_tiers (c : ReasoningCapability) (w : WireTiers) : ReasoningCapability :=
  {| control := control c; min_tier := min_tier c; max_tier := max_tier c;
     wire_tiers := if bool_decide (w <> FAITHFUL_WIRE_TIERS) then Some w else None |}.

Definition wire_tier (c : ReasoningCapability) (t : Tier.t) : Tier.t :=
  match wire_tiers c with Some w => wire_at w t | None => t end.

Definition supports_thinking (c : ReasoningCapability) : bool := match control c with ControlNone => false | _ => true end.
Definition supports_native_adaptive (c : ReasoningCapability) : bool :=
  match control c with ControlAdaptive => true | _ => false end.

(** The tier that runs, and whether it differs from the one asked for. *)
Definition normalize (c : ReasoningCapability) (t : Tier.t) : Tier.t * bool :=
  if negb (supports_thinking c) then (Tier.Off, bool_decide (t <> Tier.Off)) else
  let e := wire_tier c t in
  let e := match min_tier c with Some m => if Tier.rank e <? Tier.rank m then m else e | None => e end in
  let e := match max_tier c with Some m => if Tier.rank m <? Tier.rank e then m else e | None => e end in
  (e, bool_decide (e <> t)).

Inductive ProviderEffectiveReasoning := Disabled | Enabled | EffTier (t : Tier.t) | EffAdaptive.

Definition provider_effective_of (c : ReasoningCapability) (t : Tier.t) : ProviderEffectiveReasoning :=
  match control c with
  | ControlNone => Disabled
  | EnabledDisabled => match t with Tier.Off => Disabled | _ => Enabled end
  | Tiers => EffTier t
  | ControlAdaptive => EffAdaptive
  end.

Definition provider_effective_label (p : ProviderEffectiveReasoning) : str :=
  match p with Disabled => $"disabled" | Enabled => $"enabled" | EffTier t => Tier.as_str t | EffAdaptive => $"native_adaptive" end.

(** ** The router's call *)

Record RouterCallDisclosure := {
  call_requested : str; call_effective : str; call_provider_control : str; call_provider_effective : str;
  call_normalized : bool }.

Definition call_receipt (d : RouterCallDisclosure) : str :=
  $"router_call_requested=" ++ call_requested d ++ $" router_call_effective=" ++ call_effective d
  ++ $" router_call_provider_control=" ++ call_provider_control d
  ++ $" router_call_provider_effective=" ++ call_provider_effective d.

Record RouterCallPlan := { plan_tier : Tier.t; plan_disclosure : RouterCallDisclosure }.

Definition router_call_plan (requested : RouterCallReasoning.t) (c : ReasoningCapability) : RouterCallPlan :=
  let '(t, normalized) := normalize c (RouterCallReasoning.tier requested) in
  {| plan_tier := t;
     plan_disclosure :=
       {| call_requested := RouterCallReasoning.as_str requested; call_effective := Tier.as_str t;
          call_provider_control := control_as_str (control c);
          call_provider_effective := provider_effective_label (provider_effective_of c t); call_normalized := normalized |} |}.

(** ** Preflight ([fleet_preflight.rs]) *)

Inductive CredentialReadiness := Configured | KeylessLocal | Missing (detail : str).

Definition is_ready (c : CredentialReadiness) : bool := match c with Missing _ => false | _ => true end.

Record EndpointIdentity := { host : str; local : bool }.

(** The part before the first character that satisfies [p]. *)
Fixpoint before_first (p : char -> bool) (s : str) : str :=
  match s with [] => [] | c :: s => if p c then [] else c :: before_first p s end.

Definition from_base_url (base_url : str) : EndpointIdentity :=
  let trimmed := trim base_url in
  let without_scheme := match split_once $"://" trimmed with Some (_, rest) => rest | None => trimmed end in
  let authority := before_first (one_of $"/?#") without_scheme in
  let h := to_ascii_lowercase (match rsplit_once_char (chr "@") authority with Some (_, h) => h | None => authority end) in
  let bare := before_first (N.eqb (chr ":")) h in
  {| host := h;
     local := bool_decide (bare = $"localhost") || bool_decide (bare = $"127.0.0.1") || bool_decide (bare = $"::1")
              || starts_with $"192.168." bare || starts_with $"10." bare || ends_with $".local" bare |}.

Definition endpoint_label (e : EndpointIdentity) : str := if local e then host e ++ $" (local)" else host e.

Record PreflightedRoute := {
  pr_member_id : str; provider_id : str; provider_kind : str; declared_model : str; wire_model : str;
  endpoint : EndpointIdentity; credential : CredentialReadiness; capability : ReasoningCapability }.

Definition frozen (r : PreflightedRoute) : FrozenRoute := {| provider := provider_id r; model := wire_model r |}.
Definition model_canonicalized (r : PreflightedRoute) : bool := bool_decide (declared_model r <> wire_model r).

Inductive PreflightError :=
| ProviderUnresolved (member provider detail : str)
| ModelUnresolved (member provider model detail : str)
| CredentialMissing (member provider detail : str)
| CapabilityUnknown (provider model detail : str).

Definition require_ready (r : PreflightedRoute) : result PreflightError unit :=
  match credential r with
  | Configured | KeylessLocal => Ok tt
  | Missing detail => Err (CredentialMissing (pr_member_id r) (provider_id r) detail)
  end.

Record RoutePreflight := { workers : list PreflightedRoute; pf_router : option PreflightedRoute }.

Definition worker (p : RoutePreflight) (member_id : str) : option PreflightedRoute :=
  let key := to_ascii_lowercase (trim member_id) in
  find (fun r => bool_decide (pr_member_id r = key)) (workers p).

Definition require_all_ready (p : RoutePreflight) : result PreflightError unit :=
  foldM (fun _ r => require_ready r) tt (workers p).

Definition crosses_providers (p : RoutePreflight) (member_id : str) : bool :=
  match worker p member_id, pf_router p with
  | Some w, Some r => bool_decide (provider_id w <> provider_id r)
  | _, _ => false
  end.

(** ** Identity and resolution *)

Record RouterIdentity := {
  ri_id : str; ri_origin : str; ri_service_kind : str; ri_legacy_inline : bool; ri_provider : str; ri_model : str;
  ri_endpoint : option EndpointIdentity; ri_call : option RouterCallDisclosure }.

Definition from_captured (c : CapturedReasoningRouter) (route : option PreflightedRoute) (call : option RouterCallDisclosure)
    : RouterIdentity :=
  {| ri_id := cr_id c; ri_origin := cr_origin c; ri_service_kind := service_kind c; ri_legacy_inline := legacy_inline c;
     ri_provider := from_option provider_id (provider (cr_route c)) route;
     ri_model := from_option wire_model (model (cr_route c)) route;
     ri_endpoint := endpoint <$> route; ri_call := call |}.

Definition new_identity (provider model : str) : RouterIdentity :=
  {| ri_id := $"router"; ri_origin := LEGACY_INLINE_ROUTER_ORIGIN; ri_service_kind := REASONING_ROUTER_SERVICE_KIND;
     ri_legacy_inline := true; ri_provider := provider; ri_model := model; ri_endpoint := None; ri_call := None |}.

Definition identity_label (r : RouterIdentity) : str :=
  ri_service_kind r ++ $":" ++ (ri_origin r ++ $"/" ++ ri_id r) ++ $" " ++ ri_provider r ++ $"/" ++ ri_model r.

Inductive RouterAvailability := Absent | Unavailable (reason : str) | Ready.

Inductive EffectiveReasoning := ETier (t : Tier.t) | EAdaptive.

Definition effective_label (e : EffectiveReasoning) : str :=
  match e with ETier t => Tier.as_str t | EAdaptive => $"native_adaptive" end.

Inductive EffectiveReasoningSource := MemberExplicit | ProviderNativeAdaptive | FleetRouter | LegacyHeuristic | SessionInherited.

Definition source_as_str (s : EffectiveReasoningSource) : str :=
  match s with
  | MemberExplicit => $"member_explicit" | ProviderNativeAdaptive => $"provider_native_adaptive"
  | FleetRouter => $"fleet_router" | LegacyHeuristic => $"legacy_heuristic" | SessionInherited => $"session_inherited"
  end.

Record ResolvedReasoning := {
  requested : RequestedReasoning.t; effective : EffectiveReasoning; provider_control : ProviderReasoningControl;
  provider_effective : ProviderEffectiveReasoning; source : EffectiveReasoningSource; capability_normalized : bool;
  rr_router : option RouterIdentity }.

Definition new_resolved (requested : RequestedReasoning.t) (effective : EffectiveReasoning) (c : ReasoningCapability)
    (source : EffectiveReasoningSource) (normalized : bool) : ResolvedReasoning :=
  {| requested := requested; effective := effective; provider_control := control c;
     provider_effective := match effective with ETier t => provider_effective_of c t | EAdaptive => EffAdaptive end;
     source := source; capability_normalized := normalized; rr_router := None |}.

Definition with_router (r : ResolvedReasoning) (i : RouterIdentity) : ResolvedReasoning :=
  {| requested := requested r; effective := effective r; provider_control := provider_control r;
     provider_effective := provider_effective r; source := source r; capability_normalized := capability_normalized r;
     rr_router := Some i |}.

Definition router_clause (r : option RouterIdentity) : str :=
  match r with
  | Some i => $" router=" ++ identity_label i ++ from_option (fun c => $" " ++ call_receipt c) [] (ri_call i)
  | None => []
  end.

Definition resolved_receipt (r : ResolvedReasoning) : str :=
  $"requested=" ++ RequestedReasoning.as_str (requested r) ++ $" selected=" ++ effective_label (effective r)
  ++ $" provider_control=" ++ control_as_str (provider_control r)
  ++ $" provider_effective=" ++ provider_effective_label (provider_effective r)
  ++ $" source=" ++ source_as_str (source r) ++ router_clause (rr_router r).

Record RouterDecision := { reasoning : Tier.t }.

Inductive ReasoningResolveError :=
| RouterRequired (member reason : str)
| RouterUnavailable (member reason : str)
| RouterDecisionMissing (member : str)
| RouterIdentityMissing (member : str).

(** The frozen route is an argument only to show that it is not consulted. *)
Definition resolve_exact_member_reasoning (member_id : str) (frozen : FrozenRoute) (requested : RequestedReasoning.t)
    (c : ReasoningCapability) (availability : RouterAvailability) (decision : option RouterDecision)
    (identity : option RouterIdentity) : result ReasoningResolveError ResolvedReasoning :=
  match RequestedReasoning.tier requested with
  | Some tier =>
      let '(e, normalized) := normalize c tier in
      Ok (new_resolved requested (ETier e) c MemberExplicit normalized)
  | None =>
      match availability with
      | Absent => Err (RouterRequired member_id $"this fleet references no reasoning router")
      | Unavailable reason => Err (RouterUnavailable member_id reason)
      | Ready =>
          decision ← ok_or decision (RouterDecisionMissing member_id);
          identity ← ok_or identity (RouterIdentityMissing member_id);
          let '(e, normalized) := normalize c (reasoning decision) in
          Ok (with_router (new_resolved requested (ETier e) c FleetRouter normalized) identity)
      end
  end.

Definition resolve_legacy_reasoning (requested : RequestedReasoning.t) (c : ReasoningCapability) (heuristic_tier : Tier.t)
    : ResolvedReasoning :=
  let '(tier, source) := match RequestedReasoning.tier requested with
                         | Some tier => (tier, MemberExplicit)
                         | None => (heuristic_tier, LegacyHeuristic)
                         end in
  let '(e, normalized) := normalize c tier in
  new_resolved requested (ETier e) c source normalized.

(** ** The routing summary *)

Definition ROUTER_SUMMARY_MAX_CHARS : nat := 600.
Definition ROUTING_SCOPE : str := $"bounded_redacted_task_shape".

Inductive TaskShape := Read | Edit | Diagnose | Unclassified.

Definition shape_as_str (s : TaskShape) : str :=
  match s with Read => $"read" | Edit => $"edit" | Diagnose => $"diagnose" | Unclassified => $"unclassified" end.

Definition classify (text : str) : TaskShape :=
  let lowered := to_ascii_lowercase text in
  let has := existsb (fun needle => str_contains needle lowered) in
  if has [$"debug"; $"why does"; $"root cause"; $"failing"; $"flake"; $"crash"] then Diagnose
  else if has [$"edit"; $"implement"; $"refactor"; $"fix"; $"add "; $"rewrite"; $"migrate"] then Edit
  else if has [$"read"; $"review"; $"summarize"; $"audit"; $"inspect"; $"explain"] then Read
  else Unclassified.

Record RoutingDisclosure := {
  transmitted_bytes : Z; transmitted_chars : Z; original_chars : Z; truncated : bool; content_hash : str;
  disclosed_redacted : bool; redactions : list str; scope : str; task_shape : str; cross_provider_inference : bool }.

Record RoutingPayload := { payload_text : str; disclosure : RoutingDisclosure }.

Definition set_cross_provider (d : RoutingDisclosure) (b : bool) : RoutingDisclosure :=
  {| transmitted_bytes := transmitted_bytes d; transmitted_chars := transmitted_chars d; original_chars := original_chars d;
     truncated := truncated d; content_hash := content_hash d; disclosed_redacted := disclosed_redacted d;
     redactions := redactions d; scope := scope d; task_shape := task_shape d; cross_provider_inference := b |}.
Definition with_cross_provider (p : RoutingPayload) (b : bool) : RoutingPayload :=
  {| payload_text := payload_text p; disclosure := set_cross_provider (disclosure p) b |}.

Definition unstructured (c : char) : char :=
  if N.eqb c 96 then 39%N else if N.eqb c 123 then 40%N else if N.eqb c 125 then 41%N else c.

(** The loop over the task's characters, with the text so far. *)
Fixpoint sanitize_go (pending_space : bool) (sanitized : str) (task : str) : str :=
  match task with
  | [] => sanitized
  | c :: task =>
      if is_control c || is_whitespace c then sanitize_go (negb (str_is_empty sanitized)) sanitized task
      else sanitize_go false ((if pending_space then sanitized ++ [32%N] else sanitized) ++ [unstructured c]) task
  end.

Definition sanitize (task : str) : str := sanitize_go false [] task.

Definition bool_text (b : bool) : str := if b then $"true" else $"false".

Definition disclosure_receipt (d : RoutingDisclosure) : str :=
  $"routing_summary_bytes=" ++ display_u (transmitted_bytes d) ++ $" chars=" ++ display_u (transmitted_chars d)
  ++ $" truncated=" ++ bool_text (truncated d) ++ $" hash=" ++ content_hash d
  ++ $" redacted=" ++ bool_text (disclosed_redacted d) ++ $" cross_provider=" ++ bool_text (cross_provider_inference d).

Section payload.
Context `{Externs}.

Definition bounded_routing_payload (task : str) : RoutingPayload :=
  let redaction := redact_for_disclosure (sanitize task) in
  let cleaned := redaction_text redaction in
  let truncated := (ROUTER_SUMMARY_MAX_CHARS <? length cleaned)%nat in
  let text := if truncated then trim_end (take ROUTER_SUMMARY_MAX_CHARS cleaned) else cleaned in
  {| payload_text := text;
     disclosure :=
       {| transmitted_bytes := byte_len text; transmitted_chars := char_count text; original_chars := char_count cleaned;
          truncated := truncated; content_hash := sha256_label (as_bytes text); disclosed_redacted := redacted redaction;
          redactions := kinds redaction; scope := ROUTING_SCOPE; task_shape := shape_as_str (classify text);
          cross_provider_inference := false |} |}.
End payload.

(** ** The router's answer *)

Record RouterCallInput := { in_fleet : str; in_member : str; in_frozen : FrozenRoute; in_payload : RoutingPayload }.

Definition nl : str := [10%N].

Definition router_system_prompt (input : RouterCallInput) : str :=
  $"You are the reasoning router for the `" ++ in_fleet input
  ++ $"` fleet. You are a reasoning-only service, not a fleet member: the worker's provider and model are already frozen and you cannot change them, choose a different member, or alter tools or permissions."
  ++ nl ++ $"Worker member: " ++ in_member input ++ nl ++ $"Frozen provider: " ++ provider (in_frozen input)
  ++ nl ++ $"Frozen model: " ++ model (in_frozen input) ++ nl
  ++ $"The next message is a bounded, redacted description of the task's shape. Judge only how hard the already-chosen model should think about it."
  ++ nl ++ nl ++ $"Reply with exactly this JSON object and nothing else: {" ++ [34%N] ++ $"reasoning" ++ [34%N] ++ $":" ++ [34%N]
  ++ $"off|low|medium|high|max" ++ [34%N]
  ++ $"}. Emit one object only " ++ [8212%N] ++ $" no second object, no repeated key, no text before or after it. No other key is permitted " ++ [8212%N] ++ $" not a rationale, not an explanation, and above all not a provider, model, route, member, or fleet field. Any extra key rejects your answer and fails the run. Do not answer "
  ++ [34%N] ++ $"auto" ++ [34%N] ++ $".".

Definition router_user_message (input : RouterCallInput) : str := payload_text (in_payload input).

Definition ROUTER_REASONING_FIELD : str := $"reasoning".

Definition ROUTER_FORBIDDEN_FIELDS : list str :=
  [$"provider"; $"provider_id"; $"provider_kind"; $"model"; $"model_id"; $"wire_model"; $"wire_model_id"; $"route";
   $"model_route"; $"endpoint"; $"fleet"; $"member"; $"member_id"; $"role"; $"tools"; $"allowed_tools"; $"permissions"].

Inductive RouterDecisionError :=
| DecisionParse (message : str)
| RouteMutationAttempt (field : str)
| UnknownField (field : str)
| DuplicateField (field : str)
| MissingReasoning
| AutoReasoning
| DecisionInvalid (value : str)
| TrailingContent (trailing : str).

Definition fence : str := [96%N; 96%N; 96%N].

Definition strip_router_code_fence (raw : str) : str :=
  let trimmed := trim raw in
  let opened := match strip_prefix (fence ++ $"json") trimmed with Some v => Some v | None => strip_prefix fence trimmed end in
  match opened ≫= strip_suffix fence with Some v => trim v | None => trimmed end.

Definition trailing_excerpt (rest : str) : str :=
  trim (take 60 ((fun c => if is_control c then 32%N else c) <$> trim rest)).

(** The first entry whose key repeats an earlier one. *)
Fixpoint duplicate_field (earlier : list str) (entries : Map) : option str :=
  match entries with
  | [] => None
  | (field, _) :: entries =>
      if existsb (fun e => eq_ignore_ascii_case e field) earlier then Some field
      else duplicate_field (earlier ++ [field]) entries
  end.

Definition forbidden_field (field : str) : bool :=
  existsb (fun f => eq_ignore_ascii_case field f) ROUTER_FORBIDDEN_FIELDS.

(** What the deserializer makes of a text: nothing, an error, or the entries of
    the first object in their order with the text after it. *)
Inductive StreamItem := NoItem | StreamError (message : str) | StreamObject (entries : Map) (rest : str).

Section decision.
Context (stream : str -> StreamItem).

Definition parse_router_decision (raw : str) : result RouterDecisionError RouterDecision :=
  match stream (strip_router_code_fence raw) with
  | StreamError message => Err (DecisionParse message)
  | NoItem => Err (DecisionParse $"router output was empty")
  | StreamObject entries rest =>
      reject_if (negb (str_is_empty (trim rest))) (TrailingContent (trailing_excerpt rest));;
      match duplicate_field [] entries with
      | Some field => Err (DuplicateField field)
      | None =>
          match find (fun e => forbidden_field e.1) entries with
          | Some (field, _) => Err (RouteMutationAttempt field)
          | None =>
              match find (fun e => bool_decide (e.1 <> ROUTER_REASONING_FIELD)) entries with
              | Some (field, _) => Err (UnknownField field)
              | None =>
                  v ← ok_or (e ← find (fun e => bool_decide (e.1 = ROUTER_REASONING_FIELD)) entries; as_str e.2) MissingReasoning;
                  reject_if (eq_ignore_ascii_case (trim v) $"auto") AutoReasoning;;
                  t ← ok_or (Tier.parse v) (DecisionInvalid (trim v));
                  Ok {| reasoning := t |}
              end
          end
      end
  end.
End decision.

(** ** The receipt *)

Record FleetTaskReceipt := {
  fr_fleet : str; fr_schema_kind : str; fr_schema_revision : Z; fr_content_hash : str; fr_member_id : str;
  fr_member_role : str; posture_role : option str; authority_fingerprint : option str; fr_provider : str; fr_model : str;
  fr_declared_model : option str; fr_endpoint : option EndpointIdentity; requested_reasoning : str;
  effective_reasoning : str; fr_provider_control : str; provider_effective_reasoning : str; selection_source : str;
  fr_capability_normalized : bool; fr_router : option RouterIdentity; routing_summary : option RoutingDisclosure;
  member_network_tool : bool; fr_cross_provider : bool; transport : str }.

Definition transport_disclosure (router_called member_network_tool cross_provider : bool) : str :=
  $"Host-owned provider inference over the network; "
  ++ (if member_network_tool then $"the member also holds a model-visible network tool"
      else $"the member holds no model-visible network tool") ++ $"."
  ++ (if router_called then
        $" A bounded, redacted routing summary was also sent to the fleet's "
        ++ (if cross_provider then $"reasoning router, which runs on a different provider than this member."
            else $"reasoning router, which runs on the same provider as this member.")
      else []).

Definition new_receipt (fleet schema_kind : str) (schema_revision : Z) (hash member_id member_role : str)
    (route : PreflightedRoute) (r : ResolvedReasoning) (summary : option RoutingDisclosure) (network_tool : bool) : FleetTaskReceipt :=
  let cross := from_option cross_provider_inference false summary in
  {| fr_fleet := fleet; fr_schema_kind := schema_kind; fr_schema_revision := schema_revision; fr_content_hash := hash;
     fr_member_id := member_id; fr_member_role := member_role; posture_role := None; authority_fingerprint := None;
     fr_provider := provider_id route; fr_model := wire_model route;
     fr_declared_model := if model_canonicalized route then Some (declared_model route) else None;
     fr_endpoint := Some (endpoint route); requested_reasoning := RequestedReasoning.as_str (requested r);
     effective_reasoning := effective_label (effective r); fr_provider_control := control_as_str (provider_control r);
     provider_effective_reasoning := provider_effective_label (provider_effective r);
     selection_source := source_as_str (source r); fr_capability_normalized := capability_normalized r;
     fr_router := rr_router r; routing_summary := summary; member_network_tool := network_tool; fr_cross_provider := cross;
     transport := transport_disclosure (bool_decide (is_Some (rr_router r))) network_tool cross |}.

Definition set_posture (r : FleetTaskReceipt) (posture fingerprint : option str) : FleetTaskReceipt :=
  {| fr_fleet := fr_fleet r; fr_schema_kind := fr_schema_kind r; fr_schema_revision := fr_schema_revision r;
     fr_content_hash := fr_content_hash r; fr_member_id := fr_member_id r; fr_member_role := fr_member_role r;
     posture_role := posture; authority_fingerprint := fingerprint; fr_provider := fr_provider r; fr_model := fr_model r;
     fr_declared_model := fr_declared_model r; fr_endpoint := fr_endpoint r; requested_reasoning := requested_reasoning r;
     effective_reasoning := effective_reasoning r; fr_provider_control := fr_provider_control r;
     provider_effective_reasoning := provider_effective_reasoning r; selection_source := selection_source r;
     fr_capability_normalized := fr_capability_normalized r; fr_router := fr_router r; routing_summary := routing_summary r;
     member_network_tool := member_network_tool r; fr_cross_provider := fr_cross_provider r; transport := transport r |}.

Definition with_posture_role (r : FleetTaskReceipt) (p : str) : FleetTaskReceipt :=
  set_posture r (if bool_decide (p <> fr_member_role r) then Some p else None) (authority_fingerprint r).

Definition with_authority_fingerprint (r : FleetTaskReceipt) (f : str) : FleetTaskReceipt :=
  set_posture r (posture_role r) (Some f).

Definition receipt_line (r : FleetTaskReceipt) : str :=
  $"fleet=" ++ fr_fleet r ++ $" member=" ++ fr_member_id r ++ $" (role " ++ fr_member_role r ++ $") route="
  ++ fr_provider r ++ $"/" ++ fr_model r ++ $" requested=" ++ requested_reasoning r ++ $" effective=" ++ effective_reasoning r
  ++ $" provider_control=" ++ fr_provider_control r ++ $" provider_effective=" ++ provider_effective_reasoning r
  ++ $" source=" ++ selection_source r
  ++ from_option (fun p => $" posture=" ++ p) [] (posture_role r)
  ++ router_clause (fr_router r)
  ++ from_option (fun s => $" " ++ disclosure_receipt s) [] (routing_summary r).

(** * Properties of routing summaries and reasoning resolution *)

(** ** The characters of a redacted text *)

Section chars.
Context (P : char -> Prop) (Hspace : P 32%N) (Hpath : Forall P PATH_PLACEHOLDER) (Hsecret : Forall P SECRET_PLACEHOLDER).

Lemma split_by_chars q s : Forall P s -> Forall (Forall P) (split_by q s).
Proof.
  induction 1 as [|c s Hc Hs IH]; cbn; [by repeat constructor|]. destruct (q c); [by constructor|].
  destruct (split_by q s) as [|w ws]; [by repeat constructor|]. apply Forall_cons in IH as [??]. by repeat constructor.
Qed.

Lemma join_chars sep ws : Forall P sep -> Forall (Forall P) ws -> Forall P (join sep ws).
Proof.
  intros Hsep. induction 1 as [|w ws Hw Hws IH]; cbn; [constructor|]. destruct ws; [done|]. by rewrite !Forall_app.
Qed.

Lemma replacement_chars token t : Forall P token -> replacement token t -> Forall P t.
Proof.
  intros Ht [->|[->|(name & sep & value & _ & -> & Hr)]]; [done..|].
  apply Forall_app in Ht as [Hn [Hs _]%Forall_cons]. by destruct Hr as [->| ->]; rewrite Forall_app, Forall_cons.
Qed.

Lemma redacted_chars s : Forall P s -> Forall P (Redaction.redaction_text (redact_for_disclosure s)).
Proof.
  intros Hs. unfold redact_for_disclosure. destruct (redact_tokens _ _ _) as [out ks] eqn:E. cbn.
  destruct (redact_tokens_accounted _ _ _ _ _ E) as (_ & Hall & _). apply join_chars; [by repeat constructor|].
  apply (split_by_chars (N.eqb 32)) in Hs. change (split_by (N.eqb 32) s) with (split_char 32 s) in Hs. clear E.
  induction Hall as [|token o tokens out Ho Hall IH]; [constructor|]. apply Forall_cons in Hs as [Ht Hs].
  constructor; [|by apply IH]. destruct Ho as [->|Ho]; [done|]. by eapply replacement_chars.
Qed.
End chars.

(** ** The summary *)

(** A character that cannot be read as part of the router's prompt. *)
Definition harmless (c : char) : Prop := is_control c = false /\ c <> 96%N /\ c <> 123%N /\ c <> 125%N.

Lemma unstructured_harmless c : is_control c = false -> harmless (unstructured c).
Proof.
  intros Hc. unfold unstructured, harmless.
  destruct (N.eqb_spec c 96), (N.eqb_spec c 123), (N.eqb_spec c 125); subst; by split_and!.
Qed.

Lemma placeholders_harmless : Forall harmless PATH_PLACEHOLDER /\ Forall harmless SECRET_PLACEHOLDER.
Proof. split; match goal with |- Forall _ ?l => let l' := eval vm_compute in l in change l with l' end; repeat constructor; done. Qed.

Lemma sanitize_go_harmless pending acc task : Forall harmless acc -> Forall harmless (sanitize_go pending acc task).
Proof.
  revert pending acc. induction task as [|c task IH]; intros pending acc Ha; cbn; [done|].
  destruct (is_control c || is_whitespace c) eqn:E; [by apply IH|]. apply orb_false_iff in E as [Ec _].
  apply IH. apply Forall_app. split; [|by apply Forall_singleton, unstructured_harmless].
  destruct pending; [|done]. apply Forall_app. split; [done|]. apply Forall_singleton. by split_and!.
Qed.

Lemma trim_end_prefix s : exists r, s = trim_end s ++ r.
Proof.
  unfold trim_end. assert (Hs : forall t, exists p, t = p ++ trim_start t).
  { intros t. unfold trim_start. induction t as [|c t [p IH]]; [by exists []|]. cbn.
    destruct (is_whitespace c); [exists (c :: p); cbn; congruence|by exists []]. }
  destruct (Hs (rev s)) as [p Hp]. exists (rev p). by rewrite <-rev_app_distr, <-Hp, rev_involutive.
Qed.

(** the text a router is sent is at most 600 characters of the redacted
    task, a prefix of it, with no control character, backtick or brace, whatever
    the task holds; and what the disclosure records, the counts, the hash, the
    truncation, the shape and the kinds that redaction removed, is what was
    sent. *)
Theorem routing_summary_is_bounded `{Externs} task :
  let p := bounded_routing_payload task in
  let redaction := redact_for_disclosure (sanitize task) in
  let d := disclosure p in
  (length (payload_text p) <= 600)%nat /\ Forall harmless (payload_text p) /\
  (exists r, Redaction.redaction_text redaction = payload_text p ++ r) /\
  transmitted_chars d = zlen (payload_text p) /\ transmitted_bytes d = byte_len (payload_text p) /\
  content_hash d = sha256_label (as_bytes (payload_text p)) /\
  original_chars d = zlen (Redaction.redaction_text redaction) /\ (truncated d = true <-> 600 < original_chars d) /\
  (truncated d = false -> payload_text p = Redaction.redaction_text redaction) /\
  disclosed_redacted d = redacted redaction /\ redactions d = kinds redaction /\
  task_shape d = shape_as_str (classify (payload_text p)).
Proof.
  cbn zeta. set (cleaned := Redaction.redaction_text (redact_for_disclosure (sanitize task))).
  assert (Hclean : Forall harmless cleaned).
  { apply redacted_chars; [by split_and!|apply placeholders_harmless..|]. apply sanitize_go_harmless. constructor. }
  assert (Htext : payload_text (bounded_routing_payload task)
            = if (ROUTER_SUMMARY_MAX_CHARS <? length cleaned)%nat then trim_end (take ROUTER_SUMMARY_MAX_CHARS cleaned) else cleaned)
    by done.
  assert (Htr : truncated (disclosure (bounded_routing_payload task)) = (ROUTER_SUMMARY_MAX_CHARS <? length cleaned)%nat) by done.
  assert (Hp : exists r, cleaned = payload_text (bounded_routing_payload task) ++ r).
  { rewrite Htext. destruct (Nat.ltb _ _); [|by exists []; rewrite app_nil_r].
    destruct (trim_end_prefix (take ROUTER_SUMMARY_MAX_CHARS cleaned)) as [r Hr].
    exists (r ++ drop ROUTER_SUMMARY_MAX_CHARS cleaned). by rewrite app_assoc, <-Hr, take_drop. }
  assert (H600 : ROUTER_SUMMARY_MAX_CHARS = Z.to_nat 600) by done.
  split_and!; try done.
  - rewrite Htext. destruct (Nat.ltb_spec ROUTER_SUMMARY_MAX_CHARS (length cleaned)) as [Hl|Hl]; [|lia].
    destruct (trim_end_prefix (take ROUTER_SUMMARY_MAX_CHARS cleaned)) as [r Hr]. apply (f_equal length) in Hr.
    rewrite length_app, length_take in Hr. lia.
  - destruct Hp as [r Hr]. rewrite Hr, Forall_app in Hclean. apply Hclean.
  - rewrite Htr. change (original_chars _) with (zlen cleaned). unfold zlen. rewrite Nat.ltb_lt. lia.
  - rewrite Htr, Htext. by intros ->.
Qed.

(** ** The router's answer *)

Lemma eq_ignore_refl s : eq_ignore_ascii_case s s = true.
Proof. by apply bool_decide_eq_true. Qed.

Lemma duplicate_field_None earlier (m : Map) k :
  duplicate_field earlier m = None -> Forall (fun e => e.1 = k) m -> (k ∈ earlier -> m = []) /\ (length m <= 1)%nat.
Proof.
  revert earlier. induction m as [|[f v] m IH]; intros earlier; cbn; [split; [done|lia]|].
  destruct (existsb _ earlier) eqn:E; [done|]. intros Hd [Hf Hm]%Forall_cons. cbn in Hf. subst f.
  destruct (IH _ Hd Hm) as [Hnil _]. rewrite Hnil by set_solver. split; [|cbn; lia].
  intros Hk. rewrite existsb_false in E. specialize (E k Hk). by rewrite eq_ignore_refl in E.
Qed.

Lemma tier_is_not_auto v t : ReasoningTier.parse v = Some t -> eq_ignore_ascii_case (trim v) $"auto" = false.
Proof.
  intros Hp. apply bool_decide_eq_false. intros Ha. unfold ReasoningTier.parse in Hp. rewrite Ha in Hp. by vm_compute in Hp.
Qed.

Lemma router_decision_spec stream raw d :
  parse_router_decision stream raw = Ok d <->
  exists v rest, stream (strip_router_code_fence raw) = StreamObject [(ROUTER_REASONING_FIELD, Str v)] rest /\
    trim rest = [] /\ ReasoningTier.parse v = Some (reasoning d).
Proof.
  unfold parse_router_decision. destruct (stream (strip_router_code_fence raw)) as [|e|m rest];
    [split; [done|by intros (? & ? & [=] & _)]..|]. rewrite seq_Ok, reject_if_Ok, negb_false_iff. split.
  - intros [Hr H]. destruct (duplicate_field [] m) as [|] eqn:Ed; [done|].
    destruct (find (fun e => forbidden_field e.1) m) as [[? ?]|]; [done|].
    destruct (find _ m) as [[? ?]|] eqn:Eo; [done|]. rewrite find_None in Eo.
    assert (Hk : Forall (fun e => e.1 = ROUTER_REASONING_FIELD) m).
    { apply Forall_forall. intros e He. specialize (Eo e He). apply bool_decide_eq_false in Eo.
      by destruct (decide (e.1 = ROUTER_REASONING_FIELD)). }
    destruct (duplicate_field_None [] m _ Ed Hk) as [_ Hl]. rewrite bind_Ok in H. destruct H as (v & Hv%ok_or_Ok & H).
    rewrite seq_Ok in H. destruct H as [_ H]. rewrite bind_Ok in H. destruct H as (t & Ht%ok_or_Ok & [= <-]).
    apply bind_Some in Hv as ([k val] & Hf & Hs). apply find_Some in Hf as [Hin _].
    destruct m as [|e1 [|e2 m]]; [set_solver| |cbn in Hl; lia]. apply list_elem_of_singleton in Hin as <-.
    apply Forall_cons in Hk as [Hk _]. cbn in *. destruct val; try done. injection Hs as ->. subst k.
    exists v, rest. split_and!; [done|by destruct (trim rest)|done].
  - intros (v & rest' & [= -> ->] & Hr & Ht). split; [by rewrite Hr|]. cbn [duplicate_field existsb].
    replace (find (fun e => forbidden_field e.1) _) with (@None (str * Value)) by (vm_compute; done).
    cbn [find fst]. rewrite bool_decide_false by tauto. rewrite bool_decide_true by done. cbn.
    rewrite seq_Ok, reject_if_Ok, bind_Ok. split; [by eapply tier_is_not_auto|]. exists (reasoning d). split; [by apply ok_or_Ok|]. by destruct d.
Qed.

(** ** What runs *)

(** The bounds of a capability, where it can think at all. *)
Definition expressible (c : ReasoningCapability) (t : ReasoningTier.t) : Prop :=
  if supports_thinking c then
    from_option (fun m => ReasoningTier.rank t <= ReasoningTier.rank m) True (max_tier c) /\
    (from_option (fun m => ReasoningTier.rank m <= ReasoningTier.rank t) True (min_tier c) \/ Some t = max_tier c)
  else t = ReasoningTier.Off.

Lemma normalize_spec c t :
  expressible c (normalize c t).1 /\ ((normalize c t).2 = true <-> (normalize c t).1 <> t).
Proof.
  unfold expressible, normalize. destruct (supports_thinking c); cbn [negb fst snd]; rewrite bool_decide_eq_true; [|split; [done|naive_solver]].
  split; [|done].
  destruct (min_tier c) as [lo|], (max_tier c) as [hi|]; cbn;
    repeat (match goal with |- context [?a <? ?b] => destruct (Z.ltb_spec a b) end); split; auto; lia.
Qed.


(** The textual test for the IPv6 loopback address cannot succeed: the host is
    cut at its first colon before it is compared. *)
Example ipv6_loopback_is_not_local :
  map (fun u => local (from_base_url u)) [$"http://[::1]:8080/v1"; $"http://::1/v1"; $"http://127.0.0.1:8080/v1"]
  = [false; false; true].
Proof. vm_compute. reflexivity. Qed.
