(* ===== verification/FleetSnapshot.v ===== *)
(** * Fleet snapshots and compositions

    [crates/workflow/src/fleet_snapshot.rs]: the value a workflow captures at
    its start, its hash and lookups.  [fleet_composition.rs]: proposals for the
    roles of a fleet.  Serialization of the hashed shape is a parameter. *)

From S2P Require Import Text WorkModel FleetExact FleetStore Redaction.

Record FleetSnapshotMember := {
  sm_id : str; sm_role : str; sm_route : FrozenRoute; sm_reasoning : RequestedReasoning.t; sm_permissions : PermissionCeiling }.

Record FleetSnapshotLegacyRole := { lr_role : str; lr_profile : str }.

Record FleetSnapshot := {
  sn_fleet : QualifiedId; sn_schema_kind : str; sn_schema_revision : Z; sn_schema_hash : str; sn_content_hash : str;
  sn_members : list FleetSnapshotMember; sn_router : option CapturedReasoningRouter;
  sn_legacy_roles : list FleetSnapshotLegacyRole; captured_at : str }.

(** What is hashed: everything but the recorded hash and the time. *)
Record Shape := {
  sh_fleet : QualifiedId; sh_schema_kind : str; sh_schema_revision : Z; sh_schema_hash : str;
  sh_members : list FleetSnapshotMember; sh_router : option CapturedReasoningRouter;
  sh_legacy_roles : list FleetSnapshotLegacyRole }.

Definition shape_of (s : FleetSnapshot) : Shape :=
  {| sh_fleet := sn_fleet s; sh_schema_kind := sn_schema_kind s; sh_schema_revision := sn_schema_revision s;
     sh_schema_hash := sn_schema_hash s; sh_members := sn_members s; sh_router := sn_router s;
     sh_legacy_roles := sn_legacy_roles s |}.

Definition exact_members (f : ExactFleet) : list FleetSnapshotMember :=
  (fun m => {| sm_id := canonical_member_key (member_id m); sm_role := canonical_role_key (member_role m);
               sm_route := member_route m; sm_reasoning := member_reasoning m; sm_permissions := member_permissions m |})
  <$> members f.

Section snapshot.
Context `{Externs} (to_vec : Shape -> list N).

Definition compute_content_hash (s : FleetSnapshot) : str := sha256_label (to_vec (shape_of s)).

Definition with_content_hash (s : FleetSnapshot) (h : str) : FleetSnapshot :=
  {| sn_fleet := sn_fleet s; sn_schema_kind := sn_schema_kind s; sn_schema_revision := sn_schema_revision s;
     sn_schema_hash := sn_schema_hash s; sn_content_hash := h; sn_members := sn_members s; sn_router := sn_router s;
     sn_legacy_roles := sn_legacy_roles s; captured_at := captured_at s |}.

Definition capture (fleet : QualifiedId) (d : FleetDocument) (at_ : str) (router : option CapturedReasoningRouter)
    : result ExactFleetError FleetSnapshot :=
  '(ms, roles) ← match doc_form d with
                 | Exact f => FleetExact.validate f;; Ok (exact_members f, [])
                 | Legacy f => Ok ([], (fun p => {| lr_role := p.1; lr_profile := p.2 |}) <$> roles_in_order f)
                 end;
  let s := {| sn_fleet := fleet; sn_schema_kind := schema_kind d; sn_schema_revision := document_revision d;
              sn_schema_hash := source_hash d; sn_content_hash := []; sn_members := ms; sn_router := router;
              sn_legacy_roles := roles; captured_at := at_ |} in
  Ok (with_content_hash s (compute_content_hash s)).

Definition verify_content_hash (s : FleetSnapshot) : result ExactFleetError unit :=
  let recomputed := compute_content_hash s in
  if bool_decide (recomputed = sn_content_hash s) then Ok tt
  else Err (ContentHashMismatch (qualified (sn_fleet s)) (sn_content_hash s) recomputed).

Definition into_verified (s : FleetSnapshot) : result ExactFleetError FleetSnapshot := verify_content_hash s;; Ok s.
End snapshot.

Definition snapshot_member (s : FleetSnapshot) (id : str) : option FleetSnapshotMember :=
  let key := canonical_member_key id in
  find (fun m => bool_decide (canonical_member_key (sm_id m) = key)) (sn_members s).

Definition snapshot_member_by_role (s : FleetSnapshot) (role : str) : option FleetSnapshotMember :=
  let key := canonical_role_key role in
  find (fun m => bool_decide (canonical_role_key (sm_role m) = key)) (sn_members s).

Definition snapshot_by_id_or_role (s : FleetSnapshot) (id_or_role : str) : option FleetSnapshotMember :=
  match snapshot_member s id_or_role with Some m => Some m | None => snapshot_member_by_role s id_or_role end.

Definition snapshot_has_auto_member (s : FleetSnapshot) : bool :=
  existsb (fun m => RequestedReasoning.is_auto (sm_reasoning m)) (sn_members s).

Definition auto_member_ids (s : FleetSnapshot) : list str :=
  sm_id <$> retain (fun m => RequestedReasoning.is_auto (sm_reasoning m)) (sn_members s).

Definition captured_legacy_inline_router (f : ExactFleet) : option CapturedReasoningRouter := from_legacy_inline <$> router f.

(** ** Compositions ([fleet_composition.rs]) *)

Record ConfiguredModel := { cm_provider : str; cm_model : str; note : option str }.

(** An optional text, redacted, and dropped if nothing is left. *)
Definition redacted_text (t : option str) : option str :=
  t ← (fun t => redaction_text (redact_for_disclosure t)) <$> t;
  if str_is_empty (trim t) then None else Some t.

Definition new_configured_model (provider model : str) (note : option str) : ConfiguredModel :=
  {| cm_provider := provider; cm_model := model; note := redacted_text note |}.

Definition model_key (m : ConfiguredModel) : str := cm_provider m ++ $"/" ++ cm_model m.

Record CompositionRole := { wanted_role : str; intent : option str }.

Definition new_composition_role (role : str) (intent : option str) : CompositionRole :=
  {| wanted_role := role; intent := redacted_text intent |}.

Record FleetCompositionRequest := { pool : list ConfiguredModel; wanted : list CompositionRole }.

Inductive CompositionError :=
| EmptyPool
| NoRoles
| InvalidRole (role : str)
| CompositionDuplicateRole (role : str)
| UnknownRole (role : str)
| ModelOutsidePool (role provider model : str) (pool : list str).

Definition check_wanted (seen : gset str) (r : CompositionRole) : result CompositionError (gset str) :=
  let key := to_ascii_lowercase (trim (wanted_role r)) in
  reject_if (str_is_empty key) (InvalidRole (wanted_role r));;
  reject_if (bool_decide (key ∈ seen)) (CompositionDuplicateRole key);;
  Ok ({[ key ]} ∪ seen).

Definition new_request (pool : list ConfiguredModel) (roles : list CompositionRole)
    : result CompositionError FleetCompositionRequest :=
  reject_if (bool_decide (length pool = 0%nat)) EmptyPool;;
  reject_if (bool_decide (length roles = 0%nat)) NoRoles;;
  foldM check_wanted ∅ roles;;
  Ok {| pool := pool; wanted := roles |}.

Definition pool_contains (r : FleetCompositionRequest) (provider model : str) : bool :=
  existsb (fun e => bool_decide (cm_provider e = provider) && bool_decide (cm_model e = model)) (pool r).

Definition pool_keys (r : FleetCompositionRequest) : list str := model_key <$> pool r.

Record RoleSuggestion := { sg_role : str; sg_provider : str; sg_model : str; reason : option str }.

Inductive RatificationState := Unratified | Ratified.

Record FleetCompositionProposal := { ratification : RatificationState; suggestions : list RoleSuggestion; advisory : str }.

Definition COMPOSITION_ADVISORY : str :=
  $"Suggestion only " ++ [8212%N]
  ++ $" not saved, not running. Review each role's provider and model, then save a Fleet yourself. Nothing here changes an existing Fleet or starts a Workflow.".

Definition check_suggestion (request : FleetCompositionRequest) (seen : gset str) (s : RoleSuggestion)
    : result CompositionError (gset str) :=
  let role := to_ascii_lowercase (trim (sg_role s)) in
  reject_if (negb (existsb (fun w => bool_decide (to_ascii_lowercase (trim (wanted_role w)) = role)) (wanted request)))
    (UnknownRole (sg_role s));;
  reject_if (bool_decide (role ∈ seen)) (CompositionDuplicateRole role);;
  reject_if (negb (pool_contains request (sg_provider s) (sg_model s)))
    (ModelOutsidePool (sg_role s) (sg_provider s) (sg_model s) (pool_keys request));;
  Ok ({[ role ]} ∪ seen).

Definition validate_proposal (request : FleetCompositionRequest) (sgs : list RoleSuggestion)
    : result CompositionError FleetCompositionProposal :=
  foldM (check_suggestion request) ∅ sgs;;
  Ok {| ratification := Unratified;
        suggestions := (fun s => {| sg_role := sg_role s; sg_provider := sg_provider s; sg_model := sg_model s;
                                    reason := redacted_text (reason s) |}) <$> sgs;
        advisory := COMPOSITION_ADVISORY |}.

Definition unfilled_roles (p : FleetCompositionProposal) (request : FleetCompositionRequest) : list str :=
  wanted_role <$> retain (fun w => negb (existsb (fun s => eq_ignore_ascii_case (trim (sg_role s)) (trim (wanted_role w)))
                                                (suggestions p))) (wanted request).

(** * Properties of fleet snapshots and compositions *)

From S2P Require Import WorkflowRoles FleetExact.
(** ** Keys are fixed points *)

Lemma trim_start_lower s : trim_start (to_ascii_lowercase s) = to_ascii_lowercase (trim_start s).
Proof.
  unfold trim_start. induction s as [|c s IH]; [done|]. cbn. rewrite is_whitespace_lower. by destruct (is_whitespace c).
Qed.

Lemma rev_lower s : rev (to_ascii_lowercase s) = to_ascii_lowercase (rev s).
Proof. exact (eq_sym (map_rev _ s)). Qed.

Lemma trim_lower s : trim (to_ascii_lowercase s) = to_ascii_lowercase (trim s).
Proof. unfold trim, trim_end. by rewrite trim_start_lower, rev_lower, trim_start_lower, rev_lower. Qed.

Lemma member_key_idem s : canonical_member_key (canonical_member_key s) = canonical_member_key s.
Proof. unfold canonical_member_key. by rewrite trim_lower, trim_idem, to_ascii_lowercase_idem. Qed.

Definition current_name (key : str) : str :=
  from_option snd key (find (fun a => bool_decide (a.1 = key)) ROLE_ALIASES).

Lemma role_key_name s : canonical_role_key s = current_name (canonical_member_key s).
Proof. done. Qed.

Lemma role_key_idem s : canonical_role_key (canonical_role_key s) = canonical_role_key s.
Proof.
  rewrite !(role_key_name s). unfold current_name.
  destruct (find (fun a => bool_decide (a.1 = canonical_member_key s)) ROLE_ALIASES) as [[a c]|] eqn:E; cbn [from_option snd].
  - apply find_Some in E as [Hin _]. unfold ROLE_ALIASES in Hin. set_unfold in Hin.
    destruct Hin as [[= -> ->]|[[= -> ->]|[]]]; by vm_compute.
  - rewrite role_key_name, member_key_idem. unfold current_name. by rewrite E.
Qed.

(** ** Snapshots *)

Definition recorded (m : ExactMember) : FleetSnapshotMember :=
  {| sm_id := id_key m; sm_role := role_key m; sm_route := member_route m;
     sm_reasoning := member_reasoning m; sm_permissions := member_permissions m |}.

Lemma find_fmap {A B} (p : B -> bool) (f : A -> B) l : find p (f <$> l) = f <$> find (fun x => p (f x)) l.
Proof. induction l as [|x l IH]; [done|]. cbn. destruct (p (f x)); [done|exact IH]. Qed.

Lemma find_ext {A} (p q : A -> bool) l : (forall x, p x = q x) -> find p l = find q l.
Proof. intros H. induction l as [|x l IH]; [done|]. cbn. by rewrite H, IH. Qed.

Section snapshot.
Context `{Externs} (to_vec : Shape -> list N).

Lemma capture_Ok q d at_ r s :
  capture to_vec q d at_ r = Ok s ->
  verify_content_hash to_vec s = Ok tt /\ sn_fleet s = q /\ sn_schema_kind s = schema_kind d /\ sn_schema_hash s = source_hash d /\
  sn_router s = r /\
  (forall f, doc_form d = Exact f -> roster_ok (members f) /\ sn_members s = recorded <$> members f /\ sn_legacy_roles s = []) /\
  (forall f, doc_form d = Legacy f -> sn_members s = []).
Proof.
  unfold capture. rewrite bind_Ok. intros ([ms roles] & Hm & [= <-]). cbn.
  split_and!; try done.
  - unfold verify_content_hash. cbn. by rewrite bool_decide_true.
  - intros f Hf. rewrite Hf in Hm. rewrite seq_Ok in Hm. destruct Hm as [Hv%fleet_validate_Ok [= <- <-]]. done.
  - intros f Hf. rewrite Hf in Hm. by injection Hm as <- <-.
Qed.

Lemma verified_same_shape s s' :
  verify_content_hash to_vec s = Ok tt -> verify_content_hash to_vec s' = Ok tt -> sn_content_hash s = sn_content_hash s' ->
  sha256_label (to_vec (shape_of s)) = sha256_label (to_vec (shape_of s')).
Proof.
  unfold verify_content_hash, compute_content_hash. case_bool_decide as E; [|done]. case_bool_decide as E'; [|done]. congruence.
Qed.

End snapshot.

(** A serialization for the example. *)
Definition sample_vec (s : Shape) : list N :=
  (sh_members s ≫= fun m => sm_id m ++ [0%N] ++ sm_role m ++ [0%N] ++ model (sm_route m)) ++ q_name (sh_fleet s).

Definition sample_document : FleetDocument :=
  {| doc_form := Exact (sample_fleet counsel); doc_source := None; source_hash := $"sha256:00" |}.

Definition sample_digest : Externs :=
  {| Sha256_digest := fun bytes => bytes; Url_parse := fun _ => None;
     parse_from_rfc3339_ok := fun _ => false; prints_as_itself := fun _ => true |}.

Definition sample_snapshot : FleetSnapshot :=
  match @capture sample_digest sample_vec {| q_name := $"counsel"; q_origin := $"workspace" |} sample_document $"now" None with
  | Ok s => s
  | Err _ => {| sn_fleet := {| q_name := []; q_origin := [] |}; sn_schema_kind := []; sn_schema_revision := 0; sn_schema_hash := [];
                sn_content_hash := []; sn_members := []; sn_router := None; sn_legacy_roles := []; captured_at := [] |}
  end.


(** ** Compositions *)

Definition suggestion_key (s : RoleSuggestion) : str := to_ascii_lowercase (trim (sg_role s)).

Definition suggestion_ok (req : FleetCompositionRequest) (s : RoleSuggestion) : Prop :=
  (exists m, m ∈ pool req /\ cm_provider m = sg_provider s /\ cm_model m = sg_model s) /\
  exists w, w ∈ wanted req /\ to_ascii_lowercase (trim (wanted_role w)) = suggestion_key s.

Lemma check_suggestion_Ok req seen s seen' :
  check_suggestion req seen s = Ok seen' ->
  suggestion_ok req s /\ (suggestion_key s ∉ seen) /\ seen' = {[ suggestion_key s ]} ∪ seen.
Proof.
  unfold check_suggestion, pool_contains. rewrite !seq_Ok, !reject_if_Ok, !negb_false_iff, bool_decide_eq_false.
  intros (Hw & Hs & Hp & [= <-]). apply existsb_spec in Hw as (w & Hw & Hk%bool_decide_eq_true).
  apply existsb_spec in Hp as (m & Hm & [H1%bool_decide_eq_true H2%bool_decide_eq_true]%andb_prop).
  split_and!; [split; [exists m|exists w]; by split_and!|done|done].
Qed.

Lemma check_suggestions_Ok req seen sgs seen' :
  foldM (check_suggestion req) seen sgs = Ok seen' ->
  Forall (suggestion_ok req) sgs /\ NoDup (suggestion_key <$> sgs) /\ Forall (fun s => suggestion_key s ∉ seen) sgs.
Proof.
  revert seen. induction sgs as [|s sgs IH]; intros seen; cbn [foldM]; [intros _; split_and!; constructor|].
  rewrite bind_Ok. intros (s1 & (Hok & Hns & ->)%check_suggestion_Ok & (Ha & Hd & Hu)%IH).
  rewrite Forall_forall in Hu. split_and!; [by constructor| |].
  - rewrite fmap_cons. constructor; [|done]. intros (x & Hx & Hin)%list_elem_of_fmap. specialize (Hu x Hin). set_solver.
  - constructor; [done|]. apply Forall_forall. intros x Hin. specialize (Hu x Hin). set_solver.
Qed.

(** A proposal fills requested roles, each at most once, from the configured
    pool, and is never ratified by being made. *)
Lemma proposal_chooses_from_the_pool req sgs p :
  validate_proposal req sgs = Ok p ->
  ratification p = Unratified /\ Forall (suggestion_ok req) (suggestions p) /\ NoDup (suggestion_key <$> suggestions p) /\
  length (suggestions p) = length sgs.
Proof.
  unfold validate_proposal. rewrite bind_Ok. intros (seen & (Ha & Hd & _)%check_suggestions_Ok & [= <-]). cbn.
  split_and!; [done| | |by rewrite length_fmap].
  - apply Forall_fmap. eapply Forall_impl; [exact Ha|]. done.
  - rewrite <-list_fmap_compose. erewrite list_fmap_ext; [exact Hd|done].
Qed.
