(* ===== verification/ModelPolicy.v ===== *)
(** * The models of a workflow's roles

    [crates/workflow/src/model_policy.rs]: the capabilities a role asks for,
    the registry that resolves a role's policy to a registered model, the mock
    provider, and the repair of JSON in a model's reply.  [serde_json::from_str]
    is a parameter; [BTreeMap] is a [gmap], whose keys are never listed. *)

From S2P Require Import Text WorkflowPlan WorkflowIr WorkflowMock.

(** ** Roles and capabilities *)

Module ModelRole.
Inductive t := Planner | LeafReasoner | Implementer | Reviewer | Teacher | Student | JsonExtractor.
#[global] Instance eq_dec : EqDecision t.
Proof. solve_decision. Defined.

Definition index (r : t) : nat :=
  match r with
  | Planner => 0 | LeafReasoner => 1 | Implementer => 2 | Reviewer => 3 | Teacher => 4 | Student => 5 | JsonExtractor => 6
  end.
Definition of_index (n : nat) : option t :=
  [Planner; LeafReasoner; Implementer; Reviewer; Teacher; Student; JsonExtractor] !! n.
#[global] Instance countable : Countable t.
Proof. refine (inj_countable index of_index _). by intros []. Defined.

(** [From<AgentType>]. *)
Definition from (a : AgentType) : t :=
  match a with
  | General | Explore => LeafReasoner
  | Plan => Planner
  | Review | Verifier => Reviewer
  | WorkflowPlan.Implementer => Implementer
  end.
End ModelRole.

Record ModelCapabilities := {
  tool_calls : bool; json_mode : bool; prompt_cache : bool; large_context : bool; streaming : bool }.

Definition default_capabilities : ModelCapabilities :=
  {| tool_calls := false; json_mode := false; prompt_cache := false; large_context := false; streaming := false |}.

Definition satisfies (self required : ModelCapabilities) : bool :=
  (negb (tool_calls required) || tool_calls self)
  && (negb (json_mode required) || json_mode self)
  && (negb (prompt_cache required) || prompt_cache self)
  && (negb (large_context required) || large_context self)
  && (negb (streaming required) || streaming self).

Record ProviderModel := { pm_provider : str; pm_model : str; capabilities : ModelCapabilities }.

Inductive ModelSelectionSource := Primary | Fallback | RoleDefault.

Record ResolvedModel := {
  role : ModelRole.t; resolved_provider : str; resolved_model : str; resolved_capabilities : ModelCapabilities;
  source : ModelSelectionSource }.

Inductive ModelPolicyError :=
| MissingPolicy (role : ModelRole.t)
| MissingModel
| MissingFallbackProvider (model : str)
| NoCapableModel (role : ModelRole.t) (rejected : list str).

(** ** Candidates *)

Record ModelCandidate := { cand_provider : str; cand_model : str }.

Definition model_key (provider model : str) : str := provider ++ $"/" ++ model.

Definition candidate_from_model (default_provider : option str) (model : str) : result ModelPolicyError ModelCandidate :=
  match split_once $"/" model with
  | Some (provider, model) => Ok {| cand_provider := provider; cand_model := model |}
  | None =>
      match default_provider with
      | None => Err (MissingFallbackProvider model)
      | Some provider => Ok {| cand_provider := provider; cand_model := model |}
      end
  end.

Definition model_candidates (policy : ModelPolicy) : result ModelPolicyError (list ModelCandidate) :=
  match model policy with
  | None => Err MissingModel
  | Some primary =>
      c ← candidate_from_model (provider policy) primary;
      foldM (fun cs fallback => c ← candidate_from_model (provider policy) fallback; Ok (cs ++ [c])) [c]
        (fallback_models policy)
  end.

(** ** The registry *)

Record ProviderRegistry := { models : gmap str ProviderModel; role_policies : gmap ModelRole.t ModelPolicy }.

Definition new_registry : ProviderRegistry := {| models := ∅; role_policies := ∅ |}.

(** [insert_model], and the builder [with_model]. *)
Definition insert_model (r : ProviderRegistry) (m : ProviderModel) : ProviderRegistry :=
  {| models := <[model_key (pm_provider m) (pm_model m) := m]> (models r); role_policies := role_policies r |}.

Definition with_role_policy (r : ProviderRegistry) (role : ModelRole.t) (policy : ModelPolicy) : ProviderRegistry :=
  {| models := models r; role_policies := <[role := policy]> (role_policies r) |}.

(** The loop of [resolve_policy], from the candidate with the given source on,
    with the rejections so far. *)
Fixpoint try_candidates (r : ProviderRegistry) (role : ModelRole.t) (required : ModelCapabilities)
    (src : ModelSelectionSource) (rejected : list str) (cs : list ModelCandidate) : result ModelPolicyError ResolvedModel :=
  match cs with
  | [] => Err (NoCapableModel role rejected)
  | c :: cs =>
      match models r !! model_key (cand_provider c) (cand_model c) with
      | None =>
          try_candidates r role required Fallback
            (rejected ++ [cand_provider c ++ $"/" ++ cand_model c ++ $": unknown"]) cs
      | Some m =>
          if satisfies (capabilities m) required
          then Ok {| role := role; resolved_provider := pm_provider m; resolved_model := pm_model m;
                     resolved_capabilities := capabilities m; source := src |}
          else try_candidates r role required Fallback
                 (rejected ++ [pm_provider m ++ $"/" ++ pm_model m ++ $": missing required capabilities"]) cs
      end
  end.

Definition resolve_policy (r : ProviderRegistry) (role : ModelRole.t) (policy : ModelPolicy)
    (primary_source : ModelSelectionSource) (required : ModelCapabilities) : result ModelPolicyError ResolvedModel :=
  candidates ← model_candidates policy;
  try_candidates r role required primary_source [] candidates.

Definition resolve_role (r : ProviderRegistry) (role : ModelRole.t) (policy : option ModelPolicy)
    (required : ModelCapabilities) : result ModelPolicyError ResolvedModel :=
  '(policy, src) ← match policy with
                   | Some policy => Ok (policy, Primary)
                   | None => policy ← ok_or (role_policies r !! role) (MissingPolicy role); Ok (policy, RoleDefault)
                   end;
  resolve_policy r role policy src required.

(** ** The mock provider *)

Record CompletionRequest := {
  request_role : ModelRole.t; request_prompt : str; require_json : bool; request_policy : ModelPolicy }.
Record CompletionResponse := { text : str; response_usage : WorkflowUsage }.
Inductive ModelProviderError := ProviderFailed (provider model reason : str).

(** [trait ModelProvider]. *)
Class ModelProvider (P : Type) := {
  provider_of : P -> str;
  model_of : P -> str;
  capabilities_of : P -> ModelCapabilities;
  complete : P -> CompletionRequest -> result ModelProviderError CompletionResponse }.

Record MockModelProvider := {
  mock_provider : str; mock_model : str; mock_capabilities : ModelCapabilities; response : CompletionResponse }.

Definition new_mock (provider model : str) (capabilities : ModelCapabilities) (response : str) : MockModelProvider :=
  {| mock_provider := provider; mock_model := model; mock_capabilities := capabilities;
     response := {| text := response; response_usage := default_usage |} |}.

#[export] Instance mock_model_provider : ModelProvider MockModelProvider := {
  provider_of := mock_provider;
  model_of := mock_model;
  capabilities_of := mock_capabilities;
  complete := fun p _ => Ok (response p) }.

(** ** JSON in a reply *)

Definition quote : char := 34%N.
Definition backslash : char := 92%N.
Definition lbracket : char := 91%N.
Definition rbracket : char := 93%N.
Definition lbrace : char := 123%N.
Definition rbrace : char := 125%N.

Definition is_open (c : char) : bool := N.eqb c lbrace || N.eqb c lbracket.
Definition is_close (c : char) : bool := N.eqb c rbrace || N.eqb c rbracket.

(** The loop of [balanced_json_payload]: the part of the text it runs through
    until the stack is empty. *)
Fixpoint balanced_go (stack : list char) (in_string escaped : bool) (raw : str) : option str :=
  match raw with
  | [] => None
  | c :: raw =>
      cons c <$>
      (if in_string then
         if escaped then balanced_go stack true false raw
         else if N.eqb c backslash then balanced_go stack true true raw
         else balanced_go stack (negb (N.eqb c quote)) false raw
       else if N.eqb c quote then balanced_go stack true escaped raw
       else if is_open c then balanced_go (c :: stack) false escaped raw
       else if is_close c then
         let expected_open := if N.eqb c rbrace then lbrace else lbracket in
         match stack with
         | o :: stack =>
             if N.eqb o expected_open
             then match stack with [] => Some [] | _ => balanced_go stack false escaped raw end
             else None
         | [] => None
         end
       else balanced_go stack false escaped raw)
  end.

Definition balanced_json_payload (raw : str) : option str := balanced_go [] false false raw.

Definition JSON_REPAIR_CANDIDATE_LIMIT : nat := 64.

Section repair.
Context {Value : Type} (value_from_str : str -> result str Value).

Fixpoint first_valid_go (attempted : nat) (raw : str) : option str :=
  match raw with
  | [] => None
  | c :: rest =>
      if negb (is_open c) then first_valid_go attempted rest
      else if (JSON_REPAIR_CANDIDATE_LIMIT <? S attempted)%nat then None
      else match balanced_json_payload raw with
           | None => first_valid_go (S attempted) rest
           | Some candidate => if is_ok (value_from_str candidate) then Some candidate else first_valid_go (S attempted) rest
           end
  end.

Definition first_valid_json_payload (raw : str) : option str := first_valid_go 0 raw.

Definition FENCE : str := $"```".

Definition without_fence (trimmed : str) : str :=
  default trimmed
    (value ← match strip_prefix (FENCE ++ $"json") trimmed with Some v => Some v | None => strip_prefix FENCE trimmed end;
     trim <$> strip_suffix FENCE value).

Definition repair_json_text_once (raw : str) : str :=
  let text := without_fence (trim raw) in
  default text (first_valid_json_payload text).

Definition parse_json_with_repair {T} (from_str : str -> result str T) (raw : str) : result str T :=
  match from_str raw with
  | Ok parsed => Ok parsed
  | Err first => map_err (fun second => first ++ $"; repair failed: " ++ second) (from_str (repair_json_text_once raw))
  end.
End repair.
