(* ===== verification/ModelPolicySpec.v ===== *)
(** * Properties of model resolution and of the JSON repair *)

From S2P Require Import Text WorkflowPlan WorkflowIr WorkflowMock ModelPolicy.

(** ** Resolution *)

Section resolution.
Context (r : ProviderRegistry) (required : ModelCapabilities).

Definition registered (c : ModelCandidate) : option ProviderModel := models r !! model_key (cand_provider c) (cand_model c).

(** The registered model of a candidate, when it has what is required. *)
Definition usable (c : ModelCandidate) : option ProviderModel :=
  m ← registered c; if satisfies (capabilities m) required then Some m else None.

Definition refusal (c : ModelCandidate) : str :=
  match registered c with
  | None => cand_provider c ++ $"/" ++ cand_model c ++ $": unknown"
  | Some m => pm_provider m ++ $"/" ++ pm_model m ++ $": missing required capabilities"
  end.

Definition resolved (role : ModelRole.t) (m : ProviderModel) (src : ModelSelectionSource) : ResolvedModel :=
  {| role := role; resolved_provider := pm_provider m; resolved_model := pm_model m;
     resolved_capabilities := capabilities m; source := src |}.

(** The policy in force and what its first candidate counts as. *)
Definition policy_in_force (role : ModelRole.t) (policy : option ModelPolicy) : option (ModelPolicy * ModelSelectionSource) :=
  match policy with Some p => Some (p, Primary) | None => (fun p => (p, RoleDefault)) <$> role_policies r !! role end.

(** The names a policy lists, the primary first. *)
Definition names (p : ModelPolicy) (primary : str) : list str := primary :: fallback_models p.

(** The specification: the first usable candidate of the list, or the reasons. *)
Definition selection (role : ModelRole.t) (src : ModelSelectionSource) (cs : list ModelCandidate)
    : result ModelPolicyError ResolvedModel :=
  match position (fun c => bool_decide (is_Some (usable c))) cs with
  | Some i => ok_or (c ← cs !! i; m ← usable c; Some (resolved role m (if (i =? 0)%nat then src else Fallback)))
                (NoCapableModel role [])
  | None => Err (NoCapableModel role (refusal <$> cs))
  end.

Lemma try_candidates_spec role src rejected cs :
  try_candidates r role required src rejected cs =
  match position (fun c => bool_decide (is_Some (usable c))) cs with
  | Some i => ok_or (c ← cs !! i; m ← usable c; Some (resolved role m (if (i =? 0)%nat then src else Fallback)))
                (NoCapableModel role [])
  | None => Err (NoCapableModel role (rejected ++ (refusal <$> cs)))
  end.
Proof.
  revert src rejected. induction cs as [|c cs IH]; intros src rejected; cbn.
  - by rewrite app_nil_r.
  - assert (Hskip : usable c = None ->
      try_candidates r role required Fallback (rejected ++ [refusal c]) cs =
      match (if bool_decide (is_Some (usable c)) then Some 0%nat else S <$> position (fun c => bool_decide (is_Some (usable c))) cs) with
      | Some i => ok_or (c0 ← (c :: cs) !! i; m ← usable c0; Some (resolved role m (if (i =? 0)%nat then src else Fallback)))
                (NoCapableModel role [])
      | None => Err (NoCapableModel role (rejected ++ refusal c :: (refusal <$> cs)))
      end).
    { intros Hu. rewrite Hu, bool_decide_eq_false_2 by (by intros [? ?]). rewrite IH.
      destruct (position _ cs) as [i|]; cbn; [by destruct i|by rewrite <-app_assoc]. }
    destruct (models r !! _) as [m|] eqn:Em.
    + destruct (satisfies (capabilities m) required) eqn:Es.
      * assert (Hu : usable c = Some m) by (unfold usable, registered; by rewrite Em; cbn; rewrite Es).
        rewrite bool_decide_eq_true_2 by (by rewrite Hu). cbn. by rewrite Hu.
      * assert (Hu : usable c = None) by (unfold usable, registered; by rewrite Em; cbn; rewrite Es).
        rewrite <-(Hskip Hu). unfold refusal, registered. by rewrite Em.
    + assert (Hu : usable c = None) by (unfold usable, registered; by rewrite Em).
      rewrite <-(Hskip Hu). unfold refusal, registered. by rewrite Em.
Qed.
End resolution.

Lemma candidates_fold (p : ModelPolicy) cs ns out :
  foldM (fun cs n => c ← candidate_from_model (provider p) n; Ok (cs ++ [c])) cs ns = Ok out <->
  exists ks, out = cs ++ ks /\ Forall2 (fun n c => candidate_from_model (provider p) n = Ok c) ns ks.
Proof.
  revert cs. induction ns as [|n ns IH]; intros cs; cbn.
  - split; [intros [= <-]; exists []; by rewrite app_nil_r|]. intros (ks & -> & ->%Forall2_nil_inv_l). by rewrite app_nil_r.
  - rewrite bind_Ok. split.
    + intros (s & Hs & (ks & -> & Hk)%IH). apply bind_Ok in Hs as (c & Hc & [= <-]).
      exists (c :: ks). rewrite <-app_assoc. auto.
    + intros (ks & -> & (c & ks' & Hc & Hk & ->)%Forall2_cons_inv_l). exists (cs ++ [c]). rewrite Hc. cbn. split; [done|].
      apply IH. exists ks'. by rewrite <-app_assoc.
Qed.

Lemma model_candidates_Ok (p : ModelPolicy) cs :
  model_candidates p = Ok cs <->
  exists primary, model p = Some primary /\ Forall2 (fun n c => candidate_from_model (provider p) n = Ok c) (names p primary) cs.
Proof.
  unfold model_candidates, names. destruct (model p) as [primary|]; [|split; [done|by intros (? & [=] & _)]].
  rewrite bind_Ok. setoid_rewrite candidates_fold. split.
  - intros (c & Hc & ks & -> & Hk). exists primary. split; [done|]. by constructor.
  - intros (? & [= <-] & (c & ks & Hc & Hk & ->)%Forall2_cons_inv_l). exists c. split; [done|]. by exists ks.
Qed.

Lemma selection_Ok r required role src cs m :
  selection r required role src cs = Ok m <->
  exists i c pm, cs !! i = Some c /\ usable r required c = Some pm /\
    (forall j d, (j < i)%nat -> cs !! j = Some d -> usable r required d = None) /\
    m = resolved role pm (if (i =? 0)%nat then src else Fallback).
Proof.
  unfold selection. destruct (position _ cs) as [i|] eqn:E.
  - apply position_Some in E as (c & Hc & Hu%bool_decide_eq_true & Hb). destruct Hu as [pm Hu]. rewrite Hc. cbn. rewrite Hu. cbn.
    assert (Hb' : forall j d, (j < i)%nat -> cs !! j = Some d -> usable r required d = None).
    { intros j d Hj Hd. specialize (Hb j d Hj Hd). apply bool_decide_eq_false in Hb. by apply eq_None_not_Some. }
    split; [intros [= <-]; by exists i, c, pm|]. intros (k & d & pm' & Hd & Hu' & Hk & ->).
    assert (k = i) as ->; [|rewrite Hc in Hd; injection Hd as <-; by rewrite Hu in Hu'; injection Hu' as <-].
    destruct (Nat.lt_total k i) as [Hlt|[|Hlt]]; [|done|].
    + rewrite (Hb' k d Hlt Hd) in Hu'. done.
    + rewrite (Hk i c Hlt Hc) in Hu. done.
  - split; [done|]. intros (i & c & pm & Hc & Hu & _). rewrite position_None in E.
    apply list_elem_of_lookup_2 in Hc. specialize (E c Hc). apply bool_decide_eq_false in E. destruct E. by exists pm.
Qed.

Lemma selection_Err r required role src cs e :
  selection r required role src cs = Err e <->
  (forall c, c ∈ cs -> usable r required c = None) /\ e = NoCapableModel role (refusal r <$> cs).
Proof.
  unfold selection. destruct (position _ cs) as [i|] eqn:E.
  - apply position_Some in E as (c & Hc & Hu%bool_decide_eq_true & _). destruct Hu as [pm Hu]. rewrite Hc. cbn. rewrite Hu. cbn.
    split; [done|]. intros [H _]. apply list_elem_of_lookup_2 in Hc. rewrite (H c Hc) in Hu. done.
  - rewrite position_None in E. split; [|by intros [_ ->]]. intros [= <-]. split; [|done]. intros c Hc.
    specialize (E c Hc). apply bool_decide_eq_false in E. by apply eq_None_not_Some.
Qed.

Lemma resolve_role_spec r role policy required :
  resolve_role r role policy required =
  match policy_in_force r role policy with
  | None => Err (MissingPolicy role)
  | Some (p, src) => cs ← model_candidates p; selection r required role src cs
  end.
Proof.
  unfold resolve_role, policy_in_force, resolve_policy.
  assert (H : forall p src, (cs ← model_candidates p; try_candidates r role required src [] cs)
                            = (cs ← model_candidates p; selection r required role src cs)).
  { intros p src. destruct (model_candidates p) as [cs|]; [|done]. cbn. apply try_candidates_spec. }
  destruct policy as [p|]; [apply H|]. destruct (role_policies r !! role) as [p|]; [apply H|done].
Qed.

Lemma candidate_error p n e :
  candidate_from_model p n = Err e -> e = MissingFallbackProvider n /\ p = None /\ forall a b, n <> a ++ $"/" ++ b.
Proof.
  unfold candidate_from_model. destruct (split_once _ n) as [[a b]|] eqn:E; [done|]. destruct p; [done|].
  intros [= <-]. by rewrite split_once_None in E.
Qed.

Lemma candidates_fold_Err (p : ModelPolicy) cs ns e :
  foldM (fun cs n => c ← candidate_from_model (provider p) n; Ok (cs ++ [c])) cs ns = Err e ->
  exists n, n ∈ ns /\ candidate_from_model (provider p) n = Err e.
Proof.
  revert cs. induction ns as [|n ns IH]; intros cs; cbn; [done|]. rewrite bind_Err. intros [H|(s & _ & (n' & Hn & He)%IH)].
  - apply bind_Err in H as [H|(c & _ & [=])]. exists n. split; [by left|done].
  - exists n'. split; [by right|done].
Qed.

Lemma model_candidates_Err (p : ModelPolicy) e :
  model_candidates p = Err e ->
  (model p = None /\ e = MissingModel) \/
  exists primary n, model p = Some primary /\ n ∈ names p primary /\ candidate_from_model (provider p) n = Err e.
Proof.
  unfold model_candidates. destruct (model p) as [primary|]; [|intros [= <-]; by left]. intros H. right. exists primary.
  apply bind_Err in H as [H|(c & _ & (n & Hn & H)%candidates_fold_Err)].
  - exists primary. split_and!; [done|by left|done].
  - exists n. split_and!; [done|by right|done].
Qed.

(** a role resolves to the first of its policy's candidates, the primary
    first, that is registered and has every required capability; it counts as
    the primary (or the role's default) only in the first place.  When all the
    candidates have names and none of them qualifies the error gives one reason
    for each, in order.  Every other error is a missing policy, a policy
    without a model, or a name without a provider. *)
Theorem resolution_takes_the_first_capable r role policy required :
  (forall m, resolve_role r role policy required = Ok m <->
     exists p src primary cs i c pm,
       policy_in_force r role policy = Some (p, src) /\ model p = Some primary /\
       Forall2 (fun n c => candidate_from_model (provider p) n = Ok c) (names p primary) cs /\
       cs !! i = Some c /\ usable r required c = Some pm /\
       (forall j d, (j < i)%nat -> cs !! j = Some d -> usable r required d = None) /\
       m = resolved role pm (if (i =? 0)%nat then src else Fallback)) /\
  (forall role' reasons, resolve_role r role policy required = Err (NoCapableModel role' reasons) <->
     exists p src primary cs,
       policy_in_force r role policy = Some (p, src) /\ model p = Some primary /\
       Forall2 (fun n c => candidate_from_model (provider p) n = Ok c) (names p primary) cs /\
       (forall c, c ∈ cs -> usable r required c = None) /\ role' = role /\ reasons = refusal r <$> cs) /\
  (forall n, resolve_role r role policy required = Err (MissingFallbackProvider n) ->
     exists p src primary, policy_in_force r role policy = Some (p, src) /\ model p = Some primary /\
       n ∈ names p primary /\ provider p = None /\ forall a b, n <> a ++ $"/" ++ b).
Proof.
  rewrite resolve_role_spec. destruct (policy_in_force r role policy) as [[p src]|]; [|naive_solver].
  split_and!.
  - intros m. rewrite bind_Ok. setoid_rewrite model_candidates_Ok. setoid_rewrite selection_Ok. split.
    + intros (cs & (primary & Hm & Hf) & i & c & pm & H). by exists p, src, primary, cs, i, c, pm.
    + intros (p' & src' & primary & cs & i & c & pm & [= <- <-] & Hm & Hf & H). exists cs. split; [by exists primary|].
      by exists i, c, pm.
  - intros role' reasons. rewrite bind_Err. split.
    + intros [H|(cs & (primary & Hm & Hf)%model_candidates_Ok & (Hn & [= -> ->])%selection_Err)].
      * by apply model_candidates_Err in H as [[_ [=]]|(? & n & _ & _ & ([=] & _)%candidate_error)].
      * by exists p, src, primary, cs.
    + intros (p' & src' & primary & cs & [= <- <-] & Hm & Hf & Hn & -> & ->). right. exists cs.
      split; [apply model_candidates_Ok; by exists primary|by apply selection_Err].
  - intros n. rewrite bind_Err. intros [H|(cs & _ & (_ & [=])%selection_Err)].
    apply model_candidates_Err in H as [[_ [=]]|(primary & n' & Hm & Hn & ([= <-] & Hp & Hs)%candidate_error)].
    by exists p, src, primary.
Qed.


(** ** Balanced text *)

Definition closer (o : char) : char := if N.eqb o lbrace then rbrace else rbracket.

(** The rest of a string literal, from inside it on, its closing quote included. *)
Inductive literal_tail : bool -> str -> Prop :=
| tail_end : literal_tail false [quote]
| tail_escape s : literal_tail true s -> literal_tail false (backslash :: s)
| tail_escaped c s : literal_tail false s -> literal_tail true (c :: s)
| tail_char c s : c <> quote -> c <> backslash -> literal_tail false s -> literal_tail false (c :: s).

(** Text whose containers outside its literals are closed in order. *)
Inductive body : str -> Prop :=
| body_nil : body []
| body_char c s : c <> quote -> is_open c = false -> is_close c = false -> body s -> body (c :: s)
| body_literal q s : literal_tail false q -> body s -> body (quote :: q ++ s)
| body_container o t s : is_open o = true -> body t -> body s -> body (o :: t ++ closer o :: s).

Definition container (t : str) : Prop := exists o b, is_open o = true /\ body b /\ t = o :: b ++ [closer o].

(** What closes a stack of open containers. *)
Inductive closes : list char -> str -> Prop :=
| closes_nil : closes [] []
| closes_cons o st b s : body b -> closes st s -> closes (o :: st) (b ++ closer o :: s).

Lemma closes_char o st c s :
  c <> quote -> is_open c = false -> is_close c = false -> closes (o :: st) s -> closes (o :: st) (c :: s).
Proof.
  intros Hq Ho Hc H. inversion H as [|? ? b s' Hb Hs]; subst. change (c :: b ++ closer o :: s') with ((c :: b) ++ closer o :: s').
  constructor; [by constructor|done].
Qed.

Lemma closes_literal o st q s : literal_tail false q -> closes (o :: st) s -> closes (o :: st) (quote :: q ++ s).
Proof.
  intros Hq H. inversion H as [|? ? b s' Hb Hs]; subst. rewrite app_assoc. apply (closes_cons o st (quote :: q ++ b)); [|done].
  by constructor.
Qed.

Lemma closes_open o st p s : is_open p = true -> closes (p :: o :: st) s -> closes (o :: st) (p :: s).
Proof.
  intros Hp H. inversion H as [|? ? b s' Hb Hs]; subst. inversion Hs as [|? ? b' s'' Hb' Hs']; subst.
  apply (closes_cons o st (p :: b ++ closer p :: b')) in Hs'; [|by constructor]. cbn in Hs'. by rewrite <-app_assoc in Hs'.
Qed.

Definition well_opened (st : list char) : Prop := Forall (fun o => is_open o = true) st.

Lemma is_open_cases o : is_open o = true <-> o = lbrace \/ o = lbracket.
Proof. unfold is_open. rewrite orb_true_iff, !N.eqb_eq. done. Qed.
Lemma is_close_cases c : is_close c = true <-> c = rbrace \/ c = rbracket.
Proof. unfold is_close. rewrite orb_true_iff, !N.eqb_eq. done. Qed.

(** A closer that agrees with the innermost opener is that opener's. *)
Lemma closer_matches o c :
  is_open o = true -> is_close c = true -> N.eqb o (if N.eqb c rbrace then lbrace else lbracket) = N.eqb c (closer o).
Proof. intros [->| ->]%is_open_cases [->| ->]%is_close_cases; done. Qed.

Lemma closer_is_close o : is_close (closer o) = true.
Proof. unfold closer. by destruct (N.eqb o lbrace). Qed.

(** A text the loop stops in closes its stack. *)
Lemma balanced_go_sound st instr esc raw t :
  well_opened st -> st <> [] -> (instr = false -> esc = false) -> balanced_go st instr esc raw = Some t ->
  (if instr then exists q s, literal_tail esc q /\ closes st s /\ t = q ++ s else closes st t) /\ exists rest, raw = t ++ rest.
Proof.
  revert st instr esc t. induction raw as [|c raw IH]; intros st instr esc t Hw Hne He; cbn [balanced_go]; [done|].
  intros (t' & Ht & ->)%fmap_Some. destruct instr.
  - destruct esc.
    + apply IH in Ht as ((q & s & Hq & Hs & ->) & rest & ->); [|done..]. split; [|by exists rest].
      exists (c :: q), s. split_and!; [by constructor|done|done].
    + destruct (N.eqb_spec c backslash) as [->|Hb].
      * apply IH in Ht as ((q & s & Hq & Hs & ->) & rest & ->); [|done..]. split; [|by exists rest].
        exists (backslash :: q), s. split_and!; [by constructor|done|done].
      * destruct (N.eqb_spec c quote) as [->|Hq'].
        { apply IH in Ht as (Hs & rest & ->); [|done..]. split; [|by exists rest].
          exists [quote], t'. split_and!; [constructor|done|done]. }
        apply IH in Ht as ((q & s & Hq & Hs & ->) & rest & ->); [|done..]. split; [|by exists rest].
        exists (c :: q), s. split_and!; [by constructor|done|done].
  - rewrite (He eq_refl) in Ht. destruct st as [|o st]; [done|]. apply Forall_cons_1 in Hw as [Ho Hw].
    destruct (N.eqb_spec c quote) as [->|Hq].
    { apply IH in Ht as ((q & s & Hl & Hs & ->) & rest & ->); [|by constructor|done..]. split; [|by exists rest].
      by apply closes_literal. }
    destruct (is_open c) eqn:Hoc.
    { apply IH in Ht as (Hs & rest & ->); [|by repeat constructor|done..]. split; [|by exists rest]. by apply closes_open. }
    destruct (is_close c) eqn:Hcc.
    + rewrite closer_matches in Ht by done. destruct (N.eqb_spec c (closer o)) as [->|]; [|done]. destruct st as [|o' st].
      * injection Ht as <-. split; [apply (closes_cons o [] []); constructor|by exists raw].
      * apply IH in Ht as (Hs & rest & ->); [|done..]. split; [|by exists rest]. apply (closes_cons o _ []); [constructor|done].
    + apply IH in Ht as (Hs & rest & ->); [|by constructor|done..]. split; [|by exists rest]. by apply closes_char.
Qed.

Lemma literal_run st e q s :
  literal_tail e q -> balanced_go st true e (q ++ s) = app q <$> balanced_go st false false s.
Proof.
  induction 1 as [|q Hq IH|c q Hq IH|c q Hc Hb Hq IH]; cbn.
  - reflexivity.
  - rewrite IH. by destruct (balanced_go st false false s).
  - rewrite IH. by destruct (balanced_go st false false s).
  - rewrite (proj2 (N.eqb_neq c backslash)), (proj2 (N.eqb_neq c quote)) by done. cbn [negb]. rewrite IH. by destruct (balanced_go st false false s).
Qed.

Lemma open_not_quote o : is_open o = true -> N.eqb o quote = false.
Proof. by intros [->| ->]%is_open_cases. Qed.

Lemma close_step o st s :
  is_open o = true ->
  balanced_go (o :: st) false false (closer o :: s) =
  cons (closer o) <$> match st with [] => Some [] | _ => balanced_go st false false s end.
Proof. by intros [->| ->]%is_open_cases. Qed.

Lemma body_run b : body b -> forall o st s, is_open o = true ->
  balanced_go (o :: st) false false (b ++ s) = app b <$> balanced_go (o :: st) false false s.
Proof.
  induction 1 as [|c b Hq Ho' Hc Hb IH|q b Hq Hb IH|p t b Hp Ht IHt Hb IHb]; intros o st s Ho.
  - cbn [app]. by destruct (balanced_go (o :: st) false false s).
  - cbn [app balanced_go]. rewrite (proj2 (N.eqb_neq c quote)), Ho', Hc by done. rewrite IH by done. by destruct (balanced_go (o :: st) false false s).
  - cbn [app balanced_go]. rewrite N.eqb_refl, <-app_assoc, literal_run, IH by done. destruct (balanced_go (o :: st) false false s); cbn; [by rewrite <-app_assoc|done].
  - cbn [app balanced_go]. rewrite open_not_quote, Hp by done. rewrite <-app_assoc, IHt by done. cbn [app]. rewrite close_step, IHb by done.
    destruct (balanced_go (o :: st) _ _ s); cbn; [|done]. by rewrite <-app_assoc.
Qed.

(** From an opener on, the payload is the container that starts there. *)
Lemma balanced_payload_spec o raw t :
  is_open o = true ->
  balanced_json_payload (o :: raw) = Some t <-> container t /\ exists rest, o :: raw = t ++ rest.
Proof.
  intros Ho. unfold balanced_json_payload. split.
  - cbn [balanced_go]. rewrite open_not_quote, Ho by done. intros (t' & Ht & ->)%fmap_Some.
    apply balanced_go_sound in Ht as (Hs & rest & ->); [|by repeat constructor|done..]. split; [|by exists rest].
    inversion Hs as [|? ? b s Hb Hs']; subst. inversion Hs'; subst. by exists o, b.
  - intros ((p & b & Hp & Hb & ->) & rest & [= <- ->]). cbn [balanced_go]. rewrite open_not_quote, Ho by done.
    rewrite <-app_assoc, body_run by done. cbn [app]. by rewrite close_step.
Qed.

(** ** The repair *)

Lemma trim_start_keep a c s : is_whitespace c = false -> trim_start (a ++ c :: s) = trim_start a ++ c :: s.
Proof.
  intros Hc. unfold trim_start. induction a as [|d a IH]; cbn; [by rewrite Hc|]. destruct (is_whitespace d); [apply IH|done].
Qed.

Section repair.
Context {Value : Type} (value_from_str : str -> result str Value).

Definition opens_nothing (s : str) : Prop := Forall (fun c => is_open c = false) s.

Lemma first_valid_go_prefix n a s :
  opens_nothing a -> first_valid_go value_from_str n (a ++ s) = first_valid_go value_from_str n s.
Proof. induction 1 as [|c a Hc Ha IH]; [done|]. cbn [app first_valid_go]. by rewrite Hc. Qed.

Lemma first_valid_at n t rest :
  (n < JSON_REPAIR_CANDIDATE_LIMIT)%nat -> container t -> is_ok (value_from_str t) = true ->
  first_valid_go value_from_str n (t ++ rest) = Some t.
Proof.
  intros Hn Ht Hv. destruct Ht as (o & b & Ho & Hb & ->). cbn [app first_valid_go]. rewrite Ho. cbn [negb].
  rewrite (proj2 (Nat.ltb_ge _ _)) by lia.
  rewrite (proj2 (balanced_payload_spec o _ (o :: b ++ [closer o]) Ho)); [by rewrite Hv|].
  split; [by exists o, b|]. exists rest. done.
Qed.

End repair.

Lemma container_ends t : container t -> exists o r, is_open o = true /\ t = o :: r /\ exists r', t = r' ++ [closer o].
Proof. intros (o & b & Ho & _ & ->). exists o, (b ++ [closer o]). split_and!; [done..|]. by exists (o :: b). Qed.

Lemma open_visible o : is_open o = true -> is_whitespace o = false /\ is_whitespace (closer o) = false.
Proof. by intros [->| ->]%is_open_cases. Qed.

Lemma trim_keeps a t z :
  opens_nothing a -> container t -> exists a' z', trim (a ++ t ++ z) = a' ++ t ++ z' /\ opens_nothing a'.
Proof.
  intros Ha (o & r & Ho & E & r' & E')%container_ends. apply open_visible in Ho as [Hw Hw'].
  assert (Hs : trim_start (a ++ t ++ z) = trim_start a ++ t ++ z).
  { rewrite E. cbn [app]. by rewrite trim_start_keep. }
  assert (He : forall s, trim_end (s ++ t ++ z) = s ++ t ++ trim_end z).
  { intros s. rewrite E'. unfold trim_end. rewrite !rev_app_distr. cbn [rev app]. rewrite <-!app_assoc. cbn [app].
    rewrite trim_start_keep by done. rewrite !rev_app_distr. cbn [rev]. by rewrite rev_app_distr, !rev_involutive, <-!app_assoc. }
  exists (trim_start a), (trim_end z). unfold trim. rewrite Hs, He. split; [done|].
  destruct (trim_start_spec a) as (pre & Hp & _). unfold opens_nothing in *. rewrite Hp in Ha. by apply Forall_app in Ha as [_ Ha].
Qed.

Lemma strip_prefix_keeps p a t z v :
  opens_nothing p -> opens_nothing a -> container t -> strip_prefix p (a ++ t ++ z) = Some v ->
  exists a', v = a' ++ t ++ z /\ opens_nothing a'.
Proof.
  intros Hp Ha (o & r & Ho & -> & _)%container_ends H%strip_prefix_Some.
  apply app_eq_inv in H as [(k & -> & ->)|(k & -> & Hk)].
  - exists k. split; [done|]. by apply Forall_app in Ha as [_ Ha].
  - destruct k as [|c k].
    + exists []. split; [exact (eq_sym Hk)|constructor].
    + injection Hk as <- _. apply Forall_app in Hp as [_ Hp]. apply Forall_cons_1 in Hp as [Hp _]. congruence.
Qed.

Lemma strip_suffix_keeps a t z v :
  container t -> strip_suffix FENCE (a ++ t ++ z) = Some v -> exists z', v = a ++ t ++ z'.
Proof.
  intros (o & r & Ho & _ & r' & ->)%container_ends H%strip_suffix_Some. rewrite app_assoc in H. symmetry in H.
  apply app_eq_inv in H as [(k & -> & Hk)|(k & Hw & Hk)].
  - exists k. by rewrite <-app_assoc.
  - exists []. destruct k as [|c k' _] using rev_ind; [by rewrite app_nil_r in Hw; rewrite app_nil_r|exfalso].
    rewrite !app_assoc in Hw. apply app_inj_2 in Hw as [_ [= <-]]; [|done].
    assert (Hf : Forall (fun c => is_close c = false) FENCE) by (repeat constructor).
    rewrite Hk, !Forall_app, Forall_singleton, closer_is_close in Hf. naive_solver.
Qed.

Lemma fence_opens_nothing : opens_nothing FENCE /\ opens_nothing (FENCE ++ $"json").
Proof. split; repeat constructor. Qed.

Lemma without_fence_keeps a t z :
  opens_nothing a -> container t -> exists a' z', without_fence (a ++ t ++ z) = a' ++ t ++ z' /\ opens_nothing a'.
Proof.
  intros Ha Ht. unfold without_fence. destruct fence_opens_nothing as [Hf Hf'].
  destruct (match strip_prefix (FENCE ++ _) _ with Some v => Some v | None => _ end) as [v|] eqn:E; cbn; [|by exists a, z].
  assert (Hv : exists a', v = a' ++ t ++ z /\ opens_nothing a').
  { destruct (strip_prefix (FENCE ++ _) _) as [w|] eqn:Ep; [injection E as <-; apply (strip_prefix_keeps _ a t z w Hf' Ha Ht Ep)|].
    apply (strip_prefix_keeps _ a t z v Hf Ha Ht E). }
  destruct Hv as (a' & -> & Ha'). destruct (strip_suffix _ _) as [w|] eqn:Es; cbn; [|by exists a, z].
  apply strip_suffix_keeps in Es as [z' ->]; [|done]. by apply trim_keeps.
Qed.

(** The fence and the whitespace around it go, nothing else does. *)
Lemma without_fence_part s : exists a z, s = a ++ without_fence (trim s) ++ z.
Proof.
  assert (Ht : forall s, exists a z, s = a ++ trim s ++ z).
  { intros u. destruct (trim_start_spec u) as (a & Hu & _), (trim_end_spec (trim_start u)) as (z & Hz & _).
    exists a, z. rewrite Hu at 1. f_equal. exact Hz. }
  destruct (Ht s) as (a & z & Hs). unfold without_fence.
  destruct (match strip_prefix (FENCE ++ _) _ with Some v => Some v | None => _ end) as [v|] eqn:E; cbn; [|by exists a, z].
  assert (Hv : exists p, trim s = p ++ v).
  { destruct (strip_prefix (FENCE ++ _) _) as [w|] eqn:Ep; [injection E as <-; rename Ep into E|];
      apply strip_prefix_Some in E; eauto. }
  destruct (strip_suffix _ _) as [w|] eqn:Es; cbn; [|by exists a, z]. apply strip_suffix_Some in Es as ->. destruct Hv as [p Hp].
  destruct (Ht w) as (a' & z' & Hw). exists (a ++ p ++ a'), (z' ++ FENCE ++ z). rewrite Hs, Hp at 1. rewrite Hw at 1.
  by rewrite <-!app_assoc.
Qed.

Lemma first_valid_go_Some {Value} (value_from_str : str -> result str Value) n s t :
  first_valid_go value_from_str n s = Some t ->
  container t /\ is_ok (value_from_str t) = true /\ exists a z, s = a ++ t ++ z.
Proof.
  revert n. induction s as [|c s IH]; intros n; cbn [first_valid_go]; [done|].
  assert (Hskip : forall k, first_valid_go value_from_str k s = Some t ->
            container t /\ is_ok (value_from_str t) = true /\ exists a z, c :: s = a ++ t ++ z).
  { intros k (Hc & Hv & a & z & ->)%IH. split_and!; [done..|]. by exists (c :: a), z. }
  destruct (is_open c) eqn:Ho; cbn [negb]; [|apply Hskip]. destruct (_ <? _)%nat; [done|].
  destruct (balanced_json_payload (c :: s)) as [u|] eqn:E; [|apply Hskip].
  destruct (is_ok (value_from_str u)) eqn:Hv; [|apply Hskip]. intros [= <-].
  apply balanced_payload_spec in E as [Hc [z Hz]]; [|done]. split_and!; [done..|]. by exists [], z.
Qed.
(** C39: the repair of a reply only cuts it: the repaired text is a part of the
    reply, either what is inside its code fence or a closed container in it
    that parses.  A container that parses is found whatever follows it, as long
    as no bracket comes before it, and through whitespace, a fence and prose;
    the reply is then read as that container unless it parses as a whole. *)
Theorem embedded_json_is_recovered {Value T : Type} (value_from_str : str -> result str Value) (from_str : str -> result str T) :
  (forall raw, (exists a z, raw = a ++ repair_json_text_once value_from_str raw ++ z) /\
     (repair_json_text_once value_from_str raw = without_fence (trim raw) \/
      (container (repair_json_text_once value_from_str raw) /\
       is_ok (value_from_str (repair_json_text_once value_from_str raw)) = true))) /\
  (forall before t after, opens_nothing before -> container t -> is_ok (value_from_str t) = true ->
     repair_json_text_once value_from_str (before ++ t ++ after) = t /\
     forall v, from_str t = Ok v ->
       parse_json_with_repair value_from_str from_str (before ++ t ++ after)
       = match from_str (before ++ t ++ after) with Ok w => Ok w | Err _ => Ok v end).
Proof.
  split.
  - intros raw. destruct (without_fence_part raw) as (a & z & Hr). unfold repair_json_text_once, first_valid_json_payload.
    destruct (first_valid_go _ _ _) as [t|] eqn:E; cbn; [|split; [by exists a, z|by left]].
    apply first_valid_go_Some in E as (Hc & Hv & a' & z' & Hw). split; [|by right].
    exists (a ++ a'), (z' ++ z). rewrite Hr at 1. rewrite Hw at 1. by rewrite <-!app_assoc.
  - intros before t after Hb Ht Hv.
    assert (Hrep : repair_json_text_once value_from_str (before ++ t ++ after) = t).
    { destruct (trim_keeps before t after Hb Ht) as (a & z & E & Ha). unfold repair_json_text_once. rewrite E.
      destruct (without_fence_keeps a t z Ha Ht) as (a' & z' & -> & Ha'). unfold first_valid_json_payload.
      rewrite first_valid_go_prefix by done. rewrite first_valid_at by (done || unfold JSON_REPAIR_CANDIDATE_LIMIT; lia). done. }
    split; [done|]. intros v Hfrom. unfold parse_json_with_repair. rewrite Hrep, Hfrom. by destruct (from_str (before ++ t ++ after)).
Qed.

(** ** Examples *)

Definition plain_model (p m : string) (json : bool) : ProviderModel :=
  {| pm_provider := lit p; pm_model := lit m;
     capabilities := {| tool_calls := false; json_mode := json; prompt_cache := false; large_context := false; streaming := false |} |}.
Definition wants_json : ModelCapabilities :=
  {| tool_calls := false; json_mode := true; prompt_cache := false; large_context := false; streaming := false |}.
Definition sample_registry : ProviderRegistry :=
  insert_model (insert_model new_registry (plain_model "mock" "plain" false)) (plain_model "mock" "json" true).
Definition sample_policy (p : option str) (m : string) (fallbacks : list str) : ModelPolicy :=
  {| provider := p; model := Some (lit m); fallback_models := fallbacks |}.

Definition summary (m : result ModelPolicyError ResolvedModel) : option (str * str * ModelSelectionSource) :=
  match m with Ok m => Some (resolved_provider m, resolved_model m, source m) | Err _ => None end.

Example fallback_is_chosen :
  summary (resolve_role sample_registry ModelRole.Reviewer (Some (sample_policy (Some $"mock") "plain" [$"json"])) wants_json)
  = Some ($"mock", $"json", Fallback).
Proof. vm_compute. reflexivity. Qed.

Example reasons_are_listed :
  resolve_role sample_registry ModelRole.Reviewer (Some (sample_policy (Some $"mock") "plain" [$"other"])) wants_json
  = Err (NoCapableModel ModelRole.Reviewer [$"mock/plain: missing required capabilities"; $"mock/other: unknown"]).
Proof. vm_compute. reflexivity. Qed.

(** A fallback without a provider refuses the policy although the primary
    qualifies. *)
Example unused_fallback_refuses_the_policy :
  resolve_role sample_registry ModelRole.Reviewer (Some (sample_policy None "mock/json" [$"plain"])) wants_json
  = Err (MissingFallbackProvider $"plain").
Proof. vm_compute. reflexivity. Qed.

(** A model whose own name holds a slash cannot be named under its provider:
    the slash ends the provider's name, whatever the policy's provider is. *)
Example slash_overrides_the_provider :
  let reg := insert_model (insert_model new_registry (plain_model "openrouter" "vendor/large" true))
               (plain_model "vendor" "large" true) in
  summary (resolve_role reg ModelRole.Planner (Some (sample_policy (Some $"openrouter") "vendor/large" [])) wants_json)
  = Some ($"vendor", $"large", Primary) /\
  resolve_role (insert_model new_registry (plain_model "openrouter" "vendor/large" true)) ModelRole.Planner
    (Some (sample_policy (Some $"openrouter") "vendor/large" [])) wants_json
  = Err (NoCapableModel ModelRole.Planner [$"vendor/large: unknown"]).
Proof. vm_compute. done. Qed.

(** The key joins the names by a slash, so two models can share one: the second
    registration replaces the first, and a candidate can resolve to a provider
    it does not name. *)
Example keys_collide :
  let reg := insert_model (insert_model new_registry (plain_model "a" "b/c" true)) (plain_model "a/b" "c" true) in
  size (models reg) = 1%nat /\
  summary (resolve_role reg ModelRole.Planner (Some (sample_policy None "a/b/c" [])) wants_json) = Some ($"a/b", $"c", Primary).
Proof. vm_compute. done. Qed.

(** A text of containers as [serde_json] could accept it, for the examples. *)
Definition any_value (s : str) : result str unit := Ok tt.

Example fenced_payload :
  repair_json_text_once any_value ($"```json" ++ [10%N] ++ $"Here it is: [1, 2] and more" ++ [10%N] ++ $"```") = $"[1, 2]".
Proof. vm_compute. reflexivity. Qed.

(** Behind as many unclosed brackets as the limit counts, a payload is not found. *)
Example flood_hides_the_payload :
  repair_json_text_once any_value (replicate 63 lbrace ++ $"[1]") = $"[1]" /\
  repair_json_text_once any_value (replicate 64 lbrace ++ $"[1]") = replicate 64 lbrace ++ $"[1]".
Proof. vm_compute. done. Qed.
