(* ===== verification/ToolHistory.v ===== *)
(** * Repair of a persisted tool history

    [crates/tui/src/tool_history_repair.rs] over the messages of
    [crates/tui/src/models.rs].  Vectors are lists, a [HashMap] and a [HashSet]
    are a [gmap] and a [gset]; message indices are [nat] (a vector's index),
    ordinals keep the saturating addition of [usize]. *)

From S2P Require Import Text Json PromptReanchor ToolDispatch.

(** ** Messages *)

Record ImageUrlContent := { url : str }.

Inductive ContentBlock :=
| TextBlock (text : str) (cache_control : option CacheControl)
| ImageUrl (image_url : ImageUrlContent)
| Thinking (thinking : str) (signature : option str)
| ToolUse (id name : str) (input : Value) (caller : option ToolCaller)
| ToolResult (tool_use_id content : str) (is_error : option bool) (content_blocks : option (list Value))
| ServerToolUse (id name : str) (input : Value)
| ToolSearchToolResult (tool_use_id : str) (content : Value)
| CodeExecutionToolResult (tool_use_id : str) (content : Value).

Record Message := { msg_role : str; msg_content : list ContentBlock }.

(** ** The receipt *)

Definition CRASH_REPAIR_CONTENT : str :=
  $"Tool call interrupted by process exit; terminal status: crashed_and_repaired.".

Record ToolRepairReceipt := {
  repaired_call_ids : list str; duplicate_result_ids : list str; orphan_result_ids : list str }.

Definition list_is_empty {A} (l : list A) : bool := match l with [] => true | _ => false end.

Definition receipt_is_empty (r : ToolRepairReceipt) : bool :=
  list_is_empty (repaired_call_ids r) && list_is_empty (duplicate_result_ids r) && list_is_empty (orphan_result_ids r).

Definition visible_message (r : ToolRepairReceipt) : str :=
  $"[tool_history_repair] Repaired " ++ display_u (zlen (repaired_call_ids r))
  ++ $" crashed tool call(s); quarantined " ++ display_u (zlen (duplicate_result_ids r)) ++ $" duplicate and "
  ++ display_u (zlen (orphan_result_ids r)) ++ $" orphan terminal result(s).".

(** ** The calls of a history *)

Definition is_assistant (m : Message) : bool := bool_decide (msg_role m = $"assistant").

(** [call_message_by_id] and [call_ids_in_order]. *)
Definition Calls : Type := gmap str nat * list str.

Definition note_call (message_index : nat) (s : Calls) (b : ContentBlock) : Calls :=
  match b with
  | ToolUse id _ _ _ =>
      if bool_decide (is_Some (s.1 !! id)) then s else (<[id := message_index]> s.1, s.2 ++ [id])
  | _ => s
  end.

Definition note_calls (s : Calls) (im : nat * Message) : Calls :=
  if is_assistant im.2 then foldl (note_call im.1) s (msg_content im.2) else s.

(** [iter().enumerate()], from an index on. *)
Fixpoint enumerate_from {A} (i : nat) (l : list A) : list (nat * A) :=
  match l with [] => [] | x :: l => (i, x) :: enumerate_from (S i) l end.

Definition enumerate {A} (l : list A) : list (nat * A) := enumerate_from 0 l.

Definition collect_calls (messages : list Message) : Calls := foldl note_calls (∅, []) (enumerate messages).

(** ** The results of a history *)

Record Results := {
  retained_results : gset str; duplicates : list str; orphans : list str; keep_results : gset Z;
  result_ordinal : Z; latest_assistant : option nat }.

Definition no_results : Results :=
  {| retained_results := ∅; duplicates := []; orphans := []; keep_results := ∅; result_ordinal := 0;
     latest_assistant := None |}.

Definition follows_known_call (calls : gmap str nat) (message_index : nat) (latest : option nat) (id : str) : bool :=
  match calls !! id with
  | Some call_index => (call_index <? message_index)%nat && bool_decide (latest = Some call_index)
  | None => false
  end.

Definition note_result (calls : gmap str nat) (message_index : nat) (s : Results) (b : ContentBlock) : Results :=
  match b with
  | ToolResult id _ _ _ =>
      let ordinal := result_ordinal s in
      let next := usize_saturating_add ordinal 1 in
      if negb (follows_known_call calls message_index (latest_assistant s) id) then
        {| retained_results := retained_results s; duplicates := duplicates s; orphans := orphans s ++ [id];
           keep_results := keep_results s; result_ordinal := next; latest_assistant := latest_assistant s |}
      else if bool_decide (id ∈ retained_results s) then
        {| retained_results := retained_results s; duplicates := duplicates s ++ [id]; orphans := orphans s;
           keep_results := keep_results s; result_ordinal := next; latest_assistant := latest_assistant s |}
      else
        {| retained_results := {[ id ]} ∪ retained_results s; duplicates := duplicates s; orphans := orphans s;
           keep_results := {[ ordinal ]} ∪ keep_results s; result_ordinal := next; latest_assistant := latest_assistant s |}
  | _ => s
  end.

Definition note_results (calls : gmap str nat) (s : Results) (im : nat * Message) : Results :=
  let s := if is_assistant im.2
           then {| retained_results := retained_results s; duplicates := duplicates s; orphans := orphans s;
                   keep_results := keep_results s; result_ordinal := result_ordinal s; latest_assistant := Some im.1 |}
           else s in
  foldl (note_result calls im.1) s (msg_content im.2).

Definition collect_results (calls : gmap str nat) (messages : list Message) : Results :=
  foldl (note_results calls) no_results (enumerate messages).

(** ** The rebuilt history *)

(** [missing_after_message]. *)
Definition missing_after (repaired : gset str) (m : Message) : list str :=
  if is_assistant m
  then omap (fun b => match b with ToolUse id _ _ _ => if bool_decide (id ∈ repaired) then Some id else None | _ => None end)
         (msg_content m)
  else [].

(** [filtered.content.retain(..)], with [seen_result_ordinal]. *)
Fixpoint retain_results (keep : gset Z) (seen : Z) (bs : list ContentBlock) : list ContentBlock * Z :=
  match bs with
  | [] => ([], seen)
  | ToolResult _ _ _ _ as b :: bs =>
      let '(out, seen') := retain_results keep (usize_saturating_add seen 1) bs in
      (if bool_decide (seen ∈ keep) then b :: out else out, seen')
  | b :: bs => let '(out, seen') := retain_results keep seen bs in (b :: out, seen')
  end.

Definition synthetic_result (id : str) : ContentBlock := ToolResult id CRASH_REPAIR_CONTENT (Some true) None.
Definition synthetic_message (missing : list str) : Message :=
  {| msg_role := $"user"; msg_content := synthetic_result <$> missing |}.

(** One message of the second loop: what it pushes. *)
Definition rebuild_message (repaired : gset str) (keep : gset Z) (seen : Z) (m : Message) : list Message * Z :=
  let missing := missing_after repaired m in
  let '(content, seen) := retain_results keep seen (msg_content m) in
  ((match content with [] => [] | _ => [{| msg_role := msg_role m; msg_content := content |}] end)
     ++ (match missing with [] => [] | _ => [synthetic_message missing] end), seen).

Fixpoint rebuild (repaired : gset str) (keep : gset Z) (seen : Z) (ms : list Message) : list Message :=
  match ms with
  | [] => []
  | m :: ms => let '(out, seen) := rebuild_message repaired keep seen m in out ++ rebuild repaired keep seen ms
  end.

Definition receipt_message (r : ToolRepairReceipt) : Message :=
  {| msg_role := $"assistant"; msg_content := [TextBlock (visible_message r) None] |}.

Definition repair_tool_call_pairs_inner (messages : list Message) (append_visible_receipt : bool)
    : list Message * ToolRepairReceipt :=
  let calls := collect_calls messages in
  let results := collect_results calls.1 messages in
  let repaired := retain (fun id => negb (bool_decide (id ∈ retained_results results))) calls.2 in
  let receipt := {| repaired_call_ids := repaired; duplicate_result_ids := duplicates results;
                    orphan_result_ids := orphans results |} in
  if receipt_is_empty receipt then (messages, receipt)
  else (rebuild (list_to_set repaired) (keep_results results) 0 messages
          ++ (if append_visible_receipt then [receipt_message receipt] else []), receipt).

Definition repair_tool_call_pairs (messages : list Message) : list Message * ToolRepairReceipt :=
  repair_tool_call_pairs_inner messages true.

Definition repair_tool_call_pairs_for_provider (messages : list Message) : list Message * ToolRepairReceipt :=
  repair_tool_call_pairs_inner messages false.

(** ** Examples *)

Definition call (id : string) : ContentBlock := ToolUse (lit id) $"read_file" Null None.
Definition res (id content : string) : ContentBlock := ToolResult (lit id) (lit content) None None.
Definition assistant (bs : list ContentBlock) : Message := {| msg_role := $"assistant"; msg_content := bs |}.
Definition user (bs : list ContentBlock) : Message := {| msg_role := $"user"; msg_content := bs |}.
Definition say (s : string) : ContentBlock := TextBlock (lit s) None.

Example dangling_call_is_answered :
  repair_tool_call_pairs_for_provider [assistant [call "a"; call "b"]; user [res "b" "ok"]]
  = ([assistant [call "a"; call "b"]; synthetic_message [$"a"]; user [res "b" "ok"]],
     {| repaired_call_ids := [$"a"]; duplicate_result_ids := []; orphan_result_ids := [] |}).
Proof. vm_compute. reflexivity. Qed.

Example early_and_repeated_results_go :
  (repair_tool_call_pairs_for_provider
     [user [res "a" "early"]; assistant [call "a"]; user [res "a" "first"]; user [res "a" "again"; say "keep"]]).1
  = [assistant [call "a"]; user [res "a" "first"]; user [say "keep"]].
Proof. vm_compute. reflexivity. Qed.
