(* ===== verification/ToolHistorySpec.v ===== *)
(** * Properties of the repair of a tool history *)

From S2P Require Import Text Json PromptReanchor ToolDispatch ToolHistory.

(** ** The pairing rule of the providers *)

Definition call_id (b : ContentBlock) : option str := match b with ToolUse id _ _ _ => Some id | _ => None end.
Definition result_id (b : ContentBlock) : option str := match b with ToolResult id _ _ _ => Some id | _ => None end.

Definition call_ids (m : Message) : list str := if is_assistant m then omap call_id (msg_content m) else [].
Definition result_ids (m : Message) : list str := omap result_id (msg_content m).
Definition all_calls (ms : list Message) : list str := ms ≫= call_ids.
Definition all_results (ms : list Message) : list str := ms ≫= result_ids.

(** What results do to the set of calls that wait for one: [None] when a result
    answers no waiting call. *)
Fixpoint answer (open : gset str) (ids : list str) : option (gset str) :=
  match ids with
  | [] => Some open
  | id :: ids => if bool_decide (id ∈ open) then answer (open ∖ {[ id ]}) ids else None
  end.

(** Every call of an assistant message has exactly one result after it and
    before the next assistant message, and there is no other result. *)
Fixpoint paired_from (open : gset str) (ms : list Message) : Prop :=
  match ms with
  | [] => open = ∅
  | m :: ms =>
      if is_assistant m then open = ∅ /\ result_ids m = [] /\ paired_from (list_to_set (call_ids m)) ms
      else exists open', answer open (result_ids m) = Some open' /\ paired_from open' ms
  end.

Definition paired (ms : list Message) : Prop := paired_from ∅ ms.

(** ** The reference: one pass over the messages *)

(** The blocks of a message with the first result of each waiting call, and the
    calls that still wait. *)
Fixpoint keep_first (open : gset str) (bs : list ContentBlock) : list ContentBlock * gset str :=
  match bs with
  | [] => ([], open)
  | b :: bs =>
      match result_id b with
      | None => let '(out, o) := keep_first open bs in (b :: out, o)
      | Some id => if bool_decide (id ∈ open) then let '(out, o) := keep_first (open ∖ {[ id ]}) bs in (b :: out, o)
                   else keep_first open bs
      end
  end.

(** The calls that still wait at the next assistant message. *)
Fixpoint unanswered (open : gset str) (ms : list Message) : gset str :=
  match ms with
  | [] => open
  | m :: ms => if is_assistant m then open else unanswered (keep_first open (msg_content m)).2 ms
  end.

Definition shown (m : Message) (content : list ContentBlock) : list Message :=
  match content with [] => [] | _ => [{| msg_role := msg_role m; msg_content := content |}] end.

Definition answers (missing : list str) : list Message :=
  match missing with [] => [] | _ => [synthetic_message missing] end.

Definition left_open (m : Message) (ms : list Message) : list str :=
  retain (fun id => bool_decide (id ∈ unanswered (list_to_set (call_ids m)) ms)) (call_ids m).

Fixpoint reference (open : gset str) (ms : list Message) : list Message :=
  match ms with
  | [] => []
  | m :: ms =>
      if is_assistant m then
        shown m (keep_first ∅ (msg_content m)).1 ++ answers (left_open m ms) ++ reference (list_to_set (call_ids m)) ms
      else let '(content, open) := keep_first open (msg_content m) in shown m content ++ reference open ms
  end.

(** One decision for each result, in order. *)
Fixpoint decide_ids (open : gset str) (ids : list str) : list bool * gset str :=
  match ids with
  | [] => ([], open)
  | id :: ids =>
      if bool_decide (id ∈ open) then let '(d, o) := decide_ids (open ∖ {[ id ]}) ids in (true :: d, o)
      else let '(d, o) := decide_ids open ids in (false :: d, o)
  end.

Fixpoint decisions (open : gset str) (ms : list Message) : list bool :=
  match ms with
  | [] => []
  | m :: ms =>
      if is_assistant m then (decide_ids ∅ (result_ids m)).1 ++ decisions (list_to_set (call_ids m)) ms
      else let '(d, open) := decide_ids open (result_ids m) in d ++ decisions open ms
  end.

Lemma decide_ids_keep_first open bs : (decide_ids open (omap result_id bs)).2 = (keep_first open bs).2.
Proof.
  revert open. induction bs as [|b bs IH]; intros open; [done|]. cbn. destruct (result_id b) as [id|]; cbn.
  - case_bool_decide.
    + specialize (IH (open ∖ {[ id ]})). by destruct (decide_ids _ _), (keep_first _ bs).
    + specialize (IH open). by destruct (decide_ids _ _), (keep_first _ bs).
  - specialize (IH open). by destruct (keep_first _ bs).
Qed.

Lemma decide_ids_length open ids : length (decide_ids open ids).1 = length ids.
Proof.
  revert open. induction ids as [|id ids IH]; intros open; [done|]. cbn. case_bool_decide.
  - specialize (IH (open ∖ {[ id ]})). destruct (decide_ids _ _). cbn in *. by rewrite IH.
  - specialize (IH open). destruct (decide_ids _ _). cbn in *. by rewrite IH.
Qed.

Lemma decide_ids_open open ids : (decide_ids open ids).2 ⊆ open.
Proof.
  revert open. induction ids as [|id ids IH]; intros open; [done|]. cbn. case_bool_decide.
  - specialize (IH (open ∖ {[ id ]})). destruct (decide_ids _ _). cbn in *. set_solver.
  - specialize (IH open). by destruct (decide_ids _ _).
Qed.

(** ** The reference obeys the rule *)

Lemma keep_first_open open bs : (keep_first open bs).2 ⊆ open.
Proof. rewrite <-decide_ids_keep_first. apply decide_ids_open. Qed.

Lemma keep_first_answers open U bs :
  U ⊆ (keep_first open bs).2 ->
  answer (open ∖ U) (omap result_id (keep_first open bs).1) = Some ((keep_first open bs).2 ∖ U).
Proof.
  revert open. induction bs as [|b bs IH]; intros open; [done|]. cbn [keep_first]. destruct (result_id b) as [id|] eqn:Hb.
  - case_bool_decide as Hid.
    + specialize (IH (open ∖ {[ id ]})). pose proof (keep_first_open (open ∖ {[ id ]}) bs) as Hs.
      destruct (keep_first _ bs) as [out o]. cbn in *. rewrite Hb. cbn. intros HU.
      rewrite bool_decide_eq_true_2 by set_solver. rewrite <-(IH HU). f_equal. set_solver.
    + apply IH.
  - specialize (IH open). destruct (keep_first _ bs) as [out o]. cbn in *. rewrite Hb. apply IH.
Qed.

Lemma keep_first_calls open bs : omap call_id (keep_first open bs).1 = omap call_id bs.
Proof.
  revert open. induction bs as [|b bs IH]; intros open; [done|]. destruct b as [| | | |id c e k| | |]; cbn;
    try (specialize (IH open); destruct (keep_first _ bs); cbn in *; by rewrite IH).
  case_bool_decide; [|apply IH]. specialize (IH (open ∖ {[ id ]})). by destruct (keep_first _ bs).
Qed.

Lemma keep_first_nothing bs : omap result_id (keep_first ∅ bs).1 = [] /\ (keep_first ∅ bs).2 = ∅.
Proof.
  induction bs as [|b bs [IH1 IH2]]; [done|]. cbn. destruct (result_id b) as [id|] eqn:Hb.
  - by rewrite bool_decide_eq_false_2 by set_solver.
  - destruct (keep_first _ bs). cbn in *. by rewrite Hb.
Qed.

Lemma unanswered_open open ms : unanswered open ms ⊆ open.
Proof.
  revert open. induction ms as [|m ms IH]; intros open; [done|]. cbn. destruct (is_assistant m); [done|].
  etransitivity; [apply IH|apply keep_first_open].
Qed.

Lemma answer_all (C : gset str) ids : NoDup ids -> list_to_set ids ⊆ C -> answer C ids = Some (C ∖ list_to_set ids).
Proof.
  revert C. induction ids as [|id ids IH]; intros C Hn Hs; cbn; [f_equal; set_solver|].
  apply NoDup_cons in Hn as [Hid Hn]. cbn in Hs. rewrite bool_decide_eq_true_2 by set_solver.
  rewrite IH; [f_equal; set_solver|done|set_solver].
Qed.

Lemma paired_shown m c open open' rest :
  is_assistant m = false -> answer open (omap result_id c) = Some open' -> paired_from open' rest ->
  paired_from open (shown m c ++ rest).
Proof.
  intros Hm Ha Hr. unfold shown. destruct c as [|b c]; [cbn in Ha; by injection Ha as <-|].
  cbn [app paired_from]. change (is_assistant {| msg_role := msg_role m; msg_content := b :: c |}) with (is_assistant m).
  rewrite Hm. by exists open'.
Qed.

Lemma paired_answers C missing rest :
  NoDup missing -> list_to_set missing ⊆ C -> paired_from (C ∖ list_to_set missing) rest -> paired_from C (answers missing ++ rest).
Proof.
  intros Hn Hs Hr. unfold answers. destruct missing as [|id missing]; [by replace C with (C ∖ list_to_set []) by set_solver|].
  cbn [app paired_from]. change (is_assistant (synthetic_message _)) with false. cbn iota.
  exists (C ∖ list_to_set (id :: missing)). split; [|done].
  assert (E : forall l, result_ids (synthetic_message l) = l).
  { unfold result_ids, synthetic_message. cbn. induction l as [|x l IHl]; [done|]. cbn. by f_equal. }
  rewrite E. by apply answer_all.
Qed.

Lemma left_open_spec m ms : list_to_set (left_open m ms) =@{gset str} unanswered (list_to_set (call_ids m)) ms.
Proof.
  apply set_eq. intros id. rewrite elem_of_list_to_set. unfold left_open. rewrite elem_of_retain, bool_decide_eq_true.
  pose proof (unanswered_open (list_to_set (call_ids m)) ms) as H. set_solver.
Qed.

Lemma reference_is_paired open ms :
  NoDup (all_calls ms) -> paired_from (open ∖ unanswered open ms) (reference open ms).
Proof.
  revert open. induction ms as [|m ms IH]; intros open Hn; cbn [reference unanswered paired_from]; [set_solver|].
  unfold all_calls in Hn. rewrite bind_cons in Hn. apply NoDup_app in Hn as (Hm & _ & Hn). destruct (is_assistant m) eqn:Ha.
  - replace (open ∖ open) with (∅ : gset str) by set_solver. destruct (keep_first_nothing (msg_content m)) as [Hr _].
    pose proof (keep_first_calls ∅ (msg_content m)) as Hc. unfold shown.
    specialize (IH (list_to_set (call_ids m)) Hn). rewrite <-left_open_spec in IH.
    assert (Htail : paired_from (list_to_set (call_ids m)) (answers (left_open m ms) ++ reference (list_to_set (call_ids m)) ms)).
    { apply paired_answers; [by apply NoDup_retain|rewrite left_open_spec; apply unanswered_open|done]. }
    destruct (keep_first ∅ (msg_content m)).1 as [|b c] eqn:E.
    + cbn [app]. replace (∅ : gset str) with (list_to_set (call_ids m) : gset str); [done|].
      unfold call_ids. rewrite Ha, <-Hc. done.
    + cbn [app paired_from]. change (is_assistant {| msg_role := msg_role m; msg_content := b :: c |}) with (is_assistant m).
      rewrite Ha. split_and!; [done|done|].
      replace (call_ids {| msg_role := msg_role m; msg_content := b :: c |}) with (call_ids m); [done|].
      unfold call_ids. change (is_assistant {| msg_role := msg_role m; msg_content := b :: c |}) with (is_assistant m). by rewrite Ha, <-Hc.
  - pose proof (keep_first_answers open (unanswered (keep_first open (msg_content m)).2 ms) (msg_content m)) as Hk.
    destruct (keep_first open (msg_content m)) as [c o]. cbn in *.
    eapply paired_shown; [done|apply Hk, unanswered_open|by apply IH].
Qed.

Lemma call_ids_shown m c : omap call_id c = omap call_id (msg_content m) -> all_calls (shown m c) = call_ids m.
Proof.
  intros Hc. unfold shown, call_ids. destruct c as [|b c]; cbn.
  - rewrite <-Hc. by destruct (is_assistant m).
  - rewrite app_nil_r. unfold call_ids. change (is_assistant {| msg_role := msg_role m; msg_content := b :: c |}) with (is_assistant m).
    by rewrite <-Hc.
Qed.

Lemma all_calls_app a b : all_calls (a ++ b) = all_calls a ++ all_calls b.
Proof. apply bind_app. Qed.

Lemma all_calls_answers missing : all_calls (answers missing) = [].
Proof. by destruct missing. Qed.

Lemma reference_calls open ms : all_calls (reference open ms) = all_calls ms.
Proof.
  revert open. induction ms as [|m ms IH]; intros open; [done|]. cbn [reference]. change (all_calls (m :: ms)) with (call_ids m ++ all_calls ms).
  destruct (is_assistant m).
  - by rewrite !all_calls_app, all_calls_answers, IH, call_ids_shown by apply keep_first_calls.
  - pose proof (keep_first_calls open (msg_content m)) as Hc. destruct (keep_first _ _) as [c o].
    by rewrite all_calls_app, IH, call_ids_shown.
Qed.

(** ** The code collects the calls *)

Lemma note_call_fold i s bs :
  NoDup (omap call_id bs) -> (forall id, id ∈ omap call_id bs -> s.1 !! id = None) ->
  let s' := foldl (note_call i) s bs in
  s'.2 = s.2 ++ omap call_id bs /\
  forall id, s'.1 !! id = if bool_decide (id ∈ omap call_id bs) then Some i else s.1 !! id.
Proof.
  revert s. induction bs as [|b bs IH]; intros s Hn Hf; cbn; [split; [by rewrite app_nil_r|done]|].
  destruct b as [| | |id name input caller| | | |]; cbn in *; try (apply IH; done).
  apply NoDup_cons in Hn as [Hid Hn]. rewrite bool_decide_eq_false_2 by (rewrite Hf by (by left); by intros []).
  destruct (IH (<[id:=i]> s.1, s.2 ++ [id]) Hn) as [H2 H1].
  { intros x Hx. cbn. rewrite lookup_insert_ne; [apply Hf; by right|set_solver]. }
  cbn in *. rewrite H2. split; [by rewrite <-app_assoc|]. intros x. rewrite H1.
  destruct (decide (x = id)) as [->|Hx].
  - rewrite bool_decide_eq_false_2 by done. rewrite lookup_insert, bool_decide_eq_true_2; [|by left]. by rewrite decide_True.
  - rewrite lookup_insert_ne by done. case_bool_decide; case_bool_decide; set_solver.
Qed.

(** The index of an identifier's message, counted from [i]. *)
Lemma note_calls_fold i s ms :
  NoDup (all_calls ms) -> (forall id, id ∈ all_calls ms -> s.1 !! id = None) ->
  let s' := foldl note_calls s (enumerate_from i ms) in
  s'.2 = s.2 ++ all_calls ms /\
  (forall k m id, ms !! k = Some m -> id ∈ call_ids m -> s'.1 !! id = Some (i + k)%nat) /\
  (forall id, id ∉ all_calls ms -> s'.1 !! id = s.1 !! id).
Proof.
  revert i s. induction ms as [|m ms IH]; intros i s Hn Hf; cbn [enumerate_from foldl].
  { cbn. rewrite app_nil_r. done. }
  change (all_calls (m :: ms)) with (call_ids m ++ all_calls ms) in *. apply NoDup_app in Hn as (Hm & Hd & Hn).
  set (s1 := note_calls s (i, m)).
  assert (Hs1 : s1.2 = s.2 ++ call_ids m /\ forall id, s1.1 !! id = if bool_decide (id ∈ call_ids m) then Some i else s.1 !! id).
  { unfold s1, note_calls, call_ids in *. cbn. destruct (is_assistant m).
    - apply note_call_fold; [done|]. intros id Hid. apply Hf. apply elem_of_app. by left.
    - rewrite app_nil_r. split; [done|]. intros id. by rewrite bool_decide_eq_false_2 by apply not_elem_of_nil. }
  destruct Hs1 as [Ho Hl]. destruct (IH (S i) s1 Hn) as (H2 & H1 & H0).
  { intros id Hid. rewrite Hl, bool_decide_eq_false_2 by (intros Hin; exact (Hd id Hin Hid)). apply Hf. apply elem_of_app. by right. }
  split_and!.
  - rewrite H2, Ho. by rewrite <-app_assoc.
  - intros [|k] m' id Hk Hid.
    + injection Hk as <-. rewrite H0 by (by apply Hd). rewrite Hl, bool_decide_eq_true_2 by done. f_equal. lia.
    + rewrite (H1 k m' id Hk Hid). f_equal. lia.
  - intros id Hid. rewrite not_elem_of_app in Hid. destruct Hid as [Hx Hy]. rewrite H0 by done. by rewrite Hl, bool_decide_eq_false_2.
Qed.

Lemma collect_calls_spec ms :
  NoDup (all_calls ms) ->
  (collect_calls ms).2 = all_calls ms /\
  forall id k, (collect_calls ms).1 !! id = Some k <-> exists m, ms !! k = Some m /\ id ∈ call_ids m.
Proof.
  intros Hn. destruct (note_calls_fold 0 (∅, []) ms Hn) as (H2 & H1 & H0); [intros; apply lookup_empty|]. split; [done|].
  intros id k. split; [|intros (m & Hm & Hid); by apply (H1 k m id)]. intros Hk. destruct (decide (id ∈ all_calls ms)) as [Hin|Hin].
  - apply list_elem_of_bind in Hin as (m & Hid & [k' Hk']%list_elem_of_lookup). pose proof (eq_trans (eq_sym Hk) (H1 k' m id Hk' Hid)) as E.
    injection E as ->. by exists m.
  - pose proof (eq_trans (eq_sym Hk) (H0 id Hin)) as E. cbn in E. by rewrite lookup_empty in E.
Qed.

(** ** The code takes the decisions of the reference *)

(** The calls that get a result. *)
Fixpoint kept (open : gset str) (ms : list Message) : gset str :=
  match ms with
  | [] => ∅
  | m :: ms =>
      if is_assistant m then kept (list_to_set (call_ids m)) ms
      else let o := (keep_first open (msg_content m)).2 in (open ∖ o) ∪ kept o ms
  end.

Definition clean (s : Results) : Prop := duplicates s = [] /\ orphans s = [].

Section results.
Context (cm : gmap str nat).

(** The results of message [i] that would be kept. *)
Definition waits (i : nat) (s : Results) (open : gset str) : Prop :=
  forall id, id ∈ open <-> follows_known_call cm i (latest_assistant s) id = true /\ id ∉ retained_results s.

Definition later (s s' : Results) (d : list bool) : Prop :=
  result_ordinal s' = result_ordinal s + zlen d /\
  (forall z, z ∈ keep_results s' <-> z ∈ keep_results s \/ exists k, d !! k = Some true /\ z = result_ordinal s + Z.of_nat k) /\
  (clean s' <-> clean s /\ Forall (eq true) d).

Lemma later_nil s s' : result_ordinal s' = result_ordinal s -> keep_results s' = keep_results s -> (clean s' <-> clean s) -> later s s' [].
Proof. intros Ho Hk Hc. split_and!; [unfold zlen; cbn; lia| |naive_solver]. intros z. rewrite Hk. split; [by left|]. by intros [|(k & [=] & _)]. Qed.

Lemma later_app s1 s2 s3 d e : later s1 s2 d -> later s2 s3 e -> later s1 s3 (d ++ e).
Proof.
  intros (Ho & Hk & Hc) (Ho' & Hk' & Hc'). split_and!.
  - rewrite Ho', Ho. unfold zlen. rewrite length_app. lia.
  - intros z. rewrite Hk', Hk, Ho. split.
    + intros [[|(k & Hd & ->)]|(k & He & ->)]; [by left|right..].
      * exists k. split; [by apply lookup_app_l_Some|done].
      * exists (length d + k)%nat. split; [|unfold zlen; lia]. rewrite lookup_app_r by lia. by replace (length d + k - length d)%nat with k by lia.
    + intros [|(k & [Hd|[Hl He]]%lookup_app_Some & ->)]; [by left; left|left; right; by exists k|right].
      exists (k - length d)%nat. split; [done|]. unfold zlen. lia.
  - rewrite Hc', Hc, Forall_app. naive_solver.
Qed.

Definition step_ok (i : nat) (s s' : Results) (o : gset str) (d : list bool) (new : gset str) : Prop :=
  waits i s' o /\ latest_assistant s' = latest_assistant s /\ later s s' d /\ retained_results s' = new ∪ retained_results s.

Lemma note_result_step i s open b id :
  result_id b = Some id -> waits i s open -> result_ordinal s + 1 <= usize_max ->
  let keeps := bool_decide (id ∈ open) in
  step_ok i s (note_result cm i s b) (if keeps then open ∖ {[ id ]} else open) [keeps] (if keeps then {[ id ]} else ∅).
Proof.
  intros Hb Hw Ho. destruct b as [| | | |id' content err cbs| | |]; try done. injection Hb as ->. cbn [note_result].
  assert (Hone : usize_saturating_add (result_ordinal s) 1 = result_ordinal s + 1) by (unfold usize_saturating_add; lia).
  rewrite Hone. pose proof (Hw id) as Hid. cbn zeta.
  destruct (bool_decide (id ∈ open)) eqn:Hin; [apply bool_decide_eq_true in Hin|apply bool_decide_eq_false in Hin].
  - destruct (proj1 Hid Hin) as [-> Hr]. cbn [negb]. rewrite bool_decide_eq_false_2 by done. split_and!; cbn.
    + intros x. cbn. rewrite elem_of_difference, (Hw x). set_solver.
    + done.
    + split_and!; cbn; [unfold zlen; cbn; lia| |unfold clean; cbn; rewrite Forall_singleton; naive_solver].
      intros z. rewrite elem_of_union, elem_of_singleton. split.
      * intros [->|]; [right; exists 0%nat; split; [done|lia]|by left].
      * intros [|([|k] & Hk & ->)]; [by right|left; lia|done].
    + done.
  - assert (Hlat : forall s', result_ordinal s' = result_ordinal s + 1 -> keep_results s' = keep_results s -> ~ clean s' ->
             later s s' [false]).
    { intros s' H1 H2 H3. split_and!; [unfold zlen; cbn; lia| |rewrite Forall_singleton; naive_solver].
      intros z. rewrite H2. split; [by left|]. by intros [|([|k] & Hk & _)]. }
    destruct (follows_known_call cm i (latest_assistant s) id) eqn:Hf; cbn [negb].
    + rewrite bool_decide_eq_true_2 by (destruct (decide (id ∈ retained_results s)); [done|by destruct Hin; apply Hid]).
      split_and!; cbn; [exact Hw|done| |set_solver]. apply Hlat; [done|done|]. unfold clean. cbn. by intros [[_ [=]]%app_nil _].
    + split_and!; cbn; [exact Hw|done| |set_solver]. apply Hlat; [done|done|]. unfold clean. cbn. by intros [_ [_ [=]]%app_nil].
Qed.

Lemma note_result_other i s b : result_id b = None -> note_result cm i s b = s.
Proof. by destruct b. Qed.

Lemma note_result_fold i s open bs :
  waits i s open -> result_ordinal s + zlen (omap result_id bs) <= usize_max ->
  let '(d, o) := decide_ids open (omap result_id bs) in
  step_ok i s (foldl (note_result cm i) s bs) o d (open ∖ o).
Proof.
  revert s open. induction bs as [|b bs IH]; intros s open Hw Hlen; cbn.
  { split_and!; [done|done|by apply later_nil|set_solver]. }
  destruct (result_id b) as [id|] eqn:Hb; [|rewrite note_result_other by done; apply IH; [done|]; cbn in Hlen; by rewrite Hb in Hlen].
  cbn in Hlen. rewrite Hb in Hlen. unfold zlen in Hlen. cbn in Hlen.
  destruct (note_result_step i s open b id Hb Hw ltac:(lia)) as (Hw1 & Hl1 & Hlat1 & Hr1). cbn.
  set (s1 := note_result cm i s b) in *.
  assert (Hlen1 : result_ordinal s1 + zlen (omap result_id bs) <= usize_max).
  { destruct Hlat1 as [-> _]. unfold zlen. cbn. lia. }
  case_bool_decide as Hin.
  - specialize (IH s1 (open ∖ {[ id ]}) Hw1 Hlen1). pose proof (decide_ids_open (open ∖ {[ id ]}) (omap result_id bs)) as Hsub.
    destruct (decide_ids _ _) as [d o]. destruct IH as (Hw2 & Hl2 & Hlat2 & Hr2). cbn in Hsub. split_and!; [done|congruence| |].
    + exact (later_app _ _ _ [true] d Hlat1 Hlat2).
    + rewrite Hr2, Hr1. apply set_eq. intros x. destruct (decide (x = id)); set_solver.
  - specialize (IH s1 open Hw1 Hlen1). destruct (decide_ids _ _) as [d o]. destruct IH as (Hw2 & Hl2 & Hlat2 & Hr2).
    split_and!; [done|congruence| |].
    + exact (later_app _ _ _ [false] d Hlat1 Hlat2).
    + rewrite Hr2, Hr1. set_solver.
Qed.

Lemma follows_spec i latest id :
  follows_known_call cm i latest id = true <-> exists l, latest = Some l /\ (l < i)%nat /\ cm !! id = Some l.
Proof.
  unfold follows_known_call. destruct (cm !! id) as [l|]; [|naive_solver].
  rewrite andb_true_iff, bool_decide_eq_true, Nat.ltb_lt. naive_solver.
Qed.

(** The suffix from index [i] on holds the calls with an index from [i] on. *)
Definition located (i : nat) (ms : list Message) : Prop :=
  forall id k, (i <= k)%nat -> cm !! id = Some k <-> exists m, ms !! (k - i)%nat = Some m /\ id ∈ call_ids m.

Lemma located_cons i m ms : located i (m :: ms) -> (forall id, cm !! id = Some i <-> id ∈ call_ids m) /\ located (S i) ms.
Proof.
  intros H. split.
  - intros id. rewrite (H id i) by lia. rewrite Nat.sub_diag. cbn. naive_solver.
  - intros id k Hk. rewrite (H id k) by lia. by replace (k - i)%nat with (S (k - S i)) by lia.
Qed.

(** The loop state before message [i]: [open] is what still waits, and the
    retained results are of earlier calls. *)
Record at_message (i : nat) (s : Results) (open : gset str) : Prop := {
  am_open : forall id, id ∈ open <-> exists l, latest_assistant s = Some l /\ cm !! id = Some l /\ id ∉ retained_results s;
  am_latest : forall l, latest_assistant s = Some l -> (l < i)%nat;
  am_retained : forall id, id ∈ retained_results s -> exists l, (l < i)%nat /\ cm !! id = Some l }.

Lemma at_message_waits i s open : at_message i s open -> waits i s open.
Proof. intros [Ho Hl Hr] id. rewrite Ho, follows_spec. naive_solver. Qed.

Definition with_latest (s : Results) (i : nat) : Results :=
  {| retained_results := retained_results s; duplicates := duplicates s; orphans := orphans s;
     keep_results := keep_results s; result_ordinal := result_ordinal s; latest_assistant := Some i |}.

Lemma assistant_waits i s : waits i (with_latest s i) ∅.
Proof. intros id. rewrite follows_spec. cbn. split; [set_solver|]. intros [(l & [= <-] & Hl & _) _]. lia. Qed.

Lemma note_results_fold i s open ms :
  located i ms -> at_message i s open -> result_ordinal s + zlen (all_results ms) <= usize_max ->
  let s' := foldl (note_results cm) s (enumerate_from i ms) in
  later s s' (decisions open ms) /\ retained_results s' = kept open ms ∪ retained_results s.
Proof.
  revert i s open. induction ms as [|m ms IH]; intros i s open Hloc Ham Hlen; cbn.
  { split; [by apply later_nil|set_solver]. }
  apply located_cons in Hloc as [Hi Hloc]. pose proof Ham as [Ho Hl Hr].
  assert (Hlen' : result_ordinal s + zlen (result_ids m) + zlen (all_results ms) <= usize_max).
  { change (all_results (m :: ms)) with (result_ids m ++ all_results ms) in Hlen. unfold zlen in *. rewrite length_app in Hlen. lia. }
  assert (Hlen0 : result_ordinal s + zlen (result_ids m) <= usize_max) by (unfold zlen in *; lia).
  unfold note_results at 2 4. cbn [fst snd]. destruct (is_assistant m) eqn:Ha.
  - fold (with_latest s i). pose proof (note_result_fold i (with_latest s i) ∅ (msg_content m) (assistant_waits i s) Hlen0) as Hs.
    fold (result_ids m) in Hs. pose proof (decide_ids_open ∅ (result_ids m)) as Hsub. pose proof (decide_ids_length ∅ (result_ids m)) as Hd.
    destruct (decide_ids ∅ (result_ids m)) as [d o]. cbn in Hsub, Hd. destruct Hs as (Hw & Hlat & Hla & Hret).
    set (s1 := foldl _ _ _) in *. assert (o = ∅) as -> by set_solver.
    destruct (IH (S i) s1 (list_to_set (call_ids m)) Hloc) as [H1 H2].
    + split.
      * intros id. rewrite elem_of_list_to_set, <-Hi, Hlat, Hret. cbn. split; [|naive_solver].
        intros Hid. exists i. split_and!; [done..|]. intros Hin. rewrite elem_of_union in Hin. destruct Hin as [|Hin]; [set_solver|].
        destruct (Hr id Hin) as (l & Hlt & E). rewrite E in Hid. injection Hid as ->. lia.
      * intros l. rewrite Hlat. cbn. intros [= <-]. lia.
      * intros id. rewrite Hret. cbn. rewrite elem_of_union. intros [|Hin]; [set_solver|]. destruct (Hr id Hin) as (l & ? & ?). exists l. auto with lia.
    + destruct Hla as [-> _]. cbn. unfold zlen in *. lia.
    + split; [|rewrite H2, Hret; cbn; set_solver]. eapply later_app; [|exact H1]. exact Hla.
  - pose proof (note_result_fold i s open (msg_content m) (at_message_waits i s open Ham) Hlen0) as Hs.
    fold (result_ids m) in Hs. pose proof (decide_ids_length open (result_ids m)) as Hd.
    pose proof (decide_ids_keep_first open (msg_content m)) as Hkf. fold (result_ids m) in Hkf. rewrite <-Hkf.
    destruct (decide_ids open (result_ids m)) as [d o]. cbn in Hd |- *. destruct Hs as (Hw & Hlat & Hla & Hret).
    set (s1 := foldl _ _ _) in *.
    destruct (IH (S i) s1 o Hloc) as [H1 H2].
    + split.
      * intros id. rewrite (Hw id), follows_spec, Hlat. split; [naive_solver|]. intros (l & E & Hc & Hnr). split; [|done]. exists l. auto.
      * intros l. rewrite Hlat. intros E%Hl. lia.
      * intros id. rewrite Hret, elem_of_union. intros [Hin|Hin].
        -- apply elem_of_difference in Hin as [(l & E & Hc & _)%Ho _]. exists l. split; [|done]. apply Hl in E. lia.
        -- destruct (Hr id Hin) as (l & ? & ?). exists l. auto with lia.
    + destruct Hla as [-> _]. unfold zlen in *. lia.
    + split; [by eapply later_app|]. rewrite H2, Hret. set_solver.
Qed.
End results.

(** ** The code rebuilds the reference *)

Lemma kept_sub open ms id : id ∈ kept open ms -> id ∈ open \/ id ∈ all_calls ms.
Proof.
  revert open. induction ms as [|m ms IH]; intros open; cbn; [set_solver|].
  change (all_calls (m :: ms)) with (call_ids m ++ all_calls ms). rewrite elem_of_app. destruct (is_assistant m).
  - intros [H|]%IH; [|by right; right]. right. left. by apply elem_of_list_to_set in H.
  - rewrite elem_of_union. pose proof (keep_first_open open (msg_content m)). intros [H'|[H'|]%IH]; [set_solver|set_solver|by right; right].
Qed.

(** A waiting call is kept a result unless it is left unanswered. *)
Lemma kept_or_unanswered open ms id :
  (forall id, id ∈ open -> id ∉ all_calls ms) -> NoDup (all_calls ms) -> id ∈ open ->
  id ∈ kept open ms <-> id ∉ unanswered open ms.
Proof.
  revert open. induction ms as [|m ms IH]; intros open Hd Hn Hid; cbn; [set_solver|].
  change (all_calls (m :: ms)) with (call_ids m ++ all_calls ms) in *. apply NoDup_app in Hn as (_ & _ & Hn).
  destruct (is_assistant m) eqn:Ha.
  - split; [|done]. intros Hk%kept_sub. specialize (Hd id Hid). rewrite elem_of_list_to_set in Hk. set_solver.
  - pose proof (keep_first_open open (msg_content m)) as Hs. set (o := (keep_first open (msg_content m)).2) in *.
    assert (Hd' : forall id, id ∈ o -> id ∉ all_calls ms) by (intros x Hx; specialize (Hd x); set_solver).
    specialize (IH o Hd' Hn). pose proof (unanswered_open o ms). destruct (decide (id ∈ o)) as [Hin|Hin].
    + rewrite elem_of_union, (IH Hin). set_solver.
    + set_solver.
Qed.

Lemma retain_results_spec keep seen open bs :
  let d := (decide_ids open (omap result_id bs)).1 in
  seen + zlen d <= usize_max -> (forall k b, d !! k = Some b -> seen + Z.of_nat k ∈ keep <-> b = true) ->
  retain_results keep seen bs = ((keep_first open bs).1, seen + zlen d).
Proof.
  revert seen open. induction bs as [|b bs IH]; intros seen open d Hlen Hk; subst d; cbn; [f_equal; unfold zlen; cbn; lia|].
  destruct (result_id b) as [id|] eqn:Hb.
  - destruct b as [| | | |id' content err cbs| | |]; try done. injection Hb as ->. cbn [omap list_omap result_id] in Hlen, Hk. cbn [decide_ids] in *.
    assert (Hstep : forall o d, (decide_ids o (omap result_id bs)).1 = d ->
              seen + 1 + zlen d <= usize_max -> (forall k b, d !! k = Some b -> seen + 1 + Z.of_nat k ∈ keep <-> b = true) ->
              retain_results keep (usize_saturating_add seen 1) bs = ((keep_first o bs).1, seen + 1 + zlen d)).
    { intros o d <- Hl Hk'. unfold usize_saturating_add. rewrite Z.min_l by (pose proof (zlen_nonneg (decide_ids o (omap result_id bs)).1); lia).
      by apply IH. }
    change (omap result_id (ToolResult id content err cbs :: bs)) with (id :: omap result_id bs) in *. cbn [decide_ids result_id] in *.
    case_bool_decide as Hin.
    + specialize (Hstep (open ∖ {[ id ]})). destruct (decide_ids (open ∖ {[ id ]}) (omap result_id bs)) as [d o]. cbn in *. unfold zlen in *. cbn in *.
      rewrite (Hstep d eq_refl) by (first [lia|intros k b Hkb; rewrite <-(Hk (S k) b Hkb); by replace (seen + 1 + Z.of_nat k) with (seen + Z.of_nat (S k)) by lia]).
      rewrite bool_decide_eq_true_2; [|replace seen with (seen + Z.of_nat 0) by lia; by apply (Hk 0%nat true)].
      destruct (keep_first (open ∖ {[ id ]}) bs). cbn. f_equal. lia.
    + specialize (Hstep open). destruct (decide_ids open (omap result_id bs)) as [d o]. cbn in *. unfold zlen in *. cbn in *.
      rewrite (Hstep d eq_refl) by (first [lia|intros k b Hkb; rewrite <-(Hk (S k) b Hkb); by replace (seen + 1 + Z.of_nat k) with (seen + Z.of_nat (S k)) by lia]).
      rewrite bool_decide_eq_false_2; [f_equal; lia|]. replace seen with (seen + Z.of_nat 0) by lia. intros H%(Hk 0%nat false eq_refl). done.
  - assert (E : retain_results keep seen (b :: bs) = let '(out, s) := retain_results keep seen bs in (b :: out, s)) by (by destruct b).
    cbn [omap list_omap] in Hlen, Hk. rewrite Hb in Hlen, Hk. specialize (IH seen open Hlen Hk). cbn [retain_results] in E. rewrite E, IH.
    by destruct (keep_first open bs).
Qed.

Lemma missing_after_spec repaired m :
  missing_after repaired m = retain (fun id => bool_decide (id ∈ repaired)) (call_ids m).
Proof.
  unfold missing_after, call_ids. destruct (is_assistant m); [|done]. induction (msg_content m) as [|b bs IH]; [done|].
  destruct b as [| | |id name input caller| | | |]; try exact IH.
  change (omap call_id (ToolUse id name input caller :: bs)) with (id :: omap call_id bs). rewrite retain_cons. cbn.
  destruct (bool_decide (id ∈ repaired)); [f_equal|]; exact IH.
Qed.

Lemma rebuild_spec keep repaired seen open ms :
  NoDup (all_calls ms) -> (forall id, id ∈ open -> id ∉ all_calls ms) ->
  seen + zlen (decisions open ms) <= usize_max ->
  (forall k b, decisions open ms !! k = Some b -> seen + Z.of_nat k ∈ keep <-> b = true) ->
  (forall id, id ∈ all_calls ms -> id ∈ repaired <-> id ∉ kept open ms) ->
  rebuild repaired keep seen ms = reference open ms.
Proof.
  revert seen open. induction ms as [|m ms IH]; intros seen open Hn Hd Hlen Hk Hrep; [done|].
  change (all_calls (m :: ms)) with (call_ids m ++ all_calls ms) in *. apply NoDup_app in Hn as (Hm & Hdis & Hn).
  assert (Hrest : forall o d e, d = (decide_ids o (result_ids m)).1 ->
            seen + zlen (d ++ e) <= usize_max -> (forall k b, (d ++ e) !! k = Some b -> seen + Z.of_nat k ∈ keep <-> b = true) ->
            retain_results keep seen (msg_content m) = ((keep_first o (msg_content m)).1, seen + zlen d) /\
            seen + zlen d + zlen e <= usize_max /\
            (forall k b, e !! k = Some b -> seen + zlen d + Z.of_nat k ∈ keep <-> b = true)).
  { intros o d e -> Hl Hk'. unfold zlen in *. rewrite length_app in Hl. split_and!; [|lia|].
    - apply retain_results_spec; [unfold zlen, result_ids in *; lia|]. intros k b Hkb. apply Hk'. by apply lookup_app_l_Some.
    - intros k b Hkb. rewrite <-(Hk' (length (decide_ids o (result_ids m)).1 + k)%nat b).
      + by rewrite Nat2Z.inj_add, Z.add_assoc.
      + rewrite lookup_app_r by lia. rewrite <-Hkb. f_equal. lia. }
  cbn [rebuild reference]. unfold rebuild_message. rewrite missing_after_spec. cbn [decisions kept] in *. destruct (is_assistant m) eqn:Ha.
  - destruct (Hrest ∅ _ _ eq_refl Hlen Hk) as (-> & Hl & Hk'). rewrite <-app_assoc. f_equal. f_equal.
    + unfold answers. replace (retain _ (call_ids m)) with (left_open m ms); [done|].
      apply retain_ext_in. intros id Hid. apply bool_decide_ext. rewrite Hrep by (apply elem_of_app; by left).
      rewrite kept_or_unanswered; [|intros x Hx; apply elem_of_list_to_set in Hx; by apply Hdis|done|by apply elem_of_list_to_set].
      destruct (decide (id ∈ unanswered (list_to_set (call_ids m)) ms)); tauto.
    + apply IH; [done| |done|done|].
      * intros id Hx. apply elem_of_list_to_set in Hx. by apply Hdis.
      * intros id Hid. apply Hrep. apply elem_of_app. by right.
  - assert (E : call_ids m = []) by (unfold call_ids; by rewrite Ha). rewrite E in *. cbn.
    pose proof (decide_ids_keep_first open (msg_content m)) as Hkf. fold (result_ids m) in Hkf.
    pose proof (keep_first_open open (msg_content m)) as Hsub. specialize (Hrest open).
    destruct (decide_ids open (result_ids m)) as [d o], (keep_first open (msg_content m)) as [c o']. cbn in Hkf, Hsub, Hrest, Hrep. subst o'.
    destruct (Hrest _ _ eq_refl Hlen Hk) as (-> & Hl & Hk'). rewrite app_nil_r. unfold shown. f_equal.
    apply IH; [done| |done|done|].
    + intros id Hx. apply Hd. by apply Hsub.
    + intros id Hid. rewrite Hrep by done. rewrite elem_of_union. specialize (Hd id). set_solver.
Qed.

(** ** The receipt tells whether the history was paired *)

Lemma answer_decisions open ids o :
  answer open ids = Some o <-> Forall (eq true) (decide_ids open ids).1 /\ (decide_ids open ids).2 = o.
Proof.
  revert open. induction ids as [|id ids IH]; intros open; cbn; [naive_solver|]. case_bool_decide.
  - rewrite IH. destruct (decide_ids _ _). cbn. rewrite Forall_cons. naive_solver.
  - split; [done|]. destruct (decide_ids _ _). cbn. by intros [[?%eq_sym _]%Forall_cons _].
Qed.

Lemma paired_decisions open ms :
  NoDup (all_calls ms) -> (forall id, id ∈ open -> id ∉ all_calls ms) ->
  paired_from open ms <->
  Forall (eq true) (decisions open ms) /\ unanswered open ms = ∅ /\ forall id, id ∈ all_calls ms -> id ∈ kept open ms.
Proof.
  revert open. induction ms as [|m ms IH]; intros open Hn Hd; cbn [paired_from decisions unanswered kept].
  { split; [intros ->; split_and!; [constructor|done|by intros id ?%not_elem_of_nil]|naive_solver]. }
  change (all_calls (m :: ms)) with (call_ids m ++ all_calls ms) in *. apply NoDup_app in Hn as (Hm & Hdis & Hn).
  destruct (is_assistant m) eqn:Ha.
  - assert (Hd' : forall id, id ∈ (list_to_set (call_ids m) : gset str) -> id ∉ all_calls ms).
    { intros id Hid. apply elem_of_list_to_set in Hid. by apply Hdis. }
    rewrite (IH _ Hn Hd'), Forall_app.
    assert (Hres : result_ids m = [] <-> Forall (eq true) (decide_ids ∅ (result_ids m)).1).
    { destruct (result_ids m) as [|id ids]; [split; [constructor|done]|]. split; [done|]. cbn. rewrite bool_decide_eq_false_2 by set_solver.
      destruct (decide_ids _ _). by intros [?%eq_sym _]%Forall_cons. }
    rewrite Hres. assert (Hun : unanswered (list_to_set (call_ids m)) ms = ∅ <-> forall id, id ∈ call_ids m -> id ∈ kept (list_to_set (call_ids m)) ms).
    { pose proof (unanswered_open (list_to_set (call_ids m)) ms) as Hsub. split.
      - intros E id Hid. apply kept_or_unanswered; [done..|by apply elem_of_list_to_set|]. rewrite E. set_solver.
      - intros H. apply set_eq. intros id. split; [|set_solver]. intros Hid. pose proof (Hsub id Hid) as Hc.
        assert (id ∈ kept (list_to_set (call_ids m)) ms) as Hk by (apply H; by apply elem_of_list_to_set in Hc).
        apply kept_or_unanswered in Hk; done. }
    rewrite Hun. setoid_rewrite elem_of_app. naive_solver.
  - assert (E : call_ids m = []) by (unfold call_ids; by rewrite Ha). rewrite E in *. cbn.
    pose proof (keep_first_open open (msg_content m)) as Hsub.
    pose proof (decide_ids_keep_first open (msg_content m)) as Hkf. fold (result_ids m) in Hkf. rewrite <-Hkf in *.
    setoid_rewrite answer_decisions. destruct (decide_ids open (result_ids m)) as [d o]. cbn in *.
    assert (Hd' : forall id, id ∈ o -> id ∉ all_calls ms) by (intros id Hid; apply Hd, Hsub, Hid).
    assert (Hk : (forall id, id ∈ all_calls ms -> id ∈ open ∖ o ∪ kept o ms) <-> (forall id, id ∈ all_calls ms -> id ∈ kept o ms)).
    { split; intros H id Hid; [|set_solver]. specialize (H id Hid). apply elem_of_union in H as [H|]; [|done]. apply elem_of_difference in H as [H _].
      by destruct (Hd id H). }
    rewrite Hk, Forall_app. specialize (IH o Hn Hd'). naive_solver.
Qed.

(** The calls a repair answers, in order. *)
Fixpoint missing (ms : list Message) : list str :=
  match ms with
  | [] => []
  | m :: ms => (if is_assistant m then left_open m ms else []) ++ missing ms
  end.

Lemma missing_spec open ms :
  NoDup (all_calls ms) -> (forall id, id ∈ open -> id ∉ all_calls ms) ->
  retain (fun id => negb (bool_decide (id ∈ kept open ms))) (all_calls ms) = missing ms.
Proof.
  revert open. induction ms as [|m ms IH]; intros open Hn Hd; [done|].
  change (all_calls (m :: ms)) with (call_ids m ++ all_calls ms) in *. apply NoDup_app in Hn as (Hm & Hdis & Hn). cbn [missing kept].
  rewrite retain_app. destruct (is_assistant m) eqn:Ha.
  - assert (Hd' : forall id, id ∈ (list_to_set (call_ids m) : gset str) -> id ∉ all_calls ms).
    { intros id Hid. apply elem_of_list_to_set in Hid. by apply Hdis. }
    rewrite IH by done. f_equal. apply retain_ext_in. intros id Hid.
    pose proof (kept_or_unanswered (list_to_set (call_ids m)) ms id Hd' Hn) as H. rewrite elem_of_list_to_set in H. specialize (H Hid).
    apply eq_true_iff_eq. rewrite negb_true_iff, bool_decide_eq_false, bool_decide_eq_true. destruct (decide (id ∈ unanswered (list_to_set (call_ids m)) ms)); tauto.
  - assert (E : call_ids m = []) by (unfold call_ids; by rewrite Ha). rewrite E in *. cbn.
    pose proof (keep_first_open open (msg_content m)) as Hsub. set (o := (keep_first open (msg_content m)).2) in *.
    rewrite <-(IH o Hn) by (intros id Hid; apply Hd, Hsub, Hid). apply retain_ext_in. intros id Hid. f_equal. apply bool_decide_ext.
    specialize (Hd id). set_solver.
Qed.

(** ** The repair *)

Lemma decisions_length open ms : length (decisions open ms) = length (all_results ms).
Proof.
  revert open. induction ms as [|m ms IH]; intros open; [done|]. change (all_results (m :: ms)) with (result_ids m ++ all_results ms).
  cbn. rewrite length_app. destruct (is_assistant m).
  - by rewrite length_app, decide_ids_length, IH.
  - pose proof (decide_ids_length open (result_ids m)). destruct (decide_ids _ _). cbn in *. rewrite length_app. congruence.
Qed.

Definition sized (ms : list Message) : Prop := zlen (all_results ms) <= usize_max.

Lemma repair_spec ms append :
  NoDup (all_calls ms) -> sized ms ->
  let '(out, r) := repair_tool_call_pairs_inner ms append in
  (receipt_is_empty r = true <-> paired ms) /\ repaired_call_ids r = missing ms /\
  out = (if receipt_is_empty r then ms else reference ∅ ms ++ (if append then [receipt_message r] else [])).
Proof.
  intros Hn Hs. unfold repair_tool_call_pairs_inner. destruct (collect_calls_spec ms Hn) as [Hcalls Hcm].
  destruct (note_results_fold (collect_calls ms).1 0 no_results ∅ ms) as [(_ & Hkeep & Hclean) Hret].
  { intros id k _. rewrite Hcm. by rewrite Nat.sub_0_r. }
  { split; [cbn; set_solver|done|cbn; set_solver]. }
  { done. }
  change (foldl _ no_results (enumerate_from 0 ms)) with (collect_results (collect_calls ms).1 ms) in *.
  assert (Hd : forall id, id ∈ (∅ : gset str) -> id ∉ all_calls ms) by set_solver.
  set (rs := collect_results (collect_calls ms).1 ms) in *. rewrite Hcalls.
  assert (Hrep : retain (fun id => negb (bool_decide (id ∈ retained_results rs))) (all_calls ms) = missing ms).
  { rewrite <-(missing_spec ∅ ms Hn Hd). apply retain_ext_in. intros id _. f_equal. apply bool_decide_ext. rewrite Hret. cbn. set_solver. }
  rewrite Hrep. set (r := {| repaired_call_ids := _ |}). assert (Hr : receipt_is_empty r = true <-> paired ms).
  { unfold paired. rewrite (paired_decisions ∅ ms Hn Hd). unfold receipt_is_empty, r. cbn [repaired_call_ids duplicate_result_ids orphan_result_ids].
    assert (Hnil : forall A (l : list A), list_is_empty l = true <-> l = []) by (by intros A []). rewrite !andb_true_iff, !Hnil.
    assert (Hm : missing ms = [] <-> forall id, id ∈ all_calls ms -> id ∈ kept ∅ ms).
    { rewrite <-(missing_spec ∅ ms Hn Hd). apply retain_nil. }
    rewrite Hm. pose proof (unanswered_open ∅ ms). unfold clean in Hclean. cbn in Hclean.
    assert (unanswered ∅ ms = ∅) by set_solver. naive_solver. }
  assert (Hreb : rebuild (list_to_set (missing ms)) (keep_results rs) 0 ms = reference ∅ ms).
  { apply rebuild_spec; [done|done| | |].
    - unfold zlen. rewrite decisions_length. exact Hs.
    - intros k b Hb. rewrite Hkeep. cbn. split.
      + intros [?|(k' & Hk' & E)]; [set_solver|]. assert (k' = k) as -> by lia. congruence.
      + intros ->. right. by exists k.
    - intros id Hid. rewrite elem_of_list_to_set, <-(missing_spec ∅ ms Hn Hd), elem_of_retain, negb_true_iff, bool_decide_eq_false. naive_solver. }
  rewrite <-Hreb. destruct (receipt_is_empty r) eqn:E; rewrite E; done.
Qed.

(** ** What the repair keeps *)

Definition is_result (b : ContentBlock) : bool := bool_decide (is_Some (result_id b)).
Definition result_blocks (ms : list Message) : list ContentBlock := ms ≫= fun m => retain is_result (msg_content m).
(** The other blocks, with the role they are under. *)
Definition others (ms : list Message) : list (str * ContentBlock) :=
  ms ≫= fun m => pair (msg_role m) <$> retain (fun b => negb (is_result b)) (msg_content m).

Lemma keep_first_blocks open bs :
  retain (fun b => negb (is_result b)) (keep_first open bs).1 = retain (fun b => negb (is_result b)) bs /\
  retain is_result (keep_first open bs).1 `sublist_of` retain is_result bs.
Proof.
  revert open. induction bs as [|b bs IH]; intros open; [done|]. cbn [keep_first]. rewrite !(retain_cons _ b).
  assert (Hb : is_result b = bool_decide (is_Some (result_id b))) by done. destruct (result_id b) as [id|].
  - rewrite bool_decide_eq_true_2 in Hb by done. rewrite Hb. cbn [negb]. case_bool_decide.
    + destruct (IH (open ∖ {[ id ]})) as [H1 H2]. destruct (keep_first _ bs) as [c o]. cbn [fst snd] in *. rewrite !(retain_cons _ b), Hb. cbn [negb].
      split; [done|by apply sublist_skip].
    + destruct (IH open) as [H1 H2]. split; [done|by apply sublist_cons].
  - rewrite bool_decide_eq_false_2 in Hb by (by intros []). rewrite Hb. cbn [negb].
    destruct (IH open) as [H1 H2]. destruct (keep_first _ bs) as [c o]. cbn [fst snd] in *. rewrite !(retain_cons _ b), Hb. cbn [negb].
    split; [by f_equal|done].
Qed.

Lemma others_shown m c :
  others (shown m c) = pair (msg_role m) <$> retain (fun b => negb (is_result b)) c.
Proof. destruct c as [|b c]; [done|]. unfold others. cbn [shown mbind list_bind]. by rewrite app_nil_r. Qed.

Lemma results_shown m c : result_blocks (shown m c) = retain is_result c.
Proof. destruct c as [|b c]; [done|]. unfold result_blocks. cbn [shown mbind list_bind]. by rewrite app_nil_r. Qed.

Lemma answers_blocks ids : others (answers ids) = [] /\ result_blocks (answers ids) = synthetic_result <$> ids.
Proof.
  assert (Hs : forall l, retain (fun b => negb (is_result b)) (synthetic_result <$> l) = [] /\
                retain is_result (synthetic_result <$> l) = synthetic_result <$> l).
  { induction l as [|x l [IH1 IH2]]; [done|]. rewrite fmap_cons, !retain_cons. change (is_result (synthetic_result x)) with true. cbn [negb].
    by rewrite IH1, IH2. }
  destruct ids as [|id ids]; [done|]. destruct (Hs (id :: ids)) as [H1 H2]. split.
  - change (others (answers (id :: ids)))
      with ((pair $"user" <$> retain (fun b => negb (is_result b)) (synthetic_result <$> id :: ids)) ++ []). by rewrite H1.
  - change (result_blocks (answers (id :: ids))) with (retain is_result (synthetic_result <$> id :: ids) ++ []). by rewrite H2, app_nil_r.
Qed.

Lemma reference_others open ms : others (reference open ms) = others ms.
Proof.
  revert open. induction ms as [|m ms IH]; intros open; [done|]. cbn [reference].
  change (others (m :: ms)) with ((pair (msg_role m) <$> retain (fun b => negb (is_result b)) (msg_content m)) ++ others ms).
  assert (Happ : forall a b, others (a ++ b) = others a ++ others b) by (intros; apply bind_app). destruct (is_assistant m).
  - rewrite !Happ, IH, others_shown, (proj1 (keep_first_blocks _ _)). destruct (answers_blocks (left_open m ms)) as [-> _]. done.
  - destruct (keep_first_blocks open (msg_content m)) as [H _]. destruct (keep_first _ _) as [c o]. cbn [fst] in H.
    by rewrite Happ, IH, others_shown, H.
Qed.

Lemma reference_results open ms :
  exists k, k `sublist_of` result_blocks ms /\ result_blocks (reference open ms) ≡ₚ k ++ (synthetic_result <$> missing ms).
Proof.
  assert (Happ : forall a b, result_blocks (a ++ b) = result_blocks a ++ result_blocks b) by (intros; apply bind_app).
  revert open. induction ms as [|m ms IH]; intros open; [by exists []|]. cbn [reference missing].
  change (result_blocks (m :: ms)) with (retain is_result (msg_content m) ++ result_blocks ms). destruct (is_assistant m).
  - destruct (IH (list_to_set (call_ids m))) as (k & Hk & Hp). destruct (keep_first_blocks ∅ (msg_content m)) as [_ Hs].
    exists (retain is_result (keep_first ∅ (msg_content m)).1 ++ k). split; [by apply sublist_app|].
    rewrite !Happ, results_shown. destruct (answers_blocks (left_open m ms)) as [_ ->]. rewrite Hp, fmap_app. solve_Permutation.
  - destruct (keep_first_blocks open (msg_content m)) as [_ Hs]. destruct (keep_first _ _) as [c o]. cbn [fst] in Hs.
    destruct (IH o) as (k & Hk & Hp). exists (retain is_result c ++ k). split; [by apply sublist_app|].
    rewrite Happ, results_shown, Hp. by rewrite app_assoc.
Qed.

(** A paired history has as many results as calls. *)
Lemma answer_size open ids o : answer open ids = Some o -> size open = (length ids + size o)%nat.
Proof.
  revert open. induction ids as [|id ids IH]; intros open; cbn; [by intros [= ->]|]. case_bool_decide as Hin; [|done].
  intros H%IH. pose proof (size_difference open {[ id ]} ltac:(set_solver)) as E. rewrite size_singleton in E.
  assert (0 < size open)%nat by (apply Nat.neq_0_lt_0; intros Hz%size_empty_iff; set_solver). lia.
Qed.

Lemma paired_size open ms :
  NoDup (all_calls ms) -> paired_from open ms -> length (all_results ms) = (size open + length (all_calls ms))%nat.
Proof.
  revert open. induction ms as [|m ms IH]; intros open Hn; [cbn; intros ->; by rewrite size_empty|].
  change (all_calls (m :: ms)) with (call_ids m ++ all_calls ms) in *. change (all_results (m :: ms)) with (result_ids m ++ all_results ms).
  apply NoDup_app in Hn as (Hm & _ & Hn). rewrite !length_app. cbn [paired_from]. destruct (is_assistant m) eqn:Ha.
  - intros (-> & -> & Hp). rewrite (IH _ Hn Hp), size_list_to_set, size_empty by done. cbn. lia.
  - intros (o & Ho & Hp). rewrite (IH _ Hn Hp), (answer_size _ _ _ Ho). unfold call_ids. rewrite Ha. cbn. lia.
Qed.

Definition empty_receipt : ToolRepairReceipt :=
  {| repaired_call_ids := []; duplicate_result_ids := []; orphan_result_ids := [] |}.

Lemma receipt_is_empty_eq r : receipt_is_empty r = true -> r = empty_receipt.
Proof. destruct r as [[] [] []]; done. Qed.

Lemma paired_receipt open ms r : paired_from open ms -> paired_from open (ms ++ [receipt_message r]).
Proof.
  revert open. induction ms as [|m ms IH]; intros open; cbn [app paired_from].
  - intros ->. change (is_assistant (receipt_message r)) with true. cbn iota. done.
  - destruct (is_assistant m); [|naive_solver]. intros (-> & -> & Hp). split_and!; [done..|]. by apply IH.
Qed.

(** What a repair appends: nothing to a paired history or for a provider. *)
Definition appended (append : bool) (r : ToolRepairReceipt) : list Message :=
  if negb (receipt_is_empty r) && append then [receipt_message r] else [].

(** C31: when no two calls share an identifier, the repaired history obeys the
    providers' rule: every call of an assistant message has exactly one result
    after it and before the next assistant message, and there is no other
    result.  A second repair changes nothing; the receipt is empty, and the
    history untouched, exactly when it obeyed the rule already.  The calls and
    every block that is not a result stay, in order and under their roles (a
    session gets the visible receipt at the end); the results are results of
    the input, in order, and one synthetic error for each call the receipt
    names. *)
Theorem repaired_history_is_paired ms append :
  NoDup (all_calls ms) -> sized ms -> zlen (all_calls ms) <= usize_max ->
  let '(out, r) := repair_tool_call_pairs_inner ms append in
  paired out /\
  repair_tool_call_pairs_inner out append = (out, empty_receipt) /\
  (receipt_is_empty r = true <-> paired ms) /\ (paired ms -> out = ms) /\
  all_calls out = all_calls ms /\ others out = others ms ++ others (appended append r) /\
  exists k, k `sublist_of` result_blocks ms /\ result_blocks out ≡ₚ k ++ (synthetic_result <$> repaired_call_ids r).
Proof.
  intros Hn Hs Hc. pose proof (repair_spec ms append Hn Hs) as H. destruct (repair_tool_call_pairs_inner ms append) as [out r].
  destruct H as (Hr & Hm & Hout).
  assert (Hp : paired out /\ all_calls out = all_calls ms).
  { destruct (receipt_is_empty r) eqn:E; subst out; [split; [by apply Hr|done]|]. pose proof (reference_is_paired ∅ ms Hn) as Hp.
    replace (∅ ∖ unanswered ∅ ms) with (∅ : gset str) in Hp by set_solver. rewrite all_calls_app, reference_calls.
    destruct append; [|rewrite app_nil_r; by rewrite app_nil_r]. split; [by apply paired_receipt|by rewrite app_nil_r]. }
  destruct Hp as [Hp Hcalls]. split_and!; [done| |done| |done| |].
  - assert (Hsz : sized out).
    { unfold sized, zlen. rewrite (paired_size ∅ out), size_empty by (done || by rewrite Hcalls). by rewrite Hcalls. }
    pose proof (repair_spec out append ltac:(by rewrite Hcalls) Hsz) as H2.
    destruct (repair_tool_call_pairs_inner out append) as [out2 r2]. destruct H2 as (Hr2 & _ & ->). apply Hr2 in Hp. rewrite Hp.
    by rewrite (receipt_is_empty_eq _ Hp).
  - intros Hp0%Hr. by rewrite Hp0 in Hout.
  - unfold appended. destruct (receipt_is_empty r) eqn:E; subst out; cbn [negb andb]; [by rewrite app_nil_r|].
    unfold others. rewrite bind_app. f_equal. apply reference_others.
  - destruct (receipt_is_empty r) eqn:E; subst out.
    + exists (result_blocks ms). split; [done|]. rewrite (receipt_is_empty_eq _ E). cbn. by rewrite app_nil_r.
    + destruct (reference_results ∅ ms) as (k & Hk & Hperm). exists k. split; [done|]. rewrite Hm, <-Hperm. unfold result_blocks. rewrite bind_app.
      destruct append; cbn; by rewrite app_nil_r.
Qed.

(** A history with a late, an orphan and a missing result. *)
Definition broken_history : list Message :=
  [user [res "x" "orphan"]; assistant [call "a"; call "b"]; user [res "b" "ok"; say "and"]; assistant [say "done"]; user [res "a" "late"]].

Lemma repaired_history_is_paired_witness :
  let '(out, _) := repair_tool_call_pairs_inner broken_history true in paired out /\ length out = 5%nat.
Proof.
  pose proof (repaired_history_is_paired broken_history true ltac:(refine (bool_decide_unpack _ _); vm_compute; exact I) ltac:(done) ltac:(done)) as H.
  destruct (repair_tool_call_pairs_inner broken_history true) as [out r] eqn:E. split; [apply H|].
  vm_compute in E. injection E as <- _. reflexivity.
Defined.

(** Providers that number the calls of each turn from the start repeat
    identifiers.  Such a history can be paired as it is; the repair takes the
    second call's result for an orphan of the first, drops it, and leaves the
    call without a result. *)
Example reused_identifiers_lose_a_result :
  let h := [assistant [call "call_0"]; user [res "call_0" "one"]; assistant [call "call_0"]; user [res "call_0" "two"]] in
  paired h /\
  repair_tool_call_pairs_for_provider h
  = ([assistant [call "call_0"]; user [res "call_0" "one"]; assistant [call "call_0"]],
     {| repaired_call_ids := []; duplicate_result_ids := []; orphan_result_ids := [$"call_0"] |}).
Proof.
  split; [|vm_compute; reflexivity]. cbn. split_and!; [done..|]. exists ∅. split; [by vm_compute|]. split_and!; [done..|]. exists ∅. split; [by vm_compute|done].
Qed.

(** Two dangling calls with one identifier get two results with it, and the next
    repair removes one. *)
Example repeated_repair_differs :
  let h := [assistant [call "a"]; assistant [call "a"]] in
  let once := (repair_tool_call_pairs_for_provider h).1 in
  length once = 4%nat /\ length (repair_tool_call_pairs_for_provider once).1 = 3%nat.
Proof. vm_compute. done. Qed.
