(* ===== verification/Authority.v ===== *)
(** * The authority of a turn

    [crates/tui/src/core/authority.rs] with the modes of [tui/app/types.rs],
    the approval postures of [tui/approval.rs], the input origins of
    [core/ops.rs] and the sandbox policies of [sandbox/policy.rs].  A path is
    its text; the writable roots are what the caller's workspace spells. *)

From S2P Require Import Text CommandSafety.

(** ** Modes *)

Module AppMode.
Inductive t := Agent | Auto | Yolo | Plan | Operate.
#[global] Instance eq_dec : EqDecision t.
Proof. solve_decision. Defined.

Definition CYCLE : list t := [Plan; Agent; Operate].

Definition parse (value : str) : option t :=
  let v := to_ascii_lowercase (trim value) in
  if bool_decide (v ∈ [$"agent"; $"act"; $"auto"; $"1"]) then Some Agent
  else if bool_decide (v ∈ [$"plan"; $"2"]) then Some Plan
  else if bool_decide (v ∈ [$"operate"; $"operation"; $"ops"; $"3"]) then Some Operate
  else if bool_decide (v ∈ [$"yolo"; $"4"; $"bypass"; $"bypass-permissions"; $"bypasspermissions"]) then Some Yolo
  else None.

Definition from_setting (value : str) : t :=
  let v := to_ascii_lowercase (trim value) in
  if bool_decide (v ∈ [$"multitask"; $"multi"; $"5"]) then Operate else default Agent (parse v).

Definition as_setting (m : t) : str :=
  match m with Agent | Auto | Yolo => $"agent" | Plan => $"plan" | Operate => $"operate" end.

Definition label (m : t) : str := match m with Agent | Auto | Yolo => $"ACT" | Plan => $"PLAN" | Operate => $"OPERATE" end.
Definition display_name (m : t) : str := match m with Agent | Auto | Yolo => $"Act" | Plan => $"Plan" | Operate => $"Operate" end.
Definition number (m : t) : char := match m with Agent | Auto | Yolo => chr "1" | Plan => chr "2" | Operate => chr "3" end.
Definition uses_agent_baseline (m : t) : bool := match m with Agent | Auto | Operate => true | _ => false end.
Definition mode_delegation_launch_floor (m : t) : Z := match m with Operate => 4 | _ => 1 end.
End AppMode.

(** ** Approval postures *)

Module ApprovalMode.
Inductive t := Auto | Bypass | Suggest | Never.
#[global] Instance eq_dec : EqDecision t.
Proof. solve_decision. Defined.

Definition PERMISSION_CYCLE : list t := [Suggest; Auto; Bypass].

Definition label (m : t) : str :=
  match m with Auto => $"AUTO" | Bypass => $"BYPASS" | Suggest => $"SUGGEST" | Never => $"NEVER" end.

Definition from_config_value (value : str) : option t :=
  let v := to_ascii_lowercase (trim value) in
  if bool_decide (v ∈ [$"auto"; $"auto-review"; $"auto_review"]) then Some Auto
  else if bool_decide (v ∈ [$"bypass"; $"yolo"; $"dontask"; $"dont_ask"; $"bypass-permissions"; $"bypasspermissions";
                            $"full-access"; $"full"]) then Some Bypass
  else if bool_decide (v ∈ [$"suggest"; $"suggested"; $"on-request"; $"untrusted"; $"ask"]) then Some Suggest
  else if bool_decide (v ∈ [$"never"; $"deny"; $"denied"]) then Some Never
  else None.

Definition cycle_permission_next (m : t) : t :=
  match position (fun x => bool_decide (x = m)) PERMISSION_CYCLE with
  | None => Suggest
  | Some i => default Suggest (PERMISSION_CYCLE !! (S i mod length PERMISSION_CYCLE)%nat)
  end.

Definition permission_chip_label (m : t) : str :=
  match m with Suggest => $"Ask" | Auto => $"Auto-Review" | Bypass => $"Full Access" | Never => $"Never" end.
End ApprovalMode.

(** [crates/tools/src/lib.rs]. *)
Module ApprovalRequirement.
Inductive t := Auto | Suggest | Required.
#[global] Instance eq_dec : EqDecision t.
Proof. solve_decision. Defined.
End ApprovalRequirement.

(** ** Origins of input *)

Module Provenance.
Inductive t := ExternalUser | Runtime | SubAgentHandoff | ImportedTranscript | MemoryRecall | AssistantGenerated.

Definition as_str (p : t) : str :=
  match p with
  | ExternalUser => $"external_user" | Runtime => $"runtime" | SubAgentHandoff => $"subagent_handoff"
  | ImportedTranscript => $"imported_transcript" | MemoryRecall => $"memory_recall"
  | AssistantGenerated => $"assistant_generated"
  end.

Definition can_authorize_work (p : t) : bool := match p with ExternalUser => true | _ => false end.
End Provenance.

(** ** Sandbox policies *)

Inductive SandboxPolicy :=
| DangerFullAccess
| ReadOnly
| ExternalSandbox (network_access : bool)
| WorkspaceWrite (writable_roots : list str) (network_access exclude_tmpdir exclude_slash_tmp : bool).

#[export] Instance SandboxPolicy_eq_dec : EqDecision SandboxPolicy.
Proof. solve_decision. Defined.

Definition default_sandbox : SandboxPolicy := WorkspaceWrite [] false false false.
Definition workspace_with_network : SandboxPolicy := WorkspaceWrite [] true false false.
Definition workspace_with_roots (roots : list str) (network : bool) : SandboxPolicy := WorkspaceWrite roots network false false.
Definition has_full_disk_read_access : bool := true.
Definition has_full_disk_write_access (p : SandboxPolicy) : bool :=
  match p with DangerFullAccess | ExternalSandbox _ => true | _ => false end.
Definition has_network_access (p : SandboxPolicy) : bool :=
  match p with DangerFullAccess => true | ReadOnly => false | ExternalSandbox n | WorkspaceWrite _ n _ _ => n end.
Definition should_sandbox (p : SandboxPolicy) : bool :=
  negb (match p with DangerFullAccess | ExternalSandbox _ => true | _ => false end).

Inductive SandboxPolicyBehavior := Sandboxed (p : SandboxPolicy) | NeedsApproval | Blocked.

Definition map_safety_level_to_behavior (level : SafetyLevel) (default_policy : SandboxPolicy) : SandboxPolicyBehavior :=
  match level with
  | Safe | WorkspaceSafe => Sandboxed default_policy
  | RequiresApproval => NeedsApproval
  | Dangerous => Blocked
  end.

(** ** Shell policies ([worker_profile.rs]) *)

Module ShellPolicy.
Inductive t := None | ReadOnly | Full.
#[global] Instance eq_dec : EqDecision t.
Proof. solve_decision. Defined.

Definition rank (s : t) : nat := match s with None => 0 | ReadOnly => 1 | Full => 2 end.
Definition from_legacy_allow_shell (allow_shell : bool) : t := if allow_shell then Full else None.
Definition allows_shell (s : t) : bool := negb (match s with None => true | _ => false end).
Definition min_with (a b : t) : t := if (rank a <=? rank b)%nat then a else b.
End ShellPolicy.

(** ** Modes as policies *)

Record ModeSessionPrefs := { agent_allow_shell : bool; agent_trust_mode : bool; agent_approval_mode : ApprovalMode.t }.

Record EffectiveModePolicy := {
  emp_mode : AppMode.t; emp_allow_shell : bool; emp_trust_mode : bool; emp_approval_mode : ApprovalMode.t }.

Definition base_policy_for_mode (m : AppMode.t) (prefs : ModeSessionPrefs) : EffectiveModePolicy :=
  match m with
  | AppMode.Plan =>
      {| emp_mode := m; emp_allow_shell := false; emp_trust_mode := false; emp_approval_mode := ApprovalMode.Suggest |}
  | AppMode.Agent | AppMode.Auto | AppMode.Operate =>
      {| emp_mode := m; emp_allow_shell := agent_allow_shell prefs; emp_trust_mode := agent_trust_mode prefs;
         emp_approval_mode := agent_approval_mode prefs |}
  | AppMode.Yolo =>
      {| emp_mode := m; emp_allow_shell := true; emp_trust_mode := true; emp_approval_mode := ApprovalMode.Bypass |}
  end.

Inductive PolicyNarrowingReason := NonAuthoritativeProvenance.
Definition reason_as_str (r : PolicyNarrowingReason) : str :=
  match r with NonAuthoritativeProvenance => $"non_authoritative_provenance" end.

Record PolicyNarrowingEvent := {
  reason : PolicyNarrowingReason; from_mode : str; to_mode : str;
  from_approval : ApprovalMode.t; to_approval : ApprovalMode.t; detail : str }.

Definition narrowing_message (e : PolicyNarrowingEvent) : str :=
  match reason e with
  | NonAuthoritativeProvenance =>
      $"Input provenance '" ++ detail e
      ++ $"' cannot inherit standing auto-approval authority; continuing with approvals required."
  end.

Definition transition (e : PolicyNarrowingEvent) : str :=
  from_mode e ++ $" (" ++ ApprovalMode.permission_chip_label (from_approval e) ++ $") -> " ++ to_mode e ++ $" ("
  ++ ApprovalMode.permission_chip_label (to_approval e) ++ $")".

(** ** The authority *)

Record TurnAuthority := {
  mode : AppMode.t; allow_shell : bool; trust_mode : bool; auto_approve : bool; approval_mode : ApprovalMode.t;
  dynamic_active_tools : list str; narrowing : option PolicyNarrowingEvent }.

Definition authority_status (a : TurnAuthority) : option str := narrowing_message <$> narrowing a.

Definition from_effective_fields (m : AppMode.t) (shell trust auto : bool) (approval : ApprovalMode.t) : TurnAuthority :=
  {| mode := m; allow_shell := shell; trust_mode := trust; auto_approve := auto; approval_mode := approval;
     dynamic_active_tools := []; narrowing := None |}.

Definition agent_approval_mode_for_turn (auto : bool) (approval : ApprovalMode.t) : ApprovalMode.t :=
  if auto then ApprovalMode.Bypass else approval.

Definition approval_mode_for_session (a : TurnAuthority) : ApprovalMode.t :=
  agent_approval_mode_for_turn (auto_approve a) (approval_mode a).

Definition for_tool_approval_decision (auto : bool) : TurnAuthority :=
  from_effective_fields (if auto then AppMode.Yolo else AppMode.Agent) true false auto
    (if auto then ApprovalMode.Bypass else ApprovalMode.Suggest).

Definition shell_policy_for_mode (m : AppMode.t) (allow : bool) : ShellPolicy.t :=
  if negb allow then ShellPolicy.None
  else match m with
       | AppMode.Plan => ShellPolicy.None
       | AppMode.Agent | AppMode.Auto | AppMode.Operate | AppMode.Yolo => ShellPolicy.Full
       end.

Definition shell_policy (a : TurnAuthority) : ShellPolicy.t := shell_policy_for_mode (mode a) (allow_shell a).

Definition workspace_write_policy (workspace : str) : SandboxPolicy := WorkspaceWrite [workspace] true false false.

Definition sandbox_policy_for_turn (m : AppMode.t) (approval : ApprovalMode.t) (configured : option str) (workspace : str)
    : SandboxPolicy :=
  let d := if bool_decide (m = AppMode.Plan) then ReadOnly
           else if bool_decide (m = AppMode.Yolo) || bool_decide (approval = ApprovalMode.Bypass) then DangerFullAccess
           else workspace_write_policy workspace in
  match d with
  | ReadOnly => ReadOnly
  | _ =>
      if bool_decide (configured = Some $"read-only") then ReadOnly
      else match d with
           | DangerFullAccess =>
               if bool_decide (configured = Some $"workspace-write") then workspace_write_policy workspace
               else if bool_decide (configured = Some $"external-sandbox") then ExternalSandbox true
               else d
           | _ => d
           end
  end.

Definition sandbox_policy (a : TurnAuthority) (workspace : str) (configured : option str) : SandboxPolicy :=
  sandbox_policy_for_turn (mode a) (approval_mode_for_session a) configured workspace.

Definition provenance_can_inherit_standing_auto_authority (p : Provenance.t) : bool :=
  match p with Provenance.ExternalUser | Provenance.Runtime | Provenance.SubAgentHandoff => true | _ => false end.

Definition permission_posture_allows_questions (approval : ApprovalMode.t) : bool :=
  bool_decide (approval <> ApprovalMode.Auto).

(** The fields that narrowing may change, as they are threaded. *)
Definition narrow (p : Provenance.t) (m : AppMode.t) (trust auto : bool) (approval : ApprovalMode.t)
    : AppMode.t * bool * bool * ApprovalMode.t * option PolicyNarrowingEvent :=
  let had := bool_decide (m = AppMode.Yolo) || trust || auto || bool_decide (approval = ApprovalMode.Bypass) in
  let m' := if bool_decide (m = AppMode.Yolo) then AppMode.Agent else m in
  let approval' := match approval with ApprovalMode.Auto | ApprovalMode.Bypass => ApprovalMode.Suggest | _ => approval end in
  (m', false, false, approval',
   if had then Some {| reason := NonAuthoritativeProvenance; from_mode := AppMode.as_setting m;
                       to_mode := AppMode.as_setting m'; from_approval := approval; to_approval := approval';
                       detail := Provenance.as_str p |}
   else None).

Definition effective_input_policy (p : Provenance.t) (requested : AppMode.t) (content : str) (shell trust auto : bool)
    (approval : ApprovalMode.t) : TurnAuthority :=
  let '(m, trust, auto, approval, event) :=
    if negb (provenance_can_inherit_standing_auto_authority p) then narrow p requested trust auto approval
    else (requested, trust, auto, approval, None) in
  {| mode := m; allow_shell := shell; trust_mode := trust;
     auto_approve := if bool_decide (approval = ApprovalMode.Bypass) then true else auto;
     approval_mode := approval; dynamic_active_tools := []; narrowing := event |}.

(** ** Decisions *)

Inductive ToolPermission := Allow | Prompt | Deny.
#[export] Instance ToolPermission_eq_dec : EqDecision ToolPermission.
Proof. solve_decision. Defined.

Definition resolve_tool_permission (a : TurnAuthority) (r : ApprovalRequirement.t) (is_non_bypassable : bool) : ToolPermission :=
  if bool_decide (approval_mode a = ApprovalMode.Never) && bool_decide (r <> ApprovalRequirement.Auto)
     && negb (auto_approve a) && bool_decide (mode a <> AppMode.Yolo)
  then Deny
  else match r with
       | ApprovalRequirement.Auto => Allow
       | ApprovalRequirement.Suggest | ApprovalRequirement.Required =>
           if is_non_bypassable then Prompt
           else if auto_approve a || bool_decide (approval_mode a = ApprovalMode.Bypass) || bool_decide (mode a = AppMode.Yolo)
           then Allow else Prompt
       end.

Inductive ApprovalRequestDisposition :=
| AutoApprove | AutoDenySessionDenied | AutoDenyFullAccessPolicyHold | AutoDenyNeverPosture | PromptUser.

Definition resolve_approval_request_disposition (a : TurnAuthority) (session_approved session_denied approval_force_prompt : bool)
    : ApprovalRequestDisposition :=
  if session_denied then AutoDenySessionDenied
  else
    let posture := resolve_tool_permission a ApprovalRequirement.Suggest false in
    if approval_force_prompt && bool_decide (posture = Allow) then AutoDenyFullAccessPolicyHold
    else if negb approval_force_prompt && (bool_decide (posture = Allow) || session_approved) then AutoApprove
    else if bool_decide (posture = Deny) then AutoDenyNeverPosture
    else PromptUser.
