(* ===== verification/WorkerProfile.v ===== *)
(** * The runtime profile of a worker

    [crates/tui/src/worker_profile.rs] with the Fleet roles of
    [tools/subagent/mod.rs] and the depth limits of [crates/config/src/lib.rs].
    Reading and writing profiles as JSON is not modelled. *)

From S2P Require Import Text Authority.

(** ** Fleet roles *)

Module FleetRole.
Inductive t := Worker | Scout | Planner | Reviewer | Builder | Verifier | Consultant | Custom.
#[global] Instance eq_dec : EqDecision t.
Proof. solve_decision. Defined.

Definition migrate_legacy_role_token (token : str) : option str :=
  let v := to_ascii_lowercase (trim token) in
  if bool_decide (v ∈ [$"general"; $"general-purpose"; $"general_purpose"; $"default"]) then Some $"worker"
  else if bool_decide (v ∈ [$"explore"; $"exploration"; $"explorer"]) then Some $"scout"
  else if bool_decide (v ∈ [$"plan"; $"planning"; $"awaiter"]) then Some $"planner"
  else if bool_decide (v ∈ [$"review"; $"code-review"; $"code_review"]) then Some $"reviewer"
  else if bool_decide (v ∈ [$"implementer"; $"implement"; $"implementation"]) then Some $"builder"
  else if bool_decide (v ∈ [$"verify"; $"verification"; $"validator"; $"tester"]) then Some $"verifier"
  else if bool_decide (v ∈ [$"oracle"; $"advisor"]) then Some $"consultant"
  else None.

Definition as_str (r : t) : str :=
  match r with
  | Worker => $"worker" | Scout => $"scout" | Planner => $"planner" | Reviewer => $"reviewer" | Builder => $"builder"
  | Verifier => $"verifier" | Consultant => $"consultant" | Custom => $"custom"
  end.

Definition from_str (s : str) : option t :=
  let normalized := to_ascii_lowercase (trim s) in
  let token := default normalized (migrate_legacy_role_token normalized) in
  if bool_decide (token = $"worker") then Some Worker
  else if bool_decide (token = $"scout") then Some Scout
  else if bool_decide (token = $"planner") then Some Planner
  else if bool_decide (token = $"reviewer") then Some Reviewer
  else if bool_decide (token = $"builder") then Some Builder
  else if bool_decide (token = $"verifier") then Some Verifier
  else if bool_decide (token = $"consultant") then Some Consultant
  else if bool_decide (token = $"custom") then Some Custom
  else None.

Definition legacy_type_name (r : t) : str :=
  match r with
  | Worker => $"general" | Scout => $"explore" | Planner => $"plan" | Reviewer => $"review" | Builder => $"implementer"
  | Verifier => $"verifier" | Consultant => $"consultant" | Custom => $"custom"
  end.
End FleetRole.

(** ** Profiles *)

Record PermissionSet := { write : bool; network : bool }.
Definition full : PermissionSet := {| write := true; network := true |}.
Definition read_only : PermissionSet := {| write := false; network := false |}.
Definition intersect (a b : PermissionSet) : PermissionSet :=
  {| write := write a && write b; network := network a && network b |}.

Inductive ToolScope := Inherit | Explicit (names : list str).
Inductive ModelRoute := InheritModel | Faster | AutoModel | Fixed (model : str).

Record WorkerRuntimeProfile := {
  role : FleetRole.t; permissions : PermissionSet; shell : ShellPolicy.t; tools : ToolScope; model : ModelRoute;
  provider : option str; reasoning_effort : option str; denied_tools : list str; max_spawn_depth : Z; max_steps : Z;
  background : bool }.

Definition READ_ONLY_MAX_STEPS : Z := 60.
Definition GENERAL_MAX_STEPS : Z := 120.
Definition DEFAULT_SPAWN_DEPTH : Z := 3.
Definition MAX_SPAWN_DEPTH_CEILING : Z := 8.

Definition default_max_steps (r : FleetRole.t) : Z :=
  match r with
  | FleetRole.Scout | FleetRole.Reviewer | FleetRole.Planner | FleetRole.Verifier | FleetRole.Consultant => READ_ONLY_MAX_STEPS
  | FleetRole.Builder | FleetRole.Worker | FleetRole.Custom => GENERAL_MAX_STEPS
  end.

Definition for_role (r : FleetRole.t) : WorkerRuntimeProfile :=
  let '(p, s) :=
    match r with
    | FleetRole.Scout | FleetRole.Reviewer => (read_only, ShellPolicy.ReadOnly)
    | FleetRole.Planner => (read_only, ShellPolicy.None)
    | FleetRole.Consultant => (read_only, ShellPolicy.None)
    | FleetRole.Verifier => (read_only, ShellPolicy.Full)
    | FleetRole.Builder | FleetRole.Worker => (full, ShellPolicy.Full)
    | FleetRole.Custom => (read_only, ShellPolicy.None)
    end in
  {| role := r; permissions := p; shell := s; tools := Inherit; model := InheritModel; provider := None;
     reasoning_effort := if bool_decide (r = FleetRole.Consultant) then Some $"high" else None;
     denied_tools := []; max_spawn_depth := DEFAULT_SPAWN_DEPTH; max_steps := default_max_steps r; background := true |}.

Definition default_profile : WorkerRuntimeProfile := for_role FleetRole.Worker.

(** The loop over [requested.denied_tools]. *)
Definition add_denied (denied : list str) (rule : str) : list str :=
  if bool_decide (rule ∈ denied) then denied else denied ++ [rule].

Definition derive_tools (parent requested : ToolScope) : ToolScope :=
  match parent, requested with
  | Explicit parent, Explicit child => Explicit (retain (fun name => bool_decide (name ∈ parent)) child)
  | Explicit parent, Inherit => Explicit parent
  | Inherit, child => child
  end.

Definition u32_saturating_sub (a b : Z) : Z := Z.max 0 (a - b).
Definition option_or {A} (a b : option A) : option A := match a with Some _ => a | None => b end.

Definition derive_child (self requested : WorkerRuntimeProfile) : WorkerRuntimeProfile :=
  {| role := role requested;
     permissions := intersect (permissions self) (permissions requested);
     shell := ShellPolicy.min_with (shell self) (shell requested);
     tools := derive_tools (tools self) (tools requested);
     model := model requested;
     provider := option_or (provider requested) (provider self);
     reasoning_effort := option_or (reasoning_effort requested) (reasoning_effort self);
     denied_tools := foldl add_denied (denied_tools self) (denied_tools requested);
     max_spawn_depth := Z.min (Z.min (max_spawn_depth requested) (u32_saturating_sub (max_spawn_depth self) 1)) MAX_SPAWN_DEPTH_CEILING;
     max_steps := max_steps requested;
     background := background requested |}.

Definition can_spawn_child (p : WorkerRuntimeProfile) : bool := 0 <? max_spawn_depth p.

Record ChildLaunchManifest := {
  owner_session : str; child_id : str; profile : WorkerRuntimeProfile; prompt : str; cwd : option str; worktree : bool;
  writable_roots : list str; writable_files : list str; coordination_contracts : list str;
  expected_artifact : option str; token_budget : option Z; resume_identity : option str; generation : Z }.
