(* ===== verification/AuthoritySpec.v ===== *)
(** * Properties of turn authority and of worker profiles *)

From S2P Require Import Text Authority WorkerProfile.

(** ** Approvals *)

(** Standing authority: what runs a promptable tool without a question. *)
Definition full_access (a : TurnAuthority) : Prop :=
  auto_approve a = true \/ approval_mode a = ApprovalMode.Bypass \/ mode a = AppMode.Yolo.

Definition never_asks (a : TurnAuthority) : Prop := approval_mode a = ApprovalMode.Never /\ ~ full_access a.

#[export] Instance full_access_dec a : Decision (full_access a).
Proof. unfold full_access. apply _. Defined.

Lemma permission_table a r nb :
  (resolve_tool_permission a r nb = Allow <-> r = ApprovalRequirement.Auto \/ (nb = false /\ full_access a)) /\
  (resolve_tool_permission a r nb = Deny <-> r <> ApprovalRequirement.Auto /\ never_asks a).
Proof.
  unfold resolve_tool_permission, never_asks, full_access.
  destruct a as [[] ? ? [] [] ? ?], r, nb; vm_compute; naive_solver.
Qed.

(** C33: which tools run, wait for an answer or are refused, and what becomes of
    a request that reached the user interface.  A tool runs without a question
    exactly when it needs none or standing authority covers a bypassable one;
    it is refused exactly under a posture that never asks.  A denial of the
    session comes first; a held tool is never approved without a person: under
    full access its request is denied, whatever the session granted. *)
Theorem approval_decisions_are_exact a :
  (forall r nb,
     (resolve_tool_permission a r nb = Allow <-> r = ApprovalRequirement.Auto \/ (nb = false /\ full_access a)) /\
     (resolve_tool_permission a r nb = Deny <-> r <> ApprovalRequirement.Auto /\ never_asks a)) /\
  (forall approved denied held,
     let d := resolve_approval_request_disposition a approved denied held in
     (d = AutoDenySessionDenied <-> denied = true) /\
     (d = AutoApprove <-> denied = false /\ held = false /\ (full_access a \/ approved = true)) /\
     (d = AutoDenyFullAccessPolicyHold <-> denied = false /\ held = true /\ full_access a) /\
     (d = AutoDenyNeverPosture <-> denied = false /\ never_asks a /\ (held = true \/ approved = false))).
Proof.
  split; [apply permission_table|]. intros approved denied held d. subst d. unfold resolve_approval_request_disposition.
  destruct (permission_table a ApprovalRequirement.Suggest false) as [Hallow Hdeny].
  assert (Hfa : full_access a <-> resolve_tool_permission a ApprovalRequirement.Suggest false = Allow) by naive_solver.
  assert (Hna : never_asks a <-> resolve_tool_permission a ApprovalRequirement.Suggest false = Deny).
  { rewrite Hdeny. split; [intros Hn; by split|by intros [_ Hn]]. }
  rewrite Hfa, Hna. destruct (resolve_tool_permission a ApprovalRequirement.Suggest false), approved, denied, held; vm_compute; intuition congruence.
Qed.


(** The step from Auto-Review to asking is taken without a record. *)
Example auto_review_is_narrowed_silently :
  let a := effective_input_policy Provenance.ImportedTranscript AppMode.Agent [] true false false ApprovalMode.Auto in
  approval_mode a = ApprovalMode.Suggest /\ narrowing a = None.
Proof. vm_compute. done. Qed.

(** The record names a handoff from a sub-agent as a case of narrowing, which
    it is not. *)
Example handoff_keeps_full_access :
  full_access (effective_input_policy Provenance.SubAgentHandoff AppMode.Agent [] true true true ApprovalMode.Bypass).
Proof. vm_compute. by left. Qed.

(** ** Worker profiles *)

Definition in_scope (t : ToolScope) (name : str) : Prop := match t with Inherit => True | Explicit names => name ∈ names end.

(** [q] has no capability that [p] lacks and every restriction of [p]. *)
Record within (q p : WorkerRuntimeProfile) : Prop := {
  within_write : write (permissions q) = true -> write (permissions p) = true;
  within_network : network (permissions q) = true -> network (permissions p) = true;
  within_shell : (ShellPolicy.rank (shell q) <= ShellPolicy.rank (shell p))%nat;
  within_tools : forall name, in_scope (tools q) name -> in_scope (tools p) name;
  within_denied : forall rule, rule ∈ denied_tools p -> rule ∈ denied_tools q }.

#[export] Instance within_preorder : PreOrder within.
Proof.
  split.
  - intros p. by split.
  - intros a b c [] []. split; eauto with lia.
Qed.

Lemma add_denied_sub rules l rule : rule ∈ foldl add_denied l rules <-> rule ∈ l \/ rule ∈ rules.
Proof.
  revert l. induction rules as [|x rules IH]; intros l; cbn; [set_solver|]. rewrite IH. unfold add_denied.
  case_bool_decide; set_solver.
Qed.

Lemma derive_child_within p req : within (derive_child p req) p.
Proof.
  split; cbn.
  - by intros [? _]%andb_true_iff.
  - by intros [? _]%andb_true_iff.
  - unfold ShellPolicy.min_with. destruct (shell p), (shell req); cbn; lia.
  - intros name. destruct (tools p) as [|parent], (tools req) as [|child]; cbn; [done|done|done|].
    rewrite elem_of_retain, bool_decide_eq_true. naive_solver.
  - intros rule Hr. apply add_denied_sub. by left.
Qed.

(** A chain of delegations: each worker spawns while its budget lasts. *)
Inductive spawned : WorkerRuntimeProfile -> list WorkerRuntimeProfile -> WorkerRuntimeProfile -> Prop :=
| spawned_nil p : spawned p [] p
| spawned_cons p req reqs q : can_spawn_child p = true -> spawned (derive_child p req) reqs q -> spawned p (req :: reqs) q.

Lemma derive_child_depth p req :
  can_spawn_child p = true ->
  max_spawn_depth (derive_child p req) <= max_spawn_depth p - 1 /\ max_spawn_depth (derive_child p req) <= MAX_SPAWN_DEPTH_CEILING.
Proof. unfold can_spawn_child. intros H%Z.ltb_lt. cbn. unfold u32_saturating_sub. lia. Qed.

(** C34: along every chain of delegations, whatever each child asks for, a worker
    has no capability its ancestors lack and keeps each of their restrictions;
    it has also asked for what it has.  The chain is no longer than the first
    worker's budget, nor than one more than the ceiling. *)
Theorem delegation_is_confined p reqs q :
  spawned p reqs q ->
  within q p /\ zlen reqs <= Z.max 0 (max_spawn_depth p) /\ zlen reqs <= MAX_SPAWN_DEPTH_CEILING + 1 /\
  (forall req, last reqs = Some req ->
     (write (permissions q) = true -> write (permissions req) = true) /\
     (network (permissions q) = true -> network (permissions req) = true) /\
     (ShellPolicy.rank (shell q) <= ShellPolicy.rank (shell req))%nat /\
     (forall name, in_scope (tools q) name -> in_scope (tools req) name) /\
     (forall rule, rule ∈ denied_tools req -> rule ∈ denied_tools q)).
Proof.
  assert (Hbound : forall p reqs q, spawned p reqs q -> zlen reqs <= Z.max 0 (max_spawn_depth p)).
  { induction 1 as [p0|p0 req reqs0 q0 Hc Hs IH]; [unfold zlen; cbn; lia|].
    pose proof (derive_child_depth p0 req Hc) as [Hd _]. unfold can_spawn_child in Hc. apply Z.ltb_lt in Hc.
    unfold zlen in *. rewrite length_cons. lia. }
  intros H. split_and!; [| by eapply Hbound| |].
  - induction H as [|p req reqs q Hc Hs IH]; [done|]. etransitivity; [exact IH|apply derive_child_within].
  - destruct H as [|p req reqs q Hc Hs]; [unfold zlen, MAX_SPAWN_DEPTH_CEILING; cbn; lia|]. apply Hbound in Hs. pose proof (derive_child_depth p req Hc) as [_ Hd].
    unfold zlen, MAX_SPAWN_DEPTH_CEILING in *. rewrite length_cons. lia.
  - intros req Hl. induction H as [|p req' reqs q Hc Hs IH]; [done|]. destruct reqs as [|r reqs]; [|by apply IH].
    injection Hl as <-. inversion Hs; subst. cbn. split_and!.
    + by intros [_ ?]%andb_true_iff.
    + by intros [_ ?]%andb_true_iff.
    + unfold ShellPolicy.min_with. destruct (shell p), (shell req'); cbn; lia.
    + intros name. destruct (tools p) as [|parent], (tools req') as [|child]; cbn; [done|done|done|].
      rewrite elem_of_retain. naive_solver.
    + intros rule Hr. apply add_denied_sub. by right.
Qed.

Lemma delegation_is_confined_witness :
  let p := for_role FleetRole.Scout in
  let q := derive_child (derive_child p (for_role FleetRole.Builder)) (for_role FleetRole.Worker) in
  spawned p [for_role FleetRole.Builder; for_role FleetRole.Worker] q /\ within q p /\ shell q = ShellPolicy.ReadOnly /\ max_spawn_depth q = 1.
Proof.
  intros p q. assert (Hs : spawned p [for_role FleetRole.Builder; for_role FleetRole.Worker] q) by (constructor; [done|constructor; [done|constructor]]).
  split_and!; [exact Hs|apply (delegation_is_confined p _ q Hs)|done|done].
Defined.

(** The turn budget is not part of the bound: a child is given the steps it asks
    for. *)
Example steps_are_not_bounded_by_the_parent :
  max_steps (derive_child (for_role FleetRole.Scout) (for_role FleetRole.Builder)) = GENERAL_MAX_STEPS /\
  max_steps (for_role FleetRole.Scout) = READ_ONLY_MAX_STEPS.
Proof. done. Qed.

(** Every role is read back from its label. *)
Lemma role_round_trip r : FleetRole.from_str (FleetRole.as_str r) = Some r /\ FleetRole.from_str (FleetRole.legacy_type_name r) = Some r.
Proof. destruct r; vm_compute; done. Qed.
