(* ===== verification/NetworkPolicy.v ===== *)
(** * Network policy and the guard of fetches

    [crates/tui/src/network_policy.rs] and [crates/tui/src/tools/web/guard.rs].
    An IPv4 address is the 32-bit number [u32::from] gives, an IPv6 address the
    128-bit one; the address predicates of the standard library are written
    out.  URL parsing, DNS, the reading of a literal address and its display
    are parameters of the guard.  The session cache's lock is never poisoned
    (no holder panics); the audit log is the list of what the decider hands to
    its auditor, whose writing of a file, with its timestamp, is best effort. *)

From S2P Require Import Text Tools.

(** ** Decisions and policies *)

Inductive Decision := Allow | Deny | Prompt.
#[export] Instance Decision_eq_dec : EqDecision Decision.
Proof. solve_decision. Defined.

Definition decision_as_str (d : Decision) : str := match d with Allow => $"Allow" | Deny => $"Deny" | Prompt => $"Prompt" end.

Definition decision_parse (value : str) : Decision :=
  let v := to_ascii_lowercase (trim value) in
  if bool_decide (v = $"allow") then Allow
  else if bool_decide (v = $"deny") || bool_decide (v = $"block") then Deny
  else Prompt.

(** [DecisionToml] and [Decision] have the same values. *)
Record NetworkPolicy := {
  default_decision : Decision; allow : list str; deny : list str; proxy : list str; proxy_fake_ip_cidrs : list str;
  audit : bool }.

Definition default_policy : NetworkPolicy :=
  {| default_decision := Prompt; allow := []; deny := []; proxy := []; proxy_fake_ip_cidrs := []; audit := true |}.

Definition dot : char := chr ".".

Definition normalize_host (host : str) : str :=
  let trimmed := to_ascii_lowercase (trim_end_by (N.eqb dot) (trim host)) in
  match strip_prefix $"*." trimmed with
  | Some rest => dot :: rest
  | None => trimmed
  end.

Definition host_matches (entry normalized_host : str) : bool :=
  let entry_norm := normalize_host entry in
  match strip_prefix [dot] entry_norm with
  | Some suffix => if str_is_empty suffix then false else ends_with (dot :: suffix) normalized_host
  | None => bool_decide (entry_norm = normalized_host)
  end.

Definition any_matches (entries : list str) (normalized : str) : bool := existsb (fun e => host_matches e normalized) entries.

Definition decide_host (p : NetworkPolicy) (host : str) : Decision :=
  let normalized := normalize_host host in
  if str_is_empty normalized then default_decision p
  else if any_matches (deny p) normalized then Deny
  else if any_matches (allow p) normalized then Allow
  else default_decision p.

Definition add_allow (p : NetworkPolicy) (host : str) : NetworkPolicy :=
  let normalized := normalize_host host in
  if str_is_empty normalized then p
  else if existsb (fun existing => bool_decide (normalize_host existing = normalized)) (allow p) then p
  else {| default_decision := default_decision p; allow := allow p ++ [normalized]; deny := deny p; proxy := proxy p;
          proxy_fake_ip_cidrs := proxy_fake_ip_cidrs p; audit := audit p |}.

Definition trusts_proxy_fakeip_host (p : NetworkPolicy) (host : str) : bool :=
  let normalized := normalize_host host in
  if str_is_empty normalized then false
  else if any_matches (deny p) normalized then false
  else any_matches (proxy p) normalized.

(** ** Addresses *)

Definition Ipv4 := Z.
Definition Ipv6 := Z.
Inductive IpAddr := V4 (ip : Ipv4) | V6 (ip : Ipv6).

Definition octet (k : Z) (ip : Ipv4) : Z := Z.land (Z.shiftr ip (8 * (3 - k))) 255.
Definition segment (k : Z) (ip : Ipv6) : Z := Z.land (Z.shiftr ip (16 * (7 - k))) 65535.

(** [str::parse::<u8>]. *)
Definition digits_value (ds : str) : Z := foldl (fun n c => 10 * n + (Z.of_N c - 48)) 0 ds.
Definition parse_u8 (s : str) : option Z :=
  let ds := default s (strip_prefix $"+" s) in
  if str_is_empty ds || negb (forallb is_ascii_digit ds) || (255 <? digits_value ds) then None else Some (digits_value ds).

(** [str::parse::<Ipv4Addr>]: four decimal octets of at most three digits,
    without leading zeros. *)
Definition parse_octet (s : str) : option Z :=
  if str_is_empty s || (3 <? length s)%nat || negb (forallb is_ascii_digit s)
     || (bool_decide (head s = Some 48%N) && (1 <? length s)%nat) || (255 <? digits_value s)
  then None else Some (digits_value s).

Definition parse_ipv4 (s : str) : option Ipv4 :=
  match split_char dot s with
  | [a; b; c; d] =>
      a ← parse_octet a; b ← parse_octet b; c ← parse_octet c; d ← parse_octet d;
      Some (a * 2 ^ 24 + b * 2 ^ 16 + c * 2 ^ 8 + d)
  | _ => None
  end.

Definition parse_ipv4_cidr (cidr : str) : option (Ipv4 * Z) :=
  '(addr, prefix) ← split_once $"/" cidr;
  base ← parse_ipv4 (trim addr);
  prefix ← parse_u8 (trim prefix);
  if 32 <? prefix then None else Some (base, prefix).

Definition parse_trusted_fakeip_cidr (cidr : str) : option (Ipv4 * Z) :=
  '(base, prefix) ← parse_ipv4_cidr cidr;
  if (15 <=? prefix) && (octet 0 base =? 198) && ((18 <=? octet 1 base) && (octet 1 base <=? 19)) then Some (base, prefix) else None.

(** [u32::MAX << (32 - prefix)]. *)
Definition mask (prefix : Z) : Z := Z.land (Z.shiftl u32_max (32 - prefix)) u32_max.

Definition ipv4_in_cidr (ip base : Ipv4) (prefix : Z) : bool :=
  if prefix =? 0 then true else Z.land ip (mask prefix) =? Z.land base (mask prefix).

(** ** The session cache and the auditor *)

Record NetworkSessionCache := { approved : gset str; denied : gset str }.
Definition new_cache : NetworkSessionCache := {| approved := ∅; denied := ∅ |}.
Definition is_approved (c : NetworkSessionCache) (host : str) : bool := bool_decide (normalize_host host ∈ approved c).
Definition is_denied (c : NetworkSessionCache) (host : str) : bool := bool_decide (normalize_host host ∈ denied c).
Definition cache_approve (c : NetworkSessionCache) (host : str) : NetworkSessionCache :=
  {| approved := {[ normalize_host host ]} ∪ approved c; denied := denied c ∖ {[ normalize_host host ]} |}.
Definition cache_deny (c : NetworkSessionCache) (host : str) : NetworkSessionCache :=
  {| approved := approved c ∖ {[ normalize_host host ]}; denied := {[ normalize_host host ]} ∪ denied c |}.

Definition sanitize_field (s : str) : str := (fun c => if is_whitespace c then chr "_" else c) <$> s.

(** [try_record]: the line written at a time. *)
Definition audit_line (ts host tool decision : str) : str :=
  ts ++ $" network " ++ sanitize_field host ++ $" " ++ sanitize_field tool ++ $" " ++ decision.

(** ** The decider *)

Record AuditRecord := { rec_host : str; rec_tool : str; rec_label : str }.

(** [auditor] is the [enabled] flag of the auditor, if there is one. *)
Record NetworkPolicyDecider := {
  policy : NetworkPolicy; cache : NetworkSessionCache; auditor : option bool; trusted_fakeip_cidrs : list (Ipv4 * Z);
  log : list AuditRecord }.

Definition new_decider (p : NetworkPolicy) (auditor : option bool) : NetworkPolicyDecider :=
  {| policy := p; cache := new_cache; auditor := auditor;
     trusted_fakeip_cidrs := omap parse_trusted_fakeip_cidr (proxy_fake_ip_cidrs p); log := [] |}.

Definition with_trusted_fakeip_cidrs (d : NetworkPolicyDecider) (cidrs : list str) : NetworkPolicyDecider :=
  {| policy := policy d; cache := cache d; auditor := auditor d;
     trusted_fakeip_cidrs := trusted_fakeip_cidrs d ++ omap parse_trusted_fakeip_cidr cidrs; log := log d |}.

Definition is_trusted_fakeip_addr (d : NetworkPolicyDecider) (ip : IpAddr) : bool :=
  match ip with
  | V4 v4 => existsb (fun c => ipv4_in_cidr v4 c.1 c.2) (trusted_fakeip_cidrs d)
  | V6 _ => false
  end.

Definition audit_record (d : NetworkPolicyDecider) (host tool label : str) : NetworkPolicyDecider :=
  match auditor d with
  | Some true =>
      {| policy := policy d; cache := cache d; auditor := auditor d; trusted_fakeip_cidrs := trusted_fakeip_cidrs d;
         log := log d ++ [{| rec_host := host; rec_tool := tool; rec_label := label |}] |}
  | _ => d
  end.

Definition evaluate (d : NetworkPolicyDecider) (host tool : str) : Decision * NetworkPolicyDecider :=
  let normalized := normalize_host host in
  if str_is_empty normalized then (default_decision (policy d), d)
  else if is_denied (cache d) normalized then (Deny, audit_record d normalized tool $"Deny")
  else if is_approved (cache d) normalized then (Allow, audit_record d normalized tool $"Allow")
  else
    let decision := decide_host (policy d) normalized in
    (decision,
     match decision with
     | Allow => audit_record d normalized tool $"Allow"
     | Deny => audit_record d normalized tool $"Deny"
     | Prompt => d
     end).

Definition with_cache (d : NetworkPolicyDecider) (c : NetworkSessionCache) : NetworkPolicyDecider :=
  {| policy := policy d; cache := c; auditor := auditor d; trusted_fakeip_cidrs := trusted_fakeip_cidrs d; log := log d |}.

Definition approve_session (d : NetworkPolicyDecider) (host tool : str) : NetworkPolicyDecider :=
  audit_record (with_cache d (cache_approve (cache d) host)) host tool $"Prompt-Approved".

Definition deny_session (d : NetworkPolicyDecider) (host tool : str) : NetworkPolicyDecider :=
  audit_record (with_cache d (cache_deny (cache d) host)) host tool $"Prompt-Denied".

Definition approve_persistent (d : NetworkPolicyDecider) (host tool : str) : NetworkPolicyDecider :=
  audit_record
    {| policy := add_allow (policy d) host; cache := cache_approve (cache d) host; auditor := auditor d;
       trusted_fakeip_cidrs := trusted_fakeip_cidrs d; log := log d |} host tool $"Prompt-Approved".

(** ** Restricted addresses *)

Definition is_restricted_v4 (ip : Ipv4) : bool :=
  let a := octet 0 ip in
  let b := octet 1 ip in
  (a =? 127)                                                              (* loopback *)
  || (a =? 10) || ((a =? 172) && (16 <=? b) && (b <=? 31)) || ((a =? 192) && (b =? 168))  (* private *)
  || ((a =? 169) && (b =? 254))                                           (* link-local *)
  || ((224 <=? a) && (a <=? 239))                                         (* multicast *)
  || ((a =? 255) && (b =? 255) && (octet 2 ip =? 255) && (octet 3 ip =? 255))  (* broadcast *)
  || (ip =? 0)                                                            (* unspecified *)
  || ((a =? 100) && (64 <=? b) && (b <=? 127))
  || (ip =? 169 * 2 ^ 24 + 254 * 2 ^ 16 + 169 * 2 ^ 8 + 254)
  || ((a =? 198) && (18 <=? b) && (b <=? 19))
  || (240 <=? a).

(** The first ten octets are zero and the next two are [0xff]. *)
Definition is_ipv4_mapped (ip : Ipv6) : bool := Z.shiftr ip 32 =? 65535.
Definition to_ipv4_mapped (ip : Ipv6) : option Ipv4 := if is_ipv4_mapped ip then Some (Z.land ip u32_max) else None.

Definition is_restricted_v6 (ip : Ipv6) : bool :=
  if (ip =? 0) || is_ipv4_mapped ip then true
  else match to_ipv4_mapped ip with
       | Some v4 => is_restricted_v4 v4
       | None =>
           (ip =? 1) || (Z.shiftr ip 120 =? 255)
           || ((64512 <=? segment 0 ip) && (segment 0 ip <=? 65023))
           || ((65152 <=? segment 0 ip) && (segment 0 ip <=? 65215))
       end.

Definition is_restricted_ip (ip : IpAddr) : bool :=
  match ip with V4 v4 => is_restricted_v4 v4 | V6 v6 => is_restricted_v6 v6 end.

(** ** The guard of a fetch *)

Section guard.
Context (ip_display : IpAddr -> str).

Definition policy_verdict (host : str) (d : Decision) : result ToolError unit :=
  match d with
  | Allow => Ok tt
  | Deny => Err (PermissionDenied ($"network call to '" ++ host ++ $"' blocked by network policy"))
  | Prompt =>
      Err (PermissionDenied ($"network call to '" ++ host ++ $"' requires approval; re-run after `/network allow " ++ host
                             ++ $"` or set network.default = " ++ [34%N] ++ $"allow" ++ [34%N] ++ $" in config"))
  end.

Definition validate_network_policy (host : str) (decider : option NetworkPolicyDecider) (tool : str)
    : result ToolError unit * option NetworkPolicyDecider :=
  match decider with
  | None => (Ok tt, None)
  | Some d => let '(decision, d) := evaluate d host tool in (policy_verdict host decision, Some d)
  end.

Definition restricted_error (prefix : str) (ip : IpAddr) : ToolError :=
  PermissionDenied (prefix ++ ip_display ip ++ $" is a restricted address (private/loopback/link-local)").

Definition validate_dns_resolved_ip (host : str) (ip : IpAddr) (decider : option NetworkPolicyDecider) (tool : str)
    : result ToolError unit * option NetworkPolicyDecider :=
  if negb (is_restricted_ip ip) then (Ok tt, decider)
  else match decider with
       | Some d =>
           if is_trusted_fakeip_addr d ip && trusts_proxy_fakeip_host (policy d) host
           then (Ok tt, Some (audit_record d host tool $"TrustedProxyFakeIp-Allow"))
           else (Err (restricted_error $"resolved IP " ip), decider)
       | None => (Err (restricted_error $"resolved IP " ip), None)
       end.

(** The loop over the resolved addresses. *)
Fixpoint validate_addresses (host : str) (decider : option NetworkPolicyDecider) (tool : str) (first : option IpAddr)
    (addrs : list IpAddr) : result ToolError (option IpAddr) * option NetworkPolicyDecider :=
  match addrs with
  | [] => (Ok first, decider)
  | ip :: addrs =>
      match validate_dns_resolved_ip host ip decider tool with
      | (Ok _, decider) =>
          validate_addresses host decider tool (match first with None => Some ip | Some _ => first end) addrs
      | (Err e, decider) => (Err e, decider)
      end
  end.

(** What the guard reads of a [reqwest::Url]. *)
Record Url := { scheme : str; host_str : option str }.

(** [Ok None] for a literal address, [Ok (Some (host, ip))] for a pinned one. *)
Definition validate_fetch_target (parse_ip : str -> option IpAddr) (lookup_host : str -> result str (list IpAddr))
    (u : Url) (decider : option NetworkPolicyDecider) (tool : str)
    : result ToolError (option (str * IpAddr)) * option NetworkPolicyDecider :=
  if bool_decide (scheme u <> $"http") && bool_decide (scheme u <> $"https")
  then (Err (InvalidInput $"only http:// and https:// URLs are supported"), decider)
  else match to_ascii_lowercase <$> host_str u with
  | None => (Err (InvalidInput $"URL must include a host"), decider)
  | Some host =>
      match validate_network_policy host decider tool with
      | (Err e, decider) => (Err e, decider)
      | (Ok _, decider) =>
          if bool_decide (host = $"localhost") || bool_decide (host = $"localhost.localdomain")
          then (Err (PermissionDenied $"requests to localhost are not allowed"), decider)
          else
            let ip_candidate := default host (s ← strip_prefix $"[" host; strip_suffix $"]" s) in
            match parse_ip ip_candidate with
            | Some ip =>
                if is_restricted_ip ip then (Err (restricted_error $"IP " ip), decider) else (Ok None, decider)
            | None =>
                match lookup_host host with
                | Err e =>
                    (Err (PermissionDenied ($"could not resolve host before " ++ tool ++ $" request: " ++ e)), decider)
                | Ok addrs =>
                    match validate_addresses host decider tool None addrs with
                    | (Err e, decider) => (Err e, decider)
                    | (Ok None, decider) =>
                        (Err (PermissionDenied ($"host resolved to no addresses before " ++ tool ++ $" request")), decider)
                    | (Ok (Some ip), decider) => (Ok (Some (host, ip)), decider)
                    end
                end
            end
      end
  end.
End guard.
