(* ===== verification/NetworkPolicySpec.v ===== *)
(** * Properties of the network policy and of the guard of fetches *)

From S2P Require Import Text Tools NetworkPolicy.

(** ** Addresses *)

Definition ip4 (a b c d : Z) : Ipv4 := a * 2 ^ 24 + b * 2 ^ 16 + c * 2 ^ 8 + d.

Lemma octet_div k ip : 0 <= k <= 3 -> octet k ip = (ip / 2 ^ (8 * (3 - k))) mod 256.
Proof. intros. unfold octet. rewrite Z.shiftr_div_pow2 by lia. by change 255 with (Z.ones 8); rewrite Z.land_ones. Qed.

Lemma ipv4_parts ip :
  0 <= ip < 2 ^ 32 ->
  exists r, ip = octet 0 ip * 2 ^ 24 + octet 1 ip * 2 ^ 16 + r /\ 0 <= r < 2 ^ 16 /\ 0 <= octet 0 ip < 256 /\ 0 <= octet 1 ip < 256.
Proof.
  intros H. rewrite !octet_div by lia. change (2 ^ (8 * (3 - 0))) with 16777216. change (2 ^ (8 * (3 - 1))) with 65536.
  exists (ip mod 65536). Z.to_euclidean_division_equations. lia.
Qed.

(** The blocks an IPv4 fetch may not reach, by their first and last address. *)
Definition restricted_blocks : list (Ipv4 * Ipv4) :=
  [(0, 0);                                          (* unspecified *)
   (ip4 10 0 0 0, ip4 10 255 255 255); (ip4 172 16 0 0, ip4 172 31 255 255); (ip4 192 168 0 0, ip4 192 168 255 255);
   (ip4 100 64 0 0, ip4 100 127 255 255);           (* shared address space *)
   (ip4 127 0 0 0, ip4 127 255 255 255);            (* loopback *)
   (ip4 169 254 0 0, ip4 169 254 255 255);          (* link-local, metadata *)
   (ip4 198 18 0 0, ip4 198 19 255 255);            (* benchmarks *)
   (ip4 224 0 0 0, ip4 255 255 255 255)].           (* multicast, reserved, broadcast *)

Definition in_block (ip : Z) (b : Z * Z) : Prop := b.1 <= ip <= b.2.

Lemma restricted_v4_spec ip : 0 <= ip < 2 ^ 32 -> is_restricted_v4 ip = true <-> Exists (in_block ip) restricted_blocks.
Proof.
  intros H. destruct (ipv4_parts ip H) as (r & E & Hr & Ha & Hb).
  unfold restricted_blocks. rewrite !Exists_cons, Exists_nil. unfold in_block. cbn [fst snd]. unfold is_restricted_v4.
  set (a := octet 0 ip) in *. set (b := octet 1 ip) in *. set (c := octet 2 ip). set (d := octet 3 ip). cbv zeta.
  assert (Hnet : forall x lo hi, 0 <= lo -> hi <= 255 -> ip4 x lo 0 0 <= ip <= ip4 x hi 255 255 <-> a = x /\ lo <= b <= hi).
  { intros x lo hi. unfold ip4. lia. }
  assert (Hoct : forall x y, ip4 x 0 0 0 <= ip <= ip4 y 255 255 255 <-> x <= a <= y) by (intros x y; unfold ip4; lia).
  assert (Hmeta : ip = 169 * 2 ^ 24 + 254 * 2 ^ 16 + 169 * 2 ^ 8 + 254 -> a = 169 /\ b = 254) by lia.
  assert (Hzero : 0 <= ip <= 0 <-> ip = 0) by lia. rewrite Hzero, !Hoct, !Hnet by lia. clear Hnet Hoct Hzero E Hr.
  rewrite !orb_true_iff, !andb_true_iff, !Z.eqb_eq, !Z.leb_le. revert Ha Hb Hmeta. generalize (ip = 0), (ip = 169 * 2 ^ 24 + 254 * 2 ^ 16 + 169 * 2 ^ 8 + 254).
  clearbody a b c d. clear H. intros P Q Ha Hb HQ. split; intros Hx.
  - destruct_or! Hx; try (apply HQ in Hx); first [tauto | lia].
  - destruct_or! Hx; first [tauto | lia].
Qed.

(** The trusted placeholder networks lie in 198.18.0.0/15. *)
Definition benchmark_block : Z * Z := (ip4 198 18 0 0, ip4 198 19 255 255).

Lemma mask_high ip base prefix i :
  15 <= prefix <= 32 -> 17 <= i < 32 -> Z.land ip (mask prefix) = Z.land base (mask prefix) -> Z.testbit ip i = Z.testbit base i.
Proof.
  intros Hp Hi E. assert (Hm : Z.testbit (mask prefix) i = true).
  { unfold mask. rewrite Z.land_spec, Z.shiftl_spec by lia. unfold u32_max. change (2 ^ 32 - 1) with (Z.ones 32).
    rewrite !Z.ones_spec_low by lia. done. }
  apply (f_equal (fun z => Z.testbit z i)) in E. by rewrite !Z.land_spec, Hm, !andb_true_r in E.
Qed.

Lemma same_network ip base prefix :
  0 <= ip < 2 ^ 32 -> 0 <= base < 2 ^ 32 -> 15 <= prefix <= 32 -> ipv4_in_cidr ip base prefix = true -> ip / 2 ^ 17 = base / 2 ^ 17.
Proof.
  intros Hi Hb Hp H. unfold ipv4_in_cidr in H. rewrite (proj2 (Z.eqb_neq prefix 0)) in H by lia. apply Z.eqb_eq in H.
  rewrite <-!Z.shiftr_div_pow2 by lia. apply Z.bits_inj'. intros n Hn. rewrite !Z.shiftr_spec by lia.
  destruct (Z.lt_ge_cases (n + 17) 32); [apply (mask_high ip base prefix); [lia|lia|done]|].
  assert (Hhigh : forall z, 0 <= z < 2 ^ 32 -> Z.testbit z (n + 17) = false); [|by rewrite !Hhigh].
  intros z Hz. rewrite <-(Z.mod_small z (2 ^ 32)) by lia. apply Z.mod_pow2_bits_high. lia.
Qed.

Lemma digits_nonneg ds n : forallb is_ascii_digit ds = true -> 0 <= n -> 0 <= foldl (fun n c => 10 * n + (Z.of_N c - 48)) n ds.
Proof.
  revert n. induction ds as [|c ds IH]; intros n; cbn; [done|]. intros [Hc Hds]%andb_true_iff Hn. apply IH; [done|].
  unfold is_ascii_digit in Hc. rewrite andb_true_iff, !N.leb_le in Hc. lia.
Qed.

Lemma parse_octet_range s n : parse_octet s = Some n -> 0 <= n <= 255.
Proof.
  unfold parse_octet, digits_value. destruct (_ || _) eqn:E; [done|]. intros [= <-]. rewrite !orb_false_iff in E.
  destruct E as [[[_ Hd] _] Hle]. rewrite Z.ltb_ge in Hle. rewrite negb_false_iff in Hd. split; [by apply digits_nonneg|exact Hle].
Qed.

Lemma parse_ipv4_range s ip : parse_ipv4 s = Some ip -> 0 <= ip < 2 ^ 32.
Proof.
  unfold parse_ipv4. destruct (split_char dot s) as [|a [|b [|c [|d [|]]]]]; try done.
  intros (x & Hx & (y & Hy & (z & Hz & (w & Hw & [= <-])%bind_Some)%bind_Some)%bind_Some)%bind_Some.
  apply parse_octet_range in Hx, Hy, Hz, Hw. lia.
Qed.

Lemma trusted_cidr_spec cidr base prefix :
  parse_trusted_fakeip_cidr cidr = Some (base, prefix) ->
  0 <= base < 2 ^ 32 /\ 15 <= prefix <= 32 /\ base / 2 ^ 17 = 198 * 2 ^ 7 + 9.
Proof.
  unfold parse_trusted_fakeip_cidr, parse_ipv4_cidr. intros ([b p] & H & Hc)%bind_Some.
  apply bind_Some in H as ([addr pre] & _ & (b' & Hb & (p' & _ & Hp)%bind_Some)%bind_Some). destruct (32 <? p') eqn:Ep; [done|]. injection Hp as -> ->.
  destruct (_ && _) eqn:E in Hc; [|done]. injection Hc as -> ->. apply parse_ipv4_range in Hb.
  rewrite !andb_true_iff, Z.eqb_eq, !Z.leb_le in E. rewrite Z.ltb_ge in Ep. split_and!; [lia..|].
  destruct (ipv4_parts base Hb) as (r & Er & Hr & _). destruct E as [[_ Ha] Hb1]. rewrite Ha in Er.
  Z.to_euclidean_division_equations. lia.
Qed.

Lemma trusted_network ip cidr base prefix :
  0 <= ip < 2 ^ 32 -> parse_trusted_fakeip_cidr cidr = Some (base, prefix) -> ipv4_in_cidr ip base prefix = true ->
  in_block ip benchmark_block.
Proof.
  intros Hip (Hb & Hp & Hn)%trusted_cidr_spec H. pose proof (same_network ip base prefix Hip Hb Hp H) as E. rewrite Hn in E.
  unfold in_block, benchmark_block, ip4. cbn [fst snd]. Z.to_euclidean_division_equations. lia.
Qed.

(** The blocks an IPv6 fetch may not reach. *)
Definition restricted_blocks6 : list (Ipv6 * Ipv6) :=
  [(0, 0); (1, 1);                                                 (* unspecified, loopback *)
   (65535 * 2 ^ 32, 65536 * 2 ^ 32 - 1);                           (* IPv4-mapped *)
   (64512 * 2 ^ 112, 65024 * 2 ^ 112 - 1);                         (* fc00::/7 *)
   (65152 * 2 ^ 112, 65216 * 2 ^ 112 - 1);                         (* fe80::/10 *)
   (255 * 2 ^ 120, 2 ^ 128 - 1)].                                  (* multicast *)

Lemma restricted_v6_spec ip : 0 <= ip < 2 ^ 128 -> is_restricted_v6 ip = true <-> Exists (in_block ip) restricted_blocks6.
Proof.
  intros H. unfold restricted_blocks6. rewrite !Exists_cons, Exists_nil. unfold in_block. cbn [fst snd].
  unfold is_restricted_v6, to_ipv4_mapped. destruct (is_ipv4_mapped ip) eqn:Em.
  - rewrite orb_true_r. split; [intros _|done]. right; right; left. unfold is_ipv4_mapped in Em. apply Z.eqb_eq in Em.
    rewrite Z.shiftr_div_pow2 in Em by lia. Z.to_euclidean_division_equations. lia.
  - unfold is_ipv4_mapped in Em. apply Z.eqb_neq in Em. rewrite Z.shiftr_div_pow2 in Em by lia.
    assert (Hs : segment 0 ip = ip / 2 ^ 112).
    { unfold segment. rewrite Z.shiftr_div_pow2 by lia. change 65535 with (Z.ones 16). rewrite Z.land_ones by lia.
      apply Z.mod_small. change (16 * (7 - 0)) with 112. Z.to_euclidean_division_equations. lia. }
    assert (Hm : ~ (65535 * 2 ^ 32 <= ip <= 65536 * 2 ^ 32 - 1)) by (Z.to_euclidean_division_equations; lia).
    assert (Hseg : forall lo hi, lo <= ip / 2 ^ 112 <= hi <-> lo * 2 ^ 112 <= ip <= (hi + 1) * 2 ^ 112 - 1).
    { intros lo hi. Z.to_euclidean_division_equations. lia. }
    assert (Hmul : Z.shiftr ip 120 = 255 <-> 255 * 2 ^ 120 <= ip <= 2 ^ 128 - 1).
    { rewrite Z.shiftr_div_pow2 by lia. Z.to_euclidean_division_equations. lia. }
    pose proof (Hseg 64512 65023) as H1. pose proof (Hseg 65152 65215) as H2. rewrite <-Hs in H1, H2.
    rewrite orb_false_r. destruct (Z.eqb_spec ip 0) as [->|Hz]; [split; [intros _; left; lia|done]|].
    rewrite !orb_true_iff, !andb_true_iff, !Z.eqb_eq, !Z.leb_le, Hmul, H1, H2. change (65023 + 1) with 65024. change (65215 + 1) with 65216.
    split; intros Hx; destruct_or! Hx; first [tauto | lia].
Qed.

(** ** Normal forms of hosts *)

Definition plain_host (h : str) : Prop := Forall (fun c => is_whitespace c = false) h.

Lemma trim_start_plain s : plain_host s -> trim_start s = s.
Proof. destruct 1 as [|c s Hc]; [done|]. unfold trim_start. cbn. by rewrite Hc. Qed.

Lemma trim_plain s : plain_host s -> trim s = s.
Proof.
  intros H. unfold trim, trim_end. rewrite (trim_start_plain s H). rewrite trim_start_plain by (by apply Forall_rev). apply rev_involutive.
Qed.

Lemma trim_start_by_fixed (p : char -> bool) s : (forall c, head s = Some c -> p c = false) -> trim_start_by p s = s.
Proof. destruct s as [|c s]; [done|]. intros H. cbn. by rewrite (H c). Qed.

Lemma trim_start_by_head (p : char -> bool) s c : head (trim_start_by p s) = Some c -> p c = false.
Proof. induction s as [|x s IH]; cbn; [done|]. destruct (p x) eqn:E; [done|]. by intros [= <-]. Qed.

Lemma trim_start_by_Forall (P : char -> Prop) p s : Forall P s -> Forall P (trim_start_by p s).
Proof. induction 1 as [|c s Hc Hs IH]; cbn; [done|]. destruct (p c); [done|by constructor]. Qed.

Definition no_end_dot (s : str) : Prop := forall c, last s = Some c -> (dot =? c)%N = false.

Lemma head_rev (s : str) : head (rev s) = last s.
Proof. rewrite <-(rev_involutive s) at 2. destruct (rev s) as [|c t]; [done|]. cbn. by rewrite last_snoc. Qed.

Lemma trim_dots_fixed s : no_end_dot s -> trim_end_by (N.eqb dot) s = s.
Proof. intros H. unfold trim_end_by. rewrite trim_start_by_fixed; [apply rev_involutive|]. intros c. rewrite head_rev. apply H. Qed.

Lemma trim_dots_end s : no_end_dot (trim_end_by (N.eqb dot) s).
Proof. intros c. unfold trim_end_by. rewrite <-head_rev, rev_involutive. apply trim_start_by_head. Qed.

Lemma lower_dot c : (dot =? char_to_ascii_lowercase c)%N = (dot =? c)%N.
Proof.
  unfold char_to_ascii_lowercase, is_ascii_uppercase. change dot with 46%N. destruct (_ && _) eqn:E; [|done].
  rewrite andb_true_iff, !N.leb_le in E. destruct (N.eqb_spec 46 (c + 32)), (N.eqb_spec 46 c); lia.
Qed.

Lemma lower_no_end_dot s : no_end_dot s -> no_end_dot (to_ascii_lowercase s).
Proof. intros H c. unfold to_ascii_lowercase. rewrite fmap_last. destruct (last s) as [x|] eqn:E; [|done]. intros [= <-]. rewrite lower_dot. by apply H. Qed.

Lemma lower_plain s : plain_host s -> plain_host (to_ascii_lowercase s).
Proof. intros H. apply Forall_fmap. eapply Forall_impl; [exact H|]. intros c. cbn. by rewrite is_whitespace_lower. Qed.

(** A host without white space has a normal form that no second normalization changes. *)
Lemma normalize_host_idem h : plain_host h -> plain_host (normalize_host h) /\ normalize_host (normalize_host h) = normalize_host h.
Proof.
  intros H. unfold normalize_host at 1 3 4. rewrite (trim_plain h H). set (t := trim_end_by _ h).
  assert (Ht : plain_host t) by (apply Forall_rev, trim_start_by_Forall, Forall_rev, H).
  pose proof (trim_dots_end h) as Hd. fold t in Hd. apply lower_plain in Ht. apply lower_no_end_dot in Hd.
  pose proof (to_ascii_lowercase_idem t) as Hl. set (l := to_ascii_lowercase t) in *. clearbody l. clear t.
  destruct (strip_prefix _ l) as [r|] eqn:E.
  - apply strip_prefix_Some in E as ->. apply Forall_app in Ht as [_ Hr]. rewrite lower_app in Hl. apply (app_inv_head $"*.") in Hl.
    assert (Hp : plain_host (dot :: r)) by (constructor; [done|exact Hr]). split; [exact Hp|].
    unfold normalize_host. rewrite (trim_plain _ Hp). rewrite trim_dots_fixed.
    + change (to_ascii_lowercase (dot :: r)) with (dot :: to_ascii_lowercase r). by rewrite Hl.
    + intros c Hc. apply Hd. exact Hc.
  - split; [exact Ht|]. unfold normalize_host. by rewrite (trim_plain l Ht), (trim_dots_fixed l Hd), Hl, E.
Qed.

(** What an entry of a list covers: itself, or what ends in it when it begins with a dot. *)
Inductive covers (entry host : str) : Prop :=
  | covers_exact : (forall s, normalize_host entry <> dot :: s) -> normalize_host entry = host -> covers entry host
  | covers_subdomain (suffix sub : str) :
      normalize_host entry = dot :: suffix -> suffix <> [] -> host = sub ++ dot :: suffix -> covers entry host.

Lemma ends_with_spec p s : ends_with p s = true <-> exists r, s = r ++ p.
Proof. unfold ends_with. rewrite bool_decide_eq_true. split; intros [r Hr]; exists r; by apply strip_suffix_Some. Qed.

Lemma host_matches_spec entry host : host_matches entry host = true <-> covers entry host.
Proof.
  unfold host_matches. destruct (strip_prefix [dot] (normalize_host entry)) as [s|] eqn:E.
  - apply strip_prefix_Some in E. cbn in E. split.
    + destruct s as [|c s]; [done|]. cbn. rewrite ends_with_spec. intros [r ->]. by eapply covers_subdomain.
    + intros [Hn _|suffix sub Hs Hne ->]; [by destruct (Hn s)|]. rewrite E in Hs. injection Hs as ->.
      destruct suffix as [|c suffix]; [done|]. cbn. apply ends_with_spec. by exists sub.
  - assert (Hn : forall s, normalize_host entry <> dot :: s).
    { intros s Hs. cut (strip_prefix [dot] (normalize_host entry) = Some s); [by rewrite E|]. by apply strip_prefix_Some. }
    rewrite bool_decide_eq_true. split; [by apply covers_exact|]. intros [_ He|suffix sub Hs _ _]; [done|by destruct (Hn suffix)].
Qed.

Definition listed (entries : list str) (host : str) : Prop := Exists (fun e => covers e host) entries.

Lemma any_matches_spec entries host : any_matches entries host = true <-> listed entries host.
Proof.
  unfold any_matches, listed. rewrite existsb_exists, Exists_exists. setoid_rewrite host_matches_spec. by setoid_rewrite list_elem_of_In.
Qed.

(** ** Verdicts *)

Definition cache_verdict (c : NetworkSessionCache) (host : str) : option Decision :=
  if decide (host ∈ denied c) then Some Deny else if decide (host ∈ approved c) then Some Allow else None.

Lemma decide_host_spec p n :
  n <> [] -> normalize_host n = n ->
  (listed (deny p) n /\ decide_host p n = Deny)
  \/ (~ listed (deny p) n /\ listed (allow p) n /\ decide_host p n = Allow)
  \/ (~ listed (deny p) n /\ ~ listed (allow p) n /\ decide_host p n = default_decision p).
Proof.
  intros Hne Hn. unfold decide_host. rewrite Hn. destruct n as [|c n]; [done|]. cbn [str_is_empty]. rewrite <-!any_matches_spec.
  destruct (any_matches (deny p) _), (any_matches (allow p) _); intuition congruence.
Qed.

(** The record of a verdict: none of a prompt, none without an enabled auditor. *)
Definition verdict_record (d : NetworkPolicyDecider) (host tool : str) (v : Decision) : list AuditRecord :=
  if bool_decide (auditor d = Some true) && bool_decide (v <> Prompt)
  then [{| rec_host := host; rec_tool := tool; rec_label := decision_as_str v |}] else [].

Lemma audit_record_log d h t v :
  v <> Prompt -> log (audit_record d h t (decision_as_str v)) = log d ++ verdict_record d h t v.
Proof.
  intros Hv. unfold audit_record, verdict_record. rewrite (bool_decide_eq_true_2 (v <> Prompt) Hv), andb_true_r.
  destruct (auditor d) as [[]|]; [done|..]; rewrite bool_decide_false by done; by rewrite app_nil_r.
Qed.

Lemma audit_record_frame d h t l :
  policy (audit_record d h t l) = policy d /\ cache (audit_record d h t l) = cache d
  /\ auditor (audit_record d h t l) = auditor d /\ trusted_fakeip_cidrs (audit_record d h t l) = trusted_fakeip_cidrs d.
Proof. unfold audit_record. destruct (auditor d) as [[]|] eqn:E; split_and!; done. Qed.

Lemma evaluate_normal d host tool n :
  normalize_host host = n -> n <> [] -> normalize_host n = n ->
  evaluate d host tool =
    let v := default (decide_host (policy d) n) (cache_verdict (cache d) n) in
    (v, if decide (v = Prompt) then d else audit_record d n tool (decision_as_str v)).
Proof.
  intros E Hne Hn. unfold evaluate. rewrite E. destruct n as [|c n]; [done|]. cbn [str_is_empty].
  unfold is_denied, is_approved, cache_verdict. rewrite Hn. repeat case_decide; rewrite ?bool_decide_true, ?bool_decide_false by done; cbn [default from_option]; try done.
  all: by destruct (decide_host _ _).
Qed.

(** What a user decides in a session. *)
Inductive SessionChoice := ChooseApprove | ChooseDeny | ChoosePersist.

Definition choose (c : SessionChoice) (d : NetworkPolicyDecider) (host tool : str) : NetworkPolicyDecider :=
  match c with
  | ChooseApprove => approve_session d host tool
  | ChooseDeny => deny_session d host tool
  | ChoosePersist => approve_persistent d host tool
  end.

Lemma covers_normal e e' h : normalize_host e = normalize_host e' -> covers e h <-> covers e' h.
Proof.
  revert e e'. cut (forall e e', normalize_host e = normalize_host e' -> covers e h -> covers e' h); [by split; eauto|].
  intros e e' E [Hn Hx|s sub Hs Hne Hh]; [by apply covers_exact; rewrite <-E|by apply (covers_subdomain _ _ s sub); rewrite <-?E].
Qed.

Lemma covers_self n : n <> [] -> normalize_host n = n -> covers n n.
Proof.
  intros Hne Hn. destruct n as [|c s]; [done|]. destruct (decide (c = dot)) as [->|Hc].
  - apply (covers_subdomain _ _ s []); [done| |done]. intros ->. vm_compute in Hn. done.
  - apply covers_exact; [|done]. rewrite Hn. by intros s' [= ->].
Qed.

Lemma add_allow_listed p host x :
  plain_host host -> normalize_host host <> [] ->
  listed (allow (add_allow p host)) x <-> listed (allow p) x \/ covers host x.
Proof.
  intros [_ Hidem]%normalize_host_idem Hne. unfold add_allow, listed.
  assert (Hn : str_is_empty (normalize_host host) = false) by (by destruct (normalize_host host)). rewrite Hn.
  destruct (existsb _ _) eqn:E; cbn [allow].
  - split; [by left|]. intros [H|H]; [done|]. apply existsb_exists in E as (e & He & Hm). apply bool_decide_eq_true in Hm.
    apply Exists_exists. exists e. rewrite list_elem_of_In. split; [done|]. by apply (covers_normal e host).
  - rewrite Exists_app, Exists_cons, Exists_nil, (covers_normal (normalize_host host) host x Hidem). tauto.
Qed.

Lemma add_allow_frame p host :
  deny (add_allow p host) = deny p /\ default_decision (add_allow p host) = default_decision p.
Proof. unfold add_allow. destruct (str_is_empty _); [done|]. by destruct (existsb _ _). Qed.

Lemma cache_choice c d host tool n :
  normalize_host host = n ->
  cache_verdict (cache (choose c d host tool)) n = Some (match c with ChooseDeny => Deny | _ => Allow end).
Proof.
  intros E. unfold cache_verdict. destruct c; cbn [choose]; unfold approve_session, deny_session, approve_persistent;
    rewrite (proj1 (proj2 (audit_record_frame _ _ _ _))); cbn; rewrite E; repeat case_decide; try done; set_solver.
Qed.

Lemma cache_choice_other c d host tool n :
  normalize_host host <> n -> cache_verdict (cache (choose c d host tool)) n = cache_verdict (cache d) n.
Proof.
  intros E. unfold cache_verdict. destruct c; cbn [choose]; unfold approve_session, deny_session, approve_persistent;
    rewrite (proj1 (proj2 (audit_record_frame _ _ _ _))); cbn; repeat case_decide; try done; set_solver.
Qed.

Lemma policy_choice c d host tool :
  policy (choose c d host tool) = match c with ChoosePersist => add_allow (policy d) host | _ => policy d end.
Proof. destruct c; cbn [choose]; unfold approve_session, deny_session, approve_persistent; by rewrite (proj1 (audit_record_frame _ _ _ _)). Qed.

(** What the user chooses decides every spelling of the host for the session;
    a host the choice does not cover is decided as before. *)
Lemma session_choice_takes_effect c d host tool host' tool' :
  plain_host host -> plain_host host' -> normalize_host host' <> [] ->
  (normalize_host host' = normalize_host host ->
     (evaluate (choose c d host tool) host' tool').1 = match c with ChooseDeny => Deny | _ => Allow end)
  /\ (normalize_host host' <> normalize_host host -> (c = ChoosePersist -> ~ covers host (normalize_host host')) ->
     (evaluate (choose c d host tool) host' tool').1 = (evaluate d host' tool').1).
Proof.
  intros Hp Hp' Hne. destruct (normalize_host_idem host' Hp') as [_ Hn]. rewrite !(evaluate_normal _ host' tool' _ eq_refl Hne Hn).
  cbv zeta. cbn [fst]. split; intros E; [by rewrite (cache_choice c d host tool)|]. intros Hcov.
  rewrite cache_choice_other, policy_choice by done. destruct c; [done|done|]. f_equal. specialize (Hcov eq_refl).
  destruct (decide (normalize_host host = [])) as [Hz|Hz]; [unfold add_allow; by rewrite Hz|].
  pose proof (add_allow_listed (policy d) host (normalize_host host') Hp Hz) as Ha.
  destruct (add_allow_frame (policy d) host) as [Ed Edd].
  pose proof (decide_host_spec (policy d) _ Hne Hn) as H1. pose proof (decide_host_spec (add_allow (policy d) host) _ Hne Hn) as H2.
  rewrite Ed, Edd in H2. intuition congruence.
Qed.

(** A persistent approval outlives the session, unless the deny list covers the host. *)
Lemma persistent_approval_persists d host tool a tool' :
  plain_host host -> normalize_host host <> [] -> ~ listed (deny (policy d)) (normalize_host host) ->
  (evaluate (new_decider (policy (approve_persistent d host tool)) a) host tool').1 = Allow.
Proof.
  intros Hp Hne Hl. destruct (normalize_host_idem host Hp) as [_ Hn]. rewrite (evaluate_normal _ host tool' _ eq_refl Hne Hn).
  change (approve_persistent d host tool) with (choose ChoosePersist d host tool). cbn [fst new_decider policy cache]. rewrite policy_choice.
  change (cache_verdict new_cache (normalize_host host)) with (@None Decision). cbn [default from_option].
  destruct (add_allow_frame (policy d) host) as [Ed _].
  pose proof (add_allow_listed (policy d) host (normalize_host host) Hp Hne) as Ha.
  assert (covers host (normalize_host host)) by (apply (covers_normal (normalize_host host)); [done|by apply covers_self]).
  pose proof (decide_host_spec (add_allow (policy d) host) _ Hne Hn) as H2. rewrite Ed in H2. intuition congruence.
Qed.

(** ** Deciders the program builds *)

Inductive Reachable : NetworkPolicyDecider -> Prop :=
  | reach_new p a : Reachable (new_decider p a)
  | reach_trusted d cidrs : Reachable d -> Reachable (with_trusted_fakeip_cidrs d cidrs)
  | reach_evaluate d host tool : Reachable d -> Reachable (evaluate d host tool).2
  | reach_choose c d host tool : Reachable d -> Reachable (choose c d host tool)
  | reach_record d host tool label : Reachable d -> Reachable (audit_record d host tool label).

Definition cidrs_ok (d : NetworkPolicyDecider) : Prop :=
  Forall (fun c => exists cidr, parse_trusted_fakeip_cidr cidr = Some c) (trusted_fakeip_cidrs d).

Lemma parsed_cidrs_ok cidrs : Forall (fun c => exists cidr, parse_trusted_fakeip_cidr cidr = Some c) (omap parse_trusted_fakeip_cidr cidrs).
Proof. apply Forall_forall. intros c (cidr & _ & Hc)%list_elem_of_omap. by exists cidr. Qed.

Lemma evaluate_frame d host tool :
  policy (evaluate d host tool).2 = policy d /\ trusted_fakeip_cidrs (evaluate d host tool).2 = trusted_fakeip_cidrs d.
Proof.
  unfold evaluate. destruct (str_is_empty _); [done|]. destruct (is_denied _ _); [|destruct (is_approved _ _); [|destruct (decide_host _ _)]];
    cbn [snd]; split; done || apply audit_record_frame.
Qed.

Lemma reachable_cidrs_ok d : Reachable d -> cidrs_ok d.
Proof.
  unfold cidrs_ok. induction 1 as [p a|d cidrs _ IH|d host tool _ IH|c d host tool _ IH|d host tool label _ IH].
  - apply parsed_cidrs_ok.
  - apply Forall_app. split; [done|apply parsed_cidrs_ok].
  - by rewrite (proj2 (evaluate_frame d host tool)).
  - destruct c; cbn [choose]; unfold approve_session, deny_session, approve_persistent;
      by rewrite (proj2 (proj2 (proj2 (audit_record_frame _ _ _ _)))).
  - by rewrite (proj2 (proj2 (proj2 (audit_record_frame _ _ _ _)))).
Qed.

Definition well_formed_ip (ip : IpAddr) : Prop := match ip with V4 v => 0 <= v < 2 ^ 32 | V6 v => 0 <= v < 2 ^ 128 end.

(** An address outside every block a fetch may not reach. *)
Definition public (ip : IpAddr) : Prop :=
  match ip with V4 v => ~ Exists (in_block v) restricted_blocks | V6 v => ~ Exists (in_block v) restricted_blocks6 end.

Lemma unrestricted_public ip : well_formed_ip ip -> is_restricted_ip ip = false -> public ip.
Proof.
  destruct ip as [v|v]; cbn; intros Hw Hr Hx; [apply (restricted_v4_spec v Hw) in Hx|apply (restricted_v6_spec v Hw) in Hx]; congruence.
Qed.

(** The placeholder a trusted proxy gives for a host the policy trusts it with. *)
Definition placeholder (p : NetworkPolicy) (host : str) (ip : IpAddr) : Prop :=
  trusts_proxy_fakeip_host p host = true /\ exists v, ip = V4 v /\ in_block v benchmark_block.

Lemma trusts_spec p host :
  plain_host host -> trusts_proxy_fakeip_host p host = true ->
  ~ listed (deny p) (normalize_host host) /\ listed (proxy p) (normalize_host host).
Proof.
  intros _. unfold trusts_proxy_fakeip_host. destruct (str_is_empty _); [done|]. rewrite <-!any_matches_spec.
  by destruct (any_matches (deny p) _).
Qed.

Definition admitted (decider : option NetworkPolicyDecider) (host : str) (ip : IpAddr) : Prop :=
  public ip \/ exists d, decider = Some d /\ placeholder (policy d) host ip.

Lemma resolved_admitted display host ip d tool r d' :
  Reachable d -> well_formed_ip ip ->
  validate_dns_resolved_ip display host ip (Some d) tool = (Ok r, d') ->
  (public ip \/ placeholder (policy d) host ip) /\ exists d1, d' = Some d1 /\ Reachable d1 /\ policy d1 = policy d.
Proof.
  intros Hr Hw. unfold validate_dns_resolved_ip. destruct (is_restricted_ip ip) eqn:Er; cbn [negb].
  - destruct (is_trusted_fakeip_addr d ip) eqn:Et; [|done]. destruct (trusts_proxy_fakeip_host (policy d) host) eqn:Eh; [|done].
    cbn [andb]. intros [= _ <-]. split.
    + right. split; [done|]. destruct ip as [v|v]; [|done]. exists v. split; [done|]. cbn in Et. apply existsb_exists in Et as ([b p] & Hin & Hc).
      pose proof (reachable_cidrs_ok d Hr) as Hok. unfold cidrs_ok in Hok. rewrite Forall_forall in Hok.
      apply list_elem_of_In in Hin. destruct (Hok _ Hin) as [cidr E]. by eapply trusted_network.
    + eexists. split; [done|]. split; [by constructor|apply audit_record_frame].
  - intros [= _ <-]. split; [left; by apply unrestricted_public|]. by exists d.
Qed.

Lemma addresses_admitted display host tool addrs decider first r d' :
  (forall d, decider = Some d -> Reachable d) -> Forall well_formed_ip addrs ->
  validate_addresses display host decider tool first addrs = (Ok r, d') ->
  Forall (admitted decider host) addrs /\ r = match first with Some _ => first | None => head addrs end.
Proof.
  revert decider first. induction addrs as [|ip addrs IH]; intros decider first Hr Hw; cbn.
  { intros [= <- _]. split; [done|]. by destruct first. }
  apply Forall_cons in Hw as [Hip Hw]. destruct (validate_dns_resolved_ip _ _ _ _ _) as [[u|e] dec1] eqn:E; [|done].
  assert (Hstep : admitted decider host ip /\ (forall d1, dec1 = Some d1 -> Reachable d1)
                  /\ (forall a, admitted dec1 host a -> admitted decider host a)).
  { destruct decider as [d|].
    - apply resolved_admitted in E as [Ha (d1 & -> & Hr1 & Hp)]; [|by apply Hr|done]. split_and!.
      + destruct Ha; [by left|right; by exists d].
      + by intros ? [= <-].
      + intros a [Hx|(d2 & [= <-] & Hx)]; [by left|]. right. exists d. by rewrite <-Hp.
    - unfold validate_dns_resolved_ip in E. destruct (is_restricted_ip ip) eqn:Er; [done|]. injection E as _ <-. split_and!; try done.
      left. by apply unrestricted_public. }
  destruct Hstep as (Ha & Hr1 & Hback). intros H. apply IH in H as [Hall ->]; [|done|done]. split.
  - constructor; [done|]. eapply Forall_impl; [exact Hall|exact Hback].
  - by destruct first.
Qed.

(** The text the guard reads as a literal address. *)
Definition ip_text (host : str) : str := default host (s ← strip_prefix $"[" host; strip_suffix $"]" s).

Lemma policy_admits host decider tool u dec1 :
  (forall d, decider = Some d -> Reachable d) ->
  validate_network_policy host decider tool = (Ok u, dec1) ->
  (forall d, decider = Some d -> (evaluate d host tool).1 = Allow)
  /\ (forall d, dec1 = Some d -> Reachable d)
  /\ (forall a, admitted dec1 host a -> admitted decider host a).
Proof.
  unfold validate_network_policy. destruct decider as [d|]; [|by intros _ [= _ <-]]. intros Hr.
  pose proof (evaluate_frame d host tool) as [Hp _]. pose proof (reach_evaluate d host tool (Hr d eq_refl)) as Hr1.
  destruct (evaluate d host tool) as [v d1] eqn:Ee. cbn [snd] in *. destruct v; [|done|done]. intros [= _ <-]. split_and!.
  - intros d2 [= <-]. by rewrite Ee.
  - by intros d2 [= <-].
  - intros a [Hx|(d2 & [= <-] & Hx)]; [by left|]. right. exists d. by rewrite <-Hp.
Qed.

(** ** What the policy promises *)


(** the verdict on a host is exactly what the lists say.  For every host
    without white space, with [n] its normal form: it is denied when the
    session denied it, or the session did not approve it and the deny list
    covers it, or neither list covers it and the default denies; it is
    allowed when the session did not deny it and the session approved it, or
    the deny list does not cover it and the allow list does or the default
    allows.  An entry covers its own normal form or, written with a leading
    dot or [*.], the hosts below it.  A verdict other than a prompt adds one
    record to an enabled audit log, and nothing else changes. *)
Theorem network_verdict_is_exact d host tool n v d' :
  plain_host host -> normalize_host host = n -> n <> [] -> evaluate d host tool = (v, d') ->
  (v = Deny <-> (n ∈ denied (cache d))
                \/ ((n ∉ approved (cache d))
                    /\ (listed (deny (policy d)) n \/ (~ listed (allow (policy d)) n /\ default_decision (policy d) = Deny))))
  /\ (v = Allow <-> (n ∉ denied (cache d))
                /\ ((n ∈ approved (cache d))
                    \/ (~ listed (deny (policy d)) n
                        /\ (listed (allow (policy d)) n \/ default_decision (policy d) = Allow))))
  /\ policy d' = policy d /\ cache d' = cache d /\ log d' = log d ++ verdict_record d n tool v.
Proof.
  intros Hp E Hne H. destruct (normalize_host_idem host Hp) as [_ Hn]. rewrite E in Hn.
  rewrite (evaluate_normal d host tool n E Hne Hn) in H. cbv zeta in H. injection H as Hv <-.
  split_and!.
  1, 2: rewrite <-Hv; unfold cache_verdict; repeat case_decide; cbn [default from_option id];
    destruct (decide_host_spec (policy d) n Hne Hn) as [[? ->]|[(? & ? & ->)|(? & ? & ->)]] || idtac; intuition congruence.
  1, 2: case_decide; [done|apply audit_record_frame].
  rewrite Hv. case_decide as Hpr; [|by apply audit_record_log]. unfold verdict_record. rewrite (bool_decide_eq_false_2 (v <> Prompt)) by (intros Hc; by apply Hc).
  by rewrite andb_false_r, app_nil_r.
Qed.

(** ** Concrete runs *)

Definition sample_policy : NetworkPolicy :=
  {| default_decision := Deny; allow := [$"*.example.com"; $"api.test."]; deny := [$"bad.example.com"]; proxy := [$"API.test"];
     proxy_fake_ip_cidrs := [$"198.18.0.0/16"; $"10.0.0.0/8"]; audit := true |}.
Definition sample_decider : NetworkPolicyDecider := new_decider sample_policy (Some true).
Definition sample_display (ip : IpAddr) : str := match ip with V4 v | V6 v => display_i v end.
Definition sample_parse (s : str) : option IpAddr := V4 <$> parse_ipv4 s.
Definition sample_lookup (h : str) : result str (list IpAddr) :=
  if bool_decide (h = $"api.test") then Ok [V4 (ip4 198 18 0 7); V4 (ip4 93 184 216 34)]
  else if bool_decide (h = $"www.example.com") then Ok [V4 (ip4 93 184 216 34); V4 (ip4 10 0 0 1)]
  else Err $"no such host".
Definition fetch (h : str) : result ToolError (option (str * IpAddr)) :=
  (validate_fetch_target sample_display sample_parse sample_lookup {| scheme := $"https"; host_str := Some h |} (Some sample_decider) $"fetch_url").1.

Example fetch_examples :
  fetch $"API.test" = Ok (Some ($"api.test", V4 (ip4 198 18 0 7)))
  /\ fetch $"www.example.com" = Err (restricted_error sample_display $"resolved IP " (V4 (ip4 10 0 0 1)))
  /\ fetch $"bad.example.com" = policy_verdict $"bad.example.com" Deny ≫= (fun _ => Ok None)
  /\ decide_host sample_policy $"example.com" = Deny /\ decide_host sample_policy $"a.b.example.com." = Allow.
Proof. by vm_compute. Qed.

Lemma sample_parse_wf s ip : sample_parse s = Some ip -> well_formed_ip ip.
Proof. unfold sample_parse. intros (v & Hv & ->)%fmap_Some. by apply parse_ipv4_range in Hv. Qed.

Lemma sample_lookup_wf h addrs : sample_lookup h = Ok addrs -> Forall well_formed_ip addrs.
Proof. unfold sample_lookup. repeat case_bool_decide; intros [= <-]; repeat constructor; vm_compute; done. Qed.


Lemma network_verdict_is_exact_witness :
  plain_host $"Bad.Example.com." /\ (evaluate sample_decider $"Bad.Example.com." $"fetch_url").1 = Deny
  /\ log (evaluate sample_decider $"Bad.Example.com." $"fetch_url").2
     = [{| rec_host := $"bad.example.com"; rec_tool := $"fetch_url"; rec_label := $"Deny" |}].
Proof.
  assert (Hp : plain_host $"Bad.Example.com.") by (repeat constructor).
  destruct (network_verdict_is_exact sample_decider $"Bad.Example.com." $"fetch_url" $"bad.example.com"
    Deny (evaluate sample_decider $"Bad.Example.com." $"fetch_url").2 Hp) as (_ & _ & _ & _ & Hlog); [by vm_compute|done|by vm_compute|].
  split; [exact Hp|]. split; [by vm_compute|]. rewrite Hlog. by vm_compute.
Defined.

(** ** Corners *)

(** The comment promises to strip a single trailing dot; all of them go. *)
Example every_trailing_dot_is_stripped : normalize_host $"host..." = $"host".
Proof. by vm_compute. Qed.

(** White space before a trailing dot makes normalization miss its fixed
    point: the session cache is asked for the second normal form, so the
    denial of such a host is forgotten. *)
Example denial_of_a_spaced_host_is_forgotten :
  (evaluate (deny_session (new_decider {| default_decision := Allow; allow := []; deny := []; proxy := []; proxy_fake_ip_cidrs := []; audit := true |} None)
     $"host ." $"fetch_url") $"host ." $"fetch_url").1 = Allow.
Proof. by vm_compute. Qed.

(** The reserved blocks 0.0.0.0/8, 192.0.0.0/24 and 64:ff9b::/96 pass. *)
Example reserved_addresses_that_pass :
  is_restricted_ip (V4 (ip4 0 0 0 1)) = false /\ is_restricted_ip (V4 (ip4 192 0 0 1)) = false
  /\ is_restricted_ip (V6 (100 * 2 ^ 112 + 65435 * 2 ^ 96 + ip4 127 0 0 1)) = false.
Proof. by vm_compute. Qed.

(** The fields of an audit line are the fields of its record: no field holds a space. *)
Lemma sanitized_field_is_token s : s <> [] -> token (sanitize_field s).
Proof.
  intros Hs. split; [by destruct s|]. unfold sanitize_field. apply Forall_fmap, Forall_forall. intros c _. cbn.
  by destruct (is_whitespace c) eqn:E.
Qed.

Lemma audit_line_fields ts host tool decision :
  token ts -> host <> [] -> tool <> [] -> token decision ->
  split_whitespace (audit_line ts host tool decision) = [ts; $"network"; sanitize_field host; sanitize_field tool; decision].
Proof.
  intros Ht Hh Hl Hd. rewrite <-(split_whitespace_join [_; _; _; _; _]).
  - done.
  - assert (Hn : token $"network") by (split; [done|by repeat constructor]).
    repeat apply Forall_cons_2; try apply Forall_nil_2; done || by apply sanitized_field_is_token.
Qed.
