(* ===== verification/FleetProtocol.v ===== *)
(** * The fleet protocol

    [crates/protocol/src/fleet.rs]: the runs, tasks, workers, events and
    receipts the fleet's ledger stores.  Paths are their text, floating-point
    numbers their bits, a [BTreeMap] a finite map. *)

From S2P Require Import Text Json.

Definition FleetRunId := str.

Inductive FleetRunStatus := RunPending | RunQueued | RunRunning | RunPaused | RunCompleted | RunFailed | RunCancelled.
#[export] Instance FleetRunStatus_eq_dec : EqDecision FleetRunStatus.
Proof. solve_decision. Defined.

(** ** Tasks *)

Record FleetTaskWorkerProfile := {
  agent_profile : option str; profile_role : option str; profile_loadout : option str; profile_model_class : option str;
  profile_model : option str; tool_profile : option str; profile_tools : list str; profile_capabilities : list str }.

Record FleetEnvironmentRequirements := { env_required : list str; env_allowlist : list str }.

Record FleetWorkspaceRequirements := {
  root : option str; required_files : list str; writable_paths : list str; environment : option FleetEnvironmentRequirements }.

Record FleetTaskBudget := { max_tokens : option Z; max_tool_calls : option Z; max_seconds : option Z }.

Inductive FleetArtifactKind :=
| ArtifactLog | ArtifactPatch | ArtifactTestResult | ArtifactReport | ArtifactCheckpoint | ArtifactReceipt
| ArtifactOther (kind : str).

Definition as_wire_str (k : FleetArtifactKind) : str :=
  match k with
  | ArtifactLog => $"log" | ArtifactPatch => $"patch" | ArtifactTestResult => $"test_result" | ArtifactReport => $"report"
  | ArtifactCheckpoint => $"checkpoint" | ArtifactReceipt => $"receipt" | ArtifactOther kind => kind
  end.

Definition from_wire_str (value : str) : FleetArtifactKind :=
  if bool_decide (value = $"log") then ArtifactLog
  else if bool_decide (value = $"patch") then ArtifactPatch
  else if bool_decide (value = $"test_result") then ArtifactTestResult
  else if bool_decide (value = $"report") then ArtifactReport
  else if bool_decide (value = $"checkpoint") then ArtifactCheckpoint
  else if bool_decide (value = $"receipt") then ArtifactReceipt
  else ArtifactOther value.

Record FleetArtifactRef := {
  artifact_kind : FleetArtifactKind; artifact_path : str; checksum : option str; mime_type : option str; size_bytes : option Z }.

Inductive FleetScorerSpec :=
| ExitCode | FileExists (path : str) | RegexMatch (path pattern : str) | JsonPath (path expression : str)
| ScorerCommand (command : str) (args : list str) | NestloneVerifierPrompt (prompt : str) | Manual.

Record FleetRetryPolicy := {
  max_attempts : Z; initial_backoff_seconds : Z; max_backoff_seconds : Z; backoff_multiplier : Z }.
Definition default_retry_policy : FleetRetryPolicy :=
  {| max_attempts := 3; initial_backoff_seconds := 5; max_backoff_seconds := 300; backoff_multiplier := 2 |}.

Inductive FleetAlertEventClass := AlertStale | RestartExhausted | NeedsHuman | BudgetExceeded | VerifierFailed | AlertRunCompleted.
#[export] Instance FleetAlertEventClass_eq_dec : EqDecision FleetAlertEventClass.
Proof. solve_decision. Defined.

Record FleetSecretRef := { secret_key : str; secret_source : option str }.
Definition new_secret_ref (key : str) : FleetSecretRef := {| secret_key := key; secret_source := None |}.

Record FleetAlertEndpoint := { url : option str; url_ref : option FleetSecretRef; secret_ref : option FleetSecretRef }.

Inductive FleetAlertChannel :=
| Slack (webhook : FleetAlertEndpoint)
| Webhook (endpoint : FleetAlertEndpoint)
| PagerDuty (routing_key severity : str).

Record FleetAlertPolicy := {
  alert_events : list FleetAlertEventClass; channels : list FleetAlertChannel; after_attempts : option Z;
  after_minutes_stale : option Z }.

Record FleetTaskSpec := {
  spec_id : str; spec_name : str; description : option str; objective : option str; instructions : str;
  worker : option FleetTaskWorkerProfile; workspace : option FleetWorkspaceRequirements; input_files : list str;
  context : list str; budget : option FleetTaskBudget; tags : list str; expected_artifacts : list FleetArtifactKind;
  scorer : option FleetScorerSpec; retry_policy : option FleetRetryPolicy; alert_policy : option FleetAlertPolicy;
  timeout_seconds : option Z; metadata : gmap str Value }.

(** ** Workers and runs *)

Inductive FleetHostSpec :=
| Local
| Ssh (host : str) (port : option Z) (user identity known_hosts host_key_fingerprint working_directory : option str)
    (env_allowlist : list str) (nestlone_binary : option str)
| Docker (image : str) (args : list str).

Inductive FleetTrustLevel := Sandbox | TrustLocal | RemoteVerified | Operator.
#[export] Instance FleetTrustLevel_eq_dec : EqDecision FleetTrustLevel.
Proof. solve_decision. Defined.

Definition may_access_secrets (t : FleetTrustLevel) : bool := match t with Sandbox => false | _ => true end.
Definition may_write_workspace (t : FleetTrustLevel) : bool := match t with Operator | TrustLocal => true | _ => false end.
Definition may_access_network (t : FleetTrustLevel) : bool := match t with Sandbox => false | _ => true end.

Record FleetCapabilityGrant := { capability : str; grant_scope : option str; grant_reason : option str }.

Record FleetSecurityPolicy := {
  default_trust_level : FleetTrustLevel; allowed_secrets : list FleetSecretRef; capability_grants : list FleetCapabilityGrant;
  max_trust_level : FleetTrustLevel; require_identity_verification : bool; allow_parallel_reads : bool }.

Inductive FleetWorkerStatus := WorkerUnknown | Online | Busy | Offline | Unhealthy | Draining | Retired.
#[export] Instance FleetWorkerStatus_eq_dec : EqDecision FleetWorkerStatus.
Proof. solve_decision. Defined.

Record FleetWorkerSpec := {
  worker_id : str; worker_name : str; host : FleetHostSpec; trust_level : option FleetTrustLevel;
  worker_labels : gmap str str; capabilities : list str; max_concurrent_tasks : option Z }.

Record FleetRun := {
  run_id : FleetRunId; run_name : str; run_status : FleetRunStatus; max_workers : option Z; task_specs : list FleetTaskSpec;
  worker_specs : list FleetWorkerSpec; labels : gmap str str; security_policy : option FleetSecurityPolicy; created_at : str;
  updated_at : option str; run_completed_at : option str }.

(** ** The inbox and the events *)

Record FleetInboxEntry := {
  entry_run_id : FleetRunId; entry_task_id : str; priority : Z; enqueued_at : str; lease_deadline : option str; attempts : Z }.

Inductive FleetWorkerEventPayload :=
| EvQueued
| EvLeased (lease_expires_at : option str)
| EvStarting
| EvRunning
| EvModelWait (model : option str)
| EvRunningTool (tool : str) (call_id : option str)
| EvWorkflowEvent (workflow_run_id : str) (event : Value)
| EvHeartbeat (cpu_percent memory_mb : option Z)
| EvArtifact (artifact : FleetArtifactRef)
| EvCompleted (exit_code : option Z) (summary : option str)
| EvFailed (reason : str) (recoverable : bool)
| EvCancelled (cancelled_by : option str)
| EvInterrupted (signal : option str)
| EvStale (last_heartbeat_at : option str)
| EvRestarted (restart_count : Z)
| EvEscalated (channel : str) (alert_id : option str).

Record FleetWorkerEvent := {
  seq : Z; ev_run_id : FleetRunId; ev_worker_id : str; ev_task_id : str; ev_timestamp : str; payload : FleetWorkerEventPayload;
  extra : gmap str Value }.

(** ** Receipts *)

Inductive FleetTaskResult := Pass | Partial | TaskFail | Skip | TaskTimeout.
Inductive FleetTaskFailureKind := Transport | FailureTask | Verifier.
Record FleetScore := { score_value : Z; score_max : option Z; score_notes : option str }.

Record FleetResolvedRoute := {
  provider_id : str; provider_exact_id : option str; provider_kind : str; canonical_model : option str; wire_model_id : str;
  protocol : str; route_role : option str; route_loadout : option str; route_model_class : option str; model_route : option str;
  reasoning_effort : option str; role_source : option str; loadout_source : option str; model_class_source : option str;
  model_source : option str; route_source : str }.

Record FleetEffectivePermissions := {
  perm_write : bool; perm_network : bool; perm_shell : str; tool_scope : str; perm_tools : list str; background : bool;
  max_spawn_depth : Z; profile_id : option str; profile_origin : option str; perm_source : str }.

Record FleetReceipt := {
  receipt_run_id : FleetRunId; receipt_task_id : str; receipt_worker_id : str; attempt : option Z; terminal_seq : option Z;
  receipt_completed_at : str; receipt_result : FleetTaskResult; failure_kind : option FleetTaskFailureKind;
  artifacts : list FleetArtifactRef; score : option FleetScore; resolved_route : option FleetResolvedRoute;
  effective_permissions : option FleetEffectivePermissions }.
