(* ===== verification/FleetLedger.v ===== *)
(** * The fleet ledger

    [crates/tui/src/fleet/ledger.rs]: the append-only JSONL file of a fleet,
    the state its replay reconstructs, and the operations of the managers that
    share it.  Every operation reads the ledger and appends under one
    cross-process lock, so it is one atomic step: a function from the replayed
    state to a reply and the records it appends.  [serde_json] is a parameter
    of the replay of a file's text; the file system does not fail. *)

From S2P Require Import Text Json FleetProtocol.

(** ** Records *)

Inductive FleetTaskLedgerStatus := Enqueued | Leased | Completed | Failed | Cancelled.
#[export] Instance FleetTaskLedgerStatus_eq_dec : EqDecision FleetTaskLedgerStatus.
Proof. solve_decision. Defined.

Definition is_terminal (s : FleetTaskLedgerStatus) : bool :=
  match s with Completed | Failed | Cancelled => true | Enqueued | Leased => false end.

Inductive FleetLedgerRecord :=
| RunCreated (run : FleetRun)
| RunStatusChanged (run_id : FleetRunId) (status : FleetRunStatus) (timestamp : str)
| TaskEnqueued (entry : FleetInboxEntry)
| TaskLeased (run_id : FleetRunId) (task_id worker_id leased_at : str) (lease_expires_at : option str)
| TaskCompletedOrFailed (run_id : FleetRunId) (task_id worker_id timestamp : str) (status : FleetTaskLedgerStatus)
| TaskLifecycleCheckpoint (run_id : FleetRunId) (task_id : str) (lifecycle_seq : Z)
| TaskAttemptFinalized (event : FleetWorkerEvent) (final_status : option FleetTaskLedgerStatus) (receipt : FleetReceipt)
| EventAppended (event : FleetWorkerEvent)
| EventSequenceCheckpoint (run_id : FleetRunId) (worker_id task_id : str) (seq : Z)
| Heartbeat (worker_id timestamp : str) (cpu_percent memory_mb : option Z)
| ReceiptRecorded (receipt : FleetReceipt)
| AlertSent (run_id : FleetRunId) (task_id channel timestamp : str) (worker_id : option str) (attempt seq : option Z).

(** ** The reconstructed state *)

Record FleetTaskState := {
  entry : FleetInboxEntry; status : FleetTaskLedgerStatus; lifecycle_seq : Z; leased_to : option str; leased_at : option str;
  completed_at : option str }.

Record FleetHeartbeatState := { hb_timestamp : str; hb_cpu_percent : option Z; hb_memory_mb : option Z }.

Record FleetLedgerAlert := {
  alert_run_id : FleetRunId; alert_task_id : str; alert_channel : str; alert_timestamp : str; alert_worker_id : option str;
  alert_attempt : option Z; alert_seq : option Z }.

Record FleetEventSequenceOwner := { owner_run_id : FleetRunId; owner_worker_id : str; owner_task_id : str }.

Definition AlertKey : Type := str * str * option Z * str.

Record FleetLedgerState := {
  runs : gmap str FleetRun;
  run_status_overrides : gmap str FleetRunStatus;
  tasks : gmap str FleetTaskState;
  workers : gmap str FleetWorkerStatus;
  heartbeats : gmap str FleetHeartbeatState;
  latest_seq : gmap str Z;
  sequence_owners : gmap str FleetEventSequenceOwner;
  latest_events : gmap str FleetWorkerEvent;
  artifact_events : gmap str FleetWorkerEvent;
  restarted_events : gmap str FleetWorkerEvent;
  escalated_events : gmap str FleetWorkerEvent;
  receipts : gmap str FleetReceipt;
  alerts : gmap AlertKey FleetLedgerAlert }.

Definition empty_state : FleetLedgerState :=
  {| runs := ∅; run_status_overrides := ∅; tasks := ∅; workers := ∅; heartbeats := ∅; latest_seq := ∅; sequence_owners := ∅;
     latest_events := ∅; artifact_events := ∅; restarted_events := ∅; escalated_events := ∅; receipts := ∅; alerts := ∅ |}.

Definition on_runs f s := {| runs := f (runs s); run_status_overrides := run_status_overrides s; tasks := tasks s;
  workers := workers s; heartbeats := heartbeats s; latest_seq := latest_seq s; sequence_owners := sequence_owners s;
  latest_events := latest_events s; artifact_events := artifact_events s; restarted_events := restarted_events s;
  escalated_events := escalated_events s; receipts := receipts s; alerts := alerts s |}.
Definition on_overrides f s := {| runs := runs s; run_status_overrides := f (run_status_overrides s); tasks := tasks s;
  workers := workers s; heartbeats := heartbeats s; latest_seq := latest_seq s; sequence_owners := sequence_owners s;
  latest_events := latest_events s; artifact_events := artifact_events s; restarted_events := restarted_events s;
  escalated_events := escalated_events s; receipts := receipts s; alerts := alerts s |}.
Definition on_tasks f s := {| runs := runs s; run_status_overrides := run_status_overrides s; tasks := f (tasks s);
  workers := workers s; heartbeats := heartbeats s; latest_seq := latest_seq s; sequence_owners := sequence_owners s;
  latest_events := latest_events s; artifact_events := artifact_events s; restarted_events := restarted_events s;
  escalated_events := escalated_events s; receipts := receipts s; alerts := alerts s |}.
Definition on_workers f s := {| runs := runs s; run_status_overrides := run_status_overrides s; tasks := tasks s;
  workers := f (workers s); heartbeats := heartbeats s; latest_seq := latest_seq s; sequence_owners := sequence_owners s;
  latest_events := latest_events s; artifact_events := artifact_events s; restarted_events := restarted_events s;
  escalated_events := escalated_events s; receipts := receipts s; alerts := alerts s |}.
Definition on_heartbeats f s := {| runs := runs s; run_status_overrides := run_status_overrides s; tasks := tasks s;
  workers := workers s; heartbeats := f (heartbeats s); latest_seq := latest_seq s; sequence_owners := sequence_owners s;
  latest_events := latest_events s; artifact_events := artifact_events s; restarted_events := restarted_events s;
  escalated_events := escalated_events s; receipts := receipts s; alerts := alerts s |}.
Definition on_latest f g s := {| runs := runs s; run_status_overrides := run_status_overrides s; tasks := tasks s;
  workers := workers s; heartbeats := heartbeats s; latest_seq := f (latest_seq s); sequence_owners := sequence_owners s;
  latest_events := g (latest_events s); artifact_events := artifact_events s; restarted_events := restarted_events s;
  escalated_events := escalated_events s; receipts := receipts s; alerts := alerts s |}.
Definition on_owners f s := {| runs := runs s; run_status_overrides := run_status_overrides s; tasks := tasks s;
  workers := workers s; heartbeats := heartbeats s; latest_seq := latest_seq s; sequence_owners := f (sequence_owners s);
  latest_events := latest_events s; artifact_events := artifact_events s; restarted_events := restarted_events s;
  escalated_events := escalated_events s; receipts := receipts s; alerts := alerts s |}.
Definition on_kept f g h s := {| runs := runs s; run_status_overrides := run_status_overrides s; tasks := tasks s;
  workers := workers s; heartbeats := heartbeats s; latest_seq := latest_seq s; sequence_owners := sequence_owners s;
  latest_events := latest_events s; artifact_events := f (artifact_events s); restarted_events := g (restarted_events s);
  escalated_events := h (escalated_events s); receipts := receipts s; alerts := alerts s |}.
Definition on_receipts f s := {| runs := runs s; run_status_overrides := run_status_overrides s; tasks := tasks s;
  workers := workers s; heartbeats := heartbeats s; latest_seq := latest_seq s; sequence_owners := sequence_owners s;
  latest_events := latest_events s; artifact_events := artifact_events s; restarted_events := restarted_events s;
  escalated_events := escalated_events s; receipts := f (receipts s); alerts := alerts s |}.
Definition on_alerts f s := {| runs := runs s; run_status_overrides := run_status_overrides s; tasks := tasks s;
  workers := workers s; heartbeats := heartbeats s; latest_seq := latest_seq s; sequence_owners := sequence_owners s;
  latest_events := latest_events s; artifact_events := artifact_events s; restarted_events := restarted_events s;
  escalated_events := escalated_events s; receipts := receipts s; alerts := f (alerts s) |}.

(** ** Keys *)

Definition colon : char := chr ":".
Definition task_key (run_id task_id : str) : str := run_id ++ colon :: task_id.
Definition event_key (worker_id run_id task_id : str) : str := worker_id ++ colon :: run_id ++ colon :: task_id.
Definition alert_key (run_id : FleetRunId) (task_id : str) (attempt : option Z) (channel : str) : AlertKey :=
  (run_id, task_id, attempt, channel).

Definition key_of_event (e : FleetWorkerEvent) : str := event_key (ev_worker_id e) (ev_run_id e) (ev_task_id e).
Definition task_key_of_event (e : FleetWorkerEvent) : str := task_key (ev_run_id e) (ev_task_id e).
Definition artifact_event_key (e : FleetWorkerEvent) (a : FleetArtifactRef) : str := key_of_event e ++ colon :: artifact_path a.
Definition compact_event_key (e : FleetWorkerEvent) : str := key_of_event e ++ colon :: display_u (seq e).

(** [rsplit_once('#')], kept when the rest is a number. *)
Definition rsplit_once (d : char) (s : str) : option (str * str) :=
  '(b, a) ← split_once [d] (rev s); Some (rev a, rev b).
Definition alert_channel_label (channel_key : str) : str :=
  match rsplit_once (chr "#") channel_key with
  | Some (label, ordinal) =>
      let ds := default ordinal (strip_prefix $"+" ordinal) in
      if negb (str_is_empty ds) && forallb is_ascii_digit ds && (foldl (fun n c => 10 * n + (Z.of_N c - 48)) 0 ds <=? usize_max)
      then label else channel_key
  | None => channel_key
  end.

(** ** Replay of one record *)

Definition mark_terminal (worker_id timestamp : str) (st : FleetTaskLedgerStatus) (t : FleetTaskState) : FleetTaskState :=
  {| entry := entry t; status := st;
     lifecycle_seq := if decide (status t = st) then lifecycle_seq t else u64_saturating_add (lifecycle_seq t) 1;
     leased_to := if str_is_empty worker_id then leased_to t else Some worker_id;
     leased_at := leased_at t; completed_at := Some timestamp |}.

Definition mark_task_terminal (s : FleetLedgerState) (run_id : FleetRunId) (task_id worker_id timestamp : str)
    (st : FleetTaskLedgerStatus) : FleetLedgerState :=
  on_tasks (alter (mark_terminal worker_id timestamp st) (task_key run_id task_id)) s.

Definition lease (worker_id at_ : str) (expires : option str) (t : FleetTaskState) : FleetTaskState :=
  {| entry :=
       {| entry_run_id := entry_run_id (entry t); entry_task_id := entry_task_id (entry t); priority := priority (entry t);
          enqueued_at := enqueued_at (entry t); lease_deadline := expires;
          attempts := u32_saturating_add (attempts (entry t)) 1 |};
     status := Leased;
     lifecycle_seq :=
       if bool_decide (status t <> Leased) || bool_decide (leased_to t <> Some worker_id) || bool_decide (leased_at t <> Some at_)
       then u64_saturating_add (lifecycle_seq t) 1 else lifecycle_seq t;
     leased_to := Some worker_id; leased_at := Some at_; completed_at := completed_at t |}.

Definition new_task (e : FleetInboxEntry) : FleetTaskState :=
  {| entry := e; status := Enqueued; lifecycle_seq := 1; leased_to := None; leased_at := None; completed_at := None |}.

Definition checkpoint (n : Z) (t : FleetTaskState) : FleetTaskState :=
  {| entry := entry t; status := status t; lifecycle_seq := Z.max (lifecycle_seq t) (Z.max n 1); leased_to := leased_to t;
     leased_at := leased_at t; completed_at := completed_at t |}.

(** The events a terminal task ignores. *)
Definition regresses (p : FleetWorkerEventPayload) : bool :=
  match p with
  | EvLeased _ | EvArtifact _ | EvModelWait _ | EvRunningTool _ _ | EvWorkflowEvent _ _ | EvHeartbeat _ _ | EvStarting | EvRunning
  | EvStale _ | EvRestarted _ | EvInterrupted _ => true
  | EvQueued | EvCompleted _ _ | EvFailed _ _ | EvCancelled _ | EvEscalated _ _ => false
  end.

Definition terminal_status (p : FleetWorkerEventPayload) : option FleetTaskLedgerStatus :=
  match p with
  | EvCompleted _ _ => Some Completed | EvFailed _ _ => Some Failed | EvCancelled _ => Some Cancelled | _ => None
  end.

Definition worker_status (p : FleetWorkerEventPayload) : option FleetWorkerStatus :=
  match p with
  | EvLeased _ | EvRestarted _ | EvModelWait _ | EvRunningTool _ _ | EvWorkflowEvent _ _ | EvHeartbeat _ _ | EvStarting | EvRunning =>
      Some Busy
  | EvInterrupted _ => Some Draining
  | EvStale _ => Some Unhealthy
  | EvCompleted _ _ | EvFailed _ _ | EvCancelled _ => Some Online
  | EvQueued | EvArtifact _ | EvEscalated _ _ => None
  end.

Definition task_is_terminal (s : FleetLedgerState) (k : str) : bool :=
  match tasks s !! k with Some t => is_terminal (status t) | None => false end.

Definition newer (s : FleetLedgerState) (e : FleetWorkerEvent) : bool :=
  match latest_seq s !! key_of_event e with Some n => n <? seq e | None => true end.

(** What an event does to the task and to the status of the worker. *)
Definition derive_status (s : FleetLedgerState) (e : FleetWorkerEvent) : FleetLedgerState :=
  let s := match terminal_status (payload e) with
           | Some st => mark_task_terminal s (ev_run_id e) (ev_task_id e) (ev_worker_id e) (ev_timestamp e) st
           | None => s
           end in
  match worker_status (payload e) with
  | Some w => on_workers (insert (ev_worker_id e) w) s
  | None => s
  end.

Definition apply_event (s : FleetLedgerState) (e : FleetWorkerEvent) : FleetLedgerState :=
  let k := key_of_event e in
  let ignored := task_is_terminal s (task_key_of_event e) && regresses (payload e) in
  let s := on_owners (insert k {| owner_run_id := ev_run_id e; owner_worker_id := ev_worker_id e; owner_task_id := ev_task_id e |}) s in
  let s := if newer s e then on_latest (insert k (seq e)) (if ignored then id else insert k e) s else s in
  let s := on_kept
             (match payload e with EvArtifact a => insert (artifact_event_key e a) e | _ => id end)
             (match payload e with EvRestarted _ => insert k e | _ => id end)
             (match payload e with EvEscalated _ _ => insert k e | _ => id end) s in
  if ignored then s else derive_status s e.

Definition apply_heartbeat (s : FleetLedgerState) (w : str) (hb : FleetHeartbeatState) : FleetLedgerState :=
  let s := on_heartbeats (insert w hb) s in
  if decide (workers s !! w = Some Busy) then s else on_workers (insert w Online) s.

(** The attempt a record of an alert is filed under. *)
Definition alert_generation (s : FleetLedgerState) (run_id : FleetRunId) (task_id : str) (attempt : option Z) : option Z :=
  match attempt with
  | Some a => Some a
  | None => t ← tasks s !! task_key run_id task_id; if 0 <? attempts (entry t) then Some (attempts (entry t)) else None
  end.

Definition escalation (run_id : FleetRunId) (task_id channel timestamp worker_id : str) (n : Z) : FleetWorkerEvent :=
  {| seq := n; ev_run_id := run_id; ev_worker_id := worker_id; ev_task_id := task_id; ev_timestamp := timestamp;
     payload := EvEscalated (alert_channel_label channel) None; extra := ∅ |}.

Definition apply_record (s : FleetLedgerState) (r : FleetLedgerRecord) : FleetLedgerState :=
  match r with
  | RunCreated run => on_runs (insert (run_id run) run) s
  | RunStatusChanged run_id status _ => on_overrides (insert run_id status) s
  | TaskEnqueued e =>
      let k := task_key (entry_run_id e) (entry_task_id e) in
      if decide (is_Some (tasks s !! k)) then s else on_tasks (insert k (new_task e)) s
  | TaskLeased run_id task_id worker_id leased_at expires => on_tasks (alter (lease worker_id leased_at expires) (task_key run_id task_id)) s
  | TaskCompletedOrFailed run_id task_id worker_id timestamp st => mark_task_terminal s run_id task_id worker_id timestamp st
  | TaskLifecycleCheckpoint run_id task_id n => on_tasks (alter (checkpoint n) (task_key run_id task_id)) s
  | TaskAttemptFinalized e final receipt =>
      let s := apply_event s e in
      let s := match final with
               | Some st => mark_task_terminal s (ev_run_id e) (ev_task_id e) (ev_worker_id e) (ev_timestamp e) st
               | None => s
               end in
      on_receipts (insert (task_key (receipt_run_id receipt) (receipt_task_id receipt)) receipt) s
  | EventAppended e => apply_event s e
  | EventSequenceCheckpoint run_id worker_id task_id n =>
      let k := event_key worker_id run_id task_id in
      let s := on_owners (insert k {| owner_run_id := run_id; owner_worker_id := worker_id; owner_task_id := task_id |}) s in
      on_latest (partial_alter (fun o => Some (match o with Some m => Z.max m n | None => n end)) k) id s
  | Heartbeat w timestamp cpu mem => apply_heartbeat s w {| hb_timestamp := timestamp; hb_cpu_percent := cpu; hb_memory_mb := mem |}
  | ReceiptRecorded receipt => on_receipts (insert (task_key (receipt_run_id receipt) (receipt_task_id receipt)) receipt) s
  | AlertSent run_id task_id channel timestamp worker_id attempt n =>
      let attempt := alert_generation s run_id task_id attempt in
      let k := alert_key run_id task_id attempt channel in
      if decide (is_Some (alerts s !! k)) then s
      else
        let s := on_alerts (insert k {| alert_run_id := run_id; alert_task_id := task_id; alert_channel := channel;
                                        alert_timestamp := timestamp; alert_worker_id := worker_id; alert_attempt := attempt;
                                        alert_seq := n |}) s in
        match worker_id, n with
        | Some w, Some n => apply_event s (escalation run_id task_id channel timestamp w n)
        | _, _ => s
        end
  end.

Definition replay (s : FleetLedgerState) (rs : list FleetLedgerRecord) : FleetLedgerState := foldl apply_record s rs.

(** ** The text of the ledger *)

Section text.
Context (to_string : FleetLedgerRecord -> str) (from_str : str -> option FleetLedgerRecord).

Definition newline : char := 10%N.

(** [append_records_unlocked]: a tail without a newline is closed first. *)
Definition append_records_unlocked (contents : str) (rs : list FleetLedgerRecord) : str :=
  let lines := flat_map (fun r => to_string r ++ [newline]) rs in
  match last contents with
  | Some c => if N.eqb c newline then contents ++ lines else contents ++ newline :: lines
  | None => lines
  end.

(** The records the replay of a file applies: unreadable lines are skipped. *)
Definition records_of (contents : str) : list FleetLedgerRecord :=
  omap (fun l => if str_is_empty (trim l) then None else from_str l) (lines contents).

Definition rebuild_state (contents : str) : FleetLedgerState := replay empty_state (records_of contents).
End text.

(** ** Operations

    What an operation replies in a state, and the records it appends. *)

Definition Op (A : Type) : Type := FleetLedgerState -> result str (A * list FleetLedgerRecord).
Definition appending (r : FleetLedgerRecord) : Op unit := fun _ => Ok (tt, [r]).

Definition redacted : str := $"<redacted>".
Definition redact_option (o : option str) : option str := (fun _ => redacted) <$> o.

Definition sanitize_channel (c : FleetAlertChannel) : FleetAlertChannel :=
  match c with
  | Slack w => Slack {| url := redact_option (url w); url_ref := url_ref w; secret_ref := secret_ref w |}
  | Webhook e =>
      Webhook {| url := redact_option (url e); url_ref := (fun _ => new_secret_ref redacted) <$> url_ref e;
                 secret_ref := (fun _ => new_secret_ref redacted) <$> secret_ref e |}
  | PagerDuty _ severity => PagerDuty redacted severity
  end.

Definition sanitize_policy (p : FleetAlertPolicy) : FleetAlertPolicy :=
  {| alert_events := alert_events p; channels := sanitize_channel <$> channels p; after_attempts := after_attempts p;
     after_minutes_stale := after_minutes_stale p |}.

Definition sanitize_task (t : FleetTaskSpec) : FleetTaskSpec :=
  {| spec_id := spec_id t; spec_name := spec_name t; description := description t; objective := objective t;
     instructions := instructions t; worker := worker t; workspace := workspace t; input_files := input_files t;
     context := context t; budget := budget t; tags := tags t; expected_artifacts := expected_artifacts t; scorer := scorer t;
     retry_policy := retry_policy t; alert_policy := sanitize_policy <$> alert_policy t; timeout_seconds := timeout_seconds t;
     metadata := metadata t |}.

Definition sanitize_run_for_ledger (r : FleetRun) : FleetRun :=
  {| run_id := run_id r; run_name := run_name r; run_status := run_status r; max_workers := max_workers r;
     task_specs := sanitize_task <$> task_specs r; worker_specs := worker_specs r; labels := labels r;
     security_policy := security_policy r; created_at := created_at r; updated_at := updated_at r;
     run_completed_at := run_completed_at r |}.

Definition create_run (r : FleetRun) : Op unit := appending (RunCreated (sanitize_run_for_ledger r)).
Definition update_run_status (run_id : FleetRunId) (st : FleetRunStatus) (timestamp : str) : Op unit :=
  appending (RunStatusChanged run_id st timestamp).
Definition enqueue (e : FleetInboxEntry) : Op unit := appending (TaskEnqueued e).
Definition append_event (e : FleetWorkerEvent) : Op unit := appending (EventAppended e).
Definition heartbeat (w timestamp : str) (cpu mem : option Z) : Op unit := appending (Heartbeat w timestamp cpu mem).
Definition record_receipt (r : FleetReceipt) : Op unit := appending (ReceiptRecorded r).
Definition record_alert (run_id : FleetRunId) (task_id channel timestamp : str) : Op unit :=
  appending (AlertSent run_id task_id channel timestamp None None None).

Definition is_leased (t : FleetTaskState) : bool := bool_decide (status t = Leased).
Definition leased_by (w : str) (t : FleetTaskState) : bool := is_leased t && bool_decide (leased_to t = Some w).
Definition of_run (run_id : FleetRunId) (t : FleetTaskState) : bool := bool_decide (entry_run_id (entry t) = run_id).

(** The tasks of a run that hold a lease. *)
Definition active_tasks_for_run (s : FleetLedgerState) (run_id : FleetRunId) : list FleetTaskState :=
  retain (fun t => of_run run_id t && is_leased t) (btree_values (tasks s)).

Definition latest_of (s : FleetLedgerState) (k : str) : Z := default 0 (latest_seq s !! k).
Definition heartbeat_at (s : FleetLedgerState) (w : str) : option str := hb_timestamp <$> heartbeats s !! w.

Definition worker_event (n : Z) (run_id : FleetRunId) (w task_id timestamp : str) (p : FleetWorkerEventPayload) : FleetWorkerEvent :=
  {| seq := n; ev_run_id := run_id; ev_worker_id := w; ev_task_id := task_id; ev_timestamp := timestamp; payload := p; extra := ∅ |}.

Definition next_worker_event (s : FleetLedgerState) (run_id : FleetRunId) (w task_id timestamp : str)
    (p : FleetWorkerEventPayload) : FleetWorkerEvent :=
  worker_event (u64_add (latest_of s (event_key w run_id task_id)) 1) run_id w task_id timestamp p.

(** *** Leases *)

Fixpoint initial_event_records (n : Z) (run_id : FleetRunId) (w task_id leased_at : str) (ps : list FleetWorkerEventPayload)
    : list FleetLedgerRecord :=
  match ps with
  | [] => []
  | p :: ps => EventAppended (worker_event n run_id w task_id leased_at p)
               :: initial_event_records (u64_saturating_add n 1) run_id w task_id leased_at ps
  end.

Definition worker_is_busy (s : FleetLedgerState) (w : str) : bool := existsb (leased_by w) (btree_values (tasks s)).

Definition run_is_full (s : FleetLedgerState) (run_id : FleetRunId) (max_active : option Z) : bool :=
  match max_active with Some n => n <=? zlen (active_tasks_for_run s run_id) | None => false end.

(** [callback] is what the caller's projection replies before the append. *)
Definition lease_task_if_enqueued_with_events (run_id : FleetRunId) (task_id w leased_at : str) (expires : option str)
    (max_active : option Z) (initial : list FleetWorkerEventPayload) (record_heartbeat : bool) (callback : result str unit)
    : Op bool := fun s =>
  match tasks s !! task_key run_id task_id with
  | None => Ok (false, [])
  | Some t =>
      if bool_decide (status t <> Enqueued) then Ok (false, [])
      else if worker_is_busy s w then Ok (false, [])
      else if run_is_full s run_id max_active then Ok (false, [])
      else
        callback;;
        Ok (true,
            TaskLeased run_id task_id w leased_at expires
            :: initial_event_records (u64_add (latest_of s (event_key w run_id task_id)) 1) run_id w task_id leased_at initial
            ++ (if record_heartbeat then [Heartbeat w leased_at None None] else []))
  end.

Definition lease_task_if_enqueued (run_id : FleetRunId) (task_id w leased_at : str) (expires : option str) (max_active : option Z)
    : Op bool := lease_task_if_enqueued_with_events run_id task_id w leased_at expires max_active [] false (Ok tt).

Definition start_task_if_enqueued (run_id : FleetRunId) (task_id w leased_at : str) (expires : option str) (max_active : option Z)
    (initial : list FleetWorkerEventPayload) (callback : result str unit) : Op bool :=
  lease_task_if_enqueued_with_events run_id task_id w leased_at expires max_active initial true callback.

(** [min_by_key] keeps the first of the least. *)
Definition inbox_le (a b : FleetInboxEntry) : bool :=
  if decide (priority a = priority b) then str_le (enqueued_at a) (enqueued_at b) else priority a <? priority b.

Definition claim_next (w timestamp : str) : Op (option FleetInboxEntry) := fun s =>
  if worker_is_busy s w then Ok (None, [])
  else match min_by inbox_le (entry <$> retain (fun t => bool_decide (status t = Enqueued)) (btree_values (tasks s))) with
       | None => Ok (None, [])
       | Some e => Ok (Some e, [TaskLeased (entry_run_id e) (entry_task_id e) w timestamp None])
       end.

(** *** Compare and set *)

(** The lease an operation observed: its worker and attempt. *)
Definition holds (t : FleetTaskState) (st : FleetTaskLedgerStatus) (w : str) (expected_attempts : Z) : bool :=
  bool_decide (status t = st) && bool_decide (leased_to t = Some w) && (attempts (entry t) =? expected_attempts).

(** Nothing happened to the lease since it was observed. *)
Definition unchanged (s : FleetLedgerState) (k w : str) (expected_latest_seq : Z) (expected_heartbeat_at : option str) : bool :=
  (latest_of s k =? expected_latest_seq) && bool_decide (heartbeat_at s w = expected_heartbeat_at).

Definition mark_task_terminal_status_if_unchanged (run_id : FleetRunId) (task_id w : str) (expected_status : FleetTaskLedgerStatus)
    (expected_attempts expected_latest_seq : Z) (timestamp : str) (st : FleetTaskLedgerStatus) : Op bool := fun s =>
  match tasks s !! task_key run_id task_id with
  | None => Ok (false, [])
  | Some t =>
      if negb (holds t expected_status w expected_attempts) || negb (latest_of s (event_key w run_id task_id) =? expected_latest_seq)
      then Ok (false, [])
      else Ok (true, [TaskCompletedOrFailed run_id task_id w timestamp st])
  end.

Definition append_event_next_seq (run_id : FleetRunId) (w task_id timestamp : str) (p : FleetWorkerEventPayload)
    : Op FleetWorkerEvent := fun s =>
  let e := next_worker_event s run_id w task_id timestamp p in Ok (e, [EventAppended e]).

(** The event appended while the guard holds of the task. *)
Definition append_event_when (guard : FleetLedgerState -> FleetTaskState -> bool) (run_id : FleetRunId) (w task_id timestamp : str)
    (p : FleetWorkerEventPayload) : Op (option FleetWorkerEvent) := fun s =>
  match tasks s !! task_key run_id task_id with
  | None => Ok (None, [])
  | Some t =>
      if guard s t
      then let e := next_worker_event s run_id w task_id timestamp p in Ok (Some e, [EventAppended e])
      else Ok (None, [])
  end.

Definition is_terminal_payload (p : FleetWorkerEventPayload) : bool := bool_decide (is_Some (terminal_status p)).

Definition append_event_if_leased (run_id : FleetRunId) (w task_id : str) (expected_attempts : Z) (timestamp : str)
    (p : FleetWorkerEventPayload) : Op (option FleetWorkerEvent) := fun s =>
  if is_terminal_payload p then Err $"conditional progress append does not accept terminal worker events"
  else append_event_when (fun _ t => holds t Leased w expected_attempts) run_id w task_id timestamp p s.

Definition append_event_if_lease_unchanged (run_id : FleetRunId) (w task_id : str) (expected_attempts expected_latest_seq : Z)
    (expected_heartbeat_at : option str) (timestamp : str) (p : FleetWorkerEventPayload) : Op (option FleetWorkerEvent) := fun s =>
  if is_terminal_payload p then Err $"conditional progress append does not accept terminal worker events"
  else append_event_when
         (fun s t => holds t Leased w expected_attempts
                     && unchanged s (event_key w run_id task_id) w expected_latest_seq expected_heartbeat_at)
         run_id w task_id timestamp p s.

Definition append_terminal_event_if_leased (run_id : FleetRunId) (w task_id : str) (expected_attempts : Z) (timestamp : str)
    (p : FleetWorkerEventPayload) : Op (option FleetWorkerEvent) := fun s =>
  if negb (is_terminal_payload p) then Err $"conditional terminal append requires a terminal worker event"
  else append_event_when (fun _ t => holds t Leased w expected_attempts) run_id w task_id timestamp p s.

Definition append_terminal_event_if_lease_unchanged (run_id : FleetRunId) (w task_id : str)
    (expected_attempts expected_latest_seq : Z) (expected_heartbeat_at : option str) (timestamp : str)
    (p : FleetWorkerEventPayload) : Op (option FleetWorkerEvent) := fun s =>
  if negb (is_terminal_payload p) then Err $"conditional terminal append requires a terminal worker event"
  else append_event_when
         (fun s t => holds t Leased w expected_attempts
                     && unchanged s (event_key w run_id task_id) w expected_latest_seq expected_heartbeat_at)
         run_id w task_id timestamp p s.

Definition with_generation (r : FleetReceipt) (a n : Z) : FleetReceipt :=
  {| receipt_run_id := receipt_run_id r; receipt_task_id := receipt_task_id r; receipt_worker_id := receipt_worker_id r;
     attempt := Some a; terminal_seq := Some n; receipt_completed_at := receipt_completed_at r;
     receipt_result := receipt_result r; failure_kind := failure_kind r; artifacts := artifacts r; score := score r;
     resolved_route := resolved_route r; effective_permissions := effective_permissions r |}.

Definition finalize_task_attempt_if_leased (run_id : FleetRunId) (w task_id : str) (expected_attempts : Z) (timestamp : str)
    (p : FleetWorkerEventPayload) (final_status : option FleetTaskLedgerStatus) (receipt : FleetReceipt)
    : Op (option FleetWorkerEvent) := fun s =>
  reject_if (negb (is_terminal_payload p)) $"attempt finalization requires a terminal worker event";;
  reject_if (match final_status with Some st => negb (is_terminal st) | None => false end)
    $"attempt finalization status must be terminal";;
  reject_if (bool_decide (receipt_run_id receipt <> run_id) || bool_decide (receipt_task_id receipt <> task_id)
             || bool_decide (receipt_worker_id receipt <> w))
    $"attempt receipt identity does not match its terminal event";;
  reject_if (match attempt receipt with Some a => negb (a =? expected_attempts) | None => false end)
    $"attempt receipt generation does not match its lease";;
  match tasks s !! task_key run_id task_id with
  | None => Ok (None, [])
  | Some t =>
      if holds t Leased w expected_attempts
      then let e := next_worker_event s run_id w task_id timestamp p in
           Ok (Some e, [TaskAttemptFinalized e final_status (with_generation receipt expected_attempts (seq e))])
      else Ok (None, [])
  end.

Definition leased_elsewhere (s : FleetLedgerState) (k w : str) : bool :=
  existsb (fun p => bool_decide (p.1 <> k) && leased_by w p.2) (btree_entries (tasks s)).

Definition restart_task_if_unchanged_with_callback (run_id : FleetRunId) (task_id w : str)
    (expected_status : FleetTaskLedgerStatus) (expected_attempts expected_latest_seq : Z) (expected_heartbeat_at : option str)
    (leased_at : str) (expires : option str) (restart_count : Z) (callback : result str unit) : Op bool := fun s =>
  let k := task_key run_id task_id in
  match tasks s !! k with
  | None => Ok (false, [])
  | Some t =>
      let latest := latest_of s (event_key w run_id task_id) in
      if negb (holds t expected_status w expected_attempts
               && unchanged s (event_key w run_id task_id) w expected_latest_seq expected_heartbeat_at)
      then Ok (false, [])
      else if leased_elsewhere s k w then Ok (false, [])
      else
        let restarted := worker_event (u64_saturating_add latest 1) run_id w task_id leased_at (EvRestarted restart_count) in
        let running := worker_event (u64_saturating_add (seq restarted) 1) run_id w task_id leased_at EvRunning in
        callback;;
        Ok (true, [TaskLeased run_id task_id w leased_at expires; EventAppended restarted; EventAppended running;
                   Heartbeat w leased_at None None])
  end.

Definition restart_task_if_unchanged (run_id : FleetRunId) (task_id w : str) (expected_status : FleetTaskLedgerStatus)
    (expected_attempts expected_latest_seq : Z) (expected_heartbeat_at : option str) (leased_at : str) (expires : option str)
    (restart_count : Z) : Op bool :=
  restart_task_if_unchanged_with_callback run_id task_id w expected_status expected_attempts expected_latest_seq
    expected_heartbeat_at leased_at expires restart_count (Ok tt).

(** *** Cancellation and alerts *)

Definition cancel_task_if_active (run_id : FleetRunId) (task_id : str) (expected_worker : option str) (timestamp : str)
    (signal cancelled_by : option str) : Op bool := fun s =>
  match tasks s !! task_key run_id task_id with
  | None => Ok (false, [])
  | Some t =>
      if is_terminal (status t) then Ok (false, [])
      else if match expected_worker with Some w => negb (leased_by w t) | None => false end then Ok (false, [])
      else match leased_to t with
      | Some w =>
          let first := u64_add (latest_of s (event_key w run_id task_id)) 1 in
          let cancelled n := EventAppended (worker_event n run_id w task_id timestamp (EvCancelled cancelled_by)) in
          Ok (true, match signal with
                    | Some sg =>
                        [EventAppended (worker_event first run_id w task_id timestamp (EvInterrupted (Some sg)));
                         cancelled (u64_add first 1)]
                    | None => [cancelled first]
                    end)
      | None => Ok (true, [TaskCompletedOrFailed run_id task_id [] timestamp Cancelled])
      end
  end.

Definition record_failed_attempt_alert_once (run_id : FleetRunId) (task_id w : str) (expected_attempts : Z)
    (channel_label channel_key timestamp : str) : Op bool := fun s =>
  match tasks s !! task_key run_id task_id with
  | None => Ok (false, [])
  | Some t =>
      if negb (holds t Failed w expected_attempts) then Ok (false, [])
      else if bool_decide (is_Some (alerts s !! alert_key run_id task_id (Some expected_attempts) channel_key))
              || bool_decide (is_Some (alerts s !! alert_key run_id task_id (Some expected_attempts) channel_label))
      then Ok (false, [])
      else Ok (true, [AlertSent run_id task_id channel_key timestamp (Some w) (Some expected_attempts)
                        (Some (u64_saturating_add (latest_of s (event_key w run_id task_id)) 1))])
  end.

(** ** Compaction

    The records that rewrite a ledger from its state. *)

Definition option_le {A} (le : A -> A -> bool) (a b : option A) : bool :=
  match a, b with None, _ => true | Some _, None => false | Some a, Some b => le a b end.

Definition alert_key_le (a b : AlertKey) : bool :=
  let '(r, t, n, c) := a in
  let '(r', t', n', c') := b in
  if decide (r = r') then
    if decide (t = t') then
      if decide (n = n') then str_le c c' else option_le Z.leb n n'
    else str_le t t'
  else str_le r r'.

Definition event_le (a b : FleetWorkerEvent) : bool :=
  if decide (ev_worker_id a = ev_worker_id b) then
    if decide (ev_run_id a = ev_run_id b) then
      if decide (ev_task_id a = ev_task_id b) then seq a <=? seq b
      else str_le (ev_task_id a) (ev_task_id b)
    else str_le (ev_run_id a) (ev_run_id b)
  else str_le (ev_worker_id a) (ev_worker_id b).

Definition run_records (s : FleetLedgerState) (r : FleetRun) : list FleetLedgerRecord :=
  RunCreated r :: match run_status_overrides s !! run_id r with
                  | Some st => [RunStatusChanged (run_id r) st (default [] (updated_at r))]
                  | None => []
                  end.

(** The entry as it was before the retained lease. *)
Definition enqueued_entry (t : FleetTaskState) : FleetInboxEntry :=
  match leased_to t with
  | Some _ =>
      {| entry_run_id := entry_run_id (entry t); entry_task_id := entry_task_id (entry t); priority := priority (entry t);
         enqueued_at := enqueued_at (entry t); lease_deadline := None; attempts := Z.max 0 (attempts (entry t) - 1) |}
  | None => entry t
  end.

Definition task_records (t : FleetTaskState) : list FleetLedgerRecord :=
  TaskEnqueued (enqueued_entry t)
  :: match leased_to t with
     | Some w => [TaskLeased (entry_run_id (entry t)) (entry_task_id (entry t)) w (default [] (leased_at t)) (lease_deadline (entry t))]
     | None => []
     end.

Definition terminal_records (t : FleetTaskState) : list FleetLedgerRecord :=
  if is_terminal (status t)
  then [TaskCompletedOrFailed (entry_run_id (entry t)) (entry_task_id (entry t)) (default [] (leased_to t))
          (default [] (completed_at t)) (status t)]
  else [].

Definition lifecycle_record (t : FleetTaskState) : FleetLedgerRecord :=
  TaskLifecycleCheckpoint (entry_run_id (entry t)) (entry_task_id (entry t)) (lifecycle_seq t).

Definition alert_record (a : FleetLedgerAlert) : FleetLedgerRecord :=
  AlertSent (alert_run_id a) (alert_task_id a) (alert_channel a) (alert_timestamp a) (alert_worker_id a) (alert_attempt a) (alert_seq a).

Definition insert_events (es : list FleetWorkerEvent) (m : gmap str FleetWorkerEvent) : gmap str FleetWorkerEvent :=
  foldl (fun m e => <[compact_event_key e := e]> m) m es.

Definition compacted_events (s : FleetLedgerState) : list FleetWorkerEvent :=
  stable_sort event_le
    (btree_values
       (insert_events (btree_values (escalated_events s))
          (insert_events (btree_values (restarted_events s))
             (insert_events (btree_values (artifact_events s))
                (insert_events (btree_values (latest_events s)) ∅))))).

Definition sequence_records (s : FleetLedgerState) : list FleetLedgerRecord :=
  omap (fun p : str * Z =>
          o ← sequence_owners s !! p.1;
          Some (EventSequenceCheckpoint (owner_run_id o) (owner_worker_id o) (owner_task_id o) p.2))
    (btree_entries (latest_seq s)).

Definition alert_values (s : FleetLedgerState) : list FleetLedgerAlert :=
  (stable_sort (fun p q => alert_key_le p.1 q.1) (map_to_list (alerts s))).*2.

Definition compact (s : FleetLedgerState) : list FleetLedgerRecord :=
  flat_map (run_records s) (btree_values (runs s))
  ++ flat_map task_records (btree_values (tasks s))
  ++ (alert_record <$> alert_values s)
  ++ (EventAppended <$> compacted_events s)
  ++ sequence_records s
  ++ ((fun p : str * FleetHeartbeatState => Heartbeat p.1 (hb_timestamp p.2) (hb_cpu_percent p.2) (hb_memory_mb p.2))
        <$> btree_entries (heartbeats s))
  ++ flat_map terminal_records (btree_values (tasks s))
  ++ (lifecycle_record <$> btree_values (tasks s))
  ++ (ReceiptRecorded <$> btree_values (receipts s)).

(** ** A shared ledger

    [with_write_lock]: what an operation replies, and the records of the file
    after it. *)
Definition transact {A} (op : Op A) (ledger : list FleetLedgerRecord) : result str A * list FleetLedgerRecord :=
  match op (replay empty_state ledger) with
  | Ok (a, rs) => (Ok a, ledger ++ rs)
  | Err e => (Err e, ledger)
  end.
