(* ===== verification/FleetLedgerFacts.v ===== *)
(** * Facts about the replay of the fleet ledger *)

From S2P Require Import Text Json FleetProtocol FleetLedger.

(** ** The least of a list *)

Lemma min_by_elem {A} (le : A -> A -> bool) l x : min_by le l = Some x -> x ∈ l.
Proof.
  revert x. induction l as [|y l IH]; cbn; [done|]. intros x. destruct (min_by le l) as [z|]; [|intros [= <-]; by left].
  destruct (le y z); intros [= <-]; [by left|right; by apply IH].
Qed.

(** ** The effect of a record on the tasks *)

Definition event_tasks (e : FleetWorkerEvent) (m : gmap str FleetTaskState) : gmap str FleetTaskState :=
  match terminal_status (payload e) with
  | Some st => alter (mark_terminal (ev_worker_id e) (ev_timestamp e) st) (task_key_of_event e) m
  | None => m
  end.

Lemma regresses_not_terminal p : regresses p = true -> terminal_status p = None.
Proof. by destruct p. Qed.

Lemma tasks_derive_status s e : tasks (derive_status s e) = event_tasks e (tasks s).
Proof. unfold derive_status, event_tasks. by destruct (terminal_status (payload e)), (worker_status (payload e)). Qed.

Lemma tasks_apply_event s e : tasks (apply_event s e) = event_tasks e (tasks s).
Proof.
  unfold apply_event. destruct (_ && _) eqn:Hi.
  - apply andb_true_iff in Hi as [_ Hr]. unfold event_tasks. rewrite (regresses_not_terminal _ Hr). by destruct (newer _ _).
  - rewrite tasks_derive_status. by destruct (newer _ _).
Qed.

Definition record_tasks (r : FleetLedgerRecord) (m : gmap str FleetTaskState) : gmap str FleetTaskState :=
  match r with
  | TaskEnqueued e =>
      let k := task_key (entry_run_id e) (entry_task_id e) in
      if decide (is_Some (m !! k)) then m else <[k := new_task e]> m
  | TaskLeased run_id task_id w leased_at expires => alter (lease w leased_at expires) (task_key run_id task_id) m
  | TaskCompletedOrFailed run_id task_id w timestamp st => alter (mark_terminal w timestamp st) (task_key run_id task_id) m
  | TaskLifecycleCheckpoint run_id task_id n => alter (checkpoint n) (task_key run_id task_id) m
  | TaskAttemptFinalized e final _ =>
      match final with
      | Some st => alter (mark_terminal (ev_worker_id e) (ev_timestamp e) st) (task_key_of_event e) (event_tasks e m)
      | None => event_tasks e m
      end
  | EventAppended e => event_tasks e m
  | RunCreated _ | RunStatusChanged _ _ _ | EventSequenceCheckpoint _ _ _ _ | Heartbeat _ _ _ _ | ReceiptRecorded _
  | AlertSent _ _ _ _ _ _ _ => m
  end.

Lemma tasks_apply_record s r : tasks (apply_record s r) = record_tasks r (tasks s).
Proof.
  destruct r; cbn; try done.
  - by case_decide.
  - destruct final_status; cbn; by rewrite tasks_apply_event.
  - apply tasks_apply_event.
  - unfold apply_heartbeat. by case_decide.
  - case_decide; [done|]. destruct worker_id as [w|], seq as [n|]; try done. by rewrite tasks_apply_event.
Qed.

Lemma tasks_replay s rs : tasks (replay s rs) = foldl (fun m r => record_tasks r m) (tasks s) rs.
Proof. revert s. induction rs as [|r rs IH]; intros s; [done|]. cbn. unfold replay in IH. by rewrite IH, tasks_apply_record. Qed.

Lemma replay_app s rs rs' : replay s (rs ++ rs') = replay (replay s rs) rs'.
Proof. apply foldl_app. Qed.

Lemma replay_cons s r rs : replay s (r :: rs) = replay (apply_record s r) rs.
Proof. done. Qed.

(** ** The history of a task only moves forward *)

Definition in_range (t : FleetTaskState) : Prop := 0 <= lifecycle_seq t <= u64_max /\ 0 <= attempts (entry t) <= u32_max.

(** The later state of a task: the counters do not go back, and the lifecycle
    counter moves with the status and the lease. *)
Record evolves (t t' : FleetTaskState) : Prop := {
  ev_range : in_range t';
  ev_lifecycle : lifecycle_seq t <= lifecycle_seq t';
  ev_attempts : attempts (entry t) <= attempts (entry t');
  ev_identity : entry_run_id (entry t') = entry_run_id (entry t) /\ entry_task_id (entry t') = entry_task_id (entry t)
                /\ priority (entry t') = priority (entry t) /\ enqueued_at (entry t') = enqueued_at (entry t);
  ev_status : status t <> status t' -> lifecycle_seq t < lifecycle_seq t' \/ lifecycle_seq t' = u64_max;
  ev_attempt_lease : attempts (entry t) < attempts (entry t') -> is_Some (leased_to t') }.

Lemma evolves_refl t : in_range t -> evolves t t.
Proof. intros H. split; try done; lia. Qed.

Lemma evolves_trans t1 t2 t3 : evolves t1 t2 -> evolves t2 t3 -> (leased_to t2 <> None -> leased_to t3 <> None) -> evolves t1 t3.
Proof.
  intros [[R1 R1'] L1 A1 (I1 & I2 & I3 & I4) S1 W1] [[R2 R2'] L2 A2 (J1 & J2 & J3 & J4) S2 W2] Hw.
  split; [done|lia|lia|split_and!; congruence| |].
  - intros Hne. destruct (decide (status t1 = status t2)) as [E|E].
    + destruct S2 as [?|?]; [congruence|left; lia|by right].
    + destruct S1 as [?|?]; [done|left; lia|right; lia].
  - intros Hlt. destruct (decide (attempts (entry t2) < attempts (entry t3))); [by apply W2|].
    destruct (leased_to t3); [done|]. exfalso. apply Hw; [|done]. destruct W1 as [w ->]; [lia|done].
Qed.

Definition step_ok (f : FleetTaskState -> FleetTaskState) : Prop :=
  forall t, in_range t -> evolves t (f t) /\ (leased_to t <> None -> leased_to (f t) <> None).

Lemma mark_terminal_ok w ts st : step_ok (mark_terminal w ts st).
Proof.
  intros t [H1 H2]. unfold u64_max in *. split.
  - split; cbn; try done; try lia; unfold in_range; cbn; try case_decide; unfold u64_saturating_add, u64_max; try lia; try done.
  - cbn. by destruct (str_is_empty w).
Qed.

Lemma lease_ok w at_ ex : step_ok (lease w at_ ex).
Proof.
  intros t [H1 H2]. unfold u64_max, u32_max in *. split; [|done].
  split; cbn; try done; unfold in_range; cbn; unfold u64_saturating_add, u32_saturating_add, u64_max, u32_max; try lia.
  - destruct (_ || _); lia.
  - destruct (_ || _); lia.
  - intros Hne. rewrite bool_decide_true by done. cbn. lia.
Qed.

Lemma checkpoint_ok n : n <= u64_max -> step_ok (checkpoint n).
Proof.
  intros Hn t [H1 H2]. unfold u64_max in *. split; [|done]. split; cbn; try done; unfold in_range; cbn; unfold u64_max; try lia; done.
Qed.

(** What the parser lets through: counters in the range of their types. *)
Definition record_in_range (r : FleetLedgerRecord) : Prop :=
  match r with
  | TaskEnqueued e => 0 <= attempts e <= u32_max
  | TaskLifecycleCheckpoint _ _ n => n <= u64_max
  | _ => True
  end.

Definition tasks_in_range (m : gmap str FleetTaskState) : Prop := map_Forall (fun _ t => in_range t) m.

Lemma alter_evolves f m k0 : step_ok f -> tasks_in_range m ->
  tasks_in_range (alter f k0 m)
  /\ forall k t, m !! k = Some t ->
     exists t', alter f k0 m !! k = Some t' /\ evolves t t' /\ (leased_to t <> None -> leased_to t' <> None).
Proof.
  intros Hf Hm. split.
  - intros k t. destruct (decide (k0 = k)) as [->|Hne].
    + rewrite lookup_alter_eq. intros (t0 & Ht0 & ->)%fmap_Some. apply (Hf t0), (Hm k t0 Ht0).
    + rewrite lookup_alter_ne by done. apply Hm.
  - intros k t Ht. pose proof (Hm k t Ht) as Hr. destruct (decide (k0 = k)) as [->|Hne].
    + exists (f t). rewrite lookup_alter_eq, Ht. split; [done|]. by apply Hf.
    + exists t. rewrite lookup_alter_ne by done. split; [done|]. split; [by apply evolves_refl|done].
Qed.

Lemma same_evolves m : tasks_in_range m ->
  tasks_in_range m
  /\ forall k t, m !! k = Some t -> exists t', m !! k = Some t' /\ evolves t t' /\ (leased_to t <> None -> leased_to t' <> None).
Proof. intros Hm. split; [done|]. intros k t Ht. exists t. split; [done|]. split; [apply evolves_refl, (Hm k t Ht)|done]. Qed.

Lemma event_tasks_evolves e m : tasks_in_range m ->
  tasks_in_range (event_tasks e m)
  /\ forall k t, m !! k = Some t ->
     exists t', event_tasks e m !! k = Some t' /\ evolves t t' /\ (leased_to t <> None -> leased_to t' <> None).
Proof.
  intros Hm. unfold event_tasks. destruct (terminal_status _); [apply alter_evolves; [apply mark_terminal_ok|done]|by apply same_evolves].
Qed.

Lemma record_tasks_evolves r m : record_in_range r -> tasks_in_range m ->
  tasks_in_range (record_tasks r m)
  /\ forall k t, m !! k = Some t ->
     exists t', record_tasks r m !! k = Some t' /\ evolves t t' /\ (leased_to t <> None -> leased_to t' <> None).
Proof.
  intros Hr Hm. destruct r; cbn [record_tasks]; try (by apply same_evolves).
  - cbn in Hr. case_decide as Hs; [by apply same_evolves|]. split.
    + apply map_Forall_insert_2; [split; cbn; unfold u64_max, u32_max in *; lia|done].
    + intros k t Ht. exists t. rewrite lookup_insert_ne by (intros <-; apply Hs; by exists t).
      split; [done|]. split; [apply evolves_refl, (Hm k t Ht)|done].
  - apply alter_evolves; [apply lease_ok|done].
  - apply alter_evolves; [apply mark_terminal_ok|done].
  - apply alter_evolves; [by apply checkpoint_ok|done].
  - destruct (event_tasks_evolves event m Hm) as [Hm1 H1]. destruct final_status as [st|]; [|done].
    destruct (alter_evolves (mark_terminal (ev_worker_id event) (ev_timestamp event) st) (event_tasks event m) (task_key_of_event event)
                (mark_terminal_ok _ _ _) Hm1) as [Hm2 H2]. split; [done|].
    intros k t (t1 & Ht1 & He1 & Hl1)%H1. apply H2 in Ht1 as (t2 & Ht2 & He2 & Hl2).
    exists t2. split; [done|]. split; [by eapply evolves_trans|auto].
  - by apply event_tasks_evolves.
Qed.

Lemma replay_evolves rs s : Forall record_in_range rs -> tasks_in_range (tasks s) ->
  tasks_in_range (tasks (replay s rs))
  /\ forall k t, tasks s !! k = Some t ->
     exists t', tasks (replay s rs) !! k = Some t' /\ evolves t t' /\ (leased_to t <> None -> leased_to t' <> None).
Proof.
  intros H. revert s. induction H as [|r rs Hr Hrs IH]; intros s Hs; [by apply same_evolves|].
  destruct (record_tasks_evolves r (tasks s) Hr Hs) as [Hm H1]. rewrite <-tasks_apply_record in Hm, H1.
  destruct (IH (apply_record s r) Hm) as [Hm2 H2]. split; [done|].
  intros k t (t1 & Ht1 & He1 & Hl1)%H1. apply H2 in Ht1 as (t2 & Ht2 & He2 & Hl2).
  exists t2. split; [done|]. split; [by eapply evolves_trans|auto].
Qed.

(** ** Keys without collisions *)

Definition no_colon (s : str) : Prop := colon ∉ s.
Definition worker_ok (w : str) : Prop := no_colon w /\ w <> [].

Lemma sep_inj (a x b y : str) : no_colon a -> no_colon x -> a ++ colon :: b = x ++ colon :: y -> a = x /\ b = y.
Proof. apply app_sep_inj. Qed.

Lemma event_key_task w r t : event_key w r t = w ++ colon :: task_key r t.
Proof. done. Qed.

Lemma no_colon_app a b : no_colon (a ++ b) <-> no_colon a /\ no_colon b.
Proof. unfold no_colon. rewrite elem_of_app. tauto. Qed.

(** A task key of colon-free names determines the names. *)
Lemma task_key_inj r t r' t' : no_colon r' -> no_colon t' -> task_key r t = task_key r' t' -> r = r' /\ t = t'.
Proof.
  unfold task_key. intros Hr Ht. revert r' Hr. induction r as [|c r IH]; intros r' Hr E.
  - destruct r' as [|c' r']; cbn in E; [by injection E|]. injection E as <- E. by destruct (Hr ltac:(by left)).
  - destruct r' as [|c' r']; cbn in E.
    + injection E as -> E. subst t'. destruct Ht. rewrite elem_of_app. right. by left.
    + injection E as -> E. destruct (IH r') as [-> ->]; [|done|done]. intros Hin. apply Hr. by right.
Qed.

Lemma event_key_inj w r t w' r' t' :
  no_colon w -> no_colon w' -> event_key w r t = event_key w' r' t' -> w = w' /\ task_key r t = task_key r' t'.
Proof. rewrite !event_key_task. apply sep_inj. Qed.
