(* ===== verification/FleetLedgerInv.v ===== *)
(** * The invariant of the fleet ledger

    What holds of the state replayed from a ledger that only the guarded
    operations wrote, and the micro-steps those operations are made of. *)

From S2P Require Import Text Json FleetProtocol FleetLedger FleetLedgerFacts.

(** ** The invariant *)

Definition named (t : FleetTaskState) : Prop := no_colon (entry_run_id (entry t)) /\ no_colon (entry_task_id (entry t)).

(** A task that never was leased, and one that was. *)
Definition unleased_ok (t : FleetTaskState) : Prop :=
  leased_at t = None
  /\ ((status t = Enqueued /\ completed_at t = None) \/ (status t = Cancelled /\ is_Some (completed_at t) /\ 2 <= lifecycle_seq t)).

Definition leased_ok (w : str) (t : FleetTaskState) : Prop :=
  worker_ok w /\ status t <> Enqueued /\ is_Some (leased_at t) /\ 1 <= attempts (entry t) /\ 2 <= lifecycle_seq t
  /\ (is_terminal (status t) = true -> 3 <= lifecycle_seq t /\ is_Some (completed_at t)).

Record task_ok (k : str) (t : FleetTaskState) : Prop := {
  task_keyed : k = task_key (entry_run_id (entry t)) (entry_task_id (entry t));
  task_named : named t;
  task_range : in_range t;
  task_began : 1 <= lifecycle_seq t;
  task_lease : match leased_to t with None => unleased_ok t | Some w => leased_ok w t end }.

Definition escalation_of (a : FleetLedgerAlert) (e : FleetWorkerEvent) : Prop :=
  exists w n, alert_worker_id a = Some w /\ alert_seq a = Some n
              /\ e = escalation (alert_run_id a) (alert_task_id a) (alert_channel a) (alert_timestamp a) w n.

(** The events a state still holds. *)
Inductive retained (s : FleetLedgerState) (e : FleetWorkerEvent) : Prop :=
  | retained_latest k : latest_events s !! k = Some e -> retained s e
  | retained_artifact k : artifact_events s !! k = Some e -> retained s e
  | retained_restarted k : restarted_events s !! k = Some e -> retained s e
  | retained_escalated k : escalated_events s !! k = Some e -> retained s e
  | retained_alert k a : alerts s !! k = Some a -> escalation_of a e -> retained s e.

Definition kept_ok (s : FleetLedgerState) (e : FleetWorkerEvent) : Prop :=
  match payload e with
  | EvArtifact a => artifact_events s !! artifact_event_key e a = Some e
  | EvRestarted _ => restarted_events s !! key_of_event e = Some e
  | EvEscalated _ _ => escalated_events s !! key_of_event e = Some e
  | _ => True
  end.

(** [n] bounds the sequence numbers given out. *)
Record Inv (n : Z) (s : FleetLedgerState) : Prop := {
  inv_runs k r : runs s !! k = Some r -> k = run_id r;
  inv_task k t : tasks s !! k = Some t -> task_ok k t;
  inv_one k k' t t' w :
    tasks s !! k = Some t -> tasks s !! k' = Some t' -> leased_by w t = true -> leased_by w t' = true -> k = k';
  inv_owner k :
    match latest_seq s !! k, sequence_owners s !! k with
    | Some m, Some o => k = event_key (owner_worker_id o) (owner_run_id o) (owner_task_id o) /\ 0 <= m <= n
    | None, None => True
    | _, _ => False
    end;
  inv_event e : retained s e ->
    exists t m, tasks s !! task_key_of_event e = Some t /\ leased_to t = Some (ev_worker_id e)
                /\ latest_seq s !! key_of_event e = Some m /\ 0 <= seq e <= m;
  inv_latest k e : latest_events s !! k = Some e -> k = key_of_event e /\ latest_seq s !! k = Some (seq e) /\ kept_ok s e;
  inv_latest_some k m : latest_seq s !! k = Some m -> is_Some (latest_events s !! k);
  inv_artifact k e : artifact_events s !! k = Some e -> exists a, payload e = EvArtifact a /\ k = artifact_event_key e a;
  inv_restarted k e : restarted_events s !! k = Some e -> (exists c, payload e = EvRestarted c) /\ k = key_of_event e;
  inv_escalated k e : escalated_events s !! k = Some e -> (exists c i, payload e = EvEscalated c i) /\ k = key_of_event e;
  inv_alert k a : alerts s !! k = Some a ->
    k = alert_key (alert_run_id a) (alert_task_id a) (alert_attempt a) (alert_channel a)
    /\ is_Some (alert_attempt a)
    /\ exists e, escalation_of a e /\ is_Some (escalated_events s !! key_of_event e);
  inv_unique e e' : retained s e -> retained s e' -> key_of_event e = key_of_event e' -> seq e = seq e' -> e = e';
  inv_override e st t : retained s e -> terminal_status (payload e) = Some st ->
    tasks s !! task_key_of_event e = Some t -> is_terminal (status t) = true -> status t <> st -> 4 <= lifecycle_seq t;
  inv_receipt k r : receipts s !! k = Some r -> k = task_key (receipt_run_id r) (receipt_task_id r) }.

(** No retained event ended the live lease of the task. *)
Definition live (s : FleetLedgerState) (k : str) : Prop :=
  forall t e, tasks s !! k = Some t -> status t = Leased -> retained s e -> task_key_of_event e = k -> terminal_status (payload e) = None.

Lemma empty_inv : Inv 0 empty_state.
Proof.
  assert (Hr : forall e, ~ retained empty_state e) by (intros e [k Hk|k Hk|k Hk|k Hk|k a Hk _]; by cbn in Hk; rewrite lookup_empty in Hk).
  split; cbn; intros *; rewrite ?lookup_empty; try done; intros He; by destruct (Hr _ He).
Qed.

Lemma empty_live k : live empty_state k.
Proof. intros t e Ht. cbn in Ht. by rewrite lookup_empty in Ht. Qed.

Lemma inv_weaken n n' s : n <= n' -> Inv n s -> Inv n' s.
Proof.
  intros Hn []. split; try done. intros k. specialize (inv_owner0 k).
  destruct (latest_seq s !! k), (sequence_owners s !! k); try done. destruct inv_owner0. split; [done|lia].
Qed.

(** *** Consequences *)

Section consequences.
Context {n : Z} {s : FleetLedgerState} (HI : Inv n s).

Lemma retained_worker e : retained s e -> worker_ok (ev_worker_id e) /\ exists t, tasks s !! task_key_of_event e = Some t /\ leased_to t = Some (ev_worker_id e).
Proof.
  intros He. destruct (inv_event _ _ HI e He) as (t & m & Ht & Hw & _). split; [|by exists t].
  pose proof (task_lease _ _ (inv_task _ _ HI _ _ Ht)) as Hl. rewrite Hw in Hl. apply Hl.
Qed.

(** The names in a retained event are those of its task. *)
Lemma retained_named e : retained s e -> no_colon (ev_run_id e) /\ no_colon (ev_task_id e).
Proof.
  intros (_ & t & Ht & _)%retained_worker. pose proof (inv_task _ _ HI _ _ Ht) as [Hk [Hr Hn] _ _ _].
  unfold task_key_of_event in Hk. apply task_key_inj in Hk as [-> ->]; done.
Qed.

Lemma retained_same_task e e' : retained s e -> retained s e' -> task_key_of_event e = task_key_of_event e' ->
  ev_worker_id e = ev_worker_id e' /\ ev_run_id e = ev_run_id e' /\ ev_task_id e = ev_task_id e' /\ key_of_event e = key_of_event e'.
Proof.
  intros He He' Hk. pose proof (retained_named e' He') as [Hr Ht].
  destruct (retained_worker e He) as (_ & t & H1 & H2), (retained_worker e' He') as (_ & t' & H1' & H2').
  rewrite Hk, H1' in H1. injection H1 as ->. rewrite H2' in H2. injection H2 as Hw.
  unfold task_key_of_event in Hk. apply task_key_inj in Hk as [Hkr Hkt]; [|done|done].
  split_and!; try done. unfold key_of_event. congruence.
Qed.

Lemma retained_same_key e e' : retained s e -> retained s e' -> key_of_event e = key_of_event e' ->
  ev_worker_id e = ev_worker_id e' /\ ev_run_id e = ev_run_id e' /\ ev_task_id e = ev_task_id e'.
Proof.
  intros He He' Hk. destruct (retained_worker e He) as [[Hw _] _], (retained_worker e' He') as [[Hw' _] _].
  unfold key_of_event in Hk. apply event_key_inj in Hk as [_ Hk]; [|done|done].
  by destruct (retained_same_task e e' He He' Hk) as (? & ? & ? & _).
Qed.

(** Only the latest event of a task can be terminal. *)
Lemma retained_terminal e : retained s e -> terminal_status (payload e) <> None -> latest_events s !! key_of_event e = Some e.
Proof.
  intros [k Hk|k Hk|k Hk|k Hk|k a Hk (w & m & _ & _ & ->)] Ht.
  - by destruct (inv_latest _ _ HI k e Hk) as [<- _].
  - by destruct (inv_artifact _ _ HI k e Hk) as (a & Ha & _); rewrite Ha in Ht.
  - by destruct (inv_restarted _ _ HI k e Hk) as ((a & Ha) & _); rewrite Ha in Ht.
  - by destruct (inv_escalated _ _ HI k e Hk) as ((a & i & Ha) & _); rewrite Ha in Ht.
  - done.
Qed.

Lemma unleased_no_event k t e : tasks s !! k = Some t -> leased_to t = None -> retained s e -> task_key_of_event e <> k.
Proof. intros Ht Hl He <-. destruct (retained_worker e He) as (_ & t' & Ht' & Hl'). congruence. Qed.

Lemma busy_spec w : worker_is_busy s w = true <-> exists k t, tasks s !! k = Some t /\ leased_by w t = true.
Proof. apply existsb_btree_values. Qed.
End consequences.

(** ** Micro-steps *)

(** A step that leaves the tasks, the events and the alerts alone. *)
Definition same_core (s s' : FleetLedgerState) : Prop :=
  tasks s' = tasks s /\ latest_seq s' = latest_seq s /\ sequence_owners s' = sequence_owners s /\ latest_events s' = latest_events s
  /\ artifact_events s' = artifact_events s /\ restarted_events s' = restarted_events s /\ escalated_events s' = escalated_events s
  /\ alerts s' = alerts s.

Lemma same_core_retained s s' e : same_core s s' -> retained s' e -> retained s e.
Proof.
  intros (_ & _ & _ & El & Ea & Er & Ee & Eal) [k Hk|k Hk|k Hk|k Hk|k a Hk Hesc].
  - rewrite El in Hk. by eapply retained_latest.
  - rewrite Ea in Hk. by eapply retained_artifact.
  - rewrite Er in Hk. by eapply retained_restarted.
  - rewrite Ee in Hk. by eapply retained_escalated.
  - rewrite Eal in Hk. by eapply retained_alert.
Qed.

Lemma same_core_inv n s s' :
  same_core s s' -> (forall k r, runs s' !! k = Some r -> k = run_id r) ->
  (forall k r, receipts s' !! k = Some r -> k = task_key (receipt_run_id r) (receipt_task_id r)) -> Inv n s -> Inv n s'.
Proof.
  intros Hc Hruns Hrec HI. pose proof (fun e => same_core_retained s s' e Hc) as Hr.
  destruct Hc as (Et & El & Eo & Ele & Ea & Er & Ee & Eal). destruct HI.
  split; rewrite ?Et, ?El, ?Eo, ?Ele, ?Ea, ?Er, ?Ee, ?Eal; eauto.
  - intros k e Hk. destruct (inv_latest0 k e Hk) as (-> & Hs & Hkept). split_and!; [done|done|].
    unfold kept_ok in *. by rewrite Ea, Er, Ee.
Qed.

Lemma same_core_live s s' k : same_core s s' -> live s k -> live s' k.
Proof.
  intros Hc Hl t e. pose proof (same_core_retained s s' e Hc) as Hr. destruct Hc as (Et & _). rewrite Et. intros Ht Hs He. eauto.
Qed.

Definition put_task (k : str) (t : FleetTaskState) (s : FleetLedgerState) : FleetLedgerState := on_tasks (insert k t) s.

Lemma put_task_retained k t s e : retained (put_task k t s) e <-> retained s e.
Proof.
  split; (intros [j Hk|j Hk|j Hk|j Hk|j a Hk Ha];
    [by eapply retained_latest|by eapply retained_artifact|by eapply retained_restarted|by eapply retained_escalated|by eapply retained_alert]).
Qed.

(** Writing one task. *)
Lemma put_task_inv n s k t :
  Inv n s -> task_ok k t ->
  (forall w, leased_by w t = true -> forall k' t', k' <> k -> tasks s !! k' = Some t' -> leased_by w t' = false) ->
  (forall t0, tasks s !! k = Some t0 -> leased_to t0 <> None -> leased_to t = leased_to t0) ->
  (forall e st, retained s e -> task_key_of_event e = k -> terminal_status (payload e) = Some st ->
     is_terminal (status t) = true -> status t <> st -> 4 <= lifecycle_seq t) ->
  Inv n (put_task k t s).
Proof.
  intros HI Hok Hone Hlease Hover. destruct HI. split; try done.
  - intros j u. cbn. rewrite lookup_insert_Some. intros [[<- <-]|[_ Hj]]; [done|by apply inv_task0].
  - intros j j' u u' w. cbn. rewrite !lookup_insert_Some. intros [[<- <-]|[Hne Hj]] [[<- <-]|[Hne' Hj']] H H'; try done.
    + by rewrite (Hone w H j' u') in H' by done.
    + by rewrite (Hone w H' j u) in H by done.
    + by eapply inv_one0.
  - intros e. rewrite put_task_retained. intros He. destruct (inv_event0 e He) as (u & m & Hu & Hw & Hm). cbn.
    destruct (decide (k = task_key_of_event e)) as [->|Hne].
    + exists t, m. rewrite lookup_insert_eq. split; [done|]. rewrite (Hlease u Hu) by (by rewrite Hw). done.
    + exists u, m. by rewrite lookup_insert_ne.
  - intros e e'. rewrite !put_task_retained. eauto.
  - intros e st u. rewrite put_task_retained. cbn. rewrite lookup_insert_Some. intros He Hst [[Hk <-]|[_ Hu]] Hterm Hne; [by eapply Hover|eauto].
Qed.

Lemma alter_put (f : FleetTaskState -> FleetTaskState) k s t : tasks s !! k = Some t -> on_tasks (alter f k) s = put_task k (f t) s.
Proof.
  intros Ht. unfold put_task, on_tasks. f_equal. apply map_eq. intros j.
  destruct (decide (k = j)) as [->|Hne]; [by rewrite lookup_alter_eq, Ht, lookup_insert_eq|by rewrite lookup_alter_ne, lookup_insert_ne].
Qed.

Lemma alter_none (f : FleetTaskState -> FleetTaskState) k s : tasks s !! k = None -> on_tasks (alter f k) s = s.
Proof.
  intros Ht. destruct s. unfold on_tasks. cbn in *. f_equal. apply map_eq. intros j.
  destruct (decide (k = j)) as [->|Hne]; [by rewrite lookup_alter_eq, Ht|by rewrite lookup_alter_ne].
Qed.

Lemma put_task_live k t s j : (j <> k \/ status t <> Leased) -> live s j -> live (put_task k t s) j.
Proof.
  intros Hj Hl u e Hu Hs He Hk. apply put_task_retained in He. cbn in Hu. rewrite lookup_insert_Some in Hu.
  destruct Hu as [[-> ->]|[_ Hu]]; [by destruct Hj|by eapply Hl].
Qed.

Lemma put_task_live_quiet k t s :
  (forall e, retained s e -> task_key_of_event e = k -> terminal_status (payload e) = None) -> live (put_task k t s) k.
Proof. intros Hq u e _ _ He Hk. apply put_task_retained in He. by apply Hq. Qed.

(** *** Enqueueing, leasing and ending *)

Lemma enqueue_inv n s e :
  Inv n s -> no_colon (entry_run_id e) -> no_colon (entry_task_id e) -> 0 <= attempts e <= u32_max ->
  Inv n (apply_record s (TaskEnqueued e)) /\ forall k, live s k -> live (apply_record s (TaskEnqueued e)) k.
Proof.
  intros HI Hr Ht Ha. cbn. case_decide as Hs; [done|].
  assert (Hq : forall e', retained s e' -> task_key_of_event e' <> task_key (entry_run_id e) (entry_task_id e)).
  { intros e' He' Hk. apply Hs. destruct (retained_worker HI e' He') as (_ & t & Htask & _). rewrite <-Hk. by exists t. }
  split.
  - apply put_task_inv; [done| | | |].
    + split; cbn; [done|by split|split; cbn; unfold u64_max; lia|lia|split; [done|by left]].
    + intros w. unfold leased_by, is_leased. cbn. by rewrite bool_decide_false.
    + intros t0 Ht0. destruct Hs. by exists t0.
    + intros e' st He' Hk. by destruct (Hq e').
  - intros k Hl. apply put_task_live; [right; cbn; congruence|done].
Qed.

Lemma saturating_ge a b : a <= u64_max -> 0 <= a -> b <= a -> b + 1 <= u64_max -> b + 1 <= u64_saturating_add a 1 \/ b + 1 <= a.
Proof. unfold u64_saturating_add. lia. Qed.

Lemma lease_task_ok k t w at_ ex :
  task_ok k t -> worker_ok w -> (status t <> Enqueued -> leased_to t = Some w) -> (leased_to t = None -> status t = Enqueued) ->
  task_ok k (lease w at_ ex t).
Proof.
  intros [Hk Hn Hr Hb Hl] Hw Hs Hs'. pose proof (lease_ok w at_ ex t Hr) as [He _]. destruct He as [Hr' Hlc Hat _ _ _]. split; try done.
  - cbn [lifecycle_seq lease] in Hlc |- *. lia.
  - cbn [leased_to lease]. split_and!; try done. 
    + destruct Hr as [_ Hr]. cbn. unfold u32_saturating_add, u32_max in *. lia.
    + destruct (leased_to t) as [w'|] eqn:E.
      * destruct Hl as (_ & _ & _ & _ & H2 & _). lia.
      * cbn. rewrite (Hs' eq_refl). rewrite bool_decide_true by done. cbn. unfold u64_saturating_add, u64_max. lia.
Qed.

(** A lease of a queued task, or of a task to the worker it had. *)
Lemma lease_inv n s k t w at_ ex :
  Inv n s -> tasks s !! k = Some t -> worker_ok w -> (leased_to t = Some w \/ status t = Enqueued) ->
  (forall k' t', k' <> k -> tasks s !! k' = Some t' -> leased_by w t' = false) ->
  Inv n (on_tasks (alter (lease w at_ ex) k) s)
  /\ (forall j, j <> k \/ status t = Enqueued -> live s j -> live (on_tasks (alter (lease w at_ ex) k) s) j).
Proof.
  intros HI Ht Hw Hs Hone. rewrite (alter_put _ _ _ _ Ht). pose proof (inv_task _ _ HI _ _ Ht) as Hok.
  assert (Hun : status t = Enqueued -> leased_to t = None).
  { intros E. pose proof (task_lease _ _ Hok) as Hl. destruct (leased_to t); [|done]. by destruct Hl as (_ & Hne & _). }
  split.
  - apply put_task_inv; [done| | | |].
    + apply lease_task_ok; [done|done| |].
      * intros Hne. by destruct Hs.
      * intros E. destruct Hs as [E'|]; [congruence|done].
    + intros w' Hw'. unfold leased_by in Hw'. cbn in Hw'. apply bool_decide_eq_true in Hw'. injection Hw' as <-. apply Hone.
    + intros t0 Ht0 Hne. rewrite Ht in Ht0. injection Ht0 as <-. destruct Hs as [->|E]; [done|]. by rewrite (Hun E) in Hne.
    + intros e st _ _ _ Hterm. done.
  - intros j Hj Hl. destruct (decide (j = k)) as [->|Hne]; [|by apply put_task_live; [left|]].
    destruct Hj as [|E]; [done|]. apply put_task_live_quiet. intros e He Hk.
    by destruct (unleased_no_event HI k t e Ht (Hun E) He).
Qed.

Lemma mark_task_ok k t w ts st :
  task_ok k t -> is_terminal st = true ->
  (leased_to t = Some w \/ (w = [] /\ leased_to t = None /\ st = Cancelled)) ->
  task_ok k (mark_terminal w ts st t).
Proof.
  intros [Hk Hn Hr Hb Hl] Hst Hw. pose proof (mark_terminal_ok w ts st t Hr) as [[Hr' Hlc _ _ Hsta _] _]. split; try done.
  { cbn [lifecycle_seq mark_terminal] in Hlc |- *. lia. }
  assert (Hlc2 : status t <> st -> lifecycle_seq t + 1 <= lifecycle_seq (mark_terminal w ts st t) \/ lifecycle_seq (mark_terminal w ts st t) = u64_max).
  { intros Hne. destruct Hsta as [?|?]; [done|left; lia|by right]. }
  unfold u64_max in *. destruct Hw as [E|(-> & E & ->)]; rewrite E in Hl; cbn [leased_to mark_terminal status completed_at leased_at entry].
  - destruct Hl as (Hwok & Hne & Hat & Ha & H2 & H3). destruct w as [|c w]; [by destruct Hwok|]. cbn [str_is_empty].
    split_and!; try done; cbn [status mark_terminal]; [by destruct st|lia|]. intros _. split; [|done].
    destruct (decide (status t = st)) as [Es|Es]; [rewrite <-Es in Hst; apply H3 in Hst; lia|]. apply Hlc2 in Es. lia.
  - cbn [str_is_empty]. rewrite E. destruct Hl as [Hat Hl]. split; [done|]. right. split_and!; [done|done|].
    destruct Hl as [[Hs _]|(Hs & _ & H2)]; [|lia]. destruct Hlc2 as [?|?]; [congruence|lia|lia].
Qed.

(** The end of a leased task, or the cancellation of a queued one. *)
Lemma mark_inv n s k t w ts st :
  Inv n s -> tasks s !! k = Some t -> is_terminal st = true -> live s k ->
  (leased_to t = Some w \/ (w = [] /\ leased_to t = None /\ st = Cancelled)) ->
  Inv n (on_tasks (alter (mark_terminal w ts st) k) s)
  /\ (forall j, live s j -> live (on_tasks (alter (mark_terminal w ts st) k) s) j).
Proof.
  intros HI Ht Hst Hlive Hw. rewrite (alter_put _ _ _ _ Ht). pose proof (inv_task _ _ HI _ _ Ht) as Hok.
  assert (Hleased : forall x, leased_by x (mark_terminal w ts st t) = false).
  { intros x. unfold leased_by, is_leased. cbn. rewrite bool_decide_false; [done|]. by intros ->. }
  split.
  - apply put_task_inv; [done|by apply mark_task_ok| | |].
    + intros x Hx. by rewrite Hleased in Hx.
    + intros t0 Ht0 Hne. rewrite Ht in Ht0. injection Ht0 as <-. cbn. destruct Hw as [->|(-> & -> & _)]; [by destruct w|done].
    + intros e st' He Hk Hp _ Hne. destruct Hw as [E|(-> & E & ->)]; [|by destruct (unleased_no_event HI k t e Ht E He)].
      pose proof (task_lease _ _ Hok) as Hl. rewrite E in Hl. destruct Hl as (_ & Henq & _ & _ & _ & H3).
      destruct (decide (status t = Leased)) as [Hs|Hs]; [by rewrite (Hlive t e Ht Hs He Hk) in Hp|].
      assert (Hterm : is_terminal (status t) = true) by (by destruct (status t)).
      pose proof (task_range _ _ Hok) as [Hrange _]. cbn in Hne |- *. case_decide as Hd.
      * apply (inv_override _ _ HI e st' t); [done|done|by rewrite Hk|done|]. congruence.
      * apply H3 in Hterm as [H3' _]. unfold u64_saturating_add, u64_max in *. lia.
  - intros j Hl. apply put_task_live; [right; by destruct st|done].
Qed.

(** *** A fresh event *)

(** An event the ledger numbers next, of the worker its task is leased to, that
    the replay does not ignore. *)
Record fresh (s : FleetLedgerState) (e : FleetWorkerEvent) (t : FleetTaskState) : Prop := {
  fresh_task : tasks s !! task_key_of_event e = Some t;
  fresh_lease : leased_to t = Some (ev_worker_id e);
  fresh_seq : seq e = latest_of s (key_of_event e) + 1;
  fresh_status : is_terminal (status t) = true -> regresses (payload e) = false }.

(** The state after an event that is newer and not ignored, field by field. *)
Definition after_event (s : FleetLedgerState) (e : FleetWorkerEvent) (s' : FleetLedgerState) : Prop :=
  let k := key_of_event e in
  runs s' = runs s /\ run_status_overrides s' = run_status_overrides s /\ heartbeats s' = heartbeats s /\ receipts s' = receipts s
  /\ alerts s' = alerts s /\ tasks s' = event_tasks e (tasks s) /\ latest_seq s' = <[k := seq e]> (latest_seq s)
  /\ sequence_owners s' = <[k := {| owner_run_id := ev_run_id e; owner_worker_id := ev_worker_id e; owner_task_id := ev_task_id e |}]> (sequence_owners s)
  /\ latest_events s' = <[k := e]> (latest_events s)
  /\ artifact_events s' = (match payload e with EvArtifact a => insert (artifact_event_key e a) e | _ => id end) (artifact_events s)
  /\ restarted_events s' = (match payload e with EvRestarted _ => insert k e | _ => id end) (restarted_events s)
  /\ escalated_events s' = (match payload e with EvEscalated _ _ => insert k e | _ => id end) (escalated_events s).

Lemma apply_event_after s e :
  newer s e = true -> task_is_terminal s (task_key_of_event e) && regresses (payload e) = false -> after_event s e (apply_event s e).
Proof.
  intros Hn Hi. unfold after_event. rewrite tasks_apply_event. unfold apply_event. rewrite Hi.
  change (newer (on_owners _ s) e) with (newer s e). rewrite Hn. unfold derive_status.
  destruct (payload e); cbn; by split_and!.
Qed.

Lemma after_event_retained s e s' x : after_event s e s' -> retained s' x -> retained s x \/ x = e.
Proof.
  intros (_ & _ & _ & _ & Eal & _ & _ & _ & El & Ea & Er & Ee) [k Hk|k Hk|k Hk|k Hk|k a Hk Hesc].
  - rewrite El in Hk. apply lookup_insert_Some in Hk as [[_ <-]|[_ Hk]]; [by right|left; by eapply retained_latest].
  - rewrite Ea in Hk. destruct (payload e); try (left; by eapply retained_artifact).
    apply lookup_insert_Some in Hk as [[_ <-]|[_ Hk]]; [by right|left; by eapply retained_artifact].
  - rewrite Er in Hk. destruct (payload e); try (left; by eapply retained_restarted).
    apply lookup_insert_Some in Hk as [[_ <-]|[_ Hk]]; [by right|left; by eapply retained_restarted].
  - rewrite Ee in Hk. destruct (payload e); try (left; by eapply retained_escalated).
    apply lookup_insert_Some in Hk as [[_ <-]|[_ Hk]]; [by right|left; by eapply retained_escalated].
  - rewrite Eal in Hk. left. by eapply retained_alert.
Qed.

(** The key of an event retained for the task of a fresh one. *)
Lemma fresh_same_key n s e t x :
  Inv n s -> fresh s e t -> retained s x -> task_key_of_event x = task_key_of_event e -> key_of_event x = key_of_event e.
Proof.
  intros HI Hf Hx Hk. destruct (retained_worker HI x Hx) as (_ & tx & Htx & Hwx). rewrite Hk, (fresh_task _ _ _ Hf) in Htx.
  injection Htx as <-. rewrite (fresh_lease _ _ _ Hf) in Hwx. injection Hwx as Hwx.
  pose proof (retained_named HI x Hx) as [Hr Ht].
  unfold task_key_of_event in Hk. symmetry in Hk. apply task_key_inj in Hk as [Hkr Hkt]; [|done|done].
  unfold key_of_event. congruence.
Qed.

(** No other retained event of the task of a fresh event is terminal. *)
Lemma after_event_quiet n s e t s' x :
  Inv n s -> fresh s e t -> after_event s e s' -> retained s' x -> task_key_of_event x = task_key_of_event e ->
  x = e \/ (retained s x /\ terminal_status (payload x) = None).
Proof.
  intros HI Hf Ha Hx Hk. destruct (after_event_retained _ _ _ _ Ha Hx) as [Hx'|]; [right; split; [done|]|by left].
  destruct (terminal_status (payload x)) eqn:E; [exfalso|done].
  assert (Hkey : key_of_event x = key_of_event e) by by eapply fresh_same_key.
  destruct Ha as (_ & _ & _ & _ & Eal & _ & _ & _ & El & Ea & Er & Ee).
  assert (Hlatest : latest_events s !! key_of_event e = Some x) by (rewrite <-Hkey; apply (retained_terminal HI); [done|by rewrite E]).
  destruct (inv_latest _ _ HI _ _ Hlatest) as (_ & Hls & _).
  assert (Hlt : seq x < seq e) by (rewrite (fresh_seq _ _ _ Hf); unfold latest_of; rewrite Hls; cbn; lia).
  assert (Hne : x <> e) by (intros ->; lia).
  destruct Hx as [k Hk'|k Hk'|k Hk'|k Hk'|k a Hk' (w & m & _ & _ & ->)].
  - rewrite El in Hk'. apply lookup_insert_Some in Hk' as [[_ <-]|[Hkne Hk']]; [done|].
    destruct (inv_latest _ _ HI _ _ Hk') as (-> & _). by rewrite Hkey in Hkne.
  - rewrite Ea in Hk'. assert (Hold : artifact_events s !! k = Some x).
    { destruct (payload e); try exact Hk'. by apply lookup_insert_Some in Hk' as [[_ <-]|[_ Hk']]. }
    destruct (inv_artifact _ _ HI _ _ Hold) as (a & Hp & _). by rewrite Hp in E.
  - rewrite Er in Hk'. assert (Hold : restarted_events s !! k = Some x).
    { destruct (payload e); try exact Hk'. by apply lookup_insert_Some in Hk' as [[_ <-]|[_ Hk']]. }
    destruct (inv_restarted _ _ HI _ _ Hold) as ((a & Hp) & _). by rewrite Hp in E.
  - rewrite Ee in Hk'. assert (Hold : escalated_events s !! k = Some x).
    { destruct (payload e); try exact Hk'. by apply lookup_insert_Some in Hk' as [[_ <-]|[_ Hk']]. }
    destruct (inv_escalated _ _ HI _ _ Hold) as ((a & i & Hp) & _). by rewrite Hp in E.
  - done.
Qed.

Lemma fresh_named n s e t : Inv n s -> fresh s e t -> worker_ok (ev_worker_id e) /\ no_colon (ev_run_id e) /\ no_colon (ev_task_id e).
Proof.
  intros HI Hf. pose proof (inv_task _ _ HI _ _ (fresh_task _ _ _ Hf)) as [Hk [Hr Ht] _ _ Hl]. rewrite (fresh_lease _ _ _ Hf) in Hl.
  unfold task_key_of_event in Hk. apply task_key_inj in Hk as [-> ->]; [|done|done]. split; [apply Hl|done].
Qed.

(** The names of an event before a suffix. *)
Lemma key_suffix_inj e x e' x' :
  no_colon (ev_worker_id e) -> no_colon (ev_run_id e) -> no_colon (ev_task_id e) ->
  no_colon (ev_worker_id e') -> no_colon (ev_run_id e') -> no_colon (ev_task_id e') ->
  key_of_event e ++ colon :: x = key_of_event e' ++ colon :: x' -> key_of_event e = key_of_event e' /\ x = x'.
Proof.
  intros Hw Hr Ht Hw' Hr' Ht'. unfold key_of_event, event_key. rewrite <-!app_assoc. cbn. rewrite <-!app_assoc. cbn.
  intros E. apply sep_inj in E as [-> E]; [|done|done]. apply sep_inj in E as [-> E]; [|done|done].
  by apply sep_inj in E as [-> ->].
Qed.

Lemma fresh_newer n s e t : Inv n s -> fresh s e t -> newer s e = true /\ 0 <= latest_of s (key_of_event e) <= Z.max 0 n.
Proof.
  intros HI Hf. unfold newer. rewrite (fresh_seq _ _ _ Hf). unfold latest_of. pose proof (inv_owner _ _ HI (key_of_event e)) as Ho.
  destruct (latest_seq s !! _) as [m|]; cbn; [|split; [done|lia]]. destruct (sequence_owners s !! _); [|done]. split; [apply Z.ltb_lt; lia|lia].
Qed.

(** What a fresh event does to the task it belongs to. *)
Lemma fresh_event_tasks n s e t :
  Inv n s -> fresh s e t ->
  exists t', event_tasks e (tasks s) = <[task_key_of_event e := t']> (tasks s) /\ leased_to t' = leased_to t /\ task_ok (task_key_of_event e) t'
    /\ (terminal_status (payload e) = None -> t' = t)
    /\ (forall st, terminal_status (payload e) = Some st -> status t' = st /\ is_terminal st = true).
Proof.
  intros HI Hf. pose proof (fresh_task _ _ _ Hf) as Ht. pose proof (inv_task _ _ HI _ _ Ht) as Hok. unfold event_tasks.
  destruct (terminal_status (payload e)) as [st|] eqn:Est.
  - assert (Hst : is_terminal st = true) by (by destruct (payload e); try done; injection Est as <-).
    exists (mark_terminal (ev_worker_id e) (ev_timestamp e) st t). split_and!.
    + pose proof (alter_put (mark_terminal (ev_worker_id e) (ev_timestamp e) st) _ s t Ht) as E. by apply (f_equal tasks) in E.
    + cbn. rewrite (fresh_lease _ _ _ Hf). by destruct (ev_worker_id e).
    + apply mark_task_ok; [done|done|]. left. apply Hf.
    + done.
    + intros st' [= <-]. done.
  - exists t. split_and!; try done. by rewrite insert_id.
Qed.

Section event_step.
Context {n : Z} {s : FleetLedgerState} {e : FleetWorkerEvent} {t : FleetTaskState} (HI : Inv n s) (Hf : fresh s e t) (Hn : 0 <= n).

Lemma event_step_after : after_event s e (apply_event s e).
Proof.
  apply apply_event_after; [apply (fresh_newer n s e t HI Hf)|]. unfold task_is_terminal. rewrite (fresh_task _ _ _ Hf).
  destruct (is_terminal (status t)) eqn:E; [|done]. by rewrite (fresh_status _ _ _ Hf E).
Qed.

Lemma event_step_kept : kept_ok (apply_event s e) e.
Proof.
  destruct event_step_after as (_ & _ & _ & _ & _ & _ & _ & _ & _ & Ea & Er & Ee). unfold kept_ok.
  destruct (payload e); try done; [rewrite Ea|rewrite Er|rewrite Ee]; apply lookup_insert_eq.
Qed.

Lemma event_step_kept_other x : retained s x -> key_of_event x <> key_of_event e -> kept_ok s x -> kept_ok (apply_event s e) x.
Proof.
  intros Hx Hne. destruct event_step_after as (_ & _ & _ & _ & _ & _ & _ & _ & _ & Ea & Er & Ee). unfold kept_ok.
  destruct (fresh_named _ _ _ _ HI Hf) as ([Hw _] & Hr & Ht). destruct (retained_worker HI x Hx) as [[Hw' _] _].
  destruct (retained_named HI x Hx) as [Hr' Ht'].
  destruct (payload x); try done; [rewrite Ea|rewrite Er|rewrite Ee]; destruct (payload e); try done; intros H; rewrite lookup_insert_ne; try done.
  intros Hk. apply Hne. symmetry. by destruct (key_suffix_inj e (artifact_path artifact0) x (artifact_path artifact)).
Qed.

Lemma event_step_seq x : retained s x -> key_of_event x = key_of_event e -> seq x < seq e.
Proof.
  intros Hx Hk. destruct (inv_event _ _ HI x Hx) as (_ & m & _ & _ & Hm & Hle). rewrite (fresh_seq _ _ _ Hf).
  unfold latest_of. rewrite <-Hk, Hm. cbn. lia.
Qed.

Lemma event_step_quiet x :
  retained (apply_event s e) x -> task_key_of_event x = task_key_of_event e -> x = e \/ (retained s x /\ terminal_status (payload x) = None).
Proof. intros Hx. by apply (after_event_quiet n s e t (apply_event s e)); [| |apply event_step_after|]. Qed.

Lemma event_step_retained x : retained (apply_event s e) x -> retained s x \/ x = e.
Proof. apply (after_event_retained s e), event_step_after. Qed.

(** The tasks after the event. *)
Lemma event_step_tasks :
  exists t', tasks (apply_event s e) = <[task_key_of_event e := t']> (tasks s) /\ leased_to t' = leased_to t
    /\ task_ok (task_key_of_event e) t' /\ (terminal_status (payload e) = None -> t' = t)
    /\ (forall st, terminal_status (payload e) = Some st -> status t' = st /\ is_terminal st = true).
Proof. rewrite tasks_apply_event. by eapply fresh_event_tasks. Qed.

Lemma event_step_one k k' u u' w :
  tasks (apply_event s e) !! k = Some u -> tasks (apply_event s e) !! k' = Some u' -> leased_by w u = true -> leased_by w u' = true -> k = k'.
Proof.
  destruct event_step_tasks as (t' & -> & Hl & _ & Hsame & Hterm).
  assert (Hback : leased_by w t' = true -> leased_by w t = true).
  { destruct (terminal_status (payload e)) as [st|]; [|by rewrite Hsame]. destruct (Hterm st eq_refl) as [Hs Hst].
    unfold leased_by, is_leased. rewrite bool_decide_false; [done|]. rewrite Hs. by intros ->. }
  pose proof (fresh_task _ _ _ Hf) as Ht.
  rewrite !lookup_insert_Some. intros [[<- <-]|[_ Hk]] [[<- <-]|[_ Hk']] H H'; try done.
  - by apply (inv_one _ _ HI _ _ t u' w); [| |apply Hback|].
  - by apply (inv_one _ _ HI _ _ u t w); [| | |apply Hback].
  - by eapply (inv_one _ _ HI).
Qed.

Lemma event_step_event x : retained (apply_event s e) x ->
  exists u m, tasks (apply_event s e) !! task_key_of_event x = Some u /\ leased_to u = Some (ev_worker_id x)
              /\ latest_seq (apply_event s e) !! key_of_event x = Some m /\ 0 <= seq x <= m.
Proof.
  destruct event_step_tasks as (t' & -> & Hl & _). destruct event_step_after as (_ & _ & _ & _ & _ & _ & -> & _).
  intros [Hx| ->]%event_step_retained.
  - destruct (inv_event _ _ HI x Hx) as (u & m & Hu & Hw & Hm & Hle).
    assert (Hseq : exists m', <[key_of_event e := seq e]> (latest_seq s) !! key_of_event x = Some m' /\ 0 <= seq x <= m').
    { destruct (decide (key_of_event e = key_of_event x)) as [E|E]; [|exists m; by rewrite lookup_insert_ne].
      exists (seq e). rewrite E, lookup_insert_eq. split; [done|]. pose proof (event_step_seq x Hx (eq_sym E)). lia. }
    destruct Hseq as (m' & Hm' & Hle'). destruct (decide (task_key_of_event e = task_key_of_event x)) as [E|E].
    + exists t', m'. rewrite E, lookup_insert_eq, Hl. split; [done|]. split; [|done].
      rewrite <-E, (fresh_task _ _ _ Hf) in Hu. by injection Hu as ->.
    + exists u, m'. by rewrite lookup_insert_ne.
  - exists t', (seq e). rewrite !lookup_insert_eq, Hl. split_and!; [done|apply Hf|done| |lia].
    rewrite (fresh_seq _ _ _ Hf). destruct (fresh_newer n s e t HI Hf). lia.
Qed.

Lemma event_step_latest k x : latest_events (apply_event s e) !! k = Some x ->
  k = key_of_event x /\ latest_seq (apply_event s e) !! k = Some (seq x) /\ kept_ok (apply_event s e) x.
Proof.
  pose proof event_step_kept as Hke. destruct event_step_after as (_ & _ & _ & _ & _ & _ & El & _ & Ele & _). rewrite Ele, El.
  intros [[<- <-]|[Hne Hk]]%lookup_insert_Some; [by rewrite lookup_insert_eq|].
  destruct (inv_latest _ _ HI k x Hk) as (-> & Hs & Hko). rewrite lookup_insert_ne by done. split_and!; try done.
  apply event_step_kept_other; [by eapply retained_latest|done|done].
Qed.

Lemma event_step_alert k a : alerts (apply_event s e) !! k = Some a ->
  k = alert_key (alert_run_id a) (alert_task_id a) (alert_attempt a) (alert_channel a)
  /\ is_Some (alert_attempt a)
  /\ exists x, escalation_of a x /\ is_Some (escalated_events (apply_event s e) !! key_of_event x).
Proof.
  destruct event_step_after as (_ & _ & _ & _ & -> & _ & _ & _ & _ & _ & _ & ->). intros Hk.
  destruct (inv_alert _ _ HI k a Hk) as (-> & Hat & x & Hx & Hs). split_and!; [done|done|]. exists x. split; [done|].
  destruct (payload e); try done. destruct (decide (key_of_event e = key_of_event x)) as [->|Hne].
  - rewrite lookup_insert_eq. by eexists.
  - by rewrite lookup_insert_ne.
Qed.

Lemma event_step_override x st u :
  retained (apply_event s e) x -> terminal_status (payload x) = Some st -> tasks (apply_event s e) !! task_key_of_event x = Some u ->
  is_terminal (status u) = true -> status u <> st -> 4 <= lifecycle_seq u.
Proof.
  intros Hx Hst Hu Hterm Hne. destruct event_step_tasks as (t' & Et & _ & _ & _ & Hends). rewrite Et in Hu.
  apply lookup_insert_Some in Hu as [[Hk <-]|[Hk Hu]].
  - destruct (event_step_quiet x Hx (eq_sym Hk)) as [->|[_ Hq]]; [|congruence]. by destruct (Hends st Hst).
  - destruct (event_step_retained x Hx) as [Hx'| ->]; [|done]. by eapply (inv_override _ _ HI).
Qed.

Lemma event_step_inv : Inv (n + 1) (apply_event s e).
Proof.
  destruct event_step_tasks as (t' & Et & _ & Hok & _). destruct (fresh_newer n s e t HI Hf) as [_ Hlo].
  pose proof event_step_after as (Eru & _ & _ & Erc & _ & _ & El & Eo & Ele & Ear & Ers & Ees). split.
  - rewrite Eru. apply HI.
  - intros k u. rewrite Et. intros [[<- <-]|[_ Hk]]%lookup_insert_Some; [done|by apply HI].
  - apply event_step_one.
  - intros k. rewrite El, Eo. destruct (decide (key_of_event e = k)) as [<-|Hne].
    + rewrite !lookup_insert_eq. cbn. split; [done|]. rewrite (fresh_seq _ _ _ Hf). lia.
    + rewrite !lookup_insert_ne by done. pose proof (inv_owner _ _ HI k) as Ho.
      destruct (latest_seq s !! k), (sequence_owners s !! k); try done. destruct Ho. split; [done|lia].
  - apply event_step_event.
  - apply event_step_latest.
  - intros k m. rewrite El, Ele. destruct (decide (key_of_event e = k)) as [<-|Hne].
    + intros _. rewrite lookup_insert_eq. by eexists.
    + rewrite !lookup_insert_ne by done. apply HI.
  - intros k x. rewrite Ear. destruct (payload e) eqn:Ep; try apply HI.
    intros [[<- <-]|[_ Hk]]%lookup_insert_Some; [by eexists|by apply HI].
  - intros k x. rewrite Ers. destruct (payload e) eqn:Ep; try apply HI.
    intros [[<- <-]|[_ Hk]]%lookup_insert_Some; [by split; [eexists|]|by apply HI].
  - intros k x. rewrite Ees. destruct (payload e) eqn:Ep; try apply HI.
    intros [[<- <-]|[_ Hk]]%lookup_insert_Some; [by split; [do 2 eexists|]|by apply HI].
  - apply event_step_alert.
  - intros x x' [Hx| ->]%event_step_retained [Hx'| ->]%event_step_retained Hk Hs; [by apply (inv_unique _ _ HI)| | |done].
    + pose proof (event_step_seq x Hx Hk). lia.
    + pose proof (event_step_seq x' Hx' (eq_sym Hk)). lia.
  - apply event_step_override.
  - rewrite Erc. apply HI.
Qed.

Lemma event_step_live k : (k = task_key_of_event e \/ live s k) -> live (apply_event s e) k.
Proof.
  intros Hk u x Hu Hs Hx Hxk. destruct event_step_tasks as (t' & Et & _ & _ & Hsame & Hends). rewrite Et in Hu.
  destruct (decide (task_key_of_event e = k)) as [Ek|Ek].
  - subst k. rewrite Ek, lookup_insert_eq in Hu. injection Hu as <-. destruct (event_step_quiet x Hx (eq_sym Ek)) as [->|[_ Hq]]; [|done].
    destruct (terminal_status (payload e)) as [st|] eqn:E; [|done]. destruct (Hends st eq_refl) as [Hst Hterm]. by rewrite <-Hst, Hs in Hterm.
  - rewrite lookup_insert_ne in Hu by done. destruct Hk as [->|Hl]; [done|].
    destruct (event_step_retained x Hx) as [Hx'| ->]; [by eapply Hl|done].
Qed.
End event_step.
