(* ===== verification/FleetLedgerSpec.v ===== *)
(** * Properties of the fleet ledger

    The operations the managers perform on a shared ledger keep its invariant,
    whatever their interleaving. *)

From S2P Require Import Text Json FleetProtocol FleetLedger FleetLedgerFacts FleetLedgerInv.

(** ** The operations of the managers

    Every public operation other than the raw appends: a task's names and a
    worker's name passed the validation of a task document, and a verdict is
    terminal. *)

Inductive guarded : forall {A}, Op A -> Prop :=
  | g_create r : guarded (create_run r)
  | g_status r st ts : guarded (update_run_status r st ts)
  | g_enqueue e : no_colon (entry_run_id e) -> no_colon (entry_task_id e) -> 0 <= attempts e <= u32_max -> guarded (enqueue e)
  | g_heartbeat w ts c m : guarded (heartbeat w ts c m)
  | g_receipt r : guarded (record_receipt r)
  | g_lease r t w at_ ex mx : worker_ok w -> guarded (lease_task_if_enqueued r t w at_ ex mx)
  | g_start r t w at_ ex mx ps cb :
      worker_ok w -> Forall (fun p => terminal_status p = None) ps -> guarded (start_task_if_enqueued r t w at_ ex mx ps cb)
  | g_claim w ts : worker_ok w -> guarded (claim_next w ts)
  | g_mark r t w st a n ts st' : is_terminal st' = true -> guarded (mark_task_terminal_status_if_unchanged r t w st a n ts st')
  | g_progress r w t a ts p : guarded (append_event_if_leased r w t a ts p)
  | g_observe r w t a n hb ts p : guarded (append_event_if_lease_unchanged r w t a n hb ts p)
  | g_end r w t a ts p : guarded (append_terminal_event_if_leased r w t a ts p)
  | g_expire r w t a n hb ts p : guarded (append_terminal_event_if_lease_unchanged r w t a n hb ts p)
  | g_finalize r w t a ts p st rc : guarded (finalize_task_attempt_if_leased r w t a ts p st rc)
  | g_restart r t w st a n hb at_ ex c cb : guarded (restart_task_if_unchanged_with_callback r t w st a n hb at_ ex c cb)
  | g_cancel r t w ts sg by_ : guarded (cancel_task_if_active r t w ts sg by_)
  | g_alert r t w a l c ts : guarded (record_failed_attempt_alert_once r t w a l c ts).

(** The ledgers any sequence of such operations leaves. *)
Inductive Reachable : list FleetLedgerRecord -> Prop :=
  | reach_empty : Reachable []
  | reach_step {A} (op : Op A) l : Reachable l -> guarded op -> Reachable (transact op l).2.

Record Good (n : Z) (s : FleetLedgerState) : Prop := {
  good_inv : Inv n s;
  good_live k : live s k;
  good_nonneg : 0 <= n }.

Lemma good_empty : Good 0 empty_state.
Proof. split; [apply empty_inv|apply empty_live|done]. Qed.

Lemma good_weaken n n' s : n <= n' -> Good n s -> Good n' s.
Proof. intros Hn [HI Hl H0]. split; [by eapply inv_weaken|done|lia]. Qed.

Lemma good_same_core n s s' :
  same_core s s' -> (forall k r, runs s' !! k = Some r -> k = run_id r) ->
  (forall k r, receipts s' !! k = Some r -> k = task_key (receipt_run_id r) (receipt_task_id r)) -> Good n s -> Good n s'.
Proof. intros Hc Hr Hrc [HI Hl H0]. split; [by eapply same_core_inv|intros k; by eapply same_core_live|done]. Qed.

Lemma good_event n s e t : Good n s -> fresh s e t -> Good (n + 1) (apply_event s e).
Proof.
  intros [HI Hl H0] Hf. split; [by eapply event_step_inv| |lia]. intros k. eapply event_step_live; [done|done|]. by right.
Qed.

Lemma good_mark n s k t w ts st :
  Good n s -> tasks s !! k = Some t -> is_terminal st = true ->
  (leased_to t = Some w \/ (w = [] /\ leased_to t = None /\ st = Cancelled)) ->
  Good n (on_tasks (alter (mark_terminal w ts st) k) s).
Proof.
  intros [HI Hl H0] Ht Hst Hw. destruct (mark_inv n s k t w ts st HI Ht Hst (Hl k) Hw) as [HI' Hl']. split; [done|auto|done].
Qed.

Lemma good_heartbeat n s w hb : Good n s -> Good n (apply_heartbeat s w hb).
Proof.
  intros HG. apply (good_same_core n s); [| | |done]; unfold apply_heartbeat; case_decide; try (by split_and!); apply HG.
Qed.

Lemma good_receipt n s r : Good n s -> Good n (on_receipts (insert (task_key (receipt_run_id r) (receipt_task_id r)) r) s).
Proof.
  intros HG. apply (good_same_core n s); [by split_and!|apply HG| |done]. intros k r'. cbn.
  intros [[<- <-]|[_ Hk]]%lookup_insert_Some; [done|]. by apply HG.
Qed.

(** ** Reading a held lease *)

Lemma holds_spec t st w a : holds t st w a = true <-> status t = st /\ leased_to t = Some w /\ attempts (entry t) = a.
Proof. unfold holds. rewrite !andb_true_iff, !bool_decide_eq_true, Z.eqb_eq. tauto. Qed.

Lemma latest_bound n s k : Good n s -> 0 <= latest_of s k <= n.
Proof.
  intros [HI _ H0]. unfold latest_of. pose proof (inv_owner _ _ HI k) as Ho.
  destruct (latest_seq s !! k) as [m|]; cbn; [|lia]. destruct (sequence_owners s !! k); [lia|done].
Qed.

(** The next event of a live lease is fresh. *)
Lemma next_fresh n s r w tk ts p t :
  Good n s -> n + 1 <= u64_max -> tasks s !! task_key r tk = Some t -> leased_to t = Some w ->
  (is_terminal (status t) = true -> regresses p = false) -> fresh s (next_worker_event s r w tk ts p) t.
Proof.
  intros HG Hn Ht Hw Hr. pose proof (latest_bound n s (event_key w r tk) HG) as Hb. split; try done.
  cbn. rewrite u64_add_small by lia. done.
Qed.

Lemma good_append n s guard r w tk ts p a rs :
  Good n s -> n + zlen rs <= u64_max ->
  (forall t, tasks s !! task_key r tk = Some t -> guard s t = true -> leased_to t = Some w /\ status t = Leased) ->
  append_event_when guard r w tk ts p s = Ok (a, rs) -> Good (n + zlen rs) (replay s rs).
Proof.
  intros HG Hn Hguard. unfold append_event_when. destruct (tasks s !! _) as [t|] eqn:Ht; [|intros [= <- <-]; by rewrite Z.add_0_r].
  destruct (guard s t) eqn:Eg; intros [= <- <-]; [|by rewrite Z.add_0_r]. destruct (Hguard t eq_refl Eg) as [Hw Hs].
  eapply good_event; [done|]. apply (next_fresh n); [done|exact Hn|done|done|by rewrite Hs].
Qed.

(** *** The records of a lease *)

Lemma zlen_cons {A} (x : A) l : zlen (x :: l) = zlen l + 1.
Proof. unfold zlen. cbn [length]. lia. Qed.

Lemma zlen_app {A} (l k : list A) : zlen (l ++ k) = zlen l + zlen k.
Proof. unfold zlen. rewrite length_app. lia. Qed.

(** The worker [w] holds the live lease of the task [r], [tk]. *)
Definition at_work (s : FleetLedgerState) (r : FleetRunId) (tk w : str) : Prop :=
  exists t, tasks s !! task_key r tk = Some t /\ leased_to t = Some w /\ status t = Leased.

Lemma worker_event_fresh s m r w tk ts p t :
  tasks s !! task_key r tk = Some t -> leased_to t = Some w -> (is_terminal (status t) = true -> regresses p = false) ->
  m = latest_of s (event_key w r tk) + 1 -> fresh s (worker_event m r w tk ts p) t.
Proof. intros Ht Hw Hr ->. by split. Qed.

Lemma worker_event_tasks m r w tk ts p s : terminal_status p = None -> tasks (apply_event s (worker_event m r w tk ts p)) = tasks s.
Proof. intros Hp. rewrite tasks_apply_event. unfold event_tasks. cbn. by rewrite Hp. Qed.

Lemma worker_event_latest n m r w tk ts p s t :
  Inv n s -> fresh s (worker_event m r w tk ts p) t -> latest_of (apply_event s (worker_event m r w tk ts p)) (event_key w r tk) = m.
Proof.
  intros HI Hf. destruct (event_step_after HI Hf) as (_ & _ & _ & _ & _ & _ & El & _). unfold latest_of. rewrite El.
  change (key_of_event _) with (event_key w r tk). by rewrite lookup_insert_eq.
Qed.

Lemma good_initial_events ps n s r w tk at_ m :
  Good n s -> n + zlen ps + 1 <= u64_max -> at_work s r tk w -> Forall (fun p => terminal_status p = None) ps ->
  m = latest_of s (event_key w r tk) + 1 ->
  Good (n + zlen ps) (replay s (initial_event_records m r w tk at_ ps)).
Proof.
  intros HG Hn Hw Hps. revert n s m HG Hn Hw. induction Hps as [|p ps Hp Hps IH]; intros n s m HG Hn (t & Ht & Hl & Hs) ->.
  { cbn. change (zlen []) with 0. by rewrite Z.add_0_r. }
  rewrite zlen_cons in *. pose proof (zlen_nonneg ps) as H0. set (m := latest_of s (event_key w r tk) + 1).
  assert (Hf : fresh s (worker_event m r w tk at_ p) t) by (apply worker_event_fresh; [done|done|by rewrite Hs|done]).
  cbn [initial_event_records]. rewrite replay_cons. cbn [apply_record].
  replace (n + (zlen ps + 1)) with (n + 1 + zlen ps) by lia. apply IH.
  - by eapply good_event.
  - lia.
  - exists t. by rewrite worker_event_tasks.
  - rewrite (worker_event_latest n m r w tk at_ p s t (good_inv _ _ HG) Hf).
    pose proof (latest_bound n s (event_key w r tk) HG). unfold u64_saturating_add. lia.
Qed.

Lemma idle_others s k w : worker_is_busy s w = false ->
  forall k' t', k' <> k -> tasks s !! k' = Some t' -> leased_by w t' = false.
Proof.
  intros Hb k' t' _ Ht'. destruct (leased_by w t') eqn:E; [|done]. exfalso.
  assert (worker_is_busy s w = true) by (apply busy_spec; eauto). congruence.
Qed.

Lemma good_lease n s r tk t w at_ ex :
  Good n s -> tasks s !! task_key r tk = Some t -> worker_ok w -> status t = Enqueued -> worker_is_busy s w = false ->
  Good n (apply_record s (TaskLeased r tk w at_ ex)) /\ at_work (apply_record s (TaskLeased r tk w at_ ex)) r tk w.
Proof.
  intros [HI Hl H0] Ht Hw Hs Hb. cbn.
  destruct (lease_inv n s _ t w at_ ex HI Ht Hw (or_intror Hs) (idle_others s _ w Hb)) as [HI' Hl']. split.
  - split; [done| |done]. intros j. apply Hl'; [by right|done].
  - exists (lease w at_ ex t). cbn. by rewrite lookup_alter_eq, Ht.
Qed.

Lemma good_lease_op n s r tk w at_ ex mx ps b cb a rs :
  Good n s -> n + zlen rs <= u64_max -> worker_ok w -> Forall (fun p => terminal_status p = None) ps ->
  lease_task_if_enqueued_with_events r tk w at_ ex mx ps b cb s = Ok (a, rs) -> Good (n + zlen rs) (replay s rs).
Proof.
  intros HG Hn Hw Hps. unfold lease_task_if_enqueued_with_events.
  destruct (tasks s !! _) as [t|] eqn:Ht; [|intros [= <- <-]; by rewrite Z.add_0_r].
  destruct (bool_decide _) eqn:Es; [intros [= <- <-]; by rewrite Z.add_0_r|]. apply bool_decide_eq_false, dec_stable in Es.
  destruct (worker_is_busy s w) eqn:Eb; [intros [= <- <-]; by rewrite Z.add_0_r|].
  destruct (run_is_full s r mx); [intros [= <- <-]; by rewrite Z.add_0_r|].
  destruct cb as [u|]; [|done]. intros [= <- <-].
  destruct (good_lease n s r tk t w at_ ex HG Ht Hw Es Eb) as [HG1 Hw1]. rewrite zlen_cons, zlen_app in *.
  assert (Hlen : forall m, zlen (initial_event_records m r w tk at_ ps) = zlen ps).
  { clear. induction ps as [|p ps IH]; intros m; [done|]. cbn [initial_event_records]. by rewrite !zlen_cons, IH. }
  rewrite Hlen in *. pose proof (zlen_nonneg (if b then [Heartbeat w at_ None None] else [])) as Hb0.
  pose proof (latest_bound n s (event_key w r tk) HG) as Hlo. pose proof (zlen_nonneg ps) as Hps0.
  rewrite replay_cons, replay_app. apply (good_weaken (n + zlen ps)); [lia|].
  assert (HG2 : Good (n + zlen ps) (replay (apply_record s (TaskLeased r tk w at_ ex))
                   (initial_event_records (u64_add (latest_of s (event_key w r tk)) 1) r w tk at_ ps))).
  { apply good_initial_events; [done|lia|done|done|]. rewrite u64_add_small by lia. done. }
  destruct b; [|done]. by apply good_heartbeat.
Qed.

Lemma good_claim n s w ts a rs :
  Good n s -> worker_ok w -> claim_next w ts s = Ok (a, rs) -> Good (n + zlen rs) (replay s rs).
Proof.
  intros HG Hw. unfold claim_next. destruct (worker_is_busy s w) eqn:Eb; [intros [= <- <-]; by rewrite Z.add_0_r|].
  destruct (min_by _ _) as [e|] eqn:Em; [|intros [= <- <-]; by rewrite Z.add_0_r]. intros [= <- <-].
  apply min_by_elem in Em as Hin. apply list_elem_of_fmap in Hin as (t & -> & Hin).
  apply elem_of_retain in Hin as [Hs Hin]. apply bool_decide_eq_true in Hs. apply elem_of_btree_values in Hin as [k Hk].
  pose proof (task_keyed _ _ (inv_task _ _ (good_inv _ _ HG) _ _ Hk)) as ->.
  apply (good_weaken n); [unfold zlen; cbn; lia|]. by apply (good_lease n s _ _ t).
Qed.

(** *** The records of a restart, a cancellation, an end and an alert *)

Lemma unchanged_spec s k w n hb : unchanged s k w n hb = true <-> latest_of s k = n /\ heartbeat_at s w = hb.
Proof. unfold unchanged. by rewrite andb_true_iff, Z.eqb_eq, bool_decide_eq_true. Qed.

Lemma leased_elsewhere_false s k w : leased_elsewhere s k w = false ->
  forall k' t', k' <> k -> tasks s !! k' = Some t' -> leased_by w t' = false.
Proof.
  intros H k' t' Hne Ht'. unfold leased_elsewhere in H. destruct (leased_by w t') eqn:E; [|done]. exfalso.
  assert (existsb (fun p => bool_decide (p.1 <> k) && leased_by w p.2) (btree_entries (tasks s)) = true); [|congruence].
  apply existsb_exists. exists (k', t'). split; [apply list_elem_of_In, elem_of_btree_entries, Ht'|]. cbn. by rewrite E, bool_decide_true.
Qed.

Lemma good_restart n s r tk w st a lq hb at_ ex c cb x rs :
  Good n s -> n + zlen rs <= u64_max ->
  restart_task_if_unchanged_with_callback r tk w st a lq hb at_ ex c cb s = Ok (x, rs) -> Good (n + zlen rs) (replay s rs).
Proof.
  intros HG Hn. unfold restart_task_if_unchanged_with_callback.
  destruct (tasks s !! _) as [t|] eqn:Ht; [|intros [= <- <-]; by rewrite Z.add_0_r].
  destruct (negb _) eqn:Eh; [intros [= <- <-]; by rewrite Z.add_0_r|].
  destruct (leased_elsewhere _ _ _) eqn:Eo; [intros [= <- <-]; by rewrite Z.add_0_r|].
  destruct cb as [u|]; [|done]. intros [= <- <-]. apply negb_false_iff, andb_true_iff in Eh as [Hh _].
  apply holds_spec in Hh as (_ & Hl & _). pose proof HG as [HI Hlive H0].
  pose proof (task_lease _ _ (inv_task _ _ HI _ _ Ht)) as Hok. rewrite Hl in Hok. destruct Hok as [Hw _].
  destruct (lease_inv n s _ t w at_ ex HI Ht Hw (or_introl Hl) (leased_elsewhere_false _ _ _ Eo)) as [HI1 Hlive1].
  pose proof (latest_bound n s (event_key w r tk) HG) as Hlo. change (zlen _) with 4 in *.
  set (s1 := apply_record s (TaskLeased r tk w at_ ex)). set (m := latest_of s (event_key w r tk)) in *.
  assert (Hw1 : tasks s1 !! task_key r tk = Some (lease w at_ ex t)) by (cbn; by rewrite lookup_alter_eq, Ht).
  assert (Hf1 : fresh s1 (worker_event (u64_saturating_add m 1) r w tk at_ (EvRestarted c)) (lease w at_ ex t)).
  { apply worker_event_fresh; try done. change (latest_of s1 _) with m. unfold u64_saturating_add. lia. }
  set (s2 := apply_event s1 (worker_event (u64_saturating_add m 1) r w tk at_ (EvRestarted c))).
  assert (HG2 : Good (n + 1) s2).
  { split; [by eapply event_step_inv| |lia]. intros k. eapply event_step_live; [done|done|].
    destruct (decide (k = task_key r tk)) as [->|Hne]; [by left|right; apply Hlive1; [by left|done]]. }
  assert (Hf2 : fresh s2 (worker_event (u64_saturating_add (u64_saturating_add m 1) 1) r w tk at_ EvRunning) (lease w at_ ex t)).
  { apply worker_event_fresh; [by unfold s2; rewrite worker_event_tasks|done|done|].
    unfold s2. rewrite (worker_event_latest n _ r w tk at_ _ s1 _ HI1 Hf1). unfold u64_saturating_add. lia. }
  apply (good_weaken (n + 1 + 1)); [lia|]. cbn [replay foldl]. apply good_heartbeat. by apply (good_event _ _ _ (lease w at_ ex t)).
Qed.

(** The cancellation of a task, after its interruption. *)
Lemma good_cancel n s r tk ew ts sg by_ x rs :
  Good n s -> n + zlen rs <= u64_max -> cancel_task_if_active r tk ew ts sg by_ s = Ok (x, rs) -> Good (n + zlen rs) (replay s rs).
Proof.
  intros HG Hn. unfold cancel_task_if_active.
  destruct (tasks s !! _) as [t|] eqn:Ht; [|intros [= <- <-]; by rewrite Z.add_0_r].
  destruct (is_terminal (status t)) eqn:Es; [intros [= <- <-]; by rewrite Z.add_0_r|].
  destruct (match ew with Some w => _ | None => _ end); [intros [= <- <-]; by rewrite Z.add_0_r|].
  pose proof (inv_task _ _ (good_inv _ _ HG) _ _ Ht) as Hok. pose proof (task_lease _ _ Hok) as Hl.
  destruct (leased_to t) as [w|] eqn:El.
  - assert (Hs : status t = Leased) by (destruct Hl as (_ & Hne & _); by destruct (status t)).
    intros [= <- <-]. pose proof (latest_bound n s (event_key w r tk) HG) as Hlo.
    set (m := u64_add (latest_of s (event_key w r tk)) 1).
    assert (Hm : n + 1 <= u64_max -> m = latest_of s (event_key w r tk) + 1) by (intros; unfold m; rewrite u64_add_small by lia; done).
    destruct sg as [sg|]; unfold zlen in *; cbn [length] in *.
    + assert (Hf1 : fresh s (worker_event m r w tk ts (EvInterrupted (Some sg))) t).
      { apply worker_event_fresh; [done|done|by rewrite Es|apply Hm; lia]. }
      change (replay s _) with (apply_event (apply_event s (worker_event m r w tk ts (EvInterrupted (Some sg))))
                                  (worker_event (u64_add m 1) r w tk ts (EvCancelled by_))).
      apply (good_weaken (n + 1 + 1)); [lia|]. apply (good_event _ _ _ t); [by eapply good_event|].
      apply worker_event_fresh; [by rewrite worker_event_tasks|done|done|].
      rewrite (worker_event_latest n m r w tk ts _ s t (good_inv _ _ HG) Hf1). rewrite u64_add_small; lia.
    + apply (good_event n s _ t); [done|]. apply worker_event_fresh; [done|done|done|apply Hm; lia].
  - intros [= <- <-]. apply (good_weaken n); [unfold zlen; lia|]. apply (good_mark n s _ t); [done|done|done|]. right. done.
Qed.

Lemma good_finalize n s r w tk a ts p st rc x rs :
  Good n s -> n + zlen rs <= u64_max ->
  finalize_task_attempt_if_leased r w tk a ts p st rc s = Ok (x, rs) -> Good (n + zlen rs) (replay s rs).
Proof.
  intros HG Hn. unfold finalize_task_attempt_if_leased. rewrite !seq_Ok, !reject_if_Ok. intros (_ & Hst & _ & _ & H). revert H.
  destruct (tasks s !! _) as [t|] eqn:Ht; [|intros [= <- <-]; by rewrite Z.add_0_r].
  destruct (holds t Leased w a) eqn:Eh; [|intros [= <- <-]; by rewrite Z.add_0_r]. intros [= <- <-].
  apply holds_spec in Eh as (Hs & Hl & _). change (zlen _) with 1 in *.
  assert (Hf : fresh s (next_worker_event s r w tk ts p) t) by (apply (next_fresh n); [done|done|done|done|by rewrite Hs]).
  cbn [replay foldl apply_record]. apply good_receipt. destruct st as [st|]; [|by eapply good_event].
  destruct (event_step_tasks (good_inv _ _ HG) Hf) as (t' & Et & Hlt & _).
  apply (good_mark (n + 1) _ _ t'); [by eapply good_event| | |left; by rewrite Hlt].
  - rewrite Et. by rewrite lookup_insert_eq.
  - by apply negb_false_iff in Hst.
Qed.

Lemma apply_event_on_alerts f s e : apply_event (on_alerts f s) e = on_alerts f (apply_event s e).
Proof.
  unfold apply_event, derive_status. change (task_is_terminal (on_alerts f s)) with (task_is_terminal s).
  destruct (_ && _) eqn:Ei; (change (newer (on_owners _ (on_alerts f s)) e) with (newer s e); change (newer (on_owners _ s) e) with (newer s e);
    destruct (newer s e)); try done; by destruct (terminal_status (payload e)), (worker_status (payload e)).
Qed.

Lemma escalation_of_inj a e e' : escalation_of a e -> escalation_of a e' -> e = e'.
Proof. intros (w & n & Hw & Hn & ->) (w' & n' & Hw' & Hn' & ->). congruence. Qed.

(** Filing the alert of an escalation the state retains. *)
Lemma good_file_alert n s k a e :
  Good n s -> k = alert_key (alert_run_id a) (alert_task_id a) (alert_attempt a) (alert_channel a) -> is_Some (alert_attempt a) ->
  escalation_of a e -> retained s e -> is_Some (escalated_events s !! key_of_event e) -> Good n (on_alerts (insert k a) s).
Proof.
  intros [HI Hl H0] Hk Hat He Hret Hs.
  assert (Hback : forall x, retained (on_alerts (insert k a) s) x -> retained s x).
  { intros x [j Hj|j Hj|j Hj|j Hj|j b Hj Hb];
      [by eapply retained_latest|by eapply retained_artifact|by eapply retained_restarted|by eapply retained_escalated|].
    cbn in Hj. apply lookup_insert_Some in Hj as [[_ <-]|[_ Hj]]; [by rewrite (escalation_of_inj _ _ _ Hb He)|by eapply retained_alert]. }
  split; [|intros j t x Ht Hst Hx; apply (Hl j t x Ht Hst), Hback, Hx|done]. destruct HI. split; try done.
  - intros x Hx%Hback. by apply inv_event.
  - intros j b. cbn. intros [[<- <-]|[_ Hj]]%lookup_insert_Some; [|by apply inv_alert]. split_and!; [done|done|by exists e].
  - intros x x' Hx%Hback Hx'%Hback. by apply inv_unique.
  - intros x st t Hx%Hback. by apply inv_override.
Qed.

Lemma good_alert n s r tk w a l c ts x rs :
  Good n s -> n + zlen rs <= u64_max ->
  record_failed_attempt_alert_once r tk w a l c ts s = Ok (x, rs) -> Good (n + zlen rs) (replay s rs).
Proof.
  intros HG Hn. unfold record_failed_attempt_alert_once.
  destruct (tasks s !! _) as [t|] eqn:Ht; [|intros [= <- <-]; by rewrite Z.add_0_r].
  destruct (negb _) eqn:Eh; [intros [= <- <-]; by rewrite Z.add_0_r|].
  destruct (_ || _) eqn:Ea; [intros [= <- <-]; by rewrite Z.add_0_r|]. intros [= <- <-].
  apply negb_false_iff, holds_spec in Eh as (_ & Hl & _). apply orb_false_iff in Ea as [Ea _]. apply bool_decide_eq_false in Ea.
  change (zlen _) with 1 in *. pose proof (latest_bound n s (event_key w r tk) HG) as Hlo.
  set (m := u64_saturating_add (latest_of s (event_key w r tk)) 1).
  assert (Hf : fresh s (escalation r tk c ts w m) t).
  { split; [done|done| |done]. change (m = latest_of s (event_key w r tk) + 1). unfold m, u64_saturating_add. lia. }
  cbn [replay foldl apply_record alert_generation]. rewrite decide_False by done. rewrite apply_event_on_alerts.
  pose proof (event_step_after (good_inv _ _ HG) Hf) as (_ & _ & _ & _ & _ & _ & _ & _ & El & _ & _ & Ee).
  apply (good_file_alert (n + 1) _ _ _ (escalation r tk c ts w m)); [by eapply good_event|done|by eexists|by exists w, m| |].
  - apply (retained_latest _ _ (event_key w r tk)). rewrite El. apply lookup_insert_eq.
  - rewrite Ee. cbn. rewrite lookup_insert_eq. by eexists.
Qed.

(** ** Every operation keeps the invariant *)

Lemma guarded_good {A} (op : Op A) n s a rs :
  guarded op -> Good n s -> n + zlen rs <= u64_max -> op s = Ok (a, rs) -> Good (n + zlen rs) (replay s rs).
Proof.
  intros Hg HG Hn. destruct Hg; revert Hn.
  - intros _ [= <- <-]. apply (good_weaken n); [unfold zlen; cbn; lia|]. apply (good_same_core n s); [by split_and!| |apply HG|done].
    intros k r'. cbn. intros [[<- <-]|[_ Hk]]%lookup_insert_Some; [done|]. by apply HG.
  - intros _ [= <- <-]. apply (good_weaken n); [unfold zlen; cbn; lia|]. apply (good_same_core n s); [by split_and!|apply HG|apply HG|done].
  - intros _ [= <- <-]. apply (good_weaken n); [unfold zlen; cbn; lia|]. destruct HG as [HI Hl H0'].
    destruct (enqueue_inv n s e HI) as [HI' Hl']; [done..|]. split; [done|intros k; apply Hl', Hl|done].
  - intros _ [= <- <-]. apply (good_weaken n); [unfold zlen; cbn; lia|]. by apply good_heartbeat.
  - intros _ [= <- <-]. apply (good_weaken n); [unfold zlen; cbn; lia|]. by apply good_receipt.
  - intros Hn. apply good_lease_op; [done|done|done|constructor].
  - intros Hn. by apply good_lease_op.
  - intros _. by apply good_claim.
  - intros Hn. unfold mark_task_terminal_status_if_unchanged.
    destruct (tasks s !! _) as [u|] eqn:Hu; [|intros [= <- <-]; by rewrite Z.add_0_r].
    destruct (_ || _) eqn:Eh; intros [= <- <-]; [by rewrite Z.add_0_r|]. apply orb_false_iff in Eh as [Eh _].
    apply negb_false_iff, holds_spec in Eh as (_ & Hl & _). apply (good_weaken n); [unfold zlen; cbn; lia|].
    apply (good_mark n s _ u); [done|done|done|by left].
  - intros Hn. unfold append_event_if_leased. destruct (is_terminal_payload p); [done|]. apply good_append; [done|done|].
    intros u _ (Hs & Hl & _)%holds_spec. done.
  - intros Hn. unfold append_event_if_lease_unchanged. destruct (is_terminal_payload p); [done|]. apply good_append; [done|done|].
    intros u _ [(Hs & Hl & _)%holds_spec _]%andb_true_iff. done.
  - intros Hn. unfold append_terminal_event_if_leased. destruct (negb _); [done|]. apply good_append; [done|done|].
    intros u _ (Hs & Hl & _)%holds_spec. done.
  - intros Hn. unfold append_terminal_event_if_lease_unchanged. destruct (negb _); [done|]. apply good_append; [done|done|].
    intros u _ [(Hs & Hl & _)%holds_spec _]%andb_true_iff. done.
  - intros Hn. by apply good_finalize.
  - intros Hn. by apply good_restart.
  - intros Hn. by apply good_cancel.
  - intros Hn. by apply good_alert.
Qed.

Lemma reachable_good l : Reachable l -> zlen l <= u64_max -> Good (zlen l) (replay empty_state l).
Proof.
  induction 1 as [|A op l Hl IH Hg]; intros Hn; [apply good_empty|]. unfold transact in *.
  destruct (op (replay empty_state l)) as [[a rs]|e] eqn:E; cbn [snd] in *; [|by apply IH].
  rewrite zlen_app in *. pose proof (zlen_nonneg rs). rewrite replay_app. eapply guarded_good; [done|apply IH; lia|lia|done].
Qed.

(** ** Attempts that are over *)

(** The attempt [a] of a task is over: a later one began, or it holds no lease. *)
Definition closed (s : FleetLedgerState) (k : str) (a : Z) : Prop :=
  exists t, tasks s !! k = Some t /\ (a < attempts (entry t) \/ (attempts (entry t) = a /\ status t <> Leased)).

(** A record that ends a task ends it in a terminal status, and the counters are in range. *)
Definition sane (r : FleetLedgerRecord) : Prop :=
  match r with
  | TaskEnqueued e => 0 <= attempts e <= u32_max
  | TaskLifecycleCheckpoint _ _ n => n <= u64_max
  | TaskCompletedOrFailed _ _ _ _ st => is_terminal st = true
  | TaskAttemptFinalized _ (Some st) _ => is_terminal st = true
  | _ => True
  end.

Lemma alter_closed (f : FleetTaskState -> FleetTaskState) s s' k k0 a :
  (forall t, (a < attempts (entry t) \/ (attempts (entry t) = a /\ status t <> Leased)) ->
     a < attempts (entry (f t)) \/ (attempts (entry (f t)) = a /\ status (f t) <> Leased)) ->
  tasks s' = alter f k0 (tasks s) -> closed s k a -> closed s' k a.
Proof.
  intros Hf E (t & Ht & Ha). destruct (decide (k0 = k)) as [->|Hne].
  - exists (f t). rewrite E, lookup_alter_eq, Ht. split; [done|by apply Hf].
  - exists t. by rewrite E, lookup_alter_ne.
Qed.

Lemma mark_closed w ts st a t : is_terminal st = true ->
  (a < attempts (entry t) \/ (attempts (entry t) = a /\ status t <> Leased)) ->
  a < attempts (entry (mark_terminal w ts st t)) \/ (attempts (entry (mark_terminal w ts st t)) = a /\ status (mark_terminal w ts st t) <> Leased).
Proof. cbn. intros Hst [?|[? _]]; [by left|right; split; [done|by intros ->]]. Qed.

Lemma lease_closed w at_ ex a t : a < u32_max ->
  (a < attempts (entry t) \/ (attempts (entry t) = a /\ status t <> Leased)) ->
  a < attempts (entry (lease w at_ ex t)) \/ (attempts (entry (lease w at_ ex t)) = a /\ status (lease w at_ ex t) <> Leased).
Proof. cbn. unfold u32_saturating_add. intros Ha [?|[? _]]; left; lia. Qed.

Lemma same_closed s s' k a : tasks s' = tasks s -> closed s k a -> closed s' k a.
Proof. intros E (t & Ht & Ha). exists t. by rewrite E. Qed.

Lemma event_closed s s' e k a : tasks s' = event_tasks e (tasks s) -> closed s k a -> closed s' k a.
Proof.
  unfold event_tasks. destruct (terminal_status (payload e)) as [st|] eqn:Est; [|apply same_closed].
  apply alter_closed. intros t. apply mark_closed. by destruct (payload e); try done; injection Est as <-.
Qed.

Lemma record_closed s r k a : a < u32_max -> sane r -> closed s k a -> closed (apply_record s r) k a.
Proof.
  intros Ha Hr Hc. pose proof (tasks_apply_record s r) as E. destruct r; cbn [record_tasks] in E; try (by eapply same_closed).
  - case_decide as Hs; [by eapply same_closed|]. destruct Hc as (t & Ht & Hat). exists t. rewrite E.
    rewrite lookup_insert_ne; [done|]. intros <-. apply Hs. by exists t.
  - eapply alter_closed; [|done|done]. intros t. by apply lease_closed.
  - eapply alter_closed; [|done|done]. intros t. by apply mark_closed.
  - eapply alter_closed; [|done|done]. done.
  - set (s1 := apply_event s event). assert (H1 : closed s1 k a) by (eapply event_closed; [apply tasks_apply_event|done]).
    rewrite <-tasks_apply_event in E. destruct final_status as [st|]; [|by eapply same_closed].
    eapply (alter_closed _ s1); [|done|done]. intros t. by apply mark_closed.
  - by eapply event_closed.
Qed.

Lemma replay_closed rs s k a : a < u32_max -> Forall sane rs -> closed s k a -> closed (replay s rs) k a.
Proof.
  intros Ha H. revert s. induction H as [|r rs Hr Hrs IH]; intros s Hc; [done|]. apply IH. by apply record_closed.
Qed.

Lemma initial_event_records_sane m r w tk at_ ps : Forall sane (initial_event_records m r w tk at_ ps).
Proof. revert m. induction ps as [|p ps IH]; intros m; constructor; [done|apply IH]. Qed.

Lemma append_when_sane guard r w tk ts p s a rs : append_event_when guard r w tk ts p s = Ok (a, rs) -> Forall sane rs.
Proof.
  unfold append_event_when. destruct (tasks s !! _) as [t|]; [destruct (guard s t)|]; intros [= <- <-]; repeat constructor.
Qed.

Lemma lease_op_sane r tk w at_ ex mx ps b cb s a rs :
  lease_task_if_enqueued_with_events r tk w at_ ex mx ps b cb s = Ok (a, rs) -> Forall sane rs.
Proof.
  unfold lease_task_if_enqueued_with_events. destruct (tasks s !! _) as [t|]; [|by intros [= <- <-]].
  destruct (bool_decide _); [by intros [= <- <-]|]. destruct (worker_is_busy s w); [by intros [= <- <-]|].
  destruct (run_is_full s r mx); [by intros [= <- <-]|]. destruct cb; [|done]. intros [= <- <-].
  constructor; [done|]. apply Forall_app. split; [apply initial_event_records_sane|by destruct b; repeat constructor].
Qed.

Lemma guarded_sane {A} (op : Op A) s a rs : guarded op -> op s = Ok (a, rs) -> Forall sane rs.
Proof.
  destruct 1; try (by intros [= <- <-]; repeat constructor); try (by apply lease_op_sane).
  - intros [= <- <-]. by constructor.
  - unfold claim_next. destruct (worker_is_busy s w); [by intros [= <- <-]|].
    destruct (min_by _ _); intros [= <- <-]; repeat constructor.
  - unfold mark_task_terminal_status_if_unchanged. destruct (tasks s !! _); [destruct (_ || _)|]; intros [= <- <-]; by repeat constructor.
  - unfold append_event_if_leased. destruct (is_terminal_payload p); [done|apply append_when_sane].
  - unfold append_event_if_lease_unchanged. destruct (is_terminal_payload p); [done|apply append_when_sane].
  - unfold append_terminal_event_if_leased. destruct (negb _); [done|apply append_when_sane].
  - unfold append_terminal_event_if_lease_unchanged. destruct (negb _); [done|apply append_when_sane].
  - unfold finalize_task_attempt_if_leased. rewrite !seq_Ok, !reject_if_Ok. intros (_ & Hst & _ & _ & H). revert H.
    destruct (tasks s !! _); [destruct (holds _ _ _ _)|]; intros [= <- <-]; [|by constructor..].
    constructor; [|done]. destruct st as [st|]; [|done]. by apply negb_false_iff in Hst.
  - unfold restart_task_if_unchanged_with_callback. destruct (tasks s !! _) as [u|]; [|by intros [= <- <-]].
    destruct (negb _); [by intros [= <- <-]|]. destruct (leased_elsewhere _ _ _); [by intros [= <- <-]|].
    destruct cb; [|done]. intros [= <- <-]. by repeat constructor.
  - unfold cancel_task_if_active. destruct (tasks s !! _) as [u|]; [|by intros [= <- <-]].
    destruct (is_terminal _); [by intros [= <- <-]|]. destruct (match w with Some w => _ | None => _ end); [by intros [= <- <-]|].
    destruct (leased_to u); [destruct sg|]; intros [= <- <-]; by repeat constructor.
  - unfold record_failed_attempt_alert_once. destruct (tasks s !! _); [|by intros [= <- <-]].
    destruct (negb _); [by intros [= <- <-]|]. destruct (_ || _); intros [= <- <-]; by repeat constructor.
Qed.

(** Any sequence of the managers' operations. *)
Inductive steps : list FleetLedgerRecord -> list FleetLedgerRecord -> Prop :=
  | steps_refl l : steps l l
  | steps_op {A} (op : Op A) l l' : steps l l' -> guarded op -> steps l (transact op l').2.

Lemma steps_closed l l' k a : a < u32_max -> steps l l' -> closed (replay empty_state l) k a -> closed (replay empty_state l') k a.
Proof.
  intros Ha. induction 1 as [l|A op l l' Hs IH Hg]; intros Hc; [done|]. apply IH in Hc. unfold transact.
  destruct (op _) as [[x rs]|e] eqn:E; cbn [snd]; [|done]. rewrite replay_app. apply replay_closed; [done|by eapply guarded_sane|done].
Qed.

(** The operations that end the attempt [a] of a task, or replace it. *)
Inductive concludes (r : FleetRunId) (tk : str) (a : Z) : forall {A}, Op A -> A -> Prop :=
  | c_end w ts p e : concludes r tk a (append_terminal_event_if_leased r w tk a ts p) (Some e)
  | c_expire w n hb ts p e : concludes r tk a (append_terminal_event_if_lease_unchanged r w tk a n hb ts p) (Some e)
  | c_finalize w ts p st rc e : concludes r tk a (finalize_task_attempt_if_leased r w tk a ts p st rc) (Some e)
  | c_restart w st n hb at_ ex c cb : concludes r tk a (restart_task_if_unchanged_with_callback r tk w st a n hb at_ ex c cb) true.

(** The operations that speak for the attempt [a]: progress, its end, its receipt. *)
Inductive speaks_for (r : FleetRunId) (tk : str) (a : Z) : Op (option FleetWorkerEvent) -> Prop :=
  | s_progress w ts p : speaks_for r tk a (append_event_if_leased r w tk a ts p)
  | s_observe w n hb ts p : speaks_for r tk a (append_event_if_lease_unchanged r w tk a n hb ts p)
  | s_end w ts p : speaks_for r tk a (append_terminal_event_if_leased r w tk a ts p)
  | s_expire w n hb ts p : speaks_for r tk a (append_terminal_event_if_lease_unchanged r w tk a n hb ts p)
  | s_finalize w ts p st rc : speaks_for r tk a (finalize_task_attempt_if_leased r w tk a ts p st rc).

Lemma closed_not_held s k a t w : closed s k a -> tasks s !! k = Some t -> holds t Leased w a = false.
Proof.
  intros (u & Hu & Ha) Ht. rewrite Ht in Hu. injection Hu as <-. apply not_true_iff_false. rewrite holds_spec.
  intros (Hs & _ & He). destruct Ha as [?|[_ ?]]; [lia|done].
Qed.

Lemma closed_silent r tk a op s x rs :
  speaks_for r tk a op -> closed s (task_key r tk) a -> op s = Ok (x, rs) -> x = None /\ rs = [].
Proof.
  intros Hop Hc. pose proof Hc as (t & Ht & _).
  assert (Hw : forall guard w ts p, (guard s t = true -> holds t Leased w a = true) ->
             append_event_when guard r w tk ts p s = Ok (x, rs) -> x = None /\ rs = []).
  { intros guard w ts p Hg. unfold append_event_when. rewrite Ht. destruct (guard s t) eqn:E; [|by intros [= <- <-]].
    specialize (Hg eq_refl). by rewrite (closed_not_held s _ a t w Hc Ht) in Hg. }
  destruct Hop as [w ts p|w n hb ts p|w ts p|w n hb ts p|w ts p st rc].
  - unfold append_event_if_leased. destruct (is_terminal_payload p); [done|]. by apply Hw.
  - unfold append_event_if_lease_unchanged. destruct (is_terminal_payload p); [done|]. apply Hw. by intros [? _]%andb_true_iff.
  - unfold append_terminal_event_if_leased. destruct (negb _); [done|]. by apply Hw.
  - unfold append_terminal_event_if_lease_unchanged. destruct (negb _); [done|]. apply Hw. by intros [? _]%andb_true_iff.
  - unfold finalize_task_attempt_if_leased. rewrite !seq_Ok. intros (_ & _ & _ & _ & H). revert H.
    rewrite Ht, (closed_not_held s _ a t w Hc Ht). by intros [= <- <-].
Qed.

Lemma terminal_event_closes s e k t a :
  is_Some (terminal_status (payload e)) -> task_key_of_event e = k -> tasks s !! k = Some t -> attempts (entry t) = a ->
  closed (apply_event s e) k a.
Proof.
  intros [st Est] <- Ht Ha. exists (mark_terminal (ev_worker_id e) (ev_timestamp e) st t). split.
  - rewrite tasks_apply_event. unfold event_tasks. by rewrite Est, lookup_alter_eq, Ht.
  - right. split; [done|]. cbn. destruct (payload e); try done; injection Est as <-; done.
Qed.

Lemma append_terminal_closes guard r w tk ts p s a e rs :
  is_terminal_payload p = true -> (forall t, guard s t = true -> holds t Leased w a = true) ->
  append_event_when guard r w tk ts p s = Ok (Some e, rs) -> closed (replay s rs) (task_key r tk) a.
Proof.
  unfold append_event_when, is_terminal_payload. rewrite bool_decide_eq_true. intros Hp Hg.
  destruct (tasks s !! _) as [t|] eqn:Ht; [|done]. destruct (guard s t) eqn:E; [|done]. intros [= <- <-].
  apply Hg, holds_spec in E as (_ & _ & Ha). by apply (terminal_event_closes s _ _ t).
Qed.

Lemma concludes_closes {A} r tk a (op : Op A) (x : A) s rs :
  a < u32_max -> concludes r tk a op x -> op s = Ok (x, rs) -> closed (replay s rs) (task_key r tk) a.
Proof.
  intros Ha. destruct 1 as [w ts p e|w n hb ts p e|w ts p st rc e|w st n hb at_ ex c cb].
  - unfold append_terminal_event_if_leased. destruct (negb _) eqn:Ep; [done|]. apply negb_false_iff in Ep. by apply append_terminal_closes.
  - unfold append_terminal_event_if_lease_unchanged. destruct (negb _) eqn:Ep; [done|]. apply negb_false_iff in Ep.
    apply append_terminal_closes; [done|]. by intros t [? _]%andb_true_iff.
  - unfold finalize_task_attempt_if_leased. rewrite !seq_Ok, !reject_if_Ok. intros (Hp & Hst & _ & _ & H). revert H.
    apply negb_false_iff, bool_decide_eq_true in Hp. destruct (tasks s !! _) as [t|] eqn:Ht; [|done].
    destruct (holds _ _ _ _) eqn:Eh; [|done]. intros [= <- <-]. apply holds_spec in Eh as (_ & _ & Hat).
    set (ev := next_worker_event s r w tk ts p). set (r' := TaskAttemptFinalized _ _ _).
    assert (H1 : closed (apply_event s ev) (task_key r tk) a) by (by apply (terminal_event_closes s ev _ t)).
    pose proof (tasks_apply_record s r') as E. cbn [record_tasks r'] in E. rewrite <-tasks_apply_event in E.
    destruct st as [st|]; [|by eapply same_closed]. eapply (alter_closed _ (apply_event s ev)); [|done|done].
    intros u. apply mark_closed. by apply negb_false_iff in Hst.
  - unfold restart_task_if_unchanged_with_callback. destruct (tasks s !! _) as [t|] eqn:Ht; [|done].
    destruct (negb _) eqn:Eh; [done|]. destruct (leased_elsewhere _ _ _); [done|]. destruct cb; [|done]. intros [= <-].
    apply negb_false_iff, andb_true_iff in Eh as [(_ & _ & Hat)%holds_spec _].
    rewrite replay_cons. apply replay_closed; [done|by repeat constructor|].
    exists (lease w at_ ex t). cbn. rewrite lookup_alter_eq, Ht. split; [done|]. left. cbn. unfold u32_saturating_add. lia.
Qed.


(** ** The history of a task *)

Lemma sane_in_range r : sane r -> record_in_range r.
Proof. by destruct r. Qed.

Lemma steps_evolve l l' : steps l l' -> tasks_in_range (tasks (replay empty_state l)) ->
  tasks_in_range (tasks (replay empty_state l'))
  /\ forall k t, tasks (replay empty_state l) !! k = Some t ->
     exists t', tasks (replay empty_state l') !! k = Some t' /\ evolves t t' /\ (leased_to t <> None -> leased_to t' <> None).
Proof.
  induction 1 as [l|A op l l' Hs IH Hg]; intros Hr; [by apply same_evolves|]. destruct (IH Hr) as [Hr' H1]. unfold transact.
  destruct (op _) as [[x rs]|e] eqn:E; cbn [snd]; [|done]. rewrite replay_app.
  destruct (replay_evolves rs (replay empty_state l')) as [Hr2 H2]; [|done|].
  { eapply Forall_impl; [by eapply guarded_sane|]. apply sane_in_range. }
  split; [done|]. intros k t (t1 & Ht1 & He1 & Hl1)%H1. apply H2 in Ht1 as (t2 & Ht2 & He2 & Hl2). exists t2.
  split; [done|]. split; [by eapply evolves_trans|auto].
Qed.

Lemma good_in_range n s : Good n s -> tasks_in_range (tasks s).
Proof. intros [HI _ _] k t Ht. apply (task_range _ _ (inv_task _ _ HI k t Ht)). Qed.

(** C12: the ledger is coherent.  Whatever operations any managers performed
    on it, in whatever order: a worker holds at most one live lease; a leased
    task names its worker and counts at least one attempt; the latest event of
    a key belongs to its task and to the worker the task is leased to, carries
    the number the next event is counted from, and does not end the task while
    the lease is live; two retained events of a key never share a number; and
    whatever is performed next, no task is lost, none of its counters goes
    back, and its status never changes without its lifecycle counter. *)
Theorem fleet_ledger_is_coherent l :
  Reachable l -> zlen l <= u64_max ->
  let s := replay empty_state l in
  (forall k k' t t' w, tasks s !! k = Some t -> tasks s !! k' = Some t' -> leased_by w t = true -> leased_by w t' = true -> k = k')
  /\ (forall k t, tasks s !! k = Some t ->
        k = task_key (entry_run_id (entry t)) (entry_task_id (entry t))
        /\ (status t = Leased -> is_Some (leased_to t) /\ is_Some (leased_at t) /\ 1 <= attempts (entry t)))
  /\ (forall k e, latest_events s !! k = Some e ->
        k = key_of_event e /\ latest_seq s !! k = Some (seq e)
        /\ exists t, tasks s !! task_key_of_event e = Some t /\ leased_to t = Some (ev_worker_id e)
             /\ (status t = Leased -> terminal_status (payload e) = None))
  /\ (forall e e', retained s e -> retained s e' -> key_of_event e = key_of_event e' -> seq e = seq e' -> e = e')
  /\ (forall l', steps l l' -> forall k t, tasks s !! k = Some t ->
        exists t', tasks (replay empty_state l') !! k = Some t' /\ evolves t t').
Proof.
  intros Hl Hn s. pose proof (reachable_good l Hl Hn) as HG. fold s in HG. pose proof HG as [HI Hlive _]. split_and!.
  - intros k k' t t' w. by apply (inv_one _ _ HI).
  - intros k t Ht. pose proof (inv_task _ _ HI k t Ht) as [Hk _ _ _ Hlease]. split; [done|]. intros Hs.
    destruct (leased_to t) as [w|]; [by destruct Hlease as (_ & _ & ? & ? & _)|]. by destruct Hlease as (_ & [[? _]|[? _]]); congruence.
  - intros k e Hk. destruct (inv_latest _ _ HI k e Hk) as (-> & Hseq & _). split_and!; [done|done|].
    assert (He : retained s e) by (by eapply retained_latest). destruct (inv_event _ _ HI e He) as (t & m & Ht & Hw & _).
    exists t. split_and!; [done|done|]. intros Hs. by apply (Hlive (task_key_of_event e) t e).
  - apply (inv_unique _ _ HI).
  - intros l' Hs k t Ht. destruct (steps_evolve l l' Hs (good_in_range _ _ HG)) as [_ H]. destruct (H k t Ht) as (t' & Ht' & He & _). by exists t'.
Qed.

(** ** A concrete ledger *)

Definition sample_run : FleetRun :=
  {| run_id := $"r"; run_name := $"run"; run_status := RunRunning; max_workers := Some 2; task_specs := []; worker_specs := [];
     labels := ∅; security_policy := None; created_at := $"0"; updated_at := None; run_completed_at := None |}.
Definition sample_entry : FleetInboxEntry :=
  {| entry_run_id := $"r"; entry_task_id := $"t"; priority := 0; enqueued_at := $"0"; lease_deadline := None; attempts := 0 |}.
Definition sample_receipt : FleetReceipt :=
  {| receipt_run_id := $"r"; receipt_task_id := $"t"; receipt_worker_id := $"w"; attempt := None; terminal_seq := None;
     receipt_completed_at := $"2"; receipt_result := TaskFail; failure_kind := None; artifacts := []; score := None;
     resolved_route := None; effective_permissions := None |}.
Definition sample_artifact : FleetArtifactRef :=
  {| artifact_kind := ArtifactLog; artifact_path := $"log"; checksum := None; mime_type := None; size_bytes := None |}.

(** A run whose task started. *)
Definition started_ledger : list FleetLedgerRecord :=
  let l := (transact (create_run sample_run) []).2 in
  let l := (transact (enqueue sample_entry) l).2 in
  (transact (start_task_if_enqueued $"r" $"t" $"w" $"1" None (Some 2) [EvStarting] (Ok tt)) l).2.

Definition sample_failure : Op (option FleetWorkerEvent) :=
  finalize_task_attempt_if_leased $"r" $"w" $"t" 1 $"2" (EvFailed $"exit 1" true) (Some Failed) sample_receipt.

(** The task failed, was reported, and runs again. *)
Definition restarted_ledger : list FleetLedgerRecord :=
  let l := (transact sample_failure started_ledger).2 in
  let l := (transact (record_failed_attempt_alert_once $"r" $"t" $"w" 1 $"slack" $"slack#0" $"3") l).2 in
  let l := (transact (restart_task_if_unchanged $"r" $"t" $"w" Failed 1 3 (Some $"1") $"4" None 1) l).2 in
  (transact (append_event_if_leased $"r" $"w" $"t" 2 $"5" (EvArtifact sample_artifact)) l).2.

Lemma no_colon_spec w : bool_decide (colon ∉ w) = true -> no_colon w.
Proof. apply bool_decide_eq_true. Qed.

Lemma started_reachable : Reachable started_ledger.
Proof.
  unfold started_ledger. cbv zeta. apply (reach_step (start_task_if_enqueued _ _ _ _ _ _ _ _)).
  - apply (reach_step (enqueue _)); [apply (reach_step (create_run _)); constructor|]. constructor; [by apply no_colon_spec..|done].
  - constructor; [split; [by apply no_colon_spec|done]|by repeat constructor].
Qed.

Lemma restarted_reachable : Reachable restarted_ledger.
Proof.
  unfold restarted_ledger. cbv zeta. apply (reach_step (append_event_if_leased _ _ _ _ _ _)); [|constructor].
  apply (reach_step (restart_task_if_unchanged _ _ _ _ _ _ _ _ _ _)); [|apply g_restart].
  apply (reach_step (record_failed_attempt_alert_once _ _ _ _ _ _ _)); [|constructor].
  apply (reach_step sample_failure); [apply started_reachable|apply g_finalize].
Qed.


Lemma fleet_ledger_is_coherent_witness :
  Reachable restarted_ledger /\ zlen restarted_ledger <= u64_max
  /\ forall k k' t t' w, tasks (replay empty_state restarted_ledger) !! k = Some t -> tasks (replay empty_state restarted_ledger) !! k' = Some t' ->
     leased_by w t = true -> leased_by w t' = true -> k = k'.
Proof.
  assert (Hn : zlen restarted_ledger <= u64_max) by by vm_compute.
  split; [exact restarted_reachable|]. split; [exact Hn|]. apply (fleet_ledger_is_coherent restarted_ledger restarted_reachable Hn).
Defined.
