(* ===== verification/FleetLedgerText.v ===== *)
(** * The file of the fleet ledger

    Appending to a file whose last write was torn, and what a torn write
    leaves.  The hypotheses state what [serde_json] documents: a record's text
    is one line that parses back, white space after a text is ignored, and a
    text cut short does not parse. *)

From S2P Require Import Text Json FleetProtocol FleetLedger FleetLedgerFacts.

Section file.
Context (to_string : FleetLedgerRecord -> str) (from_str : str -> option FleetLedgerRecord).
(** The records [serde_json] writes so that they parse back. *)
Context (plain : FleetLedgerRecord -> Prop).
Context (Hround : forall r, plain r -> from_str (to_string r) = Some r)
  (Hline : forall r, plain r -> Forall (fun c => N.eqb newline c = false) (to_string r))
  (Hblank : forall w, str_is_empty (trim w) = true -> from_str w = None)
  (Hspace : forall w, from_str (strip_cr w) = from_str w)
  (Hcut : forall r p q, plain r -> to_string r = p ++ q -> q <> [] -> from_str p = None).

Definition parse_line (l : str) : option FleetLedgerRecord := if str_is_empty (trim l) then None else from_str l.

Lemma parse_line_from l : parse_line l = from_str l.
Proof using Hblank. unfold parse_line. destruct (str_is_empty (trim l)) eqn:E; [by rewrite Hblank|done]. Qed.

Lemma parse_line_cr l : parse_line (strip_cr l) = parse_line l.
Proof using Hblank Hspace. by rewrite !parse_line_from. Qed.

Lemma records_lines_of ws v vs : omap parse_line (lines_of (ws ++ v :: vs)) = omap parse_line ws ++ omap parse_line (lines_of (v :: vs)).
Proof using Hblank Hspace.
  induction ws as [|w ws IH]; [done|]. cbn [app]. assert (E : lines_of (w :: ws ++ v :: vs) = strip_cr w :: lines_of (ws ++ v :: vs)) by (by destruct ws).
  rewrite E. cbn [omap list_omap]. rewrite parse_line_cr. destruct (parse_line w); [cbn; f_equal; apply IH|apply IH].
Qed.

Lemma omap_lines_of ws : omap parse_line (lines_of ws) = omap parse_line ws.
Proof using Hblank Hspace.
  destruct ws as [|w ws] using rev_ind; [done|]. rewrite records_lines_of, omap_app. f_equal. cbn.
  destruct w as [|c w]; [|done]. unfold parse_line. done.
Qed.

Lemma records_of_sep c d : records_of from_str (c ++ newline :: d) = records_of from_str c ++ records_of from_str d.
Proof using Hblank Hspace.
  change (records_of from_str) with (fun s => omap parse_line (lines s)). cbn beta. unfold lines, split_char.
  rewrite !omap_lines_of, split_by_app by done. apply omap_app.
Qed.

Lemma records_of_record r : plain r -> records_of from_str (to_string r) = [r].
Proof using Hround Hline Hblank Hspace.
  intros Hr. change (records_of from_str (to_string r)) with (omap parse_line (lines (to_string r))). unfold lines, split_char.
  rewrite omap_lines_of, split_by_nosep by by apply Hline. cbn. by rewrite parse_line_from, Hround.
Qed.

Definition lines_text (rs : list FleetLedgerRecord) : str := flat_map (fun r => to_string r ++ [newline]) rs.

Lemma lines_text_cons r rs : lines_text (r :: rs) = to_string r ++ newline :: lines_text rs.
Proof. unfold lines_text. cbn. by rewrite <-app_assoc. Qed.

Lemma records_of_lines rs d : Forall plain rs -> records_of from_str (lines_text rs ++ d) = rs ++ records_of from_str d.
Proof using Hround Hline Hblank Hspace.
  induction 1 as [|r rs Hr Hrs IH]; [done|]. rewrite lines_text_cons, <-app_assoc. cbn [app].
  rewrite records_of_sep, records_of_record by done. cbn. by rewrite IH.
Qed.

(** What an append writes after the contents of the file. *)
Definition written (contents : str) (rs : list FleetLedgerRecord) : str :=
  match last contents with
  | Some c => if N.eqb c newline then lines_text rs else newline :: lines_text rs
  | None => lines_text rs
  end.

Lemma append_written contents rs : append_records_unlocked to_string contents rs = contents ++ written contents rs.
Proof.
  unfold append_records_unlocked, written. fold (lines_text rs). destruct (last contents) as [c|] eqn:E; [by destruct (N.eqb c newline)|].
  apply last_None in E as ->. done.
Qed.

(** The start of what is written adds the records whose text it holds. *)
Lemma records_of_written contents rs p :
  p `prefix_of` written contents rs ->
  exists p', records_of from_str (contents ++ p) = records_of from_str contents ++ records_of from_str p' /\ p' `prefix_of` lines_text rs
    /\ (p = written contents rs -> p' = lines_text rs).
Proof using Hblank Hspace.
  unfold written. destruct (last contents) as [c|] eqn:E.
  - destruct (N.eqb_spec c newline) as [->|Hne].
    + intros Hp. exists p. split_and!; [|done|done]. apply last_Some in E as [init ->]. rewrite <-app_assoc. cbn [app].
      rewrite !records_of_sep. change (records_of from_str []) with (@nil FleetLedgerRecord). by rewrite app_nil_r.
    + intros [q Hq]. destruct p as [|c' p].
      * exists []. split_and!; [by rewrite !app_nil_r|by exists (lines_text rs)|done].
      * injection Hq as <- Hq. exists p. split_and!; [apply records_of_sep|by exists q|by intros [= <-]].
  - apply last_None in E as ->. intros Hp. by exists p.
Qed.

(** A prefix of the lines is whole lines and the start of one. *)
Lemma prefix_sep (p q a b : str) (c : char) :
  p ++ q = a ++ c :: b -> (exists q', a = p ++ q') \/ exists p', p = a ++ c :: p' /\ b = p' ++ q.
Proof.
  revert p. induction a as [|x a IH]; intros p E; cbn in E.
  - destruct p as [|y p]; [left; by exists []|]. injection E as -> E. right. by exists p.
  - destruct p as [|y p]; [left; by exists (x :: a)|]. injection E as -> E. apply IH in E as [[q' ->]|(p' & -> & ->)]; [left; by exists q'|right; by exists p'].
Qed.

Lemma prefix_of_lines rs p q :
  p ++ q = lines_text rs ->
  exists whole rest frag, rs = whole ++ rest /\ p = lines_text whole ++ frag
    /\ match rest with [] => frag = [] | r :: _ => exists cut, to_string r = frag ++ cut end.
Proof.
  revert p. induction rs as [|r rs IH]; intros p E.
  - apply app_eq_nil in E as [-> _]. by exists [], [], [].
  - rewrite lines_text_cons in E. apply prefix_sep in E as [[cut Hc]|(p' & -> & E)].
    + exists [], (r :: rs), p. split_and!; [done|done|by exists cut].
    + destruct (IH p' (eq_sym E)) as (whole & rest & frag & -> & -> & Hf). exists (r :: whole), rest, frag.
      split_and!; [done| |done]. by rewrite lines_text_cons, <-app_assoc.
Qed.

Lemma records_of_fragment r frag cut :
  plain r -> to_string r = frag ++ cut -> records_of from_str frag = [] \/ records_of from_str frag = [r].
Proof using Hround Hline Hblank Hspace Hcut.
  intros Hr E. destruct cut as [|c cut]; [right; rewrite app_nil_r in E; rewrite <-E; by apply records_of_record|left].
  change (records_of from_str frag) with (omap parse_line (lines frag)). unfold lines, split_char.
  rewrite omap_lines_of, split_by_nosep.
  - cbn. by rewrite parse_line_from, (Hcut r frag (c :: cut) Hr E).
  - pose proof (Hline r Hr) as Hl. rewrite E in Hl. by apply Forall_app in Hl as [? _].
Qed.

(** C15: the ledger survives torn writes.  Whatever the file of the ledger
    holds, an append adds exactly its records to the state the replay
    reconstructs, even after a fragment that an earlier crash left; and if the
    append itself is cut anywhere, the replay of what reached the file applies
    a prefix of its records, so a transition written as one record happens
    whole or not at all. *)
Theorem torn_writes_lose_nothing contents rs :
  Forall plain rs ->
  rebuild_state from_str (append_records_unlocked to_string contents rs) = replay (rebuild_state from_str contents) rs
  /\ forall p q, append_records_unlocked to_string contents rs = contents ++ p ++ q ->
     exists rs', rs' `prefix_of` rs /\ rebuild_state from_str (contents ++ p) = replay (rebuild_state from_str contents) rs'.
Proof using Hround Hline Hblank Hspace Hcut.
  intros Hrs. rewrite append_written. unfold rebuild_state. split.
  - destruct (records_of_written contents rs (written contents rs)) as (p' & -> & _ & Hp'); [done|]. rewrite Hp' by done.
    pose proof (records_of_lines rs [] Hrs) as E. rewrite !app_nil_r in E. rewrite E. apply replay_app.
  - intros p q E. apply app_inv_head in E.
    destruct (records_of_written contents rs p) as (p' & -> & [q' Hq] & _); [by exists q|].
    destruct (prefix_of_lines rs p' q' (eq_sym Hq)) as (whole & rest & frag & -> & -> & Hf).
    apply Forall_app in Hrs as [Hwhole Hrest]. rewrite records_of_lines by done. assert (Hfrag : exists rs', rs' `prefix_of` whole ++ rest /\ whole ++ records_of from_str frag = rs').
    { destruct rest as [|r rest].
      - subst frag. exists whole. split; [by exists []|]. by rewrite app_nil_r.
      - destruct Hf as [cut Hcut']. destruct (records_of_fragment r frag cut (Forall_inv Hrest) Hcut') as [->| ->].
        + exists whole. rewrite app_nil_r. split; [by exists (r :: rest)|done].
        + exists (whole ++ [r]). split; [by exists rest; rewrite <-app_assoc|done]. }
    destruct Hfrag as (rs' & Hpre & ->). exists rs'. split; [done|]. apply replay_app.
Qed.
End file.

(** ** A concrete file *)

Definition sample_record : FleetLedgerRecord := Heartbeat $"w" $"2026-01-01T00:00:00Z" None None.
Definition sample_to_string (_ : FleetLedgerRecord) : str := $"{}".
Definition sample_from_str (l : str) : option FleetLedgerRecord := if bool_decide (trim l = $"{}") then Some sample_record else None.

Lemma torn_writes_lose_nothing_witness :
  (forall r, r = sample_record -> sample_from_str (sample_to_string r) = Some r)
  /\ rebuild_state sample_from_str (append_records_unlocked sample_to_string $"{torn" [sample_record])
     = replay (rebuild_state sample_from_str $"{torn") [sample_record].
Proof.
  assert (H1 : forall r, r = sample_record -> sample_from_str (sample_to_string r) = Some r) by (by intros r ->).
  split; [exact H1|]. apply (torn_writes_lose_nothing sample_to_string sample_from_str (fun r => r = sample_record) H1).
  - intros r _. by repeat constructor.
  - intros w Hw. unfold sample_from_str. destruct (trim w); [done|done].
  - intros w. unfold sample_from_str. by rewrite strip_cr_trim.
  - intros r p q _ E Hq. unfold sample_to_string in E. unfold sample_from_str.
    destruct p as [|a [|b p]]; cbn in E; [done|injection E as <- _; by vm_compute|].
    injection E as <- <- E. symmetry in E. apply app_eq_nil in E as [_ ->]. done.
  - by repeat constructor.
Defined.
