(* ===== verification/FleetCompact.v ===== *)
(** * Compaction of the fleet ledger

    The records a compaction writes rebuild the state it read. *)

From S2P Require Import Text Json FleetProtocol FleetLedger FleetLedgerFacts FleetLedgerInv FleetLedgerSpec.

(** ** Maps written entry by entry *)

Section puts.
Context `{Countable K} {V X : Type} (g : X -> option (K * V)).

Definition put (m : gmap K V) (x : X) : gmap K V := match g x with Some (k, v) => <[k := v]> m | None => m end.

Lemma puts_none l m k : (forall x v, x ∈ l -> g x <> Some (k, v)) -> foldl put m l !! k = m !! k.
Proof.
  revert m. induction l as [|x l IH]; intros m Hn; [done|]. cbn. rewrite IH by (intros y v Hy; apply Hn; by right).
  unfold put. destruct (g x) as [[k' v]|] eqn:E; [|done]. rewrite lookup_insert_ne; [done|].
  intros ->. by apply (Hn x v); [left|].
Qed.

Lemma puts_some l m k v :
  (exists x, x ∈ l /\ g x = Some (k, v)) -> (forall x v', x ∈ l -> g x = Some (k, v') -> v' = v) -> foldl put m l !! k = Some v.
Proof.
  intros (x & Hx & Hg) Hu. apply list_elem_of_split in Hx as (l1 & l2 & ->). rewrite foldl_app. cbn.
  assert (Hkeep : forall l' m', (forall y v', y ∈ l' -> g y = Some (k, v') -> v' = v) -> m' !! k = Some v -> foldl put m' l' !! k = Some v).
  { clear. induction l' as [|y l' IH]; intros m' Hu Hm; [done|]. cbn. apply IH; [intros z v' Hz; apply Hu; by right|].
    unfold put. destruct (g y) as [[k' v']|] eqn:E; [|done]. destruct (decide (k' = k)) as [->|Hne].
    - rewrite lookup_insert_eq. f_equal. apply (Hu y); [by left|done].
    - by rewrite lookup_insert_ne. }
  apply Hkeep; [intros y v' Hy; apply Hu; rewrite elem_of_app, elem_of_cons; tauto|].
  unfold put. rewrite Hg. apply lookup_insert_eq.
Qed.

Lemma puts_sound l m k v : foldl put m l !! k = Some v -> (exists x, x ∈ l /\ g x = Some (k, v)) \/ m !! k = Some v.
Proof.
  revert m. induction l as [|x l IH]; intros m; cbn; [by right|]. intros [(y & Hy & Hg)|Hm]%IH; [left; exists y; by split; [right|]|].
  unfold put in Hm. destruct (g x) as [[k' v']|] eqn:E; [|by right].
  apply lookup_insert_Some in Hm as [[<- <-]|[_ Hm]]; [left; exists x; by split; [left|]|by right].
Qed.

(** Entries that all come from a map, and every entry of the map, write the map. *)
Lemma puts_map l (m : gmap K V) :
  (forall x k v, x ∈ l -> g x = Some (k, v) -> m !! k = Some v) -> (forall k v, m !! k = Some v -> exists x, x ∈ l /\ g x = Some (k, v)) ->
  foldl put ∅ l = m.
Proof.
  intros Hin Hout. apply map_eq. intros k. destruct (m !! k) as [v|] eqn:E.
  - apply puts_some; [by apply Hout|]. intros x v' Hx Hg. apply Hin in Hg; [congruence|done].
  - rewrite puts_none; [apply lookup_empty|]. intros x v Hx Hg. apply Hin in Hg; [congruence|done].
Qed.
End puts.

(** A field that every record of a list writes by itself. *)
Lemma replay_puts `{Countable K} {V} (field : FleetLedgerState -> gmap K V) (g : FleetLedgerRecord -> option (K * V)) rs s :
  (forall s r, r ∈ rs -> field (apply_record s r) = put g (field s) r) -> field (replay s rs) = foldl (put g) (field s) rs.
Proof.
  revert s. induction rs as [|r rs IH]; intros s Hf; [done|]. cbn. unfold replay in IH. rewrite IH.
  - rewrite Hf by (by left). done.
  - intros s' r' Hr'. apply Hf. by right.
Qed.

(** A field that no record of a list writes. *)
Lemma replay_frame {T} (field : FleetLedgerState -> T) rs s :
  (forall s r, r ∈ rs -> field (apply_record s r) = field s) -> field (replay s rs) = field s.
Proof.
  revert s. induction rs as [|r rs IH]; intros s Hf; [done|]. cbn. unfold replay in IH. rewrite IH.
  - apply Hf. by left.
  - intros s' r' Hr'. apply Hf. by right.
Qed.

Lemma events_frame {T} (field : FleetLedgerState -> T) es s :
  (forall s e, field (apply_event s e) = field s) -> field (foldl apply_event s es) = field s.
Proof. intros Hf. revert s. induction es as [|e es IH]; intros s; [done|]. cbn. by rewrite IH. Qed.

(** ** The fields an event leaves alone *)

Lemma event_frame s e :
  runs (apply_event s e) = runs s /\ run_status_overrides (apply_event s e) = run_status_overrides s
  /\ heartbeats (apply_event s e) = heartbeats s /\ receipts (apply_event s e) = receipts s /\ alerts (apply_event s e) = alerts s.
Proof.
  unfold apply_event, derive_status. destruct (_ && _); destruct (newer _ _); try by split_and!.
  all: destruct (terminal_status (payload e)), (worker_status (payload e)); by split_and!.
Qed.

Definition artifact_put (e : FleetWorkerEvent) : option (str * FleetWorkerEvent) :=
  match payload e with EvArtifact a => Some (artifact_event_key e a, e) | _ => None end.
Definition restarted_put (e : FleetWorkerEvent) : option (str * FleetWorkerEvent) :=
  match payload e with EvRestarted _ => Some (key_of_event e, e) | _ => None end.
Definition escalated_put (e : FleetWorkerEvent) : option (str * FleetWorkerEvent) :=
  match payload e with EvEscalated _ _ => Some (key_of_event e, e) | _ => None end.

Lemma event_puts s e :
  artifact_events (apply_event s e) = put artifact_put (artifact_events s) e
  /\ restarted_events (apply_event s e) = put restarted_put (restarted_events s) e
  /\ escalated_events (apply_event s e) = put escalated_put (escalated_events s) e.
Proof.
  unfold apply_event, derive_status, put, artifact_put, restarted_put, escalated_put.
  destruct (_ && _); destruct (newer _ _); destruct (payload e); by split_and!.
Qed.

Lemma events_puts es s :
  artifact_events (foldl apply_event s es) = foldl (put artifact_put) (artifact_events s) es
  /\ restarted_events (foldl apply_event s es) = foldl (put restarted_put) (restarted_events s) es
  /\ escalated_events (foldl apply_event s es) = foldl (put escalated_put) (escalated_events s) es.
Proof.
  revert s. induction es as [|e es IH]; intros s; [done|]. cbn. destruct (IH (apply_event s e)) as (-> & -> & ->).
  destruct (event_puts s e) as (-> & -> & ->). done.
Qed.

Lemma events_tasks es s : tasks (foldl apply_event s es) = foldl (fun m e => event_tasks e m) (tasks s) es.
Proof. revert s. induction es as [|e es IH]; intros s; [done|]. cbn. by rewrite IH, tasks_apply_event. Qed.

(** ** Sequence numbers and latest events *)

(** What an event does to the entry of a key. *)
Lemma event_latest_other s e k : key_of_event e <> k ->
  latest_seq (apply_event s e) !! k = latest_seq s !! k /\ latest_events (apply_event s e) !! k = latest_events s !! k.
Proof.
  intros Hne. unfold apply_event, derive_status. destruct (_ && _); destruct (newer _ _); try done.
  all: destruct (terminal_status (payload e)), (worker_status (payload e)); cbn; by rewrite ?lookup_insert_ne.
Qed.

Lemma event_latest_seq s e :
  latest_seq (apply_event s e) !! key_of_event e =
    Some (match latest_seq s !! key_of_event e with Some m => Z.max m (seq e) | None => seq e end).
Proof.
  assert (E : latest_seq (apply_event s e) = if newer s e then <[key_of_event e := seq e]> (latest_seq s) else latest_seq s).
  { unfold apply_event, derive_status. change (newer (on_owners _ s) e) with (newer s e). destruct (_ && _); destruct (newer s e); try done.
    all: by destruct (terminal_status (payload e)), (worker_status (payload e)). }
  rewrite E. unfold newer. destruct (latest_seq s !! key_of_event e) as [m|] eqn:Em; [|by rewrite lookup_insert_eq].
  destruct (Z.ltb_spec m (seq e)); [rewrite lookup_insert_eq|rewrite Em]; f_equal; lia.
Qed.

Lemma event_latest_stale s e : newer s e = false ->
  latest_events (apply_event s e) = latest_events s.
Proof.
  intros Hn. unfold apply_event, derive_status. change (newer (on_owners _ s) e) with (newer s e). rewrite Hn. destruct (_ && _); try done.
  all: by destruct (terminal_status (payload e)), (worker_status (payload e)).
Qed.

(** Events of a key up to a bound. *)
Definition bounded_by (k : str) (n : Z) (es : list FleetWorkerEvent) : Prop := forall e, e ∈ es -> key_of_event e = k -> seq e <= n.

Definition seq_at_most (s : FleetLedgerState) (k : str) (n : Z) : Prop := forall m, latest_seq s !! k = Some m -> m <= n.

Lemma events_seq_at_most es s k n : bounded_by k n es -> seq_at_most s k n -> seq_at_most (foldl apply_event s es) k n.
Proof.
  revert s. induction es as [|e es IH]; intros s Hb Hs; [done|]. cbn. apply IH; [intros x Hx; apply Hb; by right|]. intros m Hm.
  destruct (decide (key_of_event e = k)) as [Hk|Hk].
  - rewrite <-Hk, event_latest_seq in Hm. injection Hm as <-. pose proof (Hb e ltac:(by left) Hk).
    destruct (latest_seq s !! key_of_event e) as [m|] eqn:E; [|done]. rewrite Hk in E. pose proof (Hs m E). lia.
  - rewrite (proj1 (event_latest_other s e k Hk)) in Hm. by apply Hs.
Qed.

(** Later events of the key that are not newer keep the latest one. *)
Lemma events_latest_keep es s k n x :
  bounded_by k n es -> latest_seq s !! k = Some n -> latest_events s !! k = Some x -> latest_events (foldl apply_event s es) !! k = Some x.
Proof.
  revert s. induction es as [|e es IH]; intros s Hb Hn Hx; [done|]. cbn. apply IH; [intros y Hy; apply Hb; by right| |];
    (destruct (decide (key_of_event e = k)) as [Hk|Hk]; [|by rewrite ?(proj1 (event_latest_other s e k Hk)), ?(proj2 (event_latest_other s e k Hk))]);
    pose proof (Hb e ltac:(by left) Hk) as Hle.
  - rewrite <-Hk, event_latest_seq, Hk, Hn. f_equal. lia.
  - rewrite event_latest_stale; [done|]. unfold newer. rewrite Hk, Hn. apply Z.ltb_ge. lia.
Qed.

Lemma split_first {A} (p : A -> bool) l x :
  x ∈ l -> p x = true -> exists l1 y l2, l = l1 ++ y :: l2 /\ p y = true /\ forall z, z ∈ l1 -> p z = false.
Proof.
  intros Hx Hp. induction l as [|y l IH]; [by apply not_elem_of_nil in Hx|]. destruct (p y) eqn:E.
  - exists [], y, l. split_and!; [done|done|]. by intros z ?%not_elem_of_nil.
  - apply elem_of_cons in Hx as [->|Hx]; [congruence|]. destruct (IH Hx) as (l1 & z & l2 & -> & Hz & Hl1). exists (y :: l1), z, l2.
    split_and!; [done|done|]. intros u [->|Hu]%elem_of_cons; auto.
Qed.

(** ** The events a compaction retains *)

Lemma elem_of_flat_map_values {V B} (f : V -> list B) (m : gmap str V) b :
  b ∈ flat_map f (btree_values m) <-> exists k v, m !! k = Some v /\ b ∈ f v.
Proof.
  rewrite list_elem_of_In, in_flat_map. split.
  - intros (v & Hv & Hb). apply list_elem_of_In, elem_of_btree_values in Hv as [k Hk]. apply list_elem_of_In in Hb. by exists k, v.
  - intros (k & v & Hk & Hb). exists v. rewrite <-!list_elem_of_In. split; [|done]. apply elem_of_btree_values. by exists k.
Qed.

Inductive stored (s : FleetLedgerState) (e : FleetWorkerEvent) : Prop :=
  | stored_latest k : latest_events s !! k = Some e -> stored s e
  | stored_artifact k : artifact_events s !! k = Some e -> stored s e
  | stored_restarted k : restarted_events s !! k = Some e -> stored s e
  | stored_escalated k : escalated_events s !! k = Some e -> stored s e.

Lemma stored_retained s e : stored s e -> retained s e.
Proof. intros [k Hk|k Hk|k Hk|k Hk]; [by eapply retained_latest|by eapply retained_artifact|by eapply retained_restarted|by eapply retained_escalated]. Qed.

Definition compact_put (e : FleetWorkerEvent) : option (str * FleetWorkerEvent) := Some (compact_event_key e, e).

Definition stored_list (s : FleetLedgerState) : list FleetWorkerEvent :=
  btree_values (latest_events s) ++ btree_values (artifact_events s) ++ btree_values (restarted_events s) ++ btree_values (escalated_events s).

Lemma elem_of_stored_list s e : e ∈ stored_list s <-> stored s e.
Proof.
  unfold stored_list. rewrite !elem_of_app, !elem_of_btree_values. split.
  - intros [[k Hk]|[[k Hk]|[[k Hk]|[k Hk]]]]; [by eapply stored_latest|by eapply stored_artifact|by eapply stored_restarted|by eapply stored_escalated].
  - intros [k Hk|k Hk|k Hk|k Hk]; [left|right; left|right; right; left|right; right; right]; by exists k.
Qed.

Lemma compacted_events_list s : compacted_events s = stable_sort event_le (btree_values (foldl (put compact_put) ∅ (stored_list s))).
Proof. unfold compacted_events, stored_list, insert_events. by rewrite !foldl_app. Qed.

Lemma display_u_inj' a b : 0 <= a -> 0 <= b -> display_u a = display_u b -> a = b.
Proof. apply display_u_inj. Qed.

Lemma events_on_alerts f es y : foldl apply_event (on_alerts f y) es = on_alerts f (foldl apply_event y es).
Proof. revert y. induction es as [|e es IH]; intros y; [done|]. cbn. by rewrite apply_event_on_alerts, IH. Qed.

(** ** The tasks, one key at a time *)

(** The task a record writes, and what it makes of it. *)
Definition task_fun (r : FleetLedgerRecord) : option (str * (option FleetTaskState -> option FleetTaskState)) :=
  let ends e := match terminal_status (payload e) with
                | Some st => fmap (mark_terminal (ev_worker_id e) (ev_timestamp e) st)
                | None => id
                end in
  match r with
  | TaskEnqueued e => Some (task_key (entry_run_id e) (entry_task_id e), fun o => Some (default (new_task e) o))
  | TaskLeased run_id task_id w leased_at expires => Some (task_key run_id task_id, fmap (lease w leased_at expires))
  | TaskCompletedOrFailed run_id task_id w timestamp st => Some (task_key run_id task_id, fmap (mark_terminal w timestamp st))
  | TaskLifecycleCheckpoint run_id task_id n => Some (task_key run_id task_id, fmap (checkpoint n))
  | TaskAttemptFinalized e final _ =>
      Some (task_key_of_event e,
            fun o => match final with Some st => mark_terminal (ev_worker_id e) (ev_timestamp e) st <$> ends e o | None => ends e o end)
  | EventAppended e => match terminal_status (payload e) with Some _ => Some (task_key_of_event e, ends e) | None => None end
  | RunCreated _ | RunStatusChanged _ _ _ | EventSequenceCheckpoint _ _ _ _ | Heartbeat _ _ _ _ | ReceiptRecorded _
  | AlertSent _ _ _ _ _ _ _ => None
  end.

Definition task_step (k : str) (o : option FleetTaskState) (r : FleetLedgerRecord) : option FleetTaskState :=
  match task_fun r with Some (k', f) => if decide (k' = k) then f o else o | None => o end.

Lemma alter_step (f : FleetTaskState -> FleetTaskState) (k' k : str) (m : gmap str FleetTaskState) :
  alter f k' m !! k = if decide (k' = k) then f <$> m !! k else m !! k.
Proof. case_decide as E; [subst; apply lookup_alter_eq|by apply lookup_alter_ne]. Qed.

Lemma record_task_step r m k : record_tasks r m !! k = task_step k (m !! k) r.
Proof.
  destruct r; cbn; try done; try apply alter_step.
  - unfold task_step. cbn. case_decide as Hs; case_decide as Hk; subst; try done.
    + by destruct Hs as [t ->].
    + rewrite lookup_insert_eq. destruct (m !! _) eqn:E; [|done]. destruct Hs. by eexists.
    + by apply lookup_insert_ne.
  - unfold event_tasks, task_step. cbn. destruct (terminal_status _), final_status; rewrite ?alter_step; unfold task_key_of_event; by case_decide.
  - unfold event_tasks, task_step. cbn. destruct (terminal_status _); [apply alter_step|done].
Qed.

Lemma replay_task_step rs s k : tasks (replay s rs) !! k = foldl (task_step k) (tasks s !! k) rs.
Proof. revert s. induction rs as [|r rs IH]; intros s; [done|]. rewrite replay_cons, IH, tasks_apply_record, record_task_step. done. Qed.

Lemma task_step_skip k rs o : (forall r f, r ∈ rs -> task_fun r <> Some (k, f)) -> foldl (task_step k) o rs = o.
Proof.
  induction rs as [|r rs IH]; intros Hn; [done|]. cbn.
  assert (E : task_step k o r = o).
  { unfold task_step. destruct (task_fun r) as [[k' f]|] eqn:E; [|done]. case_decide; [|done]. subst. by destruct (Hn r f ltac:(by left)). }
  rewrite E. apply IH. intros r' f Hr'. apply Hn. by right.
Qed.

Lemma mark_terminal_idem w ts st t : mark_terminal w ts st (mark_terminal w ts st t) = mark_terminal w ts st t.
Proof. unfold mark_terminal. cbn. rewrite decide_True by done. f_equal. by destruct (str_is_empty w). Qed.

(** Records that all do the same idempotent thing to a task, if any of them does. *)
Lemma task_step_idem k rs (h : option FleetTaskState -> option FleetTaskState) o :
  (forall x, h (h x) = h x) -> (forall r k' f, r ∈ rs -> task_fun r = Some (k', f) -> k' = k -> forall x, f x = h x) ->
  foldl (task_step k) o rs = o \/ foldl (task_step k) o rs = h o.
Proof.
  intros Hh. revert o. induction rs as [|r rs IH]; intros o Hf; [by left|]. cbn.
  assert (E : task_step k o r = o \/ task_step k o r = h o).
  { unfold task_step. destruct (task_fun r) as [[k' f]|] eqn:E; [|by left]. case_decide; [|by left]. right. by eapply Hf; [left|..]. }
  assert (IH' := fun o => IH o (fun r k' f Hr => Hf r k' f (list_elem_of_further _ _ _ Hr))).
  destruct E as [-> | ->]; [apply IH'|]. right. destruct (IH' (h o)) as [-> | ->]; [done|apply Hh].
Qed.

(** Of the lists made from several tasks, one writes the task. *)
Lemma task_step_flat_map {A} k (f : A -> list FleetLedgerRecord) l a o :
  NoDup l -> a ∈ l -> (forall b r g, b ∈ l -> b <> a -> r ∈ f b -> task_fun r <> Some (k, g)) ->
  foldl (task_step k) o (flat_map f l) = foldl (task_step k) o (f a).
Proof.
  intros Hnd Ha Hf. apply list_elem_of_split in Ha as (l1 & l2 & ->).
  assert (Hskip : forall l' x, (forall b, b ∈ l' -> b ∈ l1 ++ a :: l2 /\ b <> a) -> foldl (task_step k) x (flat_map f l') = x).
  { intros l' x Hl'. apply task_step_skip. intros r g Hr. apply list_elem_of_In, in_flat_map in Hr as (b & Hb & Hr).
    apply list_elem_of_In in Hb, Hr. destruct (Hl' b Hb) as [Hin Hne]. by apply (Hf b r g). }
  apply NoDup_app in Hnd as (_ & H1 & H2). apply NoDup_cons in H2 as [H2 _].
  rewrite flat_map_app. cbn. rewrite !foldl_app, !Hskip; [done|..].
  - intros b Hb. split; [rewrite elem_of_app; tauto|]. intros ->. apply (H1 a Hb). by left.
  - intros b Hb. split; [rewrite elem_of_app, elem_of_cons; tauto|]. by intros ->.
Qed.

Section compact.
Context {n : Z} {s : FleetLedgerState} (HG : Good n s).

Lemma compact_key_inj e e' : retained s e -> retained s e' -> compact_event_key e = compact_event_key e' -> e = e'.
Proof using HG.
  pose proof (good_inv _ _ HG) as HI. intros He He' Hk.
  destruct (retained_worker HI e He) as [[Hw _] _], (retained_worker HI e' He') as [[Hw' _] _].
  destruct (retained_named HI e He), (retained_named HI e' He').
  destruct (inv_event _ _ HI e He) as (_ & m & _ & _ & _ & Hm), (inv_event _ _ HI e' He') as (_ & m' & _ & _ & _ & Hm').
  unfold compact_event_key in Hk. apply key_suffix_inj in Hk as [Hk Hs]; [|done..].
  apply display_u_inj in Hs; [|lia..]. by apply (inv_unique _ _ HI).
Qed.

Lemma elem_of_compacted e : e ∈ compacted_events s <-> stored s e.
Proof using HG.
  rewrite compacted_events_list, stable_sort_perm, elem_of_btree_values. split.
  - intros [k Hk]. apply puts_sound in Hk as [(x & Hx & [= <- <-])|Hk]; [by apply elem_of_stored_list|by rewrite lookup_empty in Hk].
  - intros He. exists (compact_event_key e). apply puts_some; [exists e; by split; [apply elem_of_stored_list|]|].
    intros x v' Hx [= Hk <-]. apply elem_of_stored_list in Hx. apply compact_key_inj; [by apply stored_retained..|done].
Qed.

(** *** The runs and the tasks *)

Definition run_put (r : FleetLedgerRecord) : option (str * FleetRun) := match r with RunCreated run => Some (run_id run, run) | _ => None end.
Definition override_put (r : FleetLedgerRecord) : option (str * FleetRunStatus) :=
  match r with RunStatusChanged run_id st _ => Some (run_id, st) | _ => None end.
Definition heartbeat_put (r : FleetLedgerRecord) : option (str * FleetHeartbeatState) :=
  match r with Heartbeat w ts c m => Some (w, {| hb_timestamp := ts; hb_cpu_percent := c; hb_memory_mb := m |}) | _ => None end.
Definition receipt_put (r : FleetLedgerRecord) : option (str * FleetReceipt) :=
  match r with
  | ReceiptRecorded rc | TaskAttemptFinalized _ _ rc => Some (task_key (receipt_run_id rc) (receipt_task_id rc), rc)
  | _ => None
  end.

Lemma record_puts x r :
  runs (apply_record x r) = put run_put (runs x) r
  /\ run_status_overrides (apply_record x r) = put override_put (run_status_overrides x) r
  /\ heartbeats (apply_record x r) = put heartbeat_put (heartbeats x) r
  /\ receipts (apply_record x r) = put receipt_put (receipts x) r.
Proof.
  destruct r; cbn; try by split_and!.
  - by case_decide.
  - destruct (event_frame x event) as (E1 & E2 & E3 & E4 & _). destruct final_status; cbn; by rewrite E1, E2, E3, E4.
  - destruct (event_frame x event) as (E1 & E2 & E3 & E4 & _). by rewrite E1, E2, E3, E4.
  - unfold apply_heartbeat. by case_decide.
  - case_decide; [by split_and!|]. destruct worker_id as [w|], seq as [m|]; try by split_and!.
    rewrite apply_event_on_alerts. cbn. set (ev := escalation _ _ _ _ _ _). destruct (event_frame x ev) as (E1 & E2 & E3 & E4 & _). by rewrite E1, E2, E3, E4.
Qed.

(** Where a record of a compaction comes from. *)
Inductive origin (r : FleetLedgerRecord) : Prop :=
  | origin_run k run : runs s !! k = Some run -> r ∈ run_records s run -> origin r
  | origin_task k t : tasks s !! k = Some t -> r ∈ task_records t ++ terminal_records t ++ [lifecycle_record t] -> origin r
  | origin_alert a : a ∈ alert_values s -> r = alert_record a -> origin r
  | origin_event e : stored s e -> r = EventAppended e -> origin r
  | origin_sequence k m o : sequence_owners s !! k = Some o -> latest_seq s !! k = Some m ->
      r = EventSequenceCheckpoint (owner_run_id o) (owner_worker_id o) (owner_task_id o) m -> origin r
  | origin_heartbeat w hb : heartbeats s !! w = Some hb -> r = Heartbeat w (hb_timestamp hb) (hb_cpu_percent hb) (hb_memory_mb hb) -> origin r
  | origin_receipt k rc : receipts s !! k = Some rc -> r = ReceiptRecorded rc -> origin r.

Lemma elem_of_sequence_records r : r ∈ sequence_records s <->
  exists k m o, sequence_owners s !! k = Some o /\ latest_seq s !! k = Some m
    /\ r = EventSequenceCheckpoint (owner_run_id o) (owner_worker_id o) (owner_task_id o) m.
Proof.
  unfold sequence_records. rewrite list_elem_of_omap. split.
  - intros ([k m] & Hin & (o & Ho & [= <-])%bind_Some). apply elem_of_btree_entries in Hin. by exists k, m, o.
  - intros (k & m & o & Ho & Hm & ->). exists (k, m). split; [by apply elem_of_btree_entries|]. cbn. by rewrite Ho.
Qed.

Lemma elem_of_compact r : r ∈ compact s -> origin r.
Proof using HG.
  unfold compact. rewrite !elem_of_app, !elem_of_flat_map_values, elem_of_sequence_records, !list_elem_of_fmap.
  intros [(k & run & Hk & Hr)|[(k & t & Hk & Hr)|[(a & -> & Ha)|[(e & -> & He)|[(k & m & o & Ho & Hm & ->)|[([w hb] & -> & Hw)|[(k & t & Hk & Hr)|[(t & -> & Hv)|(rc & -> & Hv)]]]]]]]].
  - by eapply origin_run.
  - eapply origin_task; [done|]. rewrite !elem_of_app. by left.
  - by eapply origin_alert.
  - apply elem_of_compacted in He. by eapply origin_event.
  - by eapply origin_sequence.
  - apply elem_of_btree_entries in Hw. by eapply origin_heartbeat.
  - eapply origin_task; [done|]. rewrite !elem_of_app. by right; left.
  - apply elem_of_btree_values in Hv as [k Hk]. eapply origin_task; [done|]. rewrite !elem_of_app. right; right. by left.
  - apply elem_of_btree_values in Hv as [k Hk]. by eapply origin_receipt.
Qed.

Lemma elem_of_task_lines t r : r ∈ task_records t ++ terminal_records t ++ [lifecycle_record t] ->
  match r with TaskEnqueued _ | TaskLeased _ _ _ _ _ | TaskCompletedOrFailed _ _ _ _ _ | TaskLifecycleCheckpoint _ _ _ => True | _ => False end.
Proof.
  unfold task_records, terminal_records, lifecycle_record. rewrite !elem_of_app, elem_of_cons, list_elem_of_singleton.
  intros [[->|H]|[H| ->]]; try done.
  - destruct (leased_to t); [apply list_elem_of_singleton in H as ->; done|by apply not_elem_of_nil in H].
  - destruct (is_terminal _); [apply list_elem_of_singleton in H as ->; done|by apply not_elem_of_nil in H].
Qed.

Lemma elem_of_run_lines run r : r ∈ run_records s run ->
  r = RunCreated run \/ exists st, run_status_overrides s !! run_id run = Some st /\ r = RunStatusChanged (run_id run) st (default [] (updated_at run)).
Proof.
  unfold run_records. rewrite elem_of_cons. intros [->|H]; [by left|right].
  destruct (run_status_overrides s !! run_id run) as [st|]; [apply list_elem_of_singleton in H as ->; by exists st|by apply not_elem_of_nil in H].
Qed.

(** The status changes of known runs. *)
Definition known_overrides : gmap str FleetRunStatus :=
  filter (fun p : str * FleetRunStatus => is_Some (runs s !! p.1)) (run_status_overrides s).

Lemma compact_simple_fields :
  let s' := replay empty_state (compact s) in
  runs s' = runs s /\ run_status_overrides s' = known_overrides /\ heartbeats s' = heartbeats s /\ receipts s' = receipts s.
Proof using HG.
  pose proof (good_inv _ _ HG) as HI. cbv zeta. split_and!.
  - rewrite (replay_puts runs run_put) by (intros x r _; apply record_puts). apply puts_map.
    + intros r k v Hr Hg. destruct (elem_of_compact r Hr) as [j run Hj Hin|j t _ Hin|a _ ->|e _ ->|j m o _ _ ->|w hb _ ->|j rc _ ->]; try done.
      * apply elem_of_run_lines in Hin as [->|(st & _ & ->)]; [|done]. injection Hg as <- <-. by rewrite <-(inv_runs _ _ HI j run Hj).
      * apply elem_of_task_lines in Hin. by destruct r.
    + intros k v Hk. exists (RunCreated v). split; [|cbn; by rewrite <-(inv_runs _ _ HI k v Hk)].
      unfold compact. rewrite elem_of_app, elem_of_flat_map_values. left. exists k, v. split; [done|]. by left.
  - rewrite (replay_puts run_status_overrides override_put) by (intros x r _; apply record_puts). apply puts_map.
    + intros r k v Hr Hg. destruct (elem_of_compact r Hr) as [j run Hj Hin|j t _ Hin|a _ ->|e _ ->|j m o _ _ ->|w hb _ ->|j rc _ ->]; try done.
      * apply elem_of_run_lines in Hin as [->|(st & Hst & ->)]; [done|]. injection Hg as <- <-. apply map_lookup_filter_Some.
        split; [done|]. rewrite <-(inv_runs _ _ HI j run Hj) by done. by exists run.
      * apply elem_of_task_lines in Hin. by destruct r.
    + intros k v [Hk [run Hrun]]%map_lookup_filter_Some. cbn in Hrun. pose proof (inv_runs _ _ HI k run Hrun) as ->.
      exists (RunStatusChanged (run_id run) v (default [] (updated_at run))). split; [|done].
      unfold compact. rewrite elem_of_app, elem_of_flat_map_values. left. exists (run_id run), run. split; [done|].
      unfold run_records. replace (run_status_overrides s !! run_id run) with (Some v) by (symmetry; exact Hk). right. by left.
  - rewrite (replay_puts heartbeats heartbeat_put) by (intros x r _; apply record_puts). apply puts_map.
    + intros r k v Hr Hg. destruct (elem_of_compact r Hr) as [j run Hj Hin|j t _ Hin|a _ ->|e _ ->|j m o _ _ ->|w hb Hw ->|j rc _ ->]; try done.
      * apply elem_of_run_lines in Hin as [->|(st & _ & ->)]; done.
      * apply elem_of_task_lines in Hin. by destruct r.
      * injection Hg as <- <-. by destruct hb.
    + intros w hb Hw. exists (Heartbeat w (hb_timestamp hb) (hb_cpu_percent hb) (hb_memory_mb hb)). split; [|by destruct hb].
      unfold compact. rewrite !elem_of_app. do 5 right. left. apply list_elem_of_fmap. exists (w, hb). split; [done|]. by apply elem_of_btree_entries.
  - rewrite (replay_puts receipts receipt_put) by (intros x r _; apply record_puts). apply puts_map.
    + intros r k v Hr Hg. destruct (elem_of_compact r Hr) as [j run Hj Hin|j t _ Hin|a _ ->|e _ ->|j m o _ _ ->|w hb Hw ->|j rc Hj ->]; try done.
      * apply elem_of_run_lines in Hin as [->|(st & _ & ->)]; done.
      * apply elem_of_task_lines in Hin. by destruct r.
      * injection Hg as <- <-. by rewrite <-(inv_receipt _ _ HI j rc Hj).
    + intros k rc Hk. exists (ReceiptRecorded rc). split; [|cbn; by rewrite <-(inv_receipt _ _ HI k rc Hk)].
      unfold compact. rewrite !elem_of_app. do 8 right. apply list_elem_of_fmap. exists rc. split; [done|]. apply elem_of_btree_values. by exists k.
Qed.

(** *** The alerts *)

Definition key_of_alert (a : FleetLedgerAlert) : AlertKey := alert_key (alert_run_id a) (alert_task_id a) (alert_attempt a) (alert_channel a).
Definition alert_put (a : FleetLedgerAlert) : option (AlertKey * FleetLedgerAlert) := Some (key_of_alert a, a).

Definition alert_event (a : FleetLedgerAlert) : FleetWorkerEvent :=
  escalation (alert_run_id a) (alert_task_id a) (alert_channel a) (alert_timestamp a) (default [] (alert_worker_id a)) (default 0 (alert_seq a)).

Lemma elem_of_alert_values a : a ∈ alert_values s <-> exists k, alerts s !! k = Some a.
Proof.
  unfold alert_values. rewrite list_elem_of_fmap. setoid_rewrite stable_sort_perm. split.
  - intros ([k b] & -> & Hin). apply elem_of_map_to_list in Hin. by exists k.
  - intros [k Hk]. exists (k, a). split; [done|]. by apply elem_of_map_to_list.
Qed.

Lemma alert_facts a : a ∈ alert_values s -> alerts s !! key_of_alert a = Some a /\ is_Some (alert_attempt a) /\ escalation_of a (alert_event a).
Proof using HG.
  intros [k Hk]%elem_of_alert_values. destruct (inv_alert _ _ (good_inv _ _ HG) k a Hk) as (-> & Hat & e & He & _).
  split_and!; [done|done|]. destruct He as (w & m & Hw & Hm & _). exists w, m. unfold alert_event. by rewrite Hw, Hm.
Qed.

Lemma alert_values_keys : NoDup (key_of_alert <$> alert_values s).
Proof using HG.
  assert (E : key_of_alert <$> alert_values s = (stable_sort (fun p q => alert_key_le p.1 q.1) (map_to_list (alerts s))).*1).
  { unfold alert_values. rewrite <-list_fmap_compose. apply list_fmap_ext. intros i [k a] Hi. apply list_elem_of_lookup_2 in Hi.
    rewrite stable_sort_perm in Hi. apply elem_of_map_to_list in Hi. cbn. by destruct (inv_alert _ _ (good_inv _ _ HG) k a Hi) as (-> & _). }
  rewrite E, stable_sort_perm. apply NoDup_fst_map_to_list.
Qed.

(** Replaying the alerts files them and applies their escalations. *)
Lemma replay_alerts l x :
  (forall a, a ∈ l -> a ∈ alert_values s) -> NoDup (key_of_alert <$> l) -> (forall a, a ∈ l -> alerts x !! key_of_alert a = None) ->
  replay x (alert_record <$> l) = on_alerts (fun m => foldl (put alert_put) m l) (foldl apply_event x (alert_event <$> l)).
Proof using HG.
  revert x. induction l as [|a l IH]; intros x Hin Hnd Hnew; [by destruct x|].
  rewrite fmap_cons in Hnd. apply NoDup_cons in Hnd as [Ha Hnd].
  rewrite !fmap_cons, replay_cons. destruct (alert_facts a (Hin a ltac:(by left))) as (_ & [n' Hat] & (w & m & Hw & Hm & _)).
  assert (E : apply_record x (alert_record a) = on_alerts (fun mm => put alert_put mm a) (apply_event x (alert_event a))).
  { unfold alert_record, alert_event. rewrite Hat, Hw, Hm. cbn. rewrite decide_False.
    - rewrite apply_event_on_alerts. unfold put, alert_put, key_of_alert. rewrite Hat. destruct a; cbn in *. by subst.
    - pose proof (Hnew a ltac:(by left)) as E. unfold key_of_alert in E. rewrite Hat in E. rewrite E. by intros []. }
  rewrite E, IH; [|intros b Hb; apply Hin; by right|done|].
  - cbn [foldl]. by rewrite events_on_alerts.
  - intros b Hb. cbn. unfold put, alert_put. rewrite (proj2 (proj2 (proj2 (proj2 (event_frame x _))))).
    rewrite lookup_insert_ne by (intros Hk; apply Ha; rewrite Hk; by apply list_elem_of_fmap_2). apply Hnew. by right.
Qed.

Lemma alert_puts : foldl (put alert_put) ∅ (alert_values s) = alerts s.
Proof using HG.
  apply puts_map.
  - intros a k v Ha [= <- <-]. by apply alert_facts.
  - intros k a Hk. exists a. split; [apply elem_of_alert_values; by exists k|]. unfold alert_put.
    by destruct (inv_alert _ _ (good_inv _ _ HG) k a Hk) as (-> & _).
Qed.

(** *** The state the compaction rebuilds, in three parts *)

Definition opening : list FleetLedgerRecord := flat_map (run_records s) (btree_values (runs s)) ++ flat_map task_records (btree_values (tasks s)).
Definition all_events : list FleetWorkerEvent := (alert_event <$> alert_values s) ++ compacted_events s.
Definition closing : list FleetLedgerRecord :=
  sequence_records s
  ++ ((fun p : str * FleetHeartbeatState => Heartbeat p.1 (hb_timestamp p.2) (hb_cpu_percent p.2) (hb_memory_mb p.2))
        <$> btree_entries (heartbeats s))
  ++ flat_map terminal_records (btree_values (tasks s))
  ++ (lifecycle_record <$> btree_values (tasks s))
  ++ (ReceiptRecorded <$> btree_values (receipts s)).

Lemma opening_frame :
  let x := replay empty_state opening in
  alerts x = ∅ /\ latest_seq x = ∅ /\ sequence_owners x = ∅ /\ latest_events x = ∅ /\ artifact_events x = ∅ /\ restarted_events x = ∅
  /\ escalated_events x = ∅.
Proof.
  assert (Hr : forall r, r ∈ opening -> forall x, let y := apply_record x r in
             alerts y = alerts x /\ latest_seq y = latest_seq x /\ sequence_owners y = sequence_owners x /\ latest_events y = latest_events x
             /\ artifact_events y = artifact_events x /\ restarted_events y = restarted_events x /\ escalated_events y = escalated_events x).
  { intros r Hr x. unfold opening in Hr. rewrite elem_of_app, !elem_of_flat_map_values in Hr. destruct Hr as [(k & run & _ & Hr)|(k & t & _ & Hr)].
    - apply elem_of_run_lines in Hr as [->|(st & _ & ->)]; by split_and!.
    - unfold task_records in Hr. rewrite elem_of_cons in Hr. destruct Hr as [->|Hr]; [cbn; by case_decide|].
      destruct (leased_to t); [apply list_elem_of_singleton in Hr as ->; by split_and!|by apply not_elem_of_nil in Hr]. }
  cbv zeta. split_and!; rewrite replay_frame; try done; intros x r Hin; by apply (Hr r Hin x).
Qed.

Lemma compact_parts :
  replay empty_state (compact s) = replay (on_alerts (fun _ => alerts s) (foldl apply_event (replay empty_state opening) all_events)) closing.
Proof using HG.
  assert (E : compact s = opening ++ (alert_record <$> alert_values s) ++ (EventAppended <$> compacted_events s) ++ closing).
  { unfold compact, opening, closing. by rewrite <-!app_assoc. }
  rewrite E, !replay_app. f_equal. destruct opening_frame as (Ea & _).
  rewrite replay_alerts by (done || apply alert_values_keys || (intros a _; rewrite Ea; apply lookup_empty)).
  assert (Hev : forall es y, replay y (EventAppended <$> es) = foldl apply_event y es) by (induction es as [|e es IH]; intros y; [done|apply IH]).
  rewrite Hev, events_on_alerts. unfold all_events. rewrite foldl_app.
  assert (Hal : alerts (foldl apply_event (foldl apply_event (replay empty_state opening) (alert_event <$> alert_values s)) (compacted_events s)) = ∅).
  { rewrite !events_frame; [done|apply event_frame..]. }
  unfold on_alerts. f_equal. rewrite Hal. apply alert_puts.
Qed.

Lemma all_events_retained e : e ∈ all_events -> retained s e.
Proof using HG.
  unfold all_events. rewrite elem_of_app, list_elem_of_fmap. intros [(a & -> & Ha)|He%elem_of_compacted].
  - destruct (alert_facts a Ha) as (Hk & _ & He). by eapply retained_alert.
  - by apply stored_retained.
Qed.

(** *** The events that are kept *)

Lemma retained_artifact_put e k v : retained s e -> artifact_put e = Some (k, v) -> artifact_events s !! k = Some v.
Proof using HG.
  pose proof (good_inv _ _ HG) as HI. unfold artifact_put. intros He Hp. destruct (payload e) eqn:Ep; try done.
  injection Hp as <- <-. destruct He as [j Hj|j Hj|j Hj|j Hj|j b Hj (w & m & _ & _ & ->)].
  - destruct (inv_latest _ _ HI j e Hj) as (_ & _ & Hk). unfold kept_ok in Hk. by rewrite Ep in Hk.
  - destruct (inv_artifact _ _ HI j e Hj) as (a' & Ha & ->). rewrite Ep in Ha. by injection Ha as ->.
  - destruct (inv_restarted _ _ HI j e Hj) as ((c & Hc) & _). congruence.
  - destruct (inv_escalated _ _ HI j e Hj) as ((c & i & Hc) & _). congruence.
  - done.
Qed.

Lemma retained_restarted_put e k v : retained s e -> restarted_put e = Some (k, v) -> restarted_events s !! k = Some v.
Proof using HG.
  pose proof (good_inv _ _ HG) as HI. unfold restarted_put. intros He Hp. destruct (payload e) eqn:Ep; try done.
  injection Hp as <- <-. destruct He as [j Hj|j Hj|j Hj|j Hj|j b Hj (w & m & _ & _ & ->)].
  - destruct (inv_latest _ _ HI j e Hj) as (_ & _ & Hk). unfold kept_ok in Hk. by rewrite Ep in Hk.
  - destruct (inv_artifact _ _ HI j e Hj) as (a' & Ha & _). congruence.
  - by destruct (inv_restarted _ _ HI j e Hj) as (_ & <-).
  - destruct (inv_escalated _ _ HI j e Hj) as ((c & i & Hc) & _). congruence.
  - done.
Qed.

Lemma stored_escalated_put e k v : stored s e -> escalated_put e = Some (k, v) -> escalated_events s !! k = Some v.
Proof using HG.
  pose proof (good_inv _ _ HG) as HI. unfold escalated_put. intros He Hp. destruct (payload e) eqn:Ep; try done.
  injection Hp as <- <-. destruct He as [j Hj|j Hj|j Hj|j Hj].
  - destruct (inv_latest _ _ HI j e Hj) as (_ & _ & Hk). unfold kept_ok in Hk. by rewrite Ep in Hk.
  - destruct (inv_artifact _ _ HI j e Hj) as (a' & Ha & _). congruence.
  - destruct (inv_restarted _ _ HI j e Hj) as ((c & Hc) & _). congruence.
  - by destruct (inv_escalated _ _ HI j e Hj) as (_ & <-).
Qed.

Lemma stored_in_all e : stored s e -> e ∈ all_events.
Proof using HG. intros He. unfold all_events. rewrite elem_of_app. right. by apply elem_of_compacted. Qed.

Lemma compact_kept_events :
  let x := foldl apply_event (replay empty_state opening) all_events in
  artifact_events x = artifact_events s /\ restarted_events x = restarted_events s /\ escalated_events x = escalated_events s.
Proof using HG.
  pose proof (good_inv _ _ HG) as HI. destruct opening_frame as (_ & _ & _ & _ & Ea & Er & Ee). cbv zeta.
  destruct (events_puts all_events (replay empty_state opening)) as (-> & -> & ->). rewrite Ea, Er, Ee. split_and!.
  - apply puts_map.
    + intros e k v He%all_events_retained. by apply retained_artifact_put.
    + intros k e Hk. exists e. split; [apply stored_in_all; by eapply stored_artifact|].
      destruct (inv_artifact _ _ HI k e Hk) as (a & Ha & ->). unfold artifact_put. by rewrite Ha.
  - apply puts_map.
    + intros e k v He%all_events_retained. by apply retained_restarted_put.
    + intros k e Hk. exists e. split; [apply stored_in_all; by eapply stored_restarted|].
      destruct (inv_restarted _ _ HI k e Hk) as ((c & Hc) & ->). unfold restarted_put. by rewrite Hc.
  - unfold all_events. rewrite foldl_app. apply map_eq. intros k. destruct (escalated_events s !! k) as [e|] eqn:Ek.
    + apply puts_some.
      * exists e. split; [apply elem_of_compacted; by eapply stored_escalated|].
        destruct (inv_escalated _ _ HI k e Ek) as ((c & i & Hc) & ->). unfold escalated_put. by rewrite Hc.
      * intros x v Hx Hp. apply elem_of_compacted in Hx. apply (stored_escalated_put x) in Hp; [congruence|done].
    + rewrite puts_none; [|intros x v Hx Hp; apply elem_of_compacted in Hx; apply (stored_escalated_put x) in Hp; [congruence|done]].
      rewrite puts_none; [apply lookup_empty|]. intros x v Hx Hp. apply list_elem_of_fmap in Hx as (a & -> & Ha).
      destruct (alert_facts a Ha) as (Hk & _ & He). destruct (inv_alert _ _ HI _ a Hk) as (_ & _ & x & Hx & Hs).
      rewrite <-(escalation_of_inj _ _ _ He Hx) in Hs. injection Hp as <- <-. rewrite Ek in Hs. by destruct Hs.
Qed.

(** *** The tasks *)

(** What a compaction forgets of a task: when an earlier attempt ended. *)
Definition forget_completion (t : FleetTaskState) : FleetTaskState :=
  {| entry := entry t; status := status t; lifecycle_seq := lifecycle_seq t; leased_to := leased_to t; leased_at := leased_at t;
     completed_at := if is_terminal (status t) then completed_at t else None |}.

Lemma task_lines_key k t r k' f : tasks s !! k = Some t -> r ∈ task_records t ++ terminal_records t ++ [lifecycle_record t] ->
  task_fun r = Some (k', f) -> k' = k.
Proof using HG.
  intros Ht Hr Hf. pose proof (task_keyed _ _ (inv_task _ _ (good_inv _ _ HG) k t Ht)) as ->. revert Hr Hf.
  unfold task_records, terminal_records, lifecycle_record. rewrite !elem_of_app, elem_of_cons, list_elem_of_singleton.
  intros [[->|H]|[H| ->]]; cbn.
  - intros [= <- _]. unfold enqueued_entry. by destruct (leased_to t).
  - destruct (leased_to t); [apply list_elem_of_singleton in H as ->; by intros [= <- _]|by apply not_elem_of_nil in H].
  - destruct (is_terminal _); [apply list_elem_of_singleton in H as ->; by intros [= <- _]|by apply not_elem_of_nil in H].
  - by intros [= <- _].
Qed.

Lemma task_values_NoDup : NoDup (btree_values (tasks s)).
Proof using HG.
  apply (NoDup_fmap_1 (fun t => task_key (entry_run_id (entry t)) (entry_task_id (entry t)))).
  assert (E : (fun t => task_key (entry_run_id (entry t)) (entry_task_id (entry t))) <$> btree_values (tasks s) = (btree_entries (tasks s)).*1).
  { unfold btree_values. rewrite <-list_fmap_compose. apply list_fmap_ext. intros i [k t] Hi. apply list_elem_of_lookup_2, elem_of_btree_entries in Hi.
    cbn. by rewrite <-(task_keyed _ _ (inv_task _ _ (good_inv _ _ HG) k t Hi)). }
  rewrite E. apply btree_entries_keys.
Qed.

(** The lines of the other tasks do not matter. *)
Lemma task_lines_step k t (f : FleetTaskState -> list FleetLedgerRecord) o :
  tasks s !! k = Some t -> (forall b r, r ∈ f b -> r ∈ task_records b ++ terminal_records b ++ [lifecycle_record b]) ->
  foldl (task_step k) o (flat_map f (btree_values (tasks s))) = foldl (task_step k) o (f t).
Proof using HG.
  intros Ht Hf. apply task_step_flat_map; [apply task_values_NoDup|apply elem_of_btree_values; by exists k|].
  intros b r g Hb Hne Hr Hg. apply elem_of_btree_values in Hb as [k' Hk']. pose proof (task_lines_key k' b r k g Hk' (Hf b r Hr) Hg) as <-.
  rewrite Ht in Hk'. by injection Hk' as <-.
Qed.

Lemma run_lines_skip k o : foldl (task_step k) o (flat_map (run_records s) (btree_values (runs s))) = o.
Proof.
  apply task_step_skip. intros r f (j & run & _ & Hr)%elem_of_flat_map_values. by apply elem_of_run_lines in Hr as [->|(st & _ & ->)].
Qed.

Lemma opening_task k t : tasks s !! k = Some t -> tasks (replay empty_state opening) !! k = foldl (task_step k) None (task_records t).
Proof using HG.
  intros Ht. rewrite replay_task_step. unfold opening. rewrite foldl_app, run_lines_skip. cbn [tasks empty_state]. rewrite lookup_empty.
  apply task_lines_step; [done|]. intros b r Hr. rewrite elem_of_app. by left.
Qed.

(** The task as the opening leaves it. *)
Definition opened (t : FleetTaskState) : FleetTaskState :=
  match leased_to t with
  | Some w => lease w (default [] (leased_at t)) (lease_deadline (entry t)) (new_task (enqueued_entry t))
  | None => new_task (entry t)
  end.

Lemma task_records_step k t : tasks s !! k = Some t -> foldl (task_step k) None (task_records t) = Some (opened t).
Proof using HG.
  intros Ht. pose proof (task_keyed _ _ (inv_task _ _ (good_inv _ _ HG) k t Ht)) as Hk. unfold task_records, opened, enqueued_entry.
  destruct (leased_to t) as [w|]; cbn; unfold task_step; cbn; by rewrite !decide_True by done.
Qed.

Lemma opened_entry t k w : tasks s !! k = Some t -> leased_to t = Some w ->
  opened t = {| entry := entry t; status := Leased; lifecycle_seq := 2; leased_to := Some w; leased_at := leased_at t; completed_at := None |}.
Proof using HG.
  intros Ht Hw. pose proof (inv_task _ _ (good_inv _ _ HG) k t Ht) as [_ _ [_ Hr] _ Hl]. rewrite Hw in Hl.
  destruct Hl as (_ & _ & [a Ha] & H1 & _). unfold opened, enqueued_entry. rewrite Hw, Ha. unfold lease. cbn.
  f_equal. destruct (entry t); cbn in *. f_equal. unfold u32_saturating_add. lia.
Qed.

(** The terminal event of a task is its latest one. *)
Lemma terminal_event_unique e e' : retained s e -> retained s e' -> terminal_status (payload e) <> None -> terminal_status (payload e') <> None ->
  task_key_of_event e = task_key_of_event e' -> e = e'.
Proof using HG.
  pose proof (good_inv _ _ HG) as HI. intros He He' Ht Ht' Hk. apply (retained_terminal HI) in Ht, Ht'; [|done..].
  destruct (retained_same_task HI e e' He He' Hk) as (_ & _ & _ & Hkey). rewrite Hkey in Ht. congruence.
Qed.

(** What the retained events make of an opened task: nothing, or the end of its last attempt. *)
Lemma compacted_events_step k t : tasks s !! k = Some t ->
  let o := foldl (task_step k) (Some (opened t)) (EventAppended <$> compacted_events s) in
  o = Some (opened t)
  \/ exists e st, retained s e /\ terminal_status (payload e) = Some st /\ task_key_of_event e = k
               /\ o = Some (mark_terminal (ev_worker_id e) (ev_timestamp e) st (opened t)).
Proof using HG.
  intros Ht o. unfold o. clear o.
  destruct (decide (Exists (fun e => terminal_status (payload e) <> None /\ task_key_of_event e = k) (compacted_events s))) as [Hex|Hno].
  - apply Exists_exists in Hex as (e & He%elem_of_compacted%stored_retained & Hst & Hk).
    destruct (terminal_status (payload e)) as [st|] eqn:Est; [|done].
    destruct (task_step_idem k (EventAppended <$> compacted_events s) (fmap (mark_terminal (ev_worker_id e) (ev_timestamp e) st)) (Some (opened t)))
      as [->|E]; [| |by left|right; by exists e, st].
    + intros [x|]; [|done]. cbn. by rewrite mark_terminal_idem.
    + intros r k' f (e' & -> & He'%elem_of_compacted%stored_retained)%list_elem_of_fmap. cbn.
      destruct (terminal_status (payload e')) as [st'|] eqn:Est'; [|done]. intros [= <- <-] Hk' x.
      assert (e' = e) as -> by (apply terminal_event_unique; congruence). congruence.
  - left. apply task_step_skip. intros r f (e & -> & He)%list_elem_of_fmap Hf. cbn in Hf. apply Hno, Exists_exists. exists e. split; [done|].
    destruct (terminal_status (payload e)); [|done]. by injection Hf as ->.
Qed.

Definition close_task (t : FleetTaskState) (o : option FleetTaskState) : option FleetTaskState :=
  checkpoint (lifecycle_seq t)
    <$> (if is_terminal (status t) then mark_terminal (default [] (leased_to t)) (default [] (completed_at t)) (status t) <$> o else o).

Lemma replayed_task k t : tasks s !! k = Some t ->
  tasks (replay empty_state (compact s)) !! k = close_task t (foldl (task_step k) (Some (opened t)) (EventAppended <$> compacted_events s)).
Proof using HG.
  intros Ht. pose proof (task_keyed _ _ (inv_task _ _ (good_inv _ _ HG) k t Ht)) as Hk.
  rewrite replay_task_step. unfold compact. rewrite !foldl_app, run_lines_skip. cbn [tasks empty_state]. rewrite lookup_empty.
  rewrite (task_lines_step k t task_records), task_records_step by (done || (intros b r Hr; rewrite elem_of_app; by left)).
  rewrite (task_step_skip k (alert_record <$> _)) by (by intros r f (a & -> & _)%list_elem_of_fmap).
  generalize (foldl (task_step k) (Some (opened t)) (EventAppended <$> compacted_events s)). intros o.
  rewrite (task_step_skip k (sequence_records s)) by (by intros r f (j & m & ow & _ & _ & ->)%elem_of_sequence_records).
  rewrite (task_step_skip k (_ <$> btree_entries (heartbeats s))) by (by intros r f (p & -> & _)%list_elem_of_fmap).
  rewrite (task_step_skip k (ReceiptRecorded <$> _)) by (by intros r f (a & -> & _)%list_elem_of_fmap).
  rewrite (task_lines_step k t terminal_records) by (done || (intros b r Hr; rewrite !elem_of_app; by right; left)).
  assert (E : lifecycle_record <$> btree_values (tasks s) = flat_map (fun b => [lifecycle_record b]) (btree_values (tasks s))).
  { induction (btree_values (tasks s)) as [|b l IH]; [done|]. cbn. by rewrite <-IH. }
  rewrite E, (task_lines_step k t (fun b => [lifecycle_record b])) by (done || (intros b r Hr; rewrite !elem_of_app; by right; right)).
  unfold terminal_records, close_task, lifecycle_record. destruct (is_terminal (status t)); cbn; unfold task_step; cbn; by rewrite !decide_True by done.
Qed.

Lemma closed_task k t : tasks s !! k = Some t -> tasks (replay empty_state (compact s)) !! k = Some (forget_completion t).
Proof using HG.
  intros Ht. rewrite (replayed_task k t Ht). pose proof (good_inv _ _ HG) as HI. pose proof (inv_task _ _ HI k t Ht) as [_ _ [Hr _] H1 Hl].
  destruct (leased_to t) as [w|] eqn:Ew.
  - destruct (compacted_events_step k t Ht) as [->|(e & st & He & Hst & Hk & ->)]; rewrite (opened_entry t k w Ht Ew).
    all: destruct Hl as ([_ Hw] & Hne & [a Ha] & Hat & H2 & H3); unfold close_task, forget_completion, checkpoint, mark_terminal; cbn.
    + destruct (status t) eqn:Es; [done|cbn; rewrite Ew; do 2 f_equal; lia|..].
      all: destruct H3 as [H3 [c Hc]]; [done|]; cbn; rewrite Ew, Hc; cbn; destruct w; [done|]; cbn.
      all: do 2 f_equal; rewrite decide_False by done; unfold u64_saturating_add, u64_max in *; lia.
    + assert (Hw' : ev_worker_id e = w).
      { destruct (retained_worker HI e He) as (_ & t' & Ht' & Hw'). rewrite Hk, Ht in Ht'. injection Ht' as <-. congruence. }
      destruct (is_terminal (status t)) eqn:Eterm.
      * destruct (H3 eq_refl) as [H3' [c Hc]]. rewrite Ew, Hc, Hw'. cbn. destruct w as [|x w]; [done|]. cbn.
        assert (H4 : status t <> st -> 4 <= lifecycle_seq t) by (intros Hne'; apply (inv_override _ _ HI e st t); try done; by rewrite Hk).
        do 2 f_equal. unfold u64_max in *. destruct (decide (Leased = st)) as [<-|]; [by destruct (payload e)|].
        unfold u64_saturating_add, u64_max. case_decide as Hd; [lia|]. specialize (H4 ltac:(congruence)). lia.
      * assert (Hs : status t = Leased) by (by destruct (status t)).
        by rewrite (good_live _ _ HG k t e Ht Hs He Hk) in Hst.
  - assert (E : foldl (task_step k) (Some (opened t)) (EventAppended <$> compacted_events s) = Some (opened t)).
    { destruct (compacted_events_step k t Ht) as [->|(e & st & He & _ & Hk & _)]; [done|]. by destruct (unleased_no_event HI k t e Ht Ew He). }
    rewrite E. destruct Hl as [Hla Hl]. unfold close_task, opened, forget_completion, checkpoint, mark_terminal, new_task. rewrite Ew, Hla.
    destruct Hl as [[Hs Hc]|(Hs & [c Hc] & H2)]; rewrite Hs, Hc; cbn; do 2 f_equal;
      rewrite ?decide_False by done; unfold u64_saturating_add, u64_max in *; lia.
Qed.

Lemma compact_tasks : tasks (replay empty_state (compact s)) = forget_completion <$> tasks s.
Proof using HG.
  apply map_eq. intros k. rewrite lookup_fmap. destruct (tasks s !! k) as [t|] eqn:Ht; [by apply closed_task|]. cbn.
  rewrite replay_task_step, task_step_skip; [apply lookup_empty|]. intros r f Hr Hf.
  destruct (elem_of_compact r Hr) as [j run Hj Hin|j t Hj Hin|a _ ->|e He ->|j m o _ _ ->|w hb _ ->|j rc _ ->]; try done.
  - by apply elem_of_run_lines in Hin as [->|(st & _ & ->)].
  - rewrite <-(task_lines_key j t r k f Hj Hin Hf) in Hj. congruence.
  - cbn in Hf. destruct (terminal_status _); [|done]. injection Hf as <- _.
    destruct (inv_event _ _ (good_inv _ _ HG) e (stored_retained s e He)) as (t & m & Htask & _). congruence.
Qed.

(** *** The latest events *)

(** The latest event of a task is let in: the task is leased until then. *)
Lemma latest_let_in l1 l2 e : all_events = l1 ++ e :: l2 -> e ∉ l1 -> latest_events s !! key_of_event e = Some e ->
  task_is_terminal (foldl apply_event (replay empty_state opening) l1) (task_key_of_event e) = false.
Proof using HG.
  pose proof (good_inv _ _ HG) as HI. intros E Hnew Hlatest.
  assert (He : retained s e) by (by eapply retained_latest).
  destruct (retained_worker HI e He) as (_ & t & Ht & Hw).
  assert (Hev : forall es y, replay y (EventAppended <$> es) = foldl apply_event y es) by (induction es as [|x es IH]; intros y; [done|apply IH]).
  unfold task_is_terminal. rewrite <-Hev, replay_task_step, (opening_task _ t Ht), (task_records_step _ t Ht).
  rewrite task_step_skip; [by rewrite (opened_entry t _ _ Ht Hw)|]. intros r f (e' & -> & He')%list_elem_of_fmap Hf. cbn in Hf.
  destruct (terminal_status (payload e')) eqn:Est; [|done]. injection Hf as Hk _.
  assert (Hr' : retained s e') by (apply all_events_retained; rewrite E, elem_of_app; by left).
  destruct (retained_same_task HI e' e Hr' He Hk) as (_ & _ & _ & Hkey).
  pose proof (retained_terminal HI e' Hr' ltac:(by rewrite Est)) as Hl. rewrite Hkey, Hlatest in Hl. injection Hl as ->. done.
Qed.

(** A newer event that is let in becomes the latest. *)
Lemma event_latest_new x e : newer x e = true -> task_is_terminal x (task_key_of_event e) = false ->
  latest_events (apply_event x e) !! key_of_event e = Some e /\ latest_seq (apply_event x e) !! key_of_event e = Some (seq e).
Proof.
  intros Hn Hi. destruct (apply_event_after x e Hn) as (_ & _ & _ & _ & _ & _ & El & _ & Ele & _); [by rewrite Hi|].
  rewrite El, Ele, !lookup_insert_eq. done.
Qed.

Lemma all_events_bounded k m : latest_seq s !! k = Some m -> bounded_by k m all_events.
Proof using HG.
  intros Hm e He <-. destruct (inv_event _ _ (good_inv _ _ HG) e (all_events_retained e He)) as (_ & m' & _ & _ & Hm' & Hle).
  rewrite Hm' in Hm. injection Hm as ->. lia.
Qed.

Lemma compact_latest_events : latest_events (foldl apply_event (replay empty_state opening) all_events) = latest_events s.
Proof using HG.
  pose proof (good_inv _ _ HG) as HI. destruct opening_frame as (_ & Els & _ & Ele & _). apply map_eq. intros k.
  destruct (latest_events s !! k) as [e|] eqn:Ek.
  - destruct (inv_latest _ _ HI k e Ek) as (-> & Hseq & _). pose proof (stored_in_all e ltac:(by eapply stored_latest)) as Hin.
    pose proof (fun e' (He' : e' ∈ all_events) => inv_unique _ _ HI e' e (all_events_retained e' He') ltac:(by eapply retained_latest)) as Huniq.
    destruct (split_first (fun e' => bool_decide (key_of_event e' = key_of_event e) && (seq e' =? seq e)) all_events e Hin)
      as (l1 & e' & l2 & E & [Hke' Hse'%Z.eqb_eq]%andb_true_iff & Hfirst); [by rewrite bool_decide_true, Z.eqb_refl|].
    apply bool_decide_eq_true in Hke'. assert (e' = e) as -> by (apply Huniq; [rewrite E, elem_of_app; right; by left|done|done]).
    assert (Hnew : e ∉ l1) by (intros Hl1%Hfirst; by rewrite bool_decide_true, Z.eqb_refl in Hl1). clear Hfirst Hke' Hse'.
    pose proof (all_events_bounded _ _ Hseq) as Hb. rewrite E in Hb |- *.
    rewrite foldl_app. cbn. pose proof (latest_let_in l1 l2 e E Hnew Ek) as Hlet. set (x := foldl apply_event _ l1) in *.
    assert (Hl1 : seq_at_most x (key_of_event e) (seq e - 1)).
    { apply events_seq_at_most; [|intros m; by rewrite Els, lookup_empty]. intros e' He' Hk'.
      assert (He2 : e' ∈ l1 ++ e :: l2) by (rewrite elem_of_app; by left). pose proof (Hb e' He2 Hk') as Hle.
      destruct (decide (seq e' = seq e)) as [Heq|]; [|lia]. rewrite <-E in He2. destruct Hnew. by rewrite <-(Huniq e' He2 Hk' Heq). }
    assert (Hnewer : newer x e = true).
    { unfold newer. destruct (latest_seq x !! key_of_event e) as [m|] eqn:Em; [|done]. specialize (Hl1 m Em). apply Z.ltb_lt. lia. }
    destruct (event_latest_new x e Hnewer Hlet) as [H1 H2]. eapply events_latest_keep; [|done|done].
    intros e' He'. apply Hb. rewrite elem_of_app, elem_of_cons. tauto.
  - assert (Hnone : forall es x, (forall e, e ∈ es -> retained s e) -> latest_events (foldl apply_event x es) !! k = latest_events x !! k).
    { induction es as [|e es IH]; intros x Hes; [done|]. cbn. rewrite IH by (intros e' He'; apply Hes; by right).
      apply event_latest_other. intros <-. destruct (inv_event _ _ HI e (Hes e ltac:(by left))) as (_ & m & _ & _ & Hm & _).
      destruct (inv_latest_some _ _ HI _ m Hm) as [y Hy]. congruence. }
    rewrite Hnone by apply all_events_retained. by rewrite Ele, lookup_empty.
Qed.

(** *** The sequence numbers and their owners *)

Definition owner_put (r : FleetLedgerRecord) : option (str * FleetEventSequenceOwner) :=
  match r with
  | EventSequenceCheckpoint r w t _ => Some (event_key w r t, {| owner_run_id := r; owner_worker_id := w; owner_task_id := t |})
  | _ => None
  end.

(** The records after the events. *)
Inductive closing_record (r : FleetLedgerRecord) : Prop :=
  | closing_sequence k m o : sequence_owners s !! k = Some o -> latest_seq s !! k = Some m ->
      r = EventSequenceCheckpoint (owner_run_id o) (owner_worker_id o) (owner_task_id o) m -> closing_record r
  | closing_other : (forall x, let y := apply_record x r in
        latest_seq y = latest_seq x /\ sequence_owners y = sequence_owners x /\ latest_events y = latest_events x
        /\ artifact_events y = artifact_events x /\ restarted_events y = restarted_events x /\ escalated_events y = escalated_events x
        /\ alerts y = alerts x) -> owner_put r = None -> closing_record r.

Lemma elem_of_closing r : r ∈ closing -> closing_record r.
Proof.
  unfold closing. rewrite !elem_of_app, elem_of_sequence_records, elem_of_flat_map_values, !list_elem_of_fmap.
  intros [(k & m & o & Ho & Hm & ->)|[(p & -> & _)|[(k & t & _ & Hr)|[(t & -> & _)|(rc & -> & _)]]]].
  - by eapply closing_sequence.
  - apply closing_other; [|done]. intros x y. unfold y. cbn. unfold apply_heartbeat. case_decide; by split_and!.
  - unfold terminal_records in Hr. destruct (is_terminal _); [|by apply not_elem_of_nil in Hr]. apply list_elem_of_singleton in Hr as ->.
    apply closing_other; [|done]. intros x. by split_and!.
  - apply closing_other; [|done]. intros x. by split_and!.
  - apply closing_other; [|done]. intros x. by split_and!.
Qed.

Lemma closing_frame x : let y := replay x closing in
  latest_events y = latest_events x /\ artifact_events y = artifact_events x /\ restarted_events y = restarted_events x
  /\ escalated_events y = escalated_events x /\ alerts y = alerts x.
Proof.
  cbv zeta. split_and!; apply replay_frame; intros y r [k m o _ _ ->|Hr _]%elem_of_closing; try done; by apply (Hr y).
Qed.

(** Sequence numbers not above the original ones. *)
Definition seqs_below (x : FleetLedgerState) : Prop := forall k m, latest_seq x !! k = Some m -> exists m', latest_seq s !! k = Some m' /\ m <= m'.

Lemma closing_below x r : closing_record r -> seqs_below x -> seqs_below (apply_record x r).
Proof using HG.
  intros [k m o Ho Hm ->|Hr _] Hx j m' Hj; [|rewrite (proj1 (Hr x)) in Hj; by apply Hx].
  pose proof (inv_owner _ _ (good_inv _ _ HG) k) as Hk. rewrite Hm, Ho in Hk. destruct Hk as [Hk _]. cbn in Hj. rewrite <-Hk in Hj.
  destruct (decide (k = j)) as [<-|Hne]; [|rewrite lookup_partial_alter_ne in Hj by done; by apply Hx].
  rewrite lookup_partial_alter_eq in Hj. exists m. split; [done|].
  destruct (latest_seq x !! k) as [m1|] eqn:E; injection Hj as <-; [|done]. destruct (Hx k m1 E) as (m2 & Hm2 & Hle).
  rewrite Hm in Hm2. injection Hm2 as <-. lia.
Qed.

Lemma closing_reached x r k m : closing_record r -> seqs_below x -> latest_seq s !! k = Some m -> latest_seq x !! k = Some m ->
  latest_seq (apply_record x r) !! k = Some m.
Proof using HG.
  intros Hc Hx Hm Hk. pose proof (closing_below x r Hc Hx) as Hb. destruct Hc as [j mj o Ho Hmj ->|Hr _]; [|by rewrite (proj1 (Hr x))].
  pose proof (inv_owner _ _ (good_inv _ _ HG) j) as Hj. rewrite Hmj, Ho in Hj. destruct Hj as [Hj _]. cbn. rewrite <-Hj.
  destruct (decide (j = k)) as [->|Hne]; [|by rewrite lookup_partial_alter_ne]. rewrite lookup_partial_alter_eq, Hk. f_equal.
  rewrite Hm in Hmj. injection Hmj as <-. lia.
Qed.

Lemma closing_all_below rs x : (forall r, r ∈ rs -> closing_record r) -> seqs_below x -> seqs_below (replay x rs).
Proof using HG.
  revert x. induction rs as [|r rs IH]; intros x Hrs Hx; [done|]. rewrite replay_cons. apply IH; [intros r' Hr'; apply Hrs; by right|].
  apply closing_below; [apply Hrs; by left|done].
Qed.

Lemma closing_all_reached rs x k m : (forall r, r ∈ rs -> closing_record r) -> seqs_below x -> latest_seq s !! k = Some m ->
  latest_seq x !! k = Some m -> latest_seq (replay x rs) !! k = Some m.
Proof using HG.
  revert x. induction rs as [|r rs IH]; intros x Hrs Hx Hm Hk; [done|]. rewrite replay_cons.
  apply IH; [intros r' Hr'; apply Hrs; by right| |done|]; [apply closing_below|apply closing_reached]; try done; apply Hrs; by left.
Qed.

Lemma rebuilt_below : seqs_below (foldl apply_event (replay empty_state opening) all_events).
Proof using HG.
  pose proof (good_inv _ _ HG) as HI. destruct opening_frame as (_ & Els & _). intros k m Hm.
  destruct (latest_seq s !! k) as [m'|] eqn:E.
  - exists m'. split; [done|]. revert m Hm. apply events_seq_at_most; [by apply all_events_bounded|]. intros m. by rewrite Els, lookup_empty.
  - exfalso. assert (Hnone : forall es x, (forall e, e ∈ es -> retained s e) -> latest_seq (foldl apply_event x es) !! k = latest_seq x !! k).
    { induction es as [|e es IH]; intros x Hes; [done|]. cbn. rewrite IH by (intros e' He'; apply Hes; by right).
      apply event_latest_other. intros <-. destruct (inv_event _ _ HI e (Hes e ltac:(by left))) as (_ & m' & _ & _ & Hm' & _). congruence. }
    rewrite Hnone, Els, lookup_empty in Hm by apply all_events_retained. done.
Qed.

Lemma sequence_in_closing k m o : sequence_owners s !! k = Some o -> latest_seq s !! k = Some m ->
  EventSequenceCheckpoint (owner_run_id o) (owner_worker_id o) (owner_task_id o) m ∈ closing.
Proof. intros Ho Hm. unfold closing. rewrite elem_of_app, elem_of_sequence_records. left. by exists k, m, o. Qed.

Lemma compact_latest_seq x : seqs_below x -> latest_seq (replay x closing) = latest_seq s.
Proof using HG.
  intros Hx. pose proof (good_inv _ _ HG) as HI. apply map_eq. intros k. pose proof (inv_owner _ _ HI k) as Ho.
  destruct (latest_seq s !! k) as [m|] eqn:Em.
  - destruct (sequence_owners s !! k) as [o|] eqn:Eo; [|done]. destruct Ho as [Hk _].
    pose proof (sequence_in_closing k m o Eo Em) as Hin. pose proof elem_of_closing as Hall.
    apply list_elem_of_split in Hin as (l1 & l2 & E). rewrite E in Hall |- *. rewrite replay_app, replay_cons.
    assert (Hb : seqs_below (replay x l1)) by (apply closing_all_below; [intros r Hr; apply Hall; rewrite elem_of_app; by left|done]).
    assert (Hr : closing_record (EventSequenceCheckpoint (owner_run_id o) (owner_worker_id o) (owner_task_id o) m)) by (by eapply closing_sequence).
    apply closing_all_reached; [intros r Hr'; apply Hall; rewrite elem_of_app, elem_of_cons; tauto|by apply closing_below|done|].
    cbn. rewrite <-Hk, lookup_partial_alter_eq. destruct (latest_seq (replay x l1) !! k) as [m1|] eqn:E1; [|done].
    destruct (Hb k m1 E1) as (m2 & Hm2 & Hle). rewrite Em in Hm2. injection Hm2 as <-. f_equal. lia.
  - destruct (latest_seq (replay x closing) !! k) as [m|] eqn:E; [|done].
    destruct (closing_all_below closing x elem_of_closing Hx k m E) as (m' & Hm' & _). congruence.
Qed.

Lemma compact_owners x : (forall k, is_Some (sequence_owners x !! k) -> is_Some (latest_seq s !! k)) ->
  sequence_owners (replay x closing) = sequence_owners s.
Proof using HG.
  intros Hx. pose proof (good_inv _ _ HG) as HI. apply map_eq. intros k.
  rewrite (replay_puts sequence_owners owner_put); [|intros y r Hr; destruct (elem_of_closing r Hr) as [j m o _ _ ->|Hf Hp]; [done|]; unfold put;
    by rewrite (proj1 (proj2 (Hf y))), Hp].
  assert (Hput : forall r j v, r ∈ closing -> owner_put r = Some (j, v) -> sequence_owners s !! j = Some v).
  { intros r j v Hr Hp. destruct (elem_of_closing r Hr) as [j' m o Ho Hm ->|_ Hn]; [|congruence]. cbn in Hp. injection Hp as <- <-.
    pose proof (inv_owner _ _ HI j') as Hj. rewrite Hm, Ho in Hj. destruct Hj as [<- _]. by destruct o. }
  pose proof (inv_owner _ _ HI k) as Ho. destruct (sequence_owners s !! k) as [o|] eqn:Eo.
  - destruct (latest_seq s !! k) as [m|] eqn:Em; [|done]. apply puts_some.
    + exists (EventSequenceCheckpoint (owner_run_id o) (owner_worker_id o) (owner_task_id o) m). split; [by eapply sequence_in_closing|].
      destruct Ho as [-> _]. cbn. by destruct o.
    + intros r v Hr Hp. specialize (Hput r k v Hr Hp). congruence.
  - destruct (latest_seq s !! k) as [m|] eqn:Em; [done|]. rewrite puts_none.
    + destruct (sequence_owners x !! k) as [v|] eqn:E; [|done]. destruct (Hx k) as [m Hm]; [by rewrite E|]. congruence.
    + intros r v Hr Hp. specialize (Hput r k v Hr Hp). congruence.
Qed.

Lemma event_owner x e k : sequence_owners (apply_event x e) !! k =
  if decide (key_of_event e = k)
  then Some {| owner_run_id := ev_run_id e; owner_worker_id := ev_worker_id e; owner_task_id := ev_task_id e |} else sequence_owners x !! k.
Proof.
  assert (E : sequence_owners (apply_event x e) =
    <[key_of_event e := {| owner_run_id := ev_run_id e; owner_worker_id := ev_worker_id e; owner_task_id := ev_task_id e |}]> (sequence_owners x)).
  { unfold apply_event, derive_status. destruct (_ && _); destruct (newer _ _); try done.
    all: by destruct (terminal_status (payload e)), (worker_status (payload e)). }
  rewrite E. case_decide; [subst; by rewrite lookup_insert_eq|by rewrite lookup_insert_ne].
Qed.

Lemma rebuilt_owners k :
  is_Some (sequence_owners (foldl apply_event (replay empty_state opening) all_events) !! k) -> is_Some (latest_seq s !! k).
Proof using HG.
  destruct opening_frame as (_ & _ & Eo & _).
  assert (Hown : forall es x, (forall e, e ∈ es -> retained s e) -> is_Some (sequence_owners (foldl apply_event x es) !! k) ->
            is_Some (sequence_owners x !! k) \/ is_Some (latest_seq s !! k)).
  { induction es as [|e es IH]; intros x Hes Hs; [by left|]. cbn in Hs.
    apply IH in Hs as [Hs|Hs]; [|by right|intros e' He'; apply Hes; by right]. rewrite event_owner in Hs. case_decide as Hk; [right|by left].
    destruct (inv_event _ _ (good_inv _ _ HG) e (Hes e ltac:(by left))) as (_ & m & _ & _ & Hm & _). rewrite <-Hk, Hm. by eexists. }
  intros [Hs|Hs]%Hown; [|done|apply all_events_retained]. rewrite Eo, lookup_empty in Hs. by destruct Hs.
Qed.

(** *** Everything at once *)

Lemma compact_preserves :
  let s' := replay empty_state (compact s) in
  runs s' = runs s /\ run_status_overrides s' = known_overrides /\ tasks s' = forget_completion <$> tasks s
  /\ heartbeats s' = heartbeats s /\ latest_seq s' = latest_seq s /\ sequence_owners s' = sequence_owners s
  /\ latest_events s' = latest_events s /\ artifact_events s' = artifact_events s /\ restarted_events s' = restarted_events s
  /\ escalated_events s' = escalated_events s /\ receipts s' = receipts s /\ alerts s' = alerts s.
Proof using HG.
  cbv zeta. destruct compact_simple_fields as (Hru & Hov & Hhb & Hrc). pose proof compact_tasks as Hta.
  destruct compact_kept_events as (Har & Hre & Hes). pose proof compact_latest_events as Hle. pose proof rebuilt_below as Hbe. pose proof rebuilt_owners as Hro.
  rewrite Hru, Hov, Hhb, Hrc, Hta, compact_parts. set (x := on_alerts _ _).
  destruct (closing_frame x) as (-> & -> & -> & -> & ->). split_and!; try done; [by apply compact_latest_seq|by apply compact_owners].
Qed.
End compact.

(** C13: compaction loses nothing the operations read.  Of the ledger of any
    sequence of the managers' operations, the records a compaction writes
    replay to the same state: the runs and their statuses, the tasks with
    their leases, attempts and lifecycle counters, the heartbeats, the numbers
    of the next events and their owners, the latest, artifact, restart and
    escalation events, the receipts and the alerts.  Three things are not
    kept: the time an earlier attempt of a live task ended, a status written
    for a run the ledger does not know, and the statuses of the workers, which
    the replay derives again. *)
Theorem compaction_preserves_the_ledger l :
  Reachable l -> zlen l <= u64_max ->
  let s := replay empty_state l in
  let s' := replay empty_state (compact s) in
  runs s' = runs s
  /\ run_status_overrides s' = filter (fun p : str * FleetRunStatus => is_Some (runs s !! p.1)) (run_status_overrides s)
  /\ tasks s' = forget_completion <$> tasks s
  /\ heartbeats s' = heartbeats s /\ latest_seq s' = latest_seq s /\ sequence_owners s' = sequence_owners s
  /\ latest_events s' = latest_events s /\ artifact_events s' = artifact_events s /\ restarted_events s' = restarted_events s
  /\ escalated_events s' = escalated_events s /\ receipts s' = receipts s /\ alerts s' = alerts s.
Proof. intros Hl Hn s. apply (compact_preserves (reachable_good l Hl Hn)). Qed.

Lemma compaction_preserves_the_ledger_witness :
  Reachable restarted_ledger /\ zlen restarted_ledger <= u64_max
  /\ tasks (replay empty_state (compact (replay empty_state restarted_ledger)))
     = forget_completion <$> tasks (replay empty_state restarted_ledger).
Proof.
  assert (Hn : zlen restarted_ledger <= u64_max) by by vm_compute.
  split; [exact restarted_reachable|]. split; [exact Hn|].
  apply (compaction_preserves_the_ledger restarted_ledger restarted_reachable Hn).
Defined.

(** A worker marked unhealthy is online after a compaction. *)
Definition stale_ledger : list FleetLedgerRecord :=
  (transact (append_event_if_lease_unchanged $"r" $"w" $"t" 1 1 (Some $"1") $"9" (EvStale (Some $"1"))) started_ledger).2.

Example compaction_revives_a_stale_worker :
  workers (replay empty_state stale_ledger) !! $"w" = Some Unhealthy
  /\ workers (replay empty_state (compact (replay empty_state stale_ledger))) !! $"w" = Some Online.
Proof. by vm_compute. Qed.

(** A task that runs again keeps the end of its first attempt, until a compaction. *)
Example restarted_task_keeps_its_completion :
  (fun t => (status t, completed_at t)) <$> tasks (replay empty_state restarted_ledger) !! task_key $"r" $"t" = Some (Leased, Some $"2")
  /\ (fun t => (status t, completed_at t)) <$> tasks (replay empty_state (compact (replay empty_state restarted_ledger))) !! task_key $"r" $"t"
     = Some (Leased, None).
Proof. by vm_compute. Qed.
