(* ===== verification/FleetScheduler.v ===== *)
(** * The fleet scheduler

    [crates/tui/src/fleet/scheduler.rs]: backpressure, recovery of stale
    leases, retry budgets and the status of a run, and the views and stop
    operations of [manager.rs] over the same ledger.  A scheduler's pass is a
    program on the ledger: each call of the ledger is one transaction, and a
    read replays what is there.  Instants and durations are nanoseconds; the
    text of an instant is chrono's and a parameter.  [anyhow]'s context is
    written before the error, as [{:#}] prints it. *)

From S2P Require Import Text Json FleetProtocol FleetLedger.

(** ** Programs on the ledger *)

Definition Prog (A : Type) : Type := list FleetLedgerRecord -> result str A * list FleetLedgerRecord.

#[export] Instance prog_ret : MRet Prog := fun A a l => (Ok a, l).
#[export] Instance prog_bind : MBind Prog := fun A B f m l =>
  match m l with (Ok a, l') => f a l' | (Err e, l') => (Err e, l') end.

Definition perform {A} (op : Op A) : Prog A := transact op.
Definition read : Prog FleetLedgerState := fun l => (Ok (replay empty_state l), l).
Definition fail {A} (e : str) : Prog A := fun l => (Err e, l).
Definition with_context {A} (msg : str) (m : Prog A) : Prog A := fun l =>
  match m l with (Ok a, l') => (Ok a, l') | (Err e, l') => (Err (msg ++ $": " ++ e), l') end.

(** A [for] loop over [xs] that updates [acc] and may leave with an error. *)
Fixpoint for_each {X S} (f : X -> S -> Prog S) (xs : list X) (acc : S) : Prog S :=
  match xs with
  | [] => mret acc
  | x :: xs => acc' ← f x acc; for_each f xs acc'
  end.

(** ** Policies and reports *)

Definition second : Z := 1000000000.

Record FleetSchedulerPolicy := {
  max_workers_per_run : Z; max_workers_per_host : Z; max_workers_per_task_class : Z; lease_seconds : Z; heartbeat_timeout : Z }.

Definition default_policy : FleetSchedulerPolicy :=
  {| max_workers_per_run := 4; max_workers_per_host := 4; max_workers_per_task_class := 4; lease_seconds := 300;
     heartbeat_timeout := 120 * second |}.

Record FleetSchedulerReport := {
  launched : Z; r_heartbeats : Z; marked_stale : Z; restarted : Z; failed : Z; cancelled : Z; r_alerts : Z }.

Definition empty_report : FleetSchedulerReport :=
  {| launched := 0; r_heartbeats := 0; marked_stale := 0; restarted := 0; failed := 0; cancelled := 0; r_alerts := 0 |}.
Definition add_report (a b : FleetSchedulerReport) : FleetSchedulerReport :=
  {| launched := launched a + launched b; r_heartbeats := r_heartbeats a + r_heartbeats b;
     marked_stale := marked_stale a + marked_stale b; restarted := restarted a + restarted b; failed := failed a + failed b;
     cancelled := cancelled a + cancelled b; r_alerts := r_alerts a + r_alerts b |}.
Definition one_launch : FleetSchedulerReport :=
  {| launched := 1; r_heartbeats := 1; marked_stale := 0; restarted := 0; failed := 0; cancelled := 0; r_alerts := 0 |}.
Definition one_stale : FleetSchedulerReport :=
  {| launched := 0; r_heartbeats := 0; marked_stale := 1; restarted := 0; failed := 0; cancelled := 0; r_alerts := 0 |}.
Definition one_restart : FleetSchedulerReport :=
  {| launched := 0; r_heartbeats := 0; marked_stale := 0; restarted := 1; failed := 0; cancelled := 0; r_alerts := 0 |}.
Definition one_failure : FleetSchedulerReport :=
  {| launched := 0; r_heartbeats := 0; marked_stale := 0; restarted := 0; failed := 1; cancelled := 0; r_alerts := 0 |}.
Definition one_cancelled : FleetSchedulerReport :=
  {| launched := 0; r_heartbeats := 0; marked_stale := 0; restarted := 0; failed := 0; cancelled := 1; r_alerts := 0 |}.
Definition some_alerts (n : Z) : FleetSchedulerReport :=
  {| launched := 0; r_heartbeats := 0; marked_stale := 0; restarted := 0; failed := 0; cancelled := 0; r_alerts := n |}.

(** ** Reading the state *)

Definition tasks_of_run (s : FleetLedgerState) (r : FleetRunId) : list FleetTaskState := retain (of_run r) (btree_values (tasks s)).

Definition task_spec_for (s : FleetLedgerState) (t : FleetTaskState) : option FleetTaskSpec :=
  run ← runs s !! entry_run_id (entry t);
  find (fun spec => bool_decide (spec_id spec = entry_task_id (entry t))) (task_specs run).

Definition host_key (w : FleetWorkerSpec) : str :=
  match host w with
  | Local => $"local"
  | Ssh h _ _ _ _ _ _ _ _ => $"ssh:" ++ h
  | Docker image _ => $"docker:" ++ image
  end.

Definition value_as_str (v : Value) : option str := match v with Str s => Some s | _ => None end.

Definition task_class (t : FleetTaskSpec) : str :=
  match metadata t !! $"class" ≫= value_as_str with
  | Some v => if str_is_empty (trim v) then $"default" else v
  | None => $"default"
  end.

Definition channel_label (c : FleetAlertChannel) : str :=
  match c with Slack _ => $"slack" | Webhook _ => $"webhook" | PagerDuty _ _ => $"pagerduty" end.

Definition alert_policy_matches (p : FleetAlertPolicy) (c : FleetAlertEventClass) : bool :=
  match alert_events p with [] => true | _ => bool_decide (c ∈ alert_events p) end.

(** *** What is running *)

Record ActiveCounts := { by_host : gmap str Z; by_task_class : gmap str Z }.

Definition bump (k : str) (m : gmap str Z) : gmap str Z := <[k := default 0 (m !! k) + 1]> m.

Definition count_task (run : FleetRun) (c : ActiveCounts) (t : FleetTaskState) : ActiveCounts :=
  let hosts :=
    match leased_to t with
    | Some w => match find (fun x => bool_decide (worker_id x = w)) (worker_specs run) with
                | Some x => bump (host_key x) (by_host c)
                | None => by_host c
                end
    | None => by_host c
    end in
  let classes :=
    match find (fun spec => bool_decide (spec_id spec = entry_task_id (entry t))) (task_specs run) with
    | Some spec => bump (task_class spec) (by_task_class c)
    | None => by_task_class c
    end in
  {| by_host := hosts; by_task_class := classes |}.

Definition active_counts (s : FleetLedgerState) (run : FleetRun) : ActiveCounts :=
  foldl (count_task run) {| by_host := ∅; by_task_class := ∅ |} (active_tasks_for_run s (run_id run)).

Definition active_workers_for_run (s : FleetLedgerState) (r : FleetRunId) : list str := omap leased_to (active_tasks_for_run s r).

(** The order the queue is served in. *)
Definition queue_le (a b : FleetTaskState) : bool :=
  if decide (priority (entry a) = priority (entry b)) then
    if decide (enqueued_at (entry a) = enqueued_at (entry b)) then str_le (entry_task_id (entry a)) (entry_task_id (entry b))
    else str_le (enqueued_at (entry a)) (enqueued_at (entry b))
  else priority (entry a) <? priority (entry b).

Definition queued_tasks (s : FleetLedgerState) (r : FleetRunId) : list FleetTaskState :=
  retain (fun t => of_run r t && bool_decide (status t = Enqueued)) (btree_values (tasks s)).

(** [n as i64] for a [u64]. *)
Definition as_i64 (n : Z) : Z := (n + 2 ^ 63) mod 2 ^ 64 - 2 ^ 63.

(** ** The scheduler *)

Section scheduler.
(** chrono's texts of instants. *)
Context (parse_from_rfc3339 : str -> option Z) (to_rfc3339 : Z -> str).
Context (policy : FleetSchedulerPolicy) (now : Z).

Definition timestamp : str := to_rfc3339 now.
Definition lease_expires_at : str := to_rfc3339 (now + as_i64 (lease_seconds policy) * second).

(** An age that is negative is stale. *)
Definition task_is_stale (t : FleetTaskState) (s : FleetLedgerState) : bool :=
  match (w ← leased_to t; hb ← heartbeats s !! w; parse_from_rfc3339 (hb_timestamp hb)) with
  | Some last => let age := now - last in if age <? 0 then true else heartbeat_timeout policy <? age
  | None =>
      match lease_deadline (entry t) ≫= parse_from_rfc3339 with
      | Some deadline => deadline <? now
      | None => true
      end
  end.

(** *** Alerts *)

Definition alert_channel (r : FleetRunId) (task_id w : str) (expected_attempts : Z) (p : Z * FleetAlertChannel) (count : Z) : Prog Z :=
  let label := channel_label p.2 in
  sent ← perform (record_failed_attempt_alert_once r task_id w expected_attempts label (label ++ $"#" ++ display_u p.1) timestamp);
  mret (if (sent : bool) then count + 1 else count).

Definition record_alerts (r : FleetRunId) (task_id w : str) (expected_attempts : Z) (spec : FleetTaskSpec) (c : FleetAlertEventClass)
    : Prog Z :=
  match alert_policy spec with
  | None => mret 0
  | Some p =>
      if alert_policy_matches p c
      then for_each (alert_channel r task_id w expected_attempts)
             (imap (fun i ch => (Z.of_nat i, ch)) (channels p)) 0
      else mret 0
  end.

(** *** Recovery *)

Section recovery.
(** What the caller prepares before a restart is published. *)
Context (on_restarting : FleetLedgerState -> FleetTaskState -> FleetTaskSpec -> str -> result str unit).

Definition retry_or_fail (s : FleetLedgerState) (t : FleetTaskState) (spec : FleetTaskSpec) (w : str) (expected_latest_seq : Z)
    (expected_heartbeat_at : option str) (report : FleetSchedulerReport) : Prog FleetSchedulerReport :=
  let r := entry_run_id (entry t) in
  let task_id := entry_task_id (entry t) in
  let a := attempts (entry t) in
  if a <? max_attempts (default default_retry_policy (retry_policy spec)) then
    ok ← perform (restart_task_if_unchanged_with_callback r task_id w (status t) a expected_latest_seq expected_heartbeat_at timestamp
                    (Some lease_expires_at) a (on_restarting s t spec w));
    mret (if (ok : bool) then add_report report one_restart else report)
  else if decide (status t = Failed) then
    n ← record_alerts r task_id w a spec RestartExhausted;
    mret (add_report report (some_alerts n))
  else
    terminal ← perform (append_terminal_event_if_lease_unchanged r w task_id a expected_latest_seq expected_heartbeat_at timestamp
                          (EvFailed ($"retry attempts exhausted after " ++ display_u a ++ $" attempt(s)") false));
    match terminal with
    | None => mret report
    | Some _ =>
        n ← record_alerts r task_id w a spec RestartExhausted;
        mret (add_report (add_report report one_failure) (some_alerts n))
    end.

Definition lease_holder (t : FleetTaskState) : str := default $"fleet-scheduler" (leased_to t).

(** A stale lease is marked, then retried or failed. *)
Definition recover_stale (context : str) (s : FleetLedgerState) (t : FleetTaskState) (spec : FleetTaskSpec) (report : FleetSchedulerReport)
    : Prog FleetSchedulerReport :=
  let w := lease_holder t in
  let r := entry_run_id (entry t) in
  let task_id := entry_task_id (entry t) in
  let hb := heartbeat_at s w in
  marked ← perform (append_event_if_lease_unchanged r w task_id (attempts (entry t)) (latest_of s (event_key w r task_id)) hb timestamp
                      (EvStale hb));
  match marked with
  | None => mret report
  | Some e => with_context (context ++ task_id) (retry_or_fail s t spec w (seq e) hb (add_report report one_stale))
  end.

Definition recover_task (s : FleetLedgerState) (t : FleetTaskState) (report : FleetSchedulerReport) : Prog FleetSchedulerReport :=
  match task_spec_for s t with
  | None => mret report
  | Some spec =>
      match status t with
      | Leased => if task_is_stale t s then recover_stale $"recovering stale task " s t spec report else mret report
      | Failed =>
          let w := lease_holder t in
          with_context ($"recovering failed task " ++ entry_task_id (entry t))
            (retry_or_fail s t spec w (latest_of s (event_key w (entry_run_id (entry t)) (entry_task_id (entry t)))) (heartbeat_at s w) report)
      | Enqueued | Completed | Cancelled => mret report
      end
  end.

Definition recover_unhealthy_work (r : FleetRunId) (report : FleetSchedulerReport) : Prog FleetSchedulerReport :=
  s ← read; for_each (recover_task s) (tasks_of_run s r) report.

Definition reconcile_task (s : FleetLedgerState) (t : FleetTaskState) (report : FleetSchedulerReport) : Prog FleetSchedulerReport :=
  if negb (is_leased t) || negb (task_is_stale t s) then mret report
  else match task_spec_for s t with
       | None => mret report
       | Some spec => recover_stale $"resuming stale task " s t spec report
       end.

Definition reconcile_stale_leases (r : FleetRunId) (report : FleetSchedulerReport) : Prog FleetSchedulerReport :=
  s ← read; for_each (reconcile_task s) (tasks_of_run s r) report.
End recovery.

(** *** The status of a run *)

Definition run_status_of (ts : list FleetTaskState) : FleetRunStatus :=
  if existsb (fun t => bool_decide (status t = Enqueued) || is_leased t) ts then RunRunning
  else if existsb (fun t => bool_decide (status t = Failed)) ts then RunFailed
  else if existsb (fun t => bool_decide (status t = Cancelled)) ts then RunCancelled
  else RunCompleted.

Definition refresh_run_status (r : FleetRunId) : Prog unit :=
  s ← read; perform (update_run_status r (run_status_of (tasks_of_run s r)) timestamp).

(** *** Launching *)

Definition below_limit (n limit : Z) : bool := negb (limit <=? n).

(** The first worker of the run that has room. *)
Definition free_worker (run : FleetRun) (active : list str) (c : ActiveCounts) : option FleetWorkerSpec :=
  find (fun w => negb (bool_decide (worker_id w ∈ active))
                 && below_limit (default 0 (by_host c !! host_key w)) (max_workers_per_host policy)) (worker_specs run).

Fixpoint pick_launch (run : FleetRun) (active : list str) (c : ActiveCounts) (queued : list FleetTaskState)
    : option (str * FleetTaskState) :=
  match queued with
  | [] => None
  | t :: queued =>
      match find (fun spec => bool_decide (spec_id spec = entry_task_id (entry t))) (task_specs run) with
      | None => None
      | Some spec =>
          if below_limit (default 0 (by_task_class c !! task_class spec)) (max_workers_per_task_class policy)
          then match free_worker run active c with
               | Some w => Some (worker_id w, t)
               | None => pick_launch run active c queued
               end
          else pick_launch run active c queued
      end
  end.

Definition next_launch (run : FleetRun) (s : FleetLedgerState) (c : ActiveCounts) : option (str * FleetTaskState) :=
  pick_launch run (active_workers_for_run s (run_id run)) c (stable_sort queue_le (queued_tasks s (run_id run))).

Inductive launch_step := Launched | Refused | Settled.

(** One round of the loop. *)
Definition launch_once (r : FleetRunId) : Prog launch_step :=
  s ← read;
  match runs s !! r with
  | None => fail ($"fleet run " ++ r ++ $" does not exist")
  | Some run =>
      if max_workers_per_run policy <=? zlen (active_tasks_for_run s r) then mret Settled
      else match next_launch run s (active_counts s run) with
           | None => mret Settled
           | Some (w, t) =>
               started ← perform (start_task_if_enqueued (entry_run_id (entry t)) (entry_task_id (entry t)) w timestamp
                                    (Some lease_expires_at) (Some (max_workers_per_run policy))
                                    [EvLeased (Some lease_expires_at); EvStarting; EvRunning] (Ok tt));
               mret (if (started : bool) then Launched else Refused)
           end
  end.

(** The loop, for as many rounds as the fuel allows; [None] when they are not enough. *)
Fixpoint launch_queued_work (fuel : nat) (r : FleetRunId) (report : FleetSchedulerReport) : Prog (option FleetSchedulerReport) :=
  match fuel with
  | O => mret None
  | S fuel =>
      step ← launch_once r;
      match step with
      | Settled => mret (Some report)
      | Launched => launch_queued_work fuel r (add_report report one_launch)
      | Refused => launch_queued_work fuel r report
      end
  end.

(** *** Passes *)

Definition tick_run (fuel : nat) (r : FleetRunId) : Prog (option FleetSchedulerReport) :=
  report ← recover_unhealthy_work (fun _ _ _ _ => Ok tt) r empty_report;
  report ← launch_queued_work fuel r report;
  match report with
  | None => mret None
  | Some report => _ ← refresh_run_status r; mret (Some report)
  end.

Definition resume_run_with_restart_callback (r : FleetRunId)
    (on_restarting : FleetLedgerState -> FleetTaskState -> FleetTaskSpec -> str -> result str unit) : Prog FleetSchedulerReport :=
  report ← reconcile_stale_leases on_restarting r empty_report;
  _ ← refresh_run_status r;
  mret report.

Definition resume_run (r : FleetRunId) : Prog FleetSchedulerReport := resume_run_with_restart_callback r (fun _ _ _ _ => Ok tt).

Definition cancel_one (reason : str) (t : FleetTaskState) (report : FleetSchedulerReport) : Prog FleetSchedulerReport :=
  if negb (bool_decide (status t = Enqueued)) && negb (is_leased t) then mret report
  else
    done_ ← perform (cancel_task_if_active (entry_run_id (entry t)) (entry_task_id (entry t)) None timestamp (Some reason) (Some $"scheduler"));
    mret (if (done_ : bool) then add_report report one_cancelled else report).

Definition cancel_run (r : FleetRunId) (reason : str) : Prog FleetSchedulerReport :=
  s ← read;
  report ← for_each (cancel_one reason) (tasks_of_run s r) empty_report;
  _ ← perform (update_run_status r RunCancelled timestamp);
  mret report.
End scheduler.

(** ** The manager's views and stop operations *)

Record FleetStatusSnapshot := {
  snap_runs : Z; snap_queued : Z; snap_running : Z; snap_completed : Z; snap_partial : Z; snap_failed : Z; snap_restarted : Z;
  snap_escalated : Z; snap_transport_failed : Z; snap_task_failed : Z; snap_verifier_failed : Z; snap_cancelled : Z; snap_stale : Z;
  snap_workers : gmap str FleetWorkerStatus }.

Definition count {A} (p : A -> bool) (l : list A) : Z := zlen (retain p l).

Module manager.
Section manager.
Context (parse_from_rfc3339 : str -> option Z) (stale_after : Z).

(** [now] is the wall clock of the call; an age that is negative is not stale. *)
Definition task_is_stale (now : Z) (t : FleetTaskState) (s : FleetLedgerState) : bool :=
  match leased_to t with
  | None => true
  | Some w =>
      match heartbeats s !! w with
      | None => true
      | Some hb =>
          match parse_from_rfc3339 (hb_timestamp hb) with
          | None => true
          | Some last => let age := now - last in if age <? 0 then false else stale_after <? age
          end
      end
  end.

Definition selected (run_filter : option FleetRunId) (r : FleetRunId) : bool :=
  match run_filter with Some f => bool_decide (r = f) | None => true end.

Definition status_from_state (now : Z) (run_filter : option FleetRunId) (s : FleetLedgerState) : FleetStatusSnapshot :=
  let ts := retain (fun t => selected run_filter (entry_run_id (entry t))) (btree_values (tasks s)) in
  let rs := retain (fun r => selected run_filter (receipt_run_id r)) (btree_values (receipts s)) in
  let in_status st := count (fun t => bool_decide (status t = st)) ts in
  let events m := count (fun e => selected run_filter (ev_run_id e)) (btree_values m) in
  {| snap_runs := Z.of_nat (size (runs s));
     snap_queued := in_status Enqueued;
     snap_running := count (fun t => is_leased t && negb (task_is_stale now t s)) ts;
     snap_completed := in_status Completed;
     snap_partial := count (fun r => match receipt_result r with Partial => true | _ => false end) rs;
     snap_failed := in_status Failed;
     snap_restarted := events (restarted_events s);
     snap_escalated := events (escalated_events s);
     snap_transport_failed := count (fun r => match failure_kind r with Some Transport => true | _ => false end) rs;
     snap_task_failed := count (fun r => match failure_kind r with Some FailureTask => true | _ => false end) rs;
     snap_verifier_failed := count (fun r => match failure_kind r with Some Verifier => true | _ => false end) rs;
     snap_cancelled := in_status Cancelled;
     snap_stale := count (fun t => is_leased t && task_is_stale now t s) ts;
     snap_workers := workers s |}.

Definition run_has_open_work (now : Z) (r : FleetRunId) (s : FleetLedgerState) : bool :=
  let snap := status_from_state now (Some r) s in 0 <? snap_queued snap + snap_running snap + snap_stale snap.
End manager.

Definition run_status_of (ts : list FleetTaskState) : FleetRunStatus :=
  match ts with
  | [] => RunCompleted
  | _ =>
      if existsb (fun t => bool_decide (status t = Enqueued)) ts || existsb is_leased ts then RunRunning
      else if existsb (fun t => bool_decide (status t = Failed)) ts then RunFailed
      else if existsb (fun t => bool_decide (status t = Cancelled)) ts then RunCancelled
      else RunCompleted
  end.

Definition refresh_run_status (timestamp : str) (r : FleetRunId) : Prog unit :=
  s ← read; with_context $"updating fleet run status" (perform (update_run_status r (run_status_of (tasks_of_run s r)) timestamp)).

Definition stop_one (now signal : str) (t : FleetTaskState) (stopped : gset str * Z) : Prog (gset str * Z) :=
  if negb (bool_decide (status t = Enqueued)) && negb (is_leased t) then mret stopped
  else
    done_ ← perform (cancel_task_if_active (entry_run_id (entry t)) (entry_task_id (entry t)) None now (Some signal) (Some $"operator"));
    mret (if (done_ : bool) then ({[entry_run_id (entry t)]} ∪ stopped.1, stopped.2 + 1) else stopped).

Definition mark_cancelled (later : str) (r : str) (_ : unit) : Prog unit := perform (update_run_status r RunCancelled later).

(** [later] is the instant the statuses of the runs are written at. *)
Definition stop_all (now later : str) : Prog Z :=
  s ← read;
  stopped ← for_each (stop_one now $"stop_all") (btree_values (tasks s)) (∅, 0);
  _ ← for_each (mark_cancelled later) (stable_sort str_le (elements stopped.1)) tt;
  mret stopped.2.

Definition stop_run (now later : str) (r : FleetRunId) : Prog Z :=
  s ← read;
  if bool_decide (is_Some (runs s !! r)) then
    stopped ← for_each (stop_one now $"stop_run") (tasks_of_run s r) (∅, 0);
    _ ← perform (update_run_status r RunCancelled later);
    mret stopped.2
  else fail ($"fleet run " ++ r ++ $" does not exist").

Definition default_local_worker (id name : str) : FleetWorkerSpec :=
  {| worker_id := id; worker_name := name; host := Local; trust_level := Some TrustLocal; worker_labels := ∅;
     capabilities := [$"local"]; max_concurrent_tasks := Some 1 |}.

Definition default_local_workers (r : FleetRunId) (n : nat) : list FleetWorkerSpec :=
  (fun i => default_local_worker (r ++ $"-local-" ++ display_u (Z.of_nat i)) ($"Local worker " ++ display_u (Z.of_nat i))) <$> List.seq 1 n.

(** The queued task a worker is given next. *)
Definition next_enqueued_task_for_run (s : FleetLedgerState) (r : FleetRunId) : option (FleetInboxEntry * FleetTaskSpec) :=
  run ← runs s !! r;
  t ← min_by queue_le (queued_tasks s r);
  spec ← find (fun spec => bool_decide (spec_id spec = entry_task_id (entry t))) (task_specs run);
  Some (entry t, spec).

Definition active_task_for_worker (s : FleetLedgerState) (w : str) : option FleetTaskState :=
  find (leased_by w) (btree_values (tasks s)).
End manager.
