(* ===== verification/FleetSchedulerSpec.v ===== *)
(** * Properties of the fleet scheduler

    What a recovery pass does to every task, that a second pass finds nothing
    left to do, and that launching keeps its bounds and ends. *)

From S2P Require Import Text Json FleetProtocol FleetLedger FleetLedgerFacts FleetLedgerInv FleetLedgerSpec FleetCompact FleetScheduler.

(** ** Programs *)

Lemma perform_eq {A} (op : Op A) l :
  perform op l = match op (replay empty_state l) with Ok (a, rs) => (Ok a, l ++ rs) | Err e => (Err e, l) end.
Proof. done. Qed.

Lemma bind_prog {A B} (m : Prog A) (f : A -> Prog B) l :
  (x ← m; f x) l = match m l with (Ok a, l') => f a l' | (Err e, l') => (Err e, l') end.
Proof. done. Qed.

(** What every step of a program keeps. *)
Definition keeps {A} (P : list FleetLedgerRecord -> Prop) (m : Prog A) : Prop := forall l, P l -> P (m l).2.

Section keeps.
Context (P : list FleetLedgerRecord -> Prop).

Lemma keeps_ret {A} (a : A) : keeps P (mret a).
Proof. by intros l. Qed.

Lemma keeps_bind {A B} (m : Prog A) (f : A -> Prog B) : keeps P m -> (forall a, keeps P (f a)) -> keeps P (m ≫= f).
Proof.
  intros Hm Hf l Hl. unfold mbind, prog_bind. specialize (Hm l Hl). destruct (m l) as [[a|e] l']; [by apply Hf|done].
Qed.

Lemma keeps_read : keeps P read.
Proof. by intros l. Qed.

Lemma keeps_fail {A} e : keeps P (@fail A e).
Proof. by intros l. Qed.

Lemma keeps_context {A} msg (m : Prog A) : keeps P m -> keeps P (with_context msg m).
Proof. intros Hm l Hl. unfold with_context. specialize (Hm l Hl). by destruct (m l) as [[a|e] l']. Qed.

Lemma keeps_for_each {X S} (f : X -> S -> Prog S) xs acc : (forall x a, x ∈ xs -> keeps P (f x a)) -> keeps P (for_each f xs acc).
Proof.
  revert acc. induction xs as [|x xs IH]; intros acc Hf; [apply keeps_ret|]. cbn. apply keeps_bind; [apply Hf; by left|].
  intros a. apply IH. intros y b Hy. apply Hf. by right.
Qed.
End keeps.

Lemma keeps_perform {A} (op : Op A) : guarded op -> keeps Reachable (perform op).
Proof. intros Hg l Hl. by apply reach_step. Qed.

(** A program only appends. *)
Lemma keeps_prefix {A} l0 (op : Op A) : keeps (prefix l0) (perform op).
Proof.
  intros l Hl. rewrite perform_eq. destruct (op _) as [[a rs]|e]; cbn; [|done]. by apply prefix_app_r.
Qed.

Lemma zlen_prefix {A} (l l' : list A) : l `prefix_of` l' -> zlen l <= zlen l'.
Proof. intros [k ->]. rewrite zlen_app. pose proof (zlen_nonneg k). lia. Qed.

(** ** Closure of the passes *)

Create HintDb progs.
#[export] Hint Resolve keeps_ret keeps_read keeps_fail keeps_context keeps_prefix : progs.

Section closure.
Context (parse : str -> option Z) (print : Z -> str) (policy : FleetSchedulerPolicy) (now : Z).
Context (cb : FleetLedgerState -> FleetTaskState -> FleetTaskSpec -> str -> result str unit).
Context (P : list FleetLedgerRecord -> Prop).
(** Operations whose guards hold of themselves keep the property. *)
Context (HP : forall A (op : Op A), guarded op -> keeps P (perform op)).

Lemma keeps_alerts r tk w a spec c : keeps P (record_alerts print now r tk w a spec c).
Proof using HP.
  unfold record_alerts. destruct (alert_policy spec) as [p|]; [|apply keeps_ret]. destruct (alert_policy_matches p c); [|apply keeps_ret].
  apply keeps_for_each. intros x n _. apply keeps_bind; [apply HP; constructor|intros b; apply keeps_ret].
Qed.

Lemma keeps_retry s t spec w n hb rep : keeps P (retry_or_fail print policy now cb s t spec w n hb rep).
Proof using HP.
  unfold retry_or_fail. destruct (_ <? _).
  - apply keeps_bind; [apply HP; constructor|intros b; apply keeps_ret].
  - destruct (decide _); [apply keeps_bind; [apply keeps_alerts|intros b; apply keeps_ret]|].
    apply keeps_bind; [apply HP; constructor|]. intros [e|]; [|apply keeps_ret].
    apply keeps_bind; [apply keeps_alerts|intros b; apply keeps_ret].
Qed.

Lemma keeps_recover_stale ctx s t spec rep : keeps P (recover_stale print policy now cb ctx s t spec rep).
Proof using HP.
  unfold recover_stale. apply keeps_bind; [apply HP; constructor|]. intros [e|]; [|apply keeps_ret]. apply keeps_context, keeps_retry.
Qed.

Lemma keeps_reconcile s t rep : keeps P (reconcile_task parse print policy now cb s t rep).
Proof using HP.
  unfold reconcile_task. destruct (_ || _); [apply keeps_ret|]. destruct (task_spec_for s t); [apply keeps_recover_stale|apply keeps_ret].
Qed.

Lemma keeps_resume r : keeps P (resume_run_with_restart_callback parse print policy now r cb).
Proof using HP.
  unfold resume_run_with_restart_callback, reconcile_stale_leases, refresh_run_status.
  apply keeps_bind; [apply keeps_bind; [apply keeps_read|]|].
  - intros s. apply keeps_for_each. intros t rep _. apply keeps_reconcile.
  - intros rep. apply keeps_bind; [apply keeps_bind; [apply keeps_read|intros s; apply HP; constructor]|intros u; apply keeps_ret].
Qed.
End closure.

(** ** What a step for one task can touch *)

Record touches (k ek w ts : str) (s s' : FleetLedgerState) : Prop := {
  touch_tasks j : j <> k -> tasks s' !! j = tasks s !! j;
  touch_seqs j : j <> ek -> latest_seq s' !! j = latest_seq s !! j;
  touch_heartbeats j : j <> w -> heartbeats s' !! j = heartbeats s !! j;
  touch_runs : runs s' = runs s;
  touch_alive : heartbeat_at s' w = heartbeat_at s w \/ heartbeat_at s' w = Some ts }.

Lemma touches_refl k ek w ts s : touches k ek w ts s s.
Proof. split; auto. Qed.

Lemma touches_trans k ek w ts s1 s2 s3 : touches k ek w ts s1 s2 -> touches k ek w ts s2 s3 -> touches k ek w ts s1 s3.
Proof.
  intros [T1 S1 H1 R1 A1] [T2 S2 H2 R2 A2]. split.
  - intros j Hj. by rewrite T2, T1.
  - intros j Hj. by rewrite S2, S1.
  - intros j Hj. by rewrite H2, H1.
  - congruence.
  - destruct A2 as [->|?]; [done|by right].
Qed.

Lemma touches_event k ek w ts s e : task_key_of_event e = k -> key_of_event e = ek -> touches k ek w ts s (apply_event s e).
Proof.
  intros <- <-. destruct (event_frame s e) as (Hr & _ & Hh & _ & _). split; rewrite ?Hr, ?Hh; try done.
  - intros j Hj. rewrite tasks_apply_event. unfold event_tasks. destruct (terminal_status _); [by rewrite lookup_alter_ne|done].
  - intros j Hj. by apply event_latest_other.
  - left. unfold heartbeat_at. by rewrite Hh.
Qed.

Lemma touches_lease k ek w ts s r tk at_ ex : task_key r tk = k -> touches k ek w ts s (apply_record s (TaskLeased r tk w at_ ex)).
Proof. intros <-. split; try done; [|by left]. intros j Hj. cbn. by rewrite lookup_alter_ne. Qed.

Lemma touches_heartbeat k ek w ts s c m : touches k ek w ts s (apply_record s (Heartbeat w ts c m)).
Proof.
  cbn. unfold apply_heartbeat. split; try (intros j Hj); try (by case_decide); [case_decide; cbn; by rewrite lookup_insert_ne|].
  right. unfold heartbeat_at. case_decide; cbn; by rewrite lookup_insert_eq.
Qed.

Lemma touches_alert k ek w ts s r tk c t a n :
  task_key r tk = k -> event_key w r tk = ek -> touches k ek w ts s (apply_record s (AlertSent r tk c t (Some w) a n)).
Proof.
  intros Hk Hek. cbn. case_decide; [apply touches_refl|]. destruct n as [n|]; [|split; try done; by left].
  rewrite apply_event_on_alerts. destruct (touches_event k ek w ts s (escalation r tk c t w n) Hk Hek) as [T1 S1 H1 R1 A1].
  split; done.
Qed.

(** The prior state shows the alerts of a failed attempt only as they are: they touch no task. *)
Lemma alert_op_touches r tk w a l c ts s x rs :
  record_failed_attempt_alert_once r tk w a l c ts s = Ok (x, rs) ->
  touches (task_key r tk) (event_key w r tk) w ts s (replay s rs) /\ tasks (replay s rs) = tasks s.
Proof.
  unfold record_failed_attempt_alert_once. destruct (tasks s !! _) as [t|]; [|intros [= <- <-]; split; [apply touches_refl|done]].
  destruct (negb _); [intros [= <- <-]; split; [apply touches_refl|done]|]. destruct (_ || _); intros [= <- <-]; (split; [|]).
  - apply touches_refl.
  - done.
  - by apply touches_alert.
  - apply tasks_apply_record.
Qed.

Section effects.
Context (parse : str -> option Z) (print : Z -> str) (policy : FleetSchedulerPolicy) (now : Z).
Context (cb : FleetLedgerState -> FleetTaskState -> FleetTaskSpec -> str -> result str unit).

Abbreviation ts := (timestamp print now).
Abbreviation expires := (lease_expires_at print policy now).

Lemma alerts_touch r tk w a spec c l res l' :
  record_alerts print now r tk w a spec c l = (res, l') ->
  touches (task_key r tk) (event_key w r tk) w ts (replay empty_state l) (replay empty_state l')
  /\ tasks (replay empty_state l') = tasks (replay empty_state l).
Proof.
  intros H. set (P := fun m => touches (task_key r tk) (event_key w r tk) w ts (replay empty_state l) (replay empty_state m)
                              /\ tasks (replay empty_state m) = tasks (replay empty_state l)).
  assert (Hk : keeps P (record_alerts print now r tk w a spec c)).
  { unfold record_alerts. destruct (alert_policy spec) as [p|]; [|apply keeps_ret]. destruct (alert_policy_matches p c); [|apply keeps_ret].
    apply keeps_for_each. intros x n _. apply keeps_bind; [|intros b; apply keeps_ret]. intros m [Hm1 Hm2]. rewrite perform_eq.
    destruct (record_failed_attempt_alert_once _ _ _ _ _ _ _ _) as [[y rs]|e] eqn:E; [|by split]. cbn [snd]. unfold P. rewrite replay_app.
    apply alert_op_touches in E as [E1 E2]. split; [by eapply touches_trans|congruence]. }
  specialize (Hk l). rewrite H in Hk. apply Hk. split; [apply touches_refl|done].
Qed.

(** The budget of a task. *)
Definition retry_budget (spec : FleetTaskSpec) : Z := max_attempts (default default_retry_policy (retry_policy spec)).

Lemma failed_is_terminal reason recoverable : is_terminal_payload (EvFailed reason recoverable) = true.
Proof. done. Qed.

Lemma stale_not_terminal hb : is_terminal_payload (EvStale hb) = false.
Proof. done. Qed.

(** What becomes of a stale lease: it runs again, or it failed for good. *)
Inductive recovered (w : str) (t : FleetTaskState) (spec : FleetTaskSpec) (s' : FleetLedgerState) : FleetTaskState -> Prop :=
  | rec_retried : attempts (entry t) < retry_budget spec -> heartbeat_at s' w = Some ts -> recovered w t spec s' (lease w ts (Some expires) t)
  | rec_failed : retry_budget spec <= attempts (entry t) -> recovered w t spec s' (mark_terminal w ts Failed t).

Definition task_key_of (t : FleetTaskState) : str := task_key (entry_run_id (entry t)) (entry_task_id (entry t)).
Definition event_key_of (w : str) (t : FleetTaskState) : str := event_key w (entry_run_id (entry t)) (entry_task_id (entry t)).

Lemma holds_refl t w : status t = Leased -> leased_to t = Some w -> holds t Leased w (attempts (entry t)) = true.
Proof. intros Hs Hw. by apply holds_spec. Qed.

Lemma elsewhere_free n s t w : Good n s -> tasks s !! task_key_of t = Some t -> status t = Leased -> leased_to t = Some w ->
  leased_elsewhere s (task_key_of t) w = false.
Proof.
  intros HG Ht Hs Hw. apply not_true_iff_false. unfold leased_elsewhere. rewrite existsb_exists.
  intros ([k' t'] & Hin & [Hne Hl]%andb_true_iff). apply bool_decide_eq_true in Hne. cbn in Hne, Hl.
  apply list_elem_of_In, elem_of_btree_entries in Hin. apply Hne. apply (inv_one _ _ (good_inv _ _ HG) k' (task_key_of t) t' t w); try done.
  unfold leased_by, is_leased. by rewrite Hs, Hw, !bool_decide_true.
Qed.

(** A marked lease is retried or failed. *)
Lemma retry_effect l s0 t spec w n rep res l' :
  Reachable l -> zlen l <= u64_max ->
  tasks (replay empty_state l) !! task_key_of t = Some t -> status t = Leased -> leased_to t = Some w ->
  latest_of (replay empty_state l) (event_key_of w t) = n ->
  retry_or_fail print policy now cb s0 t spec w n (heartbeat_at (replay empty_state l) w) rep l = (res, l') ->
  touches (task_key_of t) (event_key_of w t) w ts (replay empty_state l) (replay empty_state l')
  /\ exists t', tasks (replay empty_state l') !! task_key_of t = Some t'
     /\ ((t' = t /\ exists e, res = Err e) \/ recovered w t spec (replay empty_state l') t').
Proof.
  intros Hl Hn Ht Hs Hw Hseq. pose proof (reachable_good l Hl Hn) as HG. set (s := replay empty_state l) in *.
  pose proof (elsewhere_free _ s t w HG Ht Hs Hw) as Hfree. pose proof (holds_refl t w Hs Hw) as Hholds.
  assert (Hun : unchanged s (event_key_of w t) w n (heartbeat_at s w) = true) by (by apply unchanged_spec).
  unfold retry_or_fail. fold (retry_budget spec). destruct (attempts (entry t) <? retry_budget spec) eqn:Eb.
  - rewrite bind_prog, perform_eq. fold s. unfold restart_task_if_unchanged_with_callback. fold (task_key_of t) (event_key_of w t).
    rewrite Ht, Hs, Hholds, Hun, Hfree. cbn [andb negb]. destruct (cb s0 t spec w) as [u|e]; cbn [mbind result_bind].
    + intros [= <- <-]. rewrite replay_app. fold s. split.
      * set (e1 := worker_event _ _ _ _ _ (EvRestarted _)). set (e2 := worker_event _ _ _ _ _ EvRunning). rewrite !replay_cons.
        eapply touches_trans; [by apply touches_lease|]. eapply touches_trans; [by apply (touches_event _ _ w ts _ e1)|].
        eapply touches_trans; [by apply (touches_event _ _ w ts _ e2)|]. apply touches_heartbeat.
      * exists (lease w ts (Some expires) t). split.
        -- rewrite tasks_replay.
           change (alter (lease w ts (Some expires)) (task_key_of t) (tasks s) !! task_key_of t = Some (lease w ts (Some expires) t)).
           by rewrite lookup_alter_eq, Ht.
        -- right. apply rec_retried; [by apply Z.ltb_lt|]. cbn. unfold heartbeat_at, apply_heartbeat. case_decide; cbn; by rewrite lookup_insert_eq.
    + intros [= <- <-]. split; [apply touches_refl|]. exists t. split; [done|]. left. split; [done|]. by exists e.
  - apply Z.ltb_ge in Eb. rewrite Hs. destruct (decide (Leased = Failed)) as [|_]; [done|]. rewrite bind_prog, perform_eq. fold s.
    unfold append_terminal_event_if_lease_unchanged. rewrite failed_is_terminal. cbn [negb].
    unfold append_event_when. fold (task_key_of t) (event_key_of w t). rewrite Ht, Hholds, Hun. cbn [andb].
    set (e := next_worker_event _ _ _ _ _ _). rewrite bind_prog.
    destruct (record_alerts _ _ _ _ _ _ _ _ _) as [res2 l2] eqn:Ea. apply alerts_touch in Ea as [Ha1 Ha2].
    rewrite replay_app in Ha1, Ha2. fold s in Ha1, Ha2. cbn [replay foldl apply_record] in Ha1, Ha2.
    assert (Hout : touches (task_key_of t) (event_key_of w t) w ts s (replay empty_state l2)
                   /\ tasks (replay empty_state l2) !! task_key_of t = Some (mark_terminal w ts Failed t)).
    { split; [by eapply touches_trans; [apply (touches_event _ _ w ts _ e)|]|]. rewrite Ha2, tasks_apply_event.
      change (event_tasks e (tasks s)) with (alter (mark_terminal w ts Failed) (task_key_of t) (tasks s)). by rewrite lookup_alter_eq, Ht. }
    destruct res2; intros [= <- <-]; (split; [apply Hout|]); eexists; (split; [apply Hout|]); right; by apply rec_failed.
Qed.

(** A stale lease the pass read is retried or failed. *)
Lemma recover_effect l ctx s0 t spec w rep res l' :
  Reachable l -> zlen l' <= u64_max ->
  tasks (replay empty_state l) !! task_key_of t = Some t -> status t = Leased -> leased_to t = Some w ->
  latest_of s0 (event_key_of w t) = latest_of (replay empty_state l) (event_key_of w t) ->
  heartbeat_at s0 w = heartbeat_at (replay empty_state l) w ->
  recover_stale print policy now cb ctx s0 t spec rep l = (res, l') ->
  touches (task_key_of t) (event_key_of w t) w ts (replay empty_state l) (replay empty_state l')
  /\ exists t', tasks (replay empty_state l') !! task_key_of t = Some t'
     /\ ((t' = t /\ exists e, res = Err e) \/ recovered w t spec (replay empty_state l') t').
Proof.
  intros Hl Hn Ht Hs Hw Hseq Hhb. unfold recover_stale, lease_holder. cbv zeta. rewrite Hw. cbn [default id]. fold (event_key_of w t). rewrite Hseq, Hhb.
  rewrite bind_prog. unfold append_event_if_lease_unchanged. rewrite perform_eq. set (s := replay empty_state l) in *.
  rewrite stale_not_terminal. unfold append_event_when. fold (task_key_of t) (event_key_of w t).
  rewrite Ht, (holds_refl t w Hs Hw). replace (unchanged _ _ _ _ _) with true by (symmetry; by apply unchanged_spec). cbn [andb].
  set (e := next_worker_event _ _ _ _ _ _). set (l1 := l ++ [EventAppended e]).
  assert (Hl1 : Reachable l1).
  { replace l1 with (transact (append_event_if_leased (entry_run_id (entry t)) w (entry_task_id (entry t)) (attempts (entry t)) ts
      (EvStale (heartbeat_at s w))) l).2; [apply reach_step; [done|constructor]|]. unfold transact, append_event_if_leased, append_event_when. fold s.
    rewrite stale_not_terminal. fold (task_key_of t). rewrite Ht, (holds_refl t w Hs Hw). done. }
  assert (Hpre : forall m, l1 `prefix_of` m -> forall r, (with_context r (retry_or_fail print policy now cb s0 t spec w (seq e) (heartbeat_at s w)
             (add_report rep one_stale)) m).2 = l' -> l1 `prefix_of` l').
  { intros m Hm r <-. apply keeps_context; [|done]. apply keeps_retry. intros A op _. apply keeps_prefix. }
  unfold with_context. destruct (retry_or_fail _ _ _ _ _ _ _ _ _ _ _ l1) as [res1 l2] eqn:Er. intros Hres.
  assert (l2 = l') as -> by (destruct res1; by injection Hres as _ <-).
  assert (Hn1 : zlen l1 <= u64_max).
  { etransitivity; [apply zlen_prefix|exact Hn]. apply (Hpre l1 ltac:(done) []). unfold with_context. rewrite Er. by destruct res1. }
  assert (Hn0 : zlen l + 1 <= u64_max) by (unfold l1 in Hn1; rewrite zlen_app in Hn1; done).
  assert (HG : Good (zlen l) s) by (apply reachable_good; [done|lia]).
  assert (Hf : fresh s e t) by (apply (next_fresh (zlen l)); [done|done|done|done|by rewrite Hs]).
  assert (E1 : replay empty_state l1 = apply_event s e) by (unfold l1; by rewrite replay_app).
  assert (Et : tasks (replay empty_state l1) = tasks s) by (rewrite E1; apply worker_event_tasks; done).
  assert (Eh : heartbeat_at (replay empty_state l1) w = heartbeat_at s w) by (rewrite E1; unfold heartbeat_at; by rewrite (proj1 (proj2 (proj2 (event_frame s e))))).
  assert (Eq : latest_of (replay empty_state l1) (event_key_of w t) = seq e) by (rewrite E1; by eapply worker_event_latest; [apply (good_inv _ _ HG)|exact Hf]).
  rewrite <-Eh in Er. apply retry_effect in Er as (Htouch & t' & Ht' & Hout); [|done|done|by rewrite Et|done|done|done].
  rewrite E1 in Htouch. split; [eapply touches_trans; [by apply (touches_event _ _ w ts s e)|done]|].
  exists t'. split; [done|]. destruct Hout as [[-> [er ->]]|Hout]; [left|by right]. split; [done|]. injection Hres as <-. by eexists.
Qed.

(** The leases a pass recovers. *)
Record needs_recovery (s0 : FleetLedgerState) (t : FleetTaskState) (w : str) (spec : FleetTaskSpec) : Prop := {
  need_leased : status t = Leased;
  need_stale : task_is_stale parse policy now t s0 = true;
  need_worker : leased_to t = Some w;
  need_spec : task_spec_for s0 t = Some spec }.

(** What the pass did to a task it visited. *)
Definition handled (s0 s' : FleetLedgerState) (done_ : bool) (t t' : FleetTaskState) : Prop :=
  (t' = t /\ (done_ = true -> forall w spec, ~ needs_recovery s0 t w spec))
  \/ exists w spec, needs_recovery s0 t w spec /\ recovered w t spec s' t'.

(** The state still shows of a task what the pass read. *)
Definition undisturbed (s0 s : FleetLedgerState) (t : FleetTaskState) : Prop :=
  tasks s !! task_key_of t = Some t
  /\ forall w, status t = Leased -> leased_to t = Some w ->
      latest_of s0 (event_key_of w t) = latest_of s (event_key_of w t) /\ heartbeat_at s0 w = heartbeat_at s w.

Lemma undisturbed_touch n s0 s s' t t2 w :
  Good n s0 -> tasks s0 !! task_key_of t = Some t -> tasks s0 !! task_key_of t2 = Some t2 -> t2 <> t ->
  status t = Leased -> leased_to t = Some w -> touches (task_key_of t) (event_key_of w t) w ts s s' -> undisturbed s0 s t2 -> undisturbed s0 s' t2.
Proof.
  intros HG Ht Ht2 Hne Hs Hw [Tt Ts Th _ _] [Hu Hu2]. assert (Hk : task_key_of t2 <> task_key_of t) by (intros E; rewrite E in Ht2; congruence).
  split; [by rewrite Tt|]. intros w2 Hs2 Hw2. destruct (Hu2 w2 Hs2 Hw2) as [H1 H2].
  assert (Hok : forall u x, tasks s0 !! task_key_of u = Some u -> leased_to u = Some x -> no_colon x).
  { intros u x Hu' Hx. pose proof (task_lease _ _ (inv_task _ _ (good_inv _ _ HG) _ _ Hu')) as Hl. rewrite Hx in Hl. apply Hl. }
  split.
  - rewrite H1. unfold latest_of. rewrite Ts; [done|]. intros E. apply Hk. unfold event_key_of in E.
    apply event_key_inj in E as [_ E]; [done|by apply (Hok t2)|by apply (Hok t)].
  - rewrite H2. unfold heartbeat_at. rewrite Th; [done|]. intros ->. apply Hk.
    apply (inv_one _ _ (good_inv _ _ HG) _ _ t2 t w); try done; unfold leased_by, is_leased; by rewrite ?Hs, ?Hs2, ?Hw, ?Hw2, !bool_decide_true.
Qed.

Lemma reconcile_step n s0 t rep l res l' :
  Good n s0 -> Reachable l -> zlen l' <= u64_max -> tasks s0 !! task_key_of t = Some t -> undisturbed s0 (replay empty_state l) t ->
  reconcile_task parse print policy now cb s0 t rep l = (res, l') ->
  (l' = l /\ is_ok res = true /\ forall w spec, ~ needs_recovery s0 t w spec)
  \/ exists w spec, needs_recovery s0 t w spec
      /\ touches (task_key_of t) (event_key_of w t) w ts (replay empty_state l) (replay empty_state l')
      /\ exists t', tasks (replay empty_state l') !! task_key_of t = Some t'
           /\ ((t' = t /\ is_ok res = false) \/ recovered w t spec (replay empty_state l') t').
Proof.
  intros HG Hl Hn Ht [Hu Hu2]. unfold reconcile_task. destruct (negb (is_leased t) || _) eqn:Eg.
  - intros [= <- <-]. left. split_and!; [done|done|]. intros w spec [Hs Hst _ _]. unfold is_leased in Eg.
    by rewrite Hs, Hst, bool_decide_true in Eg.
  - apply orb_false_iff in Eg as [Hs%negb_false_iff%bool_decide_eq_true Hst%negb_false_iff].
    destruct (task_spec_for s0 t) as [spec|] eqn:Esp; intros Hres.
    + destruct (leased_to t) as [w|] eqn:Ew.
      * right. exists w, spec. split; [by split|]. destruct (Hu2 w Hs eq_refl) as [H1 H2].
        apply (recover_effect l _ s0 t spec w) in Hres as (Htouch & t' & Ht' & Hout); try done. split; [done|]. exists t'. split; [done|].
        destruct Hout as [[-> [e ->]]|Hout]; [by left|by right].
      * pose proof (task_lease _ _ (inv_task _ _ (good_inv _ _ HG) _ _ Ht)) as Hlease. rewrite Ew in Hlease.
        by destruct Hlease as (_ & [[? _]|[? _]]); congruence.
    + injection Hres as <- <-. left. split_and!; [done|done|]. intros w spec [_ _ _ Hsp]. congruence.
Qed.

Definition alive_or (s s' : FleetLedgerState) : Prop := forall w, heartbeat_at s' w = heartbeat_at s w \/ heartbeat_at s' w = Some ts.

Lemma recovered_later w t spec s s' t' : recovered w t spec s t' -> alive_or s s' -> recovered w t spec s' t'.
Proof. intros [Hb Hh|Hb] Ha; [apply rec_retried; [done|]|by apply rec_failed]. destruct (Ha w) as [->|?]; done. Qed.

Lemma touches_alive k ek w s s' : touches k ek w ts s s' -> alive_or s s'.
Proof.
  intros [_ _ Th _ Ta] w'. destruct (decide (w' = w)) as [->|Hne]; [done|]. left. unfold heartbeat_at. by rewrite Th.
Qed.

Lemma reconcile_all n s0 xs rep l res l' :
  Good n s0 -> Reachable l -> zlen l' <= u64_max -> NoDup xs -> (forall t, t ∈ xs -> tasks s0 !! task_key_of t = Some t) ->
  (forall t, t ∈ xs -> undisturbed s0 (replay empty_state l) t) ->
  for_each (reconcile_task parse print policy now cb s0) xs rep l = (res, l') ->
  runs (replay empty_state l') = runs (replay empty_state l)
  /\ (forall k, (forall t, t ∈ xs -> k <> task_key_of t) -> tasks (replay empty_state l') !! k = tasks (replay empty_state l) !! k)
  /\ alive_or (replay empty_state l) (replay empty_state l')
  /\ forall t, t ∈ xs -> exists t', tasks (replay empty_state l') !! task_key_of t = Some t' /\ handled s0 (replay empty_state l') (is_ok res) t t'.
Proof.
  intros HG. revert l rep. induction xs as [|t xs IH]; intros l rep Hl Hn Hnd Hin Hun.
  { intros [= <- <-]. split_and!; [done|done|by left|]. by intros t ?%not_elem_of_nil. }
  apply NoDup_cons in Hnd as [Hnew Hnd]. cbn [for_each]. rewrite bind_prog.
  destruct (reconcile_task parse print policy now cb s0 t rep l) as [res1 l1] eqn:E1.
  assert (Hl1 : Reachable l1).
  { pose proof (keeps_reconcile parse print policy now cb Reachable (fun A op => keeps_perform op) s0 t rep l Hl) as H. by rewrite E1 in H. }
  assert (Hne : forall t2, t2 ∈ xs -> t2 <> t) by (by intros t2 H2 ->).
  assert (Hkey : forall t2, t2 ∈ xs -> task_key_of t2 <> task_key_of t).
  { intros t2 H2 E. pose proof (Hin t ltac:(by left)) as Ha. pose proof (Hin t2 ltac:(by right)) as Hb. rewrite E in Hb.
    apply (Hne t2 H2). congruence. }
  assert (Hstep := fun Hn1 => reconcile_step n s0 t rep l res1 l1 HG Hl Hn1 (Hin t ltac:(by left)) (Hun t ltac:(by left)) E1).
  destruct res1 as [rep1|e].
  - intros Hrest.
    assert (Hn1 : zlen l1 <= u64_max).
    { etransitivity; [|exact Hn]. apply zlen_prefix.
      assert (Hk : keeps (prefix l1) (for_each (reconcile_task parse print policy now cb s0) xs rep1)).
      { apply keeps_for_each. intros x a _. apply keeps_reconcile. intros A op _. apply keeps_prefix. }
      specialize (Hk l1 ltac:(done)). by rewrite Hrest in Hk. }
    destruct (Hstep Hn1) as [(-> & _ & Hnone)|(w & spec & Hneed & Htouch & t' & Ht' & Hout)].
    + destruct (IH l rep1 Hl Hn Hnd) as (H1 & H2 & H3 & H4); [intros t2 ?; apply Hin; by right|intros t2 ?; apply Hun; by right|done|].
      split_and!; [done|intros k Hk; apply H2; intros t2 ?; apply Hk; by right|done|]. intros t2 [->|Ht2]%elem_of_cons; [|by apply H4].
      exists t. rewrite H2 by (intros t2 Ht2 E; by apply (Hkey t2 Ht2)). split; [apply (Hun t); by left|]. left. done.
    + destruct (IH l1 rep1 Hl1 Hn Hnd) as (H1 & H2 & H3 & H4); [intros t2 ?; apply Hin; by right| |done|].
      { intros t2 Ht2. eapply (undisturbed_touch n s0 _ _ t t2 w); try done; [apply Hin; by left|apply Hin; by right|by apply Hne|apply Hneed|apply Hneed|apply Hun; by right]. }
      pose proof (touches_alive _ _ _ _ _ Htouch) as Ha. split_and!.
      * rewrite H1. apply Htouch.
      * intros k Hk. rewrite H2 by (intros t2 ?; apply Hk; by right). apply Htouch. apply Hk. by left.
      * intros x. destruct (H3 x) as [->|?]; [apply Ha|by right].
      * intros t2 [->|Ht2]%elem_of_cons; [|by apply H4]. exists t'. rewrite H2 by (intros t2 Ht2 E; by apply (Hkey t2 Ht2)). split; [done|].
        destruct Hout as [[_ Hf]|Hout]; [done|]. right. exists w, spec. split; [done|]. by eapply recovered_later.
  - intros [= <- <-]. destruct (Hstep Hn) as [(-> & Hok & _)|(w & spec & Hneed & Htouch & t' & Ht' & Hout)]; [done|].
    split_and!; [apply Htouch| |by eapply touches_alive|].
    + intros k Hk. apply Htouch. apply Hk. by left.
    + intros t2 [->|Ht2]%elem_of_cons.
      * exists t'. split; [done|]. destruct Hout as [[-> _]|Hout]; [by left|right]. by exists w, spec.
      * exists t2. rewrite (touch_tasks _ _ _ _ _ _ Htouch) by (by apply Hkey). split; [apply Hun; by right|]. by left.
Qed.

(** *** A whole pass *)

Lemma elem_of_tasks_of_run n s r t : Good n s -> t ∈ tasks_of_run s r <-> entry_run_id (entry t) = r /\ tasks s !! task_key_of t = Some t.
Proof.
  intros HG. unfold tasks_of_run. rewrite elem_of_retain, elem_of_btree_values. unfold of_run. rewrite bool_decide_eq_true. split.
  - intros [Hr [k Hk]]. split; [done|]. by rewrite (task_keyed _ _ (inv_task _ _ (good_inv _ _ HG) k t Hk)) in Hk.
  - intros [Hr Hk]. split; [done|]. by eexists.
Qed.

Lemma tasks_of_run_NoDup n s r : Good n s -> NoDup (tasks_of_run s r).
Proof. intros HG. apply NoDup_retain, (task_values_NoDup HG). Qed.

(** A pass is the recoveries and the status of the run. *)
Lemma resume_parts r l res l' : resume_run_with_restart_callback parse print policy now r cb l = (res, l') ->
  exists rep l1, for_each (reconcile_task parse print policy now cb (replay empty_state l)) (tasks_of_run (replay empty_state l) r) empty_report l = (rep, l1)
    /\ res = rep
    /\ match rep with
       | Ok _ => l' = l1 ++ [RunStatusChanged r (run_status_of (tasks_of_run (replay empty_state l1) r)) ts]
       | Err _ => l' = l1
       end.
Proof.
  unfold resume_run_with_restart_callback, reconcile_stale_leases. rewrite bind_prog. rewrite bind_prog. cbn [read].
  destruct (for_each _ _ _ l) as [[rep|e] l1] eqn:E; intros [= <- <-]; by eexists _, _.
Qed.

Lemma status_frame l r st : let s := replay empty_state l in let s' := replay empty_state (l ++ [RunStatusChanged r st ts]) in
  tasks s' = tasks s /\ heartbeats s' = heartbeats s /\ runs s' = runs s.
Proof. cbv zeta. by rewrite replay_app. Qed.

(** What a pass makes of every task of the ledger. *)
Lemma resume_handles r l res l' :
  Reachable l -> zlen l' <= u64_max -> resume_run_with_restart_callback parse print policy now r cb l = (res, l') ->
  let s := replay empty_state l in let s' := replay empty_state l' in
  runs s' = runs s /\ alive_or s s'
  /\ forall k, match tasks s !! k with
      | None => tasks s' !! k = None
      | Some t => exists t', tasks s' !! k = Some t'
                  /\ (if decide (entry_run_id (entry t) = r) then handled s s' (is_ok res) t t' else t' = t)
      end.
Proof.
  intros Hl Hn Hres s s'. apply resume_parts in Hres as (rep & l1 & Hfor & -> & Hl').
  assert (Hpre : l1 `prefix_of` l') by (destruct rep; subst l'; [by apply prefix_app_r|done]).
  assert (Hn1 : zlen l1 <= u64_max) by (pose proof (zlen_prefix _ _ Hpre); lia).
  assert (Hn0 : zlen l <= u64_max).
  { etransitivity; [apply zlen_prefix|exact Hn1].
    assert (Hk : keeps (prefix l) (for_each (reconcile_task parse print policy now cb s) (tasks_of_run s r) empty_report)).
    { apply keeps_for_each. intros x a _. apply keeps_reconcile. intros A op _. apply keeps_prefix. }
    specialize (Hk l ltac:(done)). unfold s in Hk. by rewrite Hfor in Hk. }
  pose proof (reachable_good l Hl Hn0) as HG. fold s in HG, Hfor. set (s1 := replay empty_state l1) in *.
  assert (Hsame : tasks s' = tasks s1 /\ heartbeats s' = heartbeats s1 /\ runs s' = runs s1).
  { unfold s', s1. destruct rep; subst l'; [apply status_frame|done]. }
  destruct Hsame as (Et & Eh & Er).
  destruct (reconcile_all (zlen l) s (tasks_of_run s r) empty_report l rep l1 HG Hl Hn1) as (H1 & H2 & H3 & H4); try done.
  - by eapply tasks_of_run_NoDup.
  - intros t Ht. by apply (elem_of_tasks_of_run _ _ _ _ HG) in Ht as [_ ?].
  - intros t Ht. apply (elem_of_tasks_of_run _ _ _ _ HG) in Ht as [_ ?]. by split.
  - fold s s1 in H1, H2, H3, H4. split_and!; [congruence|intros w; unfold heartbeat_at; rewrite Eh; apply H3|]. intros k.
    destruct (tasks s !! k) as [t|] eqn:Ht.
    + assert (Hk : k = task_key_of t) by apply (task_keyed _ _ (inv_task _ _ (good_inv _ _ HG) k t Ht)). case_decide as Hr.
      * destruct (H4 t) as (t' & Ht' & Hh); [apply (elem_of_tasks_of_run _ _ _ _ HG); by subst|]. exists t'. rewrite Et, Hk. split; [done|].
        destruct Hh as [?|(w & spec & Hneed & Hrec)]; [by left|right]. exists w, spec. split; [done|].
        apply (recovered_later _ _ _ s1); [done|]. intros x. left. unfold heartbeat_at. by rewrite Eh.
      * exists t. rewrite Et, H2; [done|]. intros t2 Ht2 E. apply (elem_of_tasks_of_run _ _ _ _ HG) in Ht2 as [Hr2 Ht2].
        rewrite <-E, Ht in Ht2. by injection Ht2 as ->.
    + rewrite Et, H2; [done|]. intros t2 Ht2 E. apply (elem_of_tasks_of_run _ _ _ _ HG) in Ht2 as [_ Ht2]. rewrite <-E in Ht2. congruence.
Qed.

(** *** Nothing is left stale *)

(** The instant of the pass reads back as one that is not yet stale. *)
Context (Hclock : exists last, parse ts = Some last /\ 0 <= now - last <= heartbeat_timeout policy).

Lemma beating_not_stale t w s : leased_to t = Some w -> heartbeat_at s w = Some ts -> task_is_stale parse policy now t s = false.
Proof using Hclock.
  destruct Hclock as (last & Hp & Hb). intros Hw Hh. unfold task_is_stale. rewrite Hw. cbn. unfold heartbeat_at in Hh.
  destruct (heartbeats s !! w) as [hb|]; [|done]. injection Hh as Hh. cbn. rewrite Hh, Hp.
  destruct (Z.ltb_spec (now - last) 0); [lia|]. apply Z.ltb_ge. lia.
Qed.

Lemma stale_same t s s' : (forall w, leased_to t = Some w -> heartbeat_at s' w = heartbeat_at s w) ->
  task_is_stale parse policy now t s' = task_is_stale parse policy now t s.
Proof.
  intros Hh. unfold task_is_stale. destruct (leased_to t) as [w|]; [|done]. specialize (Hh w eq_refl). unfold heartbeat_at in Hh. cbn.
  destruct (heartbeats s !! w), (heartbeats s' !! w); try done. cbn. injection Hh as Hh. by rewrite Hh.
Qed.

Lemma handled_rests n s s' t t' :
  Good n s -> runs s' = runs s -> alive_or s s' -> handled s s' true t t' ->
  forall w spec, status t' = Leased -> leased_to t' = Some w -> task_spec_for s' t' = Some spec -> task_is_stale parse policy now t' s' = false.
Proof using Hclock.
  intros HG Hr Ha [[-> Hnone]|(w0 & spec0 & Hneed & Hrec)] w spec Hs Hw Hsp.
  - destruct (Ha w) as [Hh|Hh]; [|by apply (beating_not_stale t w)].
    rewrite (stale_same t s s') by (intros x Hx; rewrite Hw in Hx; by injection Hx as <-).
    destruct (task_is_stale parse policy now t s) eqn:E; [|done]. exfalso. apply (Hnone eq_refl w spec). split; try done.
    unfold task_spec_for in *. by rewrite <-Hr.
  - destruct Hrec as [_ Hh|_]; [|done]. cbn in Hw. injection Hw as ->. by apply (beating_not_stale _ w).
Qed.

Lemma resting_pass s xs rep l : (forall t, t ∈ xs -> is_leased t = false \/ task_is_stale parse policy now t s = false \/ task_spec_for s t = None) ->
  for_each (reconcile_task parse print policy now cb s) xs rep l = (Ok rep, l).
Proof.
  revert rep. induction xs as [|t xs IH]; intros rep Hx; [done|]. cbn [for_each]. rewrite bind_prog.
  assert (E : reconcile_task parse print policy now cb s t rep l = (Ok rep, l)).
  { unfold reconcile_task. destruct (Hx t ltac:(by left)) as [->|[->| ->]]; [done|by rewrite orb_true_r|by destruct (_ || _)]. }
  rewrite E. apply IH. intros t2 Ht2. apply Hx. by right.
Qed.

Lemma resume_again r l rep l' :
  Reachable l -> zlen l' <= u64_max -> resume_run_with_restart_callback parse print policy now r cb l = (Ok rep, l') ->
  exists st, resume_run_with_restart_callback parse print policy now r cb l' = (Ok empty_report, l' ++ [RunStatusChanged r st ts])
    /\ replay empty_state (l' ++ [RunStatusChanged r st ts]) = replay empty_state l'.
Proof using Hclock.
  intros Hl Hn Hres. pose proof (resume_handles r l _ l' Hl Hn Hres) as (Hr & Ha & Hh). 
  assert (Hl' : Reachable l').
  { pose proof (keeps_resume parse print policy now cb Reachable (fun A op => keeps_perform op) r l Hl) as H. by rewrite Hres in H. }
  pose proof (reachable_good l' Hl' Hn) as HG'. set (s' := replay empty_state l') in *.
  assert (Hn0 : zlen l <= u64_max).
  { etransitivity; [apply zlen_prefix|exact Hn].
    pose proof (keeps_resume parse print policy now cb (prefix l) (fun A op _ => keeps_prefix l op) r l ltac:(done)) as H. by rewrite Hres in H. }
  pose proof (reachable_good l Hl Hn0) as HG.
  assert (Hrest : for_each (reconcile_task parse print policy now cb s') (tasks_of_run s' r) empty_report l' = (Ok empty_report, l')).
  { apply resting_pass. intros t' Ht'. apply (elem_of_tasks_of_run _ _ _ _ HG') in Ht' as [Hr' Ht'].
    specialize (Hh (task_key_of t')). destruct (tasks (replay empty_state l) !! task_key_of t') as [t|] eqn:Et; [|fold s' in Hh; congruence].
    destruct Hh as (t2 & Ht2 & Hh). fold s' in Ht2. rewrite Ht' in Ht2. injection Ht2 as <-.
    destruct (is_leased t') eqn:El; [right|by left]. apply bool_decide_eq_true in El.
    destruct (task_spec_for s' t') as [spec|] eqn:Esp; [left|by right].
    assert (Hrun : entry_run_id (entry t) = r).
    { destruct (decide (entry_run_id (entry t) = r)) as [|Hne]; [done|]. by subst t'. }
    rewrite decide_True in Hh by done.
    pose proof (task_lease _ _ (inv_task _ _ (good_inv _ _ HG') _ _ Ht')) as Hlease. destruct (leased_to t') as [w|] eqn:Ew.
    - by apply (handled_rests (zlen l) (replay empty_state l) s' t t' HG Hr Ha Hh w spec).
    - by destruct Hlease as (_ & [[? _]|[? _]]); congruence. }
  exists (run_status_of (tasks_of_run s' r)). split.
  - unfold resume_run_with_restart_callback, reconcile_stale_leases. rewrite bind_prog, bind_prog. cbn [read]. fold s'. rewrite Hrest. done.
  - apply resume_parts in Hres as (rep1 & l1 & _ & <- & E). unfold s'. rewrite E, !replay_app.
    set (s1 := replay empty_state l1). change (tasks_of_run (replay s1 [_]) r) with (tasks_of_run s1 r). cbn. unfold on_overrides. cbn. f_equal.
    apply insert_insert_eq.
Qed.
End effects.

(** C16: a recovery pass acts on stale leases only, and within their budget.
    Resuming a run, whether it succeeds or stops at an error, leaves every task
    of every other run alone, and every task of the run that is not leased to a
    silent worker; a stale lease is given to its worker again, with one more
    attempt, only while its attempts are below the retry budget of its
    specification, and the task fails for good only when they are not.  When
    the pass succeeds no stale lease with a specification is left out. *)
Theorem resume_keeps_the_retry_budget parse print policy now cb r l res l' :
  Reachable l -> resume_run_with_restart_callback parse print policy now r cb l = (res, l') -> zlen l' <= u64_max ->
  let s := replay empty_state l in
  let s' := replay empty_state l' in
  dom (tasks s') = dom (tasks s)
  /\ forall k t, tasks s !! k = Some t ->
     exists t', tasks s' !! k = Some t'
     /\ ((t' = t /\ (is_ok res = true -> entry_run_id (entry t) = r -> forall w spec, ~ needs_recovery parse policy now s t w spec))
         \/ exists w spec, entry_run_id (entry t) = r /\ needs_recovery parse policy now s t w spec
            /\ ((attempts (entry t) < retry_budget spec /\ status t' = Leased /\ leased_to t' = Some w
                 /\ attempts (entry t') = u32_saturating_add (attempts (entry t)) 1 /\ heartbeat_at s' w = Some (timestamp print now))
                \/ (retry_budget spec <= attempts (entry t) /\ status t' = Failed /\ leased_to t' = Some w /\ attempts (entry t') = attempts (entry t)))).
Proof.
  intros Hl Hres Hn s s'. destruct (resume_handles parse print policy now cb r l res l' Hl Hn Hres) as (_ & _ & Hh). split.
  - apply set_eq. intros k. rewrite !elem_of_dom. specialize (Hh k). fold s s' in Hh. destruct (tasks s !! k) as [t|].
    + destruct Hh as (t' & -> & _). split; by eexists.
    + by rewrite Hh.
  - intros k t Ht. specialize (Hh k). fold s s' in Hh. rewrite Ht in Hh. destruct Hh as (t' & Ht' & Hh). exists t'. split; [done|].
    case_decide as Hr; [|by left; split]. destruct Hh as [[-> Hnone]|(w & spec & Hneed & Hrec)]; [left; split; [done|]; auto|right].
    exists w, spec. split; [done|]. split; [done|]. pose proof (need_worker _ _ _ _ _ _ _ Hneed) as Hw.
    destruct Hrec as [Hb Hbeat|Hb]; [left|right]; split_and!; try done. cbn. destruct (str_is_empty w); [done|done].
Qed.

(** C17: resuming is idempotent.  If a resume of a run succeeds and a
    heartbeat written at its instant is not stale at that instant, then
    resuming again at the same instant, with whatever callback the manager
    registered, restarts, fails and alerts nothing: it only writes the status
    of the run again, and the state of the ledger is the same as before. *)
Theorem resume_is_idempotent parse print policy now cb r l rep l' :
  Reachable l -> (exists last, parse (timestamp print now) = Some last /\ 0 <= now - last <= heartbeat_timeout policy) ->
  resume_run_with_restart_callback parse print policy now r cb l = (Ok rep, l') -> zlen l' <= u64_max ->
  exists l'', resume_run_with_restart_callback parse print policy now r cb l' = (Ok empty_report, l'')
    /\ replay empty_state l'' = replay empty_state l'.
Proof.
  intros Hl Hclock Hres Hn. destruct (resume_again parse print policy now cb Hclock r l rep l' Hl Hn Hres) as (st & H1 & H2).
  by eexists.
Qed.

(** ** Launching *)

Section launching.
Context (print : Z -> str) (policy : FleetSchedulerPolicy) (now : Z).

(** Nobody else gives leases to the workers of the run. *)
Definition dedicated (s : FleetLedgerState) (run : FleetRun) : Prop :=
  forall w k t, w ∈ worker_specs run -> tasks s !! k = Some t -> leased_by (worker_id w) t = true -> entry_run_id (entry t) = run_id run.

Lemma pick_launch_Some run active c queued w t : pick_launch policy run active c queued = Some (w, t) ->
  t ∈ queued /\ exists x, x ∈ worker_specs run /\ worker_id x = w /\ w ∉ active.
Proof.
  induction queued as [|u queued IH]; cbn; [done|]. destruct (find _ (task_specs run)); [|done].
  assert (Hrest : pick_launch policy run active c queued = Some (w, t) ->
                  t ∈ u :: queued /\ exists x, x ∈ worker_specs run /\ worker_id x = w /\ w ∉ active).
  { intros [Ht Hx]%IH. split; [by right|done]. }
  destruct (below_limit _ _); [|done]. destruct (free_worker policy run active c) as [x|] eqn:Ex; [|done]. intros [= <- <-].
  split; [by left|]. exists x. unfold free_worker in Ex. apply find_Some in Ex as [Hx [Hn _]%andb_true_iff].
  apply negb_true_iff, bool_decide_eq_false in Hn. done.
Qed.

(** Writing one entry moves one element in a count. *)
Lemma count_update {V} (p : V -> bool) (m : gmap str V) k t t' : m !! k = Some t ->
  zlen (retain p (btree_values (<[k := t']> m))) + (if p t then 1 else 0) = zlen (retain p (btree_values m)) + (if p t' then 1 else 0).
Proof.
  intros Hk. assert (E1 : btree_values m ≡ₚ t :: (map_to_list (delete k m)).*2).
  { rewrite btree_values_perm. rewrite <-(insert_delete_id m k t Hk) at 1. rewrite map_to_list_insert by apply lookup_delete_eq. done. }
  assert (E2 : btree_values (<[k := t']> m) ≡ₚ t' :: (map_to_list (delete k m)).*2).
  { rewrite btree_values_perm, <-insert_delete_eq. rewrite map_to_list_insert by apply lookup_delete_eq. done. }
  unfold retain, zlen. rewrite E1, E2, !filter_cons. destruct (p t), (p t'); repeat case_decide; try done; cbn [length]; lia.
Qed.

Definition worker_names_ok (run : FleetRun) : Prop := Forall (fun x => worker_ok (worker_id x)) (worker_specs run).

(** One round launches the task it picked, or there is nothing to launch. *)
Lemma launch_round l r run :
  Reachable l -> zlen l <= u64_max -> runs (replay empty_state l) !! r = Some run -> dedicated (replay empty_state l) run -> worker_names_ok run ->
  let s := replay empty_state l in
  (launch_once print policy now r l = (Ok Settled, l)
   /\ (max_workers_per_run policy <= zlen (active_tasks_for_run s r) \/ next_launch policy run s (active_counts s run) = None))
  \/ exists rs, launch_once print policy now r l = (Ok Launched, l ++ rs) /\ Reachable (l ++ rs) /\ zlen rs = 5
      /\ let s' := replay empty_state (l ++ rs) in
        runs s' = runs s /\ dedicated s' run
        /\ zlen (queued_tasks s' r) = zlen (queued_tasks s r) - 1
        /\ zlen (active_tasks_for_run s' r) = zlen (active_tasks_for_run s r) + 1
        /\ zlen (active_tasks_for_run s r) < max_workers_per_run policy.
Proof.
  intros Hl Hn Hrun Hded Hok s. pose proof (reachable_good l Hl Hn) as HG. fold s in HG, Hrun, Hded.
  assert (Hid : r = run_id run) by apply (inv_runs _ _ (good_inv _ _ HG) _ _ Hrun).
  unfold launch_once. rewrite bind_prog. cbn [read]. fold s. rewrite Hrun.
  destruct (max_workers_per_run policy <=? zlen (active_tasks_for_run s r)) eqn:Emax; [left; split; [done|left; by apply Z.leb_le]|].
  destruct (next_launch policy run s (active_counts s run)) as [[w t]|] eqn:Enext; [right|left; split; [done|by right]].
  unfold next_launch in Enext. apply pick_launch_Some in Enext as (Hin & x & Hx & Hxw & Hidle). rewrite stable_sort_perm in Hin.
  unfold queued_tasks in Hin. apply elem_of_retain in Hin as [[Hr%bool_decide_eq_true Hs%bool_decide_eq_true]%andb_true_iff Hval].
  apply elem_of_btree_values in Hval as [k Hk]. assert (Ek : k = task_key_of t) by apply (task_keyed _ _ (inv_task _ _ (good_inv _ _ HG) k t Hk)). subst k.
  assert (Hbusy : worker_is_busy s w = false).
  { apply not_true_iff_false. rewrite busy_spec. intros (k2 & t2 & Hk2 & Hl2). apply Hidle. unfold active_workers_for_run.
    apply list_elem_of_omap. exists t2. unfold leased_by in Hl2. apply andb_true_iff in Hl2 as [Hs2 Hw2%bool_decide_eq_true]. split; [|done].
    unfold active_tasks_for_run. apply elem_of_retain. split; [|apply elem_of_btree_values; by exists k2]. rewrite Hs2, andb_true_r.
    apply bool_decide_eq_true. apply (Hded x k2 t2 Hx Hk2). unfold leased_by. rewrite Hs2, Hxw. by rewrite bool_decide_true. }
  set (ts := timestamp print now). set (ex := lease_expires_at print policy now).
  set (op := start_task_if_enqueued (entry_run_id (entry t)) (entry_task_id (entry t)) w ts (Some ex) (Some (max_workers_per_run policy))
               [EvLeased (Some ex); EvStarting; EvRunning] (Ok tt)).
  set (n0 := u64_add (latest_of s (event_key w (entry_run_id (entry t)) (entry_task_id (entry t)))) 1).
  set (rs := TaskLeased (entry_run_id (entry t)) (entry_task_id (entry t)) w ts (Some ex)
             :: initial_event_records n0 (entry_run_id (entry t)) w (entry_task_id (entry t)) ts [EvLeased (Some ex); EvStarting; EvRunning]
             ++ [Heartbeat w ts None None]).
  assert (Eop : op s = Ok (true, rs)).
  { unfold op, start_task_if_enqueued, lease_task_if_enqueued_with_events. fold (task_key_of t).
    rewrite Hk, Hs, bool_decide_false, Hbusy by (by intros []). unfold run_is_full. rewrite Hr, <-Hid, Emax. subst r. by rewrite <-Hr. }
  assert (Hwok : worker_ok w) by (unfold worker_names_ok in Hok; rewrite Forall_forall in Hok; rewrite <-Hxw; by apply Hok).
  exists rs. rewrite bind_prog, perform_eq. fold s op. rewrite Eop. split; [done|]. split; [|split; [done|]].
  { replace (l ++ rs) with (transact op l).2 by (unfold transact; fold s; by rewrite Eop). apply reach_step; [done|].
    apply g_start; [done|by repeat constructor]. }
  assert (Et : tasks (replay empty_state (l ++ rs)) = <[task_key_of t := lease w ts (Some ex) t]> (tasks s)).
  { rewrite replay_app. fold s. rewrite tasks_replay. change (alter (lease w ts (Some ex)) (task_key_of t) (tasks s) = <[task_key_of t := lease w ts (Some ex) t]> (tasks s)).
    pose proof (alter_put (lease w ts (Some ex)) (task_key_of t) s t Hk) as E. by apply (f_equal tasks) in E. }
  assert (Hrof : of_run r t = true) by (unfold of_run; rewrite bool_decide_true; congruence).
  cbv zeta. split_and!.
  - rewrite replay_app. fold s. apply replay_frame. intros y rr. unfold rs. cbn [initial_event_records app]. rewrite !elem_of_cons, elem_of_nil.
    intros [->|[->|[->|[->|[->|[]]]]]]; cbn [apply_record]; [done|apply event_frame..|]. unfold apply_heartbeat. by case_decide.
  - intros y k2 t2 Hy. rewrite Et. intros [[<- <-]|[_ Hk2]]%lookup_insert_Some Hl2; [cbn; by rewrite Hr|by apply (Hded y k2 t2)].
  - unfold queued_tasks. rewrite Et. pose proof (count_update (fun t => of_run r t && bool_decide (status t = Enqueued)) (tasks s) _ _ (lease w ts (Some ex) t) Hk) as E.
    cbn beta in E. rewrite Hrof, Hs in E. change (of_run r (lease w ts (Some ex) t)) with (of_run r t) in E. rewrite Hrof in E. cbn in E.
    rewrite (bool_decide_true (Enqueued = Enqueued)), (bool_decide_false (Leased = Enqueued)) in E by done. lia.
  - unfold active_tasks_for_run. rewrite Et. pose proof (count_update (fun t => of_run r t && is_leased t) (tasks s) _ _ (lease w ts (Some ex) t) Hk) as E.
    cbn beta in E. change (of_run r (lease w ts (Some ex) t)) with (of_run r t) in E. rewrite Hrof in E.
    change (is_leased (lease w ts (Some ex) t)) with true in E. replace (is_leased t) with false in E by (unfold is_leased; by rewrite Hs, bool_decide_false).
    cbn in E. lia.
  - apply Z.leb_gt in Emax. done.
Qed.

Lemma launching_ends fuel : forall l r run report,
  (length (queued_tasks (replay empty_state l) r) < fuel)%nat ->
  Reachable l -> zlen l + 5 * zlen (queued_tasks (replay empty_state l) r) <= u64_max ->
  runs (replay empty_state l) !! r = Some run -> dedicated (replay empty_state l) run -> worker_names_ok run ->
  exists report' l',
    launch_queued_work print policy now fuel r report l = (Ok (Some report'), l') /\ Reachable l'
    /\ let s := replay empty_state l in
      let s' := replay empty_state l' in
      launched report' = launched report + (zlen (queued_tasks s r) - zlen (queued_tasks s' r))
      /\ zlen (active_tasks_for_run s' r) + zlen (queued_tasks s' r) = zlen (active_tasks_for_run s r) + zlen (queued_tasks s r)
      /\ zlen (active_tasks_for_run s' r) <= Z.max (zlen (active_tasks_for_run s r)) (max_workers_per_run policy)
      /\ (max_workers_per_run policy <= zlen (active_tasks_for_run s' r) \/ next_launch policy run s' (active_counts s' run) = None).
Proof.
  induction fuel as [|fuel IH]; intros l r run report Hfuel Hl Hn Hrun Hded Hok; [lia|].
  pose proof (zlen_nonneg (queued_tasks (replay empty_state l) r)) as Hq0. cbn [launch_queued_work]. rewrite bind_prog.
  destruct (launch_round l r run Hl) as [[-> Hend]|(rs & -> & Hl' & Hrs & Hruns & Hded' & Hq & Ha & Hmax)]; [lia|done..| |].
  - exists report, l. split; [done|]. split; [done|]. split_and!; [lia|lia|lia|done].
  - rewrite <-Hruns in Hrun. unfold zlen in Hq at 1 2.
    destruct (IH (l ++ rs) r run (add_report report one_launch)) as (report' & l' & E & Hr' & H1 & H2 & H3 & H4); [|done|..|done|done|done|].
    + apply Nat2Z.inj_lt. lia.
    + rewrite zlen_app, Hrs. unfold zlen at 2. unfold zlen in Hn at 2. lia.
    + exists report', l'. split; [done|]. split; [done|]. cbn [launched add_report one_launch] in H1. unfold zlen in *. split_and!; [lia|lia|lia|done].
Qed.

(** A refused launch is tried again forever. *)
Lemma refusal_repeats l r : launch_once print policy now r l = (Ok Refused, l) ->
  forall fuel report, launch_queued_work print policy now fuel r report l = (Ok None, l).
Proof.
  intros E fuel. induction fuel as [|fuel IH]; intros report; [done|]. cbn [launch_queued_work]. rewrite bind_prog, E. apply IH.
Qed.
End launching.


(** ** Concrete passes *)

(** A clock that prints an instant as its seconds. *)
Definition sample_print (n : Z) : str := display_u (n / second).
Definition sample_parse (s : str) : option Z :=
  if negb (str_is_empty s) && forallb is_ascii_digit s then Some (foldl (fun n c => 10 * n + (Z.of_N c - 48)) 0 s * second) else None.

Definition sample_worker : FleetWorkerSpec := manager.default_local_worker $"w" $"w".
Definition sample_spec (id : str) : FleetTaskSpec :=
  {| spec_id := id; spec_name := id; description := None; objective := None; instructions := $"do"; worker := None; workspace := None;
     input_files := []; context := []; budget := None; tags := []; expected_artifacts := []; scorer := None;
     retry_policy := None; alert_policy := None; timeout_seconds := None; metadata := ∅ |}.
Definition fleet_run (id : str) : FleetRun :=
  {| run_id := id; run_name := id; run_status := RunRunning; max_workers := Some 2; task_specs := [sample_spec $"t"];
     worker_specs := [sample_worker]; labels := ∅; security_policy := None; created_at := $"0"; updated_at := None; run_completed_at := None |}.
Definition fleet_entry (r : str) : FleetInboxEntry :=
  {| entry_run_id := r; entry_task_id := $"t"; priority := 0; enqueued_at := $"0"; lease_deadline := None; attempts := 0 |}.

(** Two runs that name the same worker, with a task each. *)
Definition two_runs : list FleetLedgerRecord :=
  let l := (transact (create_run (fleet_run $"r")) []).2 in
  let l := (transact (enqueue (fleet_entry $"r")) l).2 in
  let l := (transact (create_run (fleet_run $"q")) l).2 in
  (transact (enqueue (fleet_entry $"q")) l).2.

Lemma two_runs_reachable : Reachable two_runs.
Proof.
  unfold two_runs. cbv zeta.
  apply (reach_step (enqueue _)); [|constructor; [by apply no_colon_spec..|done]]. apply (reach_step (create_run _)); [|constructor].
  apply (reach_step (enqueue _)); [|constructor; [by apply no_colon_spec..|done]]. apply (reach_step (create_run _)); constructor.
Qed.

(** The worker leased the task of the first run, ten seconds in. *)
Definition launched_ledger : list FleetLedgerRecord :=
  (transact (start_task_if_enqueued $"r" $"t" $"w" $"10" (Some $"310") (Some 4) [EvLeased (Some $"310"); EvStarting; EvRunning] (Ok tt)) two_runs).2.

Lemma launched_reachable : Reachable launched_ledger.
Proof.
  apply (reach_step (start_task_if_enqueued _ _ _ _ _ _ _ _)); [apply two_runs_reachable|].
  constructor; [split; [by apply no_colon_spec|done]|by repeat constructor].
Qed.

Abbreviation sample_launch := (launch_queued_work sample_print default_policy (10 * second)).
Abbreviation sample_resume l :=
  (resume_run_with_restart_callback sample_parse sample_print default_policy (200 * second) $"r" (fun _ _ _ _ => Ok tt) l).


Lemma resume_keeps_the_retry_budget_witness :
  Reachable launched_ledger /\ zlen (sample_resume launched_ledger).2 = 15
  /\ dom (tasks (replay empty_state (sample_resume launched_ledger).2)) = dom (tasks (replay empty_state launched_ledger)).
Proof.
  split; [exact launched_reachable|]. split; [by vm_compute|].
  apply (resume_keeps_the_retry_budget sample_parse sample_print default_policy (200 * second) (fun _ _ _ _ => Ok tt) $"r" launched_ledger
           (sample_resume launched_ledger).1 (sample_resume launched_ledger).2 launched_reachable); [apply surjective_pairing|by vm_compute].
Defined.

Lemma resume_is_idempotent_witness :
  marked_stale (add_report one_stale one_restart) = 1
  /\ exists l'', sample_resume (sample_resume launched_ledger).2 = (Ok empty_report, l'')
     /\ replay empty_state l'' = replay empty_state (sample_resume launched_ledger).2.
Proof.
  split; [done|].
  apply (resume_is_idempotent sample_parse sample_print default_policy (200 * second) (fun _ _ _ _ => Ok tt) $"r" launched_ledger
           (add_report one_stale one_restart)).
  - exact launched_reachable.
  - exists (200 * second). split; [by vm_compute|split; by vm_compute].
  - rewrite (surjective_pairing (sample_resume launched_ledger)) at 1. f_equal.
  - by vm_compute.
Defined.

(** The worker two runs share: while one run leases it, launching for the other
    picks it again and again, is refused, and never ends. *)
Lemma shared_worker_blocks_launching fuel report : sample_launch fuel $"q" report launched_ledger = (Ok None, launched_ledger).
Proof. apply refusal_repeats. by vm_compute. Qed.

(** A heartbeat ahead of the clock is stale for the scheduler and fresh for the manager. *)
Example staleness_disagrees :
  (fun t => (task_is_stale sample_parse default_policy (5 * second) t (replay empty_state launched_ledger),
             manager.task_is_stale sample_parse (heartbeat_timeout default_policy) (5 * second) t (replay empty_state launched_ledger)))
    <$> tasks (replay empty_state launched_ledger) !! task_key $"r" $"t" = Some (true, false).
Proof. by vm_compute. Qed.
