(* ===== verification/ModelNames.v ===== *)
(** * Model names and endpoints of providers

    The tables of [crates/config/src/provider_defaults.rs] and the functions of
    [crates/config/src/lib.rs] that canonicalize a model name for a provider and
    say which base URLs are a provider's own.  A [match] on a string is the
    table of its arms, read from the top. *)

From S2P Require Import Text Providers.

(** ** Constants *)

Definition DEFAULT_DEEPSEEK_MODEL : str := $"deepseek-v4-pro".
Definition DEFAULT_DEEPSEEK_ANTHROPIC_MODEL : str := DEFAULT_DEEPSEEK_MODEL.
Definition DEFAULT_NVIDIA_NIM_MODEL : str := $"deepseek-ai/deepseek-v4-pro".
Definition DEFAULT_NVIDIA_NIM_FLASH_MODEL : str := $"deepseek-ai/deepseek-v4-flash".
Definition DEFAULT_OPENAI_MODEL : str := $"deepseek-v4-pro".
Definition DEFAULT_DEEPSEEK_BASE_URL : str := $"https://api.deepseek.com/beta".
Definition DEFAULT_DEEPSEEK_ANTHROPIC_BASE_URL : str := $"https://api.deepseek.com/anthropic".
Definition DEFAULT_NVIDIA_NIM_BASE_URL : str := $"https://integrate.api.nvidia.com/v1".
Definition DEFAULT_OPENAI_CODEX_MODEL : str := $"gpt-5.5".
Definition DEFAULT_ANTHROPIC_MODEL : str := $"claude-sonnet-4-6".
Definition DEFAULT_ANTHROPIC_BASE_URL : str := $"https://api.anthropic.com".
Definition DEFAULT_OPENMODEL_MODEL : str := $"deepseek-v4-flash".
Definition DEFAULT_OPENMODEL_BASE_URL : str := $"https://api.openmodel.ai".
Definition DEFAULT_OPENAI_CODEX_BASE_URL : str := $"https://chatgpt.com/backend-api".
Definition DEFAULT_OPENAI_BASE_URL : str := $"https://api.openai.com/v1".
Definition DEFAULT_ATLASCLOUD_MODEL : str := $"deepseek-ai/deepseek-v4-flash".
Definition DEFAULT_ATLASCLOUD_BASE_URL : str := $"https://api.atlascloud.ai/v1".
Definition DEFAULT_WANJIE_ARK_MODEL : str := $"deepseek-reasoner".
Definition DEFAULT_WANJIE_ARK_BASE_URL : str := $"https://maas-openapi.wanjiedata.com/api/v1".
Definition DEFAULT_VOLCENGINE_MODEL : str := $"DeepSeek-V4-Pro".
Definition DEFAULT_VOLCENGINE_BASE_URL : str := $"https://ark.cn-beijing.volces.com/api/coding/v3".
Definition DEFAULT_OPENROUTER_MODEL : str := $"deepseek/deepseek-v4-pro".
Definition DEFAULT_OPENROUTER_FLASH_MODEL : str := $"deepseek/deepseek-v4-flash".
Definition OPENROUTER_ARCEE_TRINITY_LARGE_THINKING_MODEL : str := $"arcee-ai/trinity-large-thinking".
Definition OPENROUTER_GEMMA_4_31B_MODEL : str := $"google/gemma-4-31b-it".
Definition OPENROUTER_GEMMA_4_26B_A4B_MODEL : str := $"google/gemma-4-26b-a4b-it".
Definition OPENROUTER_GLM_5_1_MODEL : str := $"z-ai/glm-5.1".
Definition OPENROUTER_GLM_5_2_MODEL : str := $"z-ai/glm-5.2".
Definition OPENROUTER_KIMI_K2_7_CODE_MODEL : str := $"moonshotai/kimi-k2.7-code".
Definition OPENROUTER_KIMI_K2_6_MODEL : str := $"moonshotai/kimi-k2.6".
Definition OPENROUTER_MINIMAX_M3_MODEL : str := $"minimax/minimax-m3".
Definition OPENROUTER_MINIMAX_M2_7_MODEL : str := $"minimax/minimax-m2.7".
Definition OPENROUTER_NEMOTRON_3_NANO_OMNI_MODEL : str := $"nvidia/nemotron-3-nano-omni-30b-a3b-reasoning:free".
Definition OPENROUTER_QWEN_3_6_FLASH_MODEL : str := $"qwen/qwen3.6-flash".
Definition OPENROUTER_QWEN_3_6_35B_A3B_MODEL : str := $"qwen/qwen3.6-35b-a3b".
Definition OPENROUTER_QWEN_3_6_MAX_PREVIEW_MODEL : str := $"qwen/qwen3.6-max-preview".
Definition OPENROUTER_QWEN_3_6_27B_MODEL : str := $"qwen/qwen3.6-27b".
Definition OPENROUTER_QWEN_3_6_PLUS_MODEL : str := $"qwen/qwen3.6-plus".
Definition OPENROUTER_QWEN_3_7_PLUS_MODEL : str := $"qwen/qwen3.7-plus".
Definition OPENROUTER_QWEN_3_7_MAX_MODEL : str := $"qwen/qwen3.7-max".
Definition OPENROUTER_TENCENT_HY3_PREVIEW_MODEL : str := $"tencent/hy3-preview".
Definition OPENROUTER_XIAOMI_MIMO_V2_5_PRO_MODEL : str := $"xiaomi/mimo-v2.5-pro".
Definition OPENROUTER_XIAOMI_MIMO_V2_5_MODEL : str := $"xiaomi/mimo-v2.5".
Definition DEFAULT_XIAOMI_MIMO_MODEL : str := $"mimo-v2.5-pro".
Definition XIAOMI_MIMO_V2_5_PRO_ULTRASPEED_MODEL : str := $"mimo-v2.5-pro-ultraspeed".
Definition XIAOMI_MIMO_V2_5_OMNI_MODEL : str := $"mimo-v2.5".
Definition XIAOMI_MIMO_ASR_MODEL : str := $"mimo-v2.5-asr".
Definition XIAOMI_MIMO_TTS_MODEL : str := $"mimo-v2.5-tts".
Definition XIAOMI_MIMO_TTS_VOICE_DESIGN_MODEL : str := $"mimo-v2.5-tts-voicedesign".
Definition XIAOMI_MIMO_TTS_VOICE_CLONE_MODEL : str := $"mimo-v2.5-tts-voiceclone".
Definition XIAOMI_MIMO_V2_TTS_MODEL : str := $"mimo-v2-tts".
Definition DEFAULT_NOVITA_MODEL : str := $"deepseek/deepseek-v4-pro".
Definition DEFAULT_NOVITA_FLASH_MODEL : str := $"deepseek/deepseek-v4-flash".
Definition DEFAULT_FIREWORKS_MODEL : str := $"accounts/fireworks/models/deepseek-v4-pro".
Definition DEFAULT_SILICONFLOW_MODEL : str := $"deepseek-ai/DeepSeek-V4-Pro".
Definition DEFAULT_SILICONFLOW_FLASH_MODEL : str := $"deepseek-ai/DeepSeek-V4-Flash".
Definition DEFAULT_ARCEE_MODEL : str := $"trinity-large-thinking".
Definition ARCEE_TRINITY_LARGE_PREVIEW_MODEL : str := $"trinity-large-preview".
Definition ARCEE_TRINITY_MINI_MODEL : str := $"trinity-mini".
Definition DEFAULT_MOONSHOT_MODEL : str := $"kimi-k2.7-code".
Definition MOONSHOT_KIMI_K2_6_MODEL : str := $"kimi-k2.6".
Definition DEFAULT_MOONSHOT_BASE_URL : str := $"https://api.moonshot.ai/v1".
Definition DEFAULT_KIMI_CODE_MODEL : str := $"kimi-for-coding".
Definition DEFAULT_KIMI_CODE_BASE_URL : str := $"https://api.kimi.com/coding/v1".
Definition DEFAULT_SGLANG_MODEL : str := $"deepseek-ai/DeepSeek-V4-Pro".
Definition DEFAULT_SGLANG_FLASH_MODEL : str := $"deepseek-ai/DeepSeek-V4-Flash".
Definition DEFAULT_OPENROUTER_BASE_URL : str := $"https://openrouter.ai/api/v1".
Definition XIAOMI_MIMO_PAY_AS_YOU_GO_BASE_URL : str := $"https://api.xiaomimimo.com/v1".
Definition DEFAULT_XIAOMI_MIMO_BASE_URL : str := $"https://token-plan-sgp.xiaomimimo.com/v1".
Definition XIAOMI_MIMO_TOKEN_PLAN_CN_BASE_URL : str := $"https://token-plan-cn.xiaomimimo.com/v1".
Definition XIAOMI_MIMO_TOKEN_PLAN_SGP_BASE_URL : str := DEFAULT_XIAOMI_MIMO_BASE_URL.
Definition XIAOMI_MIMO_TOKEN_PLAN_AMS_BASE_URL : str := $"https://token-plan-ams.xiaomimimo.com/v1".
Definition DEFAULT_NOVITA_BASE_URL : str := $"https://api.novita.ai/openai/v1".
Definition DEFAULT_FIREWORKS_BASE_URL : str := $"https://api.fireworks.ai/inference/v1".
Definition DEFAULT_SILICONFLOW_BASE_URL : str := $"https://api.siliconflow.com/v1".
Definition DEFAULT_SILICONFLOW_CN_BASE_URL : str := $"https://api.siliconflow.cn/v1".
Definition DEFAULT_ARCEE_BASE_URL : str := $"https://api.arcee.ai/api/v1".
Definition DEFAULT_HUGGINGFACE_MODEL : str := $"deepseek-ai/DeepSeek-V4-Pro".
Definition DEFAULT_HUGGINGFACE_FLASH_MODEL : str := $"deepseek-ai/DeepSeek-V4-Flash".
Definition DEFAULT_HUGGINGFACE_BASE_URL : str := $"https://router.huggingface.co/v1".
Definition DEFAULT_TOGETHER_MODEL : str := $"deepseek-ai/DeepSeek-V4-Pro".
Definition DEFAULT_TOGETHER_FLASH_MODEL : str := $"deepseek-ai/DeepSeek-V4-Flash".
Definition DEFAULT_TOGETHER_BASE_URL : str := $"https://api.together.xyz/v1".
Definition DEFAULT_QIANFAN_MODEL : str := $"ernie-4.0-turbo-8k".
Definition DEFAULT_QIANFAN_BASE_URL : str := $"https://api.baiduqianfan.ai/v1".
Definition DEFAULT_SGLANG_BASE_URL : str := $"http://localhost:30000/v1".
Definition DEFAULT_VLLM_MODEL : str := $"deepseek-ai/DeepSeek-V4-Pro".
Definition DEFAULT_VLLM_FLASH_MODEL : str := $"deepseek-ai/DeepSeek-V4-Flash".
Definition DEFAULT_VLLM_BASE_URL : str := $"http://localhost:8000/v1".
Definition DEFAULT_OLLAMA_MODEL : str := $"deepseek-v4-flash".
Definition DEFAULT_OLLAMA_BASE_URL : str := $"http://localhost:11434/v1".
Definition DEFAULT_ZAI_MODEL : str := $"GLM-5.2".
Definition ZAI_GLM_5_1_MODEL : str := $"GLM-5.1".
Definition ZAI_GLM_5_2_MODEL : str := $"GLM-5.2".
Definition ZAI_GLM_5_TURBO_MODEL : str := $"GLM-5-Turbo".
Definition DEFAULT_ZAI_BASE_URL : str := $"https://api.z.ai/api/coding/paas/v4".
Definition DEFAULT_STEPFUN_MODEL : str := $"step-3.7-flash".
Definition DEFAULT_STEPFUN_BASE_URL : str := $"https://api.stepfun.ai/v1".
Definition DEFAULT_MINIMAX_MODEL : str := $"MiniMax-M3".
Definition MINIMAX_M2_7_MODEL : str := $"MiniMax-M2.7".
Definition MINIMAX_M2_7_HIGHSPEED_MODEL : str := $"MiniMax-M2.7-highspeed".
Definition MINIMAX_M2_5_MODEL : str := $"MiniMax-M2.5".
Definition MINIMAX_M2_5_HIGHSPEED_MODEL : str := $"MiniMax-M2.5-highspeed".
Definition MINIMAX_M2_1_MODEL : str := $"MiniMax-M2.1".
Definition MINIMAX_M2_1_HIGHSPEED_MODEL : str := $"MiniMax-M2.1-highspeed".
Definition MINIMAX_M2_MODEL : str := $"MiniMax-M2".
Definition DEFAULT_MINIMAX_BASE_URL : str := $"https://api.minimax.io/v1".
Definition DEFAULT_MINIMAX_ANTHROPIC_BASE_URL : str := $"https://api.minimax.io/anthropic".
Definition DEFAULT_DEEPINFRA_MODEL : str := $"deepseek-ai/DeepSeek-V4-Pro".
Definition DEFAULT_DEEPINFRA_FLASH_MODEL : str := $"deepseek-ai/DeepSeek-V4-Flash".
Definition DEFAULT_DEEPINFRA_BASE_URL : str := $"https://api.deepinfra.com/v1/openai".
Definition DEFAULT_SAKANA_MODEL : str := $"fugu".
Definition DEFAULT_SAKANA_BASE_URL : str := $"https://api.sakana.ai/v1".
Definition DEFAULT_LONGCAT_MODEL : str := $"LongCat-2.0".
Definition DEFAULT_LONGCAT_BASE_URL : str := $"https://api.longcat.chat/openai/v1".
Definition DEFAULT_OPENCODE_GO_MODEL : str := $"deepseek-v4-pro".
Definition DEFAULT_OPENCODE_GO_BASE_URL : str := $"https://opencode.ai/zen/go/v1".
Definition OPENCODE_GO_GROK_4_5_MODEL : str := $"grok-4.5".
Definition OPENCODE_GO_GLM_5_2_MODEL : str := $"glm-5.2".
Definition OPENCODE_GO_GLM_5_1_MODEL : str := $"glm-5.1".
Definition OPENCODE_GO_KIMI_K3_MODEL : str := $"kimi-k3".
Definition OPENCODE_GO_KIMI_K2_7_CODE_MODEL : str := $"kimi-k2.7-code".
Definition OPENCODE_GO_KIMI_K2_6_MODEL : str := $"kimi-k2.6".
Definition OPENCODE_GO_DEEPSEEK_V4_FLASH_MODEL : str := $"deepseek-v4-flash".
Definition OPENCODE_GO_MIMO_V2_5_MODEL : str := $"mimo-v2.5".
Definition OPENCODE_GO_MIMO_V2_5_PRO_MODEL : str := $"mimo-v2.5-pro".
Definition DEFAULT_OPENCODE_ZEN_MODEL : str := $"gpt-5.5".
Definition DEFAULT_OPENCODE_ZEN_BASE_URL : str := $"https://opencode.ai/zen/v1".
Definition DEFAULT_META_MODEL : str := $"muse-spark-1.1".
Definition DEFAULT_META_BASE_URL : str := $"https://api.meta.ai/v1".
Definition DEFAULT_XAI_MODEL : str := $"grok-4.5".
Definition DEFAULT_XAI_BASE_URL : str := $"https://api.x.ai/v1".
Definition DEFAULT_TELECOMJS_MODEL : str := $"deepseek-v4-pro".
Definition DEFAULT_TELECOMJS_BASE_URL : str := $"https://aigw.telecomjs.com/v1".

(** ** Tables of names *)

(** [match s { names => value, ... }]. *)
Fixpoint match_text {A} (s : str) (arms : list (list str * A)) : option A :=
  match arms with
  | [] => None
  | (names, a) :: arms => if is_one_of s names then Some a else match_text s arms
  end.

(** [replace(['_', ' '], "-")] and the normalization in front of the tables. *)
Definition dashed (s : str) : str :=
  replace_chars (fun c => (N.eqb c (chr "_") || N.eqb c (chr " "))%bool) $"-" s.
Definition name_key (model : str) : str := dashed (to_ascii_lowercase (trim model)).

Definition OPENCODE_GO_CHAT_MODELS : list str :=
  [DEFAULT_OPENCODE_GO_MODEL; OPENCODE_GO_GROK_4_5_MODEL; OPENCODE_GO_GLM_5_2_MODEL;
   OPENCODE_GO_GLM_5_1_MODEL; OPENCODE_GO_KIMI_K3_MODEL; OPENCODE_GO_KIMI_K2_7_CODE_MODEL;
   OPENCODE_GO_KIMI_K2_6_MODEL; OPENCODE_GO_DEEPSEEK_V4_FLASH_MODEL; OPENCODE_GO_MIMO_V2_5_MODEL;
   OPENCODE_GO_MIMO_V2_5_PRO_MODEL].

Definition opencode_go_aliases : list (list str * str) :=
  [
    ([$"grok-4-5"], OPENCODE_GO_GROK_4_5_MODEL);
    ([$"glm-5-2"], OPENCODE_GO_GLM_5_2_MODEL);
    ([$"glm-5-1"], OPENCODE_GO_GLM_5_1_MODEL);
    ([$"kimi-k2-7-code"], OPENCODE_GO_KIMI_K2_7_CODE_MODEL);
    ([$"kimi-k2-6"], OPENCODE_GO_KIMI_K2_6_MODEL);
    ([$"deepseek-v4pro"], DEFAULT_OPENCODE_GO_MODEL);
    ([$"deepseek-v4flash"], OPENCODE_GO_DEEPSEEK_V4_FLASH_MODEL);
    ([$"mimo-v2-5"], OPENCODE_GO_MIMO_V2_5_MODEL);
    ([$"mimo-v2-5-pro"], OPENCODE_GO_MIMO_V2_5_PRO_MODEL)].

Definition opencode_go_chat_model_id (model : str) : option str :=
  let normalized := name_key model in
  let normalized := default normalized (strip_prefix $"opencode-go/" normalized) in
  match match_text normalized opencode_go_aliases with
  | Some id => Some id
  | None => find (fun candidate => bool_decide (candidate = normalized)) OPENCODE_GO_CHAT_MODELS
  end.

Definition xiaomi_mimo_aliases : list (list str * str) :=
  [
    ([$"mimo"; DEFAULT_XIAOMI_MIMO_MODEL; $"mimo-v2-5-pro"; $"xiaomi-mimo-v2.5-pro";
      $"xiaomi-mimo-v2-5-pro"],
     DEFAULT_XIAOMI_MIMO_MODEL);
    ([XIAOMI_MIMO_V2_5_PRO_ULTRASPEED_MODEL; $"mimo-v2-5-pro-ultraspeed";
      $"xiaomi-mimo-v2.5-pro-ultraspeed"; $"xiaomi-mimo-v2-5-pro-ultraspeed"; $"ultraspeed";
      $"pro-ultraspeed"],
     XIAOMI_MIMO_V2_5_PRO_ULTRASPEED_MODEL);
    ([$"omni"; $"mimo-omni"; $"v2.5-omni"; $"v25-omni"; $"mimo-v2.5"; $"mimo-v25"; $"mimo-v2-5";
      $"mimo-v2.5-omni"; $"mimo-v25-omni"; $"mimo-v2-5-omni"; $"xiaomi-mimo-v2.5";
      $"xiaomi-mimo-v2-5"; $"xiaomi-mimo-v2.5-omni"; $"xiaomi-mimo-v2-5-omni"],
     XIAOMI_MIMO_V2_5_OMNI_MODEL);
    ([$"asr"; $"mimo-asr"; $"mimo-v2.5-asr"; $"speech-to-text"; $"transcribe"],
     XIAOMI_MIMO_ASR_MODEL);
    ([$"mimo-tts"; $"mimo-v25-tts"; $"mimo-v2.5-tts"; $"tts"; $"speech"],
     XIAOMI_MIMO_TTS_MODEL);
    ([$"mimo-tts-voicedesign"; $"mimo-voice-design"; $"mimo-v25-tts-voicedesign";
      $"mimo-v2.5-tts-voicedesign"; $"voicedesign"; $"voice-design"],
     XIAOMI_MIMO_TTS_VOICE_DESIGN_MODEL);
    ([$"mimo-tts-voiceclone"; $"mimo-voice-clone"; $"mimo-v25-tts-voiceclone";
      $"mimo-v2.5-tts-voiceclone"; $"voiceclone"; $"voice-clone"],
     XIAOMI_MIMO_TTS_VOICE_CLONE_MODEL);
    ([$"mimo-v2-tts"],
     XIAOMI_MIMO_V2_TTS_MODEL)].
Definition canonical_xiaomi_mimo_model_id (model : str) : option str :=
  match_text (name_key model) xiaomi_mimo_aliases.

Definition minimax_aliases : list (list str * str) :=
  [
    ([$"minimax"; $"minimax-m3"; $"minimax-m-3"; $"minimax-m-3-thinking"],
     DEFAULT_MINIMAX_MODEL);
    ([$"minimax-m2.7"; $"minimax-m2-7"; $"minimax-m-2.7"; $"minimax-m-2-7"],
     MINIMAX_M2_7_MODEL);
    ([$"minimax-m2.7-highspeed"; $"minimax-m2-7-highspeed"; $"minimax-m-2.7-highspeed";
      $"minimax-m-2-7-highspeed"],
     MINIMAX_M2_7_HIGHSPEED_MODEL);
    ([$"minimax-m2.5"; $"minimax-m2-5"; $"minimax-m-2.5"; $"minimax-m-2-5"],
     MINIMAX_M2_5_MODEL);
    ([$"minimax-m2.5-highspeed"; $"minimax-m2-5-highspeed"; $"minimax-m-2.5-highspeed";
      $"minimax-m-2-5-highspeed"],
     MINIMAX_M2_5_HIGHSPEED_MODEL);
    ([$"minimax-m2.1"; $"minimax-m2-1"; $"minimax-m-2.1"; $"minimax-m-2-1"],
     MINIMAX_M2_1_MODEL);
    ([$"minimax-m2.1-highspeed"; $"minimax-m2-1-highspeed"; $"minimax-m-2.1-highspeed";
      $"minimax-m-2-1-highspeed"],
     MINIMAX_M2_1_HIGHSPEED_MODEL);
    ([$"minimax-m2"; $"minimax-m-2"],
     MINIMAX_M2_MODEL)].
Definition canonical_minimax_model_id (model : str) : option str :=
  match_text (name_key model) minimax_aliases.

Definition zai_aliases : list (list str * str) :=
  [
    ([$"glm-5.1"; $"glm-5-1"; $"zai-glm-5.1"; $"zai-glm-5-1"],
     ZAI_GLM_5_1_MODEL);
    ([$"glm-5.2"; $"glm-5-2"; $"zai-glm-5.2"; $"zai-glm-5-2"],
     DEFAULT_ZAI_MODEL);
    ([$"glm-5-turbo"; $"glm-5turbo"; $"zai-glm-5-turbo"],
     ZAI_GLM_5_TURBO_MODEL)].
Definition canonical_zai_model_id (model : str) : option str :=
  match_text (name_key model) zai_aliases.

Definition openrouter_aliases : list (list str * str) :=
  [
    ([OPENROUTER_ARCEE_TRINITY_LARGE_THINKING_MODEL; $"trinity"; $"trinity-large-thinking";
      $"arcee-trinity"; $"arcee-trinity-large-thinking"],
     OPENROUTER_ARCEE_TRINITY_LARGE_THINKING_MODEL);
    ([OPENROUTER_GEMMA_4_31B_MODEL; $"gemma-4-31b"; $"gemma-4-31b-it"],
     OPENROUTER_GEMMA_4_31B_MODEL);
    ([OPENROUTER_GEMMA_4_26B_A4B_MODEL; $"gemma-4-26b-a4b"; $"gemma-4-26b-a4b-it"],
     OPENROUTER_GEMMA_4_26B_A4B_MODEL);
    ([OPENROUTER_GLM_5_1_MODEL; $"glm-5.1"; $"glm-5-1"; $"zai-glm-5.1"; $"zai-glm-5-1"],
     OPENROUTER_GLM_5_1_MODEL);
    ([OPENROUTER_GLM_5_2_MODEL; $"glm-5.2"; $"glm-5-2"; $"zai-glm-5.2"; $"zai-glm-5-2"],
     OPENROUTER_GLM_5_2_MODEL);
    ([OPENROUTER_KIMI_K2_7_CODE_MODEL; $"kimi"; $"kimi-k2"; $"kimi-k2.7"; $"kimi-k2-7";
      $"kimi-k2.7-code"; $"kimi-k2-7-code"; $"kimi-code"; $"moonshot-kimi-k2.7-code";
      $"openrouter-kimi-k2.7-code"],
     OPENROUTER_KIMI_K2_7_CODE_MODEL);
    ([OPENROUTER_KIMI_K2_6_MODEL; $"kimi-k2.6"; $"kimi-k2-6"; $"moonshot-kimi-k2.6"],
     OPENROUTER_KIMI_K2_6_MODEL);
    ([OPENROUTER_MINIMAX_M3_MODEL; $"minimax-m3"; $"minimax-m-3"],
     OPENROUTER_MINIMAX_M3_MODEL);
    ([OPENROUTER_MINIMAX_M2_7_MODEL; $"minimax-2.7"; $"minimax-2-7"; $"minimax-m2.7";
      $"minimax-m2-7"; $"minimax-m-2.7"; $"minimax-m-2-7"],
     OPENROUTER_MINIMAX_M2_7_MODEL);
    ([OPENROUTER_NEMOTRON_3_NANO_OMNI_MODEL; $"nemotron-3-nano-omni";
      $"nemotron-3-nano-omni-reasoning"],
     OPENROUTER_NEMOTRON_3_NANO_OMNI_MODEL);
    ([OPENROUTER_QWEN_3_6_35B_A3B_MODEL; $"qwen3.6-35b-a3b"; $"qwen-3.6-35b-a3b"; $"qwen3-6-35b-a3b"],
     OPENROUTER_QWEN_3_6_35B_A3B_MODEL);
    ([OPENROUTER_QWEN_3_6_FLASH_MODEL; $"qwen3.6-flash"; $"qwen-3.6-flash"],
     OPENROUTER_QWEN_3_6_FLASH_MODEL);
    ([OPENROUTER_QWEN_3_6_MAX_PREVIEW_MODEL; $"qwen3.6-max-preview"; $"qwen-3.6-max-preview";
      $"qwen-max-preview"],
     OPENROUTER_QWEN_3_6_MAX_PREVIEW_MODEL);
    ([OPENROUTER_QWEN_3_6_27B_MODEL; $"qwen3.6-27b"; $"qwen-3.6-27b"; $"qwen3-6-27b"],
     OPENROUTER_QWEN_3_6_27B_MODEL);
    ([OPENROUTER_QWEN_3_6_PLUS_MODEL; $"qwen3.6-plus"; $"qwen-3.6-plus"],
     OPENROUTER_QWEN_3_6_PLUS_MODEL);
    ([OPENROUTER_QWEN_3_7_PLUS_MODEL; $"qwen3.7-plus"; $"qwen-3.7-plus"],
     OPENROUTER_QWEN_3_7_PLUS_MODEL);
    ([OPENROUTER_QWEN_3_7_MAX_MODEL; $"qwen3.7-max"; $"qwen-3.7-max"],
     OPENROUTER_QWEN_3_7_MAX_MODEL);
    ([OPENROUTER_TENCENT_HY3_PREVIEW_MODEL; $"hy3-preview"; $"tencent-hy3-preview"],
     OPENROUTER_TENCENT_HY3_PREVIEW_MODEL);
    ([OPENROUTER_XIAOMI_MIMO_V2_5_PRO_MODEL; $"mimo-v2.5-pro"; $"mimo-v2-5-pro";
      $"xiaomi-mimo-v2.5-pro"; $"xiaomi-mimo-v2-5-pro"],
     OPENROUTER_XIAOMI_MIMO_V2_5_PRO_MODEL);
    ([OPENROUTER_XIAOMI_MIMO_V2_5_MODEL; $"mimo-v2.5"; $"mimo-v2-5"; $"xiaomi-mimo-v2.5";
      $"xiaomi-mimo-v2-5"],
     OPENROUTER_XIAOMI_MIMO_V2_5_MODEL)].
Definition canonical_openrouter_recent_model_id (model : str) : option str :=
  match_text (name_key model) openrouter_aliases.

(** ** Canonical names *)

(** [match (provider, normalized.as_str())]. *)
Fixpoint match_provider (provider : ProviderKind) (s : str)
    (arms : list (list ProviderKind * list str * str)) : option str :=
  match arms with
  | [] => None
  | (kinds, names, a) :: arms =>
      if bool_decide (provider ∈ kinds) && is_one_of s names then Some a else match_provider provider s arms
  end.

Definition deepseek_aliases : list (list ProviderKind * list str * str) :=
  [
    ([ProviderKind.NvidiaNim],
     [$"deepseek-v4-pro"; $"deepseek-v4pro"],
     DEFAULT_NVIDIA_NIM_MODEL);
    ([ProviderKind.NvidiaNim],
     [$"deepseek-v4-flash"; $"deepseek-v4flash"; $"deepseek-chat"; $"deepseek-reasoner";
      $"deepseek-r1"; $"deepseek-v3"; $"deepseek-v3.2"],
     DEFAULT_NVIDIA_NIM_FLASH_MODEL);
    ([ProviderKind.Openrouter],
     [$"deepseek-v4-pro"; $"deepseek-v4pro"],
     DEFAULT_OPENROUTER_MODEL);
    ([ProviderKind.Openrouter],
     [$"deepseek-v4-flash"; $"deepseek-v4flash"; $"deepseek-chat"; $"deepseek-reasoner";
      $"deepseek-r1"; $"deepseek-v3"; $"deepseek-v3.2"],
     DEFAULT_OPENROUTER_FLASH_MODEL);
    ([ProviderKind.Novita],
     [$"deepseek-v4-pro"; $"deepseek-v4pro"],
     DEFAULT_NOVITA_MODEL);
    ([ProviderKind.Novita],
     [$"deepseek-v4-flash"; $"deepseek-v4flash"; $"deepseek-chat"; $"deepseek-reasoner";
      $"deepseek-r1"; $"deepseek-v3"; $"deepseek-v3.2"],
     DEFAULT_NOVITA_FLASH_MODEL);
    ([ProviderKind.Fireworks],
     [$"deepseek-v4-pro"; $"deepseek-v4pro"],
     DEFAULT_FIREWORKS_MODEL);
    ([ProviderKind.Siliconflow; ProviderKind.SiliconflowCN],
     [$"deepseek-v4-pro"; $"deepseek-v4pro"; $"deepseek-reasoner"; $"deepseek-r1"],
     DEFAULT_SILICONFLOW_MODEL);
    ([ProviderKind.Siliconflow; ProviderKind.SiliconflowCN],
     [$"deepseek-v4-flash"; $"deepseek-v4flash"; $"deepseek-chat"; $"deepseek-v3"],
     DEFAULT_SILICONFLOW_FLASH_MODEL);
    ([ProviderKind.Arcee],
     [$"trinity"; $"arcee-trinity"; $"trinity-large-thinking"; $"arcee-trinity-large-thinking"],
     DEFAULT_ARCEE_MODEL);
    ([ProviderKind.Arcee],
     [$"trinity-mini"; $"arcee-trinity-mini"],
     ARCEE_TRINITY_MINI_MODEL);
    ([ProviderKind.Arcee],
     [$"arcee-trinity-large-preview"],
     ARCEE_TRINITY_LARGE_PREVIEW_MODEL);
    ([ProviderKind.Moonshot],
     [$"kimi"; $"kimi-k2"; $"kimi-k2.7"; $"kimi-k2-7"; $"kimi-k2.7-code"; $"kimi-k2-7-code";
      $"kimi-code"; $"moonshot-kimi-k2.7-code"],
     DEFAULT_MOONSHOT_MODEL);
    ([ProviderKind.Moonshot],
     [$"kimi-k2.6"; $"kimi-k2-6"; $"moonshot-kimi-k2.6"],
     MOONSHOT_KIMI_K2_6_MODEL);
    ([ProviderKind.Sglang],
     [$"deepseek-v4-pro"; $"deepseek-v4pro"],
     DEFAULT_SGLANG_MODEL);
    ([ProviderKind.Sglang],
     [$"deepseek-v4-flash"; $"deepseek-v4flash"; $"deepseek-chat"; $"deepseek-reasoner";
      $"deepseek-r1"; $"deepseek-v3"; $"deepseek-v3.2"],
     DEFAULT_SGLANG_FLASH_MODEL);
    ([ProviderKind.Vllm],
     [$"deepseek-v4-pro"; $"deepseek-v4pro"],
     DEFAULT_VLLM_MODEL);
    ([ProviderKind.Vllm],
     [$"deepseek-v4-flash"; $"deepseek-v4flash"; $"deepseek-chat"; $"deepseek-reasoner";
      $"deepseek-r1"; $"deepseek-v3"; $"deepseek-v3.2"],
     DEFAULT_VLLM_FLASH_MODEL);
    ([ProviderKind.Huggingface],
     [$"deepseek-v4-pro"; $"deepseek-v4pro"],
     DEFAULT_HUGGINGFACE_MODEL);
    ([ProviderKind.Huggingface],
     [$"deepseek-v4-flash"; $"deepseek-v4flash"; $"deepseek-chat"; $"deepseek-reasoner";
      $"deepseek-r1"; $"deepseek-v3"; $"deepseek-v3.2"],
     DEFAULT_HUGGINGFACE_FLASH_MODEL);
    ([ProviderKind.Together],
     [$"deepseek-v4-pro"; $"deepseek-v4pro"],
     DEFAULT_TOGETHER_MODEL);
    ([ProviderKind.Together],
     [$"deepseek-v4-flash"; $"deepseek-v4flash"; $"deepseek-chat"; $"deepseek-reasoner";
      $"deepseek-r1"; $"deepseek-v3"; $"deepseek-v3.2"],
     DEFAULT_TOGETHER_FLASH_MODEL);
    ([ProviderKind.Deepinfra],
     [$"deepseek-v4-pro"; $"deepseek-v4pro"],
     DEFAULT_DEEPINFRA_MODEL);
    ([ProviderKind.Deepinfra],
     [$"deepseek-v4-flash"; $"deepseek-v4flash"; $"deepseek-chat"; $"deepseek-reasoner";
      $"deepseek-r1"; $"deepseek-v3"; $"deepseek-v3.2"],
     DEFAULT_DEEPINFRA_FLASH_MODEL)].

(** The providers whose own table decides before anything else. *)
Definition own_alias (provider : ProviderKind) (model : str) : option str :=
  match provider with
  | ProviderKind.XiaomiMimo => canonical_xiaomi_mimo_model_id model
  | ProviderKind.Minimax | ProviderKind.MinimaxAnthropic => canonical_minimax_model_id model
  | ProviderKind.Zai => canonical_zai_model_id model
  | _ => None
  end.

(** The providers whose other model names are kept as written. *)
Definition keeps_model_name (provider : ProviderKind) : bool :=
  match provider with
  | ProviderKind.Atlascloud | ProviderKind.WanjieArk | ProviderKind.Volcengine |
    ProviderKind.XiaomiMimo | ProviderKind.Zai | ProviderKind.Stepfun | ProviderKind.Minimax |
    ProviderKind.MinimaxAnthropic | ProviderKind.Qianfan | ProviderKind.Ollama |
    ProviderKind.Meta | ProviderKind.Xai => true
  | _ => false
  end.

Definition normalize_model_for_provider (provider : ProviderKind) (model : str) : str :=
  if bool_decide (provider = ProviderKind.OpencodeGo)
  then default DEFAULT_OPENCODE_GO_MODEL (opencode_go_chat_model_id model)
  else match own_alias provider model with
  | Some canonical => canonical
  | None =>
      if keeps_model_name provider then model
      else
        let normalized := to_ascii_lowercase (trim model) in
        match (if bool_decide (provider = ProviderKind.Openrouter)
               then canonical_openrouter_recent_model_id normalized else None) with
        | Some canonical => canonical
        | None => default model (match_provider provider normalized deepseek_aliases)
        end
  end.

Definition default_model_for_provider (provider : ProviderKind) : str :=
  match provider with
  | ProviderKind.Deepseek => DEFAULT_DEEPSEEK_MODEL
  | ProviderKind.DeepseekAnthropic => DEFAULT_DEEPSEEK_ANTHROPIC_MODEL
  | ProviderKind.NvidiaNim => DEFAULT_NVIDIA_NIM_MODEL
  | ProviderKind.Openai => DEFAULT_OPENAI_MODEL
  | ProviderKind.Atlascloud => DEFAULT_ATLASCLOUD_MODEL
  | ProviderKind.WanjieArk => DEFAULT_WANJIE_ARK_MODEL
  | ProviderKind.Volcengine => DEFAULT_VOLCENGINE_MODEL
  | ProviderKind.Openrouter => DEFAULT_OPENROUTER_MODEL
  | ProviderKind.XiaomiMimo => DEFAULT_XIAOMI_MIMO_MODEL
  | ProviderKind.Novita => DEFAULT_NOVITA_MODEL
  | ProviderKind.Fireworks => DEFAULT_FIREWORKS_MODEL
  | ProviderKind.Siliconflow | ProviderKind.SiliconflowCN => DEFAULT_SILICONFLOW_MODEL
  | ProviderKind.Arcee => DEFAULT_ARCEE_MODEL
  | ProviderKind.Moonshot => DEFAULT_MOONSHOT_MODEL
  | ProviderKind.Sglang => DEFAULT_SGLANG_MODEL
  | ProviderKind.Vllm => DEFAULT_VLLM_MODEL
  | ProviderKind.Ollama => DEFAULT_OLLAMA_MODEL
  | ProviderKind.Huggingface => DEFAULT_HUGGINGFACE_MODEL
  | ProviderKind.Together => DEFAULT_TOGETHER_MODEL
  | ProviderKind.Qianfan => DEFAULT_QIANFAN_MODEL
  | ProviderKind.OpenaiCodex => DEFAULT_OPENAI_CODEX_MODEL
  | ProviderKind.Anthropic => DEFAULT_ANTHROPIC_MODEL
  | ProviderKind.Openmodel => DEFAULT_OPENMODEL_MODEL
  | ProviderKind.Zai => DEFAULT_ZAI_MODEL
  | ProviderKind.Stepfun => DEFAULT_STEPFUN_MODEL
  | ProviderKind.Minimax | ProviderKind.MinimaxAnthropic => DEFAULT_MINIMAX_MODEL
  | ProviderKind.Deepinfra => DEFAULT_DEEPINFRA_MODEL
  | ProviderKind.Sakana => DEFAULT_SAKANA_MODEL
  | ProviderKind.LongCat => DEFAULT_LONGCAT_MODEL
  | ProviderKind.OpencodeGo => DEFAULT_OPENCODE_GO_MODEL
  | ProviderKind.OpencodeZen => DEFAULT_OPENCODE_ZEN_MODEL
  | ProviderKind.Meta => DEFAULT_META_MODEL
  | ProviderKind.Xai => DEFAULT_XAI_MODEL
  | ProviderKind.Telecomjs => DEFAULT_TELECOMJS_MODEL
  | ProviderKind.Custom => default_model (provider_for_kind provider)
  end.

Definition default_base_url_for_provider (provider : ProviderKind) : str :=
  match provider with
  | ProviderKind.Deepseek => DEFAULT_DEEPSEEK_BASE_URL
  | ProviderKind.DeepseekAnthropic => DEFAULT_DEEPSEEK_ANTHROPIC_BASE_URL
  | ProviderKind.NvidiaNim => DEFAULT_NVIDIA_NIM_BASE_URL
  | ProviderKind.Openai => DEFAULT_OPENAI_BASE_URL
  | ProviderKind.Atlascloud => DEFAULT_ATLASCLOUD_BASE_URL
  | ProviderKind.WanjieArk => DEFAULT_WANJIE_ARK_BASE_URL
  | ProviderKind.Volcengine => DEFAULT_VOLCENGINE_BASE_URL
  | ProviderKind.Openrouter => DEFAULT_OPENROUTER_BASE_URL
  | ProviderKind.XiaomiMimo => DEFAULT_XIAOMI_MIMO_BASE_URL
  | ProviderKind.Novita => DEFAULT_NOVITA_BASE_URL
  | ProviderKind.Fireworks => DEFAULT_FIREWORKS_BASE_URL
  | ProviderKind.Siliconflow => DEFAULT_SILICONFLOW_BASE_URL
  | ProviderKind.SiliconflowCN => DEFAULT_SILICONFLOW_CN_BASE_URL
  | ProviderKind.Arcee => DEFAULT_ARCEE_BASE_URL
  | ProviderKind.Moonshot => DEFAULT_MOONSHOT_BASE_URL
  | ProviderKind.Sglang => DEFAULT_SGLANG_BASE_URL
  | ProviderKind.Vllm => DEFAULT_VLLM_BASE_URL
  | ProviderKind.Ollama => DEFAULT_OLLAMA_BASE_URL
  | ProviderKind.Huggingface => DEFAULT_HUGGINGFACE_BASE_URL
  | ProviderKind.Together => DEFAULT_TOGETHER_BASE_URL
  | ProviderKind.Qianfan => DEFAULT_QIANFAN_BASE_URL
  | ProviderKind.OpenaiCodex => DEFAULT_OPENAI_CODEX_BASE_URL
  | ProviderKind.Anthropic => DEFAULT_ANTHROPIC_BASE_URL
  | ProviderKind.Openmodel => DEFAULT_OPENMODEL_BASE_URL
  | ProviderKind.Zai => DEFAULT_ZAI_BASE_URL
  | ProviderKind.Stepfun => DEFAULT_STEPFUN_BASE_URL
  | ProviderKind.Minimax => DEFAULT_MINIMAX_BASE_URL
  | ProviderKind.MinimaxAnthropic => DEFAULT_MINIMAX_ANTHROPIC_BASE_URL
  | ProviderKind.Deepinfra => DEFAULT_DEEPINFRA_BASE_URL
  | ProviderKind.Sakana => DEFAULT_SAKANA_BASE_URL
  | ProviderKind.LongCat => DEFAULT_LONGCAT_BASE_URL
  | ProviderKind.OpencodeGo => DEFAULT_OPENCODE_GO_BASE_URL
  | ProviderKind.OpencodeZen => DEFAULT_OPENCODE_ZEN_BASE_URL
  | ProviderKind.Meta => DEFAULT_META_BASE_URL
  | ProviderKind.Xai => DEFAULT_XAI_BASE_URL
  | ProviderKind.Telecomjs => DEFAULT_TELECOMJS_BASE_URL
  | ProviderKind.Custom => default_base_url (provider_for_kind provider)
  end.

(** ** Base URLs *)

Definition is_slash (c : char) : bool := N.eqb c (chr "/").

Definition moonshot_base_url_uses_kimi_code (base_url : str) : bool :=
  let normalized := to_ascii_lowercase (trim_end_by is_slash base_url) in
  bool_decide (normalized = DEFAULT_KIMI_CODE_BASE_URL)
  || bool_decide (normalized = $"https://api.kimi.com/coding")
  || starts_with $"https://api.kimi.com/coding/" normalized.

Definition xiaomi_mimo_mode_uses_standard_endpoint (normalized_mode : str) : bool :=
  is_one_of normalized_mode
    [$"standard"; $"default"; $"payg"; $"paygo"; $"pay-as-you-go"; $"pay-as-go"].

Definition xiaomi_mimo_mode_urls : list (list str * str) :=
  [([$"token-plan"; $"tokenplan"; $"subscription"; $"subscribed"; $"plan"], DEFAULT_XIAOMI_MIMO_BASE_URL);
   ([$"token-plan-cn"; $"token-plan-china"; $"token-plan-mainland"; $"token-plan-mainland-china"; $"cn"; $"china"],
    XIAOMI_MIMO_TOKEN_PLAN_CN_BASE_URL);
   ([$"token-plan-sgp"; $"token-plan-sg"; $"token-plan-singapore"; $"sgp"; $"sg"; $"singapore"],
    XIAOMI_MIMO_TOKEN_PLAN_SGP_BASE_URL);
   ([$"token-plan-ams"; $"token-plan-eu"; $"token-plan-europe"; $"token-plan-amsterdam"; $"ams"; $"eu"; $"europe";
     $"amsterdam"], XIAOMI_MIMO_TOKEN_PLAN_AMS_BASE_URL)].

Definition xiaomi_mimo_base_url_for_mode (mode : str) : option str :=
  let normalized := name_key mode in
  if str_is_empty normalized || xiaomi_mimo_mode_uses_standard_endpoint normalized then None
  else Some (default DEFAULT_XIAOMI_MIMO_BASE_URL (match_text normalized xiaomi_mimo_mode_urls)).

Definition xiaomi_mimo_base_url_uses_token_plan (base_url : str) : bool :=
  let normalized := to_ascii_lowercase (trim_end_by is_slash base_url) in
  bool_decide (normalized = XIAOMI_MIMO_TOKEN_PLAN_CN_BASE_URL)
  || bool_decide (normalized = XIAOMI_MIMO_TOKEN_PLAN_SGP_BASE_URL)
  || bool_decide (normalized = XIAOMI_MIMO_TOKEN_PLAN_AMS_BASE_URL).

Definition xiaomi_mimo_base_url_is_pay_as_you_go (base_url : str) : bool :=
  is_one_of (to_ascii_lowercase (trim_end_by is_slash base_url))
    [$"https://api.xiaomimimo.com"; $"https://api.xiaomimimo.com/v1"].

Definition xiaomi_mimo_api_key_uses_token_plan (api_key : option str) : bool :=
  match api_key with Some key => starts_with $"tp-" (trim_start key) | None => false end.

Definition resolve_xiaomi_mimo_base_url (configured api_key mode : option str) : str :=
  let normalized_mode := name_key <$> mode in
  let uses_standard_mode :=
    match normalized_mode with Some m => xiaomi_mimo_mode_uses_standard_endpoint m | None => false end in
  let mode_base_url := normalized_mode ≫= xiaomi_mimo_base_url_for_mode in
  let uses_token_plan := xiaomi_mimo_api_key_uses_token_plan api_key in
  match configured with
  | Some base_url =>
      if uses_standard_mode then base_url
      else if uses_token_plan && xiaomi_mimo_base_url_is_pay_as_you_go base_url
      then default DEFAULT_XIAOMI_MIMO_BASE_URL mode_base_url
      else base_url
  | None =>
      match mode_base_url with
      | Some base_url => base_url
      | None =>
          if uses_standard_mode then XIAOMI_MIMO_PAY_AS_YOU_GO_BASE_URL
          else if uses_token_plan || bool_decide (api_key = None) then DEFAULT_XIAOMI_MIMO_BASE_URL
          else XIAOMI_MIMO_PAY_AS_YOU_GO_BASE_URL
      end
  end.

Definition provider_base_url_is_official (provider : ProviderKind) (base_url : str) : bool :=
  let normalized := to_ascii_lowercase (trim_end_by is_slash (trim base_url)) in
  match provider with
  | ProviderKind.Deepseek =>
      is_one_of normalized
        [$"https://api.deepseek.com"; $"https://api.deepseek.com/v1"; $"https://api.deepseek.com/beta"]
  | ProviderKind.DeepseekAnthropic =>
      is_one_of normalized
        [$"https://api.deepseek.com/anthropic"; $"https://api.deepseek.com/anthropic/v1"]
  | ProviderKind.Siliconflow | ProviderKind.SiliconflowCN =>
      is_one_of normalized [$"https://api.siliconflow.com/v1"; $"https://api.siliconflow.cn/v1"]
  | ProviderKind.Moonshot =>
      bool_decide (normalized = DEFAULT_MOONSHOT_BASE_URL) || moonshot_base_url_uses_kimi_code base_url
  | ProviderKind.XiaomiMimo =>
      xiaomi_mimo_base_url_uses_token_plan base_url || xiaomi_mimo_base_url_is_pay_as_you_go base_url
  | ProviderKind.Custom => false
  | _ =>
      bool_decide (normalized = to_ascii_lowercase (trim_end_by is_slash (trim (default_base_url_for_provider provider))))
  end.

Definition base_url_is_custom_for_provider (provider : ProviderKind) (base_url : str) : bool :=
  negb (provider_base_url_is_official provider base_url).
Definition provider_preserves_custom_base_url_model (provider : ProviderKind) (base_url : str) : bool :=
  base_url_is_custom_for_provider provider base_url.

(** ** Foreign model names *)

Definition deepseek_family_model_id (model : str) : option str :=
  let trimmed := trim model in
  if str_is_empty trimmed then None
  else
    let normalized := to_ascii_lowercase trimmed in
    match match_text normalized
            [([$"pro"; $"deepseek-v4pro"], $"deepseek-v4-pro");
             ([$"flash"; $"deepseek-v4flash"], $"deepseek-v4-flash")] with
    | Some id => Some id
    | None =>
        if negb (starts_with $"deepseek" normalized) && negb (str_contains $"/deepseek" normalized) then None
        else if forallb (fun ch => is_ascii_alphanumeric ch
                                   || existsb (N.eqb ch) [chr "-"; chr "_"; chr "."; chr ":"; chr "/"]) trimmed
        then Some trimmed
        else None
    end.

Definition provider_passes_model_through (provider : ProviderKind) : bool :=
  match provider with
  | ProviderKind.Openai | ProviderKind.Atlascloud | ProviderKind.WanjieArk |
    ProviderKind.Volcengine | ProviderKind.XiaomiMimo | ProviderKind.Moonshot |
    ProviderKind.Qianfan | ProviderKind.Openmodel | ProviderKind.Ollama |
    ProviderKind.Huggingface | ProviderKind.Meta | ProviderKind.Xai | ProviderKind.Telecomjs |
    ProviderKind.Custom => true
  | _ => false
  end.

(** The providers that host models of several vendors. *)
Definition hosts_foreign_models (provider : ProviderKind) : bool :=
  match provider with
  | ProviderKind.NvidiaNim | ProviderKind.Openrouter | ProviderKind.Novita |
    ProviderKind.Fireworks | ProviderKind.Siliconflow | ProviderKind.SiliconflowCN |
    ProviderKind.Deepinfra | ProviderKind.Together | ProviderKind.Sglang | ProviderKind.Vllm |
    ProviderKind.Volcengine | ProviderKind.Atlascloud | ProviderKind.OpencodeGo |
    ProviderKind.WanjieArk => true
  | _ => false
  end.

Definition root_default_model_is_foreign_to_provider (provider : ProviderKind) (model base_url : str) : bool :=
  if bool_decide (deepseek_family_model_id model = None) then false
  else if bool_decide (provider = ProviderKind.Deepseek) || bool_decide (provider = ProviderKind.DeepseekAnthropic)
  then false
  else if provider_preserves_custom_base_url_model provider base_url then false
  else if bool_decide (provider ∈ [ProviderKind.Xai; ProviderKind.Openai; ProviderKind.Moonshot]) then true
  else if provider_passes_model_through provider then false
  else if hosts_foreign_models provider then false
  else true.

Definition known_foreign_model_owner (provider : ProviderKind) (model base_url : str) : option ProviderKind :=
  if root_default_model_is_foreign_to_provider provider model base_url then Some ProviderKind.Deepseek else None.

(** ** Authentication modes *)

(** [auth_mode.map(str::trim).filter(non-empty).map(to_ascii_lowercase)]. *)
Definition auth_mode_key (auth_mode : option str) : option str :=
  match auth_mode with
  | Some value => if str_is_empty (trim value) then None else Some (to_ascii_lowercase (trim value))
  | None => None
  end.

Definition auth_mode_requires_api_key (auth_mode : option str) : bool :=
  match auth_mode_key auth_mode with
  | Some value => is_one_of value [$"api_key"; $"api-key"; $"apikey"; $"bearer"; $"bearer-token"]
  | None => false
  end.

Definition auth_mode_disables_api_key (auth_mode : option str) : bool :=
  match auth_mode_key auth_mode with
  | Some value => is_one_of value [$"none"; $"off"; $"disabled"; $"no_auth"; $"no-auth"; $"anonymous"]
  | None => false
  end.

Definition auth_mode_uses_kimi_imported_token (auth_mode : str) : bool :=
  is_one_of (replace $"-" $"_" (to_ascii_lowercase (trim auth_mode)))
    [$"kimi"; $"kimi_oauth"; $"kimi_cli"; $"oauth"].
