(* ===== verification/RuntimeOptions.v ===== *)
(** * Runtime options

    How [crates/config/src/lib.rs] resolves the provider, endpoint, model,
    credential and headers of a run from the command line, the environment, the
    configuration file and the secret store, and what a project's file may
    change of the user's.  The process environment is [getenv], the secret
    store its [get]; reading TOML into these records is not modelled, and
    [toml::Value] is abstract.  The [std] parser of IP addresses is written
    out, as far as the local-host test needs it. *)

From S2P Require Import Text Providers ModelNames.

(** ** Addresses

    [str::parse::<IpAddr>] as two numbers: 32 bits for an IPv4 address, eight
    groups for an IPv6 one. *)

Definition digit_of (radix : Z) (c : char) : option Z :=
  let d := if is_ascii_digit c then Z.of_N c - 48
           else if is_ascii_alphabetic c then Z.of_N (char_to_ascii_lowercase c) - 87 else radix in
  if d <? radix then Some d else None.

(** [Parser::read_number]: at most [max_digits] digits, the value at most
    [bound]; a leading zero only when allowed. *)
Fixpoint read_digits (radix bound : Z) (room : nat) (acc : Z) (count : nat) (s : str) : option (Z * nat * str) :=
  match s with
  | c :: s' =>
      match digit_of radix c with
      | Some d =>
          match room with
          | O => None
          | S room => let acc := acc * radix + d in
              if bound <? acc then None else read_digits radix bound room acc (S count) s'
          end
      | None => Some (acc, count, s)
      end
  | [] => Some (acc, count, [])
  end.
Definition read_number (radix bound : Z) (max_digits : nat) (allow_zero_prefix : bool) (s : str) : option (Z * str) :=
  match read_digits radix bound max_digits 0 0 s with
  | Some (n, count, rest) =>
      if (count =? 0)%nat then None
      else if negb allow_zero_prefix && starts_with $"0" s && (1 <? count)%nat then None
      else Some (n, rest)
  | None => None
  end.

(** [Parser::read_separator]. *)
Definition read_separator {A} (sep : char) (index : nat) (inner : str -> option (A * str)) (s : str) : option (A * str) :=
  match index with
  | O => inner s
  | S _ => match s with c :: s => if N.eqb c sep then inner s else None | [] => None end
  end.

(** [Parser::read_ipv4_addr]. *)
Definition read_ipv4_addr (s : str) : option (list Z * str) :=
  a ← read_number 10 255 3 false s;
  b ← read_separator (chr ".") 1 (read_number 10 255 3 false) a.2;
  c ← read_separator (chr ".") 1 (read_number 10 255 3 false) b.2;
  d ← read_separator (chr ".") 1 (read_number 10 255 3 false) c.2;
  Some ([a.1; b.1; c.1; d.1], d.2).

(** [read_groups]: the groups read, whether the last two were an IPv4 address,
    and the rest.  [room] groups may still be read. *)
Fixpoint read_groups (room index : nat) (s : str) : list Z * bool * str :=
  match room with
  | O => ([], false, s)
  | S room' =>
      match (if (1 <? room)%nat then read_separator (chr ":") index read_ipv4_addr s else None) with
      | Some ([a; b; c; d], rest) => ([a * 256 + b; c * 256 + d], true, rest)
      | _ =>
          match read_separator (chr ":") index (read_number 16 65535 4 true) s with
          | Some (g, rest) =>
              let '(gs, v4, rest) := read_groups room' (S index) rest in (g :: gs, v4, rest)
          | None => ([], false, s)
          end
      end
  end.

(** [Parser::read_ipv6_addr]. *)
Definition read_ipv6_addr (s : str) : option (list Z * str) :=
  let '(head, head_ipv4, rest) := read_groups 8 0 s in
  if (length head =? 8)%nat then Some (head, rest)
  else if head_ipv4 then None
  else match strip_prefix $"::" rest with
  | None => None
  | Some rest =>
      let '(tail, _, rest) := read_groups (8 - S (length head)) 0 rest in
      Some (head ++ replicate (8 - length head - length tail) 0 ++ tail, rest)
  end.

Inductive ParsedIp := Parsed4 (octets : list Z) | Parsed6 (groups : list Z).
Definition parse_ip_addr (s : str) : option ParsedIp :=
  match read_ipv4_addr s with
  | Some (octets, rest) => if str_is_empty rest then Some (Parsed4 octets) else None
  | None =>
      match read_ipv6_addr s with
      | Some (groups, rest) => if str_is_empty rest then Some (Parsed6 groups) else None
      | None => None
      end
  end.

(** [addr.is_loopback() || addr.is_unspecified()]. *)
Definition is_local_address (ip : ParsedIp) : bool :=
  match ip with
  | Parsed4 octets => bool_decide (head octets = Some 127) || bool_decide (octets = [0; 0; 0; 0])
  | Parsed6 groups => bool_decide (groups = [0; 0; 0; 0; 0; 0; 0; 1]) || bool_decide (groups = replicate 8 0)
  end.

(** [rsplit(d).next()] and [split(d).next()]. *)
Definition last_piece (d : char) (s : str) : str := default [] (last (split_char d s)).
Definition first_piece (d : char) (s : str) : str := default [] (head (split_char d s)).

Definition base_url_host (base_url : str) : option str :=
  let without_scheme := match split_once $"://" base_url with Some (_, rest) => rest | None => base_url end in
  let authority := last_piece (chr "@") (first_piece (chr "/") without_scheme) in
  match strip_prefix $"[" authority with
  | Some rest => fst <$> split_once $"]" rest
  | None => let host := first_piece (chr ":") authority in if str_is_empty host then None else Some host
  end.

Definition is_bracket (c : char) : bool := N.eqb c (chr "[") || N.eqb c (chr "]").
Definition trim_matches (p : char -> bool) (s : str) : str := trim_end_by p (trim_start_by p s).

Definition base_url_uses_local_host (base_url : str) : bool :=
  match base_url_host base_url with
  | None => false
  | Some host =>
      let host := to_ascii_lowercase (trim_matches is_bracket host) in
      if is_one_of host [$"localhost"; $"0.0.0.0"] then true
      else match parse_ip_addr host with Some ip => is_local_address ip | None => false end
  end.

Definition should_skip_secret_store_for_provider (provider : ProviderKind) (base_url : str) (auth_mode : option str) : bool :=
  if auth_mode_disables_api_key auth_mode then true
  else if base_url_is_custom_for_provider provider base_url then true
  else if auth_mode_requires_api_key auth_mode then false
  else bool_decide (provider ∈ [ProviderKind.Sglang; ProviderKind.Vllm; ProviderKind.Ollama])
       || base_url_uses_local_host base_url.

(** ** Headers *)

Definition is_sensitive_config_key (key : str) : bool :=
  let segment := last_piece (chr ".") key in
  let normalized :=
    to_ascii_lowercase (replace $"-" $"_" (trim_matches (N.eqb 34) (trim segment))) in
  is_one_of normalized
    [$"api_key"; $"apikey"; $"api_keys"; $"authorization"; $"bearer"; $"client_secret"; $"credential";
     $"credentials"; $"id_token"; $"password"; $"passwords"; $"passwd"; $"proxy_authorization";
     $"refresh_token"; $"secret"; $"secrets"; $"token"; $"tokens"]
  || ends_with $"_api_key" normalized || ends_with $"_authorization" normalized
  || ends_with $"_password" normalized || ends_with $"_secret" normalized || ends_with $"_token" normalized.

Definition is_upstream_auth_header (name : str) : bool :=
  is_sensitive_config_key (trim name) || eq_ignore_ascii_case (trim name) $"cookie".

Definition parse_bool (raw : str) : result str bool :=
  let key := to_ascii_lowercase (trim raw) in
  if is_one_of key [$"1"; $"true"; $"yes"; $"on"; $"enabled"] then Ok true
  else if is_one_of key [$"0"; $"false"; $"no"; $"off"; $"disabled"] then Ok false
  else Err ($"invalid boolean '" ++ raw ++ $"'").

(** One [name=value] of the list. *)
Definition add_http_header (headers : gmap str str) (pair : str) : result str (gmap str str) :=
  let pair := trim pair in
  if str_is_empty pair then Ok headers
  else match split_once $"=" pair with
  | None => Err ($"invalid header pair '" ++ pair ++ $"', expected name=value")
  | Some (name, v) =>
      if str_is_empty (trim name) then Err $"header name cannot be empty"
      else if str_is_empty (trim v) then Ok headers
      else Ok (<[trim name := trim v]> headers)
  end.
Definition parse_http_headers (raw : str) : result str (gmap str str) :=
  foldM add_http_header ∅ (split_char (chr ",") (trim raw)).

(** ** Configuration *)

(** [toml::Value] and the tables of a file that the operations here carry
    along unread. *)
Class Toml := {
  value : Type;
  as_table : value -> option (gmap str value);
  as_str : value -> option str;
  tables : Type }.

Inductive AuthSourceKind := AuthCommand | AuthSecret.
Record ProviderAuthSourceToml := {
  auth_source : AuthSourceKind; auth_command : list str; auth_timeout_ms : option Z; auth_secret_id : option str }.

Inductive ExternalCredentialAccess := AccessDisabled | AccessReadOnly | AccessManaged.
Inductive ExternalCredentialSource := CodexCli | KimiCodeCli | GrokCli.
Record ExternalCredentialConsentToml := {
  consent_access : ExternalCredentialAccess; consent_provider : str;
  consent_source : ExternalCredentialSource; consent_path : str; consent_version : Z }.

Record ToolsToml := { always_load : list str }.

Section config.
Context `{Toml}.

Record ProviderConfigToml := {
  pc_api_key : option str; pc_base_url : option str; pc_model : option str; pc_context_window : option Z;
  pc_mode : option str; pc_auth_mode : option str; pc_insecure_skip_tls_verify : option bool;
  pc_http_headers : gmap str str; pc_path_suffix : option str; pc_auth : option ProviderAuthSourceToml;
  pc_external_credentials : option ExternalCredentialConsentToml;
  pc_oauth_credential_generation : option str; pc_extras : gmap str value }.

Record ProvidersToml := {
  pt_deepseek : ProviderConfigToml;
  pt_deepseek_anthropic : ProviderConfigToml;
  pt_nvidia_nim : ProviderConfigToml;
  pt_openai : ProviderConfigToml;
  pt_atlascloud : ProviderConfigToml;
  pt_wanjie_ark : ProviderConfigToml;
  pt_volcengine : ProviderConfigToml;
  pt_openrouter : ProviderConfigToml;
  pt_xiaomi_mimo : ProviderConfigToml;
  pt_novita : ProviderConfigToml;
  pt_fireworks : ProviderConfigToml;
  pt_siliconflow : ProviderConfigToml;
  pt_siliconflow_cn : ProviderConfigToml;
  pt_arcee : ProviderConfigToml;
  pt_moonshot : ProviderConfigToml;
  pt_sglang : ProviderConfigToml;
  pt_vllm : ProviderConfigToml;
  pt_ollama : ProviderConfigToml;
  pt_huggingface : ProviderConfigToml;
  pt_together : ProviderConfigToml;
  pt_qianfan : ProviderConfigToml;
  pt_openai_codex : ProviderConfigToml;
  pt_anthropic : ProviderConfigToml;
  pt_openmodel : ProviderConfigToml;
  pt_zai : ProviderConfigToml;
  pt_stepfun : ProviderConfigToml;
  pt_minimax : ProviderConfigToml;
  pt_minimax_anthropic : ProviderConfigToml;
  pt_deepinfra : ProviderConfigToml;
  pt_sakana : ProviderConfigToml;
  pt_longcat : ProviderConfigToml;
  pt_opencode_go : ProviderConfigToml;
  pt_opencode_zen : ProviderConfigToml;
  pt_meta : ProviderConfigToml;
  pt_xai : ProviderConfigToml;
  pt_telecomjs : ProviderConfigToml;
  pt_custom : ProviderConfigToml;
  pt_extras : gmap str value }.

(** [for_provider] and [*for_provider_mut(provider) = c]. *)
Definition for_provider (p : ProvidersToml) (provider : ProviderKind) : ProviderConfigToml :=
  match provider with
  | ProviderKind.Deepseek => pt_deepseek p
  | ProviderKind.DeepseekAnthropic => pt_deepseek_anthropic p
  | ProviderKind.NvidiaNim => pt_nvidia_nim p
  | ProviderKind.Openai => pt_openai p
  | ProviderKind.Atlascloud => pt_atlascloud p
  | ProviderKind.WanjieArk => pt_wanjie_ark p
  | ProviderKind.Volcengine => pt_volcengine p
  | ProviderKind.Openrouter => pt_openrouter p
  | ProviderKind.XiaomiMimo => pt_xiaomi_mimo p
  | ProviderKind.Novita => pt_novita p
  | ProviderKind.Fireworks => pt_fireworks p
  | ProviderKind.Siliconflow => pt_siliconflow p
  | ProviderKind.SiliconflowCN => pt_siliconflow_cn p
  | ProviderKind.Arcee => pt_arcee p
  | ProviderKind.Moonshot => pt_moonshot p
  | ProviderKind.Sglang => pt_sglang p
  | ProviderKind.Vllm => pt_vllm p
  | ProviderKind.Ollama => pt_ollama p
  | ProviderKind.Huggingface => pt_huggingface p
  | ProviderKind.Together => pt_together p
  | ProviderKind.Qianfan => pt_qianfan p
  | ProviderKind.OpenaiCodex => pt_openai_codex p
  | ProviderKind.Anthropic => pt_anthropic p
  | ProviderKind.Openmodel => pt_openmodel p
  | ProviderKind.Zai => pt_zai p
  | ProviderKind.Stepfun => pt_stepfun p
  | ProviderKind.Minimax => pt_minimax p
  | ProviderKind.MinimaxAnthropic => pt_minimax_anthropic p
  | ProviderKind.Deepinfra => pt_deepinfra p
  | ProviderKind.Sakana => pt_sakana p
  | ProviderKind.LongCat => pt_longcat p
  | ProviderKind.OpencodeGo => pt_opencode_go p
  | ProviderKind.OpencodeZen => pt_opencode_zen p
  | ProviderKind.Meta => pt_meta p
  | ProviderKind.Xai => pt_xai p
  | ProviderKind.Telecomjs => pt_telecomjs p
  | ProviderKind.Custom => pt_custom p
  end.

Definition set_provider (provider : ProviderKind) (c : ProviderConfigToml) (p : ProvidersToml) : ProvidersToml :=
  let set_at k old := if bool_decide (k = provider) then c else old in
  {| pt_deepseek := set_at ProviderKind.Deepseek (pt_deepseek p);
     pt_deepseek_anthropic := set_at ProviderKind.DeepseekAnthropic (pt_deepseek_anthropic p);
     pt_nvidia_nim := set_at ProviderKind.NvidiaNim (pt_nvidia_nim p);
     pt_openai := set_at ProviderKind.Openai (pt_openai p);
     pt_atlascloud := set_at ProviderKind.Atlascloud (pt_atlascloud p);
     pt_wanjie_ark := set_at ProviderKind.WanjieArk (pt_wanjie_ark p);
     pt_volcengine := set_at ProviderKind.Volcengine (pt_volcengine p);
     pt_openrouter := set_at ProviderKind.Openrouter (pt_openrouter p);
     pt_xiaomi_mimo := set_at ProviderKind.XiaomiMimo (pt_xiaomi_mimo p);
     pt_novita := set_at ProviderKind.Novita (pt_novita p);
     pt_fireworks := set_at ProviderKind.Fireworks (pt_fireworks p);
     pt_siliconflow := set_at ProviderKind.Siliconflow (pt_siliconflow p);
     pt_siliconflow_cn := set_at ProviderKind.SiliconflowCN (pt_siliconflow_cn p);
     pt_arcee := set_at ProviderKind.Arcee (pt_arcee p);
     pt_moonshot := set_at ProviderKind.Moonshot (pt_moonshot p);
     pt_sglang := set_at ProviderKind.Sglang (pt_sglang p);
     pt_vllm := set_at ProviderKind.Vllm (pt_vllm p);
     pt_ollama := set_at ProviderKind.Ollama (pt_ollama p);
     pt_huggingface := set_at ProviderKind.Huggingface (pt_huggingface p);
     pt_together := set_at ProviderKind.Together (pt_together p);
     pt_qianfan := set_at ProviderKind.Qianfan (pt_qianfan p);
     pt_openai_codex := set_at ProviderKind.OpenaiCodex (pt_openai_codex p);
     pt_anthropic := set_at ProviderKind.Anthropic (pt_anthropic p);
     pt_openmodel := set_at ProviderKind.Openmodel (pt_openmodel p);
     pt_zai := set_at ProviderKind.Zai (pt_zai p);
     pt_stepfun := set_at ProviderKind.Stepfun (pt_stepfun p);
     pt_minimax := set_at ProviderKind.Minimax (pt_minimax p);
     pt_minimax_anthropic := set_at ProviderKind.MinimaxAnthropic (pt_minimax_anthropic p);
     pt_deepinfra := set_at ProviderKind.Deepinfra (pt_deepinfra p);
     pt_sakana := set_at ProviderKind.Sakana (pt_sakana p);
     pt_longcat := set_at ProviderKind.LongCat (pt_longcat p);
     pt_opencode_go := set_at ProviderKind.OpencodeGo (pt_opencode_go p);
     pt_opencode_zen := set_at ProviderKind.OpencodeZen (pt_opencode_zen p);
     pt_meta := set_at ProviderKind.Meta (pt_meta p);
     pt_xai := set_at ProviderKind.Xai (pt_xai p);
     pt_telecomjs := set_at ProviderKind.Telecomjs (pt_telecomjs p);
     pt_custom := set_at ProviderKind.Custom (pt_custom p);
     pt_extras := pt_extras p |}.

Record ConfigToml := {
  cfg_api_key : option str; cfg_base_url : option str; cfg_http_headers : gmap str str; cfg_default_text_model : option str;
  cfg_provider : ProviderKind; cfg_selected_provider_id : option str; cfg_model : option str; cfg_auth_mode : option str;
  cfg_output_mode : option str; cfg_verbosity : option str; cfg_log_level : option str; cfg_telemetry : option bool;
  cfg_approval_policy : option str; cfg_sandbox_mode : option str; cfg_tools : option ToolsToml; cfg_providers : ProvidersToml;
  cfg_fallback_providers : list ProviderKind; cfg_other_tables : tables; cfg_extras : gmap str value }.

(** ** A project's file *)

Definition approval_policy_rank (v : str) : option Z :=
  match_text (to_ascii_lowercase (trim v))
    [([$"auto"], 0); ([$"suggest"; $"suggested"; $"on-request"; $"untrusted"], 1);
     ([$"never"; $"deny"; $"denied"], 2)].

Definition sandbox_mode_rank (v : str) : option Z :=
  match_text (to_ascii_lowercase (trim v))
    [([$"danger-full-access"], 0); ([$"external-sandbox"], 0); ([$"workspace-write"], 1); ([$"read-only"], 2)].

Definition rank_allows (current_rank : option Z) (project_rank : Z) : bool :=
  match current_rank with Some current => current <=? project_rank | None => 2 <=? project_rank end.

Definition project_approval_policy_is_allowed (current : option str) (project : str) : bool :=
  match approval_policy_rank project with
  | None => false
  | Some project_rank => rank_allows (current ≫= approval_policy_rank) project_rank
  end.

Definition project_sandbox_mode_is_allowed (current : option str) (project : str) : bool :=
  if bool_decide (to_ascii_lowercase (trim project) = $"external-sandbox")
  then match current with
       | Some v => eq_ignore_ascii_case (trim v) $"external-sandbox"
       | None => false
       end
  else match sandbox_mode_rank project with
  | None => false
  | Some project_rank => rank_allows (current ≫= sandbox_mode_rank) project_rank
  end.

Definition with_pc_model (m : option str) (c : ProviderConfigToml) : ProviderConfigToml :=
  {| pc_api_key := pc_api_key c; pc_base_url := pc_base_url c; pc_model := m;
     pc_context_window := pc_context_window c; pc_mode := pc_mode c; pc_auth_mode := pc_auth_mode c;
     pc_insecure_skip_tls_verify := pc_insecure_skip_tls_verify c; pc_http_headers := pc_http_headers c;
     pc_path_suffix := pc_path_suffix c; pc_auth := pc_auth c;
     pc_external_credentials := pc_external_credentials c;
     pc_oauth_credential_generation := pc_oauth_credential_generation c; pc_extras := pc_extras c |}.

Definition merge_project_provider_config (target source : ProviderConfigToml) : ProviderConfigToml :=
  match pc_model source with Some m => with_pc_model (Some m) target | None => target end.

(** [if project.f.is_some() { self.f = project.f }], guarded for the postures. *)
Definition tightened (allowed : option str -> str -> bool) (current project : option str) : option str :=
  match project with
  | Some v => if allowed current v then Some v else current
  | None => current
  end.

Definition merge_project_overrides (c project : ConfigToml) : ConfigToml :=
  {| cfg_api_key := cfg_api_key c; cfg_base_url := cfg_base_url c; cfg_http_headers := cfg_http_headers c;
     cfg_default_text_model := or_else (cfg_default_text_model project) (cfg_default_text_model c);
     cfg_provider := cfg_provider c; cfg_selected_provider_id := cfg_selected_provider_id c;
     cfg_model := or_else (cfg_model project) (cfg_model c); cfg_auth_mode := cfg_auth_mode c;
     cfg_output_mode := or_else (cfg_output_mode project) (cfg_output_mode c);
     cfg_verbosity := or_else (cfg_verbosity project) (cfg_verbosity c);
     cfg_log_level := or_else (cfg_log_level project) (cfg_log_level c); cfg_telemetry := cfg_telemetry c;
     cfg_approval_policy := tightened project_approval_policy_is_allowed (cfg_approval_policy c) (cfg_approval_policy project);
     cfg_sandbox_mode := tightened project_sandbox_mode_is_allowed (cfg_sandbox_mode c) (cfg_sandbox_mode project);
     cfg_tools := or_else (cfg_tools project) (cfg_tools c);
     cfg_providers :=
       fold_left (fun ps k => set_provider k (merge_project_provider_config (for_provider ps k)
                                                (for_provider (cfg_providers project) k)) ps)
         ProviderKind.ALL (cfg_providers c);
     cfg_fallback_providers := cfg_fallback_providers c; cfg_other_tables := cfg_other_tables c; cfg_extras := cfg_extras c |}.

(** ** The environment *)

Record EnvRuntimeOverrides := {
  env_provider : option ProviderKind;
  env_provider_source : option str;
  env_model : option str;
  env_volcengine_model : option str;
  env_wanjie_ark_model : option str;
  env_openrouter_model : option str;
  env_moonshot_model : option str;
  env_xiaomi_mimo_model : option str;
  env_xiaomi_mimo_mode : option str;
  env_novita_model : option str;
  env_fireworks_model : option str;
  env_arcee_model : option str;
  env_output_mode : option str;
  env_auth_mode : option str;
  env_log_level : option str;
  env_telemetry : option bool;
  env_approval_policy : option str;
  env_sandbox_mode : option str;
  env_yolo : option bool;
  env_verbosity : option str;
  env_http_headers : option (gmap str str);
  env_deepseek_base_url : option str;
  env_deepseek_anthropic_base_url : option str;
  env_nvidia_base_url : option str;
  env_openai_base_url : option str;
  env_atlascloud_base_url : option str;
  env_volcengine_base_url : option str;
  env_wanjie_ark_base_url : option str;
  env_openrouter_base_url : option str;
  env_xiaomi_mimo_base_url : option str;
  env_novita_base_url : option str;
  env_fireworks_base_url : option str;
  env_siliconflow_base_url : option str;
  env_siliconflow_model : option str;
  env_arcee_base_url : option str;
  env_moonshot_base_url : option str;
  env_sglang_base_url : option str;
  env_vllm_base_url : option str;
  env_ollama_base_url : option str;
  env_huggingface_base_url : option str;
  env_huggingface_model : option str;
  env_together_base_url : option str;
  env_together_model : option str;
  env_qianfan_base_url : option str;
  env_qianfan_model : option str;
  env_openai_codex_base_url : option str;
  env_openai_codex_model : option str;
  env_anthropic_base_url : option str;
  env_anthropic_model : option str;
  env_openmodel_base_url : option str;
  env_openmodel_model : option str;
  env_zai_base_url : option str;
  env_zai_model : option str;
  env_stepfun_base_url : option str;
  env_stepfun_model : option str;
  env_minimax_base_url : option str;
  env_minimax_anthropic_base_url : option str;
  env_minimax_model : option str;
  env_deepinfra_base_url : option str;
  env_deepinfra_model : option str;
  env_sakana_base_url : option str;
  env_sakana_model : option str;
  env_longcat_base_url : option str;
  env_longcat_model : option str;
  env_opencode_go_base_url : option str;
  env_opencode_go_model : option str;
  env_opencode_zen_base_url : option str;
  env_opencode_zen_model : option str;
  env_meta_base_url : option str;
  env_meta_model : option str;
  env_xai_base_url : option str;
  env_xai_model : option str;
  env_telecomjs_base_url : option str;
  env_telecomjs_model : option str }.

Section environment.
(** [std::env::var]: the value of a variable that is set to text. *)
Variable getenv : str -> option str.

(** [.filter(|v| !v.trim().is_empty())]. *)
Definition nonblank (o : option str) : option str :=
  match o with Some v => if str_is_empty (trim v) then None else Some v | None => None end.
(** [Result::ok]. *)
Definition ok {E A} (r : result E A) : option A := match r with Ok a => Some a | Err _ => None end.
Definition nonempty_headers (o : option (gmap str str)) : option (gmap str str) :=
  match o with Some headers => if bool_decide (headers = ∅) then None else Some headers | None => None end.

(** [load_provider]: the first variable that is set decides, even when its
    value names no provider. *)
Definition load_provider : option ProviderKind * option str :=
  match first_some (fun var => pair var <$> getenv var)
          [$"NESTLONE_PROVIDER"; $"CODEWHALE_PROVIDER"; $"DEEPSEEK_PROVIDER"] with
  | Some (label, v) => (parse_kind v, (fun _ => label) <$> parse_kind v)
  | None => (None, None)
  end.

Definition load : EnvRuntimeOverrides :=
  {| env_provider := (load_provider).1;
     env_provider_source := (load_provider).2;
     env_model := nonblank (first_some getenv [$"NESTLONE_MODEL"; $"CODEWHALE_MODEL"; $"DEEPSEEK_MODEL";
         $"DEEPSEEK_DEFAULT_TEXT_MODEL"]);
     env_volcengine_model := nonblank (first_some getenv [$"VOLCENGINE_MODEL"; $"VOLCENGINE_ARK_MODEL"]);
     env_wanjie_ark_model := nonblank (first_some getenv [$"WANJIE_ARK_MODEL"; $"WANJIE_MODEL";
         $"WANJIE_MAAS_MODEL"]);
     env_openrouter_model := nonblank (first_some getenv [$"OPENROUTER_MODEL"]);
     env_moonshot_model := nonblank (first_some getenv [$"MOONSHOT_MODEL"; $"KIMI_MODEL_NAME";
         $"KIMI_MODEL"]);
     env_xiaomi_mimo_model := nonblank (first_some getenv [$"XIAOMI_MIMO_MODEL"; $"MIMO_MODEL"]);
     env_xiaomi_mimo_mode := nonblank (first_some getenv [$"XIAOMI_MIMO_MODE"; $"MIMO_MODE"]);
     env_novita_model := nonblank (first_some getenv [$"NOVITA_MODEL"]);
     env_fireworks_model := nonblank (first_some getenv [$"FIREWORKS_MODEL"]);
     env_arcee_model := nonblank (first_some getenv [$"ARCEE_MODEL"]);
     env_verbosity := first_some getenv [$"NESTLONE_VERBOSITY"; $"CODEWHALE_VERBOSITY";
         $"DEEPSEEK_VERBOSITY"];
     env_output_mode := first_some getenv [$"NESTLONE_OUTPUT_MODE"; $"CODEWHALE_OUTPUT_MODE";
         $"DEEPSEEK_OUTPUT_MODE"];
     env_auth_mode := first_some getenv [$"NESTLONE_AUTH_MODE"; $"CODEWHALE_AUTH_MODE";
         $"DEEPSEEK_AUTH_MODE"];
     env_log_level := first_some getenv [$"NESTLONE_LOG_LEVEL"; $"CODEWHALE_LOG_LEVEL";
         $"DEEPSEEK_LOG_LEVEL"];
     env_telemetry := first_some getenv [$"NESTLONE_TELEMETRY"; $"CODEWHALE_TELEMETRY";
         $"DEEPSEEK_TELEMETRY"] ≫= fun v => ok (parse_bool v);
     env_approval_policy := first_some getenv [$"NESTLONE_APPROVAL_POLICY";
         $"CODEWHALE_APPROVAL_POLICY"; $"DEEPSEEK_APPROVAL_POLICY"];
     env_sandbox_mode := first_some getenv [$"NESTLONE_SANDBOX_MODE"; $"CODEWHALE_SANDBOX_MODE";
         $"DEEPSEEK_SANDBOX_MODE"];
     env_yolo := first_some getenv [$"NESTLONE_YOLO"; $"CODEWHALE_YOLO";
         $"DEEPSEEK_YOLO"] ≫= fun v => ok (parse_bool v);
     env_http_headers := first_some getenv [$"NESTLONE_HTTP_HEADERS"; $"CODEWHALE_HTTP_HEADERS";
         $"DEEPSEEK_HTTP_HEADERS"] ≫= fun v => nonempty_headers (ok (parse_http_headers v));
     env_deepseek_base_url := nonblank (first_some getenv [$"NESTLONE_BASE_URL"; $"CODEWHALE_BASE_URL";
         $"DEEPSEEK_BASE_URL"]);
     env_deepseek_anthropic_base_url := nonblank (first_some getenv [$"DEEPSEEK_ANTHROPIC_BASE_URL";
         $"DEEPSEEK_CLAUDE_BASE_URL"]);
     env_nvidia_base_url := nonblank (first_some getenv [$"NVIDIA_NIM_BASE_URL"; $"NIM_BASE_URL";
         $"NVIDIA_BASE_URL"]);
     env_openai_base_url := nonblank (first_some getenv [$"OPENAI_BASE_URL"]);
     env_atlascloud_base_url := nonblank (first_some getenv [$"ATLASCLOUD_BASE_URL"]);
     env_volcengine_base_url := nonblank (first_some getenv [$"VOLCENGINE_BASE_URL";
         $"VOLCENGINE_ARK_BASE_URL"; $"ARK_BASE_URL"]);
     env_wanjie_ark_base_url := nonblank (first_some getenv [$"WANJIE_ARK_BASE_URL"; $"WANJIE_BASE_URL";
         $"WANJIE_MAAS_BASE_URL"]);
     env_openrouter_base_url := nonblank (first_some getenv [$"OPENROUTER_BASE_URL"]);
     env_xiaomi_mimo_base_url := nonblank (first_some getenv [$"XIAOMI_MIMO_BASE_URL";
         $"MIMO_BASE_URL"]);
     env_novita_base_url := nonblank (first_some getenv [$"NOVITA_BASE_URL"]);
     env_fireworks_base_url := nonblank (first_some getenv [$"FIREWORKS_BASE_URL"]);
     env_siliconflow_base_url := nonblank (first_some getenv [$"SILICONFLOW_BASE_URL"]);
     env_siliconflow_model := nonblank (first_some getenv [$"SILICONFLOW_MODEL"]);
     env_arcee_base_url := nonblank (first_some getenv [$"ARCEE_BASE_URL"]);
     env_moonshot_base_url := nonblank (first_some getenv [$"MOONSHOT_BASE_URL"; $"KIMI_BASE_URL"]);
     env_sglang_base_url := nonblank (first_some getenv [$"SGLANG_BASE_URL"]);
     env_vllm_base_url := nonblank (first_some getenv [$"VLLM_BASE_URL"]);
     env_ollama_base_url := nonblank (first_some getenv [$"OLLAMA_BASE_URL"]);
     env_huggingface_base_url := nonblank (first_some getenv [$"HUGGINGFACE_BASE_URL"; $"HF_BASE_URL"]);
     env_huggingface_model := nonblank (first_some getenv [$"HUGGINGFACE_MODEL"; $"HF_MODEL"]);
     env_together_base_url := nonblank (first_some getenv [$"TOGETHER_BASE_URL"]);
     env_together_model := nonblank (first_some getenv [$"TOGETHER_MODEL"]);
     env_qianfan_base_url := or_else (nonblank (first_some getenv [$"QIANFAN_BASE_URL"]))
         (nonblank (first_some getenv [$"BAIDU_QIANFAN_BASE_URL"]));
     env_qianfan_model := or_else (nonblank (first_some getenv [$"QIANFAN_MODEL"]))
         (nonblank (first_some getenv [$"BAIDU_QIANFAN_MODEL"]));
     env_openai_codex_base_url := nonblank (first_some getenv [$"OPENAI_CODEX_BASE_URL";
         $"CODEX_BASE_URL"]);
     env_openai_codex_model := nonblank (first_some getenv [$"OPENAI_CODEX_MODEL"; $"CODEX_MODEL"]);
     env_anthropic_base_url := nonblank (first_some getenv [$"ANTHROPIC_BASE_URL"]);
     env_anthropic_model := nonblank (first_some getenv [$"ANTHROPIC_MODEL"]);
     env_openmodel_base_url := nonblank (first_some getenv [$"OPENMODEL_BASE_URL"]);
     env_openmodel_model := nonblank (first_some getenv [$"OPENMODEL_MODEL"]);
     env_zai_base_url := nonblank (first_some getenv [$"ZAI_BASE_URL"; $"Z_AI_BASE_URL";
         $"ZHIPU_BASE_URL"; $"ZHIPUAI_BASE_URL"; $"BIGMODEL_BASE_URL"]);
     env_zai_model := nonblank (first_some getenv [$"ZAI_MODEL"; $"Z_AI_MODEL"; $"ZHIPU_MODEL";
         $"ZHIPUAI_MODEL"; $"BIGMODEL_MODEL"; $"GLM_MODEL"]);
     env_stepfun_base_url := nonblank (first_some getenv [$"STEPFUN_BASE_URL"; $"STEP_BASE_URL"]);
     env_stepfun_model := nonblank (first_some getenv [$"STEPFUN_MODEL"; $"STEP_MODEL"]);
     env_minimax_base_url := nonblank (first_some getenv [$"MINIMAX_BASE_URL"]);
     env_minimax_anthropic_base_url := nonblank (first_some getenv [$"MINIMAX_ANTHROPIC_BASE_URL"]);
     env_minimax_model := nonblank (first_some getenv [$"MINIMAX_MODEL"]);
     env_deepinfra_base_url := nonblank (first_some getenv [$"DEEPINFRA_BASE_URL"]);
     env_deepinfra_model := nonblank (first_some getenv [$"DEEPINFRA_MODEL"]);
     env_sakana_base_url := nonblank (first_some getenv [$"SAKANA_BASE_URL"]);
     env_sakana_model := nonblank (first_some getenv [$"SAKANA_MODEL"]);
     env_longcat_base_url := nonblank (first_some getenv [$"LONGCAT_BASE_URL"]);
     env_longcat_model := nonblank (first_some getenv [$"LONGCAT_MODEL"]);
     env_opencode_go_base_url := nonblank (first_some getenv [$"OPENCODE_GO_BASE_URL"]);
     env_opencode_go_model := nonblank (first_some getenv [$"OPENCODE_GO_MODEL"]);
     env_opencode_zen_base_url := nonblank (first_some getenv [$"OPENCODE_ZEN_BASE_URL"]);
     env_opencode_zen_model := nonblank (first_some getenv [$"OPENCODE_ZEN_MODEL"]);
     env_meta_base_url := or_else (nonblank (first_some getenv [$"META_MODEL_API_BASE_URL"]))
         (nonblank (first_some getenv [$"MODEL_API_BASE_URL"]));
     env_meta_model := or_else (nonblank (first_some getenv [$"META_MODEL_API_MODEL"]))
         (nonblank (first_some getenv [$"MODEL_API_MODEL"]));
     env_xai_base_url := nonblank (first_some getenv [$"XAI_BASE_URL"]);
     env_xai_model := nonblank (first_some getenv [$"XAI_MODEL"]);
     env_telecomjs_base_url := nonblank (first_some getenv [$"TELECOMJS_BASE_URL"]);
     env_telecomjs_model := nonblank (first_some getenv [$"TELECOMJS_MODEL"]) |}.

Definition base_url_for (env : EnvRuntimeOverrides) (provider : ProviderKind) : option str :=
  match provider with
  | ProviderKind.Deepseek => env_deepseek_base_url env
  | ProviderKind.DeepseekAnthropic => env_deepseek_anthropic_base_url env
  | ProviderKind.NvidiaNim => env_nvidia_base_url env
  | ProviderKind.Openai => env_openai_base_url env
  | ProviderKind.Atlascloud => env_atlascloud_base_url env
  | ProviderKind.WanjieArk => env_wanjie_ark_base_url env
  | ProviderKind.Volcengine => env_volcengine_base_url env
  | ProviderKind.Openrouter => env_openrouter_base_url env
  | ProviderKind.XiaomiMimo => env_xiaomi_mimo_base_url env
  | ProviderKind.Novita => env_novita_base_url env
  | ProviderKind.Fireworks => env_fireworks_base_url env
  | ProviderKind.Siliconflow | ProviderKind.SiliconflowCN => env_siliconflow_base_url env
  | ProviderKind.Arcee => env_arcee_base_url env
  | ProviderKind.Moonshot => env_moonshot_base_url env
  | ProviderKind.Sglang => env_sglang_base_url env
  | ProviderKind.Vllm => env_vllm_base_url env
  | ProviderKind.Ollama => env_ollama_base_url env
  | ProviderKind.Huggingface => env_huggingface_base_url env
  | ProviderKind.Together => env_together_base_url env
  | ProviderKind.Qianfan => env_qianfan_base_url env
  | ProviderKind.OpenaiCodex => env_openai_codex_base_url env
  | ProviderKind.Anthropic => env_anthropic_base_url env
  | ProviderKind.Openmodel => env_openmodel_base_url env
  | ProviderKind.Zai => env_zai_base_url env
  | ProviderKind.Stepfun => env_stepfun_base_url env
  | ProviderKind.Minimax => env_minimax_base_url env
  | ProviderKind.MinimaxAnthropic => env_minimax_anthropic_base_url env
  | ProviderKind.Deepinfra => env_deepinfra_base_url env
  | ProviderKind.Sakana => env_sakana_base_url env
  | ProviderKind.LongCat => env_longcat_base_url env
  | ProviderKind.OpencodeGo => env_opencode_go_base_url env
  | ProviderKind.OpencodeZen => env_opencode_zen_base_url env
  | ProviderKind.Meta => env_meta_base_url env
  | ProviderKind.Xai => env_xai_base_url env
  | ProviderKind.Telecomjs => env_telecomjs_base_url env
  | ProviderKind.Custom => None
  end.

Definition model_for (env : EnvRuntimeOverrides) (provider : ProviderKind) (base_url : str) : option str :=
  model ← match provider with
  | ProviderKind.WanjieArk => env_wanjie_ark_model env
  | ProviderKind.Volcengine => env_volcengine_model env
  | ProviderKind.Openrouter => env_openrouter_model env
  | ProviderKind.Siliconflow | ProviderKind.SiliconflowCN => env_siliconflow_model env
  | ProviderKind.Arcee => env_arcee_model env
  | ProviderKind.Moonshot => env_moonshot_model env
  | ProviderKind.XiaomiMimo => env_xiaomi_mimo_model env
  | ProviderKind.Novita => env_novita_model env
  | ProviderKind.Fireworks => env_fireworks_model env
  | ProviderKind.Huggingface => env_huggingface_model env
  | ProviderKind.Together => env_together_model env
  | ProviderKind.Qianfan => env_qianfan_model env
  | ProviderKind.OpenaiCodex => env_openai_codex_model env
  | ProviderKind.Anthropic => env_anthropic_model env
  | ProviderKind.Openmodel => env_openmodel_model env
  | ProviderKind.Zai => env_zai_model env
  | ProviderKind.Stepfun => env_stepfun_model env
  | ProviderKind.Minimax | ProviderKind.MinimaxAnthropic => env_minimax_model env
  | ProviderKind.Deepinfra => env_deepinfra_model env
  | ProviderKind.Sakana => env_sakana_model env
  | ProviderKind.LongCat => env_longcat_model env
  | ProviderKind.OpencodeGo => env_opencode_go_model env
  | ProviderKind.OpencodeZen => env_opencode_zen_model env
  | ProviderKind.Meta => env_meta_model env
  | ProviderKind.Xai => env_xai_model env
  | ProviderKind.Telecomjs => env_telecomjs_model env
  | _ => None
  end;
  Some (if provider_preserves_custom_base_url_model provider base_url then trim model
        else normalize_model_for_provider provider model).

(** ** Secrets *)

Definition env_candidates : list (list str * list str) :=
  [
    ([$"deepseek"],
     [$"DEEPSEEK_API_KEY"]);
    ([$"openrouter"],
     [$"OPENROUTER_API_KEY"]);
    ([$"xiaomi-mimo"; $"xiaomi_mimo"; $"xiaomimimo"; $"mimo"; $"xiaomi"],
     [$"XIAOMI_MIMO_API_KEY"; $"XIAOMI_API_KEY"; $"MIMO_API_KEY"]);
    ([$"novita"; $"novita-ai"; $"novita_ai"],
     [$"NOVITA_API_KEY"]);
    ([$"together"; $"together-ai"; $"together_ai"; $"togetherai"],
     [$"TOGETHER_API_KEY"]);
    ([$"deepinfra"; $"deep-infra"; $"deep_infra"],
     [$"DEEPINFRA_API_KEY"; $"DEEPINFRA_TOKEN"]);
    ([$"nvidia"; $"nvidia-nim"; $"nvidia_nim"; $"nim"],
     [$"NVIDIA_API_KEY"; $"NVIDIA_NIM_API_KEY"; $"DEEPSEEK_API_KEY"]);
    ([$"fireworks"; $"fireworks-ai"],
     [$"FIREWORKS_API_KEY"]);
    ([$"siliconflow"; $"silicon-flow"; $"silicon_flow"; $"siliconflow-cn"; $"siliconflow_cn";
      $"silicon-flow-cn"; $"silicon_flow_cn"; $"siliconflow-china"],
     [$"SILICONFLOW_API_KEY"]);
    ([$"arcee"; $"arcee-ai"; $"arcee_ai"],
     [$"ARCEE_API_KEY"]);
    ([$"moonshot"; $"moonshot-ai"; $"kimi"; $"kimi-k2"],
     [$"MOONSHOT_API_KEY"; $"KIMI_API_KEY"]);
    ([$"sglang"; $"sg-lang"],
     [$"SGLANG_API_KEY"]);
    ([$"vllm"; $"v-llm"],
     [$"VLLM_API_KEY"]);
    ([$"ollama"; $"ollama-local"],
     [$"OLLAMA_API_KEY"]);
    ([$"openai"],
     [$"OPENAI_API_KEY"]);
    ([$"anthropic"; $"claude"],
     [$"ANTHROPIC_API_KEY"]);
    ([$"atlascloud"; $"atlas-cloud"; $"atlas_cloud"; $"atlas"],
     [$"ATLASCLOUD_API_KEY"]);
    ([$"volcengine"; $"volcengine-ark"; $"volcengine_ark"; $"ark"; $"volc-ark"; $"volcengineark"],
     [$"VOLCENGINE_API_KEY"; $"VOLCENGINE_ARK_API_KEY"; $"ARK_API_KEY"]);
    ([$"wanjie"; $"wanjie-ark"; $"wanjie_ark"; $"ark-wanjie"; $"ark_wanjie"; $"wanjieark";
      $"wanjie-maas"; $"wanjie_maas"; $"wanjiemaas"],
     [$"WANJIE_ARK_API_KEY"; $"WANJIE_API_KEY"; $"WANJIE_MAAS_API_KEY"]);
    ([$"sakana"; $"sakana-ai"; $"sakana_ai"; $"fugu"],
     [$"FUGU_API_KEY"; $"SAKANA_API_KEY"]);
    ([$"longcat"; $"long-cat"; $"meituan-longcat"; $"meituan"],
     [$"LONGCAT_API_KEY"]);
    ([$"opencode-go"; $"opencode_go"; $"opencodego"],
     [$"OPENCODE_GO_API_KEY"]);
    ([$"opencode-zen"; $"opencode_zen"; $"opencodezen"; $"zen"; $"opencode"],
     [$"OPENCODE_ZEN_API_KEY"; $"OPENCODE_API_KEY"]);
    ([$"meta"; $"meta-ai"; $"meta_ai"; $"meta-model-api"; $"meta_model_api"; $"muse"; $"muse-spark"],
     [$"META_MODEL_API_KEY"; $"MODEL_API_KEY"]);
    ([$"xai"; $"x-ai"; $"x_ai"; $"grok"],
     [$"XAI_API_KEY"]);
    ([$"telecomjs"; $"telecom-js"; $"telecom_js"; $"telecomjs-cn"; $"tokenhub"],
     [$"TELECOMJS_API_KEY"])].

(** [nestlone_secrets::env_for]. *)
Definition env_for (name : str) : option str :=
  candidates ← match_text (to_ascii_lowercase name) env_candidates;
  first_some (fun var => nonblank (getenv var)) candidates.

Inductive SecretSource := SecretKeyring | SecretEnv.

(** [Secrets::resolve_with_source]; [store] is the backend's [get]. *)
Definition resolve_with_source (store : str -> result str (option str)) (name : str) : option (str * SecretSource) :=
  match store name with
  | Ok (Some v) =>
      if str_is_empty (trim v) then (fun v => (v, SecretEnv)) <$> env_for name else Some (v, SecretKeyring)
  | _ => (fun v => (v, SecretEnv)) <$> env_for name
  end.

Definition env_api_key_for_provider (provider : ProviderKind) : option str :=
  if bool_decide (provider = ProviderKind.Huggingface)
  then or_else (nonblank (getenv $"HUGGINGFACE_API_KEY")) (nonblank (getenv $"HF_TOKEN"))
  else env_for (kind_as_str provider).

Definition xiaomi_mimo_env_var (candidates : list str) : option str :=
  first_some (fun name => nonblank (getenv name)) candidates.

Definition xiaomi_mimo_env_api_key_for_runtime (mode base_url : option str) : option str :=
  let TOKEN_PLAN_ENV_VARS := [$"XIAOMI_MIMO_TOKEN_PLAN_API_KEY"; $"MIMO_TOKEN_PLAN_API_KEY"] in
  let STANDARD_ENV_VARS := [$"XIAOMI_MIMO_API_KEY"; $"XIAOMI_API_KEY"; $"MIMO_API_KEY"] in
  let normalized_mode := name_key <$> mode in
  let on_mode f := match normalized_mode with Some m => f m | None => false end in
  let on_url f := match base_url with Some u => f u | None => false end in
  if on_mode xiaomi_mimo_mode_uses_standard_endpoint || on_url xiaomi_mimo_base_url_is_pay_as_you_go
  then xiaomi_mimo_env_var STANDARD_ENV_VARS
  else if on_mode (fun m => bool_decide (is_Some (xiaomi_mimo_base_url_for_mode m)))
          || on_url xiaomi_mimo_base_url_uses_token_plan
  then xiaomi_mimo_env_var TOKEN_PLAN_ENV_VARS
  else or_else (xiaomi_mimo_env_var TOKEN_PLAN_ENV_VARS) (xiaomi_mimo_env_var STANDARD_ENV_VARS).

(** ** Resolution *)

Record CliRuntimeOverrides := {
  cli_provider : option ProviderKind; cli_model : option str; cli_api_key : option str; cli_base_url : option str;
  cli_auth_mode : option str; cli_output_mode : option str; cli_log_level : option str; cli_telemetry : option bool;
  cli_approval_policy : option str; cli_sandbox_mode : option str; cli_yolo : option bool; cli_verbosity : option str }.

Inductive RuntimeApiKeySource := KeyFromCli | KeyFromConfigFile | KeyFromKeyring | KeyFromEnv.

Definition as_env_value (s : RuntimeApiKeySource) : str :=
  match s with
  | KeyFromCli => $"cli" | KeyFromConfigFile => $"config" | KeyFromKeyring => $"keyring" | KeyFromEnv => $"env"
  end.

Inductive ProviderSource := ProviderFromCli | ProviderFromEnv (label : str) | ProviderFromConfig.

Inductive ModelSource :=
| ModelFromCli | ModelFromEnv | ModelFromProviderConfig | RootDefaultTextModel | RootModel | ProviderDefault.

Definition is_explicit (s : ModelSource) : bool := match s with ProviderDefault => false | _ => true end.

Definition model_source_as_str (s : ModelSource) : str :=
  match s with
  | ModelFromCli => $"--model"
  | ModelFromEnv => $"environment"
  | ModelFromProviderConfig => $"config [providers.*].model"
  | RootDefaultTextModel => $"config default_text_model"
  | RootModel => $"config model"
  | ProviderDefault => $"provider default"
  end.

Record ResolvedRuntimeOptions := {
  ro_provider : ProviderKind; ro_provider_source : ProviderSource; ro_model : str; ro_model_source : ModelSource;
  ro_api_key : option str; ro_api_key_source : option RuntimeApiKeySource; ro_base_url : str;
  ro_auth_mode : option str; ro_insecure_skip_tls_verify : bool; ro_output_mode : option str;
  ro_log_level : option str; ro_telemetry : bool; ro_approval_policy : option str; ro_sandbox_mode : option str;
  ro_yolo : option bool; ro_verbosity : option str; ro_http_headers : gmap str str }.

(** [try_into] of a provider table. *)
Variable try_into : value -> option ProviderConfigToml.

Definition named_custom_provider_id (c : ConfigToml) : option str :=
  if bool_decide (cfg_provider c = ProviderKind.Custom) then cfg_selected_provider_id c else None.

Definition named_custom_provider_table (c : ConfigToml) (provider_id : str) : result str (gmap str value) :=
  table ← ok_or (pt_extras (cfg_providers c) !! provider_id ≫= as_table)
    ($"custom provider '" ++ provider_id ++ $"' requires a matching [providers." ++ provider_id ++ $"] table");
  match table !! ($"kind" : str) ≫= as_str with
  | Some kind =>
      if bool_decide (replace_chars (N.eqb (chr "_")) $"-" (to_ascii_lowercase (trim kind)) = $"openai-compatible")
      then Ok table
      else Err ($"custom provider '" ++ provider_id ++ $"' must set [providers." ++ provider_id
                ++ $"].kind = " ++ 34%N :: $"openai-compatible" ++ [34%N])
  | None => Err ($"custom provider '" ++ provider_id ++ $"' must set [providers." ++ provider_id
                 ++ $"].kind = " ++ 34%N :: $"openai-compatible" ++ [34%N])
  end.

Definition named_custom_provider_config (c : ConfigToml) : option ProviderConfigToml :=
  provider_id ← named_custom_provider_id c;
  _ ← ok (named_custom_provider_table c provider_id);
  table ← pt_extras (cfg_providers c) !! provider_id;
  try_into table.

Definition select_provider (c : ConfigToml) (cli : CliRuntimeOverrides) (env : EnvRuntimeOverrides) : ProviderKind * ProviderSource :=
  match cli_provider cli with
  | Some provider => (provider, ProviderFromCli)
  | None =>
      match env_provider env with
      | Some provider => (provider, ProviderFromEnv (default $"NESTLONE_PROVIDER" (env_provider_source env)))
      | None => (cfg_provider c, ProviderFromConfig)
      end
  end.

Definition is_from_config (s : ProviderSource) : bool := match s with ProviderFromConfig => true | _ => false end.

(** What [siliconflow-cn] takes from [siliconflow]. *)
Definition with_fallback (pc fb : ProviderConfigToml) : ProviderConfigToml :=
  {| pc_api_key := or_else (pc_api_key pc) (pc_api_key fb);
     pc_base_url := or_else (pc_base_url pc) (pc_base_url fb);
     pc_model := or_else (pc_model pc) (pc_model fb);
     pc_context_window := pc_context_window pc; pc_mode := pc_mode pc; pc_auth_mode := pc_auth_mode pc;
     pc_insecure_skip_tls_verify := pc_insecure_skip_tls_verify pc; pc_http_headers := pc_http_headers pc;
     pc_path_suffix := pc_path_suffix pc; pc_auth := pc_auth pc;
     pc_external_credentials := pc_external_credentials pc;
     pc_oauth_credential_generation := pc_oauth_credential_generation pc; pc_extras := pc_extras pc |}.

(** The selected provider's table. *)
Definition selected_table (c : ConfigToml) (selected : ProviderKind * ProviderSource) : ProviderConfigToml :=
  let table := for_provider (cfg_providers c) selected.1 in
  if bool_decide (selected.1 = ProviderKind.Custom) && is_from_config selected.2
  then default table (named_custom_provider_config c)
  else table.

(** The same with the fallback of the China region. *)
Definition provider_config (c : ConfigToml) (selected : ProviderKind * ProviderSource) : ProviderConfigToml :=
  let provider := selected.1 in
  let pc := selected_table c selected in
  if bool_decide (provider = ProviderKind.SiliconflowCN)
  then with_fallback pc (pt_siliconflow (cfg_providers c))
  else pc.

(** What a root key of the file means: DeepSeek's. *)
Definition root_deepseek (provider : ProviderKind) (o : option str) : option str :=
  if bool_decide (provider = ProviderKind.Deepseek) then o else None.

Definition runtime_default_base_url (provider : ProviderKind) (auth_mode : option str) : str :=
  let uses_kimi := match auth_mode with Some m => auth_mode_uses_kimi_imported_token m | None => false end in
  match provider with
  | ProviderKind.Deepseek => DEFAULT_DEEPSEEK_BASE_URL
  | ProviderKind.DeepseekAnthropic => DEFAULT_DEEPSEEK_ANTHROPIC_BASE_URL
  | ProviderKind.NvidiaNim => DEFAULT_NVIDIA_NIM_BASE_URL
  | ProviderKind.Openai => DEFAULT_OPENAI_BASE_URL
  | ProviderKind.Atlascloud => DEFAULT_ATLASCLOUD_BASE_URL
  | ProviderKind.WanjieArk => DEFAULT_WANJIE_ARK_BASE_URL
  | ProviderKind.Volcengine => DEFAULT_VOLCENGINE_BASE_URL
  | ProviderKind.Openrouter => DEFAULT_OPENROUTER_BASE_URL
  | ProviderKind.XiaomiMimo => DEFAULT_XIAOMI_MIMO_BASE_URL
  | ProviderKind.Novita => DEFAULT_NOVITA_BASE_URL
  | ProviderKind.Fireworks => DEFAULT_FIREWORKS_BASE_URL
  | ProviderKind.Siliconflow => DEFAULT_SILICONFLOW_BASE_URL
  | ProviderKind.SiliconflowCN => DEFAULT_SILICONFLOW_CN_BASE_URL
  | ProviderKind.Arcee => DEFAULT_ARCEE_BASE_URL
  | ProviderKind.Moonshot =>
      if uses_kimi then DEFAULT_KIMI_CODE_BASE_URL else DEFAULT_MOONSHOT_BASE_URL
  | ProviderKind.Sglang => DEFAULT_SGLANG_BASE_URL
  | ProviderKind.Vllm => DEFAULT_VLLM_BASE_URL
  | ProviderKind.Ollama => DEFAULT_OLLAMA_BASE_URL
  | ProviderKind.Huggingface => DEFAULT_HUGGINGFACE_BASE_URL
  | ProviderKind.Together => DEFAULT_TOGETHER_BASE_URL
  | ProviderKind.Qianfan => DEFAULT_QIANFAN_BASE_URL
  | ProviderKind.OpenaiCodex => DEFAULT_OPENAI_CODEX_BASE_URL
  | ProviderKind.Anthropic => DEFAULT_ANTHROPIC_BASE_URL
  | ProviderKind.Openmodel => DEFAULT_OPENMODEL_BASE_URL
  | ProviderKind.Zai => DEFAULT_ZAI_BASE_URL
  | ProviderKind.Stepfun => DEFAULT_STEPFUN_BASE_URL
  | ProviderKind.Minimax => DEFAULT_MINIMAX_BASE_URL
  | ProviderKind.MinimaxAnthropic => DEFAULT_MINIMAX_ANTHROPIC_BASE_URL
  | ProviderKind.Deepinfra => DEFAULT_DEEPINFRA_BASE_URL
  | ProviderKind.Sakana => DEFAULT_SAKANA_BASE_URL
  | ProviderKind.LongCat => DEFAULT_LONGCAT_BASE_URL
  | ProviderKind.OpencodeGo => DEFAULT_OPENCODE_GO_BASE_URL
  | ProviderKind.OpencodeZen => DEFAULT_OPENCODE_ZEN_BASE_URL
  | ProviderKind.Meta => DEFAULT_META_BASE_URL
  | ProviderKind.Xai => DEFAULT_XAI_BASE_URL
  | ProviderKind.Telecomjs => DEFAULT_TELECOMJS_BASE_URL
  | ProviderKind.Custom => default_base_url (provider_for_kind provider)
  end.

(** The local values of [resolve_runtime_options_with_secrets] up to the base
    URL. *)
Record Endpoint := {
  ep_auth_mode : option str; ep_from_file : option str; ep_base_url_from_file : bool;
  ep_xiaomi_mimo_env_api_key : option str; ep_base_url : str }.

Definition resolve_endpoint (c : ConfigToml) (cli : CliRuntimeOverrides) (env : EnvRuntimeOverrides)
    (provider : ProviderKind) (pc : ProviderConfigToml) : Endpoint :=
  let auth_mode := or_else (cli_auth_mode cli) (or_else (env_auth_mode env) (or_else (pc_auth_mode pc) (cfg_auth_mode c))) in
  let from_file := or_else (pc_api_key pc) (root_deepseek provider (cfg_api_key c)) in
  let file_base_url := or_else (pc_base_url pc) (root_deepseek provider (cfg_base_url c)) in
  let configured := or_else (cli_base_url cli) (or_else (base_url_for env provider) file_base_url) in
  let is_mimo := bool_decide (provider = ProviderKind.XiaomiMimo) in
  let mode := if is_mimo then or_else (env_xiaomi_mimo_mode env) (pc_mode pc) else None in
  let mimo_key := if is_mimo then xiaomi_mimo_env_api_key_for_runtime mode configured else None in
  {| ep_auth_mode := auth_mode; ep_from_file := from_file;
     ep_base_url_from_file :=
       bool_decide (cli_base_url cli = None) && bool_decide (base_url_for env provider = None)
       && bool_decide (is_Some file_base_url);
     ep_xiaomi_mimo_env_api_key := mimo_key;
     ep_base_url :=
       if is_mimo
       then resolve_xiaomi_mimo_base_url configured (or_else (cli_api_key cli) (or_else from_file mimo_key)) mode
       else default (runtime_default_base_url provider auth_mode) configured |}.

Definition from_env (o : option str) : option str * option RuntimeApiKeySource :=
  match o with Some v => (Some v, Some KeyFromEnv) | None => (None, None) end.

Definition resolve_api_key (cli : CliRuntimeOverrides) (store : str -> result str (option str))
    (provider : ProviderKind) (ep : Endpoint) : option str * option RuntimeApiKeySource :=
  let uses_kimi_imported_token :=
    bool_decide (provider = ProviderKind.Moonshot)
    && match ep_auth_mode ep with Some m => auth_mode_uses_kimi_imported_token m | None => false end in
  let custom_endpoint := provider_preserves_custom_base_url_model provider (ep_base_url ep) in
  if auth_mode_disables_api_key (ep_auth_mode ep) then (None, None)
  else match cli_api_key cli with
  | Some v => (Some v, Some KeyFromCli)
  | None =>
      if uses_kimi_imported_token && negb custom_endpoint then (None, None)
      else match (if negb custom_endpoint || ep_base_url_from_file ep then nonblank (ep_from_file ep) else None) with
      | Some v => (Some v, Some KeyFromConfigFile)
      | None =>
          match (if custom_endpoint then None else nonblank (ep_xiaomi_mimo_env_api_key ep)) with
          | Some v => (Some v, Some KeyFromEnv)
          | None =>
              if custom_endpoint then (None, None)
              else if should_skip_secret_store_for_provider provider (ep_base_url ep) (ep_auth_mode ep)
              then from_env (env_api_key_for_provider provider)
              else match resolve_with_source store (kind_as_str provider) with
              | Some (v, SecretKeyring) => (Some v, Some KeyFromKeyring)
              | Some (v, SecretEnv) => (Some v, Some KeyFromEnv)
              | None => from_env (env_api_key_for_provider provider)
              end
          end
      end
  end.

Definition resolve_model (c : ConfigToml) (cli : CliRuntimeOverrides) (env : EnvRuntimeOverrides)
    (provider : ProviderKind) (pc : ProviderConfigToml) (ep : Endpoint) : str * ModelSource :=
  let base_url := ep_base_url ep in
  let env_provider_model := model_for env provider base_url in
  let root_default_model :=
    match cfg_default_text_model c with
    | Some m => if root_default_model_is_foreign_to_provider provider m base_url then None else Some m
    | None => None
    end in
  let source :=
    if bool_decide (is_Some (cli_model cli)) then ModelFromCli
    else if bool_decide (is_Some (env_model env)) || bool_decide (is_Some env_provider_model) then ModelFromEnv
    else if bool_decide (is_Some (pc_model pc)) then ModelFromProviderConfig
    else if bool_decide (is_Some root_default_model) then RootDefaultTextModel
    else if bool_decide (is_Some (cfg_model c)) then RootModel
    else ProviderDefault in
  let fallback :=
    if bool_decide (provider = ProviderKind.Moonshot)
       && (match ep_auth_mode ep with Some m => auth_mode_uses_kimi_imported_token m | None => false end
           || moonshot_base_url_uses_kimi_code base_url)
    then DEFAULT_KIMI_CODE_MODEL else default_model_for_provider provider in
  let chosen :=
    default fallback
      (or_else (cli_model cli) (or_else (env_model env) (or_else env_provider_model
        (or_else (pc_model pc) (or_else root_default_model (cfg_model c)))))) in
  (if bool_decide (provider = ProviderKind.OpencodeGo) then normalize_model_for_provider provider chosen
   else if is_explicit source && provider_preserves_custom_base_url_model provider base_url then trim chosen
   else normalize_model_for_provider provider chosen, source).

Definition header_is_set (nv : str * str) : Prop :=
  str_is_empty (trim nv.1) = false /\ str_is_empty (trim nv.2) = false.

Definition resolve_http_headers (c : ConfigToml) (env : EnvRuntimeOverrides) (pc : ProviderConfigToml)
    (auth_disabled : bool) : gmap str str :=
  let headers := default ∅ (env_http_headers env) ∪ (pc_http_headers pc ∪ cfg_http_headers c) in
  let headers := filter header_is_set headers in
  if auth_disabled then filter (fun nv => is_upstream_auth_header nv.1 = false) headers else headers.

Definition resolve_runtime_options_with_secrets (c : ConfigToml) (cli : CliRuntimeOverrides)
    (store : str -> result str (option str)) : ResolvedRuntimeOptions :=
  let env := load in
  let selected := select_provider c cli env in
  let provider := selected.1 in
  let pc := provider_config c selected in
  let ep := resolve_endpoint c cli env provider pc in
  let key := resolve_api_key cli store provider ep in
  let chosen := resolve_model c cli env provider pc ep in
  {| ro_provider := provider; ro_provider_source := selected.2; ro_model := chosen.1; ro_model_source := chosen.2;
     ro_api_key := key.1; ro_api_key_source := key.2; ro_base_url := ep_base_url ep;
     ro_auth_mode := ep_auth_mode ep;
     ro_insecure_skip_tls_verify := default false (pc_insecure_skip_tls_verify pc);
     ro_output_mode := or_else (cli_output_mode cli) (or_else (env_output_mode env) (cfg_output_mode c));
     ro_log_level := or_else (cli_log_level cli) (or_else (env_log_level env) (cfg_log_level c));
     ro_telemetry := default false (or_else (cli_telemetry cli) (or_else (env_telemetry env) (cfg_telemetry c)));
     ro_approval_policy :=
       or_else (cli_approval_policy cli) (or_else (env_approval_policy env) (cfg_approval_policy c));
     ro_sandbox_mode := or_else (cli_sandbox_mode cli) (or_else (env_sandbox_mode env) (cfg_sandbox_mode c));
     ro_yolo := or_else (cli_yolo cli) (env_yolo env);
     ro_verbosity := or_else (cli_verbosity cli) (or_else (env_verbosity env) (cfg_verbosity c));
     ro_http_headers :=
       resolve_http_headers c env pc (auth_mode_disables_api_key (ep_auth_mode ep)) |}.

(** [resolve_runtime_options] gives it an empty store. *)
Definition resolve_runtime_options (c : ConfigToml) (cli : CliRuntimeOverrides) : ResolvedRuntimeOptions :=
  resolve_runtime_options_with_secrets c cli (fun _ => Ok None).
End environment.
End config.
