(* ===== verification/ConfigSpec.v ===== *)
(** * Properties of model names and runtime options

    Canonical names are stable, a credential stays with the endpoint it belongs
    to, and a project's file changes neither. *)

From S2P Require Import Text Providers ModelNames RuntimeOptions.

(** ** Tables *)

Lemma match_text_in {A} s (arms : list (list str * A)) a : match_text s arms = Some a -> a ∈ (snd <$> arms).
Proof.
  induction arms as [|[names b] arms IH]; cbn; [done|]. destruct (is_one_of s names).
  - intros [= ->]. by left.
  - intros H. right. by apply IH.
Qed.

(** The arms of a provider. *)
Definition arms_of (p : ProviderKind) : list str :=
  (snd <$> retain (fun arm => bool_decide (p ∈ arm.1.1)) deepseek_aliases).

Lemma match_provider_in p s arms a :
  match_provider p s arms = Some a -> a ∈ (snd <$> retain (fun arm => bool_decide (p ∈ arm.1.1)) arms).
Proof.
  induction arms as [|[[kinds names] b] arms IH]; cbn; [done|].
  destruct (bool_decide (p ∈ kinds)); cbn; [|done]. destruct (is_one_of s names).
  - intros [= ->]. by left.
  - intros H. right. by apply IH.
Qed.

(** Every name the tables of a provider can give. *)
Definition table_names (p : ProviderKind) : list str :=
  match p with
  | ProviderKind.OpencodeGo =>
      DEFAULT_OPENCODE_GO_MODEL :: OPENCODE_GO_CHAT_MODELS ++ (snd <$> opencode_go_aliases)
  | ProviderKind.XiaomiMimo => snd <$> xiaomi_mimo_aliases
  | ProviderKind.Minimax | ProviderKind.MinimaxAnthropic => snd <$> minimax_aliases
  | ProviderKind.Zai => snd <$> zai_aliases
  | ProviderKind.Openrouter => (snd <$> openrouter_aliases) ++ arms_of p
  | _ => arms_of p
  end.

Lemma opencode_go_in model m : opencode_go_chat_model_id model = Some m -> m ∈ table_names ProviderKind.OpencodeGo.
Proof.
  unfold opencode_go_chat_model_id. cbn zeta. destruct (match_text _ _) eqn:E; cbn [table_names].
  - intros [= ->]. apply match_text_in in E. right. apply elem_of_app. by right.
  - intros [H _]%find_Some. right. apply elem_of_app. by left.
Qed.

Lemma own_alias_in p model m : own_alias p model = Some m -> m ∈ table_names p.
Proof. destruct p; cbn [own_alias table_names]; try done; apply match_text_in. Qed.

Lemma normalize_cases p model :
  normalize_model_for_provider p model = model \/ normalize_model_for_provider p model ∈ table_names p.
Proof.
  unfold normalize_model_for_provider. case_bool_decide as Hgo.
  { right. subst p. destruct (opencode_go_chat_model_id model) eqn:E; cbn [default]; [by apply opencode_go_in in E|left]. }
  destruct (own_alias p model) eqn:E; [right; by eapply own_alias_in|].
  destruct (keeps_model_name p) eqn:Hk; [by left|]. cbn zeta.
  destruct (if bool_decide (p = ProviderKind.Openrouter) then _ else _) eqn:Eo.
  { right. case_bool_decide; [subst p|done]. apply match_text_in in Eo. apply elem_of_app. by left. }
  destruct (match_provider _ _ _) eqn:Em; cbn [default]; [|by left].
  right. apply match_provider_in in Em. destruct p; try done; cbn [table_names]; try exact Em. apply elem_of_app; by right.
Qed.

Lemma table_names_final :
  forallb (fun p => forallb (fun m => bool_decide (normalize_model_for_provider p m = m)) (table_names p))
    ProviderKind.ALL = true.
Proof. vm_compute. reflexivity. Qed.

Lemma all_kinds (p : ProviderKind) : p ∈ ProviderKind.ALL.
Proof. apply list_elem_of_lookup. exists (kind_discriminant p). by destruct p. Qed.

Lemma forallb_elem {A} (f : A -> bool) l x : forallb f l = true -> x ∈ l -> f x = true.
Proof. intros H Hx. rewrite forallb_forall in H. by apply H, list_elem_of_In. Qed.

Lemma normalize_idempotent p model :
  normalize_model_for_provider p (normalize_model_for_provider p model) = normalize_model_for_provider p model.
Proof.
  destruct (normalize_cases p model) as [E|E]; [by rewrite !E|].
  pose proof (forallb_elem _ _ _ (forallb_elem _ _ _ table_names_final (all_kinds p)) E) as H.
  by apply bool_decide_eq_true in H.
Qed.

(** ** Tables that agree *)

(** The two tables of defaults are the registry's. *)
Lemma default_tables_agree p :
  default_model_for_provider p = default_model (provider_for_kind p)
  /\ default_base_url_for_provider p = default_base_url (provider_for_kind p).
Proof. by destruct p. Qed.

(** The inline table of the resolver is the same, except that an imported Kimi
    token moves Moonshot. *)
Lemma runtime_default_base_url_spec p mode :
  runtime_default_base_url p mode =
    if bool_decide (p = ProviderKind.Moonshot)
       && match mode with Some m => auth_mode_uses_kimi_imported_token m | None => false end
    then DEFAULT_KIMI_CODE_BASE_URL else default_base_url_for_provider p.
Proof. destruct p, mode; cbn; try done; by destruct (auth_mode_uses_kimi_imported_token _). Qed.

Lemma official_defaults :
  forallb (fun p => bool_decide (p = ProviderKind.Custom)
                    || provider_base_url_is_official p (default_base_url_for_provider p)) ProviderKind.ALL = true.
Proof. vm_compute. reflexivity. Qed.

(** A provider's default endpoint is its own, whatever the mode. *)
Lemma default_base_url_is_official p mode :
  p <> ProviderKind.Custom -> provider_base_url_is_official p (runtime_default_base_url p mode) = true.
Proof.
  intros Hp. rewrite runtime_default_base_url_spec. destruct (_ && _) eqn:E.
  - apply andb_prop in E as [->%bool_decide_eq_true _]. vm_compute. reflexivity.
  - pose proof (forallb_elem _ _ _ official_defaults (all_kinds p)) as H. cbv beta in H.
    by rewrite (bool_decide_eq_false_2 _ Hp) in H.
Qed.

(** The default model of OpenAI is a DeepSeek name, which the guard against
    foreign names rejects on OpenAI's own endpoint; it is the only such
    default. *)
Example openai_default_is_foreign :
  retain (fun p => bool_decide (is_Some (known_foreign_model_owner p (default_model_for_provider p)
                                            (default_base_url_for_provider p)))) ProviderKind.ALL
  = [ProviderKind.Openai].
Proof. reflexivity. Qed.

(** The providers whose descriptor names environment variables for a key that
    [env_for] does not look up. *)
Example env_for_misses_descriptors :
  retain (fun p => negb (bool_decide (env_vars (provider_for_kind p) = []))
                   && bool_decide (match_text (to_ascii_lowercase (kind_as_str p)) env_candidates = None))
    ProviderKind.ALL
  = [ProviderKind.DeepseekAnthropic; ProviderKind.Huggingface; ProviderKind.Qianfan; ProviderKind.OpenaiCodex;
     ProviderKind.Openmodel; ProviderKind.Zai; ProviderKind.Stepfun; ProviderKind.Minimax;
     ProviderKind.MinimaxAnthropic].
Proof. vm_compute. reflexivity. Qed.

(** ** Credentials *)

Section runtime.
Context `{Toml} (getenv : str -> option str) (try_into : value -> option ProviderConfigToml).

Lemma nonblank_Some o v : nonblank o = Some v -> o = Some v.
Proof. destruct o as [w|]; cbn; [|done]. by destruct (str_is_empty _). Qed.

Lemma first_nonblank vars v :
  first_some (fun var => nonblank (getenv var)) vars = Some v -> exists var, getenv var = Some v.
Proof.
  intros (_ & var & _ & _ & E & _)%first_some_Some. exists var. by apply nonblank_Some.
Qed.

Lemma env_for_Some name v : env_for getenv name = Some v -> exists var, getenv var = Some v.
Proof. unfold env_for. destruct (match_text _ _) as [vars|]; cbn; [apply first_nonblank|done]. Qed.

Lemma env_api_key_Some p v : env_api_key_for_provider getenv p = Some v -> exists var, getenv var = Some v.
Proof.
  unfold env_api_key_for_provider. case_bool_decide; [|apply env_for_Some].
  intros [E|[_ E]]%or_else_Some; apply nonblank_Some in E; eauto.
Qed.

Lemma mimo_env_key_Some mode url v :
  xiaomi_mimo_env_api_key_for_runtime getenv mode url = Some v -> exists var, getenv var = Some v.
Proof.
  unfold xiaomi_mimo_env_api_key_for_runtime, xiaomi_mimo_env_var. cbn zeta.
  destruct (_ || _); [apply first_nonblank|]. destruct (_ || _); [apply first_nonblank|].
  intros [E|[_ E]]%or_else_Some; by apply first_nonblank in E.
Qed.

(** What a secret came from. *)
Lemma resolve_with_source_Some store name v src :
  resolve_with_source getenv store name = Some (v, src) ->
  match src with SecretKeyring => store name = Ok (Some v) | SecretEnv => exists var, getenv var = Some v end.
Proof.
  unfold resolve_with_source. intros E.
  assert (HE : (fun w => (w, SecretEnv)) <$> env_for getenv name = Some (v, src) \/ store name = Ok (Some v) /\ src = SecretKeyring).
  { destruct (store name) as [[w|]|e]; auto. destruct (str_is_empty (trim w)); [auto|]. injection E as -> <-. auto. }
  destruct HE as [(w & Hw & [= -> ->])%fmap_Some|[Hs ->]]; [by eapply env_for_Some|done].
Qed.

(** The endpoints of the token plan are MiMo's own. *)
Lemma mimo_mode_url_official m url :
  xiaomi_mimo_base_url_for_mode m = Some url -> provider_base_url_is_official ProviderKind.XiaomiMimo url = true.
Proof.
  assert (Hall : forallb (provider_base_url_is_official ProviderKind.XiaomiMimo)
                   (DEFAULT_XIAOMI_MIMO_BASE_URL :: (snd <$> xiaomi_mimo_mode_urls)) = true)
    by (vm_compute; reflexivity).
  unfold xiaomi_mimo_base_url_for_mode. cbn zeta. destruct (_ || _); [done|].
  destruct (match_text (name_key m) xiaomi_mimo_mode_urls) as [v|] eqn:E; cbn [default]; intros [= <-];
    apply (forallb_elem _ _ _ Hall); [|by left].
  right. by eapply match_text_in.
Qed.

Lemma resolve_mimo_cases u key mode :
  let url := resolve_xiaomi_mimo_base_url (Some u) key mode in
  url = u \/ provider_base_url_is_official ProviderKind.XiaomiMimo url = true.
Proof.
  unfold resolve_xiaomi_mimo_base_url. cbn zeta.
  destruct (match _ <$> _ with Some _ => _ | None => _ end); [by left|]. destruct (_ && _); [|by left]. right.
  destruct mode as [m|]; cbn; [|vm_compute; reflexivity].
  destruct (xiaomi_mimo_base_url_for_mode (name_key m)) eqn:E; [by eapply mimo_mode_url_official|vm_compute; reflexivity].
Qed.

(** The base URL of a resolved endpoint that is not the provider's own. *)
Lemma custom_base_url c cli env p pc :
  let ep := resolve_endpoint getenv c cli env p pc in
  provider_base_url_is_official p (ep_base_url ep) = false -> ep_base_url_from_file ep = true ->
  or_else (pc_base_url pc) (root_deepseek p (cfg_base_url c)) = Some (ep_base_url ep).
Proof.
  intros ep Hc Hf. subst ep. cbn [resolve_endpoint ep_base_url_from_file ep_base_url] in *.
  apply andb_prop in Hf as [Hf [u Hu]%bool_decide_eq_true].
  apply andb_prop in Hf as [Hcli%bool_decide_eq_true Henv%bool_decide_eq_true].
  rewrite Hcli, Henv, Hu in *. cbn [or_else] in *. f_equal. case_bool_decide as Hp; [|done].
  subst p. destruct (resolve_mimo_cases u (or_else (cli_api_key cli) (or_else (or_else (pc_api_key pc)
    (root_deepseek ProviderKind.XiaomiMimo (cfg_api_key c))) (xiaomi_mimo_env_api_key_for_runtime getenv
    (or_else (env_xiaomi_mimo_mode env) (pc_mode pc)) (Some u)))) (or_else (env_xiaomi_mimo_mode env) (pc_mode pc)));
    [done|congruence].
Qed.

Lemma root_deepseek_Some p o v : root_deepseek p o = Some v -> p = ProviderKind.Deepseek /\ o = Some v.
Proof. unfold root_deepseek. by case_bool_decide. Qed.

(** Where the key of a resolution comes from. *)
Definition key_origin (p : ProviderKind) (cli : CliRuntimeOverrides) (store : str -> result str (option str))
    (ep : Endpoint) (key : str) (src : option RuntimeApiKeySource) : Prop :=
  let official := provider_base_url_is_official p (ep_base_url ep) = true in
  match src with
  | Some KeyFromCli => cli_api_key cli = Some key
  | Some KeyFromConfigFile => ep_from_file ep = Some key /\ (official \/ ep_base_url_from_file ep = true)
  | Some KeyFromKeyring => official /\ store (kind_as_str p) = Ok (Some key)
  | Some KeyFromEnv => official /\ exists var, getenv var = Some key
  | None => False
  end.

Lemma from_env_origin p cli store ep o key src :
  (forall v, o = Some v -> exists var, getenv var = Some v) -> provider_base_url_is_official p (ep_base_url ep) = true ->
  from_env o = (Some key, src) -> key_origin p cli store ep key src.
Proof. intros Ho Hoff. destruct o as [v|]; [|done]. intros [= -> <-]. split; [done|]. by apply Ho. Qed.

Lemma resolve_api_key_origin cli store p ep key src :
  (forall v, ep_xiaomi_mimo_env_api_key ep = Some v -> exists var, getenv var = Some v) ->
  resolve_api_key getenv cli store p ep = (Some key, src) ->
  auth_mode_disables_api_key (ep_auth_mode ep) = false /\ key_origin p cli store ep key src.
Proof.
  intros Hmimo. unfold resolve_api_key. cbn zeta.
  unfold provider_preserves_custom_base_url_model, base_url_is_custom_for_provider. rewrite negb_involutive.
  destruct (auth_mode_disables_api_key _); [done|]. intros E. split; [done|]. revert E.
  destruct (cli_api_key cli) as [v|] eqn:Ecli; [by intros [= -> <-]|]. destruct (_ && _); [done|].
  destruct (if _ || _ then nonblank (ep_from_file ep) else None) as [v|] eqn:Efile.
  { intros [= -> <-]. destruct (_ || _) eqn:Hor; [|done]. apply nonblank_Some in Efile. split; [done|].
    by apply orb_prop in Hor. }
  destruct (provider_base_url_is_official p (ep_base_url ep)) eqn:Hoff; cbn [negb]; [|done].
  destruct (nonblank (ep_xiaomi_mimo_env_api_key ep)) as [v|] eqn:Em.
  { intros [= -> <-]. split; [done|]. apply Hmimo. by apply nonblank_Some in Em. }
  destruct (should_skip_secret_store_for_provider _ _ _).
  { apply from_env_origin; [apply env_api_key_Some|done]. }
  destruct (resolve_with_source _ _ _) as [[v src']|] eqn:Es.
  - apply resolve_with_source_Some in Es. destruct src'; intros [= -> <-]; by split.
  - apply from_env_origin; [apply env_api_key_Some|done].
Qed.

(** C6: a credential stays with the endpoint it belongs to.  An endpoint that
    disables authentication gets no key and no credential-shaped header.
    Otherwise a key comes from where the resolution says: a key of the secret
    store or of the environment is used only on the provider's own endpoint;
    a key of the file also on another endpoint, if that endpoint's URL is the
    file's too; only a key of the command line follows any URL. *)
Theorem credentials_stay_with_their_endpoint c cli store :
  let r := resolve_runtime_options_with_secrets getenv try_into c cli store in
  let pc := provider_config try_into c (select_provider c cli (load getenv)) in
  let p := ro_provider r in
  let official := provider_base_url_is_official p (ro_base_url r) = true in
  (auth_mode_disables_api_key (ro_auth_mode r) = true ->
     ro_api_key r = None
     /\ forall name v, ro_http_headers r !! name = Some v -> is_upstream_auth_header name = false)
  /\ forall key, ro_api_key r = Some key ->
       match ro_api_key_source r with
       | Some KeyFromCli => cli_api_key cli = Some key
       | Some KeyFromConfigFile =>
           (pc_api_key pc = Some key \/ p = ProviderKind.Deepseek /\ cfg_api_key c = Some key)
           /\ (official \/ pc_base_url pc = Some (ro_base_url r)
               \/ p = ProviderKind.Deepseek /\ cfg_base_url c = Some (ro_base_url r))
       | Some KeyFromKeyring => official /\ store (kind_as_str p) = Ok (Some key)
       | Some KeyFromEnv => official /\ exists var, getenv var = Some key
       | None => False
       end.
Proof.
  intros r pc p official. set (env := load getenv) in *. set (ep := resolve_endpoint getenv c cli env p pc).
  assert (Hmimo : forall v, ep_xiaomi_mimo_env_api_key ep = Some v -> exists var, getenv var = Some v).
  { intros v. cbn. case_bool_decide; [apply mimo_env_key_Some|done]. }
  assert (Hkey : forall key, ro_api_key r = Some key ->
            auth_mode_disables_api_key (ep_auth_mode ep) = false /\ key_origin p cli store ep key (ro_api_key_source r)).
  { intros key E. apply resolve_api_key_origin; [done|].
    change (ro_api_key r) with (resolve_api_key getenv cli store p ep).1 in E.
    change (ro_api_key_source r) with (resolve_api_key getenv cli store p ep).2. rewrite <-E. apply surjective_pairing. }
  split.
  - intros Hd. split.
    + destruct (ro_api_key r) as [key|] eqn:E; [|done]. destruct (Hkey key eq_refl) as [Hn _].
      change (ro_auth_mode r) with (ep_auth_mode ep) in Hd. congruence.
    + intros name v Hv. subst r. cbn [ro_http_headers resolve_runtime_options_with_secrets] in Hv.
      unfold resolve_http_headers in Hv. cbn [ro_auth_mode resolve_runtime_options_with_secrets] in Hd. rewrite Hd in Hv.
      by apply map_lookup_filter_Some in Hv as [_ Hv].
  - intros key E. destruct (Hkey key E) as [_ Ho]. destruct (ro_api_key_source r) as [[]|]; try done.
    destruct Ho as [Hfile Hurl]. split.
    + apply or_else_Some in Hfile as [Hfile|[_ Hfile]]; [by left|right; by apply root_deepseek_Some in Hfile].
    + destruct (provider_base_url_is_official p (ep_base_url ep)) eqn:Hoff; [by left|right].
      destruct Hurl as [|Hurl]; [done|]. pose proof (custom_base_url c cli env p pc Hoff Hurl) as Hu.
      apply or_else_Some in Hu as [Hu|[_ Hu]]; [by left|right; by apply root_deepseek_Some in Hu].
Qed.

(** ** Projects *)

(** Two tables of a provider that differ at most in the model. *)
Definition same_but_model (a b : ProviderConfigToml) : Prop := with_pc_model None a = with_pc_model None b.

Lemma same_but_model_fields a b : same_but_model a b ->
  pc_api_key a = pc_api_key b /\ pc_base_url a = pc_base_url b /\ pc_mode a = pc_mode b
  /\ pc_auth_mode a = pc_auth_mode b /\ pc_insecure_skip_tls_verify a = pc_insecure_skip_tls_verify b
  /\ pc_http_headers a = pc_http_headers b.
Proof. unfold same_but_model, with_pc_model. by intros [=]. Qed.

Lemma merge_provider_same target source : same_but_model target (merge_project_provider_config target source).
Proof. unfold merge_project_provider_config, same_but_model. by destruct (pc_model source). Qed.

Lemma for_set_provider k v ps q : for_provider (set_provider k v ps) q = if bool_decide (q = k) then v else for_provider ps q.
Proof. by destruct q. Qed.

Lemma merged_providers (f : ProvidersToml -> ProviderKind -> ProviderConfigToml) ks ps :
  (forall ps k, same_but_model (for_provider ps k) (f ps k)) ->
  let merged := fold_left (fun ps k => set_provider k (f ps k) ps) ks ps in
  pt_extras merged = pt_extras ps /\ forall q, same_but_model (for_provider ps q) (for_provider merged q).
Proof.
  intros Hf. cbn zeta. revert ps. induction ks as [|k ks IH]; intros ps; cbn [fold_left]; [by split|].
  destruct (IH (set_provider k (f ps k) ps)) as [He Hq]. split; [by rewrite He|]. intros q.
  unfold same_but_model in *. rewrite <-Hq, for_set_provider. case_bool_decide as Hk; [subst q; apply Hf|done].
Qed.

(** A posture of the same or a higher rank; no posture counts as 2. *)
Definition at_least (rank : str -> option Z) (current next : option str) : Prop :=
  next = current \/ exists v n, next = Some v /\ rank v = Some n /\ default 2 (current ≫= rank) <= n.

Lemma rank_allows_spec cur n : rank_allows cur n = true <-> default 2 cur <= n.
Proof. destruct cur; cbn; lia. Qed.

Lemma approval_tightened cur proj :
  at_least approval_policy_rank cur (tightened project_approval_policy_is_allowed cur proj).
Proof.
  destruct proj as [v|]; cbn; [|by left]. destruct (project_approval_policy_is_allowed cur v) eqn:E; [|by left]. right.
  unfold project_approval_policy_is_allowed in E. destruct (approval_policy_rank v) as [n|] eqn:En; [|done].
  exists v, n. by rewrite rank_allows_spec in E.
Qed.

Lemma external_sandbox_rank v : to_ascii_lowercase (trim v) = $"external-sandbox" -> sandbox_mode_rank v = Some 0.
Proof. unfold sandbox_mode_rank. by intros ->. Qed.

Lemma sandbox_tightened cur proj :
  at_least sandbox_mode_rank cur (tightened project_sandbox_mode_is_allowed cur proj).
Proof.
  destruct proj as [v|]; cbn; [|by left]. destruct (project_sandbox_mode_is_allowed cur v) eqn:E; [|by left]. right.
  unfold project_sandbox_mode_is_allowed in E. case_bool_decide as Hx.
  - apply external_sandbox_rank in Hx. exists v, 0. split_and!; [done..|]. destruct cur as [w|]; [|done].
    apply bool_decide_eq_true in E. change (Some w ≫= sandbox_mode_rank) with (sandbox_mode_rank w).
    by rewrite (external_sandbox_rank w E).
  - destruct (sandbox_mode_rank v) as [n|] eqn:En; [|done]. exists v, n. by rewrite rank_allows_spec in E.
Qed.

Lemma at_least_or_else rank a cur next : at_least rank cur next -> at_least rank (or_else a cur) (or_else a next).
Proof. destruct a; cbn; [by left|done]. Qed.

(** The fallback of the China region keeps tables the same. *)
Lemma fallback_same a b x y :
  same_but_model a b -> same_but_model x y -> same_but_model (with_fallback a x) (with_fallback b y).
Proof.
  destruct a, b, x, y. unfold same_but_model, with_pc_model, with_fallback. cbn. intros [=] [=]. by subst.
Qed.

Lemma merged_tables c project :
  let ps := cfg_providers (merge_project_overrides c project) in
  pt_extras ps = pt_extras (cfg_providers c)
  /\ forall q, same_but_model (for_provider (cfg_providers c) q) (for_provider ps q).
Proof.
  apply (merged_providers (fun ps k => merge_project_provider_config (for_provider ps k)
    (for_provider (cfg_providers project) k))). intros. apply merge_provider_same.
Qed.

Lemma named_custom_merge c project :
  named_custom_provider_config try_into (merge_project_overrides c project) = named_custom_provider_config try_into c.
Proof.
  unfold named_custom_provider_config, named_custom_provider_table, named_custom_provider_id.
  by rewrite (proj1 (merged_tables c project)).
Qed.

Lemma provider_config_merge c project selected :
  same_but_model (provider_config try_into c selected)
    (provider_config try_into (merge_project_overrides c project) selected).
Proof.
  assert (Hpc : same_but_model (selected_table try_into c selected)
                  (selected_table try_into (merge_project_overrides c project) selected)).
  { unfold selected_table. rewrite named_custom_merge. cbn zeta.
    pose proof (proj2 (merged_tables c project) selected.1) as Hq. destruct (_ && _); [|exact Hq].
    by destruct (named_custom_provider_config try_into c). }
  pose proof (proj2 (merged_tables c project) ProviderKind.Siliconflow) as Hs. cbn [for_provider] in Hs.
  unfold provider_config. cbn zeta. destruct (bool_decide (selected.1 = ProviderKind.SiliconflowCN)); [|exact Hpc].
  by apply fallback_same.
Qed.

Lemma same_endpoint c c' cli env p pc pc' :
  cfg_auth_mode c' = cfg_auth_mode c -> cfg_api_key c' = cfg_api_key c -> cfg_base_url c' = cfg_base_url c ->
  same_but_model pc pc' -> resolve_endpoint getenv c' cli env p pc' = resolve_endpoint getenv c cli env p pc.
Proof.
  intros Ha Hk Hu (E1 & E2 & E3 & E4 & _)%same_but_model_fields. unfold resolve_endpoint. by rewrite Ha, Hk, Hu, E1, E2, E3, E4.
Qed.

(** C7: the file of a project, which is untrusted, cannot move a run's
    provider, endpoint, credential, headers, certificate check, telemetry or
    automatic mode, whatever it says; and the postures it asks for take effect
    only when their rank is at least the user's. *)
Theorem projects_cannot_redirect_credentials c project cli store :
  let r := resolve_runtime_options_with_secrets getenv try_into c cli store in
  let r' := resolve_runtime_options_with_secrets getenv try_into (merge_project_overrides c project) cli store in
  ro_provider r' = ro_provider r /\ ro_provider_source r' = ro_provider_source r
  /\ ro_base_url r' = ro_base_url r /\ ro_api_key r' = ro_api_key r /\ ro_api_key_source r' = ro_api_key_source r
  /\ ro_auth_mode r' = ro_auth_mode r /\ ro_http_headers r' = ro_http_headers r
  /\ ro_insecure_skip_tls_verify r' = ro_insecure_skip_tls_verify r
  /\ ro_telemetry r' = ro_telemetry r /\ ro_yolo r' = ro_yolo r
  /\ at_least approval_policy_rank (ro_approval_policy r) (ro_approval_policy r')
  /\ at_least sandbox_mode_rank (ro_sandbox_mode r) (ro_sandbox_mode r').
Proof.
  intros r r'. set (env := load getenv). set (selected := select_provider c cli env).
  set (pc := provider_config try_into c selected).
  set (pc' := provider_config try_into (merge_project_overrides c project) selected).
  pose proof (provider_config_merge c project selected) as Hpc. fold pc pc' in Hpc.
  pose proof (same_endpoint c (merge_project_overrides c project) cli env selected.1 pc pc' eq_refl eq_refl eq_refl Hpc) as Hep.
  apply same_but_model_fields in Hpc as (_ & _ & _ & _ & Htls & Hheaders).
  assert (Hkey : (ro_api_key r', ro_api_key_source r') = (ro_api_key r, ro_api_key_source r)).
  { change ((ro_api_key r', ro_api_key_source r')) with
      ((resolve_api_key getenv cli store selected.1 (resolve_endpoint getenv (merge_project_overrides c project) cli env selected.1 pc')).1,
       (resolve_api_key getenv cli store selected.1 (resolve_endpoint getenv (merge_project_overrides c project) cli env selected.1 pc')).2).
    by rewrite Hep. }
  injection Hkey as Hk1 Hk2.
  assert (Hmode : ro_auth_mode r' = ro_auth_mode r).
  { change (ro_auth_mode r') with (ep_auth_mode (resolve_endpoint getenv (merge_project_overrides c project) cli env selected.1 pc')).
    by rewrite Hep. }
  split_and!; try done.
  - change (ro_base_url r') with (ep_base_url (resolve_endpoint getenv (merge_project_overrides c project) cli env selected.1 pc')).
    by rewrite Hep.
  - change (ro_http_headers r') with (resolve_http_headers (merge_project_overrides c project) env pc' (auth_mode_disables_api_key (ro_auth_mode r'))).
    rewrite Hmode. unfold resolve_http_headers. by rewrite <-Hheaders.
  - change (ro_insecure_skip_tls_verify r') with (default false (pc_insecure_skip_tls_verify pc')). by rewrite <-Htls.
  - do 2 apply at_least_or_else. apply approval_tightened.
  - do 2 apply at_least_or_else. apply sandbox_tightened.
Qed.

(** ** Models *)

(** The name each source of a model stands for. *)
Definition model_origin (c : ConfigToml) (cli : CliRuntimeOverrides) (env : EnvRuntimeOverrides) (p : ProviderKind)
    (pc : ProviderConfigToml) (base_url : str) (src : ModelSource) (m : str) : Prop :=
  match src with
  | ModelFromCli => cli_model cli = Some m
  | ModelFromEnv => or_else (env_model env) (model_for env p base_url) = Some m
  | ModelFromProviderConfig => pc_model pc = Some m
  | RootDefaultTextModel =>
      cfg_default_text_model c = Some m /\ root_default_model_is_foreign_to_provider p m base_url = false
  | RootModel => cfg_model c = Some m
  | ProviderDefault => m = default_model_for_provider p \/ p = ProviderKind.Moonshot /\ m = DEFAULT_KIMI_CODE_MODEL
  end.

Lemma is_some_Some {A} (a : A) : bool_decide (is_Some (Some a)) = true.
Proof. done. Qed.
Lemma is_some_None {A} : bool_decide (is_Some (@None A)) = false.
Proof. done. Qed.

(** One step of the chain of sources. *)
#[local] Ltac next_source := rewrite ?is_some_Some, ?is_some_None; cbn [or_else default orb].

Lemma resolve_model_spec c cli env p pc ep :
  let '(m', src) := resolve_model c cli env p pc ep in
  exists m, model_origin c cli env p pc (ep_base_url ep) src m
    /\ m' = if is_explicit src && negb (bool_decide (p = ProviderKind.OpencodeGo))
               && negb (provider_base_url_is_official p (ep_base_url ep))
            then trim m else normalize_model_for_provider p m.
Proof.
  unfold resolve_model. cbn zeta. unfold provider_preserves_custom_base_url_model, base_url_is_custom_for_provider.
  set (fallback := if _ && _ then DEFAULT_KIMI_CODE_MODEL else _).
  assert (Hfb : fallback = default_model_for_provider p \/ p = ProviderKind.Moonshot /\ fallback = DEFAULT_KIMI_CODE_MODEL).
  { subst fallback. case_bool_decide; cbn; [|by left]. destruct (_ || _); [by right|by left]. }
  set (root := match cfg_default_text_model c with Some _ => _ | None => _ end).
  assert (Hroot : forall m, root = Some m -> cfg_default_text_model c = Some m
            /\ root_default_model_is_foreign_to_provider p m (ep_base_url ep) = false).
  { intros m. subst root. destruct (cfg_default_text_model c) as [m0|]; [|done].
    destruct (root_default_model_is_foreign_to_provider _ _ _) eqn:E; [done|]. by intros [= <-]. }
  assert (Hgo : forall src m, (if bool_decide (p = ProviderKind.OpencodeGo) then normalize_model_for_provider p m
            else if is_explicit src && negb (provider_base_url_is_official p (ep_base_url ep)) then trim m
            else normalize_model_for_provider p m)
          = if is_explicit src && negb (bool_decide (p = ProviderKind.OpencodeGo))
               && negb (provider_base_url_is_official p (ep_base_url ep))
            then trim m else normalize_model_for_provider p m).
  { intros src m. destruct (bool_decide (p = ProviderKind.OpencodeGo)), (is_explicit src); reflexivity. }
  clearbody fallback root.
  destruct (cli_model cli) as [m|] eqn:Ecli; next_source; [exists m; by rewrite Hgo|].
  destruct (env_model env) as [m|] eqn:Eenv; next_source.
  { exists m. rewrite Hgo. split; [|done]. cbn. by rewrite Eenv. }
  destruct (model_for env p (ep_base_url ep)) as [m|] eqn:Epm; next_source.
  { exists m. rewrite Hgo. split; [|done]. cbn. by rewrite Eenv, Epm. }
  destruct (pc_model pc) as [m|] eqn:Epc; next_source; [exists m; by rewrite Hgo|].
  destruct root as [m|] eqn:Er; next_source; [exists m; rewrite Hgo; split; [by apply Hroot|done]|].
  destruct (cfg_model c) as [m|] eqn:Ec; next_source; [exists m; by rewrite Hgo|].
  exists fallback. by rewrite Hgo.
Qed.

End runtime.

(** ** A configuration *)

#[export] Instance no_toml : Toml := {| value := unit; as_table _ := None; as_str _ := None; tables := unit |}.

Definition empty_provider : ProviderConfigToml :=
  {| pc_api_key := None; pc_base_url := None; pc_model := None; pc_context_window := None; pc_mode := None;
     pc_auth_mode := None; pc_insecure_skip_tls_verify := None; pc_http_headers := ∅; pc_path_suffix := None;
     pc_auth := None; pc_external_credentials := None; pc_oauth_credential_generation := None; pc_extras := ∅ |}.
Definition no_providers : ProvidersToml :=
  {| pt_deepseek := empty_provider; pt_deepseek_anthropic := empty_provider; pt_nvidia_nim :=
     empty_provider; pt_openai := empty_provider; pt_atlascloud := empty_provider; pt_wanjie_ark :=
     empty_provider; pt_volcengine := empty_provider; pt_openrouter := empty_provider; pt_xiaomi_mimo :=
     empty_provider; pt_novita := empty_provider; pt_fireworks := empty_provider; pt_siliconflow :=
     empty_provider; pt_siliconflow_cn := empty_provider; pt_arcee := empty_provider; pt_moonshot :=
     empty_provider; pt_sglang := empty_provider; pt_vllm := empty_provider; pt_ollama := empty_provider;
     pt_huggingface := empty_provider; pt_together := empty_provider; pt_qianfan := empty_provider;
     pt_openai_codex := empty_provider; pt_anthropic := empty_provider; pt_openmodel := empty_provider;
     pt_zai := empty_provider; pt_stepfun := empty_provider; pt_minimax := empty_provider;
     pt_minimax_anthropic := empty_provider; pt_deepinfra := empty_provider; pt_sakana := empty_provider;
     pt_longcat := empty_provider; pt_opencode_go := empty_provider; pt_opencode_zen := empty_provider;
     pt_meta := empty_provider; pt_xai := empty_provider; pt_telecomjs := empty_provider; pt_custom :=
     empty_provider; pt_extras := ∅ |}.

Definition sample_config (k : ProviderKind) (pc : ProviderConfigToml) : ConfigToml :=
  {| cfg_api_key := None; cfg_base_url := None; cfg_http_headers := {[($"X-Api-Key" : str) := $"h"]};
     cfg_default_text_model := None; cfg_provider := k; cfg_selected_provider_id := None; cfg_model := None;
     cfg_auth_mode := None; cfg_output_mode := None; cfg_verbosity := None; cfg_log_level := None;
     cfg_telemetry := None; cfg_approval_policy := Some $"on-request"; cfg_sandbox_mode := Some $"external-sandbox";
     cfg_tools := None; cfg_providers := set_provider k pc no_providers; cfg_fallback_providers := [];
     cfg_other_tables := tt; cfg_extras := ∅ |}.

Definition provider_at (url key : option str) : ProviderConfigToml :=
  {| pc_api_key := key; pc_base_url := url; pc_model := None; pc_context_window := None; pc_mode := None;
     pc_auth_mode := None; pc_insecure_skip_tls_verify := None; pc_http_headers := ∅; pc_path_suffix := None;
     pc_auth := None; pc_external_credentials := None; pc_oauth_credential_generation := None; pc_extras := ∅ |}.

Definition no_flags : CliRuntimeOverrides :=
  {| cli_provider := None; cli_model := None; cli_api_key := None; cli_base_url := None; cli_auth_mode := None;
     cli_output_mode := None; cli_log_level := None; cli_telemetry := None; cli_approval_policy := None;
     cli_sandbox_mode := None; cli_yolo := None; cli_verbosity := None |}.

(** A process with the given variables. *)
Definition env_with (vars : list (str * str)) (name : str) : option str :=
  snd <$> find (fun v => bool_decide (v.1 = name)) vars.

Definition resolved (vars : list (str * str)) (c : ConfigToml) : option str * option RuntimeApiKeySource * str :=
  let r := resolve_runtime_options (env_with vars) (fun _ => None) c no_flags in
  (ro_api_key r, ro_api_key_source r, ro_model r).

Example environment_key_on_the_official_endpoint :
  resolved [($"OPENROUTER_API_KEY", $"k")] (sample_config ProviderKind.Openrouter (provider_at None None))
  = (Some $"k", Some KeyFromEnv, $"deepseek/deepseek-v4-pro").
Proof. vm_compute. reflexivity. Qed.

Example environment_key_stays_at_home :
  resolved [($"OPENROUTER_API_KEY", $"k"); ($"OPENROUTER_BASE_URL", $"https://gateway.example/v1")]
    (sample_config ProviderKind.Openrouter (provider_at None (Some $"saved")))
  = (None, None, $"deepseek/deepseek-v4-pro").
Proof. vm_compute. reflexivity. Qed.

Example file_key_follows_the_file_endpoint :
  resolved [($"OPENROUTER_API_KEY", $"k")]
    (sample_config ProviderKind.Openrouter (provider_at (Some $"https://gateway.example/v1") (Some $"saved")))
  = (Some $"saved", Some KeyFromConfigFile, $"deepseek/deepseek-v4-pro").
Proof. vm_compute. reflexivity. Qed.

(** A project may move a run from the external sandbox, whose network access
    is a setting, to no sandbox at all: both have rank 0. *)
Example project_leaves_the_external_sandbox :
  cfg_sandbox_mode (merge_project_overrides (sample_config ProviderKind.Deepseek empty_provider)
    ({| cfg_api_key := None; cfg_base_url := None; cfg_http_headers := ∅; cfg_default_text_model := None;
        cfg_provider := ProviderKind.Custom; cfg_selected_provider_id := None; cfg_model := None;
        cfg_auth_mode := None; cfg_output_mode := None; cfg_verbosity := None; cfg_log_level := None;
        cfg_telemetry := None; cfg_approval_policy := Some $"auto"; cfg_sandbox_mode := Some $"danger-full-access";
        cfg_tools := None; cfg_providers := no_providers; cfg_fallback_providers := [];
        cfg_other_tables := tt; cfg_extras := ∅ |}))
  = Some $"danger-full-access".
Proof. vm_compute. reflexivity. Qed.
