(* ===== verification/Catalog.v ===== *)
(** * The model catalogue

    [crates/config/src/models_dev.rs], [pricing.rs] and [catalog.rs], with the
    facts of a route they are projected to ([route/ids.rs], [offering.rs],
    [capabilities.rs], [candidate.rs]): rows of several layers, their prices,
    the cache of live rows and the fingerprint of an endpoint.  An [f64] is an
    IEEE 754 number with its rounding ([SpecFloat]); SHA-256 and reading JSON
    are parameters. *)

From Stdlib Require Import SpecFloat.
From S2P Require Import Text Json Providers.

(** ** Floating-point numbers *)

Abbreviation f64 := spec_float (only parsing).

(** [n as f64], rounded to the nearest even. *)
Definition f64_of_Z (n : Z) : f64 := binary_normalize 53 1024 n 0 false.
Definition f64_add (a b : f64) : f64 := SFadd 53 1024 a b.
Definition f64_mul (a b : f64) : f64 := SFmul 53 1024 a b.
Definition f64_div (a b : f64) : f64 := SFdiv 53 1024 a b.
Definition f64_is_finite (a : f64) : bool :=
  match a with S754_zero _ | S754_finite _ _ _ => true | _ => false end.

(** ** Identities *)

Record ProviderId := { provider_str : str }.
Record ModelId := { model_str : str }.
Record WireModelId := { wire_str : str }.
Record LogicalModelRef := { raw : str }.

#[export] Instance ProviderId_eq_dec : EqDecision ProviderId.
Proof. solve_decision. Defined.

Definition AUTO_SENTINEL : str := $"auto".
Definition is_auto (r : LogicalModelRef) : bool := bool_decide (raw r = AUTO_SENTINEL).

(** [ProviderId::from_kind]. *)
Definition id_from_kind (k : ProviderKind) : ProviderId := {| provider_str := kind_as_str k |}.

Inductive NamespaceHint := HintDeepseekAi | HintDeepseek | HintAnthropic | HintOpenai | HintQwen.

Definition namespace_hint (r : LogicalModelRef) : option NamespaceHint :=
  if starts_with $"deepseek-ai/" (raw r) then Some HintDeepseekAi
  else if starts_with $"deepseek/" (raw r) then Some HintDeepseek
  else if starts_with $"anthropic/" (raw r) then Some HintAnthropic
  else if starts_with $"openai/" (raw r) then Some HintOpenai
  else if starts_with $"qwen/" (raw r) then Some HintQwen
  else None.

(** ** Capabilities *)

Inductive CapabilityState := Supported | Unsupported | Unknown.

Definition from_optional_bool (v : option bool) : CapabilityState :=
  match v with Some true => Supported | Some false => Unsupported | None => Unknown end.
Definition is_supported (s : CapabilityState) : bool := match s with Supported => true | _ => false end.

Definition documented_server_side_web_search (provider_id wire_model_id : str) : CapabilityState :=
  let provider_id := to_ascii_lowercase (trim provider_id) in
  let wire_model_id := to_ascii_lowercase (trim wire_model_id) in
  let supported :=
    if bool_decide (provider_id = $"openai")
    then is_one_of wire_model_id [$"gpt-5.6"; $"gpt-5.5"; $"gpt-5.4"; $"gpt-4.1"; $"gpt-4.1-mini"; $"o4-mini"]
    else if bool_decide (provider_id = $"anthropic")
    then is_one_of wire_model_id
           [$"claude-fable-5"; $"claude-opus-4-8"; $"claude-mythos-5"; $"claude-mythos-preview"; $"claude-opus-4-7";
            $"claude-opus-4-6"; $"claude-sonnet-5"; $"claude-sonnet-4-6"]
    else if bool_decide (provider_id = $"xai") then bool_decide (wire_model_id = $"grok-4.5")
    else false in
  if supported then Supported else Unknown.

Record RouteCapabilities := {
  attachments : CapabilityState; image_input : CapabilityState; reasoning : CapabilityState;
  native_tool_calls : CapabilityState; structured_output : CapabilityState; parallel_tool_calls : CapabilityState;
  streaming : CapabilityState; prompt_caching : CapabilityState; server_side_web_search : CapabilityState }.

Definition default_capabilities : RouteCapabilities :=
  {| attachments := Unknown; image_input := Unknown; reasoning := Unknown; native_tool_calls := Unknown;
     structured_output := Unknown; parallel_tool_calls := Unknown; streaming := Unknown; prompt_caching := Unknown;
     server_side_web_search := Unknown |}.

(** ** Offerings *)

Record RouteLimits := { context_tokens : option Z; input_tokens : option Z; output_tokens : option Z }.
Definition no_limits : RouteLimits := {| context_tokens := None; input_tokens := None; output_tokens := None |}.
Definition has_known_limit (l : RouteLimits) : bool :=
  bool_decide (is_Some (context_tokens l)) || bool_decide (is_Some (input_tokens l))
  || bool_decide (is_Some (output_tokens l)).

Inductive PricingSku :=
| Token (input_per_mtok output_per_mtok : option f64)
| SubscriptionQuota (used_pct : option spec_float) (resets_at : option str)
| AccountCredits (balance : option f64)
| LocalOrNotApplicable
| UnknownOrStale.

Record ProviderModelOffering := {
  off_provider : ProviderId; off_canonical_model : option ModelId; off_wire_model_id : WireModelId;
  off_endpoint_key : str; off_default_for_provider : bool; off_limits : RouteLimits;
  off_capabilities : RouteCapabilities; off_pricing : PricingSku }.

Definition OPENCODE_ZEN_RESPONSES_MODELS : list str :=
  [$"gpt-5.6-sol"; $"gpt-5.6-terra"; $"gpt-5.6-luna"; $"gpt-5.5"; $"gpt-5.5-pro"; $"gpt-5.4"; $"gpt-5.4-pro";
   $"gpt-5.4-mini"; $"gpt-5.4-nano"; $"gpt-5.3-codex"; $"gpt-5.3-codex-spark"; $"gpt-5.2"; $"gpt-5.2-codex";
   $"gpt-5.1"; $"gpt-5.1-codex"; $"gpt-5.1-codex-max"; $"gpt-5.1-codex-mini"; $"gpt-5"; $"gpt-5-codex";
   $"gpt-5-nano"].
Definition OPENCODE_ZEN_MESSAGES_MODELS : list str :=
  [$"claude-fable-5"; $"claude-opus-4-8"; $"claude-opus-4-7"; $"claude-opus-4-6"; $"claude-opus-4-5";
   $"claude-sonnet-5"; $"claude-sonnet-4-6"; $"claude-sonnet-4-5"; $"claude-haiku-4-5"; $"qwen3.7-max";
   $"qwen3.7-plus"; $"qwen3.6-plus"; $"qwen3.5-plus"].
Definition OPENCODE_ZEN_CHAT_MODELS : list str :=
  [$"deepseek-v4-pro"; $"deepseek-v4-flash"; $"minimax-m3"; $"minimax-m2.7"; $"minimax-m2.5"; $"glm-5.2";
   $"glm-5.1"; $"glm-5"; $"kimi-k2.5"; $"kimi-k2.6"; $"kimi-k2.7-code"; $"grok-4.5"; $"grok-build-0.1";
   $"big-pickle"; $"mimo-v2.5-free"; $"north-mini-code-free"; $"nemotron-3-ultra-free"; $"deepseek-v4-flash-free"].

Definition zen_offering (endpoint_key model : str) : ProviderModelOffering :=
  {| off_provider := {| provider_str := $"opencode-zen" |}; off_canonical_model := None;
     off_wire_model_id := {| wire_str := model |}; off_endpoint_key := endpoint_key;
     off_default_for_provider := bool_decide (model = $"gpt-5.5"); off_limits := no_limits;
     off_capabilities := default_capabilities; off_pricing := UnknownOrStale |}.

(** [offering::bundled_offerings]. *)
Definition bundled_offerings : list ProviderModelOffering :=
  (zen_offering $"responses" <$> OPENCODE_ZEN_RESPONSES_MODELS)
  ++ (zen_offering $"messages" <$> OPENCODE_ZEN_MESSAGES_MODELS)
  ++ (zen_offering $"chat" <$> OPENCODE_ZEN_CHAT_MODELS).

(** ** Models.dev *)

Record ModelsDevLimit := { ml_context : option Z; ml_input : option Z; ml_output : option Z }.
Record ModelsDevModalities := { mod_input : list str; mod_output : list str }.
Record ModelsDevCost := {
  cost_input : option f64; cost_output : option f64; cost_cache_read : option f64; cost_cache_write : option f64 }.

Inductive ModelsDevInterleaved := Enabled (enabled : bool) | Field (field : option str).
Definition is_enabled (i : ModelsDevInterleaved) : bool := match i with Enabled b => b | Field _ => true end.
Definition interleaved_field (i : ModelsDevInterleaved) : option str := match i with Enabled _ => None | Field f => f end.

Record ModelsDevModel := {
  mm_id : str; mm_name : option str; mm_family : option str; mm_attachment : option bool; mm_reasoning : option bool;
  mm_tool_call : option bool; mm_structured_output : option bool; mm_temperature : option bool;
  mm_open_weights : option bool; mm_limit : option ModelsDevLimit; mm_modalities : option ModelsDevModalities }.

Record ModelsDevProviderModel := {
  pm_id : str; pm_base_model : option str; pm_name : option str; pm_family : option str;
  pm_default_for_provider : bool; pm_attachment : option bool; pm_reasoning : option bool;
  pm_reasoning_options : list Value; pm_tool_call : option bool; pm_structured_output : option bool;
  pm_temperature : option bool; pm_open_weights : option bool; pm_limit : option ModelsDevLimit;
  pm_modalities : option ModelsDevModalities; pm_cost : option ModelsDevCost;
  pm_interleaved : option ModelsDevInterleaved }.

Record ModelsDevProvider := {
  mp_id : str; mp_name : option str; mp_api : option str; mp_npm : option str; mp_doc : option str;
  mp_env : list str; mp_models : gmap str ModelsDevProviderModel }.

Record ModelsDevCatalog := { mc_models : gmap str ModelsDevModel; mc_providers : gmap str ModelsDevProvider }.

Definition supports_text_chat (modalities : option ModelsDevModalities) : bool :=
  match modalities with
  | None => true
  | Some m =>
      let has_text l := match l with [] => true | _ => existsb (fun s => eq_ignore_ascii_case s $"text") l end in
      has_text (mod_input m) && has_text (mod_output m)
  end.

Definition image_input_support (modalities : option ModelsDevModalities) : CapabilityState :=
  match modalities with
  | None => Unknown
  | Some m =>
      match mod_input m with
      | [] => Unknown
      | l => from_optional_bool (Some (existsb (fun s => eq_ignore_ascii_case (trim s) $"image") l))
      end
  end.

(** [RouteLimits::from], on an optional limit. *)
Definition limits_from (l : option ModelsDevLimit) : RouteLimits :=
  match l with
  | Some l => {| context_tokens := ml_context l; input_tokens := ml_input l; output_tokens := ml_output l |}
  | None => no_limits
  end.

Definition route_capabilities (provider_id : str) (m : ModelsDevProviderModel) : RouteCapabilities :=
  {| attachments := from_optional_bool (pm_attachment m); image_input := image_input_support (pm_modalities m);
     reasoning := from_optional_bool (pm_reasoning m); native_tool_calls := from_optional_bool (pm_tool_call m);
     structured_output := from_optional_bool (pm_structured_output m); parallel_tool_calls := Unknown;
     streaming := Unknown; prompt_caching := Unknown;
     server_side_web_search := documented_server_side_web_search provider_id (pm_id m) |}.

Definition effective_id (p : ModelsDevProvider) (provider_key : str) : str :=
  if str_is_empty (trim (mp_id p)) then provider_key else trim (mp_id p).

(** [ModelsDevCatalog::model] and its siblings. *)
Definition catalog_model (c : ModelsDevCatalog) (model_id : str) : option ModelsDevModel := mc_models c !! trim model_id.
Definition catalog_provider (c : ModelsDevCatalog) (provider_id : str) : option ModelsDevProvider :=
  mc_providers c !! trim provider_id.
Definition provider_model (c : ModelsDevCatalog) (provider_id wire_model_id : str) : option ModelsDevProviderModel :=
  p ← catalog_provider c provider_id; mp_models p !! trim wire_model_id.

(** ** Prices *)

Definition MAX_PLAUSIBLE_PRICE_PER_MILLION : f64 := f64_of_Z 100000.

(** [price.is_finite() && (0.0..=MAX).contains(&price)]. *)
Definition price_is_valid (price : f64) : bool :=
  f64_is_finite price && SFleb (S754_zero false) price && SFleb price MAX_PLAUSIBLE_PRICE_PER_MILLION.

Definition catalog_cost_is_valid (cost : ModelsDevCost) : bool :=
  forallb (fun o => match o with Some price => price_is_valid price | None => true end)
    [cost_input cost; cost_output cost; cost_cache_read cost; cost_cache_write cost].

Definition route_pricing_sku_from_cost (cost : option ModelsDevCost) : PricingSku :=
  match cost with
  | None => UnknownOrStale
  | Some cost =>
      if negb (catalog_cost_is_valid cost) then UnknownOrStale
      else if bool_decide (cost_input cost = None) && bool_decide (cost_output cost = None) then UnknownOrStale
      else Token (cost_input cost) (cost_output cost)
  end.

(** The offering of a row of a provider. *)
Definition offering_of (provider_id : str) (m : ModelsDevProviderModel) : ProviderModelOffering :=
  {| off_provider := {| provider_str := provider_id |}; off_canonical_model := Build_ModelId <$> pm_base_model m;
     off_wire_model_id := {| wire_str := pm_id m |}; off_endpoint_key := $"chat";
     off_default_for_provider := pm_default_for_provider m; off_limits := limits_from (pm_limit m);
     off_capabilities := route_capabilities provider_id m; off_pricing := route_pricing_sku_from_cost (pm_cost m) |}.

Definition provider_offering (c : ModelsDevCatalog) (provider_id wire_model_id : str) : option ProviderModelOffering :=
  p ← catalog_provider c (trim provider_id);
  m ← mp_models p !! trim wire_model_id;
  Some (offering_of (effective_id p (trim provider_id)) m).

Definition provider_offerings (c : ModelsDevCatalog) (provider_id : str) : option (list ProviderModelOffering) :=
  p ← catalog_provider c (trim provider_id);
  Some (offering_of (effective_id p (trim provider_id))
        <$> retain (fun m => supports_text_chat (pm_modalities m)) (btree_values (mp_models p))).

Inductive CatalogSource :=
| Bundled
| Live (base_url_fingerprint : str) (fetched_at : Z)
| UserOverrideRow.

Record CatalogOffering := {
  row_provider : str; row_wire_model_id : str; row_canonical_model : option str; row_endpoint_key : str;
  row_default_for_provider : bool; row_family : option str; row_limit : option ModelsDevLimit;
  row_cost : option ModelsDevCost; row_modalities : option ModelsDevModalities; row_attachment : option bool;
  row_reasoning : option bool; row_tool_call : option bool; row_structured_output : option bool;
  row_reasoning_options : list Value; row_source : CatalogSource }.

Inductive Currency := Usd | Cny | OtherCurrency (code : str).

Inductive PricingProvenance := ModelsDevBundled | ProviderLive | ProviderDocs | UserOverride | UnknownProvenance.

Definition provenance_label (p : PricingProvenance) : str :=
  match p with
  | ModelsDevBundled => $"models_dev_bundled" | ProviderLive => $"provider_live" | ProviderDocs => $"provider_docs"
  | UserOverride => $"user_override" | UnknownProvenance => $"unknown"
  end.
Definition is_authoritative_without_freshness_check (p : PricingProvenance) : bool :=
  match p with ModelsDevBundled | ProviderDocs | UserOverride => true | _ => false end.

Definition LIVE_PRICING_MAX_AGE_SECS : Z := 24 * 60 * 60.

Inductive LivePricingDefect :=
| Stale (age_secs max_age_secs : Z)
| EndpointMismatch (row_fingerprint route_fingerprint : str)
| MissingEndpointFingerprint
| MissingTimestamp
| UnknownRouteEndpoint.

Definition defect_label (d : LivePricingDefect) : str :=
  match d with
  | Stale _ _ => $"live_pricing_stale"
  | EndpointMismatch _ _ => $"live_pricing_endpoint_mismatch"
  | MissingEndpointFingerprint => $"live_pricing_missing_endpoint_fingerprint"
  | MissingTimestamp => $"live_pricing_missing_timestamp"
  | UnknownRouteEndpoint => $"live_pricing_unknown_route_endpoint"
  end.

Record TokenUsage := { u_input : Z; u_output : Z; u_cache_read : Z; u_cache_write : Z }.

Inductive TokenClass := Input | Output | CacheRead | CacheWrite.
Definition TokenClass_ALL : list TokenClass := [Input; Output; CacheRead; CacheWrite].
Definition class_label (c : TokenClass) : str :=
  match c with Input => $"input" | Output => $"output" | CacheRead => $"cache_read" | CacheWrite => $"cache_write" end.
Definition class_tokens (c : TokenClass) (u : TokenUsage) : Z :=
  match c with Input => u_input u | Output => u_output u | CacheRead => u_cache_read u | CacheWrite => u_cache_write u end.

Record OfferingPricing := {
  op_provider : str; op_wire_model_id : str; op_canonical_model : option str; op_currency : Currency;
  op_input_per_million : option f64; op_output_per_million : option f64; op_cache_read_per_million : option f64;
  op_cache_write_per_million : option f64; op_provenance : PricingProvenance; op_effective_at : option Z;
  op_endpoint_fingerprint : option str }.

Definition provenance_from_source (s : CatalogSource) : PricingProvenance :=
  match s with Bundled => ModelsDevBundled | Live _ _ => ProviderLive | UserOverrideRow => UserOverride end.
Definition effective_at_from_source (s : CatalogSource) : option Z :=
  match s with Live _ fetched_at => Some fetched_at | _ => None end.
Definition endpoint_fingerprint_from_source (s : CatalogSource) : option str :=
  match s with Live fingerprint _ => Some fingerprint | _ => None end.

Definition from_catalog_offering (row : CatalogOffering) : option OfferingPricing :=
  cost ← row_cost row;
  if negb (catalog_cost_is_valid cost) then None
  else if bool_decide (cost_input cost = None) && bool_decide (cost_output cost = None)
          && bool_decide (cost_cache_read cost = None) && bool_decide (cost_cache_write cost = None)
  then None
  else Some {| op_provider := row_provider row; op_wire_model_id := row_wire_model_id row;
               op_canonical_model := row_canonical_model row; op_currency := Usd;
               op_input_per_million := cost_input cost; op_output_per_million := cost_output cost;
               op_cache_read_per_million := cost_cache_read cost; op_cache_write_per_million := cost_cache_write cost;
               op_provenance := provenance_from_source (row_source row);
               op_effective_at := effective_at_from_source (row_source row);
               op_endpoint_fingerprint := endpoint_fingerprint_from_source (row_source row) |}.

Definition price_per_million (p : OfferingPricing) (c : TokenClass) : option f64 :=
  match c with
  | Input => op_input_per_million p | Output => op_output_per_million p
  | CacheRead => op_cache_read_per_million p | CacheWrite => op_cache_write_per_million p
  end.

Definition has_any_price (p : OfferingPricing) : bool :=
  existsb (fun c => bool_decide (is_Some (price_per_million p c))) TokenClass_ALL.

(** [now.saturating_sub(t)] on [u64]. *)
Definition u64_saturating_sub (a b : Z) : Z := Z.max 0 (a - b).

Definition pricing_is_stale (p : OfferingPricing) (now_unix max_age_secs : Z) : bool :=
  match op_effective_at p with Some t => max_age_secs <=? u64_saturating_sub now_unix t | None => false end.

Definition live_pricing_defect (p : OfferingPricing) (route_endpoint_fingerprint : option str) (now_unix : option Z)
    (max_age_secs : Z) : option LivePricingDefect :=
  match op_provenance p with
  | ProviderLive =>
      match op_endpoint_fingerprint p, route_endpoint_fingerprint with
      | None, _ => Some MissingEndpointFingerprint
      | Some _, None => Some UnknownRouteEndpoint
      | Some row_fingerprint, Some route_fingerprint =>
          if bool_decide (row_fingerprint <> route_fingerprint)
          then Some (EndpointMismatch row_fingerprint route_fingerprint)
          else match op_effective_at p, now_unix with
          | Some effective_at, Some now_unix =>
              let age_secs := u64_saturating_sub now_unix effective_at in
              if max_age_secs <=? age_secs then Some (Stale age_secs max_age_secs) else None
          | _, _ => Some MissingTimestamp
          end
      end
  | _ => None
  end.

Definition unpriced_used_classes (p : OfferingPricing) (u : TokenUsage) : list TokenClass :=
  retain (fun c => (0 <? class_tokens c u) && bool_decide (price_per_million p c = None)) TokenClass_ALL.

(** A number that is not finite, or is below zero, is refused. *)
Definition acceptable (a : f64) : bool := f64_is_finite a && negb (SFltb a (S754_zero false)).

(** One class of the loop of [estimate_cost]. *)
Definition add_class (p : OfferingPricing) (u : TokenUsage) (total : f64) (c : TokenClass) : option f64 :=
  let tokens := class_tokens c u in
  if 0 <? tokens
  then price ← price_per_million p c;
       let component := f64_mul (f64_div (f64_of_Z tokens) (f64_of_Z 1000000)) price in
       if acceptable component
       then let total := f64_add total component in if acceptable total then Some total else None
       else None
  else Some total.

Fixpoint estimate_classes (p : OfferingPricing) (u : TokenUsage) (total : f64) (cs : list TokenClass) : option f64 :=
  match cs with
  | [] => Some total
  | c :: cs => total ← add_class p u total c; estimate_classes p u total cs
  end.
Definition estimate_cost (p : OfferingPricing) (u : TokenUsage) : option f64 :=
  estimate_classes p u (S754_zero false) TokenClass_ALL.

Definition to_route_sku (p : OfferingPricing) : PricingSku :=
  if bool_decide (op_input_per_million p = None) && bool_decide (op_output_per_million p = None) then UnknownOrStale
  else Token (op_input_per_million p) (op_output_per_million p).

Definition route_pricing_sku (row : CatalogOffering) : PricingSku :=
  match from_catalog_offering row with Some p => to_route_sku p | None => UnknownOrStale end.

(** ** Rows *)

Definition to_offering (row : CatalogOffering) : ProviderModelOffering :=
  {| off_provider := {| provider_str := row_provider row |}; off_canonical_model := Build_ModelId <$> row_canonical_model row;
     off_wire_model_id := {| wire_str := row_wire_model_id row |}; off_endpoint_key := row_endpoint_key row;
     off_default_for_provider := row_default_for_provider row; off_limits := limits_from (row_limit row);
     off_capabilities :=
       {| attachments := from_optional_bool (row_attachment row); image_input := image_input_support (row_modalities row);
          reasoning := from_optional_bool (row_reasoning row);
          native_tool_calls := from_optional_bool (row_tool_call row);
          structured_output := from_optional_bool (row_structured_output row); parallel_tool_calls := Unknown;
          streaming := Unknown; prompt_caching := Unknown;
          server_side_web_search := documented_server_side_web_search (row_provider row) (row_wire_model_id row) |};
     off_pricing := route_pricing_sku row |}.

Definition merge_key (row : CatalogOffering) : str * str := (row_provider row, row_wire_model_id row).

Definition row_of (source : CatalogSource) (provider_id : str) (m : ModelsDevProviderModel) : CatalogOffering :=
  {| row_provider := provider_id; row_wire_model_id := pm_id m; row_canonical_model := pm_base_model m;
     row_endpoint_key := $"chat"; row_default_for_provider := pm_default_for_provider m; row_family := pm_family m;
     row_limit := pm_limit m; row_cost := pm_cost m; row_modalities := pm_modalities m;
     row_attachment := pm_attachment m; row_reasoning := pm_reasoning m; row_tool_call := pm_tool_call m;
     row_structured_output := pm_structured_output m; row_reasoning_options := pm_reasoning_options m;
     row_source := source |}.

(** The rows of one provider of the catalogue. *)
Definition provider_rows (source : CatalogSource) (normalize_provider_ids : bool) (entry : str * ModelsDevProvider) : list CatalogOffering :=
  let raw_id := if str_is_empty (trim (mp_id entry.2)) then trim entry.1 else trim (mp_id entry.2) in
  if str_is_empty raw_id then []
  else
    let provider_id :=
      if normalize_provider_ids then default raw_id (kind_as_str <$> parse_kind raw_id) else raw_id in
    row_of source provider_id <$> retain (fun m => supports_text_chat (pm_modalities m)) (btree_values (mp_models entry.2)).

Definition offerings_from_models_dev (c : ModelsDevCatalog) (source : CatalogSource) (normalize_provider_ids : bool) : list CatalogOffering :=
  btree_entries (mc_providers c) ≫= provider_rows source normalize_provider_ids.
Definition bundled_offerings_from_models_dev (c : ModelsDevCatalog) : list CatalogOffering :=
  offerings_from_models_dev c Bundled false.
Definition live_offerings_from_models_dev (c : ModelsDevCatalog) (base_url_fingerprint : str) (fetched_at : Z) : list CatalogOffering :=
  offerings_from_models_dev c (Live base_url_fingerprint fetched_at) true.

(** ** The cache of live rows *)

Record ProviderCatalogDelta := {
  delta_provider : str; delta_base_url_fingerprint : str; delta_fetched_at : Z; delta_offerings : list CatalogOffering }.

Inductive CatalogRefreshError := Unauthorized | Forbidden | NotFound | RateLimited | InvalidResponse | EmptyList | Network.

Inductive CatalogStatus :=
| FreshStatus
| StaleStatus (age_secs : Z)
| FailedStatus (reason : CatalogRefreshError)
| UnknownStatus.

Record CachedProviderCatalog := {
  cached_provider : str; cached_base_url_fingerprint : str; cached_fetched_at : Z; cached_ttl_secs : Z;
  cached_offerings : list CatalogOffering; cached_status : CatalogStatus }.

Definition age_secs (e : CachedProviderCatalog) (now_unix : Z) : Z := u64_saturating_sub now_unix (cached_fetched_at e).
Definition is_stale (e : CachedProviderCatalog) (now_unix : Z) : bool := cached_ttl_secs e <=? age_secs e now_unix.
Definition is_failed (s : CatalogStatus) : bool := match s with FailedStatus _ => true | _ => false end.
Definition is_fresh (e : CachedProviderCatalog) (now_unix : Z) : bool :=
  negb (is_stale e now_unix) && negb (is_failed (cached_status e)).

Definition ProviderCatalogCache : Type := gmap str CachedProviderCatalog.

Definition unit_separator : char := 31%N.
Definition cache_key (provider base_url_fingerprint : str) : str :=
  trim provider ++ unit_separator :: trim base_url_fingerprint.

Definition cache_get (c : ProviderCatalogCache) (provider base_url_fingerprint : str) : option CachedProviderCatalog :=
  c !! cache_key provider base_url_fingerprint.

Definition with_source (source : CatalogSource) (row : CatalogOffering) : CatalogOffering :=
  {| row_provider := row_provider row; row_wire_model_id := row_wire_model_id row;
     row_canonical_model := row_canonical_model row; row_endpoint_key := row_endpoint_key row;
     row_default_for_provider := row_default_for_provider row; row_family := row_family row; row_limit := row_limit row;
     row_cost := row_cost row; row_modalities := row_modalities row; row_attachment := row_attachment row;
     row_reasoning := row_reasoning row; row_tool_call := row_tool_call row;
     row_structured_output := row_structured_output row; row_reasoning_options := row_reasoning_options row;
     row_source := source |}.

Definition record_success (c : ProviderCatalogCache) (d : ProviderCatalogDelta) (ttl_secs : Z) : ProviderCatalogCache :=
  <[cache_key (delta_provider d) (delta_base_url_fingerprint d) :=
      {| cached_provider := delta_provider d; cached_base_url_fingerprint := delta_base_url_fingerprint d;
         cached_fetched_at := delta_fetched_at d; cached_ttl_secs := ttl_secs;
         cached_offerings := with_source (Live (delta_base_url_fingerprint d) (delta_fetched_at d)) <$> delta_offerings d;
         cached_status := FreshStatus |}]> c.

Definition with_status (s : CatalogStatus) (e : CachedProviderCatalog) : CachedProviderCatalog :=
  {| cached_provider := cached_provider e; cached_base_url_fingerprint := cached_base_url_fingerprint e;
     cached_fetched_at := cached_fetched_at e; cached_ttl_secs := cached_ttl_secs e;
     cached_offerings := cached_offerings e; cached_status := s |}.

Definition record_failure (c : ProviderCatalogCache) (provider base_url_fingerprint : str) (reason : CatalogRefreshError) : ProviderCatalogCache :=
  let key := cache_key provider base_url_fingerprint in
  match c !! key with
  | Some entry => <[key := with_status (FailedStatus reason) entry]> c
  | None =>
      <[key := {| cached_provider := trim provider; cached_base_url_fingerprint := trim base_url_fingerprint;
                  cached_fetched_at := 0; cached_ttl_secs := 0; cached_offerings := [];
                  cached_status := FailedStatus reason |}]> c
  end.

Definition cache_status (c : ProviderCatalogCache) (provider base_url_fingerprint : str) (now_unix : Z) : CatalogStatus :=
  match cache_get c provider base_url_fingerprint with
  | None => UnknownStatus
  | Some entry =>
      match cached_status entry with
      | FailedStatus reason => FailedStatus reason
      | UnknownStatus => UnknownStatus
      | FreshStatus | StaleStatus _ =>
          if is_stale entry now_unix then StaleStatus (age_secs entry now_unix) else FreshStatus
      end
  end.

Definition fresh_offerings (c : ProviderCatalogCache) (provider base_url_fingerprint : str) (now_unix : Z) : list CatalogOffering :=
  match cache_get c provider base_url_fingerprint with
  | Some entry => if is_fresh entry now_unix then cached_offerings entry else []
  | None => []
  end.

Definition all_fresh_offerings (c : ProviderCatalogCache) (now_unix : Z) : list CatalogOffering :=
  retain (fun e => is_fresh e now_unix) (btree_values c) ≫= cached_offerings.
Definition all_visible_offerings (c : ProviderCatalogCache) (now_unix : Z) : list CatalogOffering :=
  retain (fun e => match cached_offerings e with [] => false | _ => true end) (btree_values c) ≫= cached_offerings.

(** ** Layers *)

Definition CatalogSnapshot : Type := list CatalogOffering.
Definition to_offerings (s : CatalogSnapshot) : list ProviderModelOffering := to_offering <$> s.
Definition offerings_for_provider (s : CatalogSnapshot) (provider : str) : list CatalogOffering :=
  retain (fun row => bool_decide (row_provider row = provider)) s.

Record CatalogCompiler := {
  cc_bundled : list CatalogOffering; cc_live : list CatalogOffering; cc_overrides : list CatalogOffering }.
Definition new_compiler : CatalogCompiler := {| cc_bundled := []; cc_live := []; cc_overrides := [] |}.
Definition with_bundled (c : CatalogCompiler) (rows : list CatalogOffering) : CatalogCompiler :=
  {| cc_bundled := cc_bundled c ++ rows; cc_live := cc_live c; cc_overrides := cc_overrides c |}.
Definition with_models_dev (c : CatalogCompiler) (catalog : ModelsDevCatalog) : CatalogCompiler :=
  with_bundled c (bundled_offerings_from_models_dev catalog).
Definition with_live (c : CatalogCompiler) (rows : list CatalogOffering) : CatalogCompiler :=
  {| cc_bundled := cc_bundled c; cc_live := cc_live c ++ rows; cc_overrides := cc_overrides c |}.
Definition with_overrides (c : CatalogCompiler) (rows : list CatalogOffering) : CatalogCompiler :=
  {| cc_bundled := cc_bundled c; cc_live := cc_live c; cc_overrides := cc_overrides c ++ rows |}.

(** The order of the keys of the merge. *)
Definition merge_key_le (a b : str * str) : bool :=
  if bool_decide (a.1 = b.1) then str_le a.2 b.2 else str_le a.1 b.1.

(** [compile]: rows are inserted in the order of the layers, and listed in the
    order of their keys. *)
Definition merged_rows (c : CatalogCompiler) : gmap (str * str) CatalogOffering :=
  fold_left (fun m row => <[merge_key row := row]> m) (cc_bundled c ++ cc_live c ++ cc_overrides c) ∅.
Definition compile (c : CatalogCompiler) : CatalogSnapshot :=
  (stable_sort (fun p q => merge_key_le p.1 q.1) (map_to_list (merged_rows c))).*2.

(** ** Fingerprints *)

Definition rsplit_once_at (s : str) : option (str * str) :=
  match split_once $"@" (rev s) with Some (after, before) => Some (rev before, rev after) | None => None end.

(** The text before the first character of a set, and the rest with it. *)
Fixpoint before_any (p : char -> bool) (s : str) : str * str :=
  match s with
  | [] => ([], [])
  | c :: s' => if p c then ([], s) else let '(a, b) := before_any p s' in (c :: a, b)
  end.

Definition is_slash_char (c : char) : bool := N.eqb c (chr "/").
Definition is_query_or_fragment (c : char) : bool := N.eqb c (chr "?") || N.eqb c (chr "#").

Definition normalize_base_url (base_url : str) : str :=
  let trimmed := trim_end_by is_slash_char (trim base_url) in
  match split_once $"://" trimmed with
  | Some (scheme, rest) =>
      let scheme := to_ascii_lowercase scheme in
      let '(authority, path) := before_any is_slash_char rest in
      let authority := to_ascii_lowercase authority in
      let default_port :=
        if bool_decide (scheme = $"https") then Some $":443"
        else if bool_decide (scheme = $"http") then Some $":80" else None in
      let authority := match default_port with
                       | Some port => default authority (strip_suffix port authority)
                       | None => authority
                       end in
      scheme ++ $"://" ++ authority ++ path
  | None => to_ascii_lowercase trimmed
  end.

Definition REDACTED : str := $"invalid-or-secret-bearing-url".

Definition secret_free_fingerprint_input (base_url : str) : str :=
  let trimmed := trim base_url in
  match split_once $"://" trimmed with
  | Some (scheme, rest) =>
      let scheme := to_ascii_lowercase scheme in
      if negb (is_one_of scheme [$"http"; $"https"]) then REDACTED
      else
        let '(authority_with_userinfo, tail) := before_any is_slash_char rest in
        if existsb is_query_or_fragment authority_with_userinfo then REDACTED
        else
          let authority := match rsplit_once_at authority_with_userinfo with
                           | Some (_, host) => host
                           | None => authority_with_userinfo
                           end in
          if str_is_empty authority then REDACTED
          else normalize_base_url (scheme ++ $"://" ++ authority ++ (before_any is_query_or_fragment tail).1)
  | None => normalize_base_url (before_any is_query_or_fragment trimmed).1
  end.

(** [base_url_fingerprint]: the digest of the normalized text in hexadecimal. *)
Definition hex_digit (n : N) : char := if (n <? 10)%N then (48 + n)%N else (87 + n)%N.
Definition hex_byte (b : N) : str := [hex_digit (b / 16)%N; hex_digit (b mod 16)%N].
Definition base_url_fingerprint (sha256 : list N -> list N) (base_url : str) : str :=
  sha256 (as_bytes (secret_free_fingerprint_input base_url)) ≫= hex_byte.

(** ** The rows of a snapshot *)

Definition last_row (k : str * str) (rows : list CatalogOffering) : option CatalogOffering :=
  last (retain (fun row => bool_decide (merge_key row = k)) rows).

(** The row of a key: the last one of the highest layer that has any. *)
Definition layered_row (c : CatalogCompiler) (k : str * str) : option CatalogOffering :=
  or_else (last_row k (cc_overrides c)) (or_else (last_row k (cc_live c)) (last_row k (cc_bundled c))).

Lemma last_row_app k rows rows' : last_row k (rows ++ rows') = or_else (last_row k rows') (last_row k rows).
Proof.
  unfold last_row. rewrite retain_app, last_app. by destruct (last (retain _ rows')).
Qed.

Lemma last_row_key k rows row : last_row k rows = Some row -> merge_key row = k.
Proof.
  unfold last_row. intros H. apply last_Some in H as [l Hl].
  assert (Hin : row ∈ retain (fun row => bool_decide (merge_key row = k)) rows) by (rewrite Hl; set_solver).
  apply elem_of_retain in Hin as [Hk _]. by apply bool_decide_eq_true in Hk.
Qed.

Lemma merged_rows_lookup c k : merged_rows c !! k = layered_row c k.
Proof.
  unfold merged_rows, layered_row. rewrite <- !last_row_app, <- app_assoc.
  generalize (cc_bundled c ++ cc_live c ++ cc_overrides c). intros rows.
  induction rows as [|row rows IH] using rev_ind; [apply lookup_empty|].
  rewrite fold_left_app, last_row_app. cbn. unfold last_row at 1. cbn. case_bool_decide as E.
  - subst k. by rewrite lookup_insert_eq.
  - by rewrite lookup_insert_ne.
Qed.

Lemma merge_key_le_total a b : merge_key_le a b = true \/ merge_key_le b a = true.
Proof.
  unfold merge_key_le. destruct (decide (a.1 = b.1)) as [E|E].
  - rewrite E, !bool_decide_eq_true_2 by done. apply str_le_total.
  - rewrite !bool_decide_eq_false_2 by congruence. apply str_le_total.
Qed.

Lemma merge_key_le_trans a b c : merge_key_le a b = true -> merge_key_le b c = true -> merge_key_le a c = true.
Proof.
  unfold merge_key_le. destruct (decide (a.1 = b.1)) as [E|E], (decide (b.1 = c.1)) as [F|F];
    rewrite ?(bool_decide_eq_true_2 _ E), ?(bool_decide_eq_false_2 _ E), ?(bool_decide_eq_true_2 _ F),
      ?(bool_decide_eq_false_2 _ F); intros H1 H2.
  - rewrite bool_decide_eq_true_2 by congruence. by eapply str_le_trans.
  - rewrite bool_decide_eq_false_2 by congruence. congruence.
  - rewrite bool_decide_eq_false_2 by congruence. congruence.
  - rewrite bool_decide_eq_false_2; [by eapply str_le_trans|].
    intros Hac. rewrite Hac in H1. apply F. by apply str_le_antisym.
Qed.

(** A snapshot has one row for each identity, the last row of the highest
    layer that has one, in the order of the identities. *)
Theorem compiled_catalogue_is_layered c :
  (forall row, row ∈ compile c <-> layered_row c (merge_key row) = Some row)
  /\ NoDup (merge_key <$> compile c)
  /\ StronglySorted (fun a b => merge_key_le (merge_key a) (merge_key b) = true) (compile c).
Proof.
  set (le := fun p q : (str * str) * CatalogOffering => merge_key_le p.1 q.1).
  set (entries := stable_sort le (map_to_list (merged_rows c))).
  assert (Hperm : entries ≡ₚ map_to_list (merged_rows c)) by apply stable_sort_perm.
  assert (Hin : forall k row, (k, row) ∈ entries <-> layered_row c k = Some row).
  { intros k row. rewrite Hperm, elem_of_map_to_list. by rewrite merged_rows_lookup. }
  assert (Hkey : forall k row, (k, row) ∈ entries -> k = merge_key row).
  { intros k row H. apply Hin in H. symmetry. unfold layered_row in H.
    repeat (apply or_else_Some in H as [H|[_ H]]); by eapply last_row_key. }
  assert (Hmap : merge_key <$> compile c = entries.*1).
  { unfold compile. fold le entries. rewrite <- list_fmap_compose. apply list_fmap_ext.
    intros i [k row] Hi. cbn. symmetry. apply Hkey. by eapply list_elem_of_lookup_2. }
  split_and!.
  - intros row. unfold compile. fold le entries. rewrite list_elem_of_fmap. split.
    + intros ([k row'] & -> & H). cbn. rewrite <- (Hkey _ _ H). by apply Hin.
    + intros H. exists (merge_key row, row). split; [done|]. by apply Hin.
  - rewrite Hmap, Hperm. apply NoDup_fst_map_to_list.
  - assert (Hs : sorted_by le entries).
    { apply stable_sort_sorted; intros; [apply merge_key_le_total|by eapply merge_key_le_trans]. }
    unfold sorted_by in Hs. change (StronglySorted (fun a b => merge_key_le (merge_key a) (merge_key b) = true) entries.*2).
    clearbody entries. clear Hperm Hin Hmap. induction Hs as [|[k row] l Hl IH Hall]; [constructor|].
    cbn. constructor; [apply IH; intros; apply Hkey; set_solver|].
    rewrite Forall_fmap. rewrite Forall_forall in Hall |- *. intros [k' row'] Hx. cbn.
    rewrite <- (Hkey k row), <- (Hkey k' row') by set_solver. by apply (Hall _ Hx).
Qed.

(** ** Prices *)

Lemma route_pricing_sku_cost row : route_pricing_sku row = route_pricing_sku_from_cost (row_cost row).
Proof.
  unfold route_pricing_sku, route_pricing_sku_from_cost, from_catalog_offering.
  destruct (row_cost row) as [cost|]; [|done]. cbn [mbind option_bind]. destruct (catalog_cost_is_valid cost); [|done]. cbn [negb].
  destruct (bool_decide (cost_input cost = None)) eqn:Ei, (bool_decide (cost_output cost = None)) eqn:Eo; cbn;
    try (unfold to_route_sku; cbn; by rewrite Ei, Eo).
  destruct (_ && _); [done|]. unfold to_route_sku. cbn. by rewrite Ei, Eo.
Qed.

(** The two ways from a model of the catalogue to an offering agree: the one
    of [models_dev.rs], and the one through a row of any layer. *)
Theorem rows_project_to_the_same_offering source provider_id m :
  to_offering (row_of source provider_id m) = offering_of provider_id m.
Proof.
  unfold to_offering, offering_of. cbn. by rewrite route_pricing_sku_cost.
Qed.

Lemma add_class_acceptable p u total c total' :
  add_class p u total c = Some total' -> acceptable total = true ->
  acceptable total' = true /\ (0 < class_tokens c u -> is_Some (price_per_million p c)).
Proof.
  unfold add_class. case_match eqn:Et; [|intros [= <-] ?; split; [done|lia]].
  destruct (price_per_million p c) as [price|]; [|done]. cbn. case_match; [|done].
  case_match eqn:Ea; [|done]. intros [= <-] _. eauto.
Qed.

Lemma estimate_classes_acceptable p u cs : forall total total',
  estimate_classes p u total cs = Some total' -> acceptable total = true ->
  acceptable total' = true /\ forall c, c ∈ cs -> 0 < class_tokens c u -> is_Some (price_per_million p c).
Proof.
  induction cs as [|c cs IH]; cbn; intros total total'.
  - intros [= <-] ?. split; [done|]. set_solver.
  - destruct (add_class p u total c) as [t|] eqn:E; [|done]. cbn. intros H Ha.
    destruct (add_class_acceptable _ _ _ _ _ E Ha) as [Ht Hp]. destruct (IH _ _ H Ht) as [? Hc].
    split; [done|]. intros c' [->|?]%elem_of_cons; auto.
Qed.

(** An estimate covers everything that was used: it exists only when every
    class of tokens that was used has a price, and then it is a finite number
    that is not negative. *)
Theorem estimates_cover_what_was_used p u total :
  estimate_cost p u = Some total ->
  unpriced_used_classes p u = [] /\ f64_is_finite total = true /\ SFltb total (S754_zero false) = false.
Proof.
  intros H. destruct (estimate_classes_acceptable _ _ _ _ _ H eq_refl) as [Ha Hc].
  apply andb_prop in Ha as [Hf Hn%negb_true_iff]. split_and!; [|done|done].
  apply elem_of_nil_inv. intros c [Hu _]%elem_of_retain. apply andb_prop in Hu as [Ht Hp%bool_decide_eq_true].
  apply Z.ltb_lt in Ht. assert (Hin : c ∈ TokenClass_ALL) by (destruct c; set_solver).
  specialize (Hc c Hin Ht). rewrite Hp in Hc. by destruct Hc.
Qed.

(** A live price is used only on the endpoint it was fetched from, and only
    while it is fresh. *)
Theorem live_prices_are_bound p route_fingerprint now max_age :
  op_provenance p = ProviderLive -> live_pricing_defect p route_fingerprint now max_age = None ->
  exists f t n, op_endpoint_fingerprint p = Some f /\ route_fingerprint = Some f
    /\ op_effective_at p = Some t /\ now = Some n /\ u64_saturating_sub n t < max_age.
Proof.
  unfold live_pricing_defect. intros ->. destruct (op_endpoint_fingerprint p) as [f|]; [|by destruct route_fingerprint].
  destruct route_fingerprint as [g|]; [|done]. case_bool_decide as E; [done|]. subst f.
  destruct (op_effective_at p) as [t|], now as [n|]; try done. case_match eqn:El; [done|]. intros _.
  exists g, t, n. split_and!; [done..|lia].
Qed.

(** ** The cache *)

Inductive cache_op :=
| Success (d : ProviderCatalogDelta) (ttl_secs : Z)
| Failure (provider base_url_fingerprint : str) (reason : CatalogRefreshError).

Definition cache_step (c : ProviderCatalogCache) (op : cache_op) : ProviderCatalogCache :=
  match op with
  | Success d ttl_secs => record_success c d ttl_secs
  | Failure provider fingerprint reason => record_failure c provider fingerprint reason
  end.
Definition cache_run (ops : list cache_op) : ProviderCatalogCache := fold_left cache_step ops ∅.

Definition op_key (op : cache_op) : str :=
  match op with
  | Success d _ => cache_key (delta_provider d) (delta_base_url_fingerprint d)
  | Failure provider fingerprint _ => cache_key provider fingerprint
  end.

(** The rows a refresh leaves to be served at a time. *)
Definition served (op : cache_op) (now : Z) : list CatalogOffering :=
  match op with
  | Success d ttl_secs =>
      if u64_saturating_sub now (delta_fetched_at d) <? ttl_secs
      then with_source (Live (delta_base_url_fingerprint d) (delta_fetched_at d)) <$> delta_offerings d else []
  | Failure _ _ _ => []
  end.

Lemma cache_step_other c op k : op_key op <> k -> cache_step c op !! k = c !! k.
Proof.
  destruct op as [d ttl|p f r]; cbn; intros Hk.
  - by apply lookup_insert_ne.
  - unfold record_failure. cbv zeta. case_match; by apply lookup_insert_ne.
Qed.

Lemma cache_step_served c op now :
  exists e, cache_step c op !! op_key op = Some e
    /\ (if is_fresh e now then cached_offerings e else []) = served op now.
Proof.
  destruct op as [d ttl|p f r]; cbn.
  - eexists. split; [apply lookup_insert_eq|]. unfold is_fresh, is_stale, age_secs. cbn.
    rewrite andb_true_r, Z.ltb_antisym. done.
  - unfold record_failure. cbv zeta. case_match; eexists; (split; [apply lookup_insert_eq|]); unfold is_fresh; cbn;
      by rewrite andb_false_r.
Qed.

(** The last refresh of a scope decides what is served for it: its rows,
    marked with the endpoint and the time they were fetched, until they
    expire, and nothing after a failure, whatever rows the entry still holds. *)
Theorem served_rows_are_of_the_last_refresh ops provider fingerprint now :
  fresh_offerings (cache_run ops) provider fingerprint now
  = match last (retain (fun op => bool_decide (op_key op = cache_key provider fingerprint)) ops) with
    | Some op => served op now
    | None => []
    end.
Proof.
  unfold fresh_offerings, cache_get. generalize (cache_key provider fingerprint) as k. intros k.
  unfold cache_run. induction ops as [|op ops IH] using rev_ind; [reflexivity|].
  rewrite fold_left_app, retain_app, last_app. cbn. case_bool_decide as E; cbn; [subst k|].
  - destruct (cache_step_served (fold_left cache_step ops ∅) op now) as (e & -> & He). done.
  - rewrite cache_step_other by done. done.
Qed.

(** Scopes are apart: without the separator in a name, equal keys are equal
    providers and fingerprints. *)
Lemma cache_key_inj p f p' f' :
  unit_separator ∉ trim p -> unit_separator ∉ trim p' ->
  cache_key p f = cache_key p' f' -> trim p = trim p' /\ trim f = trim f'.
Proof. intros. by apply app_sep_inj with unit_separator. Qed.

(** ** What enters a fingerprint *)

Example userinfo_is_left_out :
  secret_free_fingerprint_input $"https://key@API.example.com:443/v1/?q=secret"
  = secret_free_fingerprint_input $"https://api.example.com/v1/".
Proof. vm_compute. reflexivity. Qed.

Example userinfo_without_a_scheme_is_digested :
  secret_free_fingerprint_input $"user:secret@api.example.com/v1" = $"user:secret@api.example.com/v1".
Proof. vm_compute. reflexivity. Qed.
