(* ===== verification/Routes.v ===== *)
(** * The resolution of a route

    [crates/config/src/route/resolver.rs], with the records of
    [candidate.rs], [descriptor.rs] and [errors.rs]: a request names a provider
    and a model, and the resolver, which owns a list of offerings, returns the
    endpoint, the protocol, the model id to send and the facts known of it, or
    why it will not.  The committed catalogue asset is a parameter of
    [default_offerings]; the text of the errors is not modelled. *)

From S2P Require Import Text Providers ModelNames RuntimeOptions Catalog.

(** ** Candidates *)

Inductive ResolvedAuthSource := AuthCli | AuthConfigFile | AuthKeyring | AuthEnv | AuthCommand | AuthSecret | Missing | Unresolved.
Inductive LimitField := ContextTokens | InputTokens | OutputTokens.
Inductive OverrideSource :=
| UserContextWindow | CodexPublicApiLimitStrip | CodexRosterCorrection | ProviderReportedContextWindow
| MembershipPlanSafeFloor | DocumentedRouteOutputMaximum.
Record SourcedLimitOverride := { lo_field : LimitField; lo_value : option Z; lo_source : OverrideSource }.

Record ResolvedEndpoint := { re_base_url : str; re_endpoint_key : str; re_protocol : WireFormat }.
Record ValidationReport := { vr_ok : bool; vr_messages : list str }.

Record ReadyRouteCandidate := {
  rc_provider_id : ProviderId; rc_provider_kind : ProviderKind; rc_logical_model : LogicalModelRef;
  rc_canonical_model : option ModelId; rc_wire_model_id : WireModelId; rc_endpoint : ResolvedEndpoint;
  rc_auth : ResolvedAuthSource; rc_protocol : WireFormat; rc_limits : RouteLimits;
  rc_capabilities : RouteCapabilities; rc_pricing : option PricingSku; rc_validation : ValidationReport;
  rc_applied_limit_overrides : list SourcedLimitOverride }.

Inductive RouteError :=
| EmptyModel
| InvalidProvider (name : str)
| AmbiguousModel (providers : list ProviderId)
| ForeignModelForDirectProvider (provider : ProviderId) (model : str)
| UnsupportedModelProtocol (provider : ProviderId) (model endpoint_key : str).

Record RouteRequest := {
  explicit_provider : option ProviderKind; model_selector : option LogicalModelRef;
  saved_provider_model : option WireModelId; base_url_override : option str;
  limit_overrides : list SourcedLimitOverride }.

(** ** Descriptors *)

Record ProviderDescriptor := { pd_kind : ProviderKind; pd_inner : Provider }.
Definition for_kind (k : ProviderKind) : ProviderDescriptor := {| pd_kind := k; pd_inner := provider_for_kind k |}.
Definition descriptor_id (d : ProviderDescriptor) : ProviderId := {| provider_str := id (pd_inner d) |}.
Definition default_wire_model (d : ProviderDescriptor) : WireModelId := {| wire_str := default_model (pd_inner d) |}.
Definition protocol_for_endpoint (d : ProviderDescriptor) (endpoint_key : str) : option WireFormat :=
  resolve (wire_policy (pd_inner d)) endpoint_key.

(** ** Endpoints without encryption *)

Definition strip_http_scheme (base_url : str) : option str :=
  match split_once $"://" base_url with
  | Some (scheme, rest) => if eq_ignore_ascii_case scheme $"http" then Some rest else None
  | None => None
  end.

Definition host_of_authority (rest : str) : str :=
  let authority := last_piece (chr "@") (first_piece (chr "/") rest) in
  match strip_prefix $"[" authority with
  | Some inner => first_piece (chr "]") inner
  | None => first_piece (chr ":") authority
  end.

Definition is_loopback_host (host : str) : bool :=
  let host := trim_matches is_bracket (trim host) in
  eq_ignore_ascii_case host $"localhost"
  || bool_decide (host = $"127.0.0.1")
  || bool_decide (host = $"::1")
  || (starts_with $"127." host && (length (split_char (chr ".") host) =? 4)%nat).

Definition endpoint_uses_insecure_http (base_url : str) : bool :=
  match strip_http_scheme (trim base_url) with
  | Some rest => negb (is_loopback_host (host_of_authority rest))
  | None => false
  end.

(** ** The resolver *)

Inductive ProviderClass := StrictDirect | Aggregator | LocalOrCustom.

#[export] Instance ProviderClass_eq_dec : EqDecision ProviderClass.
Proof. solve_decision. Defined.

Definition classify (k : ProviderKind) : ProviderClass :=
  match k with
  | ProviderKind.Deepseek | ProviderKind.Zai => StrictDirect
  | ProviderKind.Ollama | ProviderKind.Vllm | ProviderKind.Sglang | ProviderKind.Openai => LocalOrCustom
  | _ => Aggregator
  end.

Definition request_uses_custom_endpoint (d : ProviderDescriptor) (base_url_override : option str) : bool :=
  match base_url_override with
  | Some base_url => provider_preserves_custom_base_url_model (pd_kind d) base_url
  | None => false
  end.

Definition provider_scoped_wire_alias (k : ProviderKind) (raw : str) (class : ProviderClass) : str :=
  if bool_decide (class = LocalOrCustom) then raw
  else if bool_decide (k = ProviderKind.Together)
          && (eq_ignore_ascii_case raw $"inkling" || eq_ignore_ascii_case raw $"together-inkling")
  then $"thinkingmachines/inkling"
  else if bool_decide (k = ProviderKind.Openrouter)
          && (eq_ignore_ascii_case raw $"qwen3.7-plus" || eq_ignore_ascii_case raw $"qwen-3.7-plus")
  then $"qwen/qwen3.7-plus"
  else raw.

(** The facts of an offering. *)
Record ResolvedOffering := {
  so_wire_model_id : WireModelId; so_canonical_model : option ModelId; so_endpoint_key : str;
  so_limits : RouteLimits; so_capabilities : RouteCapabilities; so_pricing : PricingSku }.
Definition unknown_offering (w : WireModelId) : ResolvedOffering :=
  {| so_wire_model_id := w; so_canonical_model := None; so_endpoint_key := $"chat"; so_limits := no_limits;
     so_capabilities := default_capabilities; so_pricing := UnknownOrStale |}.
Definition from_offering (o : ProviderModelOffering) : ResolvedOffering :=
  {| so_wire_model_id := off_wire_model_id o; so_canonical_model := off_canonical_model o;
     so_endpoint_key := off_endpoint_key o; so_limits := off_limits o; so_capabilities := off_capabilities o;
     so_pricing := off_pricing o |}.

Definition RouteResolver : Type := list ProviderModelOffering.

Definition default_offering (os : RouteResolver) (provider_id : ProviderId) : option ProviderModelOffering :=
  find (fun o => bool_decide (off_provider o = provider_id) && off_default_for_provider o) os.

(** Whether an offering goes by a name: its wire id, or its canonical one. *)
Definition names (text : str) (o : ProviderModelOffering) : bool :=
  match off_canonical_model o with Some m => bool_decide (model_str m = text) | None => false end
  || bool_decide (wire_str (off_wire_model_id o) = text).

Definition own_offering (os : RouteResolver) (provider_id : ProviderId) (text : str) : option ProviderModelOffering :=
  find (fun o => bool_decide (off_provider o = provider_id) && names text o) os.

Definition selector_matches_other_provider_offering (os : RouteResolver) (provider_id : ProviderId) (text : str) : bool :=
  existsb (fun o => bool_decide (off_provider o <> provider_id) && names text o) os.

(** The name a selector stands for with a provider. *)
Definition scoped_name (k : ProviderKind) (class : ProviderClass) (selector : str) : option str :=
  match k with
  | ProviderKind.OpencodeGo => opencode_go_chat_model_id selector
  | ProviderKind.OpencodeZen =>
      Some (default selector (or_else (strip_prefix $"opencode/" selector) (strip_prefix $"opencode-zen/" selector)))
  | _ => Some (provider_scoped_wire_alias k selector class)
  end.

Definition scope_selector (os : RouteResolver) (k : ProviderKind) (provider_id : ProviderId) (m : LogicalModelRef)
    (class : ProviderClass) (require_catalog_match : bool) : result RouteError ResolvedOffering :=
  match scoped_name k class (raw m) with
  | None => Err (ForeignModelForDirectProvider provider_id (raw m))
  | Some text =>
      match own_offering os provider_id text with
      | Some o => Ok (from_offering o)
      | None =>
          if require_catalog_match then Err (UnsupportedModelProtocol provider_id text $"unproven")
          else if bool_decide (class = StrictDirect)
                  && (selector_matches_other_provider_offering os provider_id text
                      || bool_decide (is_Some (namespace_hint m)))
          then Err (ForeignModelForDirectProvider provider_id text)
          else Ok (unknown_offering {| wire_str := text |})
      end
  end.

Definition without_web_search (c : RouteCapabilities) : RouteCapabilities :=
  {| attachments := attachments c; image_input := image_input c; reasoning := reasoning c;
     native_tool_calls := native_tool_calls c; structured_output := structured_output c;
     parallel_tool_calls := parallel_tool_calls c; streaming := streaming c; prompt_caching := prompt_caching c;
     server_side_web_search := Unknown |}.

Definition apply_override (l : RouteLimits) (o : SourcedLimitOverride) : RouteLimits :=
  match lo_field o with
  | ContextTokens => {| context_tokens := lo_value o; input_tokens := input_tokens l; output_tokens := output_tokens l |}
  | InputTokens => {| context_tokens := context_tokens l; input_tokens := lo_value o; output_tokens := output_tokens l |}
  | OutputTokens => {| context_tokens := context_tokens l; input_tokens := input_tokens l; output_tokens := lo_value o |}
  end.

(** The selector of a request: its own, else the saved model, else the
    provider's default. *)
Definition request_selector (os : RouteResolver) (req : RouteRequest) (d : ProviderDescriptor) : LogicalModelRef :=
  match model_selector req with
  | Some selector => selector
  | None =>
      {| raw := match saved_provider_model req with
                | Some w => wire_str w
                | None => match default_offering os (descriptor_id d) with
                          | Some o => wire_str (off_wire_model_id o)
                          | None => wire_str (default_wire_model d)
                          end
                end |}
  end.

(** The class of a request: an endpoint of the user's passes models through. *)
Definition request_class (req : RouteRequest) (d : ProviderDescriptor) : ProviderClass :=
  if request_uses_custom_endpoint d (base_url_override req) then LocalOrCustom else classify (pd_kind d).

Definition is_model_aware (d : ProviderDescriptor) : bool :=
  match wire_policy (pd_inner d) with ModelAware => true | Fixed _ => false end.

(** The offering a request selects. *)
Definition select_offering (os : RouteResolver) (req : RouteRequest) (d : ProviderDescriptor) (m : LogicalModelRef) :
    result RouteError ResolvedOffering :=
  if is_auto m
  then match default_offering os (descriptor_id d) with
       | Some o => Ok (from_offering o)
       | None =>
           if is_model_aware d
           then Err (UnsupportedModelProtocol (descriptor_id d) (wire_str (default_wire_model d)) $"unproven")
           else Ok (unknown_offering (default_wire_model d))
       end
  else scope_selector os (pd_kind d) (descriptor_id d) m (request_class req d) (is_model_aware d).

Definition insecure_http_message : str := $"endpoint uses insecure http:// (credentials sent in plaintext)".

(** The default of [ProviderKind]. *)
Definition default_kind : ProviderKind := ProviderKind.Deepseek.

Definition resolve_route (os : RouteResolver) (req : RouteRequest) : result RouteError ReadyRouteCandidate :=
  let k := default default_kind (explicit_provider req) in
  let d := for_kind k in
  let m := request_selector os req d in
  if str_is_empty (raw m) then Err EmptyModel
  else
    selected ← select_offering os req d m;
    let capabilities :=
      if request_uses_custom_endpoint d (base_url_override req) then without_web_search (so_capabilities selected)
      else so_capabilities selected in
    match protocol_for_endpoint d (so_endpoint_key selected) with
    | None => Err (UnsupportedModelProtocol (descriptor_id d) (wire_str (so_wire_model_id selected)) (so_endpoint_key selected))
    | Some protocol =>
        let base_url := default (default_base_url (pd_inner d)) (base_url_override req) in
        Ok {| rc_provider_id := descriptor_id d; rc_provider_kind := k; rc_logical_model := m;
              rc_canonical_model := so_canonical_model selected; rc_wire_model_id := so_wire_model_id selected;
              rc_endpoint := {| re_base_url := base_url; re_endpoint_key := so_endpoint_key selected; re_protocol := protocol |};
              rc_auth := Unresolved; rc_protocol := protocol;
              rc_limits := fold_left apply_override (limit_overrides req) (so_limits selected);
              rc_capabilities := capabilities; rc_pricing := Some (so_pricing selected);
              rc_validation := {| vr_ok := true;
                                  vr_messages := if endpoint_uses_insecure_http base_url then [insecure_http_message] else [] |};
              rc_applied_limit_overrides := limit_overrides req |}
    end.

(** [default_offerings]: the first offering of each identity, those of the
    program before those of the asset. *)
Definition offering_key (o : ProviderModelOffering) : str * str :=
  (provider_str (off_provider o), wire_str (off_wire_model_id o)).
Fixpoint first_of_each (seen : gset (str * str)) (os : list ProviderModelOffering) : list ProviderModelOffering :=
  match os with
  | [] => []
  | o :: os =>
      if bool_decide (offering_key o ∈ seen) then first_of_each seen os
      else o :: first_of_each ({[offering_key o]} ∪ seen) os
  end.
Definition default_offerings (asset : list CatalogOffering) : list ProviderModelOffering :=
  first_of_each ∅ (bundled_offerings ++ (to_offering <$> asset)).

(** ** What a route is made of *)

Lemma model_aware_kinds k : is_model_aware (for_kind k) = bool_decide (k = ProviderKind.OpencodeZen).
Proof. by destruct k. Qed.

Lemma descriptor_id_kind k : descriptor_id (for_kind k) = id_from_kind k.
Proof. reflexivity. Qed.

Lemma fixed_protocol d key : is_model_aware d = false -> is_Some (protocol_for_endpoint d key).
Proof. unfold is_model_aware, protocol_for_endpoint. by destruct (wire_policy (pd_inner d)). Qed.

Lemma own_offering_Some os pid text o :
  own_offering os pid text = Some o -> o ∈ os /\ off_provider o = pid /\ names text o = true.
Proof.
  by intros [Hin [Hp%bool_decide_eq_true Hn]%andb_prop]%find_Some.
Qed.
Lemma default_offering_Some os pid o :
  default_offering os pid = Some o -> o ∈ os /\ off_provider o = pid /\ off_default_for_provider o = true.
Proof.
  by intros [Hin [Hp%bool_decide_eq_true Hn]%andb_prop]%find_Some.
Qed.

(** The origin of the facts of a route: an offering of its own provider that
    answers to the selector, or nothing known but the name. *)
Definition origin (os : RouteResolver) (k : ProviderKind) (class : ProviderClass) (m : LogicalModelRef) (s : ResolvedOffering) : Prop :=
  (exists o, o ∈ os /\ off_provider o = id_from_kind k /\ s = from_offering o
     /\ if is_auto m then off_default_for_provider o = true
        else exists text, scoped_name k class (raw m) = Some text /\ names text o = true)
  \/ (exists w, s = unknown_offering w
        /\ if is_auto m then w = default_wire_model (for_kind k) else scoped_name k class (raw m) = Some (wire_str w)).

Lemma select_offering_origin os req k m s :
  select_offering os req (for_kind k) m = Ok s -> origin os k (request_class req (for_kind k)) m s.
Proof.
  unfold select_offering, origin. destruct (is_auto m) eqn:Ea; rewrite descriptor_id_kind.
  - destruct (default_offering _ _) as [o|] eqn:E.
    + intros [= <-]. left. exists o. destruct (default_offering_Some _ _ _ E) as (? & ? & ?). done.
    + destruct (is_model_aware _); intros [=]. right. eexists. split; [by symmetry|done].
  - unfold scope_selector. cbn [pd_kind for_kind].
    destruct (scoped_name _ _ _) as [text|] eqn:Et; [|done].
    destruct (own_offering _ _ _) as [o|] eqn:E.
    + intros [= <-]. left. exists o. destruct (own_offering_Some _ _ _ _ E) as (? & ? & ?). eauto 6.
    + destruct (is_model_aware _); [done|]. destruct (_ && _); intros [= <-]. right. by eexists.
Qed.

(** A name is kept as it is but for the two documented aliases and the two
    OpenCode providers. *)
Lemma scoped_name_verbatim k class selector text :
  scoped_name k class selector = Some text -> k <> ProviderKind.OpencodeGo -> k <> ProviderKind.OpencodeZen ->
  text = selector \/ class <> LocalOrCustom /\ (text = $"thinkingmachines/inkling" /\ k = ProviderKind.Together
                                                \/ text = $"qwen/qwen3.7-plus" /\ k = ProviderKind.Openrouter).
Proof.
  intros H Hgo Hzen.
  assert (Ht : text = provider_scoped_wire_alias k selector class) by (destruct k; cbn in H; congruence).
  subst text. unfold provider_scoped_wire_alias. case_bool_decide; [by left|].
  destruct (bool_decide (k = ProviderKind.Together) && _) eqn:E1.
  { apply andb_prop in E1 as [?%bool_decide_eq_true _]. auto. }
  destruct (bool_decide (k = ProviderKind.Openrouter) && _) eqn:E2; [|by left].
  apply andb_prop in E2 as [?%bool_decide_eq_true _]. auto 6.
Qed.


(** ** What is refused *)

(** The first offering of a provider that a selector chooses. *)
Definition chosen (os : RouteResolver) (k : ProviderKind) (class : ProviderClass) (m : LogicalModelRef) : option ProviderModelOffering :=
  if is_auto m then default_offering os (id_from_kind k)
  else scoped_name k class (raw m) ≫= own_offering os (id_from_kind k).

(** The documented refusals of a request. *)
Inductive refused (os : RouteResolver) (req : RouteRequest) (k : ProviderKind) (m : LogicalModelRef) : Prop :=
| RefusedEmpty : raw m = [] -> refused os req k m
| RefusedGo :
    k = ProviderKind.OpencodeGo -> is_auto m = false -> opencode_go_chat_model_id (raw m) = None -> refused os req k m
| RefusedZen :
    k = ProviderKind.OpencodeZen ->
    (forall o, chosen os k (request_class req (for_kind k)) m = Some o ->
       protocol_for_endpoint (for_kind k) (off_endpoint_key o) = None) ->
    refused os req k m
| RefusedForeign text :
    request_class req (for_kind k) = StrictDirect -> is_auto m = false ->
    scoped_name k StrictDirect (raw m) = Some text ->
    (forall o, o ∈ os -> off_provider o = id_from_kind k -> names text o = false) ->
    (exists o, o ∈ os /\ off_provider o <> id_from_kind k /\ names text o = true) \/ is_Some (namespace_hint m) ->
    refused os req k m.

Lemma own_offering_None os pid text :
  own_offering os pid text = None <-> forall o, o ∈ os -> off_provider o = pid -> names text o = false.
Proof.
  unfold own_offering. rewrite find_None. split; intros H o Ho.
  - intros Hp. specialize (H o Ho). by rewrite bool_decide_eq_true_2 in H.
  - case_bool_decide; cbn; auto.
Qed.

Lemma other_offering_spec os pid text :
  selector_matches_other_provider_offering os pid text = true
  <-> exists o, o ∈ os /\ off_provider o <> pid /\ names text o = true.
Proof.
  unfold selector_matches_other_provider_offering. rewrite existsb_spec. setoid_rewrite andb_true_iff.
  by setoid_rewrite bool_decide_eq_true.
Qed.

(** Where the protocol is fixed, only a selector is refused. *)
Lemma select_offering_refuses os req k m :
  k <> ProviderKind.OpencodeZen -> raw m <> [] ->
  (exists e, select_offering os req (for_kind k) m = Err e) <-> refused os req k m.
Proof.
  intros Hzen Hne.
  assert (Hma : is_model_aware (for_kind k) = false) by (rewrite model_aware_kinds; by apply bool_decide_eq_false).
  unfold select_offering, scope_selector. rewrite Hma, descriptor_id_kind. cbn [pd_kind for_kind].
  destruct (is_auto m) eqn:Ea.
  { split; [intros [e He]; by destruct (default_offering _ _)|]. intros [| | |]; congruence. }
  destruct (scoped_name k (request_class req (for_kind k)) (raw m)) as [text|] eqn:Et.
  - destruct (own_offering os (id_from_kind k) text) as [o|] eqn:Eo.
    + split; [by intros [e He]|]. destruct (own_offering_Some _ _ _ _ Eo) as (Hin & Hp & Hn).
      intros [? | -> _ Hgo |?|t Hc _ Ht Hnone _]; [done| |done|].
      * cbn in Et. congruence.
      * rewrite Hc in Et. assert (t = text) as -> by congruence. by rewrite (Hnone o Hin Hp) in Hn.
    + rewrite own_offering_None in Eo.
      destruct (bool_decide (request_class req (for_kind k) = StrictDirect) && _) eqn:E.
      * apply andb_prop in E as [Hc%bool_decide_eq_true Hor]. rewrite Hc in Et.
        split; [intros _|by eauto]. eapply RefusedForeign; eauto. rewrite <- other_offering_spec.
        apply orb_prop in Hor as [?|?%bool_decide_eq_true]; eauto.
      * split; [by intros [e He]|]. intros [? | -> _ Hgo |?|t Hc _ Ht _ Hor]; [done| |done|].
        { cbn in Et. congruence. }
        rewrite Hc in Et, E. assert (t = text) as -> by congruence. rewrite bool_decide_eq_true_2 in E by done.
        apply orb_false_iff in E as [E1 E2%bool_decide_eq_false]. rewrite <- other_offering_spec, E1 in Hor. naive_solver.
  - split; [intros _|by eauto]. assert (k = ProviderKind.OpencodeGo) as -> by (destruct k; cbn in Et; congruence).
    by apply RefusedGo.
Qed.

(** A model-aware provider has no route without an offering. *)
Lemma select_offering_model_aware os req k m :
  is_model_aware (for_kind k) = true ->
  match chosen os k (request_class req (for_kind k)) m with
  | Some o => select_offering os req (for_kind k) m = Ok (from_offering o)
  | None => exists e, select_offering os req (for_kind k) m = Err e
  end.
Proof.
  intros Hma. unfold chosen, select_offering, scope_selector. rewrite Hma, descriptor_id_kind. cbn [pd_kind for_kind].
  destruct (is_auto m); [by destruct (default_offering _ _); eauto|].
  destruct (scoped_name _ _ _) as [text|]; cbn; [|by eauto]. by destruct (own_offering _ _ _); eauto.
Qed.


(** ** Routes of the offerings of the program *)

Definition request_for (k : ProviderKind) (selector : str) (url : option str) : RouteRequest :=
  {| explicit_provider := Some k; model_selector := Some {| raw := selector |}; saved_provider_model := None;
     base_url_override := url; limit_overrides := [{| lo_field := ContextTokens; lo_value := Some 4096; lo_source := UserContextWindow |}] |}.

Definition route_summary (r : result RouteError ReadyRouteCandidate) : option (str * WireFormat * option Z * list str) :=
  match r with
  | Ok c => Some (wire_str (rc_wire_model_id c), rc_protocol c, context_tokens (rc_limits c), vr_messages (rc_validation c))
  | Err _ => None
  end.

Example zen_route :
  route_summary (resolve_route (default_offerings []) (request_for ProviderKind.OpencodeZen $"opencode/gpt-5.5" None))
  = Some ($"gpt-5.5", Responses, Some 4096, []).
Proof. vm_compute. reflexivity. Qed.

Example foreign_name_on_its_own_endpoint :
  route_summary (resolve_route (default_offerings []) (request_for ProviderKind.Deepseek $"anthropic/claude" None)) = None
  /\ route_summary (resolve_route (default_offerings [])
       (request_for ProviderKind.Deepseek $"anthropic/claude" (Some $"http://gateway.example/v1")))
     = Some ($"anthropic/claude", ChatCompletions, Some 4096, [insecure_http_message]).
Proof. split; vm_compute; reflexivity. Qed.

(** The advisory misses a name of four labels that begins like a loopback
    address, and an authority that ends at a query. *)
Example names_taken_for_loopback :
  endpoint_uses_insecure_http $"http://127.evil.example.com/v1" = false
  /\ endpoint_uses_insecure_http $"http://evil.example?@localhost" = false
  /\ endpoint_uses_insecure_http $"http://evil.example/v1" = true.
Proof. repeat split; vm_compute; reflexivity. Qed.

